(* ===== verification/_CoqProject ===== *)
-Q . S2P
Prelude.v
Intset.v
Util.v
Dict.v
DictScan.v
Adlist.v
Sds.v
SdsParse.v
Skiplist.v
Bits.v
Crc.v
Lzf.v
Ziplist.v
ZiplistRep.v
ZiplistOps.v
ZiplistQuery.v
Rio.v
Rdb.v
Resp.v
RespStream.v
Repl.v
ReplStream.v
Bitops.v
BitScan.v
BitField.v
BitCmd.v
Keyspace.v
Multi.v
KeyspaceInv.v
KeyspaceCmd.v
CommandLog.v
Watch.v
ExecFeed.v
Progress.v
ClusterSlots.v
ClusterConfig.v
ClusterFailover.v
ClusterElection.v
