(* ===== verification/Prelude.v ===== *)
(** * Redis 4.0.6: a verification development

    The C core of the repository is the Redis 4.0.6 server, under src/redis-4.0.6/src; the
    web application around it (app/) uses it as a store. This library translates parts of
    the server to Rocq functions and proves what makes them correct. All file names below
    are of src/redis-4.0.6/src.

    ** How the code is modelled

    A C integer is a [Z] with the conversions of its width written out ([u8] ... [s64]
    below); bytes are [Z] in 0..255 and a block of memory is the list of its bytes, read
    and written by [rd], [wr] and [memmove], which are [None] out of bounds. A function that
    the code could leave by a fault (an access out of bounds, a failed assertion, a NULL
    pointer) returns an option, and a theorem that gives it a [Some] result says that it does
    not fault. Pointers into linked structures are keys of a heap (Adlist, Skiplist, the
    nodes of the cluster). Allocation succeeds. Time, random numbers and what [read] returns
    are inputs.

    ** Components

    - Prelude: machine integers, memory, the tactics and lemmas the files share.
    - Bits: bits of integers, and the class [Additive] of maps that respect exclusive or.
    - Intset (intset.c): the sorted array of integers with its three widths, at the level of
      its bytes; it refines a finite set of 64-bit integers.
    - Util (util.c): decimal conversion and glob matching.
    - Dict, DictScan (dict.c): the hash table with its two tables and incremental rehashing
      refines a finite map; rehashing ends; SCAN cursors end and return every key that stays,
      while the table does not shrink.
    - Adlist (adlist.c): the doubly linked list refines a sequence.
    - Sds, SdsParse (sds.c, sds.h): dynamic strings with their headers at the level of bytes;
      splitting, quoting and parsing of arguments.
    - Skiplist (t_zset.c): the skip list of sorted sets with its spans and backward pointers;
      insertion, deletion, ranks and ranges are those of a sequence sorted by score and bytes.
    - Crc (crc16.c, crc64.c): the table-driven checksums equal their bit-serial definitions;
      Crc also has the hash slot of a key (cluster.c, keyHashSlot).
    - Lzf (lzf_c.c, lzf_d.c): compression; interface [Lzf]/[LzfLaws] for its client Rdb.
    - Ziplist, ZiplistRep, ZiplistOps, ZiplistQuery (ziplist.c, ziplist.h): the compact list
      in one block of bytes, with its entries, the cascading updates of their back links and
      the header; insertion, deletion, merging and the queries are those of a sequence of
      integers and strings.
    - Rio (rio.h, rio.c): streams with checksums; interface [Stream]/[StreamLaws].
    - Rdb (rdb.c): lengths, integers and strings of the dump format, proved against the
      interfaces of Rio and Lzf.
    - Resp, RespStream (networking.c, aof.c): the query buffer of a client, both request
      formats, the loop that executes commands, and the encoding of commands for the append
      only file and the slaves. [processCommand] is a parameter of these files; [serve]
      delivers a stream in reads of arbitrary sizes.
    - Repl, ReplStream (replication.c, parts of networking.c, server.c and object.c): the
      replication stream of a master: backlog, full and partial synchronisation, slaves that
      attach and detach, and the commands propagated to them; a slave that reads the stream
      with the functions of Resp.
    - Bitops, BitScan, BitField, BitCmd (bitops.c): the bit operations on strings: counting,
      searching, BITOP, and bit fields with their parser and overflow rules.
    - Keyspace (db.c, parts of expire.c, lazyfree.c, evict.c, server.c and t_string.c):
      databases, deadlines and the commands on keys, with AUTH and PING, as state transformers
      on [server]; SETBIT is that of Bitops. The record [conditions] has what the server looks
      at before it executes a request (password, memory, disk, slaves, link to its master).
    - Multi (multi.c, parts of server.c and networking.c): transactions, watched keys, and the
      functions that refuse ([refusal]), execute, queue and propagate commands; [run] executes
      a sequence of [event]s: requests, connections, disconnections, passing time, active
      expiry, evictions and changes of the conditions.
    - KeyspaceInv, KeyspaceCmd, CommandLog, Watch, ExecFeed, Progress: the invariant [wf] of
      databases and clients, the effect of every command on it and on what is propagated
      ([does]), and the properties of transactions. The lemmas are weakest preconditions ([wp])
      that follow one key watched by one client.
    - ClusterSlots, ClusterConfig (cluster.c, cluster.h): the view one node has of the cluster:
      owners of slots, roles, configuration updates, epochs, the state of the cluster and the
      takeover by a slave.
    - ClusterFailover, ClusterElection (cluster.c): the messages and handlers of a failover
      election and of the manual failover, and a system of nodes that exchange them over a
      network that delays, reorders and loses packets ([exec], [step]), while other packets
      change what the nodes know ([gossip]).

    ** What the theorems show

    Refinement: intset, dict, adlist, skip list, sds, ziplist and BITFIELD operations have the
    effect of the corresponding operation on sets, maps, sequences and arrays of bits, on
    every branch. Round trips: LZF, RDB strings, decimal text, quoted arguments, and a stream
    of commands parsed from reads of any sizes. Equivalence: checksums, glob matching, and the
    word-wise loops of BITCOUNT, BITPOS and BITOP with reference definitions. Types and
    bounds: the operations BITFIELD parses and its overflow rules. Termination: rehashing and
    scanning. Replication: every slave that is online has received exactly the bytes of the
    stream from its offset on, also after a partial synchronisation; and after a full one,
    through all changes of the master, the stream of a slave carries out exactly the writes
    since its dump, each in the database it was made in. Transactions: no sequence of
    events fails an assertion; a transaction that EXEC executes saw its watched keys
    unchanged; its writes, and no others, are propagated as one block; and a transaction that
    nothing disturbs and no check refuses is executed. Safety: the decompressor on corrupt
    input, error detection of the checksum, and, for the cluster, that every master votes at
    most once per epoch and an epoch has at most one winner. Invariants: slot tables, bitmaps
    and counters of the cluster agree. Errors: inputs on which the code reads out of bounds or
    behaves against its documentation.

    ** Bounds and fuel

    Loops whose measure is evident recurse on it: the number of slots (16384), of
    arguments, of bytes left. Loops with fuel (Dict, DictScan, Lzf, Util, Resp, SdsParse,
    Ziplist, Bitops) are called by their functions with a bound computed from the input (the
    length of the block for Ziplist, the number of bytes plus one for Bitops), and the
    theorems show that the result is not that of exhausted fuel. Hypotheses on sizes (lengths
    below 2^32 or 2^64, epochs below 2^64, ziplists that stay below 2^32 bytes, strings of at
    most 512 MB for the bit commands, and of less than 2^31 bytes for the order of sorted sets
    and the dump format, whose comparisons and counts are [int]s) are stated where the code
    relies on them. BITFIELD is proved for fields of up
    to 63 bits; [bitfield_limits] shows what happens beyond. The theorem on watched keys
    excludes MOVE, SWAPDB and evictions: [silent_commands_unnoticed] shows that they are not
    noticed. The time is constant during a command. The election theorem assumes that all
    slaves agree on the masters that vote as long as the run lasts, and that no vote arrives after its election was given up:
    [stale_vote_counted] shows that the code counts such a vote.

    ** Not modelled

    Sockets, the event loop and output buffers; the hash, set, list and sorted set commands
    over the structures above; quicklist and the radix tree; the persistence of objects other
    than strings; in replication the handshake and the transfer on the side of the slave, WAIT
    and the script cache; in the keyspace SCAN, KEYS and the slot index, the choice of keys to
    expire or evict, memory accounting and access times; in processCommand QUIT and the
    redirections of cluster mode; publish/subscribe, scripting, modules, Sentinel and the
    tools; in cluster.c the gossip, failure detection, handshakes, framing of packets,
    nodes.conf and the remaining CLUSTER subcommands. Floating point code (HyperLogLog, geo
    indexes) and code that only formats text or calls the system is left out because the
    kernel could check little about it. Bundled dependencies and the Python application are
    not part of this library. *)

From stdpp Require Export prelude.
From Stdlib Require Export ZArith Lia.
From stdpp Require Export strings.
From Stdlib Require Ascii String.

#[global] Open Scope Z_scope.

(** ** Machine integers

    A [w]-bit C integer is a [Z]; the conversions below are what C does when a
    value is stored in an unsigned ([u]) or signed ([s]) object of that width
    (two's complement). *)
Definition wrapu (w x : Z) : Z := x mod 2 ^ w.
Definition wraps (w x : Z) : Z := (x + 2 ^ (w - 1)) mod 2 ^ w - 2 ^ (w - 1).

Abbreviation u8 := (wrapu 8).
Abbreviation u16 := (wrapu 16).
Abbreviation u32 := (wrapu 32).
Abbreviation u64 := (wrapu 64).
Abbreviation s8 := (wraps 8).
Abbreviation s16 := (wraps 16).
Abbreviation s32 := (wraps 32).
Abbreviation s64 := (wraps 64).

Abbreviation INT16_MIN := (-32768).
Abbreviation INT16_MAX := 32767.
Abbreviation INT32_MIN := (-2147483648).
Abbreviation INT32_MAX := 2147483647.
Abbreviation LLONG_MIN := (-9223372036854775808).
Abbreviation LLONG_MAX := 9223372036854775807.
Abbreviation ULLONG_MAX := 18446744073709551615.

Definition is_byte (b : Z) : Prop := 0 <= b < 256.

Lemma wrapu_range w x : 0 <= w -> 0 <= wrapu w x < 2 ^ w.
Proof. intros. unfold wrapu. apply Z.mod_pos_bound. lia. Qed.

Lemma wrapu_small w x : 0 <= x < 2 ^ w -> wrapu w x = x.
Proof. intros. unfold wrapu. by apply Z.mod_small. Qed.

Lemma wraps_small w x : - 2 ^ (w - 1) <= x < 2 ^ (w - 1) -> 0 < w -> wraps w x = x.
Proof.
  intros Hx Hw. unfold wraps.
  assert (2 ^ w = 2 * 2 ^ (w - 1)) as E.
  { rewrite <-Z.pow_succ_r by lia. f_equal. lia. }
  rewrite Z.mod_small; lia.
Qed.

Lemma wraps_range w x : 0 < w -> - 2 ^ (w - 1) <= wraps w x < 2 ^ (w - 1).
Proof.
  intros Hw. unfold wraps.
  assert (2 ^ w = 2 * 2 ^ (w - 1)) as E.
  { rewrite <-Z.pow_succ_r by lia. f_equal. lia. }
  pose proof (Z.mod_pos_bound (x + 2 ^ (w - 1)) (2 ^ w)). lia.
Qed.

Lemma wraps_wrapu w x : 0 <= w -> wraps w (wrapu w x) = wraps w x.
Proof.
  intros Hw. unfold wraps, wrapu. rewrite Zplus_mod_idemp_l. done.
Qed.

(** Bit operations stay within the width. *)
Lemma log2_range n x : 0 <= n -> 0 <= x -> (x < 2 ^ n <-> x = 0 \/ Z.log2 x < n).
Proof.
  intros Hn Hx. destruct (decide (x = 0)) as [->|]; [split; [by left|lia]|].
  rewrite (Z.log2_lt_pow2 x n) by lia. split; [by right|intros [?|?]; [done|lia]].
Qed.

Lemma land_range n a b : 0 <= n -> 0 <= a -> 0 <= b < 2 ^ n -> 0 <= Z.land a b < 2 ^ n.
Proof.
  intros Hn Ha [Hb Hb2]. assert (0 <= Z.land a b) by (apply Z.land_nonneg; lia).
  split; [done|]. rewrite log2_range in * by done.
  destruct Hb2 as [->|Hb2]; [left; apply Z.land_0_r|]. right.
  pose proof (Z.log2_land a b Ha Hb). lia.
Qed.

Lemma lor_range n a b :
  0 <= n -> 0 <= a < 2 ^ n -> 0 <= b < 2 ^ n -> 0 <= Z.lor a b < 2 ^ n.
Proof.
  intros Hn [Ha Ha2] [Hb Hb2]. assert (0 <= Z.lor a b) by (apply Z.lor_nonneg; lia).
  split; [done|]. rewrite log2_range in * by done.
  destruct Ha2 as [->|Ha2]; [by rewrite Z.lor_0_l|].
  destruct Hb2 as [->|Hb2]; [rewrite Z.lor_0_r; by right|].
  right. rewrite Z.log2_lor by done. lia.
Qed.

(** The bytes of a C string literal (without its terminator). *)
Definition lit (s : string) : list Z :=
  map (fun a => Z.of_N (Ascii.N_of_ascii a)) (String.list_ascii_of_string s).
Definition chr (s : string) : Z := default 0 (head (lit s)).

(** Division and modulus by constants, made visible to [lia]. *)
Ltac zlia := Z.div_mod_to_equations; lia.

(** Turn boolean comparisons in the context into propositions. *)
Ltac zbool :=
  repeat match goal with
  | H : (_ && _) = true |- _ => apply andb_true_iff in H; destruct H
  | H : (_ || _) = false |- _ => apply orb_false_iff in H; destruct H
  | H : negb _ = true |- _ => apply negb_true_iff in H
  | H : negb _ = false |- _ => apply negb_false_iff in H
  | H : (_ =? _) = true |- _ => apply Z.eqb_eq in H
  | H : (_ =? _) = false |- _ => apply Z.eqb_neq in H
  | H : (_ <? _) = true |- _ => apply Z.ltb_lt in H
  | H : (_ <? _) = false |- _ => apply Z.ltb_ge in H
  | H : (_ <=? _) = true |- _ => apply Z.leb_le in H
  | H : (_ <=? _) = false |- _ => apply Z.leb_gt in H
  end.

(** Reduce the binds of the option monad and nothing else. *)
Ltac mred :=
  cbn [mbind option_bind fmap option_fmap option_map mret option_ret fst snd].

(** Normalise the powers of two the width notations leave behind. *)
Ltac pow2 :=
  change (2 ^ 8) with 256 in *; change (2 ^ 16) with 65536 in *;
  change (2 ^ 32) with 4294967296 in *;
  change (2 ^ 64) with 18446744073709551616 in *;
  change (2 ^ (8 - 1)) with 128 in *; change (2 ^ (16 - 1)) with 32768 in *;
  change (2 ^ (32 - 1)) with 2147483648 in *;
  change (2 ^ (64 - 1)) with 9223372036854775808 in *.

(** A value within the range of its type is not changed by a conversion. *)
Create HintDb widths.
#[export] Hint Rewrite wrapu_small wraps_small using (pow2; lia) : widths.

(** ** Little-endian encoding of fixed-width integers *)

Fixpoint le_encode (n : nat) (v : Z) : list Z :=
  match n with
  | O => []
  | S n => v mod 256 :: le_encode n (v / 256)
  end.

Fixpoint le_decode (l : list Z) : Z :=
  match l with
  | [] => 0
  | b :: l => b + 256 * le_decode l
  end.

Lemma length_le_encode n v : length (le_encode n v) = n.
Proof. revert v; induction n as [|n IH]; intros v; simpl; [done|by rewrite IH]. Qed.

Lemma le_encode_bytes n v : Forall is_byte (le_encode n v).
Proof.
  revert v; induction n as [|n IH]; intros v; constructor; [|apply IH].
  unfold is_byte. apply Z.mod_pos_bound. lia.
Qed.

Lemma pow_byte_S n : 2 ^ (8 * Z.of_nat (S n)) = 256 * 2 ^ (8 * Z.of_nat n).
Proof.
  replace (8 * Z.of_nat (S n)) with (8 + 8 * Z.of_nat n) by lia.
  by rewrite Z.pow_add_r by lia.
Qed.

Lemma le_decode_encode n v : le_decode (le_encode n v) = v mod 2 ^ (8 * Z.of_nat n).
Proof.
  revert v; induction n as [|n IH]; intros v.
  { simpl. by rewrite Z.mod_1_r. }
  cbn [le_encode le_decode]. rewrite IH, pow_byte_S.
  rewrite Z.rem_mul_r by lia. lia.
Qed.

Lemma le_decode_range l :
  Forall is_byte l -> 0 <= le_decode l < 2 ^ (8 * Z.of_nat (length l)).
Proof.
  induction 1 as [|b l Hb Hl IH]; [simpl; lia|].
  cbn [le_decode length]. rewrite pow_byte_S. unfold is_byte in Hb. lia.
Qed.

Lemma le_encode_decode l : Forall is_byte l -> le_encode (length l) (le_decode l) = l.
Proof.
  induction 1 as [|b l Hb Hl IH]; [done|].
  cbn [le_decode length le_encode]. unfold is_byte in Hb. f_equal.
  - rewrite Z.mul_comm, Z.mod_add, Z.mod_small; lia.
  - rewrite Z.mul_comm, Z.div_add, Z.div_small by lia. exact IH.
Qed.

(** The value a [w]-byte signed load returns for a value that fits. *)
Lemma le_decode_signed n v :
  (0 < n)%nat -> - 2 ^ (8 * Z.of_nat n - 1) <= v < 2 ^ (8 * Z.of_nat n - 1) ->
  wraps (8 * Z.of_nat n) (le_decode (le_encode n v)) = v.
Proof.
  intros Hn Hv. rewrite le_decode_encode.
  change (v mod 2 ^ (8 * Z.of_nat n)) with (wrapu (8 * Z.of_nat n) v).
  rewrite wraps_wrapu by lia. apply wraps_small; lia.
Qed.

(** ** Byte memory

    A block of memory is the list of its bytes. A checked read or write of a
    range outside the block is [None]: an access C leaves undefined. *)

Definition rd (l : list Z) (off n : Z) : option (list Z) :=
  if bool_decide (0 <= off /\ 0 <= n /\ off + n <= Z.of_nat (length l))
  then Some (take (Z.to_nat n) (drop (Z.to_nat off) l)) else None.

Definition wr (l : list Z) (off : Z) (bs : list Z) : option (list Z) :=
  if bool_decide (0 <= off /\ off + Z.of_nat (length bs) <= Z.of_nat (length l))
  then Some (take (Z.to_nat off) l ++ bs ++ drop (Z.to_nat off + length bs) l)
  else None.

(** [memmove(base+dst, base+src, n)]; [memcpy] within one block is the same. *)
Definition memmove (l : list Z) (dst src n : Z) : option (list Z) :=
  bs ← rd l src n; wr l dst bs.

(** [zrealloc(l, n)]: the bytes beyond the old size are indeterminate; they hold
    [fill], which every theorem leaves arbitrary. *)
Definition zrealloc (fill : Z) (l : list Z) (n : Z) : list Z :=
  take (Z.to_nat n) l ++ replicate (Z.to_nat n - length l) fill.

(** One byte. *)
Definition rd1 (l : list Z) (off : Z) : option Z :=
  if bool_decide (0 <= off) then l !! Z.to_nat off else None.

Section memory.
Implicit Types (l bs : list Z) (off n : Z).

Lemma rd_Some l off n bs :
  rd l off n = Some bs <->
  0 <= off /\ 0 <= n /\ off + n <= Z.of_nat (length l) /\
  bs = take (Z.to_nat n) (drop (Z.to_nat off) l).
Proof. 
  unfold rd. case_bool_decide; split; [intros [= <-]; tauto| |done|tauto].
  by intros (_&_&_&->).
Qed.

Lemma wr_Some l off bs l' :
  wr l off bs = Some l' <->
  0 <= off /\ off + Z.of_nat (length bs) <= Z.of_nat (length l) /\
  l' = take (Z.to_nat off) l ++ bs ++ drop (Z.to_nat off + length bs) l.
Proof. 
  unfold wr. case_bool_decide; split; [intros [= <-]; tauto| |done|tauto].
  by intros (_&_&->).
Qed.

Lemma rd_is_Some l off n :
  0 <= off -> 0 <= n -> off + n <= Z.of_nat (length l) -> exists bs, rd l off n = Some bs.
Proof. intros. eexists. apply rd_Some. eauto. Qed.

Lemma wr_is_Some l off bs :
  0 <= off -> off + Z.of_nat (length bs) <= Z.of_nat (length l) ->
  exists l', wr l off bs = Some l'.
Proof. intros. eexists. apply wr_Some. eauto. Qed.

Lemma rd_length l off n bs : rd l off n = Some bs -> Z.of_nat (length bs) = n.
Proof. rewrite rd_Some. intros (?&?&?&->). rewrite length_take, length_drop. lia. Qed.

Lemma wr_length l off bs l' : wr l off bs = Some l' -> length l' = length l.
Proof.
  rewrite wr_Some. intros (?&?&->).
  rewrite !length_app, length_take, length_drop. lia.
Qed.

(** Reads are determined by the bytes they cover. *)
Lemma rd_ext l l' off off' n :
  0 <= off -> 0 <= off' -> 0 <= n ->
  off + n <= Z.of_nat (length l) -> off' + n <= Z.of_nat (length l') ->
  (forall i, 0 <= i < n -> l !! Z.to_nat (off + i) = l' !! Z.to_nat (off' + i)) ->
  rd l off n = rd l' off' n.
Proof.
  intros ????? H. unfold rd. rewrite !bool_decide_true by lia. f_equal.
  apply list_eq. intros i. destruct (decide (i < Z.to_nat n)%nat).
  - rewrite !lookup_take_lt, !lookup_drop by lia.
    specialize (H (Z.of_nat i)). rewrite !Z2Nat.inj_add, !Nat2Z.id in H by lia.
    apply H. lia.
  - rewrite !lookup_take_ge by lia. done.
Qed.

Lemma rd_lookup l off n bs i :
  rd l off n = Some bs -> 0 <= i < n -> bs !! Z.to_nat i = l !! Z.to_nat (off + i).
Proof.
  rewrite rd_Some. intros (?&?&?&->) ?.
  rewrite lookup_take_lt, lookup_drop by lia. f_equal. lia.
Qed.

Lemma wr_lookup_in l off bs l' i :
  wr l off bs = Some l' -> 0 <= i < Z.of_nat (length bs) ->
  l' !! Z.to_nat (off + i) = bs !! Z.to_nat i.
Proof.
  rewrite wr_Some. intros (?&?&->) ?.
  rewrite lookup_app_r; rewrite length_take; [|lia].
  rewrite lookup_app_l; [f_equal; lia|lia].
Qed.

Lemma wr_lookup_out l off bs l' i :
  wr l off bs = Some l' -> 0 <= i -> i < off \/ off + Z.of_nat (length bs) <= i ->
  l' !! Z.to_nat i = l !! Z.to_nat i.
Proof.
  rewrite wr_Some. intros (?&?&->) ? [?|?].
  - rewrite lookup_app_l by (rewrite length_take; lia).
    by rewrite lookup_take_lt by lia.
  - rewrite lookup_app_r; rewrite length_take; [|lia].
    rewrite lookup_app_r by lia. rewrite lookup_drop. f_equal. lia.
Qed.

Lemma rd_wr_same l off bs l' n :
  wr l off bs = Some l' -> n = Z.of_nat (length bs) -> rd l' off n = Some bs.
Proof.
  intros H ->. pose proof (wr_length _ _ _ _ H) as Hl.
  pose proof H as H'. apply wr_Some in H' as (?&?&->).
  apply rd_Some. split_and!; [lia..|].
  rewrite drop_app_ge; rewrite length_take; [|lia].
  replace (Z.to_nat off - Z.to_nat off `min` length l)%nat with O by lia.
  rewrite drop_0, take_app_le by lia. by rewrite take_ge by lia.
Qed.

Lemma rd_wr_disj l off bs l' off' n :
  wr l off bs = Some l' ->
  off' + n <= off \/ off + Z.of_nat (length bs) <= off' ->
  rd l' off' n = rd l off' n.
Proof.
  intros H Hd. pose proof (wr_length _ _ _ _ H) as Hl.
  destruct (decide (0 <= off' /\ 0 <= n /\ off' + n <= Z.of_nat (length l))) as [(?&?&?)|Hn].
  - apply rd_ext; try lia. intros i Hi.
    eapply wr_lookup_out; [done|lia|lia].
  - unfold rd. rewrite !bool_decide_false; [done|lia|lia].
Qed.

Lemma memmove_Some l dst src n :
  0 <= src -> 0 <= dst -> 0 <= n ->
  src + n <= Z.of_nat (length l) -> dst + n <= Z.of_nat (length l) ->
  exists l', memmove l dst src n = Some l' /\ length l' = length l.
Proof.
  intros. destruct (rd_is_Some l src n) as [bs Hbs]; [lia..|].
  pose proof (rd_length _ _ _ _ Hbs).
  destruct (wr_is_Some l dst bs) as [l' Hl']; [lia..|].
  exists l'. split; [|by eapply wr_length]. unfold memmove. by rewrite Hbs.
Qed.

Lemma rd_memmove_in l dst src n l' i m :
  memmove l dst src n = Some l' -> 0 <= i -> 0 <= m -> i + m <= n ->
  rd l' (dst + i) m = rd l (src + i) m.
Proof.
  unfold memmove. intros (bs & Hbs & Hw)%bind_Some ???.
  pose proof (rd_length _ _ _ _ Hbs). pose proof (wr_length _ _ _ _ Hw).
  pose proof Hbs as Hbs'. apply rd_Some in Hbs' as (?&?&?&_).
  pose proof Hw as Hw'. apply wr_Some in Hw' as (?&?&_).
  apply rd_ext; try lia. intros j Hj.
  replace (dst + i + j) with (dst + (i + j)) by lia.
  erewrite wr_lookup_in by (done || lia).
  erewrite rd_lookup by (done || lia). f_equal. lia.
Qed.

Lemma rd_memmove_out l dst src n l' off m :
  memmove l dst src n = Some l' -> off + m <= dst \/ dst + n <= off ->
  rd l' off m = rd l off m.
Proof.
  unfold memmove. intros (bs & Hbs & Hw)%bind_Some ?.
  pose proof (rd_length _ _ _ _ Hbs). eapply rd_wr_disj; [done|]. lia.
Qed.

Lemma length_zrealloc fill l n :
  0 <= n -> length (zrealloc fill l n) = Z.to_nat n.
Proof.
  intros. unfold zrealloc. rewrite length_app, length_take, length_replicate. lia.
Qed.

Lemma rd_zrealloc fill l n off m :
  off + m <= n -> off + m <= Z.of_nat (length l) ->
  rd (zrealloc fill l n) off m = rd l off m.
Proof.
  intros ??. destruct (decide (0 <= off /\ 0 <= m)) as [[??]|].
  - apply rd_ext; try lia.
    { rewrite length_zrealloc; lia. }
    intros i Hi. unfold zrealloc.
    rewrite lookup_app_l by (rewrite length_take; lia).
    by rewrite lookup_take_lt by lia.
  - unfold rd. rewrite !bool_decide_false; [done|lia|lia].
Qed.

(** Single bytes, with the block split at the accessed cell. *)
Lemma wr_one a x y c off :
  off = Z.of_nat (length a) -> wr (a ++ x :: c) off [y] = Some (a ++ y :: c).
Proof.
  intros ->. apply wr_Some. rewrite length_app, Nat2Z.id. cbn [length].
  split; [lia|]. split; [lia|]. rewrite take_app_length. f_equal. cbn. f_equal.
  rewrite drop_app_ge by lia. by replace (length a + 1 - length a)%nat with 1%nat by lia.
Qed.

Lemma rd1_app a b off k :
  off = Z.of_nat (length a) + k -> 0 <= k -> rd1 (a ++ b) off = b !! Z.to_nat k.
Proof.
  intros -> ?. unfold rd1. rewrite bool_decide_true by lia.
  rewrite lookup_app_r by lia. f_equal. lia.
Qed.

Lemma rd1_app0 a b : rd1 (a ++ b) (Z.of_nat (length a)) = head b.
Proof. rewrite (rd1_app a b _ 0) by lia. by destruct b. Qed.

Lemma rd1_appp a b p : rd1 (a ++ b) (Z.of_nat (length a) + Zpos p) = b !! Pos.to_nat p.
Proof. by rewrite (rd1_app a b _ (Zpos p)) by lia. Qed.

(** A field in the middle of a block. *)
Lemma rd_mid a t r off n :
  off = Z.of_nat (length a) -> n = Z.of_nat (length t) -> rd (a ++ t ++ r) off n = Some t.
Proof.
  intros -> ->. apply rd_Some. rewrite !length_app. split_and!; [lia..|].
  rewrite !Nat2Z.id, drop_app_length, take_app_length. done.
Qed.

Lemma wr_mid a x y r off :
  off = Z.of_nat (length a) -> length x = length y -> wr (a ++ x ++ r) off y = Some (a ++ y ++ r).
Proof.
  intros -> E. apply wr_Some. rewrite !length_app. split; [lia|]. split; [lia|].
  rewrite Nat2Z.id, take_app_length. rewrite drop_app_ge by lia. do 2 f_equal.
  rewrite drop_app_ge by lia. by replace (length a + length y - length a - length x)%nat with O by lia.
Qed.

End memory.

(** ** Insertion and deletion at an index *)

Definition ins_at {A} (p : nat) (v : A) (l : list A) : list A := take p l ++ v :: drop p l.
Definition del_at {A} (p : nat) (l : list A) : list A := take p l ++ drop (S p) l.

Section ins_del.
Context {A : Type}.
Implicit Types (l : list A) (p i : nat).

Lemma ins_at_lt p v l i :
  (p <= length l)%nat -> (i < p)%nat -> ins_at p v l !! i = l !! i.
Proof.
  intros. unfold ins_at. rewrite lookup_app_l by (rewrite length_take; lia).
  by rewrite lookup_take_lt.
Qed.

Lemma ins_at_eq p v l : (p <= length l)%nat -> ins_at p v l !! p = Some v.
Proof.
  intros. unfold ins_at. rewrite lookup_app_r by (rewrite length_take; lia).
  rewrite length_take. by replace (p - p `min` length l)%nat with O by lia.
Qed.

Lemma ins_at_gt p v l i :
  (p <= length l)%nat -> (p <= i)%nat -> ins_at p v l !! S i = l !! i.
Proof.
  intros. unfold ins_at. rewrite lookup_app_r by (rewrite length_take; lia).
  rewrite length_take. replace (S i - p `min` length l)%nat with (S (i - p)) by lia.
  change ((v :: drop p l) !! S (i - p)) with (drop p l !! (i - p)%nat). rewrite lookup_drop. f_equal. lia.
Qed.

Lemma length_ins_at p v l : length (ins_at p v l) = S (length l).
Proof. unfold ins_at. rewrite length_app. simpl. rewrite length_take, length_drop. lia. Qed.

Lemma elem_of_ins_at p v l x : x ∈ ins_at p v l <-> x = v \/ x ∈ l.
Proof.
  unfold ins_at. rewrite <-(take_drop p l) at 3.
  rewrite !elem_of_app, elem_of_cons. tauto.
Qed.

Lemma del_at_lt p l i : (i < p)%nat -> (p < length l)%nat -> del_at p l !! i = l !! i.
Proof.
  intros. unfold del_at. rewrite lookup_app_l by (rewrite length_take; lia).
  by rewrite lookup_take_lt.
Qed.

Lemma del_at_ge p l i : (p <= i)%nat -> (p < length l)%nat -> del_at p l !! i = l !! S i.
Proof.
  intros. unfold del_at. rewrite lookup_app_r by (rewrite length_take; lia).
  rewrite length_take, lookup_drop. f_equal. lia.
Qed.

Lemma length_del_at p l : (p < length l)%nat -> length (del_at p l) = (length l - 1)%nat.
Proof. intros. unfold del_at. rewrite length_app, length_take, length_drop. lia. Qed.

Lemma elem_of_del_at p l v x :
  l !! p = Some v -> x ∈ l <-> x = v \/ x ∈ del_at p l.
Proof.
  intros Hp. rewrite <-(take_drop_middle _ _ _ Hp) at 1. unfold del_at.
  rewrite !elem_of_app, elem_of_cons. tauto.
Qed.
End ins_del.
