(* ===== verification/Intset.v ===== *)
(** * intset.c: the sorted integer set behind small Redis sets

    The struct is modelled at byte level: [is_contents] is the flexible array
    member, an element occupies [is_encoding] bytes (2, 4 or 8), little endian.
    [models is X] says that the structure represents the finite set [X]; the
    theorems show that each operation refines the operation on [gset Z]. *)

From stdpp Require Import gmap sorting.
From S2P Require Import Prelude.

Record intset := Intset {
  is_encoding : Z;
  is_length : Z;
  is_contents : list Z;
}.

Definition INTSET_ENC_INT16 := 2.
Definition INTSET_ENC_INT32 := 4.
Definition INTSET_ENC_INT64 := 8.

Definition intsetValueEncoding (v : Z) : Z :=
  if (v <? INT32_MIN) || (v >? INT32_MAX) then INTSET_ENC_INT64
  else if (v <? INT16_MIN) || (v >? INT16_MAX) then INTSET_ENC_INT32
  else INTSET_ENC_INT16.

(** Typed access to slot [pos] of an array of [sz]-byte signed integers. *)
Definition ld_int (c : list Z) (sz pos : Z) : option Z :=
  bs ← rd c (pos * sz) sz; Some (wraps (8 * sz) (le_decode bs)).

Definition st_int (c : list Z) (sz pos value : Z) : option (list Z) :=
  wr c (pos * sz) (le_encode (Z.to_nat sz) value).

Definition intsetGetEncoded (iset : intset) (pos enc : Z) : option Z :=
  if enc =? INTSET_ENC_INT64 then ld_int (is_contents iset) 8 pos
  else if enc =? INTSET_ENC_INT32 then ld_int (is_contents iset) 4 pos
  else ld_int (is_contents iset) 2 pos.

Definition intsetGet_ (iset : intset) (pos : Z) : option Z :=
  intsetGetEncoded iset pos (is_encoding iset).

Definition intsetSet (iset : intset) (pos value : Z) : option intset :=
  let encoding := is_encoding iset in
  c ← (if encoding =? INTSET_ENC_INT64 then st_int (is_contents iset) 8 pos value
       else if encoding =? INTSET_ENC_INT32 then st_int (is_contents iset) 4 pos value
       else st_int (is_contents iset) 2 pos value);
  Some (Intset (is_encoding iset) (is_length iset) c).

Definition intsetNew : intset := Intset INTSET_ENC_INT16 0 [].

Definition intsetResize (fill : Z) (iset : intset) (len : Z) : intset :=
  let size := u32 (len * is_encoding iset) in
  Intset (is_encoding iset) (is_length iset) (zrealloc fill (is_contents iset) size).

(** The [while(max >= min)] loop; the result is [(min, mid, cur)] at its exit. *)
Fixpoint intsetSearch_loop (fuel : nat) (iset : intset) (value min max mid cur : Z)
  : option (Z * Z * Z) :=
  match fuel with
  | O => None
  | S fuel =>
    if max >=? min then
      let mid := Z.shiftr (u32 (u32 min + u32 max)) 1 in
      cur ← intsetGet_ iset mid;
      if value >? cur then intsetSearch_loop fuel iset value (mid + 1) max mid cur
      else if value <? cur then intsetSearch_loop fuel iset value min (mid - 1) mid cur
      else Some (min, mid, cur)
    else Some (min, mid, cur)
  end.

Definition intsetSearch (iset : intset) (value : Z) : option (bool * Z) :=
  let max := s32 (is_length iset - 1) in
  if is_length iset =? 0 then Some (false, 0) else
  last ← intsetGet_ iset (is_length iset - 1);
  if value >? last then Some (false, is_length iset) else
  first ← intsetGet_ iset 0;
  if value <? first then Some (false, 0) else
  '(min, mid, cur) ← intsetSearch_loop (S (Z.to_nat (is_length iset))) iset value 0 max (-1) (-1);
  if value =? cur then Some (true, mid) else Some (false, min).

(** [while(length--) _intsetSet(is,length+prepend,_intsetGetEncoded(is,length,curenc))] *)
Fixpoint intsetUpgrade_loop (length : nat) (iset : intset) (prepend curenc : Z) : option intset :=
  match length with
  | O => Some iset
  | S length =>
    v ← intsetGetEncoded iset (Z.of_nat length) curenc;
    iset ← intsetSet iset (Z.of_nat length + prepend) v;
    intsetUpgrade_loop length iset prepend curenc
  end.

Definition intsetUpgradeAndAdd (fill : Z) (iset : intset) (value : Z) : option intset :=
  let curenc := is_encoding iset in
  let newenc := intsetValueEncoding value in
  let length := is_length iset in
  let prepend := if value <? 0 then 1 else 0 in
  let iset := Intset newenc (is_length iset) (is_contents iset) in
  let iset := intsetResize fill iset (u32 (is_length iset + 1)) in
  iset ← intsetUpgrade_loop (Z.to_nat length) iset prepend curenc;
  iset ← (if prepend =? 1 then intsetSet iset 0 value
        else intsetSet iset (is_length iset) value);
  Some (Intset (is_encoding iset) (u32 (is_length iset + 1)) (is_contents iset)).

Definition intsetMoveTail (iset : intset) (from to : Z) : option intset :=
  let bytes := u32 (is_length iset - from) in
  let encoding := is_encoding iset in
  let sz := if encoding =? INTSET_ENC_INT64 then 8
            else if encoding =? INTSET_ENC_INT32 then 4 else 2 in
  c ← memmove (is_contents iset) (to * sz) (from * sz) (u32 (bytes * sz));
  Some (Intset (is_encoding iset) (is_length iset) c).

Definition intsetAdd (fill : Z) (iset : intset) (value : Z) : option (intset * bool) :=
  let valenc := intsetValueEncoding value in
  if valenc >? is_encoding iset then
    iset ← intsetUpgradeAndAdd fill iset value; Some (iset, true)
  else
    '(found, pos) ← intsetSearch iset value;
    if (found : bool) then Some (iset, false) else
    let iset := intsetResize fill iset (u32 (is_length iset + 1)) in
    iset ← (if pos <? is_length iset then intsetMoveTail iset pos (u32 (pos + 1)) else Some iset);
    iset ← intsetSet iset pos value;
    Some (Intset (is_encoding iset) (u32 (is_length iset + 1)) (is_contents iset), true).

Definition intsetRemove (fill : Z) (iset : intset) (value : Z) : option (intset * bool) :=
  let valenc := intsetValueEncoding value in
  if valenc <=? is_encoding iset then
    '(found, pos) ← intsetSearch iset value;
    if (found : bool) then
      let len := is_length iset in
      iset ← (if pos <? u32 (len - 1) then intsetMoveTail iset (u32 (pos + 1)) pos else Some iset);
      let iset := intsetResize fill iset (u32 (len - 1)) in
      Some (Intset (is_encoding iset) (u32 (len - 1)) (is_contents iset), true)
    else Some (iset, false)
  else Some (iset, false).

Definition intsetFind (iset : intset) (value : Z) : option bool :=
  let valenc := intsetValueEncoding value in
  if valenc <=? is_encoding iset then
    '(found, _) ← intsetSearch iset value; Some found
  else Some false.

(** [rand()] is an argument: the value the C library returned. *)
Definition intsetRandom (rand : Z) (iset : intset) : option Z :=
  intsetGet_ iset (rand mod is_length iset).

Definition intsetGet (iset : intset) (pos : Z) : option (option Z) :=
  if pos <? is_length iset then v ← intsetGet_ iset pos; Some (Some v) else Some None.

Definition intsetLen (iset : intset) : Z := is_length iset.

Definition intsetBlobLen (iset : intset) : Z := 8 + u32 (is_length iset * is_encoding iset).

(** ** The represented set *)

Definition is_enc (e : Z) : Prop := e = 2 \/ e = 4 \/ e = 8.

Definition fits (sz v : Z) : Prop := - 2 ^ (8 * sz - 1) <= v < 2 ^ (8 * sz - 1).

(** Slot [i] of [c] holds [v] in [sz] bytes. *)
Definition slot (c : list Z) (sz : Z) (i : nat) (v : Z) : Prop :=
  rd c (Z.of_nat i * sz) sz = Some (le_encode (Z.to_nat sz) v).

Record repr (s : intset) (l : list Z) : Prop := {
  repr_enc : is_enc (is_encoding s);
  repr_len : is_length s = Z.of_nat (length l);
  repr_size : Z.of_nat (length (is_contents s)) = is_length s * is_encoding s;
  repr_fits : forall i v, l !! i = Some v -> fits (is_encoding s) v;
  repr_slot : forall i v, l !! i = Some v -> slot (is_contents s) (is_encoding s) i v;
  repr_sorted : forall i j x y, l !! i = Some x -> l !! j = Some y -> (i < j)%nat -> x < y;
}.

(** The abstraction: [s] represents the finite set [X]. *)
Definition models (s : intset) (X : gset Z) : Prop :=
  exists l, repr s l /\ forall x, x ∈ X <-> x ∈ l.

(** Sizes for which the 32-bit byte counts of [intsetResize] do not wrap and the
    signed indices of [intsetSearch] are exact. *)
Definition in_bounds (n : nat) : Prop := (Z.of_nat n + 1) * 8 < 2 ^ 32.

Lemma slot_ld c sz i v :
  is_enc sz -> slot c sz i v -> fits sz v -> ld_int c sz (Z.of_nat i) = Some v.
Proof.
  unfold ld_int, slot, fits. intros He -> Hf. cbn. f_equal.
  rewrite <-(Z2Nat.id sz) at 1 by (destruct He as [|[|]]; lia).
  apply le_decode_signed; [destruct He as [|[|]]; lia|].
  rewrite Z2Nat.id by (destruct He as [|[|]]; lia). done.
Qed.

Lemma intsetGetEncoded_enc s pos e :
  is_enc e -> intsetGetEncoded s pos e = ld_int (is_contents s) e pos.
Proof. by intros [->|[->| ->]]. Qed.

Lemma intsetSet_enc s pos v :
  is_enc (is_encoding s) ->
  intsetSet s pos v =
  (c ← st_int (is_contents s) (is_encoding s) pos v;
   Some (Intset (is_encoding s) (is_length s) c)).
Proof. unfold intsetSet. by intros [->|[->| ->]]. Qed.

Lemma intsetMoveTail_enc s from to :
  is_enc (is_encoding s) ->
  intsetMoveTail s from to =
  (c ← memmove (is_contents s) (to * is_encoding s) (from * is_encoding s)
     (u32 (u32 (is_length s - from) * is_encoding s));
   Some (Intset (is_encoding s) (is_length s) c)).
Proof. unfold intsetMoveTail. by intros [->|[->| ->]]. Qed.

Lemma repr_get s l i v :
  repr s l -> l !! i = Some v -> intsetGet_ s (Z.of_nat i) = Some v.
Proof.
  intros H Hi. unfold intsetGet_. rewrite intsetGetEncoded_enc by apply H.
  apply slot_ld; [apply H|eapply repr_slot; eauto|eapply repr_fits; eauto].
Qed.

Lemma repr_inj s l i j x :
  repr s l -> l !! i = Some x -> l !! j = Some x -> i = j.
Proof.
  intros H Hi Hj. destruct (Nat.lt_trichotomy i j) as [?|[?|?]]; [|done|].
  - pose proof (repr_sorted _ _ H _ _ _ _ Hi Hj). lia.
  - pose proof (repr_sorted _ _ H _ _ _ _ Hj Hi). lia.
Qed.

Lemma in_bounds_lt n : in_bounds n -> Z.of_nat n < 2147483648.
Proof. unfold in_bounds. pow2. lia. Qed.

(** *** Encodings *)

Lemma valueEncoding_enc v : is_enc (intsetValueEncoding v).
Proof. unfold intsetValueEncoding, is_enc. repeat case_match; auto. Qed.

Lemma valueEncoding_fits v e :
  is_enc e -> LLONG_MIN <= v <= LLONG_MAX -> (intsetValueEncoding v <= e <-> fits e v).
Proof.
  unfold intsetValueEncoding, fits, INTSET_ENC_INT16, INTSET_ENC_INT32, INTSET_ENC_INT64.
  intros [->|[->| ->]] Hv;
    change (2 ^ (8 * 2 - 1)) with 32768; change (2 ^ (8 * 4 - 1)) with 2147483648;
    change (2 ^ (8 * 8 - 1)) with 9223372036854775808;
    repeat case_match; lia.
Qed.

Lemma fits_mono e e' v : is_enc e -> is_enc e' -> e <= e' -> fits e v -> fits e' v.
Proof.
  unfold fits. intros He He' Hle.
  assert (2 ^ (8 * e - 1) <= 2 ^ (8 * e' - 1)) by
    (apply Z.pow_le_mono_r; destruct He as [|[|]]; lia).
  lia.
Qed.

(** *** The binary search *)

Section search.
Context (s : intset) (l : list Z) (value : Z).
Hypothesis Hrep : repr s l.
Hypothesis Hbound : in_bounds (length l).

(** All elements before [min] are smaller and all after [max] are larger. *)
Definition search_inv (min max : Z) : Prop :=
  0 <= min /\ max < Z.of_nat (length l) /\ min <= max + 1 /\
  (forall i x, l !! i = Some x -> Z.of_nat i < min -> x < value) /\
  (forall i x, l !! i = Some x -> max < Z.of_nat i -> value < x).

Lemma search_loop_spec fuel min max mid cur :
  search_inv min max -> max - min + 1 < Z.of_nat fuel ->
  ((value ∉ l) \/ min <= max) -> (min <= max \/ cur <> value) ->
  exists min' mid' cur',
    intsetSearch_loop fuel s value min max mid cur = Some (min', mid', cur') /\
    ((cur' = value /\ 0 <= mid' /\ l !! Z.to_nat mid' = Some value) \/
     (cur' <> value /\ (value ∉ l) /\ search_inv min' (min' - 1))).
Proof.
  revert min max mid cur. induction fuel as [|fuel IH];
    intros min max mid cur Hinv Hfuel Hne Hcur; [destruct Hinv; lia|].
  destruct Hinv as (Hmin & Hmax & Hmm & Hlo & Hhi).
  pose proof (in_bounds_lt _ Hbound) as Hb.
  cbn [intsetSearch_loop]. destruct (Z.geb_spec max min) as [Hge|Hlt].
  2:{ exists min, mid, cur. split; [done|]. right. split; [lia|]. split; [by destruct Hne; [|lia]|].
      replace (min - 1) with max by lia. repeat split; auto. }
  assert (Hmid : Z.shiftr (u32 (u32 min + u32 max)) 1 = (min + max) / 2).
  { rewrite !(wrapu_small 32) by (rewrite ?wrapu_small; pow2; lia).
    by rewrite Z.shiftr_div_pow2 by lia. }
  rewrite Hmid. set (m := (min + max) / 2).
  assert (min <= m <= max) by (unfold m; zlia).
  destruct (lookup_lt_is_Some_2 l (Z.to_nat m)) as [c Hc]; [lia|].
  pose proof (repr_get _ _ _ _ Hrep Hc) as Hg. rewrite Z2Nat.id in Hg by lia.
  rewrite Hg. cbn.
  assert (Hmono : forall i x, l !! i = Some x ->
    (Z.of_nat i < m -> x < c) /\ (m < Z.of_nat i -> c < x)).
  { intros i x Hx. split; intros.
    - eapply (repr_sorted _ _ Hrep); [apply Hx|apply Hc|lia].
    - eapply (repr_sorted _ _ Hrep); [apply Hc|apply Hx|lia]. }
  assert (Helem : forall lo hi, search_inv lo hi -> hi < lo -> value ∉ l).
  { intros lo hi (_&_&_&H1&H2) ? [i Hi]%list_elem_of_lookup_1.
    specialize (H1 _ _ Hi). specialize (H2 _ _ Hi). lia. }
  destruct (Z.gtb_spec value c).
  - assert (search_inv (m + 1) max) as Hinv.
    { repeat split; try lia; [|done]. intros i x Hx Hi.
      destruct (decide (Z.of_nat i = m)) as [Em|Em].
      - rewrite <-Em, Nat2Z.id, Hx in Hc. simplify_eq. lia.
      - apply Hmono in Hx. lia. }
    apply IH; [done|lia| |lia].
    destruct (decide (m + 1 <= max)); [by right|left]. eapply Helem; [done|lia].
  - destruct (Z.ltb_spec value c).
    + assert (search_inv min (m - 1)) as Hinv.
      { repeat split; try lia; [done|]. intros i x Hx Hi.
        destruct (decide (Z.of_nat i = m)) as [Em|Em].
        - rewrite <-Em, Nat2Z.id, Hx in Hc. simplify_eq. lia.
        - apply Hmono in Hx. lia. }
      apply IH; [done|lia| |lia].
      destruct (decide (min <= m - 1)); [by right|left]. eapply Helem; [done|lia].
    + exists min, m, c. split; [done|]. left. assert (c = value) as -> by lia.
      repeat split; [lia|done].
Qed.

(** Where [intsetSearch] leaves [pos]. *)
Definition insert_pos (pos : Z) : Prop :=
  0 <= pos <= Z.of_nat (length l) /\
  (forall i x, l !! i = Some x -> Z.of_nat i < pos -> x < value) /\
  (forall i x, l !! i = Some x -> pos <= Z.of_nat i -> value < x).

Lemma repr_le_last i j x z : l !! i = Some x -> l !! j = Some z -> (i <= j)%nat -> x <= z.
Proof using Hrep.
  intros Hx Hz Hij. destruct (decide (i = j)) as [->|]; [simplify_eq; lia|].
  pose proof (repr_sorted _ _ Hrep i j x z Hx Hz). lia.
Qed.

Lemma search_outside pos :
  insert_pos pos ->
  exists pos', Some (false, pos) = Some (bool_decide (value ∈ l), pos') /\
    ((value ∈ l) -> 0 <= pos' /\ l !! Z.to_nat pos' = Some value) /\
    ((value ∉ l) -> insert_pos pos').
Proof using.
  intros Hpos. assert (value ∉ l) as Hn.
  { destruct Hpos as (_ & Hlo & Hhi). intros [i Hi]%list_elem_of_lookup_1.
    specialize (Hlo _ _ Hi). specialize (Hhi _ _ Hi). lia. }
  exists pos. rewrite bool_decide_false by done. split; [done|]. by split.
Qed.

Lemma intsetSearch_spec :
  exists pos,
    intsetSearch s value = Some (bool_decide (value ∈ l), pos) /\
    ((value ∈ l) -> 0 <= pos /\ l !! Z.to_nat pos = Some value) /\
    ((value ∉ l) -> insert_pos pos).
Proof.
  pose proof (in_bounds_lt _ Hbound) as Hb. unfold intsetSearch.
  rewrite (repr_len _ _ Hrep).
  destruct (Z.eqb_spec (Z.of_nat (length l)) 0) as [H0|H0].
  { apply search_outside. split; [lia|].
    split; intros i x Hx%lookup_lt_Some; lia. }
  destruct (lookup_lt_is_Some_2 l (length l - 1)) as [z Hz]; [lia|].
  destruct (lookup_lt_is_Some_2 l 0) as [a Ha]; [lia|].
  pose proof (repr_get _ _ _ _ Hrep Hz) as Hg.
  replace (Z.of_nat (length l - 1)) with (Z.of_nat (length l) - 1) in Hg by lia.
  rewrite Hg. mred. destruct (Z.gtb_spec value z).
  { apply search_outside. split; [lia|].
    split; intros i x Hx ?; pose proof (lookup_lt_Some _ _ _ Hx); [|lia].
    pose proof (repr_le_last _ _ _ _ Hx Hz). lia. }
  rewrite (repr_get _ _ _ _ Hrep Ha : intsetGet_ s 0 = _). mred.
  destruct (Z.ltb_spec value a).
  { apply search_outside. split; [lia|]. split; intros i x Hx ?; [lia|].
    pose proof (repr_le_last _ _ _ _ Ha Hx). lia. }
  rewrite (wraps_small 32) by (pow2; lia).
  destruct (search_loop_spec (S (Z.to_nat (Z.of_nat (length l)))) 0
              (Z.of_nat (length l) - 1) (-1) (-1)) as (mn & md & cu & -> & Hres); [|lia..|].
  { repeat split; try lia. intros i x Hx ?. apply lookup_lt_Some in Hx. lia. }
  mred. destruct Hres as [(-> & ? & Hmd)|(Hcu & Hnin & (?&?&?&Hl&Hr))].
  - pose proof (list_elem_of_lookup_2 _ _ _ Hmd).
    rewrite Z.eqb_refl. exists md. by rewrite bool_decide_true by done.
  - destruct (Z.eqb_spec value cu); [congruence|].
    apply search_outside. split; [lia|]. split; [done|].
    intros i x Hx ?. apply (Hr _ _ Hx). lia.
Qed.
End search.

(** ** Preservation of the representation *)

Lemma slot_frame c c' sz i v :
  (forall o, o = Z.of_nat i * sz -> rd c' o sz = rd c o sz) -> slot c sz i v -> slot c' sz i v.
Proof. unfold slot. intros H <-. by apply H. Qed.

(** Two distinct slots of the same width do not overlap. *)
Lemma slots_disjoint sz i j : 0 <= sz -> i < j -> i * sz + sz <= j * sz.
Proof. nia. Qed.

Lemma st_int_spec c sz (i : nat) v :
  is_enc sz -> (Z.of_nat i + 1) * sz <= Z.of_nat (length c) ->
  exists c', st_int c sz (Z.of_nat i) v = Some c' /\ length c' = length c /\
    slot c' sz i v /\
    (forall o n, o + n <= Z.of_nat i * sz \/ (Z.of_nat i + 1) * sz <= o ->
      rd c' o n = rd c o n).
Proof.
  intros He Hi. assert (0 < sz) by (destruct He as [|[|]]; lia).
  assert (Z.of_nat (Z.to_nat sz) = sz) by lia.
  destruct (wr_is_Some c (Z.of_nat i * sz) (le_encode (Z.to_nat sz) v)) as [c' Hc'];
    rewrite ?length_le_encode; [lia..|].
  exists c'. split; [done|]. split; [by eapply wr_length|]. split.
  - eapply rd_wr_same; [done|]. by rewrite length_le_encode.
  - intros o n Hd. eapply rd_wr_disj; [done|]. rewrite length_le_encode. lia.
Qed.

Section add.
Context (fill : Z) (s : intset) (l : list Z) (value : Z).
Hypothesis Hrep : repr s l.
Hypothesis Hbound : in_bounds (length l).

Let enc := is_encoding s.
Let n := Z.of_nat (length l).

Lemma enc_pos : 0 < enc <= 8.
Proof. destruct (repr_enc _ _ Hrep) as [E|[E|E]]; unfold enc; lia. Qed.

Lemma u32_len (k : Z) : -1 <= k <= 1 -> 0 <= n + k -> u32 (n + k) = n + k.
Proof.
  intros. pose proof (in_bounds_lt _ Hbound). apply wrapu_small. pow2. unfold n in *. lia.
Qed.

Lemma u32_size (k e : Z) : 0 <= k <= n + 1 -> 0 <= e <= 8 -> u32 (k * e) = k * e.
Proof. intros. apply wrapu_small. unfold in_bounds in Hbound. pow2. unfold n in *. nia. Qed.

Lemma sorted_ins pos :
  insert_pos l value pos ->
  forall i j x y, ins_at (Z.to_nat pos) value l !! i = Some x ->
    ins_at (Z.to_nat pos) value l !! j = Some y -> (i < j)%nat -> x < y.
Proof.
  intros (Hp & Hlo & Hhi) i j x y Hi Hj Hij. set (p := Z.to_nat pos) in *.
  assert (p <= length l)%nat by lia.
  assert (Hcase : forall k z, ins_at p value l !! k = Some z ->
    (k < p)%nat /\ l !! k = Some z \/ k = p /\ z = value \/
    (p < k)%nat /\ l !! (k - 1)%nat = Some z).
  { intros k z Hk. destruct (Nat.lt_trichotomy k p) as [?|[->|?]].
    - rewrite ins_at_lt in Hk by lia. auto.
    - rewrite ins_at_eq in Hk by lia. right; left. by simplify_eq.
    - right; right. split; [done|]. destruct k as [|k]; [lia|].
      rewrite ins_at_gt in Hk by lia. rewrite <-Hk. f_equal. lia. }
  destruct (Hcase _ _ Hi) as [[? Hx]|[[? ->]|[? Hx]]];
    destruct (Hcase _ _ Hj) as [[? Hy]|[[? ->]|[? Hy]]]; try lia.
  - eapply (repr_sorted _ _ Hrep); [apply Hx|apply Hy|lia].
  - eapply Hlo; [done|lia].
  - eapply (repr_sorted _ _ Hrep); [apply Hx|apply Hy|lia].
  - eapply Hhi; [done|lia].
  - eapply (repr_sorted _ _ Hrep); [apply Hx|apply Hy|lia].
Qed.

(** [intsetMoveTail(is,pos,pos+1)] moves every slot from [pos] on up by one. *)
Lemma shift_up c1 pos :
  0 <= pos <= n -> Z.of_nat (length c1) = (n + 1) * enc ->
  (forall i v, l !! i = Some v -> slot c1 enc i v) ->
  exists c2,
    (if pos <? n then intsetMoveTail (Intset enc n c1) pos (u32 (pos + 1))
     else Some (Intset enc n c1)) = Some (Intset enc n c2) /\
    length c2 = length c1 /\
    (forall i v, l !! i = Some v -> Z.of_nat i < pos -> slot c2 enc i v) /\
    (forall i v, l !! i = Some v -> pos <= Z.of_nat i -> slot c2 enc (S i) v).
Proof.
  intros Hp Hc1 Hslot1. pose proof enc_pos as He. pose proof (repr_enc _ _ Hrep) as Henc.
  pose proof (in_bounds_lt _ Hbound) as Hb.
  destruct (Z.ltb_spec pos n) as [Hlt|Hge].
  2:{ exists c1. repeat split; auto. intros i v Hi%lookup_lt_Some. unfold n in *. lia. }
  rewrite intsetMoveTail_enc by done. cbn [is_length is_encoding is_contents].
  rewrite (wrapu_small 32 (pos + 1)), (wrapu_small 32 (n - pos)) by (pow2; unfold n in *; lia).
  rewrite u32_size by lia.
  destruct (memmove_Some c1 ((pos + 1) * enc) (pos * enc) ((n - pos) * enc))
    as (c2 & Hm & Hl2); [nia..|].
  exists c2. rewrite Hm. split; [done|]. split; [done|]. split.
  - intros i v Hi Hip. eapply slot_frame; [|by apply Hslot1].
    intros o ->. eapply rd_memmove_out; [done|]. left. nia.
  - intros i v Hi Hip. pose proof (lookup_lt_Some _ _ _ Hi).
    specialize (Hslot1 _ _ Hi). unfold slot in *. rewrite <-Hslot1.
    replace (Z.of_nat (S i) * enc) with ((pos + 1) * enc + (Z.of_nat i - pos) * enc) by lia.
    replace (Z.of_nat i * enc) with (pos * enc + (Z.of_nat i - pos) * enc) by lia.
    eapply rd_memmove_in; [done|nia..|]. unfold n in *. nia.
Qed.

(** The path of [intsetAdd] that shifts the tail and stores the value. *)
Lemma add_in_place pos :
  fits enc value -> insert_pos l value pos ->
  exists s', (let s1 := intsetResize fill s (u32 (is_length s + 1)) in
    s2 ← (if pos <? is_length s1 then intsetMoveTail s1 pos (u32 (pos + 1)) else Some s1);
    s3 ← intsetSet s2 pos value;
    Some (Intset (is_encoding s3) (u32 (is_length s3 + 1)) (is_contents s3))) = Some s' /\
    repr s' (ins_at (Z.to_nat pos) value l).
Proof.
  intros Hf Hpos. pose proof Hpos as (Hp & Hlo & Hhi).
  pose proof enc_pos as He. pose proof (repr_enc _ _ Hrep) as Henc.
  pose proof (in_bounds_lt _ Hbound) as Hb.
  cbv zeta. unfold intsetResize. rewrite (repr_len _ _ Hrep). fold n.
  rewrite (u32_len 1) by lia. fold enc. rewrite u32_size by lia.
  set (c0 := is_contents s). set (c1 := zrealloc fill c0 ((n + 1) * enc)).
  assert (Hc1 : Z.of_nat (length c1) = (n + 1) * enc).
  { unfold c1. rewrite length_zrealloc; lia. }
  assert (Hc0 : Z.of_nat (length c0) = n * enc).
  { unfold c0. rewrite (repr_size _ _ Hrep), (repr_len _ _ Hrep). done. }
  assert (Hslot1 : forall i v, l !! i = Some v -> slot c1 enc i v).
  { intros i v Hi. pose proof (lookup_lt_Some _ _ _ Hi).
    eapply slot_frame; [|by eapply (repr_slot _ _ Hrep)].
    intros o ->. apply rd_zrealloc; fold enc c0; unfold n in *; nia. }
  cbn [is_length is_encoding is_contents].
  destruct (shift_up c1 pos) as (c2 & -> & Hlen2 & Hlo2 & Hhi2); [lia|done|done|].
  mred. rewrite intsetSet_enc by done. cbn [is_length is_encoding is_contents].
  destruct (st_int_spec c2 enc (Z.to_nat pos) value Henc) as (c3 & Hc3 & Hl3 & Hs3 & Hf3).
  { rewrite Z2Nat.id by lia. rewrite Hlen2, Hc1. nia. }
  rewrite Z2Nat.id in * by lia. rewrite Hc3. mred. eexists. split; [done|].
  cbn [is_length is_encoding is_contents]. rewrite (u32_len 1) by lia.
  assert (Hview : forall i v, ins_at (Z.to_nat pos) value l !! i = Some v ->
    fits enc v /\ slot c3 enc i v).
  { intros i v Hi. destruct (Nat.lt_trichotomy i (Z.to_nat pos)) as [?|[->|?]].
    - rewrite ins_at_lt in Hi by lia. split; [by eapply (repr_fits _ _ Hrep)|].
      eapply slot_frame; [|apply (Hlo2 _ _ Hi); lia]. intros o ->. apply Hf3. nia.
    - rewrite ins_at_eq in Hi by lia. simplify_eq. done.
    - destruct i as [|i]; [lia|]. rewrite ins_at_gt in Hi by lia.
      split; [by eapply (repr_fits _ _ Hrep)|].
      eapply slot_frame; [|apply (Hhi2 _ _ Hi); lia]. intros o ->. apply Hf3. nia. }
  split; cbn [is_length is_encoding is_contents]; fold enc.
  - done.
  - rewrite length_ins_at. unfold n. lia.
  - rewrite Hl3, Hlen2, Hc1. lia.
  - intros i v Hi. by apply Hview in Hi as [? _].
  - intros i v Hi. by apply Hview in Hi as [_ ?].
  - by apply sorted_ins.
Qed.

(** Back-to-front widening: slots below [k] still have the old width, the
    others are already in place with the new width. *)
Lemma upgrade_loop_spec new len (p k : nat) c :
  is_enc new -> enc < new -> (p <= 1)%nat -> (k <= length l)%nat ->
  Z.of_nat (length c) = (n + 1) * new ->
  (forall i v, l !! i = Some v -> (i < k)%nat -> slot c enc i v) ->
  (forall i v, l !! i = Some v -> (k <= i)%nat -> slot c new (i + p) v) ->
  exists c', intsetUpgrade_loop k (Intset new len c) (Z.of_nat p) enc = Some (Intset new len c') /\
    length c' = length c /\ forall i v, l !! i = Some v -> slot c' new (i + p) v.
Proof.
  intros Hnew Hlt Hp. pose proof enc_pos as He. pose proof (repr_enc _ _ Hrep) as Henc.
  revert c. induction k as [|k IH]; intros c Hk Hc Hold Hdone.
  { exists c. split; [done|]. split; [done|]. intros i v Hi. apply Hdone; [done|lia]. }
  cbn [intsetUpgrade_loop]. rewrite intsetGetEncoded_enc by done. cbn [is_contents].
  destruct (lookup_lt_is_Some_2 l k) as [v Hv]; [lia|].
  rewrite (slot_ld _ _ _ v); [|done|by apply Hold; [|lia]|by eapply (repr_fits _ _ Hrep)].
  mred. rewrite intsetSet_enc by done. cbn [is_length is_encoding is_contents].
  rewrite <-Nat2Z.inj_add.
  destruct (st_int_spec c new (k + p) v Hnew) as (c1 & -> & Hl1 & Hs1 & Hf1); [unfold n in *; nia|].
  mred. destruct (IH c1) as (c' & -> & Hl' & Hs'); [lia|lia| | |].
  - intros i w Hi Hik. eapply slot_frame; [|apply (Hold _ _ Hi); lia].
    intros o ->. apply Hf1. left. nia.
  - intros i w Hi Hik. destruct (decide (i = k)) as [->|]; [by simplify_eq|].
    eapply slot_frame; [|apply (Hdone _ _ Hi); lia]. intros o ->. apply Hf1. right. nia.
  - exists c'. split; [done|]. split; [congruence|done].
Qed.

(** A value that does not fit the current encoding lies outside the range of
    the stored values. *)
Lemma upgrade_insert_pos :
  ~ fits enc value -> insert_pos l value (if value <? 0 then 0 else n).
Proof.
  intros Hnf. pose proof enc_pos. unfold insert_pos. fold n.
  split; [case_match; unfold n; lia|].
  assert (forall i x, l !! i = Some x -> fits enc x) as Hf by apply (repr_fits _ _ Hrep).
  unfold fits in *.
  split; intros i x Hx; pose proof (Hf _ _ Hx); pose proof (lookup_lt_Some _ _ _ Hx);
    destruct (Z.ltb_spec value 0); unfold n; lia.
Qed.

Lemma upgrade_view new c2 c3 (p q : nat) :
  is_enc new -> enc < new -> fits new value ->
  (p = 1 /\ q = 0 \/ p = 0 /\ q = length l)%nat ->
  (forall i v, l !! i = Some v -> slot c2 new (i + p) v) -> slot c3 new q value ->
  (forall o m, o + m <= Z.of_nat q * new \/ (Z.of_nat q + 1) * new <= o ->
    rd c3 o m = rd c2 o m) ->
  forall i v, ins_at q value l !! i = Some v -> fits new v /\ slot c3 new i v.
Proof.
  intros Hnew Hlt Hfn Hpq Hs2 Hs3 Hf3 i v Hi.
  pose proof enc_pos. pose proof (repr_enc _ _ Hrep) as Henc.
  assert (Hold : forall j w, l !! j = Some w -> fits new w).
  { intros j w Hj. eapply (fits_mono enc); [done|done|lia|by eapply (repr_fits _ _ Hrep)]. }
  assert (q <= length l)%nat by lia.
  destruct (Nat.lt_trichotomy i q) as [?|[->|?]].
  - rewrite ins_at_lt in Hi by lia. split; [by eapply Hold|].
    replace i with (i + p)%nat by lia.
    eapply slot_frame; [|by apply Hs2]. intros o ->. apply Hf3. nia.
  - rewrite ins_at_eq in Hi by done. by simplify_eq.
  - destruct i as [|i]; [lia|]. rewrite ins_at_gt in Hi by lia. split; [by eapply Hold|].
    pose proof (lookup_lt_Some _ _ _ Hi). replace (S i) with (i + p)%nat by lia.
    eapply slot_frame; [|by apply Hs2]. intros o ->. apply Hf3. nia.
Qed.

Lemma upgrade_add :
  LLONG_MIN <= value <= LLONG_MAX -> enc < intsetValueEncoding value ->
  exists s', intsetUpgradeAndAdd fill s value = Some s' /\
    repr s' (ins_at (Z.to_nat (if value <? 0 then 0 else n)) value l).
Proof.
  intros Hv Hlt. pose proof (valueEncoding_enc value) as Hnew.
  pose proof enc_pos as He. pose proof (repr_enc _ _ Hrep) as Henc.
  set (new := intsetValueEncoding value) in *.
  assert (Hn8 : 0 < new <= 8) by (destruct Hnew as [E|[E|E]]; lia).
  assert (Hnf : ~ fits enc value) by (rewrite <-valueEncoding_fits; fold new; [lia|done..]).
  pose proof (upgrade_insert_pos Hnf) as Hpos.
  unfold intsetUpgradeAndAdd, intsetResize. fold new. cbn [is_length is_encoding is_contents].
  rewrite (repr_len _ _ Hrep). fold n enc. rewrite (u32_len 1), (u32_size (n + 1)) by lia.
  set (c1 := zrealloc fill (is_contents s) ((n + 1) * new)).
  set (p := if value <? 0 then 1%nat else 0%nat).
  replace (if value <? 0 then 1 else 0) with (Z.of_nat p) by (unfold p; by case_match).
  assert (Hc0 : Z.of_nat (length (is_contents s)) = n * enc).
  { rewrite (repr_size _ _ Hrep), (repr_len _ _ Hrep). done. }
  destruct (upgrade_loop_spec new n p (Z.to_nat n) c1) as (c2 & -> & Hl2 & Hs2);
    [done|done|unfold p; case_match; lia|unfold n; lia| | |
     intros i v Hi%lookup_lt_Some; unfold n; lia|].
  { unfold c1. rewrite length_zrealloc; lia. }
  { intros i v Hi _. pose proof (lookup_lt_Some _ _ _ Hi).
    eapply slot_frame; [|by eapply (repr_slot _ _ Hrep)].
    intros o ->. apply rd_zrealloc; fold enc; unfold n in *; nia. }
  assert (Hlc2 : Z.of_nat (length c2) = (n + 1) * new).
  { rewrite Hl2. unfold c1. rewrite length_zrealloc; lia. }
  mred. cbn [is_length].
  set (q := Z.to_nat (if value <? 0 then 0 else n)).
  assert (Hq : (if Z.of_nat p =? 1 then intsetSet (Intset new n c2) 0 value
    else intsetSet (Intset new n c2) n value) = intsetSet (Intset new n c2) (Z.of_nat q) value).
  { unfold p, q. destruct (value <? 0); [done|]. cbn. f_equal. unfold n. lia. }
  rewrite Hq, intsetSet_enc by done. cbn [is_length is_encoding is_contents].
  destruct (st_int_spec c2 new q value Hnew) as (c3 & -> & Hl3 & Hs3 & Hf3).
  { rewrite Hlc2. apply Z.mul_le_mono_nonneg_r; [lia|]. unfold q, n. destruct (value <? 0); lia. }
  mred. eexists. split; [done|]. cbn [is_length is_encoding is_contents].
  rewrite (u32_len 1) by lia.
  assert (Hfn : fits new value) by (apply valueEncoding_fits; [done|done|reflexivity]).
  assert (Hview : forall i v, ins_at q value l !! i = Some v -> fits new v /\ slot c3 new i v).
  { intros i v. apply (upgrade_view new c2 c3 p q); auto.
    unfold p, q. destruct (value <? 0); unfold n; lia. }
  split; cbn [is_length is_encoding is_contents].
  - done.
  - rewrite length_ins_at. unfold n. lia.
  - rewrite Hl3. lia.
  - intros i v Hi. by apply Hview in Hi as [? _].
  - intros i v Hi. by apply Hview in Hi as [_ ?].
  - by apply sorted_ins.
Qed.
End add.

(** [intsetRemove] closes the gap with [intsetMoveTail(is,pos+1,pos)]. *)
Section remove.
Context (fill : Z) (s : intset) (l : list Z) (value : Z) (p : nat).
Hypothesis Hrep : repr s l.
Hypothesis Hbound : in_bounds (length l).
Hypothesis Hat : l !! p = Some value.

Let enc := is_encoding s.
Let n := Z.of_nat (length l).

Lemma shift_down :
  exists c, (if Z.of_nat p <? u32 (n - 1)
     then intsetMoveTail s (u32 (Z.of_nat p + 1)) (Z.of_nat p) else Some s)
    = Some (Intset enc n c) /\ length c = length (is_contents s) /\
    forall i v, del_at p l !! i = Some v -> slot c enc i v.
Proof.
  pose proof (in_bounds_lt _ Hbound) as Hb. pose proof (repr_enc _ _ Hrep) as Henc.
  assert (Hp : (p < length l)%nat) by (by eapply lookup_lt_Some).
  assert (He : 0 < enc <= 8) by (unfold enc; destruct Henc as [E|[E|E]]; lia).
  rewrite (wrapu_small 32 (n - 1)) by (pow2; unfold n; lia).
  pose proof (repr_len _ _ Hrep) as Hn. fold n in Hn.
  pose proof (repr_size _ _ Hrep) as Hs. rewrite Hn in Hs. fold enc in Hs.
  destruct (Z.ltb_spec (Z.of_nat p) (n - 1)) as [Hlt|Hge].
  - rewrite intsetMoveTail_enc by done. rewrite Hn. fold enc.
    rewrite (wrapu_small 32 (_ + 1)) by (pow2; unfold n in *; lia).
    rewrite (wrapu_small 32 (n - _)) by (pow2; unfold n in *; lia).
    rewrite wrapu_small by (unfold in_bounds in Hbound; pow2; unfold n in *; nia).
    destruct (memmove_Some (is_contents s) (Z.of_nat p * enc) ((Z.of_nat p + 1) * enc)
                ((n - (Z.of_nat p + 1)) * enc)) as (c & Hm & Hl); [nia..|].
    rewrite Hm. exists c. split; [done|]. split; [done|]. intros i v Hi.
    destruct (decide (i < p)%nat).
    + rewrite del_at_lt in Hi by lia. eapply slot_frame; [|by eapply (repr_slot _ _ Hrep)].
      intros o ->. eapply rd_memmove_out; [done|]. left. fold enc. nia.
    + rewrite del_at_ge in Hi by lia. pose proof (lookup_lt_Some _ _ _ Hi).
      pose proof (repr_slot _ _ Hrep _ _ Hi) as Hsl. fold enc in Hsl. unfold slot in *.
      rewrite <-Hsl.
      replace (Z.of_nat i * enc) with (Z.of_nat p * enc + (Z.of_nat i - Z.of_nat p) * enc) by lia.
      replace (Z.of_nat (S i) * enc)
        with ((Z.of_nat p + 1) * enc + (Z.of_nat i - Z.of_nat p) * enc) by lia.
      eapply rd_memmove_in; [done|nia..|]. unfold n in *. nia.
  - exists (is_contents s). split; [by destruct s; cbn in *; subst|]. split; [done|].
    intros i v Hi. pose proof (lookup_lt_Some _ _ _ Hi) as Hi'.
    rewrite length_del_at in Hi' by done. rewrite del_at_lt in Hi by (unfold n in *; lia).
    by apply (repr_slot _ _ Hrep).
Qed.

Lemma remove_found :
  exists s', (s1 ← (if Z.of_nat p <? u32 (is_length s - 1)
      then intsetMoveTail s (u32 (Z.of_nat p + 1)) (Z.of_nat p) else Some s);
    let s2 := intsetResize fill s1 (u32 (is_length s - 1)) in
    Some (Intset (is_encoding s2) (u32 (is_length s - 1)) (is_contents s2), true))
    = Some (s', true) /\ repr s' (del_at p l).
Proof.
  pose proof (in_bounds_lt _ Hbound) as Hb. pose proof (repr_enc _ _ Hrep) as Henc.
  assert (Hp : (p < length l)%nat) by (by eapply lookup_lt_Some).
  assert (He : 0 < enc <= 8) by (unfold enc; destruct Henc as [E|[E|E]]; lia).
  pose proof (repr_size _ _ Hrep) as Hs. rewrite (repr_len _ _ Hrep) in *. fold n enc in Hs |- *.
  destruct shift_down as (c & -> & Hl & Hc). mred. eexists. split; [done|].
  unfold intsetResize. cbn [is_length is_encoding is_contents].
  rewrite !(wrapu_small 32 (n - 1)) by (pow2; unfold n; lia).
  rewrite wrapu_small by (unfold in_bounds in Hbound; pow2; unfold n in *; nia).
  split; cbn [is_length is_encoding is_contents].
  - done.
  - rewrite length_del_at by done. unfold n. lia.
  - rewrite length_zrealloc; unfold n; nia.
  - intros i v Hi. destruct (decide (i < p)%nat).
    + rewrite del_at_lt in Hi by done. by eapply (repr_fits _ _ Hrep).
    + rewrite del_at_ge in Hi by lia. by eapply (repr_fits _ _ Hrep).
  - intros i v Hi. eapply slot_frame; [|by apply Hc].
    apply lookup_lt_Some in Hi. rewrite length_del_at in Hi by done.
    intros o ->. apply rd_zrealloc; unfold n in *; nia.
  - intros i j x y Hi Hj Hij.
    assert (Hnth : forall k, del_at p l !! k = l !! (if decide (k < p)%nat then k else S k)).
    { intros k. case_decide; [by apply del_at_lt|apply del_at_ge; lia]. }
    rewrite Hnth in Hi, Hj. eapply (repr_sorted _ _ Hrep); [apply Hi|apply Hj|].
    repeat case_decide; lia.
Qed.
End remove.

(** ** Refinement of finite sets *)

Lemma repr_NoDup s l : repr s l -> NoDup l.
Proof. intros H. apply NoDup_alt. intros i j x. by apply (repr_inj s l). Qed.

Lemma models_size s (X : gset Z) l :
  repr s l -> (forall x, x ∈ X <-> x ∈ l) -> size X = length l.
Proof.
  intros Hr HX. rewrite <-(size_list_to_set (C:=gset Z) l) by (by eapply repr_NoDup).
  f_equal. apply set_eq. intros x. rewrite HX, elem_of_list_to_set. done.
Qed.

Lemma valueEncoding_nfits s l v :
  repr s l -> LLONG_MIN <= v <= LLONG_MAX -> is_encoding s < intsetValueEncoding v -> v ∉ l.
Proof.
  intros Hr Hv Hlt [i Hi]%list_elem_of_lookup_1. apply (repr_fits _ _ Hr) in Hi.
  apply valueEncoding_fits in Hi; [lia|apply Hr|done].
Qed.

(** The elements smaller than the one in slot [i] are those of the slots before. *)
Lemma rank_below s l (X : gset Z) pos v :
  repr s l -> (forall x, x ∈ X <-> x ∈ l) -> 0 <= pos -> l !! Z.to_nat pos = Some v ->
  Z.of_nat (size (filter (fun x => x < v) X)) = pos.
Proof.
  intros Hr HX Hp Hat. pose proof (lookup_lt_Some _ _ _ Hat).
  assert (E : filter (fun x => x < v) X = list_to_set (take (Z.to_nat pos) l)).
  { apply set_eq. intros x. rewrite elem_of_filter, elem_of_list_to_set, HX. split.
    - intros [Hx [i Hi]%list_elem_of_lookup_1]. apply list_elem_of_lookup. exists i.
      rewrite lookup_take_lt; [done|].
      destruct (decide (i < Z.to_nat pos)%nat); [done|].
      destruct (decide (i = Z.to_nat pos)) as [->|]; [simplify_eq; lia|].
      pose proof (repr_sorted _ _ Hr _ _ _ _ Hat Hi). lia.
    - intros [i Hi]%list_elem_of_lookup_1. apply lookup_take_Some in Hi as [Hi ?].
      split; [|by eapply list_elem_of_lookup_2].
      eapply (repr_sorted _ _ Hr); [apply Hi|apply Hat|lia]. }
  rewrite E, size_list_to_set, length_take; [lia|].
  apply (NoDup_app (take (Z.to_nat pos) l) (drop (Z.to_nat pos) l)).
  rewrite take_drop. by eapply repr_NoDup.
Qed.

Lemma intsetNew_models : models intsetNew ∅.
Proof.
  exists []. split; [|set_solver]. split; cbn; try (intros; by simplify_list_eq); try done.
  by left.
Qed.

(** intsetAdd: adding a 64-bit value to a set represented by [s] terminates
    without an out-of-bounds access, reports whether the value was new, and the
    result represents the set with the value added, whatever the encoding
    upgrade it needed. *)
Lemma intsetAdd_models fill s X value :
  models s X -> in_bounds (size X) -> LLONG_MIN <= value <= LLONG_MAX ->
  exists s', intsetAdd fill s value = Some (s', bool_decide (value ∉ X)) /\
    models s' ({[value]} ∪ X).
Proof.
  intros (l & Hr & HX) Hb Hv. rewrite (models_size _ _ _ Hr HX) in Hb.
  unfold intsetAdd.
  assert (Hins : forall s' p, repr s' (ins_at p value l) -> models s' ({[value]} ∪ X)).
  { intros s' p Hs. eexists. split; [done|]. intros x.
    rewrite elem_of_ins_at, elem_of_union, elem_of_singleton, HX. done. }
  destruct (Z.gtb_spec (intsetValueEncoding value) (is_encoding s)) as [Hgt|Hle].
  - destruct (upgrade_add fill s l value Hr Hb Hv Hgt) as (s' & -> & Hs'). mred.
    exists s'. split; [|by eapply Hins].
    rewrite bool_decide_true; [done|]. rewrite HX. by eapply valueEncoding_nfits.
  - destruct (intsetSearch_spec s l value Hr Hb) as (pos & -> & Hin & Hout). mred.
    destruct (decide (value ∈ l)) as [Hel|Hel].
    + rewrite (bool_decide_true (value ∈ l)) by done. exists s.
      rewrite bool_decide_false by (rewrite HX; tauto). split; [done|].
      exists l. split; [done|]. intros x. rewrite elem_of_union, elem_of_singleton, HX.
      split; [intros [->|]; done|by right].
    + rewrite (bool_decide_false (value ∈ l)) by done.
      rewrite bool_decide_true by (by rewrite HX).
      destruct (add_in_place fill s l value Hr Hb pos) as (s' & Hs' & Hrep').
      { by apply valueEncoding_fits; [apply Hr| |]. }
      { by apply Hout. }
      exists s'. split; [|by eapply Hins]. revert Hs'. cbv zeta.
      destruct (if pos <? _ then _ else _); mred; [|done].
      destruct (intsetSet _ _ _); mred; [|done]. by intros [= <-].
Qed.

Lemma intsetRemove_models fill s X value :
  models s X -> in_bounds (size X) -> LLONG_MIN <= value <= LLONG_MAX ->
  exists s', intsetRemove fill s value = Some (s', bool_decide (value ∈ X)) /\
    models s' (X ∖ {[value]}).
Proof.
  intros (l & Hr & HX) Hb Hv. rewrite (models_size _ _ _ Hr HX) in Hb.
  unfold intsetRemove.
  assert (Hsame : (value ∉ l) -> models s (X ∖ {[value]})).
  { intros Hn. exists l. split; [done|]. intros x.
    rewrite elem_of_difference, elem_of_singleton, HX. split; [tauto|].
    intros Hx. split; [done|]. by intros ->. }
  destruct (Z.leb_spec (intsetValueEncoding value) (is_encoding s)) as [Hle|Hgt].
  - destruct (intsetSearch_spec s l value Hr Hb) as (pos & -> & Hin & Hout). mred.
    rewrite (bool_decide_ext (value ∈ X) (value ∈ l)) by apply HX.
    destruct (decide (value ∈ l)) as [Hel|Hel].
    2:{ rewrite bool_decide_false by done. exists s. auto. }
    rewrite bool_decide_true by done. destruct (Hin Hel) as [Hp Hat].
    destruct (remove_found fill s l value (Z.to_nat pos) Hr Hb Hat) as (s' & Hs' & Hrep').
    rewrite Z2Nat.id in Hs' by done. exists s'. split; [done|].
    eexists. split; [done|]. intros x. rewrite elem_of_difference, elem_of_singleton, HX.
    rewrite (elem_of_del_at _ _ _ x Hat). split; [tauto|]. intros Hx. split; [by right|].
    intros ->. apply list_elem_of_lookup_1 in Hx as [i Hi].
    pose proof (lookup_lt_Some _ _ _ Hi) as Hi'.
    rewrite length_del_at in Hi' by (by eapply lookup_lt_Some).
    destruct (decide (i < Z.to_nat pos)%nat).
    + rewrite del_at_lt in Hi by (done || by eapply lookup_lt_Some).
      pose proof (repr_inj _ _ _ _ _ Hr Hi Hat). lia.
    + rewrite del_at_ge in Hi by (lia || by eapply lookup_lt_Some).
      pose proof (repr_inj _ _ _ _ _ Hr Hi Hat). lia.
  - assert (value ∉ l) by (by eapply valueEncoding_nfits).
    exists s. rewrite bool_decide_false by (by rewrite HX). auto.
Qed.

Lemma intsetFind_models s X value :
  models s X -> in_bounds (size X) -> LLONG_MIN <= value <= LLONG_MAX ->
  intsetFind s value = Some (bool_decide (value ∈ X)).
Proof.
  intros (l & Hr & HX) Hb Hv. rewrite (models_size _ _ _ Hr HX) in Hb.
  unfold intsetFind. rewrite (bool_decide_ext (value ∈ X) (value ∈ l)) by apply HX.
  destruct (Z.leb_spec (intsetValueEncoding value) (is_encoding s)) as [Hle|Hgt].
  - by destruct (intsetSearch_spec s l value Hr Hb) as (pos & -> & _).
  - rewrite bool_decide_false; [done|]. by eapply valueEncoding_nfits.
Qed.

(** ** Properties *)

Definition example_set : gset Z := {[-5; 9]}.

Lemma models_example : models (Intset 2 2 [251; 255; 9; 0]) example_set.
Proof.
  exists [-5; 9]. split; [|intros x; unfold example_set; rewrite elem_of_union, !elem_of_singleton, elem_of_cons, list_elem_of_singleton; done].
  split; cbn [is_encoding is_length is_contents]; [by left|done|done|..].
  - intros [|[|i]] v; cbn; [intros [= <-]; unfold fits; cbn; lia..|done].
  - intros [|[|i]] v; cbn; [intros [= <-]; by vm_compute..|done].
  - intros [|[|i]] [|[|j]] x y; cbn; intros Hx Hy ?; simplify_eq; lia.
Qed.

(** C25: an intset implements a finite set of 64-bit integers. Adding an integer to an intset
    that represents [X] reports whether it was new and yields an intset that represents [X]
    with it, also when the insertion widens the encoding of every element; removing it
    reports whether it was there and yields an intset that represents [X] without it.
    [intsetFind] decides membership, [intsetLen] is the cardinality, and [intsetGet] at
    position [pos] returns the member with exactly [pos] smaller members, or fails past the
    end. No access is out of bounds. *)
Theorem intset_refines fill s X value pos :
  models s X -> in_bounds (size X) -> LLONG_MIN <= value <= LLONG_MAX -> 0 <= pos ->
  (exists s', intsetAdd fill s value = Some (s', bool_decide (value ∉ X)) /\
    models s' ({[value]} ∪ X)) /\
  (exists s', intsetRemove fill s value = Some (s', bool_decide (value ∈ X)) /\
    models s' (X ∖ {[value]})) /\
  intsetFind s value = Some (bool_decide (value ∈ X)) /\
  intsetLen s = Z.of_nat (size X) /\
  (pos < Z.of_nat (size X) -> exists v, intsetGet s pos = Some (Some v) /\ v ∈ X /\
     Z.of_nat (size (filter (fun x => x < v) X)) = pos) /\
  (Z.of_nat (size X) <= pos -> intsetGet s pos = Some None).
Proof.
  intros HX Hb Hv Hp. split; [by apply intsetAdd_models|]. split; [by apply intsetRemove_models|]. split; [by apply intsetFind_models|].
  destruct HX as (l & Hr & HX). pose proof (models_size _ _ _ Hr HX) as Hsz.
  pose proof (repr_len _ _ Hr) as Hlen. unfold intsetLen, intsetGet. rewrite Hlen, Hsz.
  split; [done|]. split; intros Hpos.
  2:{ destruct (Z.ltb_spec pos (Z.of_nat (length l))); [lia|done]. }
  destruct (Z.ltb_spec pos (Z.of_nat (length l))); [|lia].
  destruct (lookup_lt_is_Some_2 l (Z.to_nat pos)) as [v Hat]; [lia|].
  pose proof (repr_get _ _ _ _ Hr Hat) as Hg. rewrite Z2Nat.id in Hg by lia.
  exists v. rewrite Hg. mred. split; [done|]. split.
  { rewrite HX. by eapply list_elem_of_lookup_2. }
  by apply (rank_below s l X).
Qed.

Lemma intset_refines_witness :
  (exists s', intsetAdd 0 (Intset 2 2 [251; 255; 9; 0]) 9 = Some (s', bool_decide (9 ∉ example_set)) /\
    models s' ({[9]} ∪ example_set)) /\
  (exists s', intsetRemove 0 (Intset 2 2 [251; 255; 9; 0]) 9 = Some (s', bool_decide (9 ∈ example_set)) /\
    models s' (example_set ∖ {[9]})) /\
  intsetFind (Intset 2 2 [251; 255; 9; 0]) 9 = Some (bool_decide (9 ∈ example_set)) /\
  exists v, intsetGet (Intset 2 2 [251; 255; 9; 0]) 1 = Some (Some v) /\ v ∈ example_set /\
     Z.of_nat (size (filter (fun x => x < v) example_set)) = 1.
Proof.
  destruct (intset_refines 0 (Intset 2 2 [251; 255; 9; 0]) example_set 9 1)
    as (HA & H0 & H1 & _ & H3 & _); [apply models_example|vm_compute; reflexivity|lia|lia|].
  split; [exact HA|]. split; [exact H0|]. split; [exact H1|]. apply H3. vm_compute. reflexivity.
Defined.
