(* ===== verification/Util.v ===== *)
(** * util.c: number formatting and parsing, glob matching *)

From S2P Require Import Prelude.

(** ** Decimal conversion *)

(** [digits10] recurses once on [v / 10^12]; [fuel] bounds the depth. *)
Fixpoint digits10_fuel (fuel : nat) (v : Z) : option Z :=
  match fuel with
  | O => None
  | S fuel =>
    if v <? 10 then Some 1 else
    if v <? 100 then Some 2 else
    if v <? 1000 then Some 3 else
    if v <? 1000000000000 then
      if v <? 100000000 then
        if v <? 1000000 then
          if v <? 10000 then Some 4
          else Some (5 + (if v >=? 100000 then 1 else 0))
        else Some (7 + (if v >=? 10000000 then 1 else 0))
      else if v <? 10000000000 then Some (9 + (if v >=? 1000000000 then 1 else 0))
      else Some (11 + (if v >=? 100000000000 then 1 else 0))
    else d ← digits10_fuel fuel (v / 1000000000000); Some (12 + d)
  end.

Definition digits10 (v : Z) : option Z := digits10_fuel 2 v.

Definition sdigits10 (v : Z) : option Z :=
  if v <? 0 then
    let uv := if negb (v =? LLONG_MIN) then u64 (- v) else u64 (LLONG_MAX + 1) in
    d ← digits10 uv; Some (d + 1)
  else digits10 v.

(** The 200-byte table of [ll2string]. *)
Definition digits_table : list Z :=
  lit "0001020304050607080910111213141516171819" ++
  lit "2021222324252627282930313233343536373839" ++
  lit "4041424344454647484950515253545556575859" ++
  lit "6061626364656667686970717273747576777879" ++
  lit "8081828384858687888990919293949596979899".

(** The [while (value >= 100)] loop: the result is [(dst, next, value)]. *)
Fixpoint ll2string_loop (fuel : nat) (dst : list Z) (next value : Z)
  : option (list Z * Z * Z) :=
  match fuel with
  | O => None
  | S fuel =>
    if value >=? 100 then
      let i := (value mod 100) * 2 in
      let value := value / 100 in
      d1 ← rd1 digits_table (i + 1);
      dst ← wr dst next [d1];
      d0 ← rd1 digits_table i;
      dst ← wr dst (u32 (next - 1)) [d0];
      ll2string_loop fuel dst (u32 (next - 2)) value
    else Some (dst, next, value)
  end.

(** The last one or two digits. *)
Definition ll2string_last (dst : list Z) (next value : Z) : option (list Z) :=
  if value <? 10 then wr dst next [48 + value]
  else
    let i := value * 2 in
    d1 ← rd1 digits_table (i + 1);
    dst ← wr dst next [d1];
    d0 ← rd1 digits_table i;
    wr dst (u32 (next - 1)) [d0].

(** [dst] is the caller's buffer; the result is the returned length and the
    buffer afterwards. *)
Definition ll2string (dst : list Z) (dstlen svalue : Z) : option (Z * list Z) :=
  let '(value, negative) :=
    if svalue <? 0 then
      if negb (svalue =? LLONG_MIN) then (u64 (- svalue), 1) else (u64 (LLONG_MAX + 1), 1)
    else (u64 svalue, 0) in
  d ← digits10 value;
  let length := u32 (d + negative) in
  if length >=? dstlen then Some (0, dst) else
  let next := length in
  dst ← wr dst next [0];
  let next := u32 (next - 1) in
  '(dst, next, value) ← ll2string_loop 11 dst next value;
  dst ← ll2string_last dst next value;
  dst ← (if negative =? 1 then wr dst 0 [45] else Some dst);
  Some (length, dst).

Definition is_digit (c : Z) : bool := (48 <=? c) && (c <=? 57).

(** The digit loop of [string2ll]: [p] is the unread part of the string. [None]
    is the overflow return; otherwise the value and the unread rest. *)
Fixpoint string2ll_loop (v : Z) (p : list Z) : option (Z * list Z) :=
  match p with
  | [] => Some (v, [])
  | c :: p' =>
    if is_digit c then
      if v >? ULLONG_MAX / 10 then None else
      let v := u64 (v * 10) in
      if v >? ULLONG_MAX - (c - 48) then None else
      string2ll_loop (u64 (v + (c - 48))) p'
    else Some (v, p)
  end.

(** What follows the optional sign; [slen] is the length of the whole string. *)
Definition string2ll_unsigned (slen : Z) (negative : bool) (p : list Z) : option Z :=
  match p with
  | [] => None
  | c :: p' =>
    if (49 <=? c) && (c <=? 57) then
      match string2ll_loop (c - 48) p' with
      | None => None
      | Some (v, rest) =>
        if (0 <? Z.of_nat (length rest)) then None else
        if negative then
          if v >? u64 (- (LLONG_MIN + 1)) + 1 then None else Some (s64 (u64 (- v)))
        else if v >? LLONG_MAX then None else Some (s64 v)
      end
    else if (c =? 48) && (slen =? 1) then Some 0
    else None
  end.

(** [None]: the function returns 0; [Some v]: it returns 1 and stores [v]. *)
Definition string2ll (s : list Z) : option Z :=
  let slen := Z.of_nat (length s) in
  match s with
  | [] => None
  | c :: p =>
    if (slen =? 1) && (c =? 48) then Some 0 else
    if c =? 45 then string2ll_unsigned slen true p else string2ll_unsigned slen false s
  end.

(** [long] has 64 bits on the targets considered, so the range check of
    [string2l] is the one written here. *)
Definition string2l (s : list Z) : option Z :=
  match string2ll s with
  | None => None
  | Some llval => if (llval <? LLONG_MIN) || (llval >? LLONG_MAX) then None else Some (s64 llval)
  end.

(** [strlen]: the bytes before the first NUL. *)
Fixpoint cstring (b : list Z) : list Z :=
  match b with c :: b => if c =? 0 then [] else c :: cstring b | [] => [] end.

(** ** Glob matching *)

Inductive mres := MMatch (b : bool) | MFault | MFuel.

Definition mbindr (o : option Z) (k : Z -> mres) : mres :=
  match o with Some x => k x | None => MFault end.

(** [tolower] in the C locale, on a [char] promoted to [int]. *)
Definition tolower (c : Z) : Z := if (65 <=? c) && (c <=? 90) then c + 32 else c.

(** [while (pattern[off] == '*') { pattern++; patternLen--; }] *)
Fixpoint skip_stars (fuel : nat) (pat : list Z) (off pi plen : Z) : option (Z * Z) :=
  match fuel with
  | O => None
  | S fuel =>
    c ← rd1 pat (pi + off);
    if c =? 42 then skip_stars fuel pat off (pi + 1) (plen - 1) else Some (pi, plen)
  end.

(** The [while(1)] loop of the ['['] case: [(pattern, patternLen, match)]. *)
Fixpoint bracket_loop (fuel : nat) (pat str : list Z) (pi plen si : Z) (nocase mtch : bool)
  : option (Z * Z * bool) :=
  match fuel with
  | O => None
  | S fuel =>
    c ← rd1 pat pi;
    if c =? 92 then
      c ← rd1 pat (pi + 1);
      x ← rd1 str si;
      let mtch := if c =? x then true else mtch in
      bracket_loop fuel pat str (pi + 1 + 1) (plen - 1 - 1) si nocase mtch
    else if c =? 93 then Some (pi, plen, mtch)
    else if plen =? 0 then Some (pi - 1, plen + 1, mtch)
    else
      c1 ← rd1 pat (pi + 1);
      if (c1 =? 45) && (plen >=? 3) then
        e ← rd1 pat (pi + 2);
        x ← rd1 str si;
        let start := s8 c in let end_ := s8 e in let ch := s8 x in
        let '(start, end_) := if start >? end_ then (end_, start) else (start, end_) in
        let '(start, end_, ch) :=
          if nocase then (tolower start, tolower end_, tolower ch) else (start, end_, ch) in
        let mtch := if (ch >=? start) && (ch <=? end_) then true else mtch in
        bracket_loop fuel pat str (pi + 2 + 1) (plen - 2 - 1) si nocase mtch
      else
        x ← rd1 str si;
        let mtch := if (if nocase then tolower (s8 c) =? tolower (s8 x) else c =? x)
                    then true else mtch in
        bracket_loop fuel pat str (pi + 1) (plen - 1) si nocase mtch
  end.

Definition match_end (plen slen : Z) : mres := MMatch ((plen =? 0) && (slen =? 0)).

(** What follows the [switch]; [self] is the rest of the [while(patternLen)] loop. *)
Definition match_advance (self : Z -> Z -> Z -> Z -> mres) (pat : list Z)
    (pi plen si slen : Z) : mres :=
  let pi := pi + 1 in
  let plen := plen - 1 in
  if slen =? 0 then
    match skip_stars (S (length pat)) pat 0 pi plen with
    | None => MFault
    | Some (pi, plen) => match_end plen slen
    end
  else self pi plen si slen.

(** The [default] case. *)
Definition match_literal (self : Z -> Z -> Z -> Z -> mres) (pat str : list Z) (nocase : bool)
    (pi plen si slen : Z) : mres :=
  mbindr (rd1 pat pi) (fun c => mbindr (rd1 str si) (fun x =>
    if (if nocase then tolower (s8 c) =? tolower (s8 x) else c =? x)
    then match_advance self pat pi plen (si + 1) (slen - 1) else MMatch false)).

(** [while(stringLen)] of the ['*'] case; [self] is the recursive call. *)
Fixpoint star_loop (self : Z -> Z -> mres) (n : nat) (si slen : Z) : mres :=
  match n with
  | O => MFuel
  | S n =>
    if slen =? 0 then MMatch false else
    match self si slen with
    | MMatch true => MMatch true
    | MMatch false => star_loop self n (si + 1) (slen - 1)
    | r => r
    end
  end.

(** [pat] and [str] are the two memory blocks with their NUL terminators; [pi]
    and [si] are the pointers, [plen] and [slen] the [int] lengths. *)
Fixpoint stringmatchlen_fuel (fuel : nat) (pat str : list Z) (nocase : bool)
    (pi plen si slen : Z) : mres :=
  match fuel with
  | O => MFuel
  | S fuel =>
    let self := stringmatchlen_fuel fuel pat str nocase in
    if plen =? 0 then match_end plen slen else
    mbindr (rd1 pat pi) (fun c =>
    if c =? 42 then
      match skip_stars (S (length pat)) pat 1 pi plen with
      | None => MFault
      | Some (pi, plen) =>
        if plen =? 1 then MMatch true else
        star_loop (self (pi + 1) (plen - 1)) (S (length str)) si slen
      end
    else if c =? 63 then
      if slen =? 0 then MMatch false else match_advance self pat pi plen (si + 1) (slen - 1)
    else if c =? 91 then
      let pi := pi + 1 in
      let plen := plen - 1 in
      mbindr (rd1 pat pi) (fun c =>
        let not_ := c =? 94 in
        let '(pi, plen) := if not_ then (pi + 1, plen - 1) else (pi, plen) in
        match bracket_loop (S (length pat)) pat str pi plen si nocase false with
        | None => MFault
        | Some (pi, plen, mtch) =>
          let mtch := if not_ then negb mtch else mtch in
          if negb mtch then MMatch false
          else match_advance self pat pi plen (si + 1) (slen - 1)
        end)
    else if c =? 92 then
      if plen >=? 2 then match_literal self pat str nocase (pi + 1) (plen - 1) si slen
      else match_literal self pat str nocase pi plen si slen
    else match_literal self pat str nocase pi plen si slen)
  end.

(** Called on two sds strings: NUL-terminated blocks of known length. *)
Definition stringmatchlen (pattern string_ : list Z) (nocase : bool) : mres :=
  stringmatchlen_fuel (S (length pattern)) (pattern ++ [0]) (string_ ++ [0]) nocase
    0 (Z.of_nat (length pattern)) 0 (Z.of_nat (length string_)).

(** ** The decimal representation, as a reference *)

Fixpoint udec (fuel : nat) (v : Z) : list Z :=
  match fuel with
  | O => [48 + v]
  | S fuel => if v <? 10 then [48 + v] else udec fuel (v / 10) ++ [48 + v mod 10]
  end.

Definition udecimal (v : Z) : list Z := udec (Z.to_nat (Z.log2 v)) v.

Definition decimal (v : Z) : list Z :=
  if v <? 0 then 45 :: udecimal (- v) else udecimal v.

(** The number a digit string denotes, continuing from [v]. *)
Definition digits_val (v : Z) (p : list Z) : Z := foldl (fun a c => a * 10 + (c - 48)) v p.

Lemma udec_fuel f g v :
  0 <= v < 2 ^ Z.of_nat (S f) -> 0 <= v < 2 ^ Z.of_nat (S g) -> udec f v = udec g v.
Proof.
  revert g v; induction f as [|f IH]; intros g v Hf Hg.
  - destruct g as [|g]; [done|]. cbn [udec]. destruct (Z.ltb_spec v 10); [done|]. cbn in Hf. lia.
  - destruct g as [|g].
    + cbn [udec]. destruct (Z.ltb_spec v 10); [done|]. cbn in Hg. lia.
    + cbn [udec]. destruct (Z.ltb_spec v 10); [done|]. f_equal.
      rewrite Nat2Z.inj_succ, Z.pow_succ_r in Hf, Hg by lia.
      apply IH; zlia.
Qed.

Lemma udec_udecimal f v : 0 <= v < 2 ^ Z.of_nat (S f) -> udec f v = udecimal v.
Proof.
  intros H. apply udec_fuel; [done|]. split; [lia|].
  destruct (decide (v = 0)) as [->|]; [done|].
  rewrite Nat2Z.inj_succ, Z2Nat.id by apply Z.log2_nonneg. apply Z.log2_spec. lia.
Qed.

Lemma udecimal_small v : 0 <= v < 10 -> udecimal v = [48 + v].
Proof.
  intros H. unfold udecimal. destruct (Z.to_nat _); [done|]. cbn [udec].
  destruct (Z.ltb_spec v 10); [done|lia].
Qed.

Lemma udecimal_step v : 10 <= v -> udecimal v = udecimal (v / 10) ++ [48 + v mod 10].
Proof.
  intros H. rewrite <-(udec_udecimal (S (Z.to_nat (Z.log2 v))) v).
  2:{ rewrite !Nat2Z.inj_succ, Z2Nat.id by apply Z.log2_nonneg.
      pose proof (Z.log2_spec v). rewrite (Z.pow_succ_r 2 (Z.succ _)); [lia|].
      pose proof (Z.log2_nonneg v). lia. }
  cbn [udec]. destruct (Z.ltb_spec v 10); [lia|]. f_equal. apply udec_udecimal.
  rewrite Nat2Z.inj_succ, Z2Nat.id by apply Z.log2_nonneg.
  pose proof (Z.log2_spec v). zlia.
Qed.

(** Induction along the decimal digits. *)
Lemma decimal_ind (P : Z -> Prop) :
  (forall v, 0 <= v < 10 -> P v) -> (forall v, 10 <= v -> P (v / 10) -> P v) ->
  forall v, 0 <= v -> P v.
Proof.
  intros Hs Hl v. induction v as [v IH] using (well_founded_induction (Z.lt_wf 0)).
  intros Hv. destruct (decide (v < 10)); [apply Hs; lia|].
  apply Hl; [lia|]. apply IH; zlia.
Qed.

Lemma udecimal_digits v : 0 <= v -> Forall (fun c => is_digit c = true) (udecimal v).
Proof.
  revert v. apply decimal_ind; intros v Hv; unfold is_digit.
  - rewrite udecimal_small by done. repeat constructor. lia.
  - intros IH. rewrite udecimal_step by done. apply Forall_app. split; [done|].
    repeat constructor. zlia.
Qed.

Lemma digits_val_app v p q : digits_val v (p ++ q) = digits_val (digits_val v p) q.
Proof. unfold digits_val. by rewrite foldl_app. Qed.

Lemma digits_val_udecimal v : 0 <= v -> digits_val 0 (udecimal v) = v.
Proof.
  revert v. apply decimal_ind; intros v Hv.
  - rewrite udecimal_small by done. cbn. lia.
  - intros IH. rewrite udecimal_step by done. rewrite digits_val_app, IH. cbn. zlia.
Qed.

(** Appending a digit to the representation of a positive number. *)
Lemma udecimal_snoc v c :
  1 <= v -> is_digit c = true -> udecimal (v * 10 + (c - 48)) = udecimal v ++ [c].
Proof.
  unfold is_digit. intros Hv Hc. rewrite udecimal_step by lia.
  replace ((v * 10 + (c - 48)) / 10) with v by zlia.
  replace (48 + (v * 10 + (c - 48)) mod 10) with c by zlia. done.
Qed.

Lemma udecimal_app v p :
  1 <= v -> Forall (fun c => is_digit c = true) p ->
  udecimal (digits_val v p) = udecimal v ++ p /\ v <= digits_val v p.
Proof.
  intros Hv Hp. revert v Hv. induction Hp as [|c p Hc Hp IH]; intros v Hv.
  { by rewrite app_nil_r. }
  cbn. assert (0 <= c - 48) by (unfold is_digit in Hc; lia).
  destruct (IH (v * 10 + (c - 48))) as [IH1 IH2]; [lia|].
  unfold digits_val in *. rewrite IH1, udecimal_snoc by done.
  rewrite <-app_assoc. split; [done|]. lia.
Qed.

Lemma udecimal_hd v : 1 <= v -> exists c p, udecimal v = c :: p /\ 49 <= c <= 57 /\
  Forall (fun c => is_digit c = true) p /\ digits_val (c - 48) p = v.
Proof.
  intros Hv. assert (0 <= v) as H0 by lia. revert v H0 Hv. apply (decimal_ind (fun v => 1 <= v -> _)).
  - intros v H ?. exists (48 + v), []. rewrite udecimal_small by done.
    split; [done|]. split; [lia|]. split; [done|]. cbn. lia.
  - intros v H IH _. destruct IH as (c & p & E & Hc & Hp & Hval); [zlia|].
    exists c, (p ++ [48 + v mod 10]). rewrite udecimal_step, E by done. split; [done|].
    split; [done|]. split.
    + apply Forall_app. split; [done|]. repeat constructor. unfold is_digit. zlia.
    + rewrite digits_val_app, Hval. cbn. zlia.
Qed.

(** ** string2ll *)

Lemma string2ll_loop_sound v p v' rest :
  1 <= v <= ULLONG_MAX -> string2ll_loop v p = Some (v', rest) -> rest = [] ->
  Forall (fun c => is_digit c = true) p /\ v' = digits_val v p /\ v' <= ULLONG_MAX.
Proof.
  revert v. induction p as [|c p IH]; intros v Hv H Hr; cbn in H.
  { simplify_eq. split; [done|]. cbn. lia. }
  destruct (is_digit c) eqn:Hc; [|simplify_eq].
  destruct (Z.gtb_spec v (ULLONG_MAX / 10)) as [|Hle]; [done|].
  change (ULLONG_MAX / 10) with 1844674407370955161 in Hle.
  rewrite (wrapu_small 64 (v * 10)) in H by (pow2; lia).
  destruct (Z.gtb_spec (v * 10) (ULLONG_MAX - (c - 48))); [done|].
  unfold is_digit in Hc. rewrite wrapu_small in H by (pow2; lia).
  apply IH in H as (?&->&?); [|lia|done].
  split; [constructor; [unfold is_digit; lia|done]|done].
Qed.

Lemma string2ll_loop_complete v p :
  1 <= v -> Forall (fun c => is_digit c = true) p -> digits_val v p <= ULLONG_MAX ->
  string2ll_loop v p = Some (digits_val v p, []).
Proof.
  intros Hv Hp. revert v Hv. induction Hp as [|c p Hc Hp IH]; intros v Hv Hb; [done|].
  cbn [string2ll_loop]. rewrite Hc.
  assert (48 <= c <= 57) as Hc' by (unfold is_digit in Hc; lia).
  change (digits_val v (c :: p)) with (digits_val (v * 10 + (c - 48)) p) in *.
  destruct (udecimal_app (v * 10 + (c - 48)) p) as [_ Hle]; [lia|done|].
  destruct (Z.gtb_spec v (ULLONG_MAX / 10)) as [Hgt|_].
  { change (ULLONG_MAX / 10) with 1844674407370955161 in Hgt. lia. }
  rewrite (wrapu_small 64 (v * 10)) by (pow2; lia).
  destruct (Z.gtb_spec (v * 10) (ULLONG_MAX - (c - 48))); [lia|].
  rewrite wrapu_small by (pow2; lia). apply IH; lia.
Qed.

Lemma string2ll_unsigned_sound slen neg p v :
  slen <> 1 \/ (forall q, p <> 48 :: q) -> string2ll_unsigned slen neg p = Some v ->
  (if neg then [45] else []) ++ p = decimal v /\ LLONG_MIN <= v <= LLONG_MAX.
Proof.
  unfold string2ll_unsigned. intros Hs. destruct p as [|c p]; [done|].
  destruct (_ && (c <=? 57)) eqn:Ec.
  2:{ destruct ((c =? 48) && _) eqn:E1; [|done]. zbool. subst c.
      destruct Hs as [?|Hs]; [done|]. by destruct (Hs p). }
  destruct (string2ll_loop _ _) as [[v' rest]|] eqn:El; [|done].
  destruct (Z.ltb_spec 0 (Z.of_nat (length rest))) as [|Hlen]; [done|].
  destruct rest; [|cbn [length] in Hlen; lia].
  apply string2ll_loop_sound in El as (Hp & Hv & Hb); [|lia|done].
  destruct (udecimal_app (c - 48) p) as [Eu Hle]; [lia|done|]. rewrite <-Hv in Eu, Hle.
  rewrite (udecimal_small (c - 48)) in Eu by lia. cbn [app] in Eu.
  replace (48 + (c - 48)) with c in Eu by lia. rewrite <-Eu. unfold decimal.
  change (u64 (- (LLONG_MIN + 1)) + 1) with 9223372036854775808. destruct neg.
  - destruct (Z.gtb_spec v' 9223372036854775808); [done|]. intros [= <-].
    rewrite wraps_wrapu, wraps_small by (pow2; lia).
    destruct (Z.ltb_spec (- v') 0); [|lia]. rewrite Z.opp_involutive. split; [done|lia].
  - destruct (Z.gtb_spec v' LLONG_MAX); [done|]. intros [= <-].
    rewrite wraps_small by (pow2; lia). destruct (Z.ltb_spec v' 0); [lia|]. split; [done|lia].
Qed.

Lemma string2ll_sound s v :
  string2ll s = Some v -> s = decimal v /\ LLONG_MIN <= v <= LLONG_MAX.
Proof.
  unfold string2ll. destruct s as [|c0 s]; [done|].
  destruct (_ && _) eqn:E0.
  { intros [= <-]. zbool. destruct s; [|cbn [length] in *; lia]. by subst. }
  destruct (Z.eqb_spec c0 45) as [->|].
  - intros H. apply string2ll_unsigned_sound in H; [done|].
    destruct s; [done|]. left. cbn [length]. lia.
  - intros H. apply string2ll_unsigned_sound in H; [done|].
    apply andb_false_iff in E0 as [E0|E0]; zbool; [by left|right; naive_solver].
Qed.

Lemma string2ll_complete v :
  LLONG_MIN <= v <= LLONG_MAX -> string2ll (decimal v) = Some v.
Proof.
  intros Hv. destruct (decide (v = 0)) as [->|Hnz]; [done|].
  destruct (udecimal_hd (Z.abs v)) as (c & p & E & Hc & Hp & Hval); [lia|].
  pose proof (string2ll_loop_complete (c - 48) p) as Hl.
  rewrite Hval in Hl. specialize (Hl ltac:(lia) Hp ltac:(lia)).
  unfold decimal. destruct (Z.ltb_spec v 0).
  - replace (- v) with (Z.abs v) by lia. rewrite E. unfold string2ll.
    rewrite andb_false_r. change (45 =? 45) with true. unfold string2ll_unsigned.
    replace ((49 <=? c) && (c <=? 57)) with true by lia. rewrite Hl.
    change (u64 (- (LLONG_MIN + 1)) + 1) with 9223372036854775808.
    destruct (Z.gtb_spec (Z.abs v) 9223372036854775808); [lia|]. cbn [length].
    rewrite wraps_wrapu, wraps_small by (pow2; lia). cbn. f_equal. lia.
  - replace v with (Z.abs v) by lia. rewrite E. unfold string2ll.
    destruct (Z.eqb_spec c 48); [lia|]. rewrite andb_false_r.
    destruct (Z.eqb_spec c 45); [lia|]. unfold string2ll_unsigned.
    replace ((49 <=? c) && (c <=? 57)) with true by lia. rewrite Hl.
    destruct (Z.gtb_spec (Z.abs v) LLONG_MAX); [lia|]. cbn [length].
    rewrite wraps_small by (pow2; lia). done.
Qed.

(** ** ll2string *)

Lemma length_udecimal (k : nat) v :
  (v < 10 ^ Z.of_nat (S k)) -> (k = 0%nat /\ 0 <= v \/ 10 ^ Z.of_nat k <= v) ->
  length (udecimal v) = S k.
Proof.
  revert v. induction k as [|k IH]; intros v Hlt Hle.
  - rewrite udecimal_small; [done|]. cbn in *. lia.
  - destruct Hle as [?|Hle]; [lia|].
    rewrite Nat2Z.inj_succ, Z.pow_succ_r in Hlt, Hle by lia.
    assert (1 <= 10 ^ Z.of_nat k) by lia.
    rewrite udecimal_step, length_app by lia. cbn [length].
    rewrite IH; [lia|zlia|right; zlia].
Qed.

Lemma length_udecimal_pos v : (1 <= length (udecimal v))%nat.
Proof.
  unfold udecimal. destruct (Z.to_nat _); cbn [udec]; [done|].
  case_match; [done|]. rewrite length_app. cbn [length]. lia.
Qed.

Lemma digits10_fuel_small fuel v :
  0 <= v < 10 ^ 12 -> digits10_fuel (S fuel) v = Some (Z.of_nat (length (udecimal v))).
Proof.
  intros Hv. cbn [digits10_fuel]. change (10 ^ 12) with 1000000000000 in Hv.
  repeat match goal with
  | |- context [if ?x <? ?y then _ else _] => destruct (Z.ltb_spec x y)
  | |- context [if ?x >=? ?y then _ else _] => destruct (Z.geb_spec x y)
  end; try lia; f_equal;
  first [rewrite (length_udecimal 0) by (cbn; lia) | rewrite (length_udecimal 1) by (cbn; lia)
       | rewrite (length_udecimal 2) by (cbn; lia) | rewrite (length_udecimal 3) by (cbn; lia)
       | rewrite (length_udecimal 4) by (cbn; lia) | rewrite (length_udecimal 5) by (cbn; lia)
       | rewrite (length_udecimal 6) by (cbn; lia) | rewrite (length_udecimal 7) by (cbn; lia)
       | rewrite (length_udecimal 8) by (cbn; lia) | rewrite (length_udecimal 9) by (cbn; lia)
       | rewrite (length_udecimal 10) by (cbn; lia) | rewrite (length_udecimal 11) by (cbn; lia)];
  lia.
Qed.

Lemma length_udecimal_shift (k : nat) v :
  10 ^ Z.of_nat k <= v -> length (udecimal v) = (k + length (udecimal (v / 10 ^ Z.of_nat k)))%nat.
Proof.
  revert v. induction k as [|k IH]; intros v Hv.
  - change (10 ^ Z.of_nat 0) with 1. by rewrite Z.div_1_r.
  - rewrite Nat2Z.inj_succ, Z.pow_succ_r in * by lia.
    assert (1 <= 10 ^ Z.of_nat k) by lia.
    rewrite udecimal_step, length_app, IH by (lia || zlia). cbn [length].
    rewrite Z.div_div by lia. lia.
Qed.

Lemma digits10_spec v :
  0 <= v <= ULLONG_MAX -> digits10 v = Some (Z.of_nat (length (udecimal v))).
Proof.
  intros Hv. unfold digits10. destruct (decide (v < 10 ^ 12)) as [|Hge].
  { apply digits10_fuel_small. lia. }
  change (10 ^ 12) with 1000000000000 in Hge.
  assert (E : digits10_fuel 2 v = (d ← digits10_fuel 1 (v / 1000000000000); Some (12 + d))).
  { cbn [digits10_fuel]. repeat match goal with
    | |- context [if v <? ?y then _ else _] => destruct (Z.ltb_spec v y); [lia|] end. done. }
  rewrite E, digits10_fuel_small by (change (10 ^ 12) with 1000000000000; zlia). mred.
  rewrite (length_udecimal_shift 12 v) by (change (10 ^ Z.of_nat 12) with 1000000000000; lia). f_equal.
  change (10 ^ Z.of_nat 12) with 1000000000000. lia.
Qed.

Lemma digits_table_spec i :
  0 <= i < 100 -> rd1 digits_table (i * 2) = Some (48 + i / 10) /\
                  rd1 digits_table (i * 2 + 1) = Some (48 + i mod 10).
Proof.
  intros Hi.
  assert (forallb (fun k => let i := Z.of_nat k in
    bool_decide (rd1 digits_table (i * 2) = Some (48 + i / 10) /\
                 rd1 digits_table (i * 2 + 1) = Some (48 + i mod 10))) (seq 0 100) = true) as H
    by (vm_compute; done).
  rewrite forallb_forall in H. specialize (H (Z.to_nat i)).
  rewrite Z2Nat.id in H by lia. apply bool_decide_eq_true in H; [done|].
  apply in_seq. lia.
Qed.

(** Split off the last cell of the buffer part [a]. *)
Ltac snoc a x := 
  destruct a as [|x a _] using rev_ind; [cbn [length] in *; lia|];
  rewrite length_app in *; cbn [length] in *.

Lemma ll2string_last_spec value a b next :
  0 <= value < 100 -> next + 1 = Z.of_nat (length a) ->
  (length (udecimal value) <= length a)%nat -> Z.of_nat (length a) < 2 ^ 32 ->
  ll2string_last (a ++ b) next value =
  Some (take (length a - length (udecimal value)) a ++ udecimal value ++ b).
Proof.
  intros Hv Hn Hl H32. unfold ll2string_last. destruct (Z.ltb_spec value 10).
  - rewrite udecimal_small in * by lia. cbn [length] in *. snoc a x.
    rewrite <-app_assoc. cbn [app]. rewrite wr_one by lia.
    rewrite take_app_le, take_ge by lia. done.
  - assert (E : udecimal value = [48 + value / 10; 48 + value mod 10]).
    { rewrite udecimal_step, udecimal_small by zlia. done. }
    rewrite E in *. cbn [length] in *. snoc a x. snoc a y.
    destruct (digits_table_spec value) as [-> ->]; [lia|]. mred.
    rewrite <-(app_assoc _ [x]). cbn [app].
    rewrite wr_one by (rewrite length_app; cbn [length]; lia). mred.
    rewrite <-app_assoc. cbn [app].
    rewrite (wrapu_small 32 (next - 1)) by (pow2; lia). rewrite wr_one by lia.
    rewrite <-(app_assoc a), take_app_le, take_ge by lia. done.
Qed.

(** Writing the digits right to left into the cells before [b]. *)
Lemma ll2string_digits fuel value a b next :
  0 <= value < 100 ^ Z.of_nat (S fuel) -> next + 1 = Z.of_nat (length a) ->
  (length (udecimal value) <= length a)%nat -> Z.of_nat (length a) < 2 ^ 32 ->
  ('(dst, next, value) ← ll2string_loop (S fuel) (a ++ b) next value;
   ll2string_last dst next value) =
  Some (take (length a - length (udecimal value)) a ++ udecimal value ++ b).
Proof.
  revert value a b next. induction fuel as [|fuel IH]; intros value a b next Hv Hn Hl H32.
  2: remember (S fuel) as g.
  all: cbn [ll2string_loop]; rewrite Nat2Z.inj_succ, Z.pow_succ_r in Hv by lia.
  all: destruct (Z.geb_spec value 100) as [Hge|Hlt]; [try (cbn in Hv; lia)|].
  1,3: mred; apply ll2string_last_spec; [lia|done..].
  assert (E : udecimal value =
    udecimal (value / 100) ++ [48 + (value mod 100) / 10; 48 + (value mod 100) mod 10]).
  { rewrite udecimal_step, (udecimal_step (value / 10)) by zlia.
    rewrite Z.div_div by lia. rewrite <-app_assoc. cbn [app]. f_equal. f_equal; [zlia|]. f_equal. zlia. }
  rewrite E, length_app in *. cbn [length] in Hl.
  pose proof (length_udecimal_pos (value / 100)).
  snoc a x. snoc a y.
  destruct (digits_table_spec (value mod 100)) as [-> ->]; [zlia|]. mred.
  rewrite <-(app_assoc _ [x]). cbn [app].
  rewrite wr_one by (rewrite length_app; cbn [length]; lia). mred.
  rewrite <-app_assoc. cbn [app].
  rewrite (wrapu_small 32 (next - 1)) by (pow2; lia).
  rewrite wr_one by lia. mred. rewrite (wrapu_small 32 (next - 2)) by (pow2; lia).
  rewrite IH; [|zlia|lia|lia|lia]. rewrite <-!app_assoc. cbn [app].
  rewrite take_app_le by lia. do 3 f_equal. lia.
Qed.

Lemma decimal_bounds v :
  LLONG_MIN <= v <= LLONG_MAX -> (1 <= length (decimal v) <= 20)%nat.
Proof.
  intros Hv. assert (forall u, 0 <= u < 10 ^ 19 -> (1 <= length (udecimal u) <= 19)%nat) as H.
  { intros u Hu. split; [apply length_udecimal_pos|].
    enough (forall k u, 0 <= u < 10 ^ Z.of_nat (S k) -> (length (udecimal u) <= S k)%nat) as E
      by (by apply (E 18%nat)).
    clear. induction k as [|k IH]; intros u Hu.
    - rewrite udecimal_small; [done|]. cbn in Hu. lia.
    - destruct (decide (u < 10)); [rewrite udecimal_small by lia; cbn; lia|].
      rewrite udecimal_step, length_app by lia. cbn [length].
      rewrite Nat2Z.inj_succ, Z.pow_succ_r in Hu by lia.
      specialize (IH (u / 10) ltac:(zlia)). lia. }
  change (10 ^ 19) with 10000000000000000000 in H.
  unfold decimal. destruct (Z.ltb_spec v 0); cbn [length];
    [specialize (H (- v))|specialize (H v)]; lia.
Qed.

(** The body of [ll2string] once the magnitude and the sign are known. *)
Lemma ll2string_spec dst dstlen sv :
  LLONG_MIN <= sv <= LLONG_MAX -> dstlen <= Z.of_nat (length dst) ->
  ll2string dst dstlen sv =
  if Z.of_nat (length (decimal sv)) <? dstlen
  then Some (Z.of_nat (length (decimal sv)),
             decimal sv ++ 0 :: drop (length (decimal sv) + 1) dst)
  else Some (0, dst).
Proof.
  intros Hv Hd. pose proof (decimal_bounds sv Hv) as Hb. unfold ll2string.
  set (neg := if sv <? 0 then 1 else 0).
  assert ((if sv <? 0 then if negb (sv =? LLONG_MIN) then (u64 (- sv), 1)
           else (u64 (LLONG_MAX + 1), 1) else (u64 sv, 0)) = (Z.abs sv, neg)) as ->.
  { unfold neg. destruct (Z.ltb_spec sv 0).
    - destruct (Z.eqb_spec sv LLONG_MIN); cbn [negb]; f_equal; [by subst|].
      rewrite wrapu_small by (pow2; lia). lia.
    - f_equal. rewrite wrapu_small by (pow2; lia). lia. }
  rewrite digits10_spec by lia. mred. set (u := udecimal (Z.abs sv)).
  assert (E : decimal sv = (if sv <? 0 then [45] else []) ++ u).
  { unfold decimal, u. destruct (Z.ltb_spec sv 0); cbn [app]; repeat f_equal; lia. }
  assert (El : Z.of_nat (length (decimal sv)) = Z.of_nat (length u) + neg).
  { rewrite E, length_app. unfold neg. destruct (sv <? 0); cbn [length]; lia. }
  assert (0 <= neg <= 1) by (unfold neg; case_match; lia).
  rewrite (wrapu_small 32 (_ + neg)) by (pow2; lia). rewrite <-El.
  set (L := length (decimal sv)) in *.
  destruct (Z.ltb_spec (Z.of_nat L) dstlen) as [Hlt|Hge].
  2:{ by replace (Z.of_nat L >=? dstlen) with true by lia. }
  replace (Z.of_nat L >=? dstlen) with false by lia.
  destruct (drop L dst) as [|x rest] eqn:Edrop.
  { apply (f_equal length) in Edrop. rewrite length_drop in Edrop. cbn in Edrop. lia. }
  rewrite <-(take_drop L dst) at 1. rewrite Edrop.
  assert (Hlt' : length (take L dst) = L) by (rewrite length_take; lia).
  rewrite wr_one by lia. mred. rewrite (wrapu_small 32 (_ - 1)) by (pow2; lia).
  assert (Hu : Z.abs sv < 100 ^ Z.of_nat 11).
  { change (100 ^ Z.of_nat 11) with 10000000000000000000000. lia. }
  pose proof (ll2string_digits 10 (Z.abs sv) (take L dst) (0 :: rest) (Z.of_nat L - 1)) as Hdig.
  fold u in Hdig. rewrite Hlt' in Hdig. specialize (Hdig ltac:(lia) ltac:(lia)).
  specialize (Hdig ltac:(lia) ltac:(pow2; lia)).
  destruct (ll2string_loop _ _ _ _) as [[[d nx] v']|]; [|done].
  cbn [mbind option_bind] in Hdig |- *. rewrite Hdig.
  assert (Er : drop (L + 1) dst = rest).
  { rewrite <-drop_drop, Edrop. done. }
  rewrite Er, E. unfold neg in *. destruct (sv <? 0) eqn:Hs; mred.
  - destruct dst as [|y dst]; [cbn [length] in Hd; lia|]. destruct L as [|L'] eqn:EL; [lia|].
    replace (S L' - length u)%nat with 1%nat by lia.
    change (1 =? 1) with true. cbn [take]. rewrite take_0. cbn [app].
    pose proof (wr_one [] y 45 (u ++ 0 :: rest) 0 eq_refl) as Hw. cbn [app] in Hw.
    by rewrite Hw.
  - replace (L - length u)%nat with 0%nat by lia. done.
Qed.

(** The text in a buffer that is large enough. *)
Lemma ll2string_text (n : nat) v :
  LLONG_MIN <= v <= LLONG_MAX -> (20 < n)%nat ->
  exists b, ll2string (replicate n 0) (Z.of_nat n) v = Some (Z.of_nat (length (decimal v)), b) /\
    b = decimal v ++ 0 :: drop (length (decimal v) + 1) (replicate n 0) /\
    rd b 0 (Z.of_nat (length (decimal v))) = Some (decimal v).
Proof.
  intros Hv Hn. rewrite ll2string_spec by (rewrite ?length_replicate; lia).
  pose proof (decimal_bounds v Hv). rewrite (proj2 (Z.ltb_lt _ _)) by lia.
  eexists. split; [done|]. split; [done|]. by apply (rd_mid []).
Qed.

(** ** Glob patterns: abstract syntax and meaning *)

Inductive set_item :=
| SChar (c : Z)          (* x *)
| SEsc (c : Z)           (* \x *)
| SRange (a b : Z).      (* a-b *)

Inductive glob_item :=
| GStar | GAny
| GChar (c : Z) | GEsc (c : Z)
| GSet (neg : bool) (items : list set_item).

#[export] Instance set_item_eq_dec : EqDecision set_item.
Proof. solve_decision. Defined.
#[export] Instance glob_item_eq_dec : EqDecision glob_item.
Proof. solve_decision. Defined.

Definition print_set_item (i : set_item) : list Z :=
  match i with SChar c => [c] | SEsc c => [92; c] | SRange a b => [a; 45; b] end.

Definition print_set (items : list set_item) : list Z := mjoin (map print_set_item items).

Definition print_item (i : glob_item) : list Z :=
  match i with
  | GStar => [42] | GAny => [63]
  | GChar c => [c] | GEsc c => [92; c]
  | GSet neg items => 91 :: (if neg then [94] else []) ++ print_set items ++ [93]
  end.

Definition print_glob (g : list glob_item) : list Z := mjoin (map print_item g).

(** A character set is written unambiguously: no unescaped [\] or [ ] ], no
    [x] directly followed by [-], and no leading [^] unless negated. *)
Fixpoint set_ok (items : list set_item) : bool :=
  match items with
  | [] => true
  | i :: rest =>
    (match i with
     | SChar c => negb (c =? 92) && negb (c =? 93) &&
         negb (bool_decide (head (print_set rest) = Some 45))
     | SEsc _ => true
     | SRange a _ => negb (a =? 92) && negb (a =? 93)
     end) && set_ok rest
  end.

Definition item_ok (i : glob_item) : bool :=
  match i with
  | GStar | GAny | GEsc _ => true
  | GChar c => negb (bool_decide (c ∈ [42; 63; 91; 92]))
  | GSet neg items => set_ok items &&
      (neg || negb (bool_decide (head (print_set items) = Some 94)))
  end.

Definition char_eq (nocase : bool) (c x : Z) : bool :=
  if nocase then tolower (s8 c) =? tolower (s8 x) else c =? x.

Definition in_item (nocase : bool) (x : Z) (i : set_item) : bool :=
  match i with
  | SChar c => char_eq nocase c x
  | SEsc c => c =? x
  | SRange a b =>
    let f c := if nocase then tolower c else c in
    (f (Z.min (s8 a) (s8 b)) <=? f (s8 x)) && (f (s8 x) <=? f (Z.max (s8 a) (s8 b)))
  end.

Definition in_set (nocase : bool) (x : Z) (items : list set_item) : bool :=
  existsb (in_item nocase x) items.

(** Whether a one-character item accepts [x]. *)
Definition item_match (nocase : bool) (i : glob_item) (x : Z) : bool :=
  match i with
  | GStar => false
  | GAny => true
  | GChar c | GEsc c => char_eq nocase c x
  | GSet neg items => xorb neg (in_set nocase x items)
  end.

(** The reference matcher. *)
Fixpoint gmatch (nocase : bool) (g : list glob_item) : list Z -> bool :=
  match g with
  | [] => fun s => match s with [] => true | _ => false end
  | GStar :: g =>
    fix star (s : list Z) : bool :=
      gmatch nocase g s || match s with [] => false | _ :: s => star s end
  | i :: g => fun s =>
    match s with [] => false | x :: s => item_match nocase i x && gmatch nocase g s end
  end.

Section glob.
Context (nocase : bool).
Abbreviation gm := (gmatch nocase).

Lemma gmatch_star g s :
  gm (GStar :: g) s = gm g s || match s with [] => false | _ :: s => gm (GStar :: g) s end.
Proof. by destruct s. Qed.

Lemma gmatch_star_star g s : gm (GStar :: GStar :: g) s = gm (GStar :: g) s.
Proof.
  induction s as [|x s IH]; rewrite (gmatch_star (GStar :: g)).
  - apply orb_false_r.
  - rewrite IH, (gmatch_star g (x :: s)). destruct (gm g (x :: s)); [done|].
    cbn [orb]. by destruct (gm (GStar :: g) s).
Qed.

Lemma gmatch_single i g x s :
  i <> GStar -> gm (i :: g) (x :: s) = item_match nocase i x && gm g s.
Proof. by destruct i. Qed.

Lemma gmatch_single_nil i g : i <> GStar -> gm (i :: g) [] = false.
Proof. by destruct i. Qed.

Lemma gmatch_stars k g s :
  gm (replicate (S k) GStar ++ g) s = gm (GStar :: g) s.
Proof.
  induction k as [|k IH]; [done|]. rewrite <-IH.
  cbn [replicate app]. apply gmatch_star_star.
Qed.

Lemma gmatch_all_stars k s : gm (replicate (S k) GStar) s = true.
Proof.
  rewrite <-(app_nil_r (replicate _ _)), gmatch_stars.
  induction s as [|x s IH]; [done|]. by rewrite gmatch_star, IH, orb_true_r.
Qed.

(** A glob is a run of stars followed by a glob that does not start with one. *)
Lemma stars_split g :
  exists k g', g = replicate k GStar ++ g' /\ head g' <> Some GStar.
Proof.
  induction g as [|i g (k & g' & -> & Hg')].
  { by exists 0%nat, []. }
  destruct (decide (i = GStar)) as [->|Hi].
  - by exists (S k), g'.
  - exists 0%nat, (i :: replicate k GStar ++ g'). split; [done|]. cbn. congruence.
Qed.

Lemma in_set_cons x i items :
  in_set nocase x (i :: items) = in_item nocase x i || in_set nocase x items.
Proof. done. Qed.

Lemma print_set_cons i items : print_set (i :: items) = print_set_item i ++ print_set items.
Proof. done. Qed.

Lemma print_glob_cons i g : print_glob (i :: g) = print_item i ++ print_glob g.
Proof. done. Qed.

Lemma print_glob_app g h : print_glob (g ++ h) = print_glob g ++ print_glob h.
Proof. unfold print_glob. by rewrite map_app, join_app. Qed.

(** The ['['] loop computes membership in the set and stops at its [ ] ]. *)
Lemma bracket_loop_spec items fuel pre tl str si x mtch (m : Z) :
  set_ok items = true -> rd1 str si = Some x -> (length items < fuel)%nat -> 0 <= m ->
  bracket_loop fuel (pre ++ print_set items ++ 93 :: tl) str (Z.of_nat (length pre))
    (Z.of_nat (length (print_set items)) + 1 + m) si nocase mtch =
  Some (Z.of_nat (length pre) + Z.of_nat (length (print_set items)), 1 + m,
        mtch || in_set nocase x items).
Proof.
  intros Hok Hx Hfuel Hm. revert fuel pre mtch Hok Hfuel.
  induction items as [|i items IH]; intros fuel pre mtch Hok Hfuel;
    (destruct fuel as [|fuel]; [cbn in Hfuel; lia|]).
  { cbn [bracket_loop]. rewrite rd1_app0. mred.
    rewrite orb_false_r, Z.add_0_r. done. }
  cbn [length] in Hfuel. cbn [set_ok] in Hok. apply andb_true_iff in Hok as [Hi Hok].
  assert (Hnext : forall bs pat m' pi' plen', print_set_item i = bs ->
    pat = pre ++ print_set (i :: items) ++ 93 :: tl ->
    pi' = Z.of_nat (length pre) + Z.of_nat (length bs) ->
    plen' = Z.of_nat (length (print_set items)) + 1 + m ->
    bracket_loop fuel pat str pi' plen' si nocase m' =
    Some (Z.of_nat (length pre) + Z.of_nat (length (print_set (i :: items))), 1 + m,
          m' || in_set nocase x items)).
  { intros bs pat m' pi' plen' Hbs -> -> ->. rewrite print_set_cons, Hbs, <-app_assoc, app_assoc.
    replace (Z.of_nat (length pre) + Z.of_nat (length bs))
      with (Z.of_nat (length (pre ++ bs))) by (rewrite !length_app; lia).
    rewrite IH by (done || lia). rewrite !length_app. do 3 f_equal. lia. }
  rewrite in_set_cons. cbn [bracket_loop].
  rewrite print_set_cons, !length_app. destruct i as [c|c|a b]; cbn [print_set_item length] in *.
  - zbool. rewrite rd1_app0. cbn [app head]. mred.
    destruct (Z.eqb_spec c 92); [done|]. destruct (Z.eqb_spec c 93); [done|].
    destruct (Z.eqb_spec (Z.of_nat (1 + length (print_set items)) + 1 + m) 0); [lia|].
    rewrite !rd1_appp. cbn [app]. change (Pos.to_nat 1) with 1%nat.
    assert (exists c1, (c :: print_set items ++ 93 :: tl) !! 1%nat = Some c1 /\ c1 <> 45)
      as (c1 & -> & Hc1).
    { destruct (print_set items) as [|c1 r]; [by exists 93|].
      exists c1. split; [done|]. intros ->. by rewrite bool_decide_true in *. }
    mred. destruct (Z.eqb_spec c1 45); [done|]. cbn [andb]. rewrite Hx. mred.
    fold (char_eq nocase c x).
    rewrite (Hnext [c]) by (cbn [length]; done || lia).
    cbn [in_item]. rewrite print_set_cons, length_app. cbn [length]. f_equal. f_equal.
    by destruct (char_eq _ _ _), mtch.
  - rewrite rd1_app0. cbn [app head]. mred. change (92 =? 92) with true.
    rewrite !rd1_appp. cbn [app]. change (Pos.to_nat 1) with 1%nat.
    cbn [lookup list_lookup]. mred. rewrite Hx. mred.
    rewrite (Hnext [92; c]) by (cbn [length]; done || lia).
    cbn [in_item]. rewrite print_set_cons, length_app. cbn [length]. do 2 f_equal.
    by destruct (c =? x), mtch.
  - zbool. rewrite rd1_app0. cbn [app head]. mred.
    destruct (Z.eqb_spec a 92); [done|]. destruct (Z.eqb_spec a 93); [done|].
    destruct (Z.eqb_spec (Z.of_nat (3 + length (print_set items)) + 1 + m) 0); [lia|].
    rewrite !rd1_appp. cbn [app]. change (Pos.to_nat 1) with 1%nat.
    change (Pos.to_nat 2) with 2%nat. cbn [lookup list_lookup]. mred. change (45 =? 45) with true.
    destruct (Z.geb_spec (Z.of_nat (3 + length (print_set items)) + 1 + m) 3); [|lia]. cbn [andb]. rewrite Hx. mred.
    assert (Hmm : (if s8 a >? s8 b then (s8 b, s8 a) else (s8 a, s8 b)) =
                  (Z.min (s8 a) (s8 b), Z.max (s8 a) (s8 b))).
    { destruct (Z.gtb_spec (s8 a) (s8 b)); f_equal; lia. }
    rewrite Hmm. cbn [in_item].
    destruct nocase; rewrite (Hnext [a; 45; b]) by (cbn [length]; done || lia);
      rewrite print_set_cons, length_app; cbn [length]; do 2 f_equal; rewrite Z.geb_leb;
      by destruct (_ && _), mtch.
Qed.

Lemma skip_stars_spec fuel pre k tl off pi plen c :
  (k < fuel)%nat -> pi + off = Z.of_nat (length pre) -> head tl = Some c -> c <> 42 ->
  skip_stars fuel (pre ++ replicate k 42 ++ tl) off pi plen =
  Some (pi + Z.of_nat k, plen - Z.of_nat k).
Proof.
  intros Hf Hpi Hc Hne. revert fuel pre pi plen Hf Hpi.
  induction k as [|k IH]; intros fuel pre pi plen Hf Hpi;
    (destruct fuel as [|fuel]; [lia|]); cbn [skip_stars]; rewrite Hpi, rd1_app0.
  - cbn [replicate app]. rewrite Hc. mred. destruct (Z.eqb_spec c 42); [done|].
    f_equal. f_equal; lia.
  - cbn [replicate app head]. mred. change (42 =? 42) with true. cbn iota.
    rewrite (cons_middle 42), app_assoc.
    rewrite IH; [f_equal; f_equal; lia|lia|rewrite length_app; cbn [length]; lia].
Qed.

Lemma print_stars k : print_glob (replicate k GStar) = replicate k 42.
Proof. induction k as [|k IH]; [done|]. cbn. by rewrite <-IH. Qed.

(** What a well-formed glob without leading star prints first. *)
Lemma print_head g :
  Forall (fun i => item_ok i = true) g -> head g <> Some GStar ->
  exists c, head (print_glob g ++ [0]) = Some c /\ c <> 42.
Proof.
  destruct g as [|i g]; [by exists 0|]. intros [Hi _]%Forall_cons Hs.
  rewrite print_glob_cons. destruct i as [| |c|c|neg items]; cbn;
    [done|by exists 63| |by exists 92|by exists 91].
  exists c. split; [done|]. cbn [item_ok] in Hi. zbool.
  rewrite bool_decide_eq_false in Hi. intros ->. apply Hi. set_solver.
Qed.

Lemma length_print_item i : (1 <= length (print_item i))%nat.
Proof. destruct i; cbn; lia. Qed.

Lemma length_print_glob g : (length g <= length (print_glob g))%nat.
Proof.
  induction g as [|i g IH]; [done|]. rewrite print_glob_cons, length_app.
  pose proof (length_print_item i). cbn [length]. lia.
Qed.

(** At the end of the string, only stars may remain. *)
Lemma advance_end self pre g si :
  Forall (fun i => item_ok i = true) g ->
  match_advance self (pre ++ print_glob g ++ [0]) (Z.of_nat (length pre) - 1)
    (Z.of_nat (length (print_glob g)) + 1) si 0 = MMatch (gm g []).
Proof.
  intros Hok. destruct (stars_split g) as (k & g' & -> & Hg').
  apply Forall_app in Hok as [_ Hok]. destruct (print_head g' Hok Hg') as (c & Hc & Hne).
  unfold match_advance. change (0 =? 0) with true. cbn iota.
  rewrite print_glob_app, print_stars, <-app_assoc.
  rewrite (skip_stars_spec _ _ _ _ _ _ _ c); [|rewrite !length_app, length_replicate; lia|lia|done..].
  unfold match_end. change (0 =? 0) with true. rewrite andb_true_r. f_equal.
  rewrite length_app, length_replicate.
  destruct g' as [|i g'].
  - rewrite app_nil_r. cbn [length]. destruct k; [done|]. rewrite gmatch_all_stars.
    apply Z.eqb_eq. cbn [length print_glob map mjoin list_join]. lia.
  - assert (Hi : i <> GStar) by (intros ->; done).
    assert (E : gm (replicate k GStar ++ i :: g') [] = false).
    { destruct k; [by apply gmatch_single_nil|]. rewrite gmatch_stars, gmatch_star.
      by rewrite gmatch_single_nil. }
    rewrite E. apply Z.eqb_neq. pose proof (length_print_glob (i :: g')). cbn [length] in *. lia.
Qed.

Lemma advance_spec self pre g si s :
  Forall (fun i => item_ok i = true) g ->
  (s <> [] -> self (Z.of_nat (length pre)) (Z.of_nat (length (print_glob g))) si
    (Z.of_nat (length s)) = MMatch (gm g s)) ->
  match_advance self (pre ++ print_glob g ++ [0]) (Z.of_nat (length pre) - 1)
    (Z.of_nat (length (print_glob g)) + 1) si (Z.of_nat (length s)) = MMatch (gm g s).
Proof.
  intros Hok Hself. destruct s as [|x s]; [by apply advance_end|].
  unfold match_advance. destruct (Z.eqb_spec (Z.of_nat (length (x :: s))) 0) as [E|_].
  { cbn [length] in E. lia. }
  rewrite <-Hself by done. f_equal; lia.
Qed.

(** The ['['] case: the set decides, and the pattern is left at its [ ] ]. *)
Lemma set_step self pre neg items tl str si slen x (m : Z) :
  item_ok (GSet neg items) = true -> rd1 str si = Some x -> 0 <= m ->
  let pat := pre ++ print_item (GSet neg items) ++ tl in
  let plen := Z.of_nat (length (print_item (GSet neg items))) + m in
  mbindr (rd1 pat (Z.of_nat (length pre) + 1)) (fun c =>
    let not_ := c =? 94 in
    let '(pi, plen) := if not_ then (Z.of_nat (length pre) + 1 + 1, plen - 1 - 1)
                       else (Z.of_nat (length pre) + 1, plen - 1) in
    match bracket_loop (S (length pat)) pat str pi plen si nocase false with
    | None => MFault
    | Some (pi, plen, mtch) =>
      let mtch := if not_ then negb mtch else mtch in
      if negb mtch then MMatch false else match_advance self pat pi plen (si + 1) (slen - 1)
    end) =
  if xorb neg (in_set nocase x items)
  then match_advance self pat (Z.of_nat (length (pre ++ print_item (GSet neg items))) - 1)
         (m + 1) (si + 1) (slen - 1)
  else MMatch false.
Proof.
  intros Hok Hx Hm pat plen. cbn [item_ok] in Hok. apply andb_true_iff in Hok as [Hset Hneg].
  set (open := 91 :: (if neg then [94] else [])).
  assert (Epat : pat = (pre ++ open) ++ print_set items ++ 93 :: tl).
  { unfold pat, open. cbn [print_item]. destruct neg; cbn [app]; rewrite <-!app_assoc; cbn [app]; by rewrite <-?app_assoc. }
  assert (Hlen : length (print_item (GSet neg items)) =
    (length open + length (print_set items) + 1)%nat).
  { unfold open. cbn [print_item length]. rewrite !length_app. cbn [length]. destruct neg; cbn; lia. }
  assert (exists c, rd1 pat (Z.of_nat (length pre) + 1) = Some c /\ (c =? 94) = neg)
    as (c & -> & Hc).
  { unfold pat. rewrite rd1_appp. change (Pos.to_nat 1) with 1%nat. destruct neg.
    - by exists 94.
    - cbn [print_item app]. destruct (print_set items) as [|c l]; [by exists 93|].
      exists c. split; [done|]. cbn in Hneg. apply Z.eqb_neq. intros ->.
      by rewrite bool_decide_true in Hneg. }
  cbn [mbindr]. cbv zeta. rewrite Hc.
  assert ((if neg then (Z.of_nat (length pre) + 1 + 1, plen - 1 - 1)
           else (Z.of_nat (length pre) + 1, plen - 1)) =
    (Z.of_nat (length (pre ++ open)), Z.of_nat (length (print_set items)) + 1 + m)) as ->.
  { rewrite length_app. unfold plen. rewrite Hlen. unfold open.
    destruct neg; cbn [length]; f_equal; lia. }
  rewrite Epat at 2. rewrite bracket_loop_spec with (x := x); [|done..| |done].
  2:{ rewrite Epat, !length_app.
      enough (length items <= length (print_set items))%nat by lia. clear.
      induction items as [|i items IH]; [done|]. rewrite print_set_cons, length_app.
      destruct i; cbn [length print_set_item]; lia. }
  rewrite orb_false_l. replace (if neg then negb (in_set nocase x items) else in_set nocase x items)
    with (xorb neg (in_set nocase x items)) by (by destruct neg).
  destruct (xorb _ _); [|done]. cbn [negb]. f_equal; [|lia].
  rewrite !length_app, Hlen. lia.
Qed.

(** One iteration of the main loop on an item that consumes a character. *)
Lemma step_single fuel pre i g spre x s :
  item_ok i = true -> Forall (fun i => item_ok i = true) g -> i <> GStar ->
  let pat := pre ++ print_glob (i :: g) ++ [0] in
  let str := spre ++ (x :: s) ++ [0] in
  (s <> [] -> stringmatchlen_fuel fuel pat str nocase
    (Z.of_nat (length (pre ++ print_item i))) (Z.of_nat (length (print_glob g)))
    (Z.of_nat (length spre) + 1) (Z.of_nat (length s)) = MMatch (gm g s)) ->
  stringmatchlen_fuel (S fuel) pat str nocase
    (Z.of_nat (length pre)) (Z.of_nat (length (print_glob (i :: g))))
    (Z.of_nat (length spre)) (Z.of_nat (length (x :: s))) = MMatch (gm (i :: g) (x :: s)).
Proof.
  intros Hi Hok Hs pat str IH.
  assert (Epat : pat = (pre ++ print_item i) ++ print_glob g ++ [0]).
  { unfold pat. by rewrite print_glob_cons, <-!app_assoc. }
  assert (Hx : rd1 str (Z.of_nat (length spre)) = Some x) by (unfold str; by rewrite rd1_app0).
  set (self := stringmatchlen_fuel fuel pat str nocase) in *.
  assert (Hadv : forall pi plen, pi = Z.of_nat (length (pre ++ print_item i)) - 1 ->
    plen = Z.of_nat (length (print_glob g)) + 1 ->
    match_advance self pat pi plen (Z.of_nat (length spre) + 1)
      (Z.of_nat (length (x :: s)) - 1) = MMatch (gm g s)).
  { intros pi plen -> ->. rewrite Epat at 1.
    replace (Z.of_nat (length (x :: s)) - 1) with (Z.of_nat (length s)) by (cbn [length]; lia).
    by apply advance_spec. }
  assert (Hlit : forall pi plen c, rd1 pat pi = Some c ->
    pi = Z.of_nat (length (pre ++ print_item i)) - 1 ->
    plen = Z.of_nat (length (print_glob g)) + 1 ->
    match_literal self pat str nocase pi plen (Z.of_nat (length spre)) (Z.of_nat (length (x :: s)))
    = MMatch (char_eq nocase c x && gm g s)).
  { intros pi plen c Hc ??. unfold match_literal. rewrite Hc, Hx. cbn [mbindr].
    fold (char_eq nocase c x). destruct (char_eq nocase c x); [by apply Hadv|done]. }
  rewrite gmatch_single by done. cbn [stringmatchlen_fuel]. fold self.
  rewrite print_glob_cons in *. rewrite length_app in *.
  destruct (Z.eqb_spec (Z.of_nat (length (print_item i) + length (print_glob g))) 0) as [E|_].
  { pose proof (length_print_item i). lia. }
  assert (Hrd : rd1 pat (Z.of_nat (length pre)) = head (print_item i ++ print_glob g ++ [0])).
  { rewrite Epat, <-app_assoc. apply rd1_app0. }
  assert (Hrdp : forall p, rd1 pat (Z.of_nat (length pre) + Zpos p) =
    (print_item i ++ print_glob g ++ [0]) !! Pos.to_nat p).
  { intros p. rewrite Epat, <-app_assoc. apply rd1_appp. }
  rewrite Hrd. destruct i as [| |c|c|neg items]; [done|..]; cbn [print_item app head mbindr item_match].
  - change (63 =? 42) with false. change (63 =? 63) with true. cbn iota.
    destruct (Z.eqb_spec (Z.of_nat (length (x :: s))) 0) as [E|_]; [cbn [length] in E; lia|].
    apply Hadv; cbn [print_item length] in *; lia.
  - cbn [item_ok] in Hi. zbool. rewrite bool_decide_eq_false in Hi.
    repeat match goal with
    | |- context [if c =? ?k then _ else _] =>
      destruct (Z.eqb_spec c k) as [->|_]; [destruct Hi; set_solver|]
    end.
    apply Hlit; cbn [print_item length] in *; [by rewrite Hrd|lia|lia].
  - change (92 =? 42) with false. change (92 =? 63) with false.
    change (92 =? 91) with false. change (92 =? 92) with true. cbn iota.
    cbn [print_item length] in *.
    destruct (Z.geb_spec (Z.of_nat (2 + length (print_glob g))) 2); [|lia].
    apply Hlit; [by rewrite Hrdp|lia|lia].
  - change (91 =? 42) with false. change (91 =? 63) with false.
    change (91 =? 91) with true. cbn iota. rewrite Epat, <-app_assoc.
    rewrite Nat2Z.inj_add. rewrite set_step with (x := x); [|done|done|lia].
    rewrite app_assoc, <-Epat.
    destruct (xorb _ _); [|done]. apply Hadv; rewrite ?length_app; lia.
Qed.

(** The loop over the suffixes of the string in the ['*'] case. *)
Lemma star_loop_spec self g n spre s :
  (length s < n)%nat -> gm g [] = false ->
  (forall t u, s = t ++ u -> u <> [] ->
    self (Z.of_nat (length (spre ++ t))) (Z.of_nat (length u)) = MMatch (gm g u)) ->
  star_loop self n (Z.of_nat (length spre)) (Z.of_nat (length s)) = MMatch (gm (GStar :: g) s).
Proof.
  intros Hn Hnil. revert n spre Hn. induction s as [|x s IH]; intros n spre Hn Hself;
    (destruct n as [|n]; [cbn in Hn; lia|]).
  { cbn [star_loop length]. change (Z.of_nat 0 =? 0) with true. by rewrite gmatch_star, Hnil. }
  cbn [star_loop]. destruct (Z.eqb_spec (Z.of_nat (length (x :: s))) 0) as [E|_].
  { cbn [length] in E. lia. }
  pose proof (Hself [] (x :: s) eq_refl ltac:(done)) as H0. rewrite app_nil_r in H0.
  rewrite H0, gmatch_star. destruct (gm g (x :: s)); [done|]. cbn [orb].
  replace (Z.of_nat (length (x :: s)) - 1) with (Z.of_nat (length s)) by (cbn [length]; lia).
  replace (Z.of_nat (length spre) + 1) with (Z.of_nat (length (spre ++ [x])))
    by (rewrite length_app; cbn [length]; lia).
  apply IH; [cbn [length] in Hn; lia|]. intros t u -> Hu. rewrite <-app_assoc.
  by apply (Hself (x :: t)).
Qed.

Lemma stringmatchlen_fuel_spec n g fuel pre spre s :
  (length g <= n)%nat -> Forall (fun i => item_ok i = true) g -> (n < fuel)%nat -> s <> [] ->
  stringmatchlen_fuel fuel (pre ++ print_glob g ++ [0]) (spre ++ s ++ [0]) nocase
    (Z.of_nat (length pre)) (Z.of_nat (length (print_glob g)))
    (Z.of_nat (length spre)) (Z.of_nat (length s)) = MMatch (gm g s).
Proof.
  revert g fuel pre spre s. induction n as [|n IH]; intros g fuel pre spre s Hg Hok Hf Hs;
    (destruct fuel as [|fuel]; [lia|]).
  { destruct g; [|cbn in Hg; lia]. cbn [stringmatchlen_fuel print_glob map mjoin list_join length].
    destruct s; [done|]. unfold match_end. cbn [length]. done. }
  destruct g as [|i g].
  { cbn [stringmatchlen_fuel print_glob map mjoin list_join length].
    destruct s; [done|]. unfold match_end. cbn [length]. done. }
  cbn [length] in Hg. pose proof Hok as [Hi Hok']%Forall_cons.
  destruct (decide (i = GStar)) as [->|Hne].
  - destruct (stars_split g) as (k & g' & -> & Hg').
    apply Forall_app in Hok' as [_ Hok'].
    destruct (print_head g' Hok' Hg') as (c & Hc & Hne). rewrite length_app, length_replicate in Hg.
    change (GStar :: replicate k GStar ++ g') with (replicate (S k) GStar ++ g').
    rewrite gmatch_stars, print_glob_app, print_stars, length_app, length_replicate.
    cbn [stringmatchlen_fuel].
    destruct (Z.eqb_spec (Z.of_nat (S k + length (print_glob g'))) 0) as [E|_]; [lia|].
    rewrite rd1_app0. cbn [replicate app head mbindr]. change (42 =? 42) with true. cbn iota.
    replace (pre ++ 42 :: (replicate k 42 ++ print_glob g') ++ [0])
      with ((pre ++ [42]) ++ replicate k 42 ++ print_glob g' ++ [0]) by (by rewrite <-!app_assoc).
    rewrite (skip_stars_spec _ _ _ _ _ _ _ c);
      [|rewrite !length_app, length_replicate; lia|rewrite length_app; cbn [length]; lia|done..].
    destruct g' as [|j g'].
    + destruct (Z.eqb_spec (Z.of_nat (S k + length (print_glob [])) - Z.of_nat k) 1) as [_|E].
      * f_equal. symmetry. apply (gmatch_all_stars 0 s).
      * cbn [length print_glob map mjoin list_join] in E. lia.
    + pose proof (length_print_glob (j :: g')) as Hl. cbn [length] in Hl.
      destruct (Z.eqb_spec (Z.of_nat (S k + length (print_glob (j :: g'))) - Z.of_nat k) 1) as [E|_]; [lia|].
      apply star_loop_spec.
      { rewrite !length_app. lia. }
      { apply gmatch_single_nil. intros ->. by apply Hg'. }
      intros t u -> Hu. 
      replace (spre ++ (t ++ u) ++ [0]) with ((spre ++ t) ++ u ++ [0]) by (by rewrite <-!app_assoc).
      rewrite (app_assoc (pre ++ [42]) (replicate k 42)).
      rewrite <-(IH (j :: g') fuel ((pre ++ [42]) ++ replicate k 42) (spre ++ t) u);
        [|lia|done|lia|done].
      f_equal; rewrite ?length_app, ?length_replicate; cbn [length]; lia.
  - destruct s as [|x s]; [done|]. apply step_single; [done..|].
    intros Hs'. rewrite print_glob_cons, <-app_assoc, app_assoc.
    replace (spre ++ (x :: s) ++ [0]) with ((spre ++ [x]) ++ s ++ [0]) by (by rewrite <-!app_assoc).
    rewrite <-(IH g fuel (pre ++ print_item i) (spre ++ [x]) s); [|lia|done|lia|done].
    f_equal. rewrite length_app. cbn [length]. lia.
Qed.
End glob.

(** ** Properties *)

(** [digits10] and [sdigits10] are the lengths of the decimal representations of every
    unsigned, respectively signed, 64-bit integer. *)
Lemma sdigits10_spec v :
  (0 <= v <= ULLONG_MAX -> digits10 v = Some (Z.of_nat (length (udecimal v)))) /\
  (LLONG_MIN <= v <= LLONG_MAX -> sdigits10 v = Some (Z.of_nat (length (decimal v)))).
Proof.
  split; [apply digits10_spec|]. intros Hv. unfold sdigits10, decimal.
  destruct (Z.ltb_spec v 0); [|by apply digits10_spec; lia].
  assert ((if negb (v =? LLONG_MIN) then u64 (- v) else u64 (LLONG_MAX + 1)) = - v) as ->.
  { destruct (Z.eqb_spec v LLONG_MIN) as [->|]; [done|]. cbn [negb].
    apply wrapu_small. pow2. lia. }
  rewrite digits10_spec by lia. mred. cbn [length]. f_equal. lia.
Qed.

(** C37: [ll2string] writes the decimal representation and a terminator at the start of the
    buffer, leaves the other bytes alone and returns the length, which [sdigits10] computes;
    if the text and its terminator do not fit it returns 0 and writes nothing. [string2ll]
    accepts exactly the representations of the 64-bit signed integers (no leading zero, no
    [+], no space, no overflow) and returns the number, so it is the inverse. *)
Theorem ll2string_exact dst dstlen v :
  LLONG_MIN <= v <= LLONG_MAX -> dstlen <= Z.of_nat (length dst) ->
  ll2string dst dstlen v =
    (if Z.of_nat (length (decimal v)) <? dstlen
     then Some (Z.of_nat (length (decimal v)),
                decimal v ++ 0 :: drop (length (decimal v) + 1) dst)
     else Some (0, dst)) /\
  (forall s w, string2ll s = Some w <-> s = decimal w /\ LLONG_MIN <= w <= LLONG_MAX) /\ sdigits10 v = Some (Z.of_nat (length (decimal v))).
Proof.
  intros Hv Hd. split; [by apply ll2string_spec|]. split; [|by apply sdigits10_spec].
  intros s w. split; [apply string2ll_sound|]. intros [-> Hw]. by apply string2ll_complete.
Qed.

Lemma ll2string_exact_witness :
  ll2string (replicate 8 7) 8 (-4096) = Some (5, lit "-4096" ++ [0; 7; 7]) /\
  (forall s w, string2ll s = Some w <-> s = decimal w /\ LLONG_MIN <= w <= LLONG_MAX) /\ sdigits10 (-4096) = Some 5.
Proof. apply (ll2string_exact (replicate 8 7) 8 (-4096)); cbn; lia. Defined.

(** C36: on a well-formed pattern and a non-empty string, [stringmatchlen]
    terminates without reading outside the two NUL-terminated blocks and decides
    the glob language of the pattern. *)
Theorem stringmatchlen_glob nocase g s :
  Forall (fun i => item_ok i = true) g -> s <> [] ->
  stringmatchlen (print_glob g) s nocase = MMatch (gmatch nocase g s).
Proof.
  intros Hok Hs. unfold stringmatchlen.
  apply (stringmatchlen_fuel_spec nocase (length (print_glob g)) g _ [] [] s);
    [apply length_print_glob|done|lia|done].
Qed.

Lemma stringmatchlen_glob_witness :
  stringmatchlen (lit "h[^a-c]*o") (lit "hello") false = MMatch true.
Proof.
  apply (stringmatchlen_glob false
    [GChar 104; GSet true [SRange 97 99]; GStar; GChar 111] (lit "hello")); [|done].
  repeat constructor.
Defined.

(** A class left open after a backslash makes [stringmatchlen] read past the
    terminator of the pattern, whatever the string. *)
Lemma stringmatchlen_open_class s nocase :
  stringmatchlen (lit "[\") s nocase = MFault.
Proof.
  unfold stringmatchlen. change (lit "[\") with [91; 92]. cbn [app length].
  assert (exists x, rd1 (s ++ [0]) 0 = Some x) as [x Hx] by (destruct s; by eexists).
  cbn [stringmatchlen_fuel]. change (rd1 [91; 92; 0] 0) with (Some 91).
  change (rd1 [91; 92; 0] (0 + 1)) with (Some 92).
  change (Z.of_nat 2 =? 0) with false. cbn [mbindr].
  change (91 =? 42) with false. change (91 =? 63) with false. change (91 =? 91) with true.
  change (92 =? 94) with false. cbn iota beta zeta. cbn [length].
  remember 3%nat as n eqn:En. cbn [bracket_loop].
  change (rd1 [91; 92; 0] (0 + 1)) with (Some 92). mred. change (92 =? 92) with true.
  change (rd1 [91; 92; 0] (0 + 1 + 1)) with (Some 0). mred. rewrite Hx. mred.
  subst n. cbn [bracket_loop]. change (rd1 [91; 92; 0] (0 + 1 + 1 + 1)) with (@None Z). done.
Qed.

(** [stringmatchlen] reads out of bounds on two kinds of input. A class left open
    after a backslash makes it read past the terminator of the pattern, whatever the
    string; on the empty string a negated class is matched against the terminator, the
    remaining length becomes negative and a following star scans past the string. *)
Theorem stringmatchlen_oob s nocase :
  stringmatchlen (lit "[\") s nocase = MFault /\ stringmatchlen (lit "[^a]*b") [] false = MFault.
Proof. split; [apply stringmatchlen_open_class|vm_compute; reflexivity]. Qed.
