(* ===== verification/Dict.v ===== *)
(** * dict.c: the chained hash table with incremental rehashing

    The two tables of a [dict] are lists of buckets and a bucket is its chain of
    entries, most recent first. The hash function is a parameter (Redis uses
    SipHash with a random seed); keys are compared with decidable equality, which
    is what [key==he->key || dictCompareKeys(...)] computes for Redis strings.
    [abs d] is the finite map a dictionary represents.

    A [None] result is an access outside a table or a failed [assert]. *)

From stdpp Require Import gmap.
From S2P Require Import Prelude.

Definition DICT_HT_INITIAL_SIZE := 4.
Definition dict_force_resize_ratio := 5.

Section dict.
Context {K V : Type} `{EqDecision K}.

Record dictEntry := DictEntry { de_key : K; de_val : V }.

Record dictht := Dictht {
  ht_table : list (list dictEntry);
  ht_size : Z;
  ht_sizemask : Z;
  ht_used : Z;
}.

Record dict := Dict {
  ht0 : dictht;
  ht1 : dictht;
  rehashidx : Z;
  iterators : Z;
}.

(** [dictEntry *]: the table, the bucket and the position in the chain. *)
Record entry_ref := EntryRef { er_table : bool; er_idx : Z; er_pos : nat }.

Definition bucket (ht : dictht) (i : Z) : option (list dictEntry) :=
  if bool_decide (0 <= i) then ht_table ht !! Z.to_nat i else None.

Definition set_bucket (ht : dictht) (i : Z) (ch : list dictEntry) : option dictht :=
  if bool_decide (0 <= i < Z.of_nat (length (ht_table ht)))
  then Some (Dictht (<[Z.to_nat i := ch]> (ht_table ht)) (ht_size ht) (ht_sizemask ht) (ht_used ht))
  else None.

Definition with_used (ht : dictht) (u : Z) : dictht :=
  Dictht (ht_table ht) (ht_size ht) (ht_sizemask ht) u.

(** [d->ht[table]] *)
Definition get_ht (d : dict) (table : bool) : dictht := if table then ht1 d else ht0 d.
Definition put_ht (d : dict) (table : bool) (ht : dictht) : dict :=
  if table then Dict (ht0 d) ht (rehashidx d) (iterators d)
  else Dict ht (ht1 d) (rehashidx d) (iterators d).

Definition dictIsRehashing (d : dict) : bool := negb (rehashidx d =? -1).
Definition dictSize (d : dict) : Z := ht_used (ht0 d) + ht_used (ht1 d).

Definition dictReset_ : dictht := Dictht [] 0 0 0.

Definition dictCreate : dict := Dict dictReset_ dictReset_ (-1) 0.

(** [_dictNextPower]: doubling from [DICT_HT_INITIAL_SIZE]; 64 doublings are
    enough for any size below [LONG_MAX]. *)
Fixpoint dictNextPower_loop (fuel : nat) (i size : Z) : option Z :=
  match fuel with
  | O => None
  | S fuel => if i >=? size then Some i else dictNextPower_loop fuel (u64 (i * 2)) size
  end.

Definition dictNextPower (size : Z) : option Z :=
  if size >=? LLONG_MAX then Some (u64 (LLONG_MAX + 1))
  else dictNextPower_loop 64 DICT_HT_INITIAL_SIZE size.

(** The returned flag is [DICT_OK]. *)
Definition dictExpand (d : dict) (size : Z) : option (dict * bool) :=
  realsize ← dictNextPower size;
  if dictIsRehashing d || (ht_used (ht0 d) >? size) then Some (d, false) else
  if realsize =? ht_size (ht0 d) then Some (d, false) else
  let n := Dictht (replicate (Z.to_nat realsize) []) realsize (realsize - 1) 0 in
  if ht_size (ht0 d) =? 0 then Some (Dict n (ht1 d) (rehashidx d) (iterators d), true)
  else Some (Dict (ht0 d) n 0 (iterators d), true).

Definition dictResize (can_resize : bool) (d : dict) : option (dict * bool) :=
  if negb can_resize || dictIsRehashing d then Some (d, false) else
  let minimal := s32 (ht_used (ht0 d)) in
  let minimal := if minimal <? DICT_HT_INITIAL_SIZE then DICT_HT_INITIAL_SIZE else minimal in
  dictExpand d minimal.

Context (hash : K -> Z).

(** Moving the chain [de] of the old table to the new one. *)
Fixpoint dictRehash_move (de : list dictEntry) (h0 h1 : dictht) : option (dictht * dictht) :=
  match de with
  | [] => Some (h0, h1)
  | e :: nextde =>
    let h := u32 (Z.land (hash (de_key e)) (ht_sizemask h1)) in
    ch ← bucket h1 h;
    h1 ← set_bucket h1 h (e :: ch);
    dictRehash_move nextde (with_used h0 (ht_used h0 - 1)) (with_used h1 (ht_used h1 + 1))
  end.

(** [while(d->ht[0].table[d->rehashidx] == NULL)]: the new [rehashidx] and the
    remaining [empty_visits], or [inl] when the function returns 1 there. *)
Fixpoint dictRehash_skip (fuel : nat) (h0 : dictht) (idx empty_visits : Z) : option (Z + Z * Z) :=
  match fuel with
  | O => None
  | S fuel =>
    ch ← bucket h0 idx;
    match ch with
    | [] => if empty_visits - 1 =? 0 then Some (inl (idx + 1))
            else dictRehash_skip fuel h0 (idx + 1) (empty_visits - 1)
    | _ => Some (inr (idx, empty_visits))
    end
  end.

(** [while(n-- && d->ht[0].used != 0)]; the flag is the early [return 1]. *)
Fixpoint dictRehash_loop (n : nat) (d : dict) (empty_visits : Z) : option (dict * bool) :=
  match n with
  | O => Some (d, false)
  | S n =>
    if ht_used (ht0 d) =? 0 then Some (d, false) else
    if negb (ht_size (ht0 d) >? rehashidx d) then None (* assert *) else
    r ← dictRehash_skip (S (length (ht_table (ht0 d)))) (ht0 d) (rehashidx d) empty_visits;
    match r with
    | inl idx => Some (Dict (ht0 d) (ht1 d) idx (iterators d), true)
    | inr (idx, empty_visits) =>
      de ← bucket (ht0 d) idx;
      '(h0, h1) ← dictRehash_move de (ht0 d) (ht1 d);
      h0 ← set_bucket h0 idx [];
      dictRehash_loop n (Dict h0 h1 (idx + 1) (iterators d)) empty_visits
    end
  end.

(** The flag is the returned 1: there are still keys to move. *)
Definition dictRehash (d : dict) (n : nat) : option (dict * bool) :=
  let empty_visits := Z.of_nat n * 10 in
  if negb (dictIsRehashing d) then Some (d, false) else
  '(d, early) ← dictRehash_loop n d empty_visits;
  if (early : bool) then Some (d, true) else
  if ht_used (ht0 d) =? 0 then Some (Dict (ht1 d) dictReset_ (-1) (iterators d), false)
  else Some (d, true).

Definition dictRehashStep_ (d : dict) : option dict :=
  if iterators d =? 0 then '(d, _) ← dictRehash d 1; Some d else Some d.

Definition dictExpandIfNeeded_ (can_resize : bool) (d : dict) : option (dict * bool) :=
  if dictIsRehashing d then Some (d, true) else
  if ht_size (ht0 d) =? 0 then dictExpand d DICT_HT_INITIAL_SIZE else
  if (ht_used (ht0 d) >=? ht_size (ht0 d)) &&
     (can_resize || (ht_used (ht0 d) / ht_size (ht0 d) >? dict_force_resize_ratio))
  then dictExpand d (ht_used (ht0 d) * 2)
  else Some (d, true).

(** [while(he)] over a chain: the position of the key. *)
Fixpoint chain_find (key : K) (ch : list dictEntry) : option nat :=
  match ch with
  | [] => None
  | e :: ch => if bool_decide (key = de_key e) then Some O else S <$> chain_find key ch
  end.

(** The search common to [dictFind], [dictGenericDelete] and [_dictKeyIndex]:
    [for (table = 0; table <= 1; table++)] with the [break] when not rehashing.
    The result is the entry found or the last [idx] computed. *)
Definition dict_search (d : dict) (h : Z) (key : K) : option (entry_ref + Z) :=
  let idx := Z.land h (ht_sizemask (ht0 d)) in
  he ← bucket (ht0 d) idx;
  match chain_find key he with
  | Some pos => Some (inl (EntryRef false idx pos))
  | None =>
    if negb (dictIsRehashing d) then Some (inr idx) else
    let idx := Z.land h (ht_sizemask (ht1 d)) in
    he ← bucket (ht1 d) idx;
    match chain_find key he with
    | Some pos => Some (inl (EntryRef true idx pos))
    | None => Some (inr idx)
    end
  end.

(** [inl existing], or [inr index] with [-1] when the table could not grow. *)
Definition dictKeyIndex_ (can_resize : bool) (d : dict) (key : K) (h : Z)
  : option (dict * (option entry_ref * Z)) :=
  '(d, ok) ← dictExpandIfNeeded_ can_resize d;
  if negb ok then Some (d, (None, -1)) else
  r ← dict_search d h key;
  match r with
  | inl ref => Some (d, (Some ref, -1))
  | inr idx => Some (d, (None, s32 idx))
  end.

(** The value field of a new entry is uninitialised: it holds [junk]. The result
    is the returned entry and [*existing]. *)
Definition dictAddRaw (junk : V) (can_resize : bool) (d : dict) (key : K)
  : option (dict * (option entry_ref * option entry_ref)) :=
  d ← (if dictIsRehashing d then dictRehashStep_ d else Some d);
  '(d, (existing, index)) ← dictKeyIndex_ can_resize d key (u32 (hash key));
  if index =? -1 then Some (d, (None, existing)) else
  let table := dictIsRehashing d in
  let ht := get_ht d table in
  ch ← bucket ht index;
  ht ← set_bucket ht index (DictEntry key junk :: ch);
  Some (put_ht d table (with_used ht (ht_used ht + 1)), (Some (EntryRef table index 0), existing)).

Definition dictSetVal (d : dict) (e : entry_ref) (val : V) : option dict :=
  let ht := get_ht d (er_table e) in
  ch ← bucket ht (er_idx e);
  old ← ch !! er_pos e;
  ht ← set_bucket ht (er_idx e) (<[er_pos e := DictEntry (de_key old) val]> ch);
  Some (put_ht d (er_table e) ht).

Definition dictGetVal (d : dict) (e : entry_ref) : option V :=
  ch ← bucket (get_ht d (er_table e)) (er_idx e);
  de_val <$> ch !! er_pos e.

Definition dictAdd (junk : V) (can_resize : bool) (d : dict) (key : K) (val : V)
  : option (dict * bool) :=
  '(d, (entry, _)) ← dictAddRaw junk can_resize d key;
  match entry with
  | None => Some (d, false)
  | Some e => d ← dictSetVal d e val; Some (d, true)
  end.

(** The flag is the returned 1: the key was added from scratch. *)
Definition dictReplace (junk : V) (can_resize : bool) (d : dict) (key : K) (val : V)
  : option (dict * bool) :=
  '(d, (entry, existing)) ← dictAddRaw junk can_resize d key;
  match entry with
  | Some e => d ← dictSetVal d e val; Some (d, true)
  | None => ex ← existing; d ← dictSetVal d ex val; Some (d, false)
  end.

Definition dictAddOrFind (junk : V) (can_resize : bool) (d : dict) (key : K)
  : option (dict * entry_ref) :=
  '(d, (entry, existing)) ← dictAddRaw junk can_resize d key;
  match entry with Some e => Some (d, e) | None => ex ← existing; Some (d, ex) end.

(** The unlinked entry, or [None] when the key is not there. *)
Definition dictGenericDelete (d : dict) (key : K) : option (dict * option dictEntry) :=
  if (ht_used (ht0 d) =? 0) && (ht_used (ht1 d) =? 0) then Some (d, None) else
  d ← (if dictIsRehashing d then dictRehashStep_ d else Some d);
  r ← dict_search d (u32 (hash key)) key;
  match r with
  | inr _ => Some (d, None)
  | inl e =>
    let ht := get_ht d (er_table e) in
    ch ← bucket ht (er_idx e);
    he ← ch !! er_pos e;
    ht ← set_bucket ht (er_idx e) (del_at (er_pos e) ch);
    Some (put_ht d (er_table e) (with_used ht (ht_used ht - 1)), Some he)
  end.

Definition dictDelete (d : dict) (key : K) : option (dict * bool) :=
  '(d, r) ← dictGenericDelete d key;
  Some (d, match r with Some _ => true | None => false end).

Definition dictUnlink (d : dict) (key : K) : option (dict * option dictEntry) :=
  dictGenericDelete d key.

Definition dictFind (d : dict) (key : K) : option (dict * option entry_ref) :=
  if ht_used (ht0 d) + ht_used (ht1 d) =? 0 then Some (d, None) else
  d ← (if dictIsRehashing d then dictRehashStep_ d else Some d);
  r ← dict_search d (u32 (hash key)) key;
  match r with inl e => Some (d, Some e) | inr _ => Some (d, None) end.

Definition dictFetchValue (d : dict) (key : K) : option (dict * option V) :=
  '(d, he) ← dictFind d key;
  match he with
  | None => Some (d, None)
  | Some e => v ← dictGetVal d e; Some (d, Some v)
  end.

(** [_dictClear]: the loop over the buckets; the result is the freed entries and
    the final [used] count. *)
Fixpoint dictClear_loop (buckets : list (list dictEntry)) (used : Z) : list dictEntry * Z :=
  match buckets with
  | [] => ([], used)
  | he :: buckets =>
    if used >? 0 then
      let '(freed, used) := dictClear_loop buckets (used - Z.of_nat (length he)) in
      (he ++ freed, used)
    else ([], used)
  end.

(** The entries freed and the reset table. *)
Definition dictClear_ (ht : dictht) : list dictEntry * dictht :=
  (fst (dictClear_loop (ht_table ht) (ht_used ht)), dictReset_).

Definition dictEmpty (d : dict) : list dictEntry * dict :=
  let '(f0, h0) := dictClear_ (ht0 d) in
  let '(f1, h1) := dictClear_ (ht1 d) in
  (f0 ++ f1, Dict h0 h1 (-1) 0).

End dict.

Arguments dictEntry : clear implicits.
Arguments dictht : clear implicits.
Arguments dict : clear implicits.

(** ** The invariant *)

Section invariant.
Context {K V : Type} `{Countable K} (hash : K -> Z).
Implicit Types (d : dict K V) (h : dictht K V) (e : dictEntry K V) (key : K).

(** Sizes are powers of two up to 2^31, so that a bucket index fits an [int]. *)
Definition mask_ok (size mask : Z) : Prop :=
  size = 0 /\ mask = 0 \/ exists k, 0 <= k <= 31 /\ size = 2 ^ k /\ mask = Z.ones k.

Record ht_wf h : Prop := {
  wf_len : ht_size h = Z.of_nat (length (ht_table h));
  wf_mask : mask_ok (ht_size h) (ht_sizemask h);
  wf_place : forall i ch e, ht_table h !! i = Some ch -> e ∈ ch ->
    Z.land (u32 (hash (de_key e))) (ht_sizemask h) = Z.of_nat i;
}.

Definition ht_entries h : list (dictEntry K V) := mjoin (ht_table h).
Definition entries d : list (dictEntry K V) := ht_entries (ht0 d) ++ ht_entries (ht1 d).

Definition used_ok h : Prop := ht_used h = Z.of_nat (length (ht_entries h)).

Definition rehash_ok d : Prop :=
  if rehashidx d =? -1 then ht1 d = dictReset_
  else 0 <= rehashidx d <= ht_size (ht0 d) /\ 0 < ht_size (ht0 d) /\ 0 < ht_size (ht1 d) /\
       forall i, (Z.of_nat i < rehashidx d) -> ht_table (ht0 d) !! i = Some [].

Record dict_inv d : Prop := {
  inv_wf0 : ht_wf (ht0 d);
  inv_wf1 : ht_wf (ht1 d);
  inv_used0 : used_ok (ht0 d);
  inv_used1 : used_ok (ht1 d);
  inv_nodup : NoDup (de_key <$> entries d);
  inv_rehash : rehash_ok d;
}.

Definition entry_pair e : K * V := (de_key e, de_val e).

(** The map a dictionary represents. *)
Definition abs d : gmap K V := list_to_map (entry_pair <$> entries d).

Lemma fst_entry_pair (l : list (dictEntry K V)) : (entry_pair <$> l).*1 = de_key <$> l.
Proof. by rewrite <-list_fmap_compose. Qed.

Lemma abs_perm d d' :
  entries d' ≡ₚ entries d -> NoDup (de_key <$> entries d) -> abs d' = abs d.
Proof.
  intros Hp Hn. unfold abs. apply list_to_map_proper; [|by rewrite Hp].
  by rewrite fst_entry_pair, Hp.
Qed.

Lemma abs_lookup d key v :
  NoDup (de_key <$> entries d) -> abs d !! key = Some v <-> DictEntry key v ∈ entries d.
Proof.
  intros Hn. unfold abs. rewrite <-elem_of_list_to_map by (by rewrite fst_entry_pair).
  rewrite list_elem_of_fmap. split.
  - intros ([k v'] & [= -> ->] & ?). done.
  - intros. by exists (DictEntry key v).
Qed.

Lemma abs_lookup_None d key : abs d !! key = None <-> key ∉ de_key <$> entries d.
Proof. unfold abs. by rewrite <-not_elem_of_list_to_map, fst_entry_pair. Qed.

Lemma abs_size d : NoDup (de_key <$> entries d) -> size (abs d) = length (entries d).
Proof.
  intros Hn. unfold abs. rewrite map_size_list_to_map by (by rewrite fst_entry_pair).
  by rewrite length_fmap.
Qed.

(** *** Buckets *)

Lemma bucket_Some h i ch :
  bucket h i = Some ch <-> 0 <= i /\ ht_table h !! Z.to_nat i = Some ch.
Proof. unfold bucket. case_bool_decide; split; [done|by intros [??]|done|by intros [??]]. Qed.

Lemma bucket_in_range h i :
  ht_wf h -> 0 <= i < ht_size h -> exists ch, bucket h i = Some ch.
Proof.
  intros Hw Hi. rewrite (wf_len _ Hw) in Hi.
  destruct (lookup_lt_is_Some_2 (ht_table h) (Z.to_nat i)) as [ch Hch]; [lia|].
  exists ch. apply bucket_Some. split; [lia|done].
Qed.

Lemma join_split {A} (t : list (list A)) i ch :
  t !! i = Some ch -> mjoin t ≡ₚ ch ++ mjoin (del_at i t).
Proof.
  intros Hi. rewrite <-(take_drop_middle _ _ _ Hi) at 1. unfold del_at.
  rewrite !join_app. cbn. rewrite !app_assoc. apply Permutation_app_tail, Permutation_app_comm.
Qed.

Lemma join_insert {A} (t : list (list A)) i ch :
  (i < length t)%nat -> mjoin (<[i := ch]> t) ≡ₚ ch ++ mjoin (del_at i t).
Proof.
  intros Hi. rewrite (join_split _ i ch) by (by apply list_lookup_insert_eq).
  apply Permutation_app_head. unfold del_at.
  by rewrite take_insert_ge, drop_insert_lt by lia.
Qed.

(** Replacing the chain of a bucket. *)
Lemma set_bucket_spec h i ch ch' :
  ht_wf h -> bucket h i = Some ch ->
  (forall e, e ∈ ch' -> Z.land (u32 (hash (de_key e))) (ht_sizemask h) = i) ->
  exists h', set_bucket h i ch' = Some h' /\ ht_wf h' /\
    ht_size h' = ht_size h /\ ht_sizemask h' = ht_sizemask h /\ ht_used h' = ht_used h /\
    ht_table h' = <[Z.to_nat i := ch']> (ht_table h) /\
    exists rest, ht_entries h ≡ₚ ch ++ rest /\ ht_entries h' ≡ₚ ch' ++ rest.
Proof.
  intros Hw [Hi Hch]%bucket_Some Hpl. pose proof (lookup_lt_Some _ _ _ Hch) as Hlt.
  unfold set_bucket. rewrite bool_decide_true by lia.
  eexists. split; [done|]. split.
  - destruct Hw as [Hl Hm Hp]. split; cbn; [by rewrite length_insert|done|].
    intros j c e Hj He. destruct (decide (j = Z.to_nat i)) as [->|Hne].
    + rewrite list_lookup_insert_eq in Hj by done. simplify_eq. rewrite Hpl by done. lia.
    + rewrite list_lookup_insert_ne in Hj by done. by eapply Hp.
  - cbn. do 4 (split; [done|]). exists (mjoin (del_at (Z.to_nat i) (ht_table h))).
    split; [by apply join_split|by apply join_insert].
Qed.

Lemma with_used_wf h u : ht_wf h -> ht_wf (with_used h u).
Proof. intros [? ? ?]. by split. Qed.

(** *** Indices *)

Lemma mask_land_range size mask x :
  mask_ok size mask -> 0 < size -> 0 <= Z.land x mask < size /\ size <= 2147483648.
Proof.
  intros [[-> _]|(k & Hk & -> & ->)] Hs; [lia|]. rewrite Z.land_ones by lia. split.
  - apply Z.mod_pos_bound. lia.
  - apply (Z.pow_le_mono_r 2 k 31); lia.
Qed.

Lemma land_u32_mask size mask x :
  mask_ok size mask -> u32 (Z.land x mask) = Z.land (u32 x) mask.
Proof.
  intros [[-> ->]|(k & Hk & -> & ->)]; [by rewrite !Z.land_0_r|].
  rewrite !Z.land_ones by lia. unfold wrapu.
  assert (E : 2 ^ 32 = 2 ^ k * 2 ^ (32 - k)) by (rewrite <-Z.pow_add_r by lia; f_equal; lia).
  rewrite (Z.mod_small (x mod 2 ^ k)).
  - rewrite E. by rewrite Z.rem_mul_r, Z.mul_comm, Z.mod_add, Z.mod_mod by lia.
  - pose proof (Z.mod_pos_bound x (2 ^ k)). pose proof (Z.pow_le_mono_r 2 k 32). lia.
Qed.

(** *** Searching a chain *)

Lemma chain_find_Some key (ch : list (dictEntry K V)) pos :
  chain_find key ch = Some pos -> exists e, ch !! pos = Some e /\ de_key e = key.
Proof.
  revert pos. induction ch as [|e ch IH]; intros pos; [done|]. cbn. case_bool_decide.
  - intros [= <-]. by exists e.
  - destruct (chain_find key ch) as [p|]; [|done]. intros [= <-]. by apply IH.
Qed.

Lemma chain_find_None key (ch : list (dictEntry K V)) :
  chain_find key ch = None -> key ∉ de_key <$> ch.
Proof.
  induction ch as [|e ch IH]; cbn; [intros _ ?%elem_of_nil; done|].
  case_bool_decide; [done|]. destruct (chain_find key ch); [done|].
  intros _ [?|?]%elem_of_cons; [done|]. by apply IH.
Qed.

(** A key of a well-formed table is in the bucket its hash selects. *)
Lemma key_bucket h key ch :
  ht_wf h -> bucket h (Z.land (u32 (hash key)) (ht_sizemask h)) = Some ch ->
  key ∈ de_key <$> ht_entries h -> key ∈ de_key <$> ch.
Proof.
  intros Hw [Hi Hch]%bucket_Some (e & -> & He)%list_elem_of_fmap.
  apply list_elem_of_join in He as (c & He & [j Hj]%list_elem_of_lookup_1).
  pose proof (wf_place _ Hw _ _ _ Hj He) as Hp. rewrite Hp, Nat2Z.id, Hj in Hch.
  simplify_eq. apply list_elem_of_fmap. eauto.
Qed.

(** *** Rehashing *)

Lemma dictRehash_move_spec de (h0 h1 : dictht K V) :
  ht_wf h1 -> 0 < ht_size h1 ->
  exists h1', dictRehash_move hash de h0 h1 =
      Some (with_used h0 (ht_used h0 - Z.of_nat (length de)), h1') /\
    ht_wf h1' /\ ht_size h1' = ht_size h1 /\
    ht_used h1' = ht_used h1 + Z.of_nat (length de) /\
    ht_entries h1' ≡ₚ de ++ ht_entries h1.
Proof.
  revert h0 h1. induction de as [|e de IH]; intros h0 h1 Hw Hs.
  { exists h1. cbn [dictRehash_move length]. split.
    - unfold with_used. rewrite Z.sub_0_r. by destruct h0.
    - do 2 (split; [done|]). split; [lia|done]. }
  cbn [dictRehash_move]. rewrite (land_u32_mask _ _ _ (wf_mask _ Hw)).
  destruct (mask_land_range _ _ (u32 (hash (de_key e))) (wf_mask _ Hw) Hs) as [Hr _].
  destruct (bucket_in_range h1 _ Hw Hr) as [ch Hch]. rewrite Hch. mred.
  destruct (set_bucket_spec h1 _ ch (e :: ch) Hw Hch) as (h2 & -> & Hw2 & Hs2 & Hm2 & Hu2 & _ & rest & E1 & E2).
  { intros e' [->|He']%elem_of_cons; [done|].
    apply bucket_Some in Hch as [_ Hch]. rewrite (wf_place _ Hw _ _ _ Hch He'). lia. }
  mred. destruct (IH (with_used h0 (ht_used h0 - 1)) (with_used h2 (ht_used h2 + 1)))
    as (h1' & -> & Hw' & Hs' & Hu' & Hp'); [by apply with_used_wf|cbn; lia|].
  exists h1'. cbn [length]. split.
  { f_equal. f_equal. unfold with_used. cbn. f_equal. lia. }
  split; [done|]. cbn in Hs', Hu'. split; [lia|]. split; [lia|].
  rewrite Hp'. change (ht_entries (with_used h2 (ht_used h2 + 1))) with (ht_entries h2).
  rewrite E2, E1. cbn [app]. symmetry. apply Permutation_middle.
Qed.

(** Below [idx] all buckets are empty; some bucket from [idx] on is not. *)
Definition swept h (idx : Z) : Prop :=
  forall i, (Z.of_nat i < idx) -> ht_table h !! i = Some [].

Lemma swept_nonempty h idx :
  swept h idx -> ht_entries h <> [] -> 0 <= idx ->
  exists j ch, idx <= j /\ bucket h j = Some ch /\ ch <> [].
Proof.
  intros Hsw Hne Hi. destruct (ht_entries h) as [|e l] eqn:E; [done|].
  assert (e ∈ ht_entries h) as He by (rewrite E; set_solver).
  apply list_elem_of_join in He as (ch & He & [j Hj]%list_elem_of_lookup_1).
  exists (Z.of_nat j), ch. split; [|split].
  - destruct (decide (idx <= Z.of_nat j)); [done|].
    rewrite Hsw in Hj by lia. simplify_eq. by apply elem_of_nil in He.
  - apply bucket_Some. rewrite Nat2Z.id. split; [lia|done].
  - intros ->. by apply elem_of_nil in He.
Qed.

Lemma dictRehash_skip_spec fuel h idx ev :
  ht_wf h -> swept h idx -> ht_entries h <> [] -> 0 <= idx ->
  ht_size h - idx < Z.of_nat fuel ->
  exists r, dictRehash_skip fuel h idx ev = Some r /\
    match r with
    | inl idx' => idx < idx' < ht_size h /\ swept h idx'
    | inr (idx', _) => idx <= idx' < ht_size h /\ swept h idx' /\
        exists e ch, bucket h idx' = Some (e :: ch)
    end.
Proof.
  intros Hw. revert idx ev. induction fuel as [|fuel IH]; intros idx ev Hsw Hne Hi Hf.
  all: destruct (swept_nonempty h idx Hsw Hne Hi) as (j & ch & Hj & Hch & Hchn).
  all: assert (j < ht_size h) by (rewrite (wf_len _ Hw); apply bucket_Some in Hch as [? Hl];
         apply lookup_lt_Some in Hl; lia).
  { lia. }
  cbn [dictRehash_skip].
  destruct (bucket_in_range h idx Hw) as [c Hc]; [lia|]. rewrite Hc. mred.
  destruct c as [|e c].
  2:{ eexists. split; [done|]. cbn. split; [lia|]. eauto. }
  assert (Hsw' : swept h (idx + 1)).
  { intros i Hlt. destruct (decide (Z.of_nat i = idx)) as [<-|]; [|apply Hsw; lia].
    apply bucket_Some in Hc as [_ Hc]. by rewrite Nat2Z.id in Hc. }
  assert (idx <> j) by (intros ->; rewrite Hc in Hch; by simplify_eq).
  destruct (ev - 1 =? 0).
  - eexists. split; [done|]. cbn. split; [lia|done].
  - destruct (IH (idx + 1) (ev - 1) Hsw' Hne) as (r & -> & Hr); [lia..|].
    exists r. split; [done|]. destruct r as [idx'|[idx' ev']].
    + destruct Hr as [? ?]. split; [lia|done].
    + destruct Hr as (? & ? & ?). split; [lia|done].
Qed.

(** A dictionary in the middle of a rehash. *)
Record rehashing d : Prop := {
  rh_wf0 : ht_wf (ht0 d);
  rh_wf1 : ht_wf (ht1 d);
  rh_used0 : used_ok (ht0 d);
  rh_used1 : used_ok (ht1 d);
  rh_idx : 0 <= rehashidx d <= ht_size (ht0 d);
  rh_size0 : 0 < ht_size (ht0 d);
  rh_size1 : 0 < ht_size (ht1 d);
  rh_swept : swept (ht0 d) (rehashidx d);
}.

Lemma used_nonempty h : used_ok h -> ht_used h <> 0 -> ht_entries h <> [].
Proof. unfold used_ok. intros -> ? E. rewrite E in *. done. Qed.

(** Moving the bucket at [idx], the next non-empty one. *)
Lemma dictRehash_bucket_spec d idx e ch :
  rehashing d -> rehashidx d <= idx < ht_size (ht0 d) -> swept (ht0 d) idx ->
  bucket (ht0 d) idx = Some (e :: ch) ->
  exists h0' h1', dictRehash_move hash (e :: ch) (ht0 d) (ht1 d) = Some (h0', h1') /\
    exists h0'', set_bucket h0' idx [] = Some h0'' /\
      let d' := Dict h0'' h1' (idx + 1) (iterators d) in
      rehashing d' /\ entries d' ≡ₚ entries d /\
      ht_size h0'' = ht_size (ht0 d) /\ ht_size h1' = ht_size (ht1 d).
Proof.
  intros Hr Hidx Hsw Hb. destruct Hr as [w0 w1 u0 u1 Hi s0 s1 _].
  destruct (dictRehash_move_spec (e :: ch) (ht0 d) (ht1 d) w1 s1)
    as (h1' & -> & w1' & s1' & u1' & p1').
  do 2 eexists. split; [done|].
  set (h0' := with_used (ht0 d) _).
  destruct (set_bucket_spec h0' idx (e :: ch) []) as (h0'' & Hset & w0'' & s0'' & m0'' & u0'' & t0'' & rest & E1 & E2).
  { by apply with_used_wf. }
  { done. }
  { by intros ? ?%elem_of_nil. }
  exists h0''. split; [done|]. cbn zeta.
  change (ht_entries h0') with (ht_entries (ht0 d)) in E1. cbn in s0''.
  assert (Ep : entries (Dict h0'' h1' (idx + 1) (iterators d)) ≡ₚ entries d).
  { unfold entries. cbn [ht0 ht1]. rewrite E2, p1', E1. cbn [app].
    rewrite <-Permutation_middle. apply Permutation_cons; [done|].
    rewrite !app_assoc. apply Permutation_app_tail, Permutation_app_comm. }
  split; [|by rewrite s0'', s1'].
  split; cbn [ht0 ht1 rehashidx]; try done.
  - unfold used_ok in *. rewrite u0'', E2. cbn [h0' with_used ht_used]. rewrite u0.
    apply Permutation_length in E1. rewrite length_app in E1. cbn [length app] in *. lia.
  - unfold used_ok in *. rewrite u1', u1. rewrite p1', length_app. lia.
  - lia.
  - lia.
  - lia.
  - intros i Hlt. rewrite t0''. destruct (decide (i = Z.to_nat idx)) as [->|].
    + apply list_lookup_insert_eq. apply bucket_Some in Hb as [_ Hb].
      by apply lookup_lt_Some in Hb.
    + rewrite list_lookup_insert_ne by done. apply Hsw. lia.
Qed.

Lemma dictRehash_loop_spec n d ev :
  rehashing d ->
  exists d' early, dictRehash_loop hash n d ev = Some (d', early) /\
    rehashing d' /\ entries d' ≡ₚ entries d /\ iterators d' = iterators d /\
    ht_size (ht0 d') = ht_size (ht0 d) /\ ht_size (ht1 d') = ht_size (ht1 d) /\
    rehashidx d <= rehashidx d' /\
    ((0 < n)%nat -> ht_used (ht0 d') <> 0 -> rehashidx d < rehashidx d') /\
    (early = true -> ht_used (ht0 d') <> 0).
Proof.
  revert d ev. induction n as [|n IH]; intros d ev Hr.
  { exists d, false. do 6 (split; [done|]). split; [lia|]. split; [lia|done]. }
  cbn [dictRehash_loop]. destruct (Z.eqb_spec (ht_used (ht0 d)) 0) as [Hu|Hu].
  { exists d, false. do 6 (split; [done|]). split; [lia|]. split; [done|done]. }
  pose proof (used_nonempty _ (rh_used0 _ Hr) Hu) as Hne.
  pose proof (rh_idx _ Hr) as Hi.
  destruct (dictRehash_skip_spec (S (length (ht_table (ht0 d)))) (ht0 d) (rehashidx d) ev)
    as (r & Hskip & Hres); [apply Hr|apply Hr|done|lia|rewrite (wf_len _ (rh_wf0 _ Hr)); lia|].
  assert (rehashidx d < ht_size (ht0 d)).
  { destruct r as [idx'|[idx' ?]]; [lia|]. destruct Hres as (?&_). lia. }
  destruct (Z.gtb_spec (ht_size (ht0 d)) (rehashidx d)); [|lia]. cbn [negb].
  rewrite Hskip. mred. destruct r as [idx'|[idx' ev']].
  - destruct Hres as [Hlt Hsw]. do 2 eexists. split; [done|]. cbn [ht0 ht1 rehashidx iterators].
    split; [|do 4 (split; [done|]); split; [lia|]; split; [lia|done]].
    destruct Hr. split; cbn [ht0 ht1 rehashidx]; try done. lia.
  - destruct Hres as (Hlt & Hsw & e & ch & Hb). rewrite Hb. mred.
    destruct (dictRehash_bucket_spec d idx' e ch Hr Hlt Hsw Hb)
      as (h0' & h1' & -> & h0'' & Hset & Hr' & Ep & Hs0 & Hs1). mred. rewrite Hset. mred.
    destruct (IH _ ev' Hr') as (d' & early & -> & Hr'' & Ep' & Hit & Hs0' & Hs1' & Hle & _ & Hearly).
    cbn [ht0 ht1 rehashidx iterators] in *.
    exists d', early. split; [done|]. split; [done|]. split; [by rewrite Ep'|].
    split; [done|]. split; [congruence|]. split; [congruence|]. split; [lia|]. split; [lia|done].
Qed.

Lemma inv_rehashing d : dict_inv d -> dictIsRehashing d = true -> rehashing d.
Proof.
  unfold dictIsRehashing. intros [? ? ? ? ? Hr] Hne. unfold rehash_ok in Hr.
  zbool. destruct (Z.eqb_spec (rehashidx d) (-1)); [done|].
  destruct Hr as (?&?&?&?). by split.
Qed.

Lemma rehashing_inv d :
  rehashing d -> NoDup (de_key <$> entries d) -> dict_inv d.
Proof.
  intros [? ? ? ? ? ? ? ?] Hn. split; try done. unfold rehash_ok.
  destruct (Z.eqb_spec (rehashidx d) (-1)); [lia|]. done.
Qed.

Lemma reset_wf : ht_wf (dictReset_ : dictht K V).
Proof. split; cbn; [done|by left|]. intros i ch e Hi. by rewrite lookup_nil in Hi. Qed.

(** [dictRehash] keeps the contents, and makes progress unless it finishes. *)
Lemma dictRehash_spec d n :
  dict_inv d ->
  exists d' more, dictRehash hash d n = Some (d', more) /\ dict_inv d' /\
    entries d' ≡ₚ entries d /\ iterators d' = iterators d /\
    more = dictIsRehashing d' /\
    (dictIsRehashing d = false -> d' = d) /\
    (more = true -> ht_size (ht0 d') = ht_size (ht0 d) /\
       ((0 < n)%nat -> rehashidx d < rehashidx d')).
Proof.
  intros Hinv. unfold dictRehash. destruct (dictIsRehashing d) eqn:Hre; cbn [negb].
  2:{ exists d, false. by rewrite Hre. }
  pose proof (inv_rehashing d Hinv Hre) as Hr.
  destruct (dictRehash_loop_spec n d (Z.of_nat n * 10) Hr)
    as (d1 & early & -> & Hr1 & Ep & Hit & Hs0 & Hs1 & Hle & Hprog & Hearly).
  assert (Hn1 : NoDup (de_key <$> entries d1)) by (rewrite Ep; apply Hinv).
  assert (Hre1 : dictIsRehashing d1 = true).
  { unfold dictIsRehashing. pose proof (rh_idx _ Hr1). destruct (Z.eqb_spec (rehashidx d1) (-1)); [lia|done]. }
  mred. destruct early.
  - exists d1, true. split; [done|]. split; [by apply rehashing_inv|].
    do 2 (split; [done|]). split; [done|]. split; [done|]. intros _.
    split; [done|]. intros. apply Hprog; [done|]. by apply Hearly.
  - destruct (Z.eqb_spec (ht_used (ht0 d1)) 0) as [Hu|Hu].
    + do 2 eexists. split; [done|].
      assert (E0 : ht_entries (ht0 d1) = []).
      { pose proof (rh_used0 _ Hr1) as H0. unfold used_ok in H0. rewrite Hu in H0.
        by destruct (ht_entries (ht0 d1)). }
      assert (Ee : entries (Dict (ht1 d1) dictReset_ (-1) (iterators d1)) = entries d1).
      { unfold entries. cbn [ht0 ht1]. rewrite E0. cbn. by rewrite app_nil_r. }
      split; [|rewrite Ee; by do 4 (split; [done|])].
      split; cbn [ht0 ht1]; try apply Hr1; try done; [apply reset_wf|].
      rewrite Ee. done.
    + exists d1, true. split; [done|]. split; [by apply rehashing_inv|].
      do 4 (split; [done|]). intros _. split; [done|]. intros. by apply Hprog.
Qed.

Lemma dictRehashStep_spec d :
  dict_inv d ->
  exists d', (if dictIsRehashing d then dictRehashStep_ hash d else Some d) = Some d' /\
    dict_inv d' /\ entries d' ≡ₚ entries d.
Proof.
  intros Hinv. destruct (dictIsRehashing d); [|by exists d].
  unfold dictRehashStep_. destruct (iterators d =? 0); [|by exists d].
  destruct (dictRehash_spec d 1 Hinv) as (d' & more & -> & Hinv' & Ep & _). mred. eauto.
Qed.

(** *** Growing *)

Lemma dictNextPower_loop_spec fuel j size :
  2 <= j <= 31 -> size <= 2 ^ 31 -> 31 - j < Z.of_nat fuel ->
  exists k, j <= k <= 31 /\ dictNextPower_loop fuel (2 ^ j) size = Some (2 ^ k) /\ size <= 2 ^ k.
Proof.
  revert j. induction fuel as [|fuel IH]; intros j Hj Hs Hf; [lia|].
  cbn [dictNextPower_loop]. destruct (Z.geb_spec (2 ^ j) size); [exists j; split; [lia|done]|].
  assert (j <> 31) by (intros ->; lia).
  replace (u64 (2 ^ j * 2)) with (2 ^ (j + 1)).
  - destruct (IH (j + 1)) as (k & ? & -> & ?); [lia..|]. exists k. split; [lia|done].
  - rewrite Z.pow_add_r by lia. rewrite wrapu_small; [done|].
    pose proof (Z.pow_le_mono_r 2 j 31). pow2. change (2 ^ 31) with 2147483648 in *. lia.
Qed.

Lemma dictNextPower_spec size :
  size <= 2 ^ 31 -> exists k, 2 <= k <= 31 /\ dictNextPower size = Some (2 ^ k) /\ size <= 2 ^ k.
Proof.
  intros Hs. unfold dictNextPower. change (2 ^ 31) with 2147483648 in Hs.
  destruct (Z.geb_spec size LLONG_MAX); [lia|].
  destruct (dictNextPower_loop_spec 64 2 size) as (k & ? & ? & ?); [lia..|]. eauto.
Qed.

Lemma empty_table_wf k :
  0 <= k <= 31 -> let n := Dictht (replicate (Z.to_nat (2 ^ k)) []) (2 ^ k) (2 ^ k - 1) 0 in
  ht_wf n /\ used_ok n /\ ht_entries n = [].
Proof.
  intros Hk n. assert (E : ht_entries n = []).
  { unfold ht_entries, n. cbn. by induction (Z.to_nat (2 ^ k)). }
  split; [|split; [|done]].
  - split; cbn.
    + rewrite length_replicate. lia.
    + right. exists k. split; [done|]. split; [done|]. by rewrite Z.ones_equiv.
    + intros i ch e [-> _]%lookup_replicate. by intros ?%elem_of_nil.
  - unfold used_ok. rewrite E. done.
Qed.

Lemma size0_empty h : ht_wf h -> ht_size h = 0 -> ht_entries h = [].
Proof. intros [Hl _ _] Hs. unfold ht_entries. by destruct (ht_table h); [|cbn in Hl; lia]. Qed.

Lemma dictExpand_spec d size :
  dict_inv d -> 0 <= size <= 2 ^ 31 ->
  exists d' ok, dictExpand d size = Some (d', ok) /\ dict_inv d' /\ entries d' = entries d /\
    (ok = false -> d' = d) /\ (ok = true -> 0 < ht_size (ht0 d')).
Proof.
  intros Hinv Hs. unfold dictExpand.
  destruct (dictNextPower_spec size) as (k & Hk & -> & Hle); [lia|]. mred.
  destruct (dictIsRehashing d) eqn:Hre; cbn [orb].
  { exists d, false. split; [done|]. split; [done|]. by split. }
  destruct (ht_used (ht0 d) >? size).
  { exists d, false. split; [done|]. split; [done|]. by split. }
  destruct (Z.eqb_spec (2 ^ k) (ht_size (ht0 d))).
  { exists d, false. split; [done|]. split; [done|]. by split. }
  destruct (empty_table_wf k) as (Hw & Hu & He); [lia|].
  set (nt := Dictht (replicate _ _) _ _ _) in *.
  assert (E1 : ht1 d = dictReset_ /\ rehashidx d = -1).
  { unfold dictIsRehashing in Hre. zbool. split; [|done].
    pose proof (inv_rehash _ Hinv) as Hr. unfold rehash_ok in Hr. by rewrite Hre in Hr. }
  destruct E1 as [E1 Ei]. assert (0 < 2 ^ k) by lia.
  destruct (Z.eqb_spec (ht_size (ht0 d)) 0) as [Hz|Hnz]; do 2 eexists; (split; [done|]).
  - assert (Ee : entries (Dict nt (ht1 d) (rehashidx d) (iterators d)) = entries d).
    { unfold entries. cbn [ht0 ht1]. rewrite He, (size0_empty (ht0 d)); [done|apply Hinv|done]. }
    split; [|by split].
    destruct Hinv. split; cbn [ht0 ht1]; try done; [by rewrite Ee|].
    unfold rehash_ok. cbn. by rewrite Ei.
  - assert (Ee : entries (Dict (ht0 d) nt 0 (iterators d)) = entries d).
    { unfold entries. cbn [ht0 ht1]. by rewrite He, E1. }
    assert (0 <= ht_size (ht0 d)) by (rewrite (wf_len _ (inv_wf0 _ Hinv)); lia).
    split; [|split; [done|split; [done|cbn; lia]]].
    destruct Hinv. split; cbn [ht0 ht1]; try done; [by rewrite Ee|].
    unfold rehash_ok. cbn. split; [lia|]. split; [lia|]. split; [done|]. intros. lia.
Qed.

Lemma dictSize_entries d : dict_inv d -> dictSize d = Z.of_nat (length (entries d)).
Proof.
  intros [_ _ u0 u1 _ _]. unfold dictSize, used_ok, entries in *. rewrite u0, u1, length_app. lia.
Qed.

Lemma dictExpandIfNeeded_spec can d :
  dict_inv d -> dictSize d < 2 ^ 30 ->
  exists d', dictExpandIfNeeded_ can d = Some (d', true) /\ dict_inv d' /\
    entries d' = entries d /\ 0 < ht_size (ht0 d').
Proof.
  intros Hinv Hsz. unfold dictExpandIfNeeded_.
  destruct (dictIsRehashing d) eqn:Hre.
  { exists d. split; [done|]. split; [done|]. split; [done|]. apply (inv_rehashing d Hinv Hre). }
  assert (0 <= ht_size (ht0 d)) by (rewrite (wf_len _ (inv_wf0 _ Hinv)); lia).
  assert (0 <= ht_used (ht1 d)) by (rewrite (inv_used1 _ Hinv); lia).
  assert (0 <= ht_used (ht0 d)) by (rewrite (inv_used0 _ Hinv); lia).
  unfold dictSize in Hsz. change (2 ^ 30) with 1073741824 in Hsz.
  assert (Hgrow : forall size, 0 <= size <= 2 ^ 31 -> ht_used (ht0 d) <= size ->
    (forall k, 2 <= k -> size <= 2 ^ k -> 2 ^ k <> ht_size (ht0 d)) ->
    exists d', dictExpand d size = Some (d', true) /\ dict_inv d' /\
      entries d' = entries d /\ 0 < ht_size (ht0 d')).
  { intros size Hs Hus Hneq.
    destruct (dictExpand_spec d size Hinv Hs) as (d' & ok & Hx & Hinv' & Ee & Hno & Hok).
    destruct ok; [exists d'; auto|]. exfalso. revert Hx. unfold dictExpand.
    destruct (dictNextPower_spec size) as (k & Hk & -> & Hle); [lia|]. mred.
    rewrite Hre. destruct (Z.gtb_spec (ht_used (ht0 d)) size); [lia|]. cbn [orb].
    destruct (Z.eqb_spec (2 ^ k) (ht_size (ht0 d))); [intros _; by apply (Hneq k); [lia| |]|].
    by destruct (_ =? 0). }
  destruct (Z.eqb_spec (ht_size (ht0 d)) 0) as [Hz|Hnz].
  { apply Hgrow; unfold DICT_HT_INITIAL_SIZE; [lia| |].
    - rewrite (inv_used0 _ Hinv), (size0_empty (ht0 d)); [cbn; lia|apply Hinv|done].
    - intros k ??. lia. }
  destruct (_ && _) eqn:Hc.
  - apply andb_true_iff in Hc as [Hc _]. apply Hgrow; [lia|lia|]. intros k Hk Hle E. lia.
  - exists d. split; [done|]. split; [done|]. split; [done|lia].
Qed.

(** *** Searching *)

Definition entry_at d (r : entry_ref) : option (dictEntry K V) :=
  ch ← bucket (get_ht d (er_table r)) (er_idx r); ch !! er_pos r.

Lemma dict_search_spec d key :
  dict_inv d -> 0 < ht_size (ht0 d) ->
  exists r, dict_search d (u32 (hash key)) key = Some r /\
    match r with
    | inl ref => exists e, entry_at d ref = Some e /\ de_key e = key /\
        (er_table ref = true -> dictIsRehashing d = true) /\
        er_idx ref = Z.land (u32 (hash key)) (ht_sizemask (get_ht d (er_table ref)))
    | inr idx => (key ∉ de_key <$> entries d) /\
        idx = Z.land (u32 (hash key)) (ht_sizemask (get_ht d (dictIsRehashing d)))
    end.
Proof.
  intros Hinv Hs. unfold dict_search. pose proof (inv_wf0 _ Hinv) as Hw0.
  destruct (mask_land_range _ _ (u32 (hash key)) (wf_mask _ Hw0) Hs) as [Hr _].
  destruct (bucket_in_range _ _ Hw0 Hr) as [ch Hch]. rewrite Hch. mred.
  destruct (chain_find key ch) as [pos|] eqn:Hf.
  { apply chain_find_Some in Hf as (e & He & Hk). eexists. split; [done|].
    exists e. split; [unfold entry_at; cbn; by rewrite Hch|]. done. }
  apply chain_find_None in Hf.
  assert (Hk0 : key ∉ de_key <$> ht_entries (ht0 d)) by (intros ?; by eapply Hf, key_bucket).
  destruct (dictIsRehashing d) eqn:Hre; cbn [negb].
  2:{ eexists. split; [done|]. split; [|done]. unfold entries. rewrite fmap_app, elem_of_app.
      intros [?|Hin]; [done|]. unfold dictIsRehashing in Hre. zbool.
      pose proof (inv_rehash _ Hinv) as Hrr. unfold rehash_ok in Hrr. rewrite Hre in Hrr.
      cbn in Hrr. rewrite Hrr in Hin. by apply elem_of_nil in Hin. }
  pose proof (inv_wf1 _ Hinv) as Hw1. pose proof (rh_size1 _ (inv_rehashing d Hinv Hre)) as Hs1.
  destruct (mask_land_range _ _ (u32 (hash key)) (wf_mask _ Hw1) Hs1) as [Hr1 _].
  destruct (bucket_in_range _ _ Hw1 Hr1) as [ch1 Hch1]. rewrite Hch1. mred.
  destruct (chain_find key ch1) as [pos|] eqn:Hf1; eexists; (split; [done|]).
  - apply chain_find_Some in Hf1 as (e & He & Hk).
    exists e. split; [unfold entry_at; cbn; by rewrite Hch1|]. done.
  - apply chain_find_None in Hf1. split; [|done]. unfold entries. rewrite fmap_app, elem_of_app.
    intros [?|?]; [done|]. by eapply Hf1, key_bucket.
Qed.

(** *** Updating one bucket of a dictionary *)

Lemma update_bucket_spec d t i ch ch' u :
  dict_inv d -> bucket (get_ht d t) i = Some ch ->
  (forall e, e ∈ ch' -> Z.land (u32 (hash (de_key e))) (ht_sizemask (get_ht d t)) = i) ->
  (t = true -> dictIsRehashing d = true) ->
  (t = false -> dictIsRehashing d = true -> ch <> []) ->
  (forall rest, entries d ≡ₚ ch ++ rest -> NoDup (de_key <$> ch' ++ rest)) ->
  u = ht_used (get_ht d t) + Z.of_nat (length ch') - Z.of_nat (length ch) ->
  exists h', set_bucket (get_ht d t) i ch' = Some h' /\
    ht_used h' = ht_used (get_ht d t) /\
    let d' := put_ht d t (with_used h' u) in
    dict_inv d' /\ dictIsRehashing d' = dictIsRehashing d /\
    ht_table (get_ht d' t) = <[Z.to_nat i := ch']> (ht_table (get_ht d t)) /\
    exists rest, entries d ≡ₚ ch ++ rest /\ entries d' ≡ₚ ch' ++ rest.
Proof.
  intros Hinv Hb Hpl Ht1 Ht0 Hnd ->.
  assert (Hw : ht_wf (get_ht d t)) by (destruct t; apply Hinv).
  destruct (set_bucket_spec _ i ch ch' Hw Hb Hpl)
    as (h' & Hset & Hw' & Hs' & Hm' & Hu' & Htab & rest & E1 & E2).
  exists h'. split; [done|]. split; [done|]. cbn zeta.
  set (u := _ - _). set (d' := put_ht d t (with_used h' u)).
  set (other := ht_entries (get_ht d (negb t))).
  assert (Ee : entries d ≡ₚ ch ++ rest ++ other).
  { rewrite app_assoc, <-E1. unfold entries, other. destruct t; [apply Permutation_app_comm|done]. }
  assert (Ee' : entries d' ≡ₚ ch' ++ rest ++ other).
  { rewrite app_assoc, <-E2. unfold entries, other, d'. destruct t; [apply Permutation_app_comm|done]. }
  split; [|split; [by destruct t|split; [by destruct t|eauto]]].
  assert (Hused : used_ok (with_used h' u)).
  { assert (Hold : used_ok (get_ht d t)) by (destruct t; apply Hinv).
    unfold used_ok in *. cbn [with_used ht_used]. unfold u. rewrite Hold.
    change (ht_entries (with_used h' _)) with (ht_entries h').
    apply Permutation_length in E1, E2. rewrite length_app in E1, E2. lia. }
  pose proof (with_used_wf h' u Hw') as Hwu. pose proof (inv_rehash _ Hinv) as Hr.
  destruct t; cbn [d' put_ht get_ht] in *; split; cbn [ht0 ht1]; try apply Hinv; try done.
  - rewrite Ee'. by apply Hnd.
  - unfold rehash_ok in *. cbn [ht0 ht1 rehashidx with_used ht_size]. specialize (Ht1 eq_refl).
    unfold dictIsRehashing in Ht1. zbool. destruct (Z.eqb_spec (rehashidx d) (-1)); [done|].
    by rewrite Hs'.
  - rewrite Ee'. by apply Hnd.
  - unfold rehash_ok in *. cbn [ht0 ht1 rehashidx with_used ht_size ht_table].
    destruct (Z.eqb_spec (rehashidx d) (-1)); [done|]. destruct Hr as (? & ? & ? & Hsw).
    rewrite Hs'. split; [done|]. split; [done|]. split; [done|].
    intros j Hj. rewrite Htab. rewrite list_lookup_insert_ne; [by apply Hsw|].
    intros <-. apply bucket_Some in Hb as [_ Hb]. rewrite Hsw in Hb by done. simplify_eq.
    apply Ht0; [done| |done]. unfold dictIsRehashing. by destruct (Z.eqb_spec (rehashidx d) (-1)).
Qed.

(** *** The operations on the map *)

Lemma abs_insert d d' k v (rest : list (dictEntry K V)) :
  entries d ≡ₚ rest \/ (exists v0, entries d ≡ₚ DictEntry k v0 :: rest) ->
  entries d' ≡ₚ DictEntry k v :: rest -> NoDup (de_key <$> entries d') ->
  abs d' = <[k := v]> (abs d).
Proof.
  intros Hd Hd' Hn. unfold abs.
  assert (Hk : (k ∉ (entry_pair <$> rest).*1) /\ NoDup (entry_pair <$> rest).*1).
  { rewrite fst_entry_pair. rewrite Hd' in Hn. by apply NoDup_cons in Hn. }
  assert (E' : list_to_map (M:=gmap K V) (entry_pair <$> entries d') =
    <[k := v]> (list_to_map (entry_pair <$> rest))).
  { rewrite (list_to_map_proper _ ((k, v) :: (entry_pair <$> rest))); [done| |by rewrite Hd'].
    by rewrite fst_entry_pair. }
  rewrite E'. destruct Hd as [Hd|[v0 Hd]].
  - f_equal. symmetry. apply list_to_map_proper; [|by rewrite Hd].
    rewrite fst_entry_pair, Hd, <-fst_entry_pair. apply Hk.
  - rewrite (list_to_map_proper (entry_pair <$> entries d) ((k, v0) :: (entry_pair <$> rest)));
      [|by rewrite fst_entry_pair, Hd, fmap_cons, <-fst_entry_pair; apply NoDup_cons|by rewrite Hd].
    cbn. by rewrite insert_insert_eq.
Qed.

Lemma abs_delete d d' e (rest : list (dictEntry K V)) :
  entries d ≡ₚ e :: rest -> entries d' ≡ₚ rest -> NoDup (de_key <$> entries d) ->
  abs d' = delete (de_key e) (abs d) /\ abs d !! de_key e = Some (de_val e).
Proof.
  intros Hd Hd' Hn.
  assert (Hn' : NoDup (de_key <$> entries d')).
  { rewrite Hd'. rewrite Hd in Hn. by apply NoDup_cons in Hn as [_ ?]. }
  assert (He : abs d = <[de_key e := de_val e]> (abs d')).
  { apply (abs_insert d' d (de_key e) (de_val e) rest); [by left|rewrite Hd; by destruct e|done]. }
  split; [|rewrite He; apply lookup_insert_eq]. rewrite He.
  rewrite delete_insert_id; [done|]. apply abs_lookup_None. rewrite Hd'.
  rewrite Hd in Hn. by apply NoDup_cons in Hn as [? _].
Qed.

Lemma entry_at_split (ch : list (dictEntry K V)) pos e :
  ch !! pos = Some e -> ch ≡ₚ e :: del_at pos ch.
Proof.
  intros Hp. rewrite <-(take_drop_middle _ _ _ Hp) at 1. symmetry. apply Permutation_middle.
Qed.

Lemma entry_at_abs d ref e :
  dict_inv d -> entry_at d ref = Some e -> abs d !! de_key e = Some (de_val e).
Proof.
  intros Hinv (ch & Hb & Hp)%bind_Some. apply abs_lookup; [apply Hinv|].
  apply bucket_Some in Hb as [_ Hb].
  assert (e ∈ ht_entries (get_ht d (er_table ref))) as He.
  { apply list_elem_of_join. exists ch. split; by eapply list_elem_of_lookup_2. }
  unfold entries. rewrite elem_of_app. destruct e, (er_table ref); cbn in *; auto.
Qed.

(** A non-empty dictionary has a first table. *)
Lemma nonempty_size d : dict_inv d -> entries d <> [] -> 0 < ht_size (ht0 d).
Proof.
  intros Hinv Hne. assert (0 <= ht_size (ht0 d)) by (rewrite (wf_len _ (inv_wf0 _ Hinv)); lia).
  destruct (decide (ht_size (ht0 d) = 0)) as [Hz|]; [|lia]. destruct Hne.
  unfold entries. rewrite (size0_empty _ (inv_wf0 _ Hinv) Hz).
  pose proof (inv_rehash _ Hinv) as Hr. unfold rehash_ok in Hr.
  destruct (_ =? -1); [by rewrite Hr|]. lia.
Qed.

Lemma dictSetVal_spec d ref e v :
  dict_inv d -> entry_at d ref = Some e -> (er_table ref = true -> dictIsRehashing d = true) ->
  exists d', dictSetVal d ref v = Some d' /\ dict_inv d' /\
    abs d' = <[de_key e := v]> (abs d).
Proof.
  intros Hinv (ch & Hb & Hp)%bind_Some Ht. unfold dictSetVal. rewrite Hb. mred. rewrite Hp. mred.
  set (ch' := <[er_pos ref := DictEntry (de_key e) v]> ch).
  assert (Ech : ch ≡ₚ e :: del_at (er_pos ref) ch) by (by apply entry_at_split).
  assert (Ech' : ch' ≡ₚ DictEntry (de_key e) v :: del_at (er_pos ref) ch).
  { pose proof (lookup_lt_Some _ _ _ Hp).
    rewrite (entry_at_split ch' (er_pos ref) (DictEntry (de_key e) v))
      by (by apply list_lookup_insert_eq).
    unfold del_at, ch'. by rewrite take_insert_ge, drop_insert_lt by lia. }
  assert (Hw : ht_wf (get_ht d (er_table ref))) by (destruct (er_table ref); apply Hinv).
  assert (Hpl : forall x, x ∈ ch -> Z.land (u32 (hash (de_key x)))
    (ht_sizemask (get_ht d (er_table ref))) = er_idx ref).
  { intros x Hx. apply bucket_Some in Hb as [? Hb]. rewrite (wf_place _ Hw _ _ _ Hb Hx). lia. }
  assert (Hkeys : de_key <$> ch' ≡ₚ de_key <$> ch) by (rewrite Ech, Ech'; done).
  destruct (update_bucket_spec d (er_table ref) (er_idx ref) ch ch'
    (ht_used (get_ht d (er_table ref)))) as (h' & Hset & Hu & Hinv' & Hre & _ & rest & E1 & E2); try done.
  - intros x Hx. rewrite Ech' in Hx. apply elem_of_cons in Hx as [->|Hx]; cbn [de_key].
    + apply Hpl. rewrite Ech. by left.
    + apply Hpl. rewrite Ech. by right.
  - intros _ _ ->. by rewrite lookup_nil in Hp.
  - intros rest Hrest. rewrite fmap_app, Hkeys, <-fmap_app, <-Hrest. apply Hinv.
  - unfold ch'. rewrite length_insert. lia.
  - rewrite Hset. mred. eexists. split; [done|].
    assert (Eh : with_used h' (ht_used (get_ht d (er_table ref))) = h').
    { rewrite <-Hu. by destruct h'. }
    rewrite Eh in *. split; [done|].
    apply (abs_insert d _ (de_key e) v (del_at (er_pos ref) ch ++ rest)); [|by rewrite E2, Ech'|apply Hinv'].
    right. exists (de_val e). rewrite E1. destruct e. apply (Permutation_app_tail rest Ech).
Qed.

Lemma dictAddRaw_spec junk can d key :
  dict_inv d -> dictSize d < 2 ^ 30 ->
  exists d', dict_inv d' /\
    ((key ∈ dom (abs d) /\ exists ref e, dictAddRaw hash junk can d key = Some (d', (None, Some ref)) /\
        entry_at d' ref = Some e /\ de_key e = key /\
        (er_table ref = true -> dictIsRehashing d' = true) /\ abs d' = abs d) \/
     ((key ∉ dom (abs d)) /\ exists ref, dictAddRaw hash junk can d key = Some (d', (Some ref, None)) /\
        entry_at d' ref = Some (DictEntry key junk) /\
        (er_table ref = true -> dictIsRehashing d' = true) /\ abs d' = <[key := junk]> (abs d))).
Proof.
  intros Hinv Hsz. unfold dictAddRaw, dictKeyIndex_.
  destruct (dictRehashStep_spec d Hinv) as (d1 & -> & Hinv1 & Ep1). mred.
  assert (Hsz1 : dictSize d1 < 2 ^ 30).
  { rewrite dictSize_entries in * by done. by rewrite Ep1. }
  destruct (dictExpandIfNeeded_spec can d1 Hinv1 Hsz1) as (d2 & -> & Hinv2 & Ee & Hs2). mred.
  cbn [negb]. assert (Ea : abs d2 = abs d).
  { apply abs_perm; [by rewrite Ee|apply Hinv]. }
  destruct (dict_search_spec d2 key Hinv2 Hs2) as ([ref|idx] & -> & Hres); mred.
  - destruct Hres as (e & He & Hk & Ht & _). exists d2. split; [done|]. left. split.
    { apply elem_of_dom. rewrite <-Ea, <-Hk. eexists. by eapply entry_at_abs. }
    exists ref, e. done.
  - destruct Hres as [Hnin Hidx]. set (t := dictIsRehashing d2) in *.
    assert (Hw : ht_wf (get_ht d2 t)) by (destruct t; apply Hinv2).
    assert (Hst : 0 < ht_size (get_ht d2 t)).
    { unfold t. destruct (dictIsRehashing d2) eqn:E; [apply (inv_rehashing _ Hinv2 E)|done]. }
    destruct (mask_land_range _ _ (u32 (hash key)) (wf_mask _ Hw) Hst) as [Hr Hmax].
    rewrite <-Hidx in Hr. rewrite wraps_small by (pow2; lia).
    destruct (Z.eqb_spec idx (-1)); [lia|].
    destruct (bucket_in_range _ _ Hw Hr) as [ch Hch]. rewrite Hch. mred.
    assert (Hnd : forall rest, entries d2 ≡ₚ ch ++ rest ->
      NoDup (de_key <$> (DictEntry key junk :: ch) ++ rest)).
    { intros rest Hrest. cbn [app]. rewrite <-Hrest, fmap_cons. apply NoDup_cons.
      split; [done|apply Hinv2]. }
    destruct (update_bucket_spec d2 t idx ch (DictEntry key junk :: ch)
      (ht_used (get_ht d2 t) + 1)) as (h' & -> & Hu & Hinv' & Hre & Htab & rest & E1 & E2); try done.
    { intros x [->|Hx]%elem_of_cons; [done|].
      pose proof Hch as [_ Hch']%bucket_Some. rewrite (wf_place _ Hw _ _ _ Hch' Hx). lia. }
    { unfold t. congruence. }
    { cbn [length]. lia. }
    mred. rewrite Hu. eexists. split; [done|]. right. split.
    { apply not_elem_of_dom. rewrite <-Ea. by apply abs_lookup_None. }
    eexists. split; [done|]. split; [|split].
    + unfold entry_at. cbn [er_table er_idx er_pos].
      assert (Hb : bucket (get_ht (put_ht d2 t (with_used h' (ht_used (get_ht d2 t) + 1))) t) idx
        = Some (DictEntry key junk :: ch)).
      { apply bucket_Some. split; [lia|]. rewrite Htab. apply list_lookup_insert_eq.
        apply bucket_Some in Hch as [_ Hch]. by apply lookup_lt_Some in Hch. }
      by rewrite Hb.
    + cbn [er_table]. rewrite Hre. done.
    + rewrite <-Ea. apply (abs_insert _ _ key junk (ch ++ rest)); [by left|done|apply Hinv'].
Qed.

Lemma dictGenericDelete_spec d key :
  dict_inv d ->
  exists d' r, dictGenericDelete hash d key = Some (d', r) /\ dict_inv d' /\
    abs d' = delete key (abs d) /\ de_val <$> r = abs d !! key.
Proof.
  intros Hinv. unfold dictGenericDelete.
  assert (Hnil : entries d = [] -> abs d = ∅) by (unfold abs; by intros ->).
  destruct (_ && _) eqn:Hz.
  { zbool. exists d, None. assert (abs d = ∅) as E.
    { apply Hnil. pose proof (dictSize_entries d Hinv) as Hs. unfold dictSize in Hs.
      destruct (entries d); [done|]. cbn in Hs. lia. }
    rewrite E. split; [done|]. split; [done|]. by rewrite delete_empty, lookup_empty. }
  assert (Hne : entries d <> []).
  { intros E. apply andb_false_iff in Hz. pose proof (dictSize_entries d Hinv) as Hs.
    rewrite E in Hs. unfold dictSize in Hs. cbn [length] in Hs.
    pose proof (inv_used0 _ Hinv) as Hu0. pose proof (inv_used1 _ Hinv) as Hu1.
    unfold used_ok in *. destruct Hz; zbool; lia. }
  destruct (dictRehashStep_spec d Hinv) as (d1 & -> & Hinv1 & Ep1). mred.
  assert (Ea : abs d1 = abs d) by (apply abs_perm; [done|apply Hinv]).
  assert (Hs1 : 0 < ht_size (ht0 d1)).
  { apply nonempty_size; [done|]. intros E. rewrite E in Ep1.
    by apply Permutation_nil in Ep1. }
  destruct (dict_search_spec d1 key Hinv1 Hs1) as ([ref|idx] & -> & Hres); mred.
  2:{ exists d1, None. split; [done|]. split; [done|]. destruct Hres as [Hk%abs_lookup_None _].
      rewrite <-Ea, Hk. by rewrite delete_id. }
  destruct Hres as (e & He & Hk & Ht & _). pose proof He as (ch & Hb & Hp)%bind_Some.
  rewrite Hb. mred. rewrite Hp. mred.
  assert (Ech : ch ≡ₚ e :: del_at (er_pos ref) ch) by (by apply entry_at_split).
  assert (Hw : ht_wf (get_ht d1 (er_table ref))) by (destruct (er_table ref); apply Hinv1).
  destruct (update_bucket_spec d1 (er_table ref) (er_idx ref) ch (del_at (er_pos ref) ch)
    (ht_used (get_ht d1 (er_table ref)) - 1)) as (h' & -> & Hu & Hinv' & _ & _ & rest & E1 & E2); try done.
  - intros x Hx. pose proof Hb as [? Hb']%bucket_Some.
    assert (Hx' : x ∈ ch) by (rewrite Ech; by right).
    rewrite (wf_place _ Hw _ _ _ Hb' Hx'). lia.
  - intros _ _ ->. by rewrite lookup_nil in Hp.
  - intros rest Hrest. pose proof (inv_nodup _ Hinv1) as Hn. rewrite Hrest in Hn.
    rewrite (Permutation_app_tail rest Ech) in Hn. by apply NoDup_cons in Hn as [_ Hn].
  - apply Permutation_length in Ech. cbn [length] in Ech. lia.
  - mred. rewrite Hu. do 2 eexists. split; [done|]. split; [done|].
    destruct (abs_delete d1 (put_ht d1 (er_table ref) (with_used h' (ht_used (get_ht d1 (er_table ref)) - 1)))
      e (del_at (er_pos ref) ch ++ rest)) as [Hdel Hlk]; [rewrite E1; apply (Permutation_app_tail rest Ech)|done|apply Hinv1|].
    rewrite Hdel, Hk, Ea. split; [done|]. cbn. rewrite <-Ea, <-Hk, Hlk. done.
Qed.

Lemma dictFind_spec d key :
  dict_inv d ->
  exists d' r, dictFind hash d key = Some (d', r) /\ dict_inv d' /\ abs d' = abs d /\
    (r = None <-> abs d !! key = None) /\
    forall ref, r = Some ref -> exists e, entry_at d' ref = Some e /\ de_key e = key.
Proof.
  intros Hinv. unfold dictFind.
  destruct (Z.eqb_spec (ht_used (ht0 d) + ht_used (ht1 d)) 0) as [Hz|Hz].
  { exists d, None. split; [done|]. do 2 (split; [done|]). split; [|done]. split; [|done]. intros _.
    pose proof (dictSize_entries d Hinv) as Hs. unfold dictSize in Hs. rewrite Hz in Hs.
    unfold abs. by destruct (entries d). }
  destruct (dictRehashStep_spec d Hinv) as (d1 & -> & Hinv1 & Ep1). mred.
  assert (Ea : abs d1 = abs d) by (apply abs_perm; [done|apply Hinv]).
  assert (Hs1 : 0 < ht_size (ht0 d1)).
  { apply nonempty_size; [done|]. intros E. rewrite E in Ep1.
    apply Permutation_nil in Ep1. pose proof (dictSize_entries d Hinv) as Hs.
    unfold dictSize in Hs. rewrite Ep1 in Hs. done. }
  destruct (dict_search_spec d1 key Hinv1 Hs1) as ([ref|idx] & -> & Hres); mred.
  - destruct Hres as (e & He & Hk & _). exists d1, (Some ref). split; [done|].
    split; [done|]. split; [done|]. split.
    + split; [done|]. rewrite <-Ea, <-Hk. by rewrite (entry_at_abs d1 ref e).
    + intros ? [= <-]. eauto.
  - exists d1, None. split; [done|]. split; [done|]. split; [done|]. split; [|done].
    split; [|done]. intros _. rewrite <-Ea. destruct Hres as [Hk _]. by apply abs_lookup_None.
Qed.

(** ** The operations against the map *)

Lemma dictAdd_spec junk can d key val :
  dict_inv d -> dictSize d < 2 ^ 30 ->
  exists d', dictAdd hash junk can d key val = Some (d', bool_decide (abs d !! key = None)) /\
    dict_inv d' /\
    abs d' = match abs d !! key with None => <[key := val]> (abs d) | Some _ => abs d end.
Proof.
  intros Hinv Hs. unfold dictAdd.
  destruct (dictAddRaw_spec junk can d key Hinv Hs) as
    (d1 & Hinv1 & [(Hk & ref & e & -> & _ & _ & _ & Ea)|(Hk & ref & -> & He & Ht & Ea)]); mred.
  - apply elem_of_dom in Hk as [v Hv]. rewrite Hv. exists d1. by rewrite bool_decide_false.
  - apply not_elem_of_dom in Hk. rewrite Hk, bool_decide_true by done.
    destruct (dictSetVal_spec d1 ref _ val Hinv1 He Ht) as (d2 & -> & Hinv2 & Ea2). mred.
    exists d2. split; [done|]. split; [done|]. cbn [de_key] in Ea2. by rewrite Ea2, Ea, insert_insert_eq.
Qed.

Lemma dictReplace_spec junk can d key val :
  dict_inv d -> dictSize d < 2 ^ 30 ->
  exists d', dictReplace hash junk can d key val = Some (d', bool_decide (abs d !! key = None)) /\
    dict_inv d' /\ abs d' = <[key := val]> (abs d).
Proof.
  intros Hinv Hs. unfold dictReplace.
  destruct (dictAddRaw_spec junk can d key Hinv Hs) as
    (d1 & Hinv1 & [(Hk & ref & e & -> & He & Hke & Ht & Ea)|(Hk & ref & -> & He & Ht & Ea)]); mred.
  - apply elem_of_dom in Hk as [v Hv]. rewrite bool_decide_false by congruence.
    destruct (dictSetVal_spec d1 ref _ val Hinv1 He Ht) as (d2 & -> & Hinv2 & Ea2). mred.
    exists d2. split; [done|]. split; [done|]. by rewrite Ea2, Ea, Hke.
  - apply not_elem_of_dom in Hk. rewrite bool_decide_true by done.
    destruct (dictSetVal_spec d1 ref _ val Hinv1 He Ht) as (d2 & -> & Hinv2 & Ea2). mred.
    exists d2. split; [done|]. split; [done|]. cbn [de_key] in Ea2. by rewrite Ea2, Ea, insert_insert_eq.
Qed.

Lemma dictFetchValue_spec d key :
  dict_inv d ->
  exists d', dictFetchValue hash d key = Some (d', abs d !! key) /\ dict_inv d' /\ abs d' = abs d.
Proof.
  intros Hinv. unfold dictFetchValue.
  destruct (dictFind_spec d key Hinv) as (d' & [ref|] & -> & Hinv' & Ea & Hn & Href); mred.
  - destruct (Href ref eq_refl) as (e & He & Hk).
    pose proof (entry_at_abs d' ref e Hinv' He) as Hl. rewrite Hk, Ea in Hl.
    unfold entry_at in He. unfold dictGetVal.
    destruct (bucket (get_ht d' (er_table ref)) (er_idx ref)) as [ch|]; [|done]. mred.
    cbn in He. rewrite He. cbn. exists d'. by rewrite Hl.
  - exists d'. destruct Hn as [Hn _]. by rewrite Hn.
Qed.

Lemma dictClear_loop_all (bs : list (list (dictEntry K V))) :
  dictClear_loop bs (Z.of_nat (length (mjoin bs))) = (mjoin bs, 0).
Proof.
  induction bs as [|b bs IH]; [done|].
  change (mjoin (b :: bs)) with (b ++ mjoin bs). cbn [dictClear_loop]. rewrite length_app.
  destruct (Z.gtb_spec (Z.of_nat (length b + length (mjoin bs))) 0) as [|Hz].
  - replace (Z.of_nat (length b + length (mjoin bs)) - Z.of_nat (length b))
      with (Z.of_nat (length (mjoin bs))) by lia. by rewrite IH.
  - destruct b; [|cbn in Hz; lia]. destruct (mjoin bs) eqn:E; [|cbn in Hz; lia]. cbn. done.
Qed.

Lemma empty_inv it : dict_inv (Dict (K := K) (V := V) dictReset_ dictReset_ (-1) it).
Proof. split; [apply reset_wf..|done|done|constructor|done]. Qed.

Lemma dictEmpty_spec d :
  dict_inv d -> exists d', dictEmpty d = (entries d, d') /\ dict_inv d' /\ abs d' = ∅.
Proof.
  intros Hinv. unfold dictEmpty, dictClear_.
  rewrite (inv_used0 _ Hinv), (inv_used1 _ Hinv). unfold ht_entries.
  rewrite !dictClear_loop_all. cbn [fst]. eexists. split; [done|]. split; [apply empty_inv|done].
Qed.

Lemma dictSize_spec d : dict_inv d -> dictSize d = Z.of_nat (size (abs d)).
Proof. intros Hinv. rewrite dictSize_entries, abs_size by (done || apply Hinv). done. Qed.

Lemma dictRehash_abs d n :
  dict_inv d ->
  exists d' more, dictRehash hash d n = Some (d', more) /\ dict_inv d' /\ abs d' = abs d.
Proof.
  intros Hinv. destruct (dictRehash_spec d n Hinv) as (d' & more & -> & Hinv' & Hp & _).
  exists d', more. split; [done|]. split; [done|]. apply abs_perm; [done|apply Hinv].
Qed.

Lemma dictResize_abs can d :
  dict_inv d -> dictSize d <= 2 ^ 30 ->
  exists d' ok, dictResize can d = Some (d', ok) /\ dict_inv d' /\ abs d' = abs d.
Proof.
  intros Hinv Hs. unfold dictResize.
  destruct (negb can || dictIsRehashing d); [by exists d, false|].
  assert (0 <= ht_used (ht0 d) <= 2 ^ 30) as Hu.
  { pose proof (inv_used0 _ Hinv) as H0. pose proof (inv_used1 _ Hinv) as H1.
    unfold used_ok, dictSize in *. lia. }
  rewrite (wraps_small 32) by (change (2 ^ 30) with 1073741824 in *; lia).
  edestruct (dictExpand_spec d (if ht_used (ht0 d) <? DICT_HT_INITIAL_SIZE
    then DICT_HT_INITIAL_SIZE else ht_used (ht0 d)) Hinv) as (d' & ok & -> & Hinv' & E & _).
  - change (2 ^ 31) with (2 * 2 ^ 30). unfold DICT_HT_INITIAL_SIZE.
    destruct (Z.ltb_spec (ht_used (ht0 d)) 4); lia.
  - exists d', ok. split; [done|]. split; [done|]. unfold abs. by rewrite E.
Qed.

(** ** Any sequence of operations *)

Inductive dict_op :=
| OpAdd (key : K) (val : V)
| OpReplace (key : K) (val : V)
| OpDelete (key : K)
| OpUnlink (key : K)
| OpFetch (key : K)
| OpSize
| OpRehash (n : nat)
| OpResize (can_resize : bool)
| OpEmpty.

Inductive dict_reply :=
| ReplyFlag (b : bool)
| ReplyVal (v : option V)
| ReplyInt (n : Z)
| ReplyNone.

Definition dict_exec (junk : V) (can : bool) (d : dict K V) (op : dict_op)
  : option (dict K V * dict_reply) :=
  match op with
  | OpAdd key val => '(d, ok) ← dictAdd hash junk can d key val; Some (d, ReplyFlag ok)
  | OpReplace key val => '(d, ok) ← dictReplace hash junk can d key val; Some (d, ReplyFlag ok)
  | OpDelete key => '(d, ok) ← dictDelete hash d key; Some (d, ReplyFlag ok)
  | OpUnlink key => '(d, e) ← dictUnlink hash d key; Some (d, ReplyVal (de_val <$> e))
  | OpFetch key => '(d, v) ← dictFetchValue hash d key; Some (d, ReplyVal v)
  | OpSize => Some (d, ReplyInt (dictSize d))
  | OpRehash n => '(d, _) ← dictRehash hash d n; Some (d, ReplyNone)
  | OpResize can => '(d, _) ← dictResize can d; Some (d, ReplyNone)
  | OpEmpty => Some (snd (dictEmpty d), ReplyNone)
  end.

Definition map_exec (m : gmap K V) (op : dict_op) : gmap K V * dict_reply :=
  match op with
  | OpAdd key val => (match m !! key with None => <[key := val]> m | Some _ => m end,
                      ReplyFlag (bool_decide (m !! key = None)))
  | OpReplace key val => (<[key := val]> m, ReplyFlag (bool_decide (m !! key = None)))
  | OpDelete key => (delete key m, ReplyFlag (bool_decide (is_Some (m !! key))))
  | OpUnlink key => (delete key m, ReplyVal (m !! key))
  | OpFetch key => (m, ReplyVal (m !! key))
  | OpSize => (m, ReplyInt (Z.of_nat (size m)))
  | OpRehash _ | OpResize _ => (m, ReplyNone)
  | OpEmpty => (∅, ReplyNone)
  end.

Fixpoint dict_run (junk : V) (cans : nat -> bool) (d : dict K V) (ops : list dict_op)
  : option (dict K V * list dict_reply) :=
  match ops with
  | [] => Some (d, [])
  | op :: ops =>
    '(d, r) ← dict_exec junk (cans (length ops)) d op;
    '(d, rs) ← dict_run junk cans d ops; Some (d, r :: rs)
  end.

Fixpoint map_run (m : gmap K V) (ops : list dict_op) : gmap K V * list dict_reply :=
  match ops with
  | [] => (m, [])
  | op :: ops => let '(m, r) := map_exec m op in let '(m, rs) := map_run m ops in (m, r :: rs)
  end.

Lemma dict_exec_spec junk can d op :
  dict_inv d -> dictSize d < 2 ^ 30 ->
  exists d', dict_exec junk can d op = Some (d', snd (map_exec (abs d) op)) /\
    dict_inv d' /\ abs d' = fst (map_exec (abs d) op).
Proof.
  intros Hinv Hs. destruct op as [key val|key val|key|key|key| |n|can'|];
    cbn [dict_exec map_exec fst snd].
  - destruct (dictAdd_spec junk can d key val Hinv Hs) as (d' & -> & ? & ?). mred. eauto.
  - destruct (dictReplace_spec junk can d key val Hinv Hs) as (d' & -> & ? & ?). mred. eauto.
  - unfold dictDelete.
    destruct (dictGenericDelete_spec d key Hinv) as (d' & r & -> & ? & ? & <-). mred.
    exists d'. split; [|done]. do 3 f_equal. by destruct r.
  - unfold dictUnlink.
    destruct (dictGenericDelete_spec d key Hinv) as (d' & r & -> & ? & ? & <-). mred. eauto.
  - destruct (dictFetchValue_spec d key Hinv) as (d' & -> & ? & ?). mred. eauto.
  - rewrite dictSize_spec by done. eauto.
  - destruct (dictRehash_abs d n Hinv) as (d' & more & -> & ? & ?). mred. eauto.
  - destruct (dictResize_abs can' d Hinv) as (d' & ok & -> & ? & ?); [lia|]. mred. eauto.
  - destruct (dictEmpty_spec d Hinv) as (d' & -> & ? & ?). eauto.
Qed.

Lemma map_exec_size m op : (size (fst (map_exec m op)) <= S (size m))%nat.
Proof.
  destruct op as [key val|key val|key|key|key| |n|can'|]; cbn [map_exec fst]; try lia.
  - destruct (m !! key) eqn:E; [lia|]. rewrite map_size_insert_None by done. lia.
  - rewrite map_size_insert. destruct (m !! key); unfold id; lia.
  - rewrite map_size_delete. destruct (m !! key); unfold id; lia.
  - rewrite map_size_delete. destruct (m !! key); unfold id; lia.
  - rewrite map_size_empty. lia.
Qed.

Lemma dict_run_spec junk cans d ops :
  dict_inv d -> dictSize d + Z.of_nat (length ops) <= 2 ^ 30 ->
  exists d', dict_run junk cans d ops = Some (d', snd (map_run (abs d) ops)) /\
    dict_inv d' /\ abs d' = fst (map_run (abs d) ops).
Proof.
  revert d. induction ops as [|op ops IH]; intros d Hinv Hs; [by exists d|].
  cbn [dict_run map_run length] in *.
  destruct (dict_exec_spec junk (cans (length ops)) d op Hinv) as (d1 & -> & Hinv1 & Ea); [lia|]. mred.
  destruct (IH d1 Hinv1) as (d2 & -> & Hinv2 & Ea2).
  { rewrite dictSize_spec, Ea by done. rewrite dictSize_spec in Hs by done.
    pose proof (map_exec_size (abs d) op). lia. }
  mred. exists d2. rewrite Ea in *.
  destruct (map_exec (abs d) op) as [m r]. cbn [fst snd] in *.
  destruct (map_run m ops) as [m' rs]. done.
Qed.

(** C1: starting from [dictCreate], any sequence of fewer than 2^30 operations
    (add, replace, delete, unlink, fetch, size, incremental rehash, resize, empty),
    with resizing enabled or disabled at each step, runs without a fault and gives
    exactly the replies of a finite map; the final state satisfies the invariant
    of the two tables and represents the final map. *)
Theorem dict_refines_map junk cans ops :
  Z.of_nat (length ops) <= 2 ^ 30 ->
  exists d, dict_run junk cans dictCreate ops = Some (d, snd (map_run ∅ ops)) /\
    dict_inv d /\ abs d = fst (map_run ∅ ops).
Proof. intros Hl. apply (dict_run_spec junk cans dictCreate ops); [apply empty_inv|done]. Qed.

(** ** Rehashing makes progress *)

(** [n] successive calls of [dictRehash(d,1)]. *)
Fixpoint dictRehash_repeat (n : nat) d : option (dict K V) :=
  match n with
  | O => Some d
  | S n => '(d, _) ← dictRehash hash d 1; dictRehash_repeat n d
  end.

Lemma dictRehash_idle n d : dictIsRehashing d = false -> dictRehash_repeat n d = Some d.
Proof.
  intros Hr. induction n as [|n IH]; [done|]. cbn [dictRehash_repeat]. unfold dictRehash.
  rewrite Hr. mred. done.
Qed.

Lemma dictRehash_repeat_spec n d :
  dict_inv d -> ht_size (ht0 d) - rehashidx d < Z.of_nat n ->
  exists d', dictRehash_repeat n d = Some d' /\ dict_inv d' /\
    dictIsRehashing d' = false /\ abs d' = abs d.
Proof.
  revert d. induction n as [|n IH]; intros d Hinv Hn.
  - exists d. split; [done|]. split; [done|]. split; [|done].
    destruct (dictIsRehashing d) eqn:Hre; [|done].
    pose proof (inv_rehash _ Hinv) as Hok. unfold rehash_ok, dictIsRehashing in *.
    destruct (rehashidx d =? -1); [done|]. lia.
  - cbn [dictRehash_repeat].
    destruct (dictRehash_spec d 1 Hinv) as (d1 & more & -> & Hinv1 & Hp & _ & Hm & _ & Hadv). mred.
    assert (Ea : abs d1 = abs d) by (apply abs_perm; [done|apply Hinv]).
    destruct more.
    + destruct Hadv as [Hsz Hadv]; [done|]. specialize (Hadv ltac:(lia)).
      destruct (IH d1 Hinv1) as (d' & -> & ? & ? & ?); [lia|]. exists d'. by rewrite <-Ea.
    + exists d1. by rewrite dictRehash_idle.
Qed.

(** C31: incremental rehashing terminates: calling [dictRehash(d,1)] once more than
    the old table has buckets always finishes the rehash (no matter how many empty
    buckets each call may skip), and the dictionary represents the same map. *)
Theorem dictRehash_completes d :
  dict_inv d ->
  exists d', dictRehash_repeat (Z.to_nat (ht_size (ht0 d) + 2)) d = Some d' /\ dict_inv d' /\
    dictIsRehashing d' = false /\ abs d' = abs d.
Proof.
  intros Hinv. apply dictRehash_repeat_spec; [done|].
  pose proof (wf_len _ (inv_wf0 _ Hinv)). pose proof (inv_rehash _ Hinv) as Hok.
  unfold rehash_ok in Hok. destruct (Z.eqb_spec (rehashidx d) (-1)); lia.
Qed.

End invariant.

Arguments dict_op : clear implicits.
Arguments dict_reply : clear implicits.

(** ** Witnesses: integer keys hashed by a multiplication *)

Definition example_hash (k : Z) : Z := k * 2654435761.

Definition example_ops : list (dict_op Z Z) :=
  [OpAdd 1 10; OpAdd 2 20; OpAdd 3 30; OpAdd 4 40; OpAdd 5 50; OpAdd 1 11; OpReplace 2 21;
   OpRehash 1; OpDelete 3; OpUnlink 9; OpFetch 2; OpSize].

Lemma dict_refines_map_witness :
  Z.of_nat (length example_ops) <= 2 ^ 30 /\
  exists d, dict_run example_hash 0 (fun _ => true) dictCreate example_ops =
      Some (d, snd (map_run ∅ example_ops)) /\
    dict_inv example_hash d /\ abs d = fst (map_run ∅ example_ops).
Proof.
  split; [vm_compute; discriminate|].
  apply (dict_refines_map example_hash 0 (fun _ => true) example_ops). vm_compute. discriminate.
Defined.

(** A dictionary in the middle of a rehash. *)
Definition example_rehashing : dict Z Z :=
  match dict_run example_hash 0 (fun _ => true) dictCreate
          [OpAdd 1 10; OpAdd 2 20; OpAdd 3 30; OpAdd 4 40; OpAdd 5 50] with
  | Some (d, _) => d
  | None => dictCreate
  end.

Lemma example_rehashing_inv :
  dict_inv example_hash example_rehashing /\ dictIsRehashing example_rehashing = true.
Proof.
  split; [|vm_compute; reflexivity]. unfold example_rehashing.
  destruct (dict_run_spec example_hash 0 (fun _ => true) dictCreate
    [OpAdd 1 10; OpAdd 2 20; OpAdd 3 30; OpAdd 4 40; OpAdd 5 50]) as (d & -> & Hinv & _);
    [apply empty_inv|vm_compute; discriminate|exact Hinv].
Qed.

Lemma dictRehash_completes_witness :
  dict_inv example_hash example_rehashing /\
  exists d', dictRehash_repeat example_hash (Z.to_nat (ht_size (ht0 example_rehashing) + 2))
      example_rehashing = Some d' /\ dict_inv example_hash d' /\
    dictIsRehashing d' = false /\ abs d' = abs example_rehashing.
Proof.
  split; [apply example_rehashing_inv|].
  apply (dictRehash_completes example_hash example_rehashing), example_rehashing_inv.
Defined.
