(* ===== verification/DictScan.v ===== *)
(** * dict.c: dictScan, the stateless cursor iteration

    The cursor is incremented in reversed bit order so that it stays meaningful
    when the table is resized between calls. [dictScan] is modelled with a [NULL]
    [bucketfn], as [SCAN] calls it; the entries passed to the callback are
    returned in order. *)

From Stdlib Require Import Sorted.
From stdpp Require Import gmap.
From S2P Require Import Prelude Dict.

(** [rev]: the loop halves [s] from 64 down to 1. *)
Fixpoint rev_loop (fuel : nat) (s mask v : Z) : Z :=
  match fuel with
  | O => v
  | S fuel =>
    let s := Z.shiftr s 1 in
    if s >? 0 then
      let mask := Z.lxor mask (u64 (Z.shiftl mask s)) in
      let v := Z.lor (Z.land (Z.shiftr v s) mask)
                     (Z.land (u64 (Z.shiftl v s)) (u64 (Z.lnot mask))) in
      rev_loop fuel s mask v
    else v
  end.

Definition rev (v : Z) : Z := rev_loop 7 (8 * 8) (u64 (-1)) v.

Section scan.
Context {K V : Type}.

(** The [do ... while (v & (m0 ^ m1))] loop over the larger table. *)
Fixpoint scan_expand (fuel : nat) (t1 : dictht K V) (m0 m1 v : Z)
  : option (list (dictEntry K V) * Z) :=
  match fuel with
  | O => None
  | S fuel =>
    de ← bucket t1 (Z.land v m1);
    let v := Z.lor (Z.land (u64 (Z.lor v m0 + 1)) (u64 (Z.lnot m0))) (Z.land v m0) in
    if Z.land v (Z.lxor m0 m1) =? 0 then Some (de, v)
    else '(rest, v) ← scan_expand fuel t1 m0 m1 v; Some (de ++ rest, v)
  end.

(** [v |= ~m0; v = rev(v); v++; v = rev(v);] *)
Definition next_cursor (m0 v : Z) : Z := rev (u64 (rev (u64 (Z.lor v (Z.lnot m0))) + 1)).

Definition dictScan (d : dict K V) (v : Z) : option (list (dictEntry K V) * Z) :=
  if dictSize d =? 0 then Some ([], 0) else
  if negb (dictIsRehashing d) then
    let m0 := ht_sizemask (ht0 d) in
    de ← bucket (ht0 d) (Z.land v m0);
    Some (de, next_cursor m0 v)
  else
    let '(t0, t1) := if ht_size (ht0 d) >? ht_size (ht1 d) then (ht1 d, ht0 d)
                     else (ht0 d, ht1 d) in
    let m0 := ht_sizemask t0 in
    let m1 := ht_sizemask t1 in
    de ← bucket t0 (Z.land v m0);
    '(rest, v) ← scan_expand (S (length (ht_table t1))) t1 m0 m1 v;
    Some (de ++ rest, next_cursor m0 v).

(** A client that keeps calling with the returned cursor; [ds] are the states of
    the dictionary at the successive calls. *)
Fixpoint scan_calls (ds : list (dict K V)) (v : Z) : option (list (dictEntry K V) * Z) :=
  match ds with
  | [] => Some ([], v)
  | d :: ds =>
    '(out, v) ← dictScan d v;
    '(rest, v) ← scan_calls ds v;
    Some (out ++ rest, v)
  end.

End scan.

(** ** Bit reversal *)

Definition rev_swap (s m v : Z) : Z :=
  Z.lor (Z.land (Z.shiftr v s) m) (Z.land (u64 (Z.shiftl v s)) (u64 (Z.lnot m))).

Definition rev_stages : list (Z * Z) :=
  [(32, 0xFFFFFFFF); (16, 0xFFFF0000FFFF); (8, 0xFF00FF00FF00FF);
   (4, 0x0F0F0F0F0F0F0F0F); (2, 0x3333333333333333); (1, 0x5555555555555555)].

Lemma rev_unfold v : rev v = foldl (fun v '(s, m) => rev_swap s m v) v rev_stages.
Proof. reflexivity. Qed.

Lemma u64_testbit x i : 0 <= i < 64 -> Z.testbit (u64 x) i = Z.testbit x i.
Proof. intros. unfold wrapu. by rewrite Z.mod_pow2_bits_low by lia. Qed.

Lemma rev_swap_bit s m v i :
  0 <= i < 64 -> 0 <= s ->
  Z.testbit (rev_swap s m v) i = Z.testbit v (if Z.testbit m i then i + s else i - s).
Proof.
  intros Hi Hs. unfold rev_swap.
  rewrite Z.lor_spec, !Z.land_spec, Z.shiftr_spec, !u64_testbit, Z.shiftl_spec, Z.lnot_spec by lia.
  destruct (Z.testbit m i); cbn [negb]; by rewrite ?andb_true_r, ?andb_false_r, ?orb_false_r.
Qed.

Lemma rev_swap_range s m v : 0 <= v -> 0 <= m < 2 ^ 64 -> 0 <= rev_swap s m v < 2 ^ 64.
Proof.
  intros Hv Hm. unfold rev_swap. apply lor_range; [lia| |].
  - apply land_range; [lia|by apply Z.shiftr_nonneg|done].
  - apply land_range; [lia|apply wrapu_range; lia..].
Qed.

(** Where bit [i] of the result comes from, stage by stage. *)
Definition rev_index (i : Z) : Z :=
  foldr (fun '(s, m) i => if Z.testbit m i then i + s else i - s) i rev_stages.

Lemma stages_bit st v i :
  (forall s m, (s, m) ∈ st -> 0 <= s) ->
  (forall k, 0 <= foldr (fun '(s, m) i => if Z.testbit m i then i + s else i - s) i
     (drop k st) < 64) ->
  Z.testbit (foldl (fun v '(s, m) => rev_swap s m v) v st) i =
  Z.testbit v (foldr (fun '(s, m) i => if Z.testbit m i then i + s else i - s) i st).
Proof.
  revert v. induction st as [|[s m] st IH]; intros v Hs Hr; [done|]. cbn [foldl foldr].
  rewrite IH.
  - rewrite rev_swap_bit; [done|apply (Hr 1%nat)|]. apply (Hs s m). by left.
  - intros s' m' ?. apply (Hs s' m'). by right.
  - intros k. apply (Hr (S k)).
Qed.

Lemma rev_bit v i : 0 <= i < 64 -> Z.testbit (rev v) i = Z.testbit v (63 - i).
Proof.
  intros Hi. rewrite rev_unfold.
  assert (Hall : forallb (fun n => let i := Z.of_nat n in
    (rev_index i =? 63 - i) &&
    forallb (fun k => let j := foldr (fun '(s, m) i => if Z.testbit m i then i + s else i - s) i
       (drop k rev_stages) in (0 <=? j) && (j <? 64)) (seq 0 7)) (seq 0 64) = true)
    by (vm_compute; reflexivity).
  rewrite forallb_forall in Hall. specialize (Hall (Z.to_nat i)).
  rewrite Z2Nat.id in Hall by lia. cbv zeta in Hall.
  rewrite andb_true_iff, Z.eqb_eq, forallb_forall in Hall.
  destruct Hall as [Hidx Hk]; [apply in_seq; lia|].
  rewrite stages_bit.
  - unfold rev_index in Hidx. by rewrite Hidx.
  - intros s m Hin. unfold rev_stages in Hin.
    repeat (apply elem_of_cons in Hin as [[= -> ->]|Hin]; [lia|]). by apply elem_of_nil in Hin.
  - intros k. destruct (decide (k < 7)%nat) as [|Hge].
    + specialize (Hk k). rewrite in_seq in Hk. specialize (Hk ltac:(lia)).
      apply andb_true_iff in Hk as [?%Z.leb_le ?%Z.ltb_lt]. done.
    + rewrite drop_ge by (cbn; lia). done.
Qed.

Lemma stages_range st v :
  Forall (fun '(s, m) => 0 <= m < 2 ^ 64) st -> 0 <= v ->
  let r := foldl (fun v '(s, m) => rev_swap s m v) v st in 0 <= r /\ (st <> [] -> r < 2 ^ 64).
Proof.
  intros Hst. revert v. induction Hst as [|[s m] st Hm Hst IH]; intros v Hv; [done|].
  cbn [foldl]. destruct (rev_swap_range s m v Hv Hm) as [H0 H1].
  destruct (IH _ H0) as [Hr0 Hr1]. split; [done|]. intros _.
  destruct st as [|x st]; [done|]. by apply Hr1.
Qed.

Lemma rev_range v : 0 <= v -> 0 <= rev v < 2 ^ 64.
Proof.
  intros Hv. rewrite rev_unfold. destruct (stages_range rev_stages v) as [H0 H1]; [|done|].
  - unfold rev_stages. repeat constructor; lia.
  - split; [done|by apply H1].
Qed.

Lemma bits_eq64 a b :
  0 <= a < 2 ^ 64 -> 0 <= b < 2 ^ 64 ->
  (forall i, 0 <= i < 64 -> Z.testbit a i = Z.testbit b i) -> a = b.
Proof.
  intros Ha Hb H. apply Z.bits_inj'. intros i Hi.
  destruct (decide (i < 64)); [apply H; lia|].
  rewrite <-(Z.mod_small a (2 ^ 64)), <-(Z.mod_small b (2 ^ 64)) by done.
  by rewrite !Z.mod_pow2_bits_high by lia.
Qed.

Lemma rev_involutive v : 0 <= v < 2 ^ 64 -> rev (rev v) = v.
Proof.
  intros Hv. apply bits_eq64; [apply rev_range, rev_range; lia|done|].
  intros i Hi. rewrite !rev_bit by lia. f_equal. lia.
Qed.

(** ** The cursor in reversed order

    [b] is the number of bits of the mask; a step with that mask moves the
    reversed cursor to the next multiple of 2^(64-b). *)

Lemma u64_range x : 0 <= u64 x < 2 ^ 64.
Proof. apply wrapu_range. lia. Qed.

Lemma rev_set_high b v :
  0 <= b <= 64 -> 0 <= v < 2 ^ 64 ->
  rev (u64 (Z.lor v (Z.lnot (Z.ones b)))) + 1 = (rev v / 2 ^ (64 - b) + 1) * 2 ^ (64 - b).
Proof.
  intros Hb Hv. set (n := 64 - b).
  assert (Hr := rev_range v ltac:(lia)).
  assert (E : rev (u64 (Z.lor v (Z.lnot (Z.ones b)))) =
    Z.lor (Z.shiftl (Z.shiftr (rev v) n) n) (Z.ones n)).
  { apply bits_eq64.
    - apply rev_range. apply u64_range.
    - assert (Hs : Z.shiftl (Z.shiftr (rev v) n) n = rev v / 2 ^ n * 2 ^ n).
      { by rewrite Z.shiftl_mul_pow2, Z.shiftr_div_pow2 by (unfold n; lia). }
      apply lor_range; [lia| |].
      + rewrite Hs. assert (0 < 2 ^ n) by (unfold n; lia). pose proof (Z.div_pos (rev v) (2 ^ n)); pose proof (Z.mul_div_le (rev v) (2 ^ n)); nia.
      + rewrite Z.ones_equiv. pose proof (Z.pow_le_mono_r 2 n 64). unfold n in *. lia.
    - intros i Hi. rewrite rev_bit, u64_testbit, !Z.lor_spec, Z.lnot_spec, Z.shiftl_spec by lia.
      destruct (decide (i < n)).
      + rewrite Z.ones_spec_high, (Z.ones_spec_low n) by (unfold n in *; lia).
        by rewrite !orb_true_r.
      + rewrite Z.ones_spec_low, (Z.ones_spec_high n) by (unfold n in *; lia).
        rewrite !orb_false_r, Z.shiftr_spec by lia. rewrite Z.sub_add, rev_bit by lia. done. }
  rewrite E, Z.shiftl_mul_pow2, Z.shiftr_div_pow2 by (unfold n; lia).
  assert (El : Z.land (rev v / 2 ^ n * 2 ^ n) (Z.ones n) = 0).
  { rewrite Z.land_ones by (unfold n; lia). apply Z.mod_mul. unfold n. lia. }
  pose proof (Z.add_lor_land (rev v / 2 ^ n * 2 ^ n) (Z.ones n)) as Ha. rewrite El in Ha.
  rewrite Z.ones_equiv in *. lia.
Qed.

Lemma next_cursor_rev b v :
  0 <= b <= 64 -> 0 <= v < 2 ^ 64 ->
  rev (next_cursor (Z.ones b) v) = u64 ((rev v / 2 ^ (64 - b) + 1) * 2 ^ (64 - b)).
Proof.
  intros Hb Hv. unfold next_cursor. rewrite rev_involutive by apply u64_range.
  by rewrite rev_set_high.
Qed.

Lemma next_cursor_range m v : 0 <= next_cursor m v < 2 ^ 64.
Proof. unfold next_cursor. apply rev_range, u64_range. Qed.

(** The returned cursor only has bits of the mask. *)
Lemma next_cursor_small b v :
  0 <= b <= 64 -> 0 <= v < 2 ^ 64 -> next_cursor (Z.ones b) v < 2 ^ b.
Proof.
  intros Hb Hv. pose proof (next_cursor_range (Z.ones b) v) as Hr.
  assert (E : next_cursor (Z.ones b) v = next_cursor (Z.ones b) v mod 2 ^ b).
  { rewrite <-Z.land_ones by lia. apply bits_eq64; [done| |].
    - rewrite Z.land_comm. apply land_range; [lia| |lia]. rewrite Z.ones_equiv. lia.
    - intros i Hi. rewrite Z.land_spec. destruct (decide (i < b)).
      + by rewrite Z.ones_spec_low, andb_true_r by lia.
      + rewrite Z.ones_spec_high, andb_false_r by lia.
        rewrite <-(rev_involutive (next_cursor _ _)), rev_bit by lia.
        rewrite next_cursor_rev, u64_testbit by lia.
        rewrite <-Z.shiftl_mul_pow2 by lia. apply Z.shiftl_spec_low. lia. }
  rewrite E. apply Z.mod_pos_bound. lia.
Qed.

Lemma rev_prefix b x v :
  0 <= b <= 64 -> rev x / 2 ^ (64 - b) = rev v / 2 ^ (64 - b) ->
  Z.land x (Z.ones b) = Z.land v (Z.ones b).
Proof.
  intros Hb E. apply Z.bits_inj'. intros i Hi. rewrite !Z.land_spec.
  destruct (decide (i < b)); [|by rewrite !Z.ones_spec_high, !andb_false_r by lia].
  f_equal. replace i with (63 - (63 - i)) by lia. rewrite <-(rev_bit x), <-(rev_bit v) by lia.
  apply (f_equal (fun z => Z.testbit z (63 - i - (64 - b)))) in E.
  rewrite <-!Z.shiftr_div_pow2, !Z.shiftr_spec, !Z.sub_add in E by lia. done.
Qed.

(** ** One call of dictScan *)

Section scan_spec.
Context {K V : Type} `{Countable K} (hash : K -> Z).
Implicit Types (d : dict K V) (t : dictht K V).

(** The mask of the smaller table, the one the cursor walks. *)
Definition scan_table d : dictht K V :=
  if dictIsRehashing d && negb (ht_size (ht0 d) <=? ht_size (ht1 d)) then ht1 d else ht0 d.

Lemma expand_step b lo i :
  0 <= b <= 31 -> 0 <= lo < 2 ^ b -> 0 <= i < 2 ^ 31 ->
  Z.lor (Z.land (u64 (Z.lor (lo + i * 2 ^ b) (Z.ones b) + 1)) (u64 (Z.lnot (Z.ones b))))
    (Z.land (lo + i * 2 ^ b) (Z.ones b)) = lo + (i + 1) * 2 ^ b.
Proof.
  intros Hb Hlo Hi. assert (0 < 2 ^ b) by lia.
  assert (Hp : 2 ^ b <= 2 ^ 31) by (apply Z.pow_le_mono_r; lia).
  assert (Hlow : Z.land (lo + i * 2 ^ b) (Z.ones b) = lo).
  { rewrite Z.land_ones, Z.mod_add, Z.mod_small by lia. done. }
  assert (Hor : Z.lor (lo + i * 2 ^ b) (Z.ones b) + 1 = (i + 1) * 2 ^ b).
  { pose proof (Z.add_lor_land (lo + i * 2 ^ b) (Z.ones b)) as Ha. rewrite Hlow in Ha.
    rewrite Z.ones_equiv in *. lia. }
  rewrite Hlow, Hor. set (x := (i + 1) * 2 ^ b).
  assert (Hx : 0 <= x < 2 ^ 64).
  { unfold x. change (2 ^ 64) with (2 ^ 33 * 2 ^ 31). change (2 ^ 33) with 8589934592.
    change (2 ^ 31) with 2147483648 in *. nia. }
  rewrite (wrapu_small 64 x) by done.
  assert (Hhi : Z.land x (u64 (Z.lnot (Z.ones b))) = x).
  { apply bits_eq64; [apply land_range; [lia..|apply u64_range]|done|].
    intros j Hj. rewrite Z.land_spec, u64_testbit, Z.lnot_spec by lia.
    destruct (decide (j < b)).
    - unfold x. rewrite <-Z.shiftl_mul_pow2, Z.shiftl_spec_low by lia. done.
    - rewrite Z.ones_spec_high by lia. by rewrite andb_true_r. }
  rewrite Hhi. assert (Hdis : Z.land x lo = 0).
  { apply Z.bits_inj'. intros j Hj. rewrite Z.land_spec, Z.bits_0.
    destruct (decide (j < b)).
    - unfold x. rewrite <-Z.shiftl_mul_pow2, Z.shiftl_spec_low by lia. done.
    - rewrite <-(Z.mod_small lo (2 ^ b)) by lia. by rewrite Z.mod_pow2_bits_high, andb_false_r by lia. }
  pose proof (Z.add_lor_land x lo) as Ha. rewrite Hdis in Ha. lia.
Qed.

(** The loop continues until the bits between the masks are zero again. *)
Lemma expand_more b c lo i :
  0 <= b <= c -> 0 <= lo < 2 ^ b -> 0 <= i ->
  Z.land (lo + i * 2 ^ b) (Z.lxor (Z.ones b) (Z.ones c)) = 0 <-> i mod 2 ^ (c - b) = 0.
Proof.
  intros Hb Hlo Hi.
  assert (E : Z.land (lo + i * 2 ^ b) (Z.lxor (Z.ones b) (Z.ones c)) =
    Z.shiftl (i mod 2 ^ (c - b)) b).
  { apply Z.bits_inj'. intros j Hj. rewrite Z.land_spec, Z.lxor_spec, Z.shiftl_spec by lia.
    destruct (decide (j < b)).
    - rewrite !Z.ones_spec_low, (Z.testbit_neg_r _ (j - b)) by lia. by rewrite andb_false_r.
    - rewrite (Z.ones_spec_high b) by lia. cbn [xorb].
      destruct (decide (j < c)).
      + rewrite Z.ones_spec_low, andb_true_r, Z.mod_pow2_bits_low by lia.
        replace (lo + i * 2 ^ b) with (i * 2 ^ b + lo) by lia.
        replace i with ((i * 2 ^ b + lo) / 2 ^ b) at 2.
        2:{ rewrite Z.add_comm, Z.div_add, Z.div_small by lia. lia. }
        rewrite <-Z.shiftr_div_pow2, Z.shiftr_spec by lia. f_equal. lia.
      + by rewrite Z.ones_spec_high, andb_false_r, Z.mod_pow2_bits_high by lia. }
  rewrite E, Z.shiftl_mul_pow2 by lia. assert (0 < 2 ^ b) by lia. nia.
Qed.

Lemma scan_expand_spec fuel t b c lo i :
  ht_wf hash t -> ht_size t = 2 ^ c -> ht_sizemask t = Z.ones c -> 0 <= b <= c -> c <= 31 ->
  0 <= lo < 2 ^ b -> 0 <= i < 2 ^ (c - b) -> 2 ^ (c - b) - i <= Z.of_nat fuel ->
  exists out v', scan_expand fuel t (Z.ones b) (Z.ones c) (lo + i * 2 ^ b) = Some (out, v') /\
    0 <= v' < 2 ^ 64 /\ Z.land v' (Z.ones b) = lo /\
    forall j ch e, i <= j < 2 ^ (c - b) -> bucket t (lo + j * 2 ^ b) = Some ch -> e ∈ ch -> e ∈ out.
Proof.
  intros Hw Hs Hm Hb Hc Hlo. revert i. induction fuel as [|fuel IH]; intros i Hi Hf; [lia|].
  assert (Hprod : 2 ^ c = 2 ^ (c - b) * 2 ^ b) by (rewrite <-Z.pow_add_r by lia; f_equal; lia).
  assert (0 < 2 ^ b) by lia.
  assert (2 ^ (c - b) <= 2 ^ 31) by (apply Z.pow_le_mono_r; lia).
  assert (2 ^ c <= 2 ^ 31) by (apply Z.pow_le_mono_r; lia).
  assert (Hidx : Z.land (lo + i * 2 ^ b) (Z.ones c) = lo + i * 2 ^ b).
  { rewrite Z.land_ones, Z.mod_small by nia. done. }
  cbn [scan_expand]. rewrite Hidx.
  destruct (bucket_in_range hash t (lo + i * 2 ^ b) Hw) as [ch Hch]; [nia|]. rewrite Hch. mred.
  rewrite expand_step by lia.
  assert (Hlast : forall j ch' e, i <= j < 2 ^ (c - b) -> bucket t (lo + j * 2 ^ b) = Some ch' ->
    e ∈ ch' -> (j = i /\ e ∈ ch) \/ i + 1 <= j).
  { intros j ch' e Hj Hb' He. destruct (decide (j = i)) as [->|]; [left|right; lia].
    rewrite Hch in Hb'. by simplify_eq. }
  destruct (Z.eqb_spec (Z.land (lo + (i + 1) * 2 ^ b) (Z.lxor (Z.ones b) (Z.ones c))) 0) as [Hz|Hz].
  - rewrite expand_more in Hz by lia.
    assert (i + 1 = 2 ^ (c - b)).
    { destruct (decide (i + 1 < 2 ^ (c - b))); [|lia]. rewrite Z.mod_small in Hz; lia. }
    do 2 eexists. split; [done|]. split.
    { change (2 ^ 64) with 18446744073709551616. change (2 ^ 31) with 2147483648 in *. nia. }
    split.
    { rewrite Z.land_ones, Z.mod_add, Z.mod_small by lia. done. }
    intros j ch' e Hj Hb' He. destruct (Hlast j ch' e Hj Hb' He) as [[_ ?]|]; [done|lia].
  - rewrite expand_more in Hz by lia.
    assert (i + 1 < 2 ^ (c - b)).
    { destruct (decide (i + 1 = 2 ^ (c - b))) as [E|]; [|lia]. by rewrite E, Z.mod_same in Hz by lia. }
    destruct (IH (i + 1)) as (out & v' & -> & Hv' & Hlow & Hout); [lia..|]. mred.
    do 2 eexists. split; [done|]. split; [done|]. split; [done|].
    intros j ch' e Hj Hb' He. apply elem_of_app.
    destruct (Hlast j ch' e Hj Hb' He) as [[_ ?]|]; [by left|]. right. eapply Hout; [|done|done]. lia.
Qed.

(** A well-formed non-empty table has [2 ^ k] buckets. *)
Lemma table_bits t : ht_wf hash t -> 0 < ht_size t ->
  exists k, 0 <= k <= 31 /\ ht_size t = 2 ^ k /\ ht_sizemask t = Z.ones k.
Proof. intros Hw Hs. destruct (wf_mask _ _ Hw) as [[? _]|(k & Hk & ? & ?)]; [lia|eauto]. Qed.

(** What the walked table, with its mask, and the call emit. *)
Lemma bucket_covers t lo e (out : list (dictEntry K V)) :
  ht_wf hash t -> e ∈ ht_entries t -> Z.land (u32 (hash (de_key e))) (ht_sizemask t) = lo ->
  bucket t lo = Some out -> e ∈ out.
Proof.
  intros Hw He Hlo Hb. apply list_elem_of_join in He as (ch & He & [i Hi]%list_elem_of_lookup_1).
  pose proof (wf_place _ _ Hw _ _ _ Hi He) as Hp. rewrite Hlo in Hp.
  apply bucket_Some in Hb as [_ Hb]. rewrite Hp, Nat2Z.id in Hb. by simplify_eq.
Qed.

(** The cursor is advanced by its low bits alone. *)
Lemma next_cursor_low b v v1 : 0 <= b -> Z.land v1 (Z.ones b) = v -> next_cursor (Z.ones b) v1 = next_cursor (Z.ones b) v.
Proof.
  intros Hb Hlow. unfold next_cursor.
  assert (E : Z.lor v1 (Z.lnot (Z.ones b)) = Z.lor v (Z.lnot (Z.ones b))); [|by rewrite E].
  apply Z.bits_inj'. intros j Hj. rewrite !Z.lor_spec, Z.lnot_spec by lia. destruct (decide (j < b)).
  - rewrite Z.ones_spec_low by lia. cbn [negb]. rewrite !orb_false_r.
    rewrite <-Hlow, Z.land_spec, Z.ones_spec_low by lia. by rewrite andb_true_r.
  - rewrite Z.ones_spec_high by lia. by rewrite !orb_true_r.
Qed.

(** The index in the larger table is the index in the smaller one and more high bits. *)
Lemma land_ones_split x b c : 0 <= b <= c ->
  Z.land x (Z.ones c) = Z.land x (Z.ones b) + (Z.land x (Z.ones c) / 2 ^ b) * 2 ^ b.
Proof.
  intros Hbc. rewrite !Z.land_ones by lia.
  replace (2 ^ c) with (2 ^ b * 2 ^ (c - b)) by (rewrite <-Z.pow_add_r by lia; f_equal; lia).
  rewrite Z.rem_mul_r by lia. rewrite (Z.mul_comm (2 ^ b) (_ mod _)), Z.div_add by lia.
  rewrite (Z.div_small (x mod 2 ^ b)) by (apply Z.mod_pos_bound; lia). lia.
Qed.

(** Without rehashing all entries are in the first table. *)
Lemma entries_first d e : dict_inv hash d -> dictIsRehashing d = false -> e ∈ entries d -> e ∈ ht_entries (ht0 d).
Proof.
  intros Hinv Hre He. unfold entries in He. rewrite elem_of_app in He. destruct He as [?|He]; [done|].
  unfold dictIsRehashing in Hre. zbool. pose proof (inv_rehash _ _ Hinv) as Hrr.
  unfold rehash_ok in Hrr. rewrite Hre in Hrr. cbn in Hrr. rewrite Hrr in He. by apply elem_of_nil in He.
Qed.

Lemma dictScan_step d v e :
  dict_inv hash d -> e ∈ entries d -> 0 <= v ->
  exists b out v', 0 <= b <= 31 /\ ht_size (scan_table d) = 2 ^ b /\
    (v < 2 ^ b -> dictScan d v = Some (out, v') /\ v' = next_cursor (Z.ones b) v /\
      (Z.land (u32 (hash (de_key e))) (Z.ones b) = v -> e ∈ out)).
Proof.
  intros Hinv He Hv. unfold scan_table, dictScan.
  assert (Hne : dictSize d <> 0).
  { rewrite (dictSize_entries hash) by done. destruct (entries d); [by apply elem_of_nil in He|cbn; lia]. }
  destruct (Z.eqb_spec (dictSize d) 0); [done|].
  assert (Hs0 : 0 < ht_size (ht0 d)).
  { apply (nonempty_size hash); [done|]. intros E. rewrite E in He. by apply elem_of_nil in He. }
  pose proof (inv_wf0 _ _ Hinv) as Hw0. pose proof (inv_wf1 _ _ Hinv) as Hw1.
  destruct (dictIsRehashing d) eqn:Hre; cbn [andb negb].
  2:{ destruct (table_bits _ Hw0 Hs0) as (b & Hb & Hsz & Hm). rewrite Hm.
      destruct (mask_land_range _ _ v (wf_mask _ _ Hw0) Hs0) as [Hr _]. rewrite Hm in Hr.
      destruct (bucket_in_range hash _ _ Hw0 Hr) as [ch Hch].
      exists b, ch, (next_cursor (Z.ones b) v). split; [done|]. split; [done|]. intros Hlt.
      rewrite Hch. mred. split; [done|]. split; [done|]. intros Hh.
      rewrite Z.land_ones, Z.mod_small in Hch by lia.
      apply (bucket_covers (ht0 d) v); [done| |by rewrite Hm|done].
      by apply entries_first. }
  pose proof (rh_size1 _ _ (inv_rehashing hash d Hinv Hre)) as Hs1.
  (* the smaller table [t0] and the larger [t1] *)
  assert (exists t0 t1, (if ht_size (ht0 d) >? ht_size (ht1 d) then (ht1 d, ht0 d)
      else (ht0 d, ht1 d)) = (t0, t1) /\
    (if negb (ht_size (ht0 d) <=? ht_size (ht1 d)) then ht1 d else ht0 d) = t0 /\
    ht_wf hash t0 /\ ht_wf hash t1 /\ 0 < ht_size t0 <= ht_size t1 /\
    (e ∈ ht_entries t0 \/ e ∈ ht_entries t1)) as (t0 & t1 & -> & -> & Hwt0 & Hwt1 & Hle & Hin).
  { unfold entries in He. rewrite elem_of_app in He.
    destruct (Z.gtb_spec (ht_size (ht0 d)) (ht_size (ht1 d)));
      destruct (Z.leb_spec (ht_size (ht0 d)) (ht_size (ht1 d))); try lia; cbn [negb];
      do 2 eexists; (split; [done|]); (split; [done|]); do 2 (split; [done|]); (split; [lia|tauto]). }
  destruct (table_bits t0 Hwt0) as (b & Hb & Hsz0 & Hm0); [lia|].
  destruct (table_bits t1 Hwt1) as (c & Hc & Hsz1 & Hm1); [lia|].
  assert (b <= c).
  { rewrite Hsz0, Hsz1 in Hle. apply (Z.pow_le_mono_r_iff 2); lia. }
  rewrite Hm0, Hm1.
  assert (Hlen : Z.of_nat (length (ht_table t1)) = 2 ^ c) by (rewrite <-(wf_len _ _ Hwt1); done).
  destruct (decide (v < 2 ^ b)) as [Hlt|Hge].
  2:{ exists b, [], 0. split; [done|]. split; [done|]. lia. }
  rewrite (Z.land_ones v), Z.mod_small by lia.
  destruct (bucket_in_range hash t0 v Hwt0) as [ch Hch]; [lia|]. rewrite Hch. mred.
  assert (0 < 2 ^ (c - b) <= 2 ^ c) by (split; [lia|apply Z.pow_le_mono_r; lia]).
  destruct (scan_expand_spec (S (length (ht_table t1))) t1 b c v 0)
    as (out & v1 & Hexp & Hv1 & Hlow & Hcov); [done|done|done|lia|lia|lia|lia|lia|].
  rewrite Z.mul_0_l, Z.add_0_r in Hexp. rewrite Hexp. mred.
  exists b, (ch ++ out), (next_cursor (Z.ones b) v1). split; [done|]. split; [done|]. intros _.
  split; [done|]. split.
  { apply next_cursor_low; [lia|done]. }
  intros Hh. apply elem_of_app. destruct Hin as [Hin|Hin].
  { left. apply (bucket_covers t0 v); [done|done|by rewrite Hm0|done]. }
  right. set (x := u32 (hash (de_key e))) in *.
  pose proof (land_ones_split x b c ltac:(lia)) as Hx. rewrite Hh in Hx.
  destruct (mask_land_range _ _ x (wf_mask _ _ Hwt1)) as [Hr _]; [lia|]. rewrite Hm1 in Hr.
  destruct (bucket_in_range hash t1 _ Hwt1 Hr) as [ch1 Hch1].
  assert (He1 : e ∈ ch1) by (apply (bucket_covers t1 (Z.land x (Z.ones c))); [done|done|by rewrite Hm1|done]).
  rewrite Hx in Hch1. eapply Hcov; [|done|done].
  assert (Hprod : 2 ^ c = 2 ^ (c - b) * 2 ^ b) by (rewrite <-Z.pow_add_r by lia; f_equal; lia).
  split; [apply Z.div_pos; lia|]. apply Z.div_lt_upper_bound; [lia|]. lia.
Qed.

(** ** A whole scan

    A dictionary that only grows between the calls: the table walked by the
    cursor never gets smaller. *)

Definition never_shrinks (ds : list (dict K V)) : Prop :=
  StronglySorted (fun d d' => ht_size (scan_table d) <= ht_size (scan_table d')) ds.

(** The call in reversed order: it emits the keys whose reversed hash has the
    prefix of the reversed cursor, and moves the cursor to the next prefix. *)
Lemma dictScan_rev d v e :
  dict_inv hash d -> e ∈ entries d -> 0 <= v -> v < ht_size (scan_table d) ->
  exists b out v', 0 <= b <= 31 /\ ht_size (scan_table d) = 2 ^ b /\
    dictScan d v = Some (out, v') /\ 0 <= v' < 2 ^ b /\
    rev v' = u64 ((rev v / 2 ^ (64 - b) + 1) * 2 ^ (64 - b)) /\
    (rev (u32 (hash (de_key e))) / 2 ^ (64 - b) = rev v / 2 ^ (64 - b) -> e ∈ out).
Proof.
  intros Hinv He Hv Hlt. destruct (dictScan_step d v e Hinv He Hv) as (b & out & v' & Hb & Hs & Hstep).
  rewrite Hs in Hlt. destruct (Hstep Hlt) as (Hd & -> & Hout).
  assert (2 ^ b <= 2 ^ 31) by (apply Z.pow_le_mono_r; lia).
  assert (v < 2 ^ 64) by (change (2 ^ 64) with (2 ^ 31 * 2 ^ 33); lia).
  exists b, out, (next_cursor (Z.ones b) v). split; [done|]. split; [done|]. split; [done|]. split.
  { split; [apply next_cursor_range|apply next_cursor_small; lia]. }
  split; [apply next_cursor_rev; lia|]. intros Hpre. apply Hout.
  rewrite (rev_prefix b _ v) by (done || lia). rewrite Z.land_ones, Z.mod_small by lia. done.
Qed.

Lemma prefix_later r x n :
  0 <= n -> 0 <= r <= x -> x / 2 ^ n <> r / 2 ^ n -> 0 < (r / 2 ^ n + 1) * 2 ^ n <= x.
Proof.
  intros Hn Hr Hne. assert (0 < 2 ^ n) by lia.
  pose proof (Z.div_le_mono r x (2 ^ n)). pose proof (Z.div_pos r (2 ^ n)).
  pose proof (Z.mul_div_le x (2 ^ n)). nia.
Qed.

(** A key that the reversed cursor has not passed is still to be emitted. *)
Lemma scan_calls_emit ds v key out :
  Forall (fun d => dict_inv hash d /\ is_Some (abs d !! key)) ds -> never_shrinks ds -> ds <> [] ->
  0 <= v -> Forall (fun d => v < ht_size (scan_table d)) ds ->
  rev v <= rev (u32 (hash key)) -> scan_calls ds v = Some (out, 0) ->
  exists val, DictEntry key val ∈ out.
Proof.
  revert v out. induction ds as [|d ds IH]; intros v out Hds Hns Hne Hv Hlt Hle Hcalls; [done|].
  apply Forall_cons in Hds as [[Hinv [val Hval]] Hds]. apply Forall_cons in Hlt as [Hlt0 Hlt].
  apply StronglySorted_inv in Hns as [Hns Hmono].
  apply abs_lookup in Hval; [|apply Hinv].
  destruct (dictScan_rev d v _ Hinv Hval Hv Hlt0) as
    (b & o & v' & Hb & Hs & Hscan & Hv' & Hrev & Hemit). cbn [de_key] in Hemit.
  cbn [scan_calls] in Hcalls. rewrite Hscan in Hcalls. cbn in Hcalls.
  destruct (scan_calls ds v') as [[rest vend]|] eqn:Hrest; [|done].
  cbn in Hcalls. simplify_eq.
  destruct (decide (rev (u32 (hash key)) / 2 ^ (64 - b) = rev v / 2 ^ (64 - b))) as [E|E].
  { exists val. apply elem_of_app. left. by apply Hemit. }
  pose proof (rev_range v Hv) as Hrv. pose proof (wrapu_range 32 (hash key) ltac:(lia)) as Hu.
  pose proof (rev_range (u32 (hash key)) ltac:(lia)) as Hrx.
  pose proof (prefix_later _ _ (64 - b) ltac:(lia) (conj (proj1 Hrv) Hle) E) as Hnext.
  rewrite wrapu_small in Hrev by lia.
  destruct ds as [|d2 ds].
  { cbn in Hrest. simplify_eq. exfalso. change (rev 0) with 0 in Hrev. lia. }
  destruct (IH v' rest) as [val' Hin]; try done.
  - lia.
  - eapply Forall_impl; [exact Hmono|]. cbn. intros x Hx. lia.
  - lia.
  - exists val'. apply elem_of_app. by right.
Qed.

(** C19: the guarantee of [SCAN]: when a client iterates from cursor 0 until the
    cursor is 0 again, every key present during the whole iteration is returned,
    whatever is added, removed or incrementally rehashed between the calls, as long
    as the table the cursor walks never gets smaller. *)
Theorem dictScan_complete ds key out :
  Forall (fun d => dict_inv hash d /\ is_Some (abs d !! key)) ds -> never_shrinks ds -> ds <> [] ->
  scan_calls ds 0 = Some (out, 0) ->
  exists val, DictEntry key val ∈ out.
Proof.
  intros Hds Hns Hne. apply scan_calls_emit; try done.
  - eapply Forall_impl; [exact Hds|]. cbn. intros d [Hinv [val Hval]].
    apply abs_lookup in Hval; [|apply Hinv].
    destruct (dictScan_step d 0 _ Hinv Hval) as (b & _ & _ & Hb & -> & _); lia.
  - change (rev 0) with 0. apply rev_range. apply wrapu_range. lia.
Qed.

(** *** Termination *)

Lemma multiple_step r n b :
  0 <= b <= n -> n <= 64 -> (2 ^ (64 - n) | r) ->
  (r / 2 ^ (64 - b) + 1) * 2 ^ (64 - b) >= r + 2 ^ (64 - n) /\
  (2 ^ (64 - n) | (r / 2 ^ (64 - b) + 1) * 2 ^ (64 - b)).
Proof.
  intros Hb Hn [q ->].
  assert (Hp : 2 ^ (64 - b) = 2 ^ (64 - n) * 2 ^ (n - b)) by (rewrite <-Z.pow_add_r by lia; f_equal; lia).
  rewrite Hp. set (g := 2 ^ (64 - n)). assert (0 < g) by (unfold g; lia).
  assert (0 < 2 ^ (n - b)) by lia. split.
  - rewrite (Z.mul_comm g (2 ^ (n - b))), Z.div_mul_cancel_r by lia.
    pose proof (Z.mod_pos_bound q (2 ^ (n - b))). pose proof (Z.div_mod q (2 ^ (n - b))). nia.
  - exists ((q * g / (g * 2 ^ (n - b)) + 1) * 2 ^ (n - b)). lia.
Qed.

Lemma scan_calls_end n fuel ds v :
  0 <= n <= 31 -> Forall (fun d => dict_inv hash d /\ ht_size (scan_table d) <= 2 ^ n) ds ->
  never_shrinks ds -> 0 <= v < 2 ^ 64 -> (2 ^ (64 - n) | rev v) ->
  Forall (fun d => 0 < dictSize d -> v < ht_size (scan_table d)) ds ->
  2 ^ 64 - rev v <= Z.of_nat fuel * 2 ^ (64 - n) -> (0 < fuel <= length ds)%nat ->
  exists k out, (0 < k <= fuel)%nat /\ scan_calls (take k ds) v = Some (out, 0).
Proof.
  intros Hn. revert ds v. induction fuel as [|fuel IH]; intros ds v Hds Hns Hv Hdiv Hlt Hf Hlen; [lia|].
  destruct ds as [|d ds]; [cbn in Hlen; lia|].
  apply Forall_cons in Hds as [[Hinv Hsz] Hds]. apply Forall_cons in Hlt as [Hlt0 Hlt].
  apply StronglySorted_inv in Hns as [Hns Hmono].
  destruct (decide (dictSize d = 0)) as [Hz|Hz].
  { exists 1%nat, []. split; [lia|]. cbn. unfold dictScan. by rewrite Hz. }
  pose proof (dictSize_entries hash d Hinv) as Hde.
  destruct (entries d) as [|e es] eqn:Ee; [cbn in Hde; lia|].
  destruct (dictScan_rev d v e Hinv) as (b & o & v' & Hb & Hs & Hscan & Hv' & Hrev & _);
    [rewrite Ee; by left|lia|apply Hlt0; lia|].
  assert (b <= n) by (apply (Z.pow_le_mono_r_iff 2); lia).
  destruct (multiple_step (rev v) n b) as [Hge Hdiv']; [lia|lia|done|].
  pose proof (rev_range v ltac:(lia)) as Hrv.
  set (nx := (rev v / 2 ^ (64 - b) + 1) * 2 ^ (64 - b)) in *.
  assert (Hnx : nx <= 2 ^ 64).
  { unfold nx. assert (rev v / 2 ^ (64 - b) < 2 ^ b).
    { apply Z.div_lt_upper_bound; [lia|]. rewrite <-Z.pow_add_r by lia.
      replace (64 - b + b) with 64 by lia. lia. }
    replace (2 ^ 64) with (2 ^ b * 2 ^ (64 - b)) by (rewrite <-Z.pow_add_r by lia; f_equal; lia). nia. }
  destruct (decide (nx = 2 ^ 64)) as [Hend|Hend].
  { exists 1%nat, (o ++ []). split; [lia|]. cbn [take scan_calls]. rewrite Hscan. mred.
    assert (v' = 0) as ->; [|done]. rewrite Hend in Hrev. change (u64 (2 ^ 64)) with 0 in Hrev.
    rewrite <-(rev_involutive v'), Hrev; [done|].
    assert (2 ^ b <= 2 ^ 64) by (apply Z.pow_le_mono_r; lia). lia. }
  rewrite wrapu_small in Hrev by lia. rewrite <-Hrev in *.
  assert (2 ^ b <= 2 ^ 64) by (apply Z.pow_le_mono_r; lia).
  assert (0 < fuel)%nat. { destruct fuel; [|lia]. exfalso. lia. }
  destruct (IH ds v') as (k & out & Hk & Hc); try done.
  - lia.
  - eapply Forall_impl; [exact Hmono|]. cbn. intros x Hx. lia.
  - lia.
  - cbn in Hlen. lia.
  - exists (S k), (o ++ out). split; [lia|]. cbn [take scan_calls]. rewrite Hscan. mred.
    rewrite Hc. done.
Qed.

(** C32: a scan terminates: if the table the cursor walks never gets smaller and
    never exceeds 2^n buckets, the cursor is 0 again after at most 2^n calls, and no
    call faults. *)
Theorem dictScan_terminates n ds :
  0 <= n <= 31 -> Forall (fun d => dict_inv hash d /\ ht_size (scan_table d) <= 2 ^ n) ds ->
  never_shrinks ds -> 2 ^ n <= Z.of_nat (length ds) ->
  exists k out, (0 < k <= Z.to_nat (2 ^ n))%nat /\ scan_calls (take k ds) 0 = Some (out, 0).
Proof.
  intros Hn Hds Hns Hlen. apply (scan_calls_end n); try done; change (rev 0) with 0.
  - apply Z.divide_0_r.
  - eapply Forall_impl; [exact Hds|]. cbn. intros d [Hinv _] Hpos.
    pose proof (dictSize_entries hash d Hinv) as Hde.
    destruct (entries d) as [|e es] eqn:Ee; [cbn in Hde; lia|].
    destruct (dictScan_step d 0 e Hinv) as (b & _ & _ & Hb & -> & _); [rewrite Ee; by left|lia..].
  - rewrite Z2Nat.id, <-Z.pow_add_r by lia. replace (n + (64 - n)) with 64 by lia. lia.
  - assert (0 < 2 ^ n) by lia. lia.
Qed.

End scan_spec.

(** ** Witnesses *)

(** A scan interrupted by a growing rehash: 4 buckets, then 4 and 8. *)
Definition example_small : dict Z Z :=
  match dict_run example_hash 0 (fun _ => true) dictCreate
          [OpAdd 1 10; OpAdd 2 20; OpAdd 3 30; OpAdd 4 40] with
  | Some (d, _) => d
  | None => dictCreate
  end.

Lemma example_small_inv : dict_inv example_hash example_small.
Proof.
  unfold example_small.
  destruct (dict_run_spec example_hash 0 (fun _ => true) dictCreate
    [OpAdd 1 10; OpAdd 2 20; OpAdd 3 30; OpAdd 4 40]) as (d & -> & Hinv & _);
    [apply empty_inv|vm_compute; discriminate|exact Hinv].
Qed.

Definition example_scan : list (dict Z Z) :=
  [example_small; example_small; example_rehashing; example_rehashing].

Lemma example_scan_never_shrinks : never_shrinks example_scan.
Proof. repeat constructor; vm_compute; discriminate. Qed.

Lemma example_scan_all (P : dict Z Z -> Prop) :
  P example_small -> P example_rehashing ->
  Forall (fun d => dict_inv example_hash d /\ P d) example_scan.
Proof.
  intros H1 H2. unfold example_scan.
  do 2 (apply Forall_cons_2; [split; [exact example_small_inv|exact H1]|]).
  do 2 (apply Forall_cons_2; [split; [exact (proj1 example_rehashing_inv)|exact H2]|]).
  apply Forall_nil_2.
Qed.

Definition example_scan_out : list (dictEntry Z Z) :=
  match scan_calls example_scan 0 with Some (out, _) => out | None => [] end.

Lemma dictScan_complete_witness :
  scan_calls example_scan 0 = Some (example_scan_out, 0) /\
  exists val, DictEntry 4 val ∈ example_scan_out.
Proof.
  split; [vm_compute; reflexivity|].
  apply (dictScan_complete example_hash example_scan 4 example_scan_out).
  - apply (example_scan_all (fun d => is_Some (abs d !! 4))); exists 40; vm_compute; reflexivity.
  - apply example_scan_never_shrinks.
  - discriminate.
  - vm_compute. reflexivity.
Defined.

Lemma dictScan_terminates_witness :
  exists k out, (0 < k <= Z.to_nat (2 ^ 2))%nat /\ scan_calls (take k example_scan) 0 = Some (out, 0).
Proof.
  apply (dictScan_terminates example_hash 2 example_scan).
  - lia.
  - apply (example_scan_all (fun d => ht_size (scan_table d) <= 2 ^ 2)); vm_compute; discriminate.
  - apply example_scan_never_shrinks.
  - vm_compute. discriminate.
Defined.

(** ** A shrinking table

    64 buckets holding the key 5 alone, and the same dictionary when
    [dictResize] has started to rehash it into 4 buckets. *)

Definition big_ops : list (dict_op Z Z) :=
  ((fun i => OpAdd (Z.of_nat i) 0) <$> seq 0 33) ++ [OpRehash 100] ++
  ((fun i => OpDelete (Z.of_nat i)) <$> (seq 0 5 ++ seq 6 27)).

Definition big_dict : dict Z Z :=
  match dict_run id 0 (fun _ => true) dictCreate big_ops with
  | Some (d, _) => d | None => dictCreate end.

Definition shrinking_dict : dict Z Z :=
  match dictResize true big_dict with Some (d, _) => d | None => dictCreate end.

Lemma big_dict_inv : dict_inv id big_dict.
Proof.
  unfold big_dict. destruct (dict_run_spec id 0 (fun _ => true) dictCreate big_ops)
    as (d & -> & Hinv & _); [apply empty_inv|vm_compute; discriminate|exact Hinv].
Qed.

Lemma shrinking_dict_inv : dict_inv id shrinking_dict.
Proof.
  unfold shrinking_dict. destruct (dictResize_abs id true big_dict big_dict_inv)
    as (d & ok & -> & Hinv & _); [vm_compute; discriminate|exact Hinv].
Qed.

(** When the table shrinks during the iteration, a key present the whole time
    can be missed: 34 calls on a table of 64 buckets leave the cursor at 17; the
    dictionary is then resized to 4 buckets, and the remaining calls, which end with
    cursor 0, never visit bucket 5 of the old table. The loop over the larger table
    starts at the cursor and increments it in normal order, so the buckets below the
    cursor that the reversed order has not reached yet are skipped. *)
Theorem dictScan_shrink_misses_key :
  let ds := replicate 34 big_dict ++ replicate 2 shrinking_dict in
  Forall (fun d => dict_inv id d /\ abs d !! 5 = Some 0) ds /\
  (exists ok, dictResize true big_dict = Some (shrinking_dict, ok)) /\
  scan_calls ds 0 = Some ([], 0).
Proof.
  cbv zeta. split; [|split].
  - apply Forall_app; split; apply Forall_replicate; split.
    + apply big_dict_inv.
    + vm_compute. reflexivity.
    + apply shrinking_dict_inv.
    + vm_compute. reflexivity.
  - eexists. vm_compute. reflexivity.
  - vm_compute. reflexivity.
Qed.
