(* ===== verification/Adlist.v ===== *)
(** * adlist.c: the generic doubly linked list

    The nodes live in a heap, a finite map from addresses to [listNode]s, and the
    pointers of the code are kept as they are: [prev], [next], [head] and [tail]
    are addresses or [NULL]. The address returned by [zmalloc] is an argument of
    the operations that allocate. [None] is the access of a [NULL] or freed node.
    [is_list h l nodes] says that [l] is a well-formed list with these nodes. *)

From stdpp Require Import gmap.
From S2P Require Import Prelude.

Definition ptr := positive.

Inductive direction := AL_START_HEAD | AL_START_TAIL.

#[global] Instance direction_eq_dec : EqDecision direction.
Proof. solve_decision. Defined.

Section adlist.
Context {V : Type} `{EqDecision V}.

Record listNode := ListNode { prev : option ptr; next : option ptr; value : V }.

Abbreviation heap := (gmap ptr listNode).

Record list_t := List {
  head : option ptr;
  tail : option ptr;
  dup : option (V -> option V);
  free : bool; (* set or not: the values passed to it are returned *)
  match_ : option (V -> V -> bool);
  len : Z;
}.

Record listIter := ListIter { iter_next : option ptr; iter_direction : direction }.

Definition set_prev (h : heap) (p : ptr) (q : option ptr) : option heap :=
  n ← h !! p; Some (<[p := ListNode q (next n) (value n)]> h).
Definition set_next (h : heap) (p : ptr) (q : option ptr) : option heap :=
  n ← h !! p; Some (<[p := ListNode (prev n) q (value n)]> h).

Definition with_ends (l : list_t) (hd tl : option ptr) (n : Z) : list_t :=
  List hd tl (dup l) (free l) (match_ l) n.

Definition listCreate : list_t := List None None None false None 0.

(** [while(len--)] *)
Fixpoint listEmpty_loop (n : nat) (h : heap) (current : option ptr) (freed : list V)
  : option (heap * list V) :=
  match n with
  | O => Some (h, freed)
  | S n =>
    c ← current; nd ← h !! c;
    listEmpty_loop n (delete c h) (next nd) (freed ++ [value nd])
  end.

(** The last component is the values passed to [list->free]. *)
Definition listEmpty (h : heap) (l : list_t) : option (heap * list_t * list V) :=
  '(h, freed) ← listEmpty_loop (Z.to_nat (len l)) h (head l) [];
  Some (h, with_ends l None None 0, if free l then freed else []).

Definition listAddNodeHead (h : heap) (l : list_t) (node : ptr) (v : V) : option (heap * list_t) :=
  if len l =? 0 then
    Some (<[node := ListNode None None v]> h, with_ends l (Some node) (Some node) (u64 (len l + 1)))
  else
    let h := <[node := ListNode None (head l) v]> h in
    hd ← head l;
    h ← set_prev h hd (Some node);
    Some (h, with_ends l (Some node) (tail l) (u64 (len l + 1))).

Definition listAddNodeTail (h : heap) (l : list_t) (node : ptr) (v : V) : option (heap * list_t) :=
  if len l =? 0 then
    Some (<[node := ListNode None None v]> h, with_ends l (Some node) (Some node) (u64 (len l + 1)))
  else
    let h := <[node := ListNode (tail l) None v]> h in
    tl ← tail l;
    h ← set_next h tl (Some node);
    Some (h, with_ends l (head l) (Some node) (u64 (len l + 1))).

Definition listInsertNode (h : heap) (l : list_t) (old_node node : ptr) (v : V) (after : bool)
  : option (heap * list_t) :=
  old ← h !! old_node;
  let '(np, nn, hd, tl) :=
    if after then (Some old_node, next old, head l,
                   if bool_decide (tail l = Some old_node) then Some node else tail l)
    else (prev old, Some old_node,
          (if bool_decide (head l = Some old_node) then Some node else head l), tail l) in
  let h := <[node := ListNode np nn v]> h in
  h ← match np with Some p => set_next h p (Some node) | None => Some h end;
  h ← match nn with Some n => set_prev h n (Some node) | None => Some h end;
  Some (h, with_ends l hd tl (u64 (len l + 1))).

Definition listDelNode (h : heap) (l : list_t) (node : ptr) : option (heap * list_t * list V) :=
  nd ← h !! node;
  '(h, hd) ← match prev nd with
             | Some p => h ← set_next h p (next nd); Some (h, head l)
             | None => Some (h, next nd)
             end;
  '(h, tl) ← match next nd with
             | Some n => h ← set_prev h n (prev nd); Some (h, tail l)
             | None => Some (h, prev nd)
             end;
  Some (delete node h, with_ends l hd tl (u64 (len l - 1)), if free l then [value nd] else []).

Definition listGetIterator (l : list_t) (dir : direction) : listIter :=
  ListIter (match dir with AL_START_HEAD => head l | AL_START_TAIL => tail l end) dir.

Definition listRewind (l : list_t) : listIter := ListIter (head l) AL_START_HEAD.
Definition listRewindTail (l : list_t) : listIter := ListIter (tail l) AL_START_TAIL.

(** The advanced iterator and the returned node. *)
Definition listNext (h : heap) (iter : listIter) : option (listIter * option ptr) :=
  match iter_next iter with
  | None => Some (iter, None)
  | Some current =>
    nd ← h !! current;
    Some (ListIter (if bool_decide (iter_direction iter = AL_START_HEAD) then next nd else prev nd)
            (iter_direction iter), Some current)
  end.

(** The loop of [listDup]; [addrs] are the addresses of the new nodes. The result
    [None] inside is the failure of [dup]: the copy is released. *)
Fixpoint listDup_loop (fuel : nat) (h : heap) (iter : listIter) (copy : list_t) (addrs : list ptr)
  : option (heap * option list_t) :=
  match fuel with
  | O => None
  | S fuel =>
    '(iter, node) ← listNext h iter;
    match node with
    | None => Some (h, Some copy)
    | Some node =>
      nd ← h !! node;
      match (match dup copy with Some f => f (value nd) | None => Some (value nd) end) with
      | None => '(h, _, _) ← listEmpty h copy; Some (h, None)
      | Some v =>
        match addrs with
        | [] => None
        | a :: addrs =>
          '(h, copy) ← listAddNodeTail h copy a v;
          listDup_loop fuel h iter copy addrs
        end
      end
    end
  end.

Definition listDup (h : heap) (orig : list_t) (addrs : list ptr) : option (heap * option list_t) :=
  listDup_loop (S (size h)) h (listRewind orig)
    (List None None (dup orig) (free orig) (match_ orig) 0) addrs.

Fixpoint listSearchKey_loop (fuel : nat) (h : heap) (l : list_t) (iter : listIter) (key : V)
  : option (option ptr) :=
  match fuel with
  | O => None
  | S fuel =>
    '(iter, node) ← listNext h iter;
    match node with
    | None => Some None
    | Some node =>
      nd ← h !! node;
      if (match match_ l with Some m => m (value nd) key | None => bool_decide (key = value nd) end)
      then Some (Some node)
      else listSearchKey_loop fuel h l iter key
    end
  end.

Definition listSearchKey (h : heap) (l : list_t) (key : V) : option (option ptr) :=
  listSearchKey_loop (S (size h)) h l (listRewind l) key.

(** [while(index-- && n)] in the direction [fw]. *)
Fixpoint listIndex_loop (index : nat) (h : heap) (fw : bool) (n : option ptr) : option (option ptr) :=
  match index, n with
  | S index, Some p => nd ← h !! p; listIndex_loop index h fw (if fw then next nd else prev nd)
  | _, _ => Some n
  end.

Definition listIndex (h : heap) (l : list_t) (index : Z) : option (option ptr) :=
  if index <? 0 then listIndex_loop (Z.to_nat (- index - 1)) h false (tail l)
  else listIndex_loop (Z.to_nat index) h true (head l).

Definition listRotate (h : heap) (l : list_t) : option (heap * list_t) :=
  if len l <=? 1 then Some (h, l) else
  tl ← tail l;
  tn ← h !! tl;
  nt ← prev tn;
  h ← set_next h nt None;
  hd ← head l;
  h ← set_prev h hd (Some tl);
  h ← set_prev h tl None;
  h ← set_next h tl (Some hd);
  Some (h, with_ends l (Some tl) (Some nt) (len l)).

Definition listJoin (h : heap) (l o : list_t) : option (heap * list_t * list_t) :=
  h ← match head o with Some p => set_prev h p (tail l) | None => Some h end;
  '(h, hd) ← match tail l with
             | Some p => h ← set_next h p (head o); Some (h, head l)
             | None => Some (h, head o)
             end;
  let tl := match tail o with Some p => Some p | None => tail l end in
  Some (h, with_ends l hd tl (u64 (len l + len o)), with_ends o None None 0).

(** The usage pattern of the clients (and of the comment of [listNext]): iterate
    and delete the current node when [f] holds of its value. *)
Fixpoint delete_if (fuel : nat) (f : V -> bool) (h : heap) (l : list_t) (iter : listIter)
  : option (heap * list_t) :=
  match fuel with
  | O => None
  | S fuel =>
    '(iter, node) ← listNext h iter;
    match node with
    | None => Some (h, l)
    | Some node =>
      nd ← h !! node;
      if f (value nd) then '(h, l, _) ← listDelNode h l node; delete_if fuel f h l iter
      else delete_if fuel f h l iter
    end
  end.

(** ** Well-formed lists *)

Implicit Types (nodes a b c : list (ptr * V)) (h : heap) (l : list_t).

Definition first nodes (nx : option ptr) : option ptr :=
  match nodes with [] => nx | (p, _) :: _ => Some p end.

Fixpoint final nodes (pv : option ptr) : option ptr :=
  match nodes with [] => pv | (p, _) :: nodes => final nodes (Some p) end.

(** A segment of nodes between [pv] and [nx]. *)
Fixpoint seg h (pv : option ptr) nodes (nx : option ptr) : Prop :=
  match nodes with
  | [] => True
  | (p, v) :: rest => h !! p = Some (ListNode pv (first rest nx) v) /\ seg h (Some p) rest nx
  end.

Record is_list h l nodes : Prop := {
  il_nodup : NoDup nodes.*1;
  il_seg : seg h None nodes None;
  il_head : head l = first nodes None;
  il_tail : tail l = final nodes None;
  il_len : len l = Z.of_nat (length nodes);
}.

Definition vals nodes : list V := nodes.*2.

(** The nodes of [h] outside [ps] are those of [h']. *)
Definition frame (ps : list ptr) h h' : Prop := forall q, q ∉ ps -> h' !! q = h !! q.

Lemma first_app a b nx : first (a ++ b) nx = first a (first b nx).
Proof. by destruct a as [|[??]?]. Qed.

Lemma final_app a b pv : final (a ++ b) pv = final b (final a pv).
Proof. revert pv. induction a as [|[p v] a IH]; intros pv; [done|]. apply IH. Qed.

Lemma seg_app h pv a b nx :
  seg h pv (a ++ b) nx <-> seg h pv a (first b nx) /\ seg h (final a pv) b nx.
Proof.
  revert pv. induction a as [|[p v] a IH]; intros pv; [cbn; tauto|].
  cbn [app seg final]. rewrite IH, first_app. tauto.
Qed.

Lemma seg_frame h h' ps pv nodes nx :
  frame ps h h' -> (forall p, p ∈ nodes.*1 -> p ∉ ps) -> seg h pv nodes nx -> seg h' pv nodes nx.
Proof.
  intros Hf. revert pv. induction nodes as [|[p v] nodes IH]; intros pv Hd; [done|].
  cbn [seg]. intros [Hp Hs]. split.
  - rewrite Hf; [done|]. apply Hd. by left.
  - apply IH; [|done]. intros q Hq. apply Hd. by right.
Qed.

Lemma frame_insert p n h : frame [p] h (<[p := n]> h).
Proof. intros q Hq. apply lookup_insert_ne. intros ->. apply Hq. by left. Qed.

Lemma frame_delete p h : frame [p] h (delete p h).
Proof. intros q Hq. apply lookup_delete_ne. intros ->. apply Hq. by left. Qed.

Lemma frame_trans ps ps' h h1 h2 : frame ps h h1 -> frame ps' h1 h2 -> frame (ps ++ ps') h h2.
Proof.
  intros H1 H2 q Hq. rewrite elem_of_app in Hq. rewrite H2, H1 by tauto. done.
Qed.

Lemma frame_mono ps ps' h h' : frame ps h h' -> ps ⊆ ps' -> frame ps' h h'.
Proof. intros Hf Hs q Hq. apply Hf. set_solver. Qed.

(** Redirecting the link that leaves a segment at its end. *)
Lemma upd_final h pv a nx nx' :
  NoDup a.*1 -> seg h pv a nx -> a <> [] ->
  exists p h', final a pv = Some p /\ p ∈ a.*1 /\ set_next h p nx' = Some h' /\
    seg h' pv a nx' /\ frame [p] h h'.
Proof.
  intros Hn Hs Hne. destruct (exists_last Hne) as (a' & [p v] & ->).
  rewrite fmap_app in Hn. apply NoDup_app in Hn as (_ & Hd & _).
  apply seg_app in Hs as [Hs1 Hs2]. cbn [seg first] in *. destruct Hs2 as [Hp _].
  exists p, (<[p := ListNode (final a' pv) nx' v]> h). unfold set_next. rewrite Hp. mred.
  split; [by rewrite final_app|]. split; [rewrite fmap_app; apply elem_of_app; right; by left|].
  split; [done|]. split; [|apply frame_insert].
  apply seg_app. split.
  - eapply seg_frame; [apply frame_insert| |done]. intros q Hq Hq'. apply (Hd q); [done|].
    by apply list_elem_of_singleton in Hq' as ->; left.
  - cbn [seg]. split; [|done]. by rewrite lookup_insert_eq.
Qed.

(** ... and at its beginning. *)
Lemma upd_first h pv b nx pv' :
  NoDup b.*1 -> seg h pv b nx -> b <> [] ->
  exists p h', first b nx = Some p /\ p ∈ b.*1 /\ set_prev h p pv' = Some h' /\
    seg h' pv' b nx /\ frame [p] h h'.
Proof.
  intros Hn Hs Hne. destruct b as [|[p v] b]; [done|]. cbn in Hs, Hn. apply NoDup_cons in Hn as [Hp Hn].
  destruct Hs as [Hl Hs]. exists p, (<[p := ListNode pv' (first b nx) v]> h).
  unfold set_prev. rewrite Hl. mred. split; [done|]. split; [by left|]. split; [done|].
  split; [|apply frame_insert]. split; [by rewrite lookup_insert_eq|].
  eapply seg_frame; [apply frame_insert| |done]. intros q Hq Hq'.
  by apply list_elem_of_singleton in Hq' as ->.
Qed.

(** The same for a segment that may be empty, in the form of the code. *)
Lemma upd_final_opt h a nx nx' :
  NoDup a.*1 -> seg h None a nx ->
  exists h', (match final a None with Some p => set_next h p nx' | None => Some h end) = Some h' /\
    seg h' None a nx' /\ frame a.*1 h h'.
Proof.
  intros Hn Hs. destruct (decide (a = [])) as [->|Hne]; [by exists h|].
  destruct (upd_final h None a nx nx' Hn Hs Hne) as (p & h' & -> & Hp & -> & Hs' & Hf).
  exists h'. split; [done|]. split; [done|]. eapply frame_mono; [exact Hf|]. by intros q ->%list_elem_of_singleton.
Qed.

Lemma upd_first_opt h pv b pv' :
  NoDup b.*1 -> seg h pv b None ->
  exists h', (match first b None with Some p => set_prev h p pv' | None => Some h end) = Some h' /\
    seg h' pv' b None /\ frame b.*1 h h'.
Proof.
  intros Hn Hs. destruct (decide (b = [])) as [->|Hne]; [by exists h|].
  destruct (upd_first h pv b None pv' Hn Hs Hne) as (p & h' & -> & Hp & -> & Hs' & Hf).
  exists h'. split; [done|]. split; [done|]. eapply frame_mono; [exact Hf|]. by intros q ->%list_elem_of_singleton.
Qed.

Lemma seg_fresh h pv nodes nx node : seg h pv nodes nx -> h !! node = None -> node ∉ nodes.*1.
Proof.
  revert pv. induction nodes as [|[p v] nodes IH]; intros pv Hs Hn; [apply not_elem_of_nil|].
  destruct Hs as [Hp Hs]. apply not_elem_of_cons. split; [|by eapply IH].
  cbn. intros ->. congruence.
Qed.

(** Linking a new node between two segments. *)
Lemma link_between h a b node v :
  NoDup (a ++ b).*1 -> seg h None (a ++ b) None -> h !! node = None ->
  exists h1 h2,
    (match final a None with
     | Some p => set_next (<[node := ListNode (final a None) (first b None) v]> h) p (Some node)
     | None => Some (<[node := ListNode (final a None) (first b None) v]> h) end) = Some h1 /\
    (match first b None with Some p => set_prev h1 p (Some node) | None => Some h1 end) = Some h2 /\
    NoDup (a ++ (node, v) :: b).*1 /\ seg h2 None (a ++ (node, v) :: b) None /\
    frame ((a ++ b).*1 ++ [node]) h h2.
Proof.
  intros Hn Hs Hfr. pose proof (seg_fresh _ _ _ _ _ Hs Hfr) as Hnode.
  rewrite fmap_app in Hn, Hnode. apply not_elem_of_app in Hnode as [Hna Hnb].
  pose proof Hn as (Hnda & Hdis & Hndb)%NoDup_app.
  apply seg_app in Hs as [Hsa Hsb]. set (h0 := <[node := _]> h).
  assert (Hf0 : frame [node] h h0) by apply frame_insert.
  assert (Hout : forall nodes, node ∉ nodes.*1 -> forall p, p ∈ nodes.*1 -> p ∉ [node]).
  { intros nodes Hx p Hp Hp'. by apply list_elem_of_singleton in Hp' as ->. }
  apply (seg_frame h h0 [node]) in Hsa; [|done|by apply Hout].
  apply (seg_frame h h0 [node]) in Hsb; [|done|by apply Hout].
  destruct (upd_final_opt h0 a _ (Some node) Hnda Hsa) as (h1 & E1 & Hsa1 & Hf1).
  apply (seg_frame h0 h1 a.*1) in Hsb; [|done|]. 2:{ intros p Hp Hp'. by apply (Hdis p). }
  destruct (upd_first_opt h1 _ b (Some node) Hndb Hsb) as (h2 & E2 & Hsb2 & Hf2).
  exists h1, h2. split; [done|]. split; [done|]. split.
  { rewrite fmap_app, fmap_cons. cbn [fst]. apply NoDup_app. split; [done|]. split.
    - intros p Hp. apply not_elem_of_cons. split; [by intros ->|by apply Hdis].
    - apply NoDup_cons. done. }
  split.
  - apply seg_app. split.
    + eapply (seg_frame h1 h2 b.*1); [done| |done]. intros p Hp. by apply Hdis.
    + split; [|done]. rewrite Hf2, Hf1 by done. by unfold h0; rewrite lookup_insert_eq.
  - eapply frame_mono; [eapply frame_trans; [eapply frame_trans; [exact Hf0|exact Hf1]|exact Hf2]|].
    intros q. rewrite fmap_app, !elem_of_app. tauto.
Qed.

(** Unlinking the node between two segments. *)
Lemma unlink_between h a b node v :
  NoDup (a ++ (node, v) :: b).*1 -> seg h None (a ++ (node, v) :: b) None ->
  exists h1 h2,
    h !! node = Some (ListNode (final a None) (first b None) v) /\
    (match final a None with Some p => set_next h p (first b None) | None => Some h end) = Some h1 /\
    (match first b None with Some p => set_prev h1 p (final a None) | None => Some h1 end) = Some h2 /\
    NoDup (a ++ b).*1 /\ seg (delete node h2) None (a ++ b) None /\
    frame (a ++ (node, v) :: b).*1 h (delete node h2).
Proof.
  intros Hn Hs. rewrite fmap_app, fmap_cons in Hn. cbn [fst] in Hn.
  apply NoDup_app in Hn as (Hnda & Hdis & [Hnb Hndb]%NoDup_cons).
  apply seg_app in Hs as [Hsa [Hnode Hsb]]. cbn [first] in *.
  destruct (upd_final_opt h a _ (first b None) Hnda Hsa) as (h1 & E1 & Hsa1 & Hf1).
  assert (Hab : forall p, p ∈ b.*1 -> p ∉ a.*1).
  { intros p Hp Hp'. apply (Hdis p Hp'). by right. }
  assert (Hna : node ∉ a.*1). { intros Hx. apply (Hdis _ Hx). by left. }
  apply (seg_frame h h1 a.*1) in Hsb; [|done|done].
  destruct (upd_first_opt h1 _ b (final a None) Hndb Hsb) as (h2 & E2 & Hsb2 & Hf2).
  exists h1, h2. do 3 (split; [done|]). split.
  { rewrite fmap_app. apply NoDup_app. split; [done|]. split; [|done].
    intros p Hp Hp'. by apply (Hab p). }
  assert (Hd : frame [node] h2 (delete node h2)) by apply frame_delete. split.
  - apply seg_app. split.
    + eapply (seg_frame h2); [exact Hd| |].
      { intros p Hp Hp'. by apply list_elem_of_singleton in Hp' as ->. }
      eapply (seg_frame h1 h2 b.*1); [done| |done]. intros p Hp Hp'. by apply (Hab p).
    + eapply (seg_frame h2); [exact Hd| |done].
      intros p Hp Hp'. by apply list_elem_of_singleton in Hp' as ->.
  - eapply frame_mono; [eapply frame_trans; [eapply frame_trans; [exact Hf1|exact Hf2]|exact Hd]|].
    intros q. rewrite fmap_app, fmap_cons, !elem_of_app, !elem_of_cons, elem_of_nil. cbn. tauto.
Qed.

(** ** The operations on well-formed lists *)

Definition small nodes : Prop := Z.of_nat (length nodes) + 1 < 2 ^ 64.

Lemma ends_app a b : first (a ++ b) None = first a (first b None) /\
  final (a ++ b) None = final b (final a None).
Proof. split; [apply first_app|apply final_app]. Qed.

Lemma first_cons_any b x : b <> [] -> first b x = first b None.
Proof. by destruct b as [|[??]?]. Qed.

Lemma final_cons_any b x : b <> [] -> final b x = final b None.
Proof. by destruct b as [|[??]?]. Qed.

Lemma wf_insert h' l a b node v n :
  NoDup (a ++ (node, v) :: b).*1 -> seg h' None (a ++ (node, v) :: b) None ->
  n = Z.of_nat (length (a ++ b)) -> small (a ++ b) ->
  is_list h' (with_ends l (first a (Some node)) (final b (Some node)) (u64 (n + 1)))
    (a ++ (node, v) :: b).
Proof.
  intros Hn Hs -> Hsm. split; [done|done|..]; cbn [with_ends head tail len].
  - by rewrite first_app.
  - by rewrite final_app.
  - unfold small in Hsm. rewrite wrapu_small by lia. rewrite !length_app in *. cbn [length]. lia.
Qed.

Lemma empty_nodes h l nodes : is_list h l nodes -> (len l =? 0) = bool_decide (nodes = []).
Proof. intros Hl. rewrite (il_len _ _ _ Hl). by destruct nodes. Qed.

Lemma listAddNodeHead_spec h l nodes node v :
  is_list h l nodes -> small nodes -> h !! node = None ->
  exists h' l', listAddNodeHead h l node v = Some (h', l') /\ is_list h' l' ((node, v) :: nodes) /\
    frame (nodes.*1 ++ [node]) h h' /\ dup l' = dup l /\ free l' = free l /\ match_ l' = match_ l.
Proof.
  intros Hl Hsm Hfr. destruct (link_between h [] nodes node v) as (h1 & h2 & E1 & E2 & Hn & Hs & Hf);
    [apply Hl|apply Hl|done|].
  pose proof (wf_insert h2 l [] nodes node v (len l) Hn Hs (il_len _ _ _ Hl) Hsm) as Hw.
  cbn [first final app] in *. simplify_eq. unfold listAddNodeHead.
  rewrite (empty_nodes _ _ _ Hl), (il_head _ _ _ Hl).
  case_bool_decide as Hemp.
  - subst nodes. cbn [first] in E2. simplify_eq. do 2 eexists. split; [done|]. done.
  - destruct nodes as [|[q w] nodes]; [done|]. cbn [first] in *. mred. rewrite E2. mred.
    do 2 eexists. split; [done|]. rewrite (il_tail _ _ _ Hl). done.
Qed.

Lemma listAddNodeTail_spec h l nodes node v :
  is_list h l nodes -> small nodes -> h !! node = None ->
  exists h' l', listAddNodeTail h l node v = Some (h', l') /\ is_list h' l' (nodes ++ [(node, v)]) /\
    frame (nodes.*1 ++ [node]) h h' /\ dup l' = dup l /\ free l' = free l /\ match_ l' = match_ l.
Proof.
  intros Hl Hsm Hfr. destruct (link_between h nodes [] node v) as (h1 & h2 & E1 & E2 & Hn & Hs & Hf);
    [rewrite app_nil_r; apply Hl..|done|].
  pose proof (wf_insert h2 l nodes [] node v (len l) Hn Hs) as Hw.
  rewrite app_nil_r in *. specialize (Hw (il_len _ _ _ Hl) Hsm).
  cbn [first final] in *. simplify_eq. unfold listAddNodeTail.
  rewrite (empty_nodes _ _ _ Hl), (il_tail _ _ _ Hl).
  case_bool_decide as Hemp.
  - subst nodes. cbn [first final] in *. simplify_eq. do 2 eexists. split; [done|]. done.
  - rewrite (first_cons_any nodes) in Hw by done. rewrite (il_head _ _ _ Hl).
    destruct (final nodes None) as [q|] eqn:Eq.
    2:{ exfalso. destruct (upd_final h None nodes None None) as (? & ? & ? & _); [apply Hl..|done|].
        congruence. }
    mred. rewrite E1. mred. do 2 eexists. split; [done|]. done.
Qed.

Lemma first_is a p v b : NoDup (a ++ (p, v) :: b).*1 ->
  bool_decide (first (a ++ (p, v) :: b) None = Some p) = bool_decide (a = []).
Proof.
  intros Hn. apply bool_decide_ext. destruct a as [|[q w] a]; [done|]. cbn. split; [|done].
  intros [= ->]. cbn in Hn. apply NoDup_cons in Hn as [Hq _]. exfalso. apply Hq.
  rewrite fmap_app. apply elem_of_app. right. by left.
Qed.

Lemma final_in b q x : b <> [] -> final b x = Some q -> q ∈ b.*1.
Proof.
  revert x. induction b as [|[p v] b IH]; intros x Hne E; [done|].
  destruct (decide (b = [])) as [->|Hb]; [cbn in E; simplify_eq; by left|].
  right. by apply (IH (Some p)).
Qed.

Lemma final_is a p v b : NoDup (a ++ (p, v) :: b).*1 ->
  bool_decide (final (a ++ (p, v) :: b) None = Some p) = bool_decide (b = []).
Proof.
  intros Hn. apply bool_decide_ext. rewrite final_app. cbn [final].
  destruct (decide (b = [])) as [->|Hb]; [done|]. split; [|done]. intros E.
  apply final_in in E; [|done]. rewrite fmap_app in Hn.
  apply NoDup_app in Hn as (_ & _ & [Hp _]%NoDup_cons). done.
Qed.

Lemma listInsertNode_spec h l a p w b node v after :
  is_list h l (a ++ (p, w) :: b) -> small (a ++ (p, w) :: b) -> h !! node = None ->
  exists h' l', listInsertNode h l p node v after = Some (h', l') /\
    is_list h' l' (if after : bool then a ++ (p, w) :: (node, v) :: b
                   else a ++ (node, v) :: (p, w) :: b) /\
    frame ((a ++ (p, w) :: b).*1 ++ [node]) h h'.
Proof.
  intros Hl Hsm Hfr. pose proof (il_seg _ _ _ Hl) as Hs. pose proof (il_nodup _ _ _ Hl) as Hn.
  pose proof Hs as [_ [Hp _]]%seg_app. unfold listInsertNode. rewrite Hp. mred. cbn [prev next].
  rewrite (il_head _ _ _ Hl), (il_tail _ _ _ Hl).
  rewrite first_is, final_is by done. destruct after.
  - destruct (link_between h (a ++ [(p, w)]) b node v) as (h1 & h2 & E1 & E2 & Hn' & Hs' & Hf);
      [by rewrite <-app_assoc..|done|].
    pose proof (wf_insert h2 l (a ++ [(p, w)]) b node v (len l) Hn' Hs') as Hw.
    rewrite <-app_assoc in Hw. specialize (Hw (il_len _ _ _ Hl) Hsm).
    rewrite <-!app_assoc in *. rewrite final_app in E1. cbn [final app] in *.
    rewrite E1. mred. rewrite E2. mred. do 2 eexists. split; [done|]. split; [|done].
    rewrite final_app. cbn [final]. rewrite !first_app in *. cbn [first] in *.
    case_bool_decide as Hb; [by subst b|]. by rewrite (final_cons_any b) in Hw |- * by done.
  - destruct (link_between h a ((p, w) :: b) node v) as (h1 & h2 & E1 & E2 & Hn' & Hs' & Hf); [done..|].
    pose proof (wf_insert h2 l a ((p, w) :: b) node v (len l) Hn' Hs' (il_len _ _ _ Hl) Hsm) as Hw.
    cbn [first final] in *. rewrite E1. mred. rewrite E2. mred.
    do 2 eexists. split; [done|]. split; [|done]. rewrite final_app. cbn [final]. rewrite first_app.
    cbn [first]. case_bool_decide as Ha; [by subst a|]. by rewrite (first_cons_any a) in Hw |- * by done.
Qed.

Lemma listDelNode_spec h l a p v b :
  is_list h l (a ++ (p, v) :: b) -> small (a ++ (p, v) :: b) ->
  exists h' l', listDelNode h l p = Some (h', l', if free l then [v] else []) /\
    is_list h' l' (a ++ b) /\ h' !! p = None /\ frame (a ++ (p, v) :: b).*1 h h' /\
    free l' = free l.
Proof.
  intros Hl Hsm.
  destruct (unlink_between h a b p v) as (h1 & h2 & Hp & E1 & E2 & Hn & Hs & Hf); [apply Hl..|].
  unfold listDelNode. rewrite Hp. mred. cbn [prev next value].
  assert (Hhd : head l = first a (Some p)) by (rewrite (il_head _ _ _ Hl), first_app; done).
  assert (Htl : tail l = final b (Some p)) by (rewrite (il_tail _ _ _ Hl), final_app; done).
  assert (Hw : is_list (delete p h2) (with_ends l (first a (first b None)) (final b (final a None))
    (u64 (len l - 1))) (a ++ b)).
  { split; [done|done|..]; cbn [with_ends head tail len].
    - by rewrite first_app.
    - by rewrite final_app.
    - unfold small in Hsm. rewrite (il_len _ _ _ Hl), length_app in *. cbn [length] in *.
      rewrite wrapu_small by lia. rewrite length_app. lia. }
  rewrite Hhd, Htl.
  destruct (decide (a = [])) as [->|Ha].
  - cbn [final first] in *. simplify_eq. destruct (decide (b = [])) as [->|Hb].
    + cbn [final first] in *. simplify_eq. do 2 eexists. split; [done|]. split; [done|].
      split; [apply lookup_delete_eq|done].
    + destruct b as [|[q w] b]; [done|]. cbn [first] in *. mred. rewrite E2. mred. do 2 eexists.
      split; [done|]. split; [done|]. split; [apply lookup_delete_eq|done].
  - destruct (final a None) as [q|] eqn:Eq.
    2:{ exfalso. destruct (upd_final h None a (Some p) None) as (? & ? & ? & _); [| |done|congruence].
        - pose proof (il_nodup _ _ _ Hl) as Hx. rewrite fmap_app in Hx. by apply NoDup_app in Hx as [? _].
        - pose proof (il_seg _ _ _ Hl) as [Hx _]%seg_app. done. }
    rewrite E1. mred. rewrite (first_cons_any a _ Ha) in Hw. rewrite (first_cons_any a _ Ha).
    destruct (decide (b = [])) as [->|Hb].
    + cbn [final first] in *. simplify_eq. mred. do 2 eexists. split; [done|]. split; [done|].
      split; [apply lookup_delete_eq|done].
    + rewrite (final_cons_any b _ Hb) in Hw. rewrite (final_cons_any b _ Hb).
      destruct b as [|[r w] b]; [done|]. cbn [first] in *. rewrite E2. mred. do 2 eexists.
      split; [done|]. split; [done|]. split; [apply lookup_delete_eq|done].
Qed.

Lemma listRotate_spec h l nodes :
  is_list h l nodes ->
  exists h' l', listRotate h l = Some (h', l') /\
    is_list h' l' (match last nodes with Some t => t :: removelast nodes | None => [] end) /\
    frame nodes.*1 h h'.
Proof.
  intros Hl. unfold listRotate. pose proof (il_len _ _ _ Hl) as Hlen.
  destruct (Z.leb_spec (len l) 1) as [Hle|Hgt].
  { exists h, l. split; [done|]. split; [|done].
    destruct nodes as [|x [|y nodes]]; [done|done|cbn in Hlen; lia]. }
  destruct (exists_last (l := nodes)) as (m & [t v] & ->); [by intros ->; cbn in Hlen; lia|].
  rewrite length_app in Hlen. cbn [length] in Hlen.
  assert (Hm : m <> []) by (intros ->; cbn in Hlen; lia).
  pose proof (il_nodup _ _ _ Hl) as Hn. rewrite fmap_app in Hn.
  apply NoDup_app in Hn as (Hnm & Hdis & _).
  pose proof (il_seg _ _ _ Hl) as [Hsm [Ht _]]%seg_app. cbn [first] in *.
  rewrite (il_tail _ _ _ Hl), final_app, (il_head _ _ _ Hl), first_app, (first_cons_any m) by done.
  cbn [final first]. mred. rewrite Ht. mred. cbn [prev].
  destruct (upd_final h None m _ None Hnm Hsm Hm) as (nt & h1 & Ent & Hnt & E1 & Hs1 & Hf1).
  rewrite Ent. mred. rewrite E1. mred.
  destruct (upd_first h1 None m None (Some t) Hnm Hs1 Hm) as (hd & h2 & Ehd & Hhd & E2 & Hs2 & Hf2).
  rewrite Ehd. mred. rewrite E2. mred.
  assert (Htm : t ∉ m.*1). { intros Hx. apply (Hdis _ Hx). by left. }
  assert (Ht2 : h2 !! t = h !! t).
  { rewrite Hf2, Hf1; [done|..]; by intros ->%list_elem_of_singleton. }
  unfold set_prev, set_next. rewrite Ht2, Ht. mred. rewrite lookup_insert_eq. mred.
  cbn [prev next value]. rewrite insert_insert_eq.
  do 2 eexists. split; [done|]. rewrite last_snoc, removelast_last. split.
  - split; cbn [with_ends head tail len].
    + cbn. apply NoDup_cons. done.
    + cbn [seg]. split; [by rewrite lookup_insert_eq, Ehd|].
      eapply seg_frame; [apply frame_insert| |done]. by intros q Hq ->%list_elem_of_singleton.
    + done.
    + cbn [final]. rewrite (final_cons_any m) by done. done.
    + cbn [length]. lia.
  - intros q Hq. rewrite fmap_app in Hq. apply not_elem_of_app in Hq as [Hqm Hqt].
    cbn in Hqt. apply not_elem_of_cons in Hqt as [Hqt _].
    rewrite lookup_insert_ne by done. rewrite Hf2, Hf1; [done|..]; by intros ->%list_elem_of_singleton.
Qed.

Lemma listJoin_spec h l o nodes others :
  is_list h l nodes -> is_list h o others -> (forall p, p ∈ nodes.*1 -> p ∉ others.*1) ->
  small (nodes ++ others) ->
  exists h' l' o', listJoin h l o = Some (h', l', o') /\ is_list h' l' (nodes ++ others) /\
    is_list h' o' [] /\ frame ((nodes ++ others).*1) h h'.
Proof.
  intros Hl Ho Hdis Hsm. unfold listJoin. rewrite (il_head _ _ _ Ho), (il_tail _ _ _ Hl).
  destruct (upd_first_opt h None others (final nodes None)) as (h1 & -> & Hs1 & Hf1); [apply Ho..|]. mred.
  assert (Hsl : seg h1 None nodes None) by (eapply seg_frame; [exact Hf1|exact Hdis|apply Hl]).
  destruct (upd_final_opt h1 nodes None (first others None)) as (h2 & E2 & Hs2 & Hf2); [apply Hl|done|].
  assert (Hso : seg h2 (final nodes None) others None).
  { eapply seg_frame; [exact Hf2| |done]. intros p Hp Hp'. by apply (Hdis p). }
  assert (Hhd : head l = first nodes None) by apply Hl.
  assert (Htl : tail o = final others None) by apply Ho.
  rewrite Hhd, Htl.
  assert (Hok : is_list h2 (with_ends l (first nodes (first others None))
     (final others (final nodes None)) (u64 (len l + len o))) (nodes ++ others)).
  { split; cbn [with_ends head tail len].
    - rewrite fmap_app. apply NoDup_app. split; [apply Hl|]. split; [done|apply Ho].
    - by apply seg_app.
    - by rewrite first_app.
    - by rewrite final_app.
    - unfold small in Hsm. rewrite (il_len _ _ _ Hl), (il_len _ _ _ Ho), length_app in *.
      rewrite wrapu_small by lia. lia. }
  assert (Hf : frame ((nodes ++ others).*1) h h2).
  { eapply frame_mono; [eapply frame_trans; [exact Hf1|exact Hf2]|].
    intros q. rewrite fmap_app, !elem_of_app. tauto. }
  assert (Hoe : forall h', is_list h' (with_ends o None None 0) []) by (intros; split; done || constructor).
  destruct (decide (nodes = [])) as [->|Hne].
  - cbn [final first] in *. simplify_eq. mred. do 3 eexists. split; [done|]. split; [|done].
    by destruct (final others None).
  - rewrite (first_cons_any nodes) in Hok by done.
    destruct (final nodes None) as [q|] eqn:Eq.
    2:{ exfalso. destruct (upd_final h None nodes None None) as (? & ? & ? & _); [apply Hl..|done|].
        congruence. }
    rewrite E2. mred. do 3 eexists. split; [done|]. split; [|done].
    destruct (decide (others = [])) as [->|Hne']; [done|].
    rewrite (final_cons_any others) in Hok by done.
    destruct (final others None) as [r|] eqn:Er; [done|].
    exfalso. destruct (upd_final h None others None None) as (? & ? & ? & _); [apply Ho..|done|].
    congruence.
Qed.

(** *** Iteration *)

Lemma seg_size h pv nodes nx : NoDup nodes.*1 -> seg h pv nodes nx -> (length nodes <= size h)%nat.
Proof.
  intros Hn Hs. rewrite <-(length_fmap fst). rewrite <-(size_list_to_set (C := gset ptr) nodes.*1) by done.
  rewrite <-size_dom. apply subseteq_size. intros p Hp. apply elem_of_list_to_set in Hp.
  apply elem_of_dom. clear Hn. revert pv Hs. induction nodes as [|[q v] nodes IH]; intros pv Hs.
  - by apply elem_of_nil in Hp.
  - destruct Hs as [Hq Hs]. cbn in Hp. apply elem_of_cons in Hp as [->|Hp]; [by eexists|by eapply IH].
Qed.

Lemma listNext_head h pv p v nodes :
  seg h pv ((p, v) :: nodes) None ->
  listNext h (ListIter (Some p) AL_START_HEAD) =
    Some (ListIter (first nodes None) AL_START_HEAD, Some p).
Proof. intros [Hp _]. unfold listNext. cbn [iter_next iter_direction]. rewrite Hp. done. Qed.

Definition key_match l (key v : V) : bool :=
  match match_ l with Some m => m v key | None => bool_decide (key = v) end.

Lemma listSearchKey_loop_spec fuel h l pv nodes key :
  seg h pv nodes None -> (length nodes < fuel)%nat ->
  listSearchKey_loop fuel h l (ListIter (first nodes None) AL_START_HEAD) key =
    Some (fst <$> List.find (fun n => key_match l key (snd n)) nodes).
Proof.
  revert pv nodes. induction fuel as [|fuel IH]; intros pv nodes Hs Hf; [lia|].
  destruct nodes as [|[p v] nodes]; [done|]. cbn [listSearchKey_loop first].
  rewrite (listNext_head _ _ _ _ _ Hs). mred. destruct Hs as [Hp Hs]. rewrite Hp. mred.
  cbn [value List.find snd]. unfold key_match at 1.
  destruct (match match_ l with Some m => m v key | None => bool_decide (key = v) end); [done|].
  apply (IH (Some p)); [done|]. cbn in Hf. lia.
Qed.

Lemma index_fw_spec h pv nodes i :
  seg h pv nodes None ->
  listIndex_loop i h true (first nodes None) = Some (fst <$> nodes !! i).
Proof.
  revert pv nodes. induction i as [|i IH]; intros pv nodes Hs; destruct nodes as [|[p v] nodes]; try done.
  destruct Hs as [Hp Hs]. cbn [first listIndex_loop]. rewrite Hp. mred. cbn [next]. by apply (IH (Some p)).
Qed.

Lemma index_bw_spec h nodes nx i :
  seg h None nodes nx ->
  listIndex_loop i h false (final nodes None) = Some (fst <$> reverse nodes !! i).
Proof.
  revert nodes nx. induction i as [|i IH]; intros nodes nx Hs;
    (destruct (decide (nodes = [])) as [->|Hne]; [done|]);
    destruct (exists_last Hne) as (m & [p v] & ->); rewrite final_app, reverse_snoc; cbn [final]; [done|].
  apply seg_app in Hs as [Hm [Hp _]]. cbn [listIndex_loop]. rewrite Hp. mred. cbn [prev].
  by eapply IH.
Qed.

Lemma delete_if_spec fuel f h l a b :
  is_list h l (a ++ b) -> small (a ++ b) -> (length b < fuel)%nat ->
  exists h' l', delete_if fuel f h l (ListIter (first b None) AL_START_HEAD) = Some (h', l') /\
    is_list h' l' (a ++ List.filter (fun n => negb (f (snd n))) b) /\ frame (a ++ b).*1 h h'.
Proof.
  revert h l a b. induction fuel as [|fuel IH]; intros h l a b Hl Hsm Hf; [lia|].
  destruct b as [|[p v] b].
  { exists h, l. cbn. split; [done|]. split; [by rewrite app_nil_r in *|done]. }
  pose proof (il_seg _ _ _ Hl) as [_ Hs]%seg_app. cbn [delete_if first].
  rewrite (listNext_head _ _ _ _ _ Hs). mred. destruct Hs as [Hp Hs]. rewrite Hp. mred.
  cbn [value List.filter snd]. cbn [length] in Hf. destruct (f v); cbn [negb].
  - destruct (listDelNode_spec h l a p v b Hl Hsm) as (h1 & l1 & -> & Hl1 & Hp1 & Hf1 & _). mred.
    destruct (IH h1 l1 a b Hl1) as (h2 & l2 & E & Hl2 & Hf2); [|lia|].
    { unfold small in *. rewrite length_app in *. cbn [length] in Hsm. lia. }
    exists h2, l2. split; [exact E|]. split; [done|].
    eapply frame_mono; [eapply frame_trans; [exact Hf1|exact Hf2]|].
    intros q. rewrite !fmap_app, !elem_of_app, fmap_cons, elem_of_cons. tauto.
  - destruct (IH h l (a ++ [(p, v)]) b) as (h2 & l2 & E & Hl2 & Hf2);
      [by rewrite <-app_assoc..|lia|].
    rewrite <-app_assoc in *. eauto.
Qed.

Lemma listEmpty_loop_spec h pv nodes freed :
  NoDup nodes.*1 -> seg h pv nodes None ->
  exists h', listEmpty_loop (length nodes) h (first nodes None) freed =
      Some (h', freed ++ vals nodes) /\
    frame nodes.*1 h h' /\ forall p, p ∈ nodes.*1 -> h' !! p = None.
Proof.
  revert h pv freed. induction nodes as [|[p v] nodes IH]; intros h pv freed Hn Hs.
  { exists h. cbn. rewrite app_nil_r. split; [done|]. split; [done|]. by intros p Hp%elem_of_nil. }
  destruct Hs as [Hp Hs]. cbn in Hn. apply NoDup_cons in Hn as [Hpn Hn].
  cbn [length listEmpty_loop first]. mred. rewrite Hp. mred. cbn [next value].
  destruct (IH (delete p h) (Some p) (freed ++ [v]) Hn) as (h' & E & Hf & Hd).
  { eapply seg_frame; [apply frame_delete| |done]. by intros q Hq ->%list_elem_of_singleton. }
  exists h'. split; [rewrite E; cbn; by rewrite <-app_assoc|]. split.
  - intros q Hq. cbn in Hq. apply not_elem_of_cons in Hq as [Hqp Hq]. rewrite Hf by done.
    by apply lookup_delete_ne.
  - intros q Hq. cbn in Hq. apply elem_of_cons in Hq as [->|Hq]; [|by apply Hd].
    rewrite Hf by done. apply lookup_delete_eq.
Qed.

Lemma listEmpty_spec h l nodes :
  is_list h l nodes ->
  exists h' l', listEmpty h l = Some (h', l', if free l then vals nodes else []) /\
    is_list h' l' [] /\ frame nodes.*1 h h' /\ (forall p, p ∈ nodes.*1 -> h' !! p = None).
Proof.
  intros Hl. unfold listEmpty. rewrite (il_len _ _ _ Hl), Nat2Z.id, (il_head _ _ _ Hl).
  destruct (listEmpty_loop_spec h None nodes []) as (h' & -> & Hf & Hd); [apply Hl..|]. mred.
  do 2 eexists. split; [done|]. split; [split; done || constructor|done].
Qed.

(** *** Copying *)

Definition dup_value l (v : V) : option V :=
  match dup l with Some f => f v | None => Some v end.

Lemma fresh_disjoint h0 pv b nx (ps : list ptr) :
  seg h0 pv b nx -> (forall p, p ∈ ps -> h0 !! p = None) -> forall p, p ∈ b.*1 -> p ∉ ps.
Proof. intros Hs Hd p Hp Hp'. by apply (seg_fresh _ _ _ _ _ Hs (Hd p Hp')). Qed.

Lemma listDup_loop_spec fuel h0 h pv b copy cn addrs :
  seg h0 pv b None -> is_list h copy cn -> frame cn.*1 h0 h ->
  (forall p, p ∈ cn.*1 ++ addrs -> h0 !! p = None) -> NoDup (cn.*1 ++ addrs) ->
  (length b < fuel)%nat -> (length b <= length addrs)%nat -> small (cn ++ b) ->
  match mapM (dup_value copy) (vals b) with
  | Some vs => exists h' copy',
      listDup_loop fuel h (ListIter (first b None) AL_START_HEAD) copy addrs = Some (h', Some copy') /\
      is_list h' copy' (cn ++ zip addrs vs) /\ frame (cn.*1 ++ addrs) h0 h'
  | None => listDup_loop fuel h (ListIter (first b None) AL_START_HEAD) copy addrs = Some (h0, None)
  end.
Proof.
  revert h pv b copy cn addrs.
  induction fuel as [|fuel IH]; intros h pv b copy cn addrs Hs Hc Hf Hnone Hnd Hfu Hla Hsm; [lia|].
  destruct b as [|[p v] b].
  { cbn. do 2 eexists. split; [done|]. rewrite zip_with_nil_r, app_nil_r. split; [done|].
    eapply frame_mono; [exact Hf|]. intros q. rewrite elem_of_app. tauto. }
  assert (Hsh : seg h pv ((p, v) :: b) None).
  { eapply seg_frame; [exact Hf| |exact Hs]. eapply fresh_disjoint; [exact Hs|].
    intros q Hq. apply Hnone, elem_of_app. by left. }
  cbn [listDup_loop first]. rewrite (listNext_head _ _ _ _ _ Hsh). mred.
  destruct Hsh as [Hp _]. rewrite Hp. mred. cbn [value].
  change (vals ((p, v) :: b)) with (v :: vals b). cbn [mapM].
  change (match dup copy with Some f => f v | None => Some v end) with (dup_value copy v).
  destruct (dup_value copy v) as [v'|]; mred.
  2:{ destruct (listEmpty_spec h copy cn Hc) as (h' & l' & -> & _ & Hf' & Hd). mred.
      do 2 f_equal. apply map_eq. intros q. destruct (decide (q ∈ cn.*1)) as [Hq|Hq].
      - rewrite Hd by done. symmetry. apply Hnone, elem_of_app. by left.
      - by rewrite Hf', Hf by done. }
  destruct addrs as [|a addrs]; [cbn in Hla; lia|].
  assert (Ha : h !! a = None).
  { pose proof Hnd as (_ & Hdis & _)%NoDup_app. rewrite Hf.
    - apply Hnone, elem_of_app. right. by left.
    - intros Hx. apply (Hdis _ Hx). by left. }
  destruct (listAddNodeTail_spec h copy cn a v' Hc) as (h1 & c1 & -> & Hc1 & Hf1 & Hdup & Hfree & _);
    [|done|].
  { unfold small in *. rewrite length_app in Hsm. lia. }
  mred. destruct Hs as [_ Hs].
  specialize (IH h1 (Some p) b c1 (cn ++ [(a, v')]) addrs Hs Hc1).
  rewrite fmap_app in IH. cbn [fmap list_fmap fst] in IH. rewrite <-app_assoc in IH. cbn [app] in IH.
  cbn [length] in *.
  assert (Hdv : dup_value c1 = dup_value copy) by (unfold dup_value; by rewrite Hdup).
  rewrite Hdv in IH. cbn [next].
  lapply IH; [clear IH; intros IH|].
  2:{ eapply frame_mono; [eapply frame_trans; [exact Hf|exact Hf1]|].
      intros q. rewrite !elem_of_app. tauto. }
  specialize (IH Hnone Hnd ltac:(lia) ltac:(lia)).
  lapply IH; [clear IH; intros IH|].
  2:{ unfold small in *. rewrite <-app_assoc. rewrite !length_app in *. cbn [length] in *. lia. }
  destruct (mapM (dup_value copy) (vals b)) as [vs|]; mred; [|exact IH].
  destruct IH as (h' & copy' & E & Hl' & Hf'). exists h', copy'. split; [exact E|].
  rewrite <-app_assoc in Hl'. done.
Qed.

Lemma listDup_spec h orig nodes addrs :
  is_list h orig nodes -> small nodes -> NoDup addrs -> (forall p, p ∈ addrs -> h !! p = None) ->
  (length nodes <= length addrs)%nat ->
  match mapM (dup_value orig) (vals nodes) with
  | Some vs => exists h' copy, listDup h orig addrs = Some (h', Some copy) /\
      is_list h' copy (zip addrs vs) /\ is_list h' orig nodes /\ frame addrs h h'
  | None => listDup h orig addrs = Some (h, None)
  end.
Proof.
  intros Hl Hsm Hnd Hnone Hlen. unfold listDup, listRewind. rewrite (il_head _ _ _ Hl).
  pose proof (listDup_loop_spec (S (size h)) h h None nodes
    (List None None (dup orig) (free orig) (match_ orig) 0) [] addrs (il_seg _ _ _ Hl)) as H.
  change (dup_value (List None None (dup orig) (free orig) (match_ orig) 0)) with (dup_value orig) in H.
  cbn [fmap list_fmap app] in H.
  specialize (H ltac:(split; done || constructor) ltac:(done) Hnone Hnd).
  specialize (H ltac:(apply Nat.lt_succ_r; eapply seg_size; apply Hl) Hlen Hsm).
  destruct (mapM (dup_value orig) (vals nodes)) as [vs|]; [|exact H].
  destruct H as (h' & copy & E & Hc & Hf). exists h', copy. split; [done|]. split; [done|].
  split; [|done]. destruct Hl as [Hn Hs Hh Ht Hle]. split; try done.
  eapply seg_frame; [exact Hf| |exact Hs]. by eapply fresh_disjoint.
Qed.

(** C38: the operations of adlist.c on a well-formed list. Every structural update succeeds
    without touching [NULL] or freed nodes and produces the well-formed list expected: a node
    is added at the head, at the tail, before or after a given node, removed (with its value
    passed to [free] when set), the tail is rotated to the head, the list is emptied, and
    another list is appended and left empty; nodes that do not belong to the lists involved
    are not modified. [listIndex] counts from the head or, with negative indexes, from the
    tail; [listSearchKey] returns the first node that matches (by the [match] method or by
    equality); deleting the current node while iterating removes exactly the selected nodes,
    in one pass; [listDup] builds a list of the duplicated values at the new addresses and
    leaves the original as it was, and when duplicating a value fails the heap is unchanged. *)
Theorem adlist_refines h l nodes node v addrs :
  is_list h l nodes -> small nodes -> h !! node = None ->
  NoDup addrs -> (forall p, p ∈ addrs -> h !! p = None) -> (length nodes <= length addrs)%nat ->
  (exists h' l', listAddNodeHead h l node v = Some (h', l') /\
     is_list h' l' ((node, v) :: nodes) /\ frame (nodes.*1 ++ [node]) h h') /\
  (exists h' l', listAddNodeTail h l node v = Some (h', l') /\
     is_list h' l' (nodes ++ [(node, v)]) /\ frame (nodes.*1 ++ [node]) h h') /\
  (forall a p w b after, nodes = a ++ (p, w) :: b ->
     exists h' l', listInsertNode h l p node v after = Some (h', l') /\
       is_list h' l' (if after : bool then a ++ (p, w) :: (node, v) :: b
                      else a ++ (node, v) :: (p, w) :: b) /\
       frame (nodes.*1 ++ [node]) h h') /\
  (forall a p w b, nodes = a ++ (p, w) :: b ->
     exists h' l', listDelNode h l p = Some (h', l', if free l then [w] else []) /\
       is_list h' l' (a ++ b) /\ h' !! p = None /\ frame nodes.*1 h h') /\
  (exists h' l', listRotate h l = Some (h', l') /\
     is_list h' l' (match last nodes with Some t => t :: removelast nodes | None => [] end) /\
     frame nodes.*1 h h') /\
  (exists h' l', listEmpty h l = Some (h', l', if free l then vals nodes else []) /\
     is_list h' l' [] /\ frame nodes.*1 h h' /\ (forall p, p ∈ nodes.*1 -> h' !! p = None)) /\
  (forall o others, is_list h o others -> (forall p, p ∈ nodes.*1 -> p ∉ others.*1) ->
     small (nodes ++ others) ->
     exists h' l' o', listJoin h l o = Some (h', l', o') /\ is_list h' l' (nodes ++ others) /\
       is_list h' o' [] /\ frame ((nodes ++ others).*1) h h') /\
  (forall i, 0 <= i -> listIndex h l i = Some (fst <$> nodes !! Z.to_nat i) /\
     listIndex h l (- i - 1) = Some (fst <$> reverse nodes !! Z.to_nat i)) /\
  (forall key, listSearchKey h l key =
     Some (fst <$> List.find (fun n => key_match l key (snd n)) nodes)) /\
  (forall f, exists h' l', delete_if (S (length nodes)) f h l (listRewind l) = Some (h', l') /\
     is_list h' l' (List.filter (fun n => negb (f (snd n))) nodes) /\ frame nodes.*1 h h') /\
  match mapM (dup_value l) (vals nodes) with
  | Some vs => exists h' copy, listDup h l addrs = Some (h', Some copy) /\
      is_list h' copy (zip addrs vs) /\ is_list h' l nodes /\ frame addrs h h'
  | None => listDup h l addrs = Some (h, None)
  end.
Proof.
  intros Hl Hsm Hfr Hnd Hnone Hlen. split_and!.
  - destruct (listAddNodeHead_spec h l nodes node v Hl Hsm Hfr) as (h' & l' & ? & ? & ? & _). eauto.
  - destruct (listAddNodeTail_spec h l nodes node v Hl Hsm Hfr) as (h' & l' & ? & ? & ? & _). eauto.
  - intros a p w b after ->. by apply listInsertNode_spec.
  - intros a p w b ->. destruct (listDelNode_spec h l a p w b Hl Hsm) as (h' & l' & ? & ? & ? & ? & _).
    eauto 6.
  - by apply listRotate_spec.
  - by apply listEmpty_spec.
  - intros o others Ho Hdis Hsm'. by apply listJoin_spec.
  - intros i Hi. unfold listIndex. split.
    + destruct (Z.ltb_spec i 0); [lia|]. rewrite (il_head _ _ _ Hl). eapply index_fw_spec, Hl.
    + destruct (Z.ltb_spec (- i - 1) 0); [|lia]. rewrite (il_tail _ _ _ Hl).
      replace (- (- i - 1) - 1) with i by lia. eapply index_bw_spec, Hl.
  - intros key. unfold listSearchKey, listRewind. rewrite (il_head _ _ _ Hl).
    eapply listSearchKey_loop_spec; [apply Hl|]. apply Nat.lt_succ_r. eapply seg_size; apply Hl.
  - intros f. unfold listRewind. rewrite (il_head _ _ _ Hl).
    apply (delete_if_spec (S (length nodes)) f h l [] nodes); [done|done|lia].
  - by apply listDup_spec.
Qed.

End adlist.

(** ** Witnesses *)

Arguments listNode : clear implicits.
Arguments list_t : clear implicits.

Definition example_heap : gmap ptr (listNode Z) :=
  <[1%positive := ListNode None (Some 2%positive) 10]>
  (<[2%positive := ListNode (Some 1%positive) None 20]> ∅).
Definition example_list : list_t Z :=
  List (Some 1%positive) (Some 2%positive) None true None 2.
Definition example_nodes : list (ptr * Z) := [(1%positive, 10); (2%positive, 20)].

Lemma example_is_list : is_list example_heap example_list example_nodes.
Proof. by split; [apply (bool_decide_unpack _); vm_compute|..]. Qed.

Lemma adlist_refines_witness :
  (exists h' l', listAddNodeHead example_heap example_list 3%positive 30 = Some (h', l') /\
    is_list h' l' ((3%positive, 30) :: example_nodes)) /\
  listIndex example_heap example_list (-1) = Some (Some 2%positive) /\
  listSearchKey example_heap example_list 20 = Some (Some 2%positive) /\
  exists h' copy, listDup example_heap example_list [5%positive; 6%positive] = Some (h', Some copy) /\
    is_list h' copy [(5%positive, 10); (6%positive, 20)].
Proof.
  destruct (adlist_refines example_heap example_list example_nodes 3%positive 30 [5%positive; 6%positive])
    as ((h1 & l1 & Ha & Hl & _) & _ & _ & _ & _ & _ & _ & Hi & Hs & _ & h' & copy & Hd & Hc & _).
  - apply example_is_list.
  - reflexivity.
  - reflexivity.
  - apply (bool_decide_unpack _). vm_compute. exact I.
  - intros a Ha. apply elem_of_cons in Ha as [->|Ha]; [reflexivity|].
    apply elem_of_cons in Ha as [->|Ha]; [reflexivity|]. by apply elem_of_nil in Ha.
  - cbn. lia.
  - split; [eauto|]. split; [apply (Hi 0); lia|]. split; [apply (Hs 20)|eauto].
Defined.
