(* ===== verification/Sds.v ===== *)
(** * sds.c: dynamic strings

    [sdshdr] models an allocated sds string: the type in its flags, the [len] and
    [alloc] fields of the header, which are truncated to the width of the type, and
    the bytes of the buffer, terminator and free space included. Writes outside the
    buffer are [None]. [sds_ok s c] says that [s] is well-formed and holds the bytes
    [c]; the other components work with these bytes ([sds]). *)

From S2P Require Import Prelude.

Definition sds := list Z.

(** [memcmp] on the first [n] bytes; the C library fixes only the sign, here it is
    the difference of the first two bytes that differ. *)
Fixpoint memcmp (s1 s2 : list Z) (n : nat) : Z :=
  match n, s1, s2 with
  | S n, a :: s1, b :: s2 => if a =? b then memcmp s1 s2 n else a - b
  | _, _, _ => 0
  end.

Definition sdslen (s : sds) : Z := Z.of_nat (length s).

Definition sdscmp (s1 s2 : sds) : Z :=
  let l1 := sdslen s1 in
  let l2 := sdslen s2 in
  let minlen := if l1 <? l2 then l1 else l2 in
  let cmp := memcmp s1 s2 (Z.to_nat minlen) in
  if cmp =? 0 then s32 (u64 (l1 - l2)) else cmp.

(** ** The order of [sdscmp]

    [lexcmp] is the lexicographic order. [sdscmp] returns the difference of two
    lengths as an [int]: it is this order on strings of less than 2^31 bytes. *)

Definition lexcmp (s1 s2 : sds) : Z :=
  let l1 := sdslen s1 in
  let l2 := sdslen s2 in
  let minlen := if l1 <? l2 then l1 else l2 in
  let cmp := memcmp s1 s2 (Z.to_nat minlen) in
  if cmp =? 0 then l1 - l2 else cmp.

Definition short (s : sds) : Prop := sdslen s < 2 ^ 31.

Lemma wraps_wrapu_wide v w x : 0 <= v <= w -> wraps v (wrapu w x) = wraps v x.
Proof.
  intros H. unfold wraps, wrapu. f_equal.
  rewrite <-(Zplus_mod_idemp_l (x mod _)), <-(Zplus_mod_idemp_l x), Z.mod_mod_divide; [done|].
  exists (2 ^ (w - v)). rewrite <-Z.pow_add_r by lia. f_equal. lia.
Qed.

Lemma sdscmp_short s1 s2 : short s1 -> short s2 -> sdscmp s1 s2 = lexcmp s1 s2.
Proof.
  unfold short, sdscmp, lexcmp, sdslen. intros H1 H2. destruct (memcmp _ _ _ =? 0); [|done].
  rewrite wraps_wrapu_wide by lia. apply wraps_small; lia.
Qed.

Lemma lexcmp_nil_l s : lexcmp [] s = - sdslen s.
Proof. unfold lexcmp. destruct s, (_ <? _); cbn [memcmp Z.to_nat]; rewrite ?Z.eqb_refl; try done; by destruct (Z.to_nat _). Qed.

Lemma lexcmp_nil_r s : lexcmp s [] = sdslen s.
Proof.
  unfold lexcmp. destruct (Z.ltb_spec (sdslen s) (sdslen [])); [unfold sdslen in *; cbn in *; lia|].
  destruct s; [done|]. by destruct (Z.to_nat _); cbn [memcmp]; rewrite Z.eqb_refl, Z.sub_0_r.
Qed.

Lemma lexcmp_cons a s1 b s2 :
  lexcmp (a :: s1) (b :: s2) = if a =? b then lexcmp s1 s2 else a - b.
Proof.
  unfold lexcmp, sdslen. cbn [length]. rewrite !Nat2Z.inj_succ.
  destruct (Z.ltb_spec (Z.succ (Z.of_nat (length s1))) (Z.succ (Z.of_nat (length s2))));
    destruct (Z.ltb_spec (Z.of_nat (length s1)) (Z.of_nat (length s2))); try lia;
    rewrite Z2Nat.inj_succ by lia; cbn [memcmp];
    (destruct (Z.eqb_spec a b); [|destruct (Z.eqb_spec (a - b) 0); lia]);
    (destruct (_ =? 0); [lia|done]).
Qed.

Lemma lexcmp_eq s1 s2 : lexcmp s1 s2 = 0 <-> s1 = s2.
Proof.
  revert s2. induction s1 as [|a s1 IH]; intros [|b s2].
  - done.
  - rewrite lexcmp_nil_l. unfold sdslen. cbn [length]. split; [lia|done].
  - rewrite lexcmp_nil_r. unfold sdslen. cbn [length]. split; [lia|done].
  - rewrite lexcmp_cons. destruct (Z.eqb_spec a b) as [->|].
    + rewrite IH. split; congruence.
    + split; [lia|congruence].
Qed.

Lemma lexcmp_refl s : lexcmp s s = 0.
Proof. by apply lexcmp_eq. Qed.

(** Beyond that length the sign is wrong: a string of 2^31 to 2^32 - 1 bytes is below the empty one. *)
Lemma sdscmp_long s : 2 ^ 31 <= sdslen s < 2 ^ 32 -> sdscmp s [] < 0 /\ 0 < lexcmp s [].
Proof.
  intros H. rewrite lexcmp_nil_r. split; [|lia].
  assert (E : sdscmp s [] = s32 (u64 (sdslen s))).
  { pose proof (lexcmp_nil_r s) as L. unfold sdscmp, lexcmp in *. destruct (memcmp _ _ _ =? 0) eqn:E.
    - by rewrite L.
    - exfalso. apply Z.eqb_neq in E. destruct s; [unfold sdslen in H; cbn [length] in H; lia|]. apply E. by destruct (Z.to_nat _). }
  rewrite E, wrapu_small by (split; [unfold sdslen; lia|clear -H; lia]). unfold wraps. change (2 ^ (32 - 1)) with (2 ^ 31).
  replace (sdslen s + 2 ^ 31) with (sdslen s - 2 ^ 31 + 1 * 2 ^ 32) by lia.
  rewrite Z_mod_plus_full, Z.mod_small by lia. lia.
Qed.

Lemma lexcmp_antisym s1 s2 : lexcmp s1 s2 < 0 <-> 0 < lexcmp s2 s1.
Proof.
  revert s2. induction s1 as [|a s1 IH]; intros [|b s2];
    rewrite ?lexcmp_nil_l, ?lexcmp_nil_r, ?lexcmp_cons; try (unfold sdslen; cbn [length]; lia).
  rewrite (Z.eqb_sym b a). destruct (Z.eqb_spec a b); [apply IH|lia].
Qed.

Lemma lexcmp_trans s1 s2 s3 : lexcmp s1 s2 < 0 -> lexcmp s2 s3 < 0 -> lexcmp s1 s3 < 0.
Proof.
  revert s2 s3. induction s1 as [|a s1 IH]; intros [|b s2] [|c s3];
    rewrite ?lexcmp_nil_l, ?lexcmp_nil_r, ?lexcmp_cons; try (unfold sdslen; cbn [length]; lia).
  destruct (Z.eqb_spec a b), (Z.eqb_spec b c), (Z.eqb_spec a c); try lia. apply IH.
Qed.

(** ** The string header *)

Inductive sdstype := SDS_TYPE_5 | SDS_TYPE_8 | SDS_TYPE_16 | SDS_TYPE_32 | SDS_TYPE_64.

#[global] Instance sdstype_eq_dec : EqDecision sdstype.
Proof. solve_decision. Defined.

Definition type_num (t : sdstype) : Z :=
  match t with SDS_TYPE_5 => 0 | SDS_TYPE_8 => 1 | SDS_TYPE_16 => 2 | SDS_TYPE_32 => 3 | SDS_TYPE_64 => 4 end.

(** The width of the length field (the 5 high bits of the flags for type 5). *)
Definition type_bits (t : sdstype) : Z :=
  match t with SDS_TYPE_5 => 5 | SDS_TYPE_8 => 8 | SDS_TYPE_16 => 16 | SDS_TYPE_32 => 32 | SDS_TYPE_64 => 64 end.

Record sdshdr := Sdshdr { flags : sdstype; len : Z; alloc : Z; buf : list Z }.

Definition sdsHdrSize (t : sdstype) : Z :=
  match t with SDS_TYPE_5 => 1 | SDS_TYPE_8 => 3 | SDS_TYPE_16 => 5 | SDS_TYPE_32 => 9 | SDS_TYPE_64 => 17 end.

Definition sdsReqType (string_size : Z) : sdstype :=
  if string_size <? 2 ^ 5 then SDS_TYPE_5
  else if string_size <? 2 ^ 8 then SDS_TYPE_8
  else if string_size <? 2 ^ 16 then SDS_TYPE_16
  else if string_size <? 2 ^ 32 then SDS_TYPE_32
  else SDS_TYPE_64.

Definition sdsavail (s : sdshdr) : Z :=
  match flags s with
  | SDS_TYPE_5 => 0
  | SDS_TYPE_32 => u32 (alloc s - len s)
  | _ => u64 (alloc s - len s)
  end.

Definition sdssetlen (s : sdshdr) (newlen : Z) : sdshdr :=
  Sdshdr (flags s) (wrapu (type_bits (flags s)) newlen) (alloc s) (buf s).

Definition sdsalloc (s : sdshdr) : Z :=
  match flags s with SDS_TYPE_5 => len s | _ => alloc s end.

Definition sdssetalloc (s : sdshdr) (newlen : Z) : sdshdr :=
  match flags s with
  | SDS_TYPE_5 => s
  | t => Sdshdr t (len s) (wrapu (type_bits t) newlen) (buf s)
  end.

(** [s[i] = ...], [memcpy(s+i,...)] *)
Definition sdswrite (s : sdshdr) (i : Z) (bs : list Z) : option sdshdr :=
  b ← wr (buf s) i bs; Some (Sdshdr (flags s) (len s) (alloc s) b).

Definition SDS_MAX_PREALLOC : Z := 1024 * 1024.

(** Uninitialised memory holds [fill]; [init = None] is the NULL pointer. *)
Definition sdsnewlen (fill : Z) (init : option (list Z)) (initlen : Z) : option sdshdr :=
  let t := sdsReqType initlen in
  let t := if bool_decide (t = SDS_TYPE_5) && (initlen =? 0) then SDS_TYPE_8 else t in
  let mem := replicate (Z.to_nat (initlen + 1)) (match init with None => 0 | Some _ => fill end) in
  let s := Sdshdr t (wrapu (type_bits t) initlen) (wrapu (type_bits t) initlen) mem in
  s ← match init with
      | Some b => if initlen =? 0 then Some s else
                  bs ← rd b 0 initlen; sdswrite s 0 bs
      | None => Some s
      end;
  sdswrite s initlen [0].

Definition sdsempty (fill : Z) : option sdshdr := sdsnewlen fill (Some []) 0.

Definition sdsclear (s : sdshdr) : option sdshdr := sdswrite (sdssetlen s 0) 0 [0].

Definition sdsMakeRoomFor (fill : Z) (s : sdshdr) (addlen : Z) : option sdshdr :=
  let avail := sdsavail s in
  let oldtype := flags s in
  if avail >=? addlen then Some s else
  let l := len s in
  let newlen := u64 (l + addlen) in
  let newlen := if newlen <? SDS_MAX_PREALLOC then u64 (newlen * 2) else u64 (newlen + SDS_MAX_PREALLOC) in
  let t := sdsReqType newlen in
  let t := if bool_decide (t = SDS_TYPE_5) then SDS_TYPE_8 else t in
  s ← (if bool_decide (oldtype = t) then
         Some (Sdshdr t (len s) (alloc s) (zrealloc fill (buf s) (newlen + 1)))
       else
         bs ← rd (buf s) 0 (l + 1);
         s ← sdswrite (Sdshdr t 0 0 (replicate (Z.to_nat (newlen + 1)) fill)) 0 bs;
         Some (sdssetlen s l));
  Some (sdssetalloc s newlen).

Definition sdsRemoveFreeSpace (fill : Z) (s : sdshdr) : option sdshdr :=
  let oldtype := flags s in
  let l := len s in
  let t := sdsReqType l in
  s ← (if bool_decide (oldtype = t) || (type_num t >? type_num SDS_TYPE_8) then
         Some (Sdshdr oldtype (len s) (alloc s) (zrealloc fill (buf s) (l + 1)))
       else
         bs ← rd (buf s) 0 (l + 1);
         s ← sdswrite (Sdshdr t 0 0 (replicate (Z.to_nat (l + 1)) fill)) 0 bs;
         Some (sdssetlen s l));
  Some (sdssetalloc s l).

(** [None] is also a failed [assert]. *)
Definition sdsIncrLen (s : sdshdr) (incr : Z) : option sdshdr :=
  let ok := match flags s with
    | SDS_TYPE_5 => ((incr >? 0) && (len s + incr <? 32)) || ((incr <? 0) && (len s >=? - incr))
    | _ => ((incr >=? 0) && (alloc s - len s >=? incr)) || ((incr <? 0) && (len s >=? - incr))
    end in
  if negb ok then None else
  let s := sdssetlen s (len s + incr) in
  sdswrite s (len s) [0].

Definition sdsgrowzero (fill : Z) (s : sdshdr) (l : Z) : option sdshdr :=
  let curlen := len s in
  if l <=? curlen then Some s else
  s ← sdsMakeRoomFor fill s (l - curlen);
  s ← sdswrite s curlen (replicate (Z.to_nat (l - curlen + 1)) 0);
  Some (sdssetlen s l).

Definition sdscatlen (fill : Z) (s : sdshdr) (t : list Z) (l : Z) : option sdshdr :=
  let curlen := len s in
  s ← sdsMakeRoomFor fill s l;
  bs ← rd t 0 l;
  s ← sdswrite s curlen bs;
  let s := sdssetlen s (u64 (curlen + l)) in
  sdswrite s (u64 (curlen + l)) [0].

Definition sdscpylen (fill : Z) (s : sdshdr) (t : list Z) (l : Z) : option sdshdr :=
  s ← (if sdsalloc s <? l then sdsMakeRoomFor fill s (u64 (l - len s)) else Some s);
  bs ← rd t 0 l;
  s ← sdswrite s 0 bs;
  s ← sdswrite s l [0];
  Some (sdssetlen s l).

(** [strchr(cset, c)]: the terminator of [cset] matches too. *)
Definition strchr (cset : list Z) (c : Z) : bool := existsb (Z.eqb c) cset || (c =? 0).

Fixpoint trim_left (fuel : nat) (b : list Z) (cset : list Z) (sp end_ : Z) : option Z :=
  match fuel with
  | O => None
  | S fuel =>
    if sp <=? end_ then
      c ← rd1 b sp;
      if strchr cset c then trim_left fuel b cset (sp + 1) end_ else Some sp
    else Some sp
  end.

Fixpoint trim_right (fuel : nat) (b : list Z) (cset : list Z) (ep sp : Z) : option Z :=
  match fuel with
  | O => None
  | S fuel =>
    if ep >? sp then
      c ← rd1 b ep;
      if strchr cset c then trim_right fuel b cset (ep - 1) sp else Some ep
    else Some ep
  end.

(** Pointers are offsets in the buffer. *)
Definition sdstrim (s : sdshdr) (cset : list Z) : option sdshdr :=
  let end_ := len s - 1 in
  let fuel := S (S (length (buf s))) in
  sp ← trim_left fuel (buf s) cset 0 end_;
  ep ← trim_right fuel (buf s) cset end_ sp;
  let l := if sp >? ep then 0 else ep - sp + 1 in
  b ← (if sp =? 0 then Some (buf s) else memmove (buf s) 0 sp l);
  s ← sdswrite (Sdshdr (flags s) (len s) (alloc s) b) l [0];
  Some (sdssetlen s l).

Definition sdsrange (s : sdshdr) (start end_ : Z) : option sdshdr :=
  let l := len s in
  if l =? 0 then Some s else
  let start := if start <? 0 then (let x := s32 (u64 (l + start)) in if x <? 0 then 0 else x) else start in
  let end_ := if end_ <? 0 then (let x := s32 (u64 (l + end_)) in if x <? 0 then 0 else x) else end_ in
  let newlen := if start >? end_ then 0 else end_ - start + 1 in
  let '(start, newlen) :=
    if negb (newlen =? 0) then
      if start >=? s32 l then (start, 0)
      else if end_ >=? s32 l then
        (let end_ := s32 (l - 1) in (start, if start >? end_ then 0 else end_ - start + 1))
      else (start, newlen)
    else (0, newlen) in
  b ← (if negb (start =? 0) && negb (newlen =? 0) then memmove (buf s) 0 start newlen else Some (buf s));
  s ← sdswrite (Sdshdr (flags s) (len s) (alloc s) b) newlen [0];
  Some (sdssetlen s newlen).

(** ** Well-formed strings *)

Record sds_ok (s : sdshdr) (c : list Z) : Prop := {
  ok_len : len s = Z.of_nat (length c);
  ok_buf : exists spare, buf s = c ++ 0 :: spare;
  ok_size : flags s <> SDS_TYPE_5 -> Z.of_nat (length (buf s)) = alloc s + 1;
  ok_alloc : sdsalloc s < 2 ^ type_bits (flags s);
}.

Lemma type_bits_bound t : 5 <= type_bits t <= 64.
Proof. destruct t; cbn; lia. Qed.

Lemma sds_ok_len s c : sds_ok s c -> Z.of_nat (length c) <= sdsalloc s.
Proof.
  intros [Hl [sp Hb] Hs Ha]. unfold sdsalloc in *. destruct (flags s); [lia|..]; specialize (Hs ltac:(done));
    rewrite Hb, length_app in Hs; cbn [length] in Hs; lia.
Qed.

Lemma reqtype_fits n : 0 <= n < 2 ^ 64 -> n < 2 ^ type_bits (sdsReqType n).
Proof.
  intros Hn. unfold sdsReqType. repeat case_match; zbool; cbn [type_bits]; lia.
Qed.

Lemma wr_at (a x bs : list Z) off :
  off = Z.of_nat (length a) -> (length bs <= length x)%nat ->
  wr (a ++ x) off bs = Some (a ++ bs ++ drop (length bs) x).
Proof.
  intros -> Hx. apply wr_Some. split; [lia|]. rewrite length_app. split; [lia|].
  rewrite Nat2Z.id, take_app_length. rewrite drop_app_ge by lia. do 3 f_equal. lia.
Qed.

Lemma rd_prefix (a b : list Z) n : n = Z.of_nat (length a) -> rd (a ++ b) 0 n = Some a.
Proof.
  intros ->. apply rd_Some. split; [lia|]. split; [lia|]. rewrite length_app. split; [lia|].
  by rewrite Nat2Z.id, drop_0, take_app_length.
Qed.

Lemma rd_all (a : list Z) n : n = Z.of_nat (length a) -> rd a 0 n = Some a.
Proof. intros ->. pose proof (rd_prefix a [] _ eq_refl) as H. by rewrite app_nil_r in H. Qed.

(** ** The operations *)

Definition fits (n : Z) : Prop := n < 2 ^ 62.

(** The buffer can hold a string of [n] bytes. *)
Definition room s n : Prop :=
  n + 1 <= Z.of_nat (length (buf s)) /\ n < 2 ^ type_bits (flags s) /\
  (flags s <> SDS_TYPE_5 -> Z.of_nat (length (buf s)) = alloc s + 1 /\ alloc s < 2 ^ type_bits (flags s)).

Lemma room_ok s c n : sds_ok s c -> 0 <= n <= sdsalloc s -> room s n.
Proof.
  intros Hs Hn. pose proof (ok_alloc _ _ Hs) as Ha. pose proof (ok_size _ _ Hs) as Hsz.
  destruct (ok_buf _ _ Hs) as [spare Hb]. pose proof (ok_len _ _ Hs) as Hl. unfold room.
  assert (n + 1 <= Z.of_nat (length (buf s))).
  { unfold sdsalloc in *. rewrite Hb, length_app in *. cbn [length] in *.
    destruct (flags s); [lia|..]; specialize (Hsz ltac:(done)); lia. }
  split; [done|]. split; [lia|]. intros Hf. split; [by apply Hsz|].
  unfold sdsalloc in Ha. by destruct (flags s).
Qed.

Lemma room_write s n b : room s n -> length b = length (buf s) -> room (Sdshdr (flags s) (len s) (alloc s) b) n.
Proof. unfold room. cbn. by intros H ->. Qed.

(** Setting the length of a buffer that holds [c] and a terminator. *)
Lemma sdssetlen_ok s c spare :
  room s (Z.of_nat (length c)) -> buf s = c ++ 0 :: spare -> sds_ok (sdssetlen s (Z.of_nat (length c))) c.
Proof.
  intros (H1 & H2 & H3) Hb. unfold sdssetlen. rewrite wrapu_small by lia.
  split; cbn [len buf flags alloc]; [done|by exists spare|apply H3|].
  unfold sdsalloc. cbn [len flags alloc]. destruct (flags s); [done|..]; by apply H3.
Qed.

Lemma write_ok s b c spare :
  room s (Z.of_nat (length c)) -> b = c ++ 0 :: spare -> length b = length (buf s) ->
  sds_ok (sdssetlen (Sdshdr (flags s) (len s) (alloc s) b) (Z.of_nat (length c))) c.
Proof. intros Hr Hb Hl. apply (sdssetlen_ok _ c spare); [by apply room_write|done]. Qed.

Lemma sdsnewlen_spec fill c :
  Z.of_nat (length c) < 2 ^ 62 ->
  exists s, sdsnewlen fill (Some c) (Z.of_nat (length c)) = Some s /\ sds_ok s c.
Proof.
  intros Hc. unfold sdsnewlen. set (n := Z.of_nat (length c)) in *.
  set (t := if bool_decide (sdsReqType n = SDS_TYPE_5) && (n =? 0) then SDS_TYPE_8 else sdsReqType n).
  assert (Hfit : n < 2 ^ type_bits t).
  { unfold t. destruct (Z.eqb_spec n 0) as [->|]; [reflexivity|]. rewrite andb_false_r.
    apply reqtype_fits. lia. }
  rewrite (wrapu_small _ n) by lia. change (match Some c with Some _ => fill | None => 0 end) with fill.
  assert (exists s, (if n =? 0 then Some (Sdshdr t n n (replicate (Z.to_nat (n + 1)) fill))
     else bs ← rd c 0 n; sdswrite (Sdshdr t n n (replicate (Z.to_nat (n + 1)) fill)) 0 bs) = Some s /\
     s = Sdshdr t n n (c ++ [fill])) as (s & -> & ->).
  { destruct (Z.eqb_spec n 0) as [E|E].
    - exists (Sdshdr t n n (c ++ [fill])). split; [|done]. assert (c = []) as -> by (destruct c; [done|cbn in n; lia]).
      by rewrite E.
    - rewrite rd_all by done. mred. unfold sdswrite. cbn [buf].
      rewrite <-(app_nil_l (replicate _ _)). rewrite wr_at; [|done|rewrite length_replicate; lia]. mred.
      eexists. split; [done|]. cbn [app flags len alloc]. f_equal. f_equal.
      rewrite drop_replicate. by replace (Z.to_nat (n + 1) - length c)%nat with 1%nat by lia. }
  mred. unfold sdswrite. cbn [buf flags len alloc]. rewrite wr_at by done. mred. eexists. split; [done|].
  split; cbn [flags len alloc buf].
  - done.
  - by exists [].
  - intros _. rewrite length_app. cbn. lia.
  - unfold sdsalloc. cbn [flags len alloc]. by destruct t.
Qed.

Lemma avail_spec s c : sds_ok s c -> Z.of_nat (length c) < 2 ^ 62 ->
  sdsavail s = sdsalloc s - Z.of_nat (length c) \/ (flags s = SDS_TYPE_5 /\ sdsavail s = 0).
Proof.
  intros Hs Hc. pose proof (sds_ok_len s c Hs). pose proof (ok_alloc _ _ Hs) as Ha. pose proof (ok_len _ _ Hs) as Hl.
  unfold sdsavail, sdsalloc in *. rewrite Hl in *. destruct (flags s); cbn [type_bits] in *; [by right|left..];
    rewrite wrapu_small; lia.
Qed.

Lemma sdsMakeRoomFor_spec fill s c addlen :
  sds_ok s c -> 0 <= addlen -> fits (Z.of_nat (length c) + addlen) ->
  exists s', sdsMakeRoomFor fill s addlen = Some s' /\ sds_ok s' c /\
    Z.of_nat (length c) + addlen <= sdsalloc s' /\ (0 < addlen -> flags s' <> SDS_TYPE_5).
Proof.
  intros Hs Ha Hf. unfold fits in Hf. unfold sdsMakeRoomFor.
  pose proof (sds_ok_len s c Hs) as Hle.
  destruct (Z.geb_spec (sdsavail s) addlen) as [Hav|Hav].
  { exists s. split; [done|]. split; [done|].
    destruct (avail_spec s c Hs) as [E|[E1 E2]]; [lia|split; [lia|]|split; [|]; lia].
    intros Hp E5. assert (sdsavail s = 0) by (unfold sdsavail; by rewrite E5). lia. }
  rewrite (ok_len _ _ Hs). set (l := Z.of_nat (length c)) in *.
  change (2 ^ 62) with 4611686018427387904 in *.
  rewrite (wrapu_small 64 (l + addlen)) by lia.
  set (newlen := if l + addlen <? SDS_MAX_PREALLOC then u64 ((l + addlen) * 2) else u64 (l + addlen + SDS_MAX_PREALLOC)).
  assert (Hnew : l + addlen <= newlen < 2 ^ 64).
  { unfold newlen, SDS_MAX_PREALLOC. destruct (Z.ltb_spec (l + addlen) (1024 * 1024)); rewrite wrapu_small; lia. }
  set (t := if bool_decide (sdsReqType newlen = SDS_TYPE_5) then SDS_TYPE_8 else sdsReqType newlen).
  assert (Ht5 : t <> SDS_TYPE_5). { unfold t. case_bool_decide; done. }
  assert (Hfit : newlen < 2 ^ type_bits t).
  { pose proof (reqtype_fits newlen). unfold t. case_bool_decide as E; [|lia]. rewrite E in H. cbn in *. lia. }
  destruct (ok_buf _ _ Hs) as [spare Hb]. pose proof (ok_size _ _ Hs) as Hsz.
  assert (Hgrow : flags s <> SDS_TYPE_5 -> alloc s < l + addlen).
  { intros Hn5. destruct (avail_spec s c Hs) as [E|[E1 _]]; [lia| |done].
    unfold sdsalloc in E. destruct (flags s); [done|lia..]. }
  assert (exists s1 spare', (if bool_decide (flags s = t) then
         Some (Sdshdr t l (alloc s) (zrealloc fill (buf s) (newlen + 1)))
       else
         bs ← rd (buf s) 0 (l + 1);
         s ← sdswrite (Sdshdr t 0 0 (replicate (Z.to_nat (newlen + 1)) fill)) 0 bs;
         Some (sdssetlen s l)) = Some s1 /\ flags s1 = t /\ len s1 = l /\ buf s1 = c ++ 0 :: spare' /\
       Z.of_nat (length (buf s1)) = newlen + 1) as (s1 & spare' & -> & Hf1 & Hl1 & Hb1 & Hn1).
  { case_bool_decide as Et.
    - assert (flags s <> SDS_TYPE_5) as Hn5 by congruence. specialize (Hgrow Hn5). specialize (Hsz Hn5).
      eexists _, _. split; [done|]. cbn [flags len buf]. split; [done|]. split; [done|]. split.
      + unfold zrealloc. rewrite take_ge by lia. rewrite Hb, <-app_assoc. cbn [app]. done.
      + rewrite length_zrealloc by lia. lia.
    - rewrite Hb, cons_middle, app_assoc, rd_prefix by (rewrite length_app; cbn [length]; lia). mred.
      unfold sdswrite. cbn [buf flags len alloc]. rewrite <-(app_nil_l (replicate _ _)).
      rewrite wr_at; [|done|rewrite length_app, length_replicate; cbn [length]; lia]. mred.
      eexists _, _. split; [done|]. cbn [sdssetlen flags len buf app]. split; [done|]. split.
      + apply wrapu_small. lia.
      + rewrite <-app_assoc. cbn [app]. split; [done|].
        rewrite length_app. cbn [length]. rewrite length_drop, length_replicate, length_app. cbn [length]. lia. }
  mred. exists (sdssetalloc s1 newlen). split; [done|].
  assert (Esa : sdssetalloc s1 newlen = Sdshdr t l newlen (buf s1)).
  { unfold sdssetalloc. rewrite Hf1, Hl1. destruct t; [done|..]; by rewrite wrapu_small by lia. }
  rewrite Esa. assert (Hal : sdsalloc (Sdshdr t l newlen (buf s1)) = newlen) by (unfold sdsalloc; cbn; by destruct t).
  split; [|split; [rewrite Hal; lia|done]].
  split; cbn [len buf flags alloc]; [done|eauto|done|by rewrite Hal].
Qed.

Lemma sdsclear_spec s c : sds_ok s c -> exists s', sdsclear s = Some s' /\ sds_ok s' [].
Proof.
  intros Hs. destruct (ok_buf _ _ Hs) as [spare Hb]. unfold sdsclear, sdswrite.
  assert (exists b0 bs, buf s = b0 :: bs) as (b0 & bs & Eb). { rewrite Hb. destruct c; cbn; eauto. }
  cbn [sdssetlen buf]. rewrite Eb. change (b0 :: bs) with ([] ++ b0 :: bs). rewrite (wr_one [] b0 0 bs) by done.
  mred. eexists. split; [done|]. cbn [flags sdssetlen len alloc app].
  pose proof (sds_ok_len s c Hs).
  apply (write_ok s (0 :: bs) [] bs); [|done|by rewrite Eb]. eapply room_ok; [exact Hs|cbn; lia].
Qed.

Lemma sdscatlen_spec fill s c t :
  sds_ok s c -> fits (Z.of_nat (length c + length t)) ->
  exists s', sdscatlen fill s t (Z.of_nat (length t)) = Some s' /\ sds_ok s' (c ++ t).
Proof.
  intros Hs Hf. unfold sdscatlen. rewrite (ok_len _ _ Hs).
  destruct (sdsMakeRoomFor_spec fill s c (Z.of_nat (length t)) Hs) as (s1 & -> & Hs1 & Hr & _); [lia|unfold fits in *; lia|].
  mred. rewrite rd_all by done. mred. unfold sdswrite. destruct (ok_buf _ _ Hs1) as [spare Hb].
  assert (Hroom : room s1 (Z.of_nat (length (c ++ t)))).
  { eapply room_ok; [exact Hs1|]. rewrite length_app. lia. }
  pose proof Hroom as (Hlen & _). rewrite Hb, !length_app in Hlen. cbn [length] in Hlen.
  rewrite Hb, wr_at by (done || cbn [length]; lia). mred. cbn [sdssetlen flags len alloc buf].
  rewrite <-Nat2Z.inj_add, <-length_app.
  unfold fits in Hf. rewrite (wrapu_small 64) by (rewrite length_app; lia).
  rewrite app_assoc, wr_at; [|done|cbn [length]; rewrite length_drop; cbn [length]; lia]. mred.
  eexists. split; [done|].
  eapply (write_ok s1 _ (c ++ t)); [done|done|]. rewrite Hb, !length_app. cbn [length app]. rewrite !length_drop. cbn [length]. lia.
Qed.

Lemma sdsgrowzero_spec fill s c l :
  sds_ok s c -> fits l ->
  exists s', sdsgrowzero fill s l = Some s' /\ sds_ok s' (c ++ replicate (Z.to_nat l - length c) 0).
Proof.
  intros Hs Hf. unfold sdsgrowzero. rewrite (ok_len _ _ Hs).
  destruct (Z.leb_spec l (Z.of_nat (length c))) as [Hle|Hgt].
  { exists s. replace (Z.to_nat l - length c)%nat with 0%nat by lia. by rewrite app_nil_r. }
  destruct (sdsMakeRoomFor_spec fill s c (l - Z.of_nat (length c)) Hs) as (s1 & -> & Hs1 & Hr & _);
    [lia|unfold fits in *; lia|].
  mred. unfold sdswrite. destruct (ok_buf _ _ Hs1) as [spare Hb].
  set (z := replicate (Z.to_nat l - length c) 0).
  assert (Hz : Z.of_nat (length (c ++ z)) = l) by (unfold z; rewrite length_app, length_replicate; lia).
  assert (Hroom : room s1 l) by (eapply room_ok; [exact Hs1|lia]).
  pose proof Hroom as (Hlen & _). rewrite Hb, !length_app in Hlen. cbn [length] in Hlen.
  replace (replicate (Z.to_nat (l - Z.of_nat (length c) + 1)) 0) with (z ++ [0]).
  2:{ unfold z. rewrite <-replicate_S_end. f_equal. lia. }
  rewrite Hb, wr_at; [|done|]. 2:{ rewrite length_app in *. cbn [length]. lia. }
  mred. eexists. split; [done|]. rewrite <-Hz.
  eapply (write_ok s1 _ (c ++ z) (drop (length (z ++ [0])) (0 :: spare))).
  - by rewrite Hz.
  - by rewrite <-!app_assoc.
  - rewrite Hb. rewrite !length_app, length_drop. rewrite length_app in Hz. cbn [length]. lia.
Qed.

Lemma sdscpylen_spec fill s c t :
  sds_ok s c -> fits (Z.of_nat (length c + length t)) ->
  exists s', sdscpylen fill s t (Z.of_nat (length t)) = Some s' /\ sds_ok s' t.
Proof.
  intros Hs Hf. unfold sdscpylen. rewrite (ok_len _ _ Hs). unfold fits in Hf.
  assert (exists s1 c1, (if sdsalloc s <? Z.of_nat (length t)
     then sdsMakeRoomFor fill s (u64 (Z.of_nat (length t) - Z.of_nat (length c))) else Some s) = Some s1 /\
     sds_ok s1 c1 /\ Z.of_nat (length t) <= sdsalloc s1) as (s1 & c1 & -> & Hs1 & Hr).
  { pose proof (sds_ok_len s c Hs). destruct (Z.ltb_spec (sdsalloc s) (Z.of_nat (length t))) as [Hlt|Hge].
    - rewrite wrapu_small by lia.
      destruct (sdsMakeRoomFor_spec fill s c (Z.of_nat (length t) - Z.of_nat (length c)) Hs) as (s1 & -> & Hs1 & Hr & _);
        [lia|unfold fits; lia|]. exists s1, c. split; [done|]. split; [done|lia].
    - exists s, c. done. }
  mred. rewrite rd_all by done. mred. unfold sdswrite.
  assert (Hroom : room s1 (Z.of_nat (length t))) by (eapply room_ok; [exact Hs1|lia]).
  pose proof Hroom as (Hlen & _). rewrite <-(app_nil_l (buf s1)), wr_at by (done || lia). mred.
  cbn [flags len alloc buf app]. rewrite wr_at; [|done|cbn [length]; rewrite length_drop; lia]. mred.
  eexists. split; [done|].
  eapply (write_ok s1 _ t); [done|done|]. rewrite !length_app, !length_drop. cbn [length]. lia.
Qed.

Lemma sdsRemoveFreeSpace_spec fill s c :
  sds_ok s c -> fits (Z.of_nat (length c)) ->
  exists s', sdsRemoveFreeSpace fill s = Some s' /\ sds_ok s' c /\ Z.of_nat (length (buf s')) = Z.of_nat (length c) + 1.
Proof.
  intros Hs Hf. unfold fits in Hf. unfold sdsRemoveFreeSpace. rewrite (ok_len _ _ Hs).
  set (l := Z.of_nat (length c)) in *. set (t := sdsReqType l).
  assert (Hfit : l < 2 ^ type_bits t) by (apply reqtype_fits; lia).
  pose proof (sds_ok_len s c Hs) as Hle. pose proof (ok_alloc _ _ Hs) as Ha.
  destruct (ok_buf _ _ Hs) as [spare Hb].
  assert (exists s1, (if bool_decide (flags s = t) || (type_num t >? type_num SDS_TYPE_8) then
         Some (Sdshdr (flags s) l (alloc s) (zrealloc fill (buf s) (l + 1)))
       else
         bs ← rd (buf s) 0 (l + 1);
         s ← sdswrite (Sdshdr t 0 0 (replicate (Z.to_nat (l + 1)) fill)) 0 bs;
         Some (sdssetlen s l)) = Some s1 /\ l < 2 ^ type_bits (flags s1) /\ len s1 = l /\ buf s1 = c ++ [0])
    as (s1 & -> & Hf1 & Hl1 & Hb1).
  { destruct (_ || _).
    - eexists. split; [done|]. cbn [flags len buf]. split; [lia|]. split; [done|].
      unfold zrealloc. rewrite Hb, length_app. cbn [length].
      replace (Z.to_nat (l + 1) - (length c + S (length spare)))%nat with 0%nat by lia. cbn [replicate].
      rewrite app_nil_r, cons_middle, app_assoc, take_app_le by (rewrite length_app; cbn [length]; lia).
      apply take_ge. rewrite length_app. cbn [length]. lia.
    - rewrite Hb, cons_middle, app_assoc, rd_prefix by (rewrite length_app; cbn [length]; lia). mred.
      unfold sdswrite. cbn [buf flags len alloc]. rewrite <-(app_nil_l (replicate _ _)).
      rewrite wr_at; [|done|rewrite length_app, length_replicate; cbn [length]; lia]. mred.
      eexists. split; [done|]. cbn [sdssetlen flags len buf app]. rewrite wrapu_small by lia.
      split; [done|]. split; [done|]. rewrite drop_ge, app_nil_r; [done|].
      rewrite length_app, length_replicate. cbn [length]. lia. }
  mred. exists (sdssetalloc s1 l). split; [done|].
  assert (Esb : buf (sdssetalloc s1 l) = c ++ [0] /\ len (sdssetalloc s1 l) = l /\
    flags (sdssetalloc s1 l) = flags s1 /\ (flags s1 <> SDS_TYPE_5 -> alloc (sdssetalloc s1 l) = l)).
  { unfold sdssetalloc. destruct (flags s1) eqn:E; cbn [buf len flags alloc]; rewrite ?Hb1, ?Hl1, ?E; try done;
      (split; [done|]; split; [done|]; split; [done|]; intros _; apply wrapu_small; lia). }
  destruct Esb as (Eb & El & Ef & Ea). rewrite Eb.
  split; [|rewrite length_app; cbn [length]; lia].
  split; [done|by exists []| |].
  - rewrite Ef. intros Hn. rewrite Ea, Eb, length_app by done. cbn [length]. lia.
  - unfold sdsalloc. rewrite Ef, El. destruct (flags s1) eqn:E; [done|..]; rewrite Ea by done; done.
Qed.

(** ** Shrinking in place *)

Lemma truncate_spec s c b w :
  sds_ok s c -> length b = length (buf s) -> take (length w) b = w -> (length w <= length c)%nat ->
  exists s', (s ← sdswrite (Sdshdr (flags s) (len s) (alloc s) b) (Z.of_nat (length w)) [0];
              Some (sdssetlen s (Z.of_nat (length w)))) = Some s' /\ sds_ok s' w.
Proof.
  intros Hs Hb Hw Hl. unfold sdswrite. cbn [flags len alloc buf].
  pose proof (sds_ok_len s c Hs). assert (Hr : room s (Z.of_nat (length w))) by (eapply room_ok; [exact Hs|lia]).
  pose proof Hr as (Hlen & _).
  assert (exists r, b = w ++ r) as [r ->].
  { exists (drop (length w) b). by rewrite <-Hw at 1; rewrite take_drop. }
  rewrite length_app in Hb. rewrite wr_at; [|done|cbn [length]; lia]. mred. cbn [flags len alloc].
  eexists. split; [done|]. eapply (write_ok s _ w); [done|done|].
  rewrite !length_app, !length_drop. cbn [length]. lia.
Qed.

Lemma memmove_front (b : list Z) st n :
  0 <= st -> 0 <= n -> st + n <= Z.of_nat (length b) ->
  exists b', memmove b 0 st n = Some b' /\ length b' = length b /\
    take (Z.to_nat n) b' = take (Z.to_nat n) (drop (Z.to_nat st) b).
Proof.
  intros Hst Hn Hl. unfold memmove.
  assert (rd b st n = Some (take (Z.to_nat n) (drop (Z.to_nat st) b))) as -> by (apply rd_Some; done). mred.
  set (bs := take (Z.to_nat n) (drop (Z.to_nat st) b)).
  assert (Hbs : length bs = Z.to_nat n) by (unfold bs; rewrite length_take, length_drop; lia).
  rewrite <-(app_nil_l b), wr_at by (done || lia). eexists. split; [done|]. cbn [app]. split.
  - rewrite length_app, length_drop. lia.
  - rewrite <-Hbs, take_app_length. done.
Qed.

Lemma take_drop_prefix (c r : list Z) st n :
  (st + n <= length c)%nat -> take n (drop st (c ++ r)) = take n (drop st c).
Proof. intros H. rewrite drop_app_le by lia. apply take_app_le. rewrite length_drop. lia. Qed.

(** The substring from [st] of [n] bytes, moved to the front when needed. *)
Lemma shrink_spec s c st n (b : option (list Z)) :
  sds_ok s c -> 0 <= st -> 0 <= n -> st + n <= Z.of_nat (length c) ->
  (b = memmove (buf s) 0 st n \/ (b = Some (buf s) /\ (st = 0 \/ n = 0))) ->
  exists s', (b ← b; s ← sdswrite (Sdshdr (flags s) (len s) (alloc s) b) n [0]; Some (sdssetlen s n)) = Some s' /\
    sds_ok s' (take (Z.to_nat n) (drop (Z.to_nat st) c)).
Proof.
  intros Hs Hst Hn Hle Hb. destruct (ok_buf _ _ Hs) as [spare Eb].
  set (w := take (Z.to_nat n) (drop (Z.to_nat st) c)).
  assert (Hw : length w = Z.to_nat n) by (unfold w; rewrite length_take, length_drop; lia).
  assert (Hbuf : Z.of_nat (length c) < Z.of_nat (length (buf s))).
  { rewrite Eb, length_app. cbn [length]. lia. }
  assert (exists b', b = Some b' /\ length b' = length (buf s) /\ take (length w) b' = w) as (b' & -> & Hl & Ht).
  { rewrite Hw. destruct Hb as [->|[-> Hz]].
    - destruct (memmove_front (buf s) st n) as (b' & -> & ? & E); [lia..|]. exists b'. split; [done|]. split; [done|].
      rewrite E, Eb. apply take_drop_prefix. lia.
    - exists (buf s). split; [done|]. split; [done|]. rewrite Eb. unfold w.
      rewrite <-(take_drop_prefix c (0 :: spare)) by lia.
      destruct Hz as [->| ->]; [by rewrite drop_0|done]. }
  mred. replace n with (Z.of_nat (length w)) by lia. eapply truncate_spec; [done|done|done|].
  unfold w. rewrite length_take, length_drop. lia.
Qed.

(** The substring [sdsrange] keeps: negative indexes count from the end. *)
Definition norm_index (l i : Z) : Z := if i <? 0 then Z.max 0 (l + i) else i.

Definition range_of (c : list Z) (start end_ : Z) : list Z :=
  let l := Z.of_nat (length c) in
  let st := norm_index l start in
  let en := Z.min (norm_index l end_) (l - 1) in
  take (Z.to_nat (en - st + 1)) (drop (Z.to_nat st) c).

Lemma s32_u64 x : INT32_MIN <= x <= INT32_MAX -> s32 (u64 x) = x.
Proof.
  intros Hx. unfold wraps, wrapu. change (2 ^ (32 - 1)) with 2147483648. change (2 ^ 32) with 4294967296.
  change (2 ^ 64) with 18446744073709551616. destruct (decide (0 <= x)).
  - rewrite (Z.mod_small x) by lia. rewrite Z.mod_small by lia. lia.
  - rewrite <-(Zmod_unique x 18446744073709551616 (-1) (x + 18446744073709551616)) by lia.
    rewrite <-(Zmod_unique (x + 18446744073709551616 + 2147483648) 4294967296 4294967296 (x + 2147483648)) by lia. lia.
Qed.

Lemma index_norm l i : 0 <= l < 2 ^ 31 -> INT32_MIN <= i <= INT32_MAX ->
  (if i <? 0 then (let x := s32 (u64 (l + i)) in if x <? 0 then 0 else x) else i) = norm_index l i.
Proof.
  intros Hl Hi. unfold norm_index. destruct (Z.ltb_spec i 0) as [Hneg|]; [|done]. cbv zeta.
  rewrite s32_u64 by (change (2 ^ 31) with 2147483648 in *; lia). destruct (Z.ltb_spec (l + i) 0); lia.
Qed.

Lemma sdsrange_spec s c start end_ :
  sds_ok s c -> Z.of_nat (length c) < 2 ^ 31 ->
  INT32_MIN <= start <= INT32_MAX -> INT32_MIN <= end_ <= INT32_MAX ->
  exists s', sdsrange s start end_ = Some s' /\ sds_ok s' (range_of c start end_).
Proof.
  intros Hs Hc Hst Hen. unfold sdsrange. rewrite (ok_len _ _ Hs). set (l := Z.of_nat (length c)) in *.
  destruct (Z.eqb_spec l 0) as [E0|Hl0].
  { exists s. split; [done|]. assert (c = []) as -> by (destruct c; [done|cbn in l; lia]).
    unfold range_of. by rewrite drop_nil, take_nil. }
  rewrite !index_norm by lia. rewrite (wraps_small 32) by (cbn; lia).
  rewrite (wraps_small 32) by (change (2 ^ (32 - 1)) with (2 ^ 31); lia).
  assert (Hsp : 0 <= norm_index l start) by (unfold norm_index; destruct (Z.ltb_spec start 0); lia).
  assert (Hep : 0 <= norm_index l end_) by (unfold norm_index; destruct (Z.ltb_spec end_ 0); lia).
  unfold range_of. fold l. set (st := norm_index l start) in *. set (en := norm_index l end_) in *.
  assert (exists st' n', (if negb ((if st >? en then 0 else en - st + 1) =? 0) then
      if st >=? l then (st, 0)
      else if en >=? l then (st, if st >? l - 1 then 0 else l - 1 - st + 1)
      else (st, if st >? en then 0 else en - st + 1)
    else (0, if st >? en then 0 else en - st + 1)) = (st', n') /\ 0 <= st' /\ 0 <= n' /\
    (n' <> 0 -> st' = st /\ st' + n' <= l) /\
    take (Z.to_nat (Z.min en (l - 1) - st + 1)) (drop (Z.to_nat st) c) = take (Z.to_nat n') (drop (Z.to_nat st) c))
    as (st' & n' & -> & Hst' & Hn' & Hfit & ->).
  { destruct (Z.gtb_spec st en) as [Hgt|Hle]; cbn [negb Z.eqb].
    - exists 0, 0. do 3 (split; [done|]). split; [done|]. f_equal. lia.
    - destruct (Z.eqb_spec (en - st + 1) 0); [lia|]. cbn [negb].
      destruct (Z.geb_spec st l) as [Hge|Hlt].
      + exists st, 0. split; [done|]. split; [done|]. split; [done|]. split; [done|].
        rewrite drop_ge by lia. by rewrite !take_nil.
      + destruct (Z.geb_spec en l).
        * destruct (Z.gtb_spec st (l - 1)); [lia|]. exists st, (l - 1 - st + 1). split; [done|]. split; [lia|].
          split; [lia|]. split; [lia|]. do 2 f_equal. lia.
        * exists st, (en - st + 1). split; [done|]. split; [lia|]. split; [lia|]. split; [lia|]. do 2 f_equal. lia. }
  destruct (Z.eqb_spec n' 0) as [->|Hn0].
  - rewrite andb_false_r.
    destruct (shrink_spec s c 0 0 (Some (buf s)) Hs) as (s' & E & Hs'); [lia|lia|lia|by right; split; [|left]|].
    rewrite (ok_len _ _ Hs) in E. exists s'. split; [exact E|]. by rewrite !take_0 in *.
  - destruct (Hfit Hn0) as [-> Hle]. cbn [negb]. rewrite andb_true_r.
    destruct (shrink_spec s c st n' (if negb (st =? 0) then memmove (buf s) 0 st n' else Some (buf s)) Hs)
      as (s' & E & Hs'); [lia|lia|lia| |].
    { destruct (Z.eqb_spec st 0); [right|left]; auto. }
    rewrite (ok_len _ _ Hs) in E. exists s'. split; [exact E|done].
Qed.

(** ** Trimming *)

Fixpoint drop_while (f : Z -> bool) (l : list Z) : list Z :=
  match l with [] => [] | x :: l' => if f x then drop_while f l' else l end.

Definition trim (cset c : list Z) : list Z :=
  reverse (drop_while (strchr cset) (reverse (drop_while (strchr cset) c))).

Lemma drop_while_spec f (l : list Z) :
  exists p q, l = p ++ q /\ drop_while f l = q /\ Forall (fun x => f x = true) p /\
    match q with [] => True | x :: _ => f x = false end.
Proof.
  induction l as [|x l (p & q & -> & E & Hp & Hq)]; [by exists [], []|]. cbn [drop_while].
  destruct (f x) eqn:Ex.
  - exists (x :: p), q. split; [done|]. split; [done|]. split; [by constructor|done].
  - exists [], (x :: p ++ q). split; [done|]. split; [done|]. split; [constructor|done].
Qed.

Lemma trim_left_spec cset fuel (p q rest : list Z) a :
  Forall (fun x => strchr cset x = true) p ->
  match q with [] => True | x :: _ => strchr cset x = false end -> (length p < fuel)%nat ->
  trim_left fuel (a ++ p ++ q ++ rest) cset (Z.of_nat (length a)) (Z.of_nat (length (a ++ p ++ q)) - 1) =
    Some (Z.of_nat (length (a ++ p))).
Proof.
  revert a fuel. induction p as [|x p IH]; intros a fuel Hp Hq Hf; (destruct fuel as [|fuel]; [lia|]); cbn [trim_left].
  - rewrite app_nil_r. cbn [app]. rewrite length_app.
    destruct q as [|y q]; cbn [length].
    { destruct (Z.leb_spec (Z.of_nat (length a)) (Z.of_nat (length a + 0) - 1)); [lia|done]. }
    destruct (Z.leb_spec (Z.of_nat (length a)) (Z.of_nat (length a + S (length q)) - 1)); [|lia].
    rewrite rd1_app0. cbn [head app]. mred. by rewrite Hq.
  - apply Forall_cons in Hp as [Hx Hp]. rewrite !length_app. cbn [length].
    destruct (Z.leb_spec (Z.of_nat (length a)) (Z.of_nat (length a + (S (length p) + length q)) - 1)); [|lia].
    rewrite rd1_app0. cbn [head app]. mred. rewrite Hx. cbn [length] in Hf.
    specialize (IH (a ++ [x]) fuel Hp Hq ltac:(lia)). rewrite <-!app_assoc in IH. cbn [app] in IH.
    rewrite !length_app in IH. cbn [length] in IH. rewrite !length_app in IH.
    replace (Z.of_nat (length a) + 1) with (Z.of_nat (length a + 1)) by lia.
    replace (Z.of_nat (length a + (S (length p) + length q)) - 1)
      with (Z.of_nat (length a + S (length p + length q)) - 1) by lia.
    rewrite IH. do 2 f_equal; lia.
Qed.

Lemma trim_right_spec cset fuel (m q rest : list Z) y a :
  strchr cset y = false -> Forall (fun x => strchr cset x = true) q -> (length q < fuel)%nat ->
  trim_right fuel (a ++ m ++ y :: q ++ rest) cset (Z.of_nat (length (a ++ m ++ y :: q)) - 1) (Z.of_nat (length a)) =
    Some (Z.of_nat (length (a ++ m))).
Proof.
  intros Hy. revert fuel rest. induction q as [|x q IH] using rev_ind; intros fuel rest Hq Hf;
    (destruct fuel as [|fuel]; [lia|]); cbn [trim_right].
  - rewrite !length_app. cbn [length app].
    destruct (Z.gtb_spec (Z.of_nat (length a + (length m + 1)) - 1) (Z.of_nat (length a))) as [Hgt|Hle].
    + rewrite app_assoc. rewrite (rd1_app (a ++ m) _ _ 0) by (rewrite ?length_app; lia).
      change ((y :: rest) !! Z.to_nat 0) with (Some y). mred. rewrite Hy. f_equal. lia.
    + f_equal. lia.
  - apply Forall_app in Hq as [Hq [Hx _]%Forall_cons]. rewrite length_app in Hf. cbn [length] in Hf.
    rewrite !length_app. cbn [length]. rewrite !length_app. cbn [length].
    destruct (Z.gtb_spec (Z.of_nat (length a + (length m + S (length q + 1))) - 1) (Z.of_nat (length a))) as [Hgt|]; [|lia].
    rewrite <-app_assoc. cbn [app].
    assert (Erd : rd1 (a ++ m ++ y :: q ++ x :: rest) (Z.of_nat (length a + (length m + S (length q + 1))) - 1) = Some x).
    { replace (a ++ m ++ y :: q ++ x :: rest) with ((a ++ m ++ y :: q) ++ x :: rest)
        by (rewrite <-!app_assoc; cbn; done).
      rewrite (rd1_app _ _ _ 0) by (rewrite ?length_app; cbn [length]; lia). done. }
    rewrite Erd. mred. rewrite Hx. specialize (IH fuel (x :: rest) Hq ltac:(lia)).
    rewrite !length_app in IH. cbn [length] in IH.
    replace (Z.of_nat (length a + (length m + S (length q + 1))) - 1 - 1)
      with (Z.of_nat (length a + (length m + S (length q))) - 1) by lia. exact IH.
Qed.

Lemma sdstrim_spec s c cset :
  sds_ok s c -> exists s', sdstrim s cset = Some s' /\ sds_ok s' (trim cset c).
Proof.
  intros Hs. unfold sdstrim. rewrite (ok_len _ _ Hs). destruct (ok_buf _ _ Hs) as [spare Hb].
  unfold trim. destruct (drop_while_spec (strchr cset) c) as (p & q & -> & -> & Hp & Hq).
  assert (Hbl : length (buf s) = (length p + length q + S (length spare))%nat).
  { rewrite Hb, !length_app. cbn [length]. lia. }
  pose proof (trim_left_spec cset (S (S (length (buf s)))) p q (0 :: spare) [] Hp Hq) as El.
  cbn [app length] in El. rewrite app_assoc, <-Hb in El. change (Z.of_nat 0) with 0 in El.
  rewrite El by lia. mred. clear El.
  destruct (drop_while_spec (strchr cset) (reverse q)) as (p2 & q2 & E2 & -> & Hp2 & Hq2).
  destruct q2 as [|y q2].
  - rewrite app_nil_r in E2.
    assert (q = []) as ->.
    { destruct q as [|y q]; [done|]. exfalso. rewrite Forall_forall in Hp2. rewrite <-E2 in Hp2.
      rewrite (Hp2 y) in Hq; [done|]. apply elem_of_reverse. by left. }
    rewrite app_nil_r in *. cbn [trim_right].
    destruct (Z.gtb_spec (Z.of_nat (length p) - 1) (Z.of_nat (length p))); [lia|]. mred.
    destruct (Z.gtb_spec (Z.of_nat (length p)) (Z.of_nat (length p) - 1)); [|lia].
    destruct (shrink_spec s p 0 0 (Some (buf s)) Hs) as (s' & E & Hs'); [lia|lia|lia|by right; split; [|left]|].
    destruct (Z.eqb_spec (Z.of_nat (length p)) 0).
    + rewrite (ok_len _ _ Hs) in E. exists s'. split; [exact E|]. by rewrite take_0 in Hs'.
    + destruct (shrink_spec s p (Z.of_nat (length p)) 0 (memmove (buf s) 0 (Z.of_nat (length p)) 0) Hs)
        as (s2 & E' & Hs2); [lia|lia|lia|by left|]. rewrite (ok_len _ _ Hs) in E'. exists s2. split; [exact E'|]. by rewrite take_0 in Hs2.
  - assert (Eq : q = reverse q2 ++ y :: reverse p2).
    { rewrite <-(reverse_involutive q), E2, reverse_app, reverse_cons, <-app_assoc. done. }
    assert (Hp2' : Forall (fun x => strchr cset x = true) (reverse p2)) by (by apply Forall_reverse).
    pose proof (trim_right_spec cset (S (S (length (buf s)))) (reverse q2) (reverse p2) (0 :: spare) y p Hq2 Hp2') as Er.
    assert (Eb : p ++ reverse q2 ++ y :: reverse p2 ++ 0 :: spare = buf s).
    { rewrite Hb, Eq, <-!app_assoc. cbn [app]. done. }
    rewrite Eb, <-Eq in Er. rewrite Er. 2:{ rewrite Hbl, Eq, length_app. cbn [length]. lia. }
    mred.
    assert (Elen : length (p ++ reverse q2) = (length p + length q2)%nat) by (rewrite length_app, length_reverse; lia).
    rewrite Elen.
    destruct (Z.gtb_spec (Z.of_nat (length p)) (Z.of_nat (length p + length q2))); [lia|].
    replace (Z.of_nat (length p + length q2) - Z.of_nat (length p) + 1) with (Z.of_nat (length q2 + 1)) by lia.
    destruct (shrink_spec s (p ++ q) (Z.of_nat (length p)) (Z.of_nat (length q2 + 1))
      (if Z.of_nat (length p) =? 0 then Some (buf s)
       else memmove (buf s) 0 (Z.of_nat (length p)) (Z.of_nat (length q2 + 1))) Hs) as (s' & E & Hs').
    + lia.
    + lia.
    + rewrite Eq, !length_app, length_reverse. cbn [length]. lia.
    + destruct (Z.eqb_spec (Z.of_nat (length p)) 0); [right; auto|by left].
    + rewrite (ok_len _ _ Hs) in E. exists s'. split; [exact E|]. rewrite !Nat2Z.id, drop_app_length in Hs'. rewrite Eq, cons_middle, app_assoc in Hs'.
      replace (length q2 + 1)%nat with (length (reverse q2 ++ [y])) in Hs' by (rewrite length_app, length_reverse; done).
      rewrite take_app_length in Hs'. by rewrite reverse_cons.
Qed.

Lemma sdsIncrLen_spec s c incr :
  sds_ok s c -> 0 <= Z.of_nat (length c) + incr <= sdsalloc s -> (flags s = SDS_TYPE_5 -> incr < 0) ->
  exists s', sdsIncrLen s incr = Some s' /\ sds_ok s' (take (Z.to_nat (Z.of_nat (length c) + incr)) (buf s)).
Proof.
  intros Hs Hi H5. unfold sdsIncrLen. rewrite (ok_len _ _ Hs).
  assert (Hok : match flags s with
    | SDS_TYPE_5 => ((incr >? 0) && (Z.of_nat (length c) + incr <? 32)) || ((incr <? 0) && (Z.of_nat (length c) >=? - incr))
    | _ => ((incr >=? 0) && (alloc s - Z.of_nat (length c) >=? incr)) || ((incr <? 0) && (Z.of_nat (length c) >=? - incr))
    end = true).
  { unfold sdsalloc in Hi. destruct (flags s); [specialize (H5 eq_refl)|..];
      rewrite orb_true_iff, !andb_true_iff, ?Z.ltb_lt, !Z.geb_le, ?Z.gtb_lt; lia. }
  rewrite Hok. cbn [negb]. set (n := Z.of_nat (length c) + incr) in *.
  assert (Hr : room s n) by (eapply room_ok; [exact Hs|lia]). pose proof Hr as (Hlen & Hfit & _).
  set (w := take (Z.to_nat n) (buf s)).
  assert (Hw : Z.of_nat (length w) = n) by (unfold w; rewrite length_take; lia).
  assert (Eb : buf s = w ++ drop (Z.to_nat n) (buf s)) by (unfold w; by rewrite take_drop).
  unfold sdssetlen, sdswrite. cbn [len buf flags alloc]. rewrite wrapu_small by lia.
  rewrite Eb, wr_at; [|done|rewrite length_drop; cbn [length]; lia]. mred. eexists. split; [done|].
  assert (E : Sdshdr (flags s) n (alloc s) (w ++ [0] ++ drop (length [0]) (drop (Z.to_nat n) (buf s))) =
    sdssetlen (Sdshdr (flags s) (len s) (alloc s) (w ++ [0] ++ drop (length [0]) (drop (Z.to_nat n) (buf s))))
      (Z.of_nat (length w))).
  { unfold sdssetlen. cbn [flags alloc buf]. by rewrite Hw, wrapu_small by lia. }
  rewrite E. eapply (write_ok s _ w); [by rewrite Hw|done|].
  rewrite !length_app, !length_drop. cbn [length]. lia.
Qed.

(** ** Main theorems *)

(** C27: creating and growing strings: [sdsnewlen] builds a well-formed string of the
    given bytes; on a well-formed string [sdsMakeRoomFor] keeps the contents and
    provides the requested room, changing the header type when the length no longer
    fits it, and [sdscatlen], [sdscpylen], [sdsgrowzero], [sdsclear],
    [sdsRemoveFreeSpace] and [sdsIncrLen] have the expected contents. No write leaves
    the allocation and no length is truncated by the header, for sizes below 2^62.
    [sdsrange] keeps exactly the inclusive interval of bytes, negative indexes counting
    from the end and out of range ones being clipped, and [sdstrim] removes from both
    ends the bytes of the set; because [strchr] also finds the terminator of the set, NUL
    bytes at the ends are removed too. *)
Theorem sds_ops_refine fill s c t :
  sds_ok s c -> fits (Z.of_nat (length c + length t)) ->
  (exists s', sdsnewlen fill (Some t) (Z.of_nat (length t)) = Some s' /\ sds_ok s' t) /\
  (forall addlen, 0 <= addlen -> fits (Z.of_nat (length c) + addlen) ->
     exists s', sdsMakeRoomFor fill s addlen = Some s' /\ sds_ok s' c /\
       Z.of_nat (length c) + addlen <= sdsalloc s') /\
  (exists s', sdscatlen fill s t (Z.of_nat (length t)) = Some s' /\ sds_ok s' (c ++ t)) /\
  (exists s', sdscpylen fill s t (Z.of_nat (length t)) = Some s' /\ sds_ok s' t) /\
  (forall l, fits l -> exists s', sdsgrowzero fill s l = Some s' /\
     sds_ok s' (c ++ replicate (Z.to_nat l - length c) 0)) /\
  (exists s', sdsclear s = Some s' /\ sds_ok s' []) /\
  (exists s', sdsRemoveFreeSpace fill s = Some s' /\ sds_ok s' c /\
     Z.of_nat (length (buf s')) = Z.of_nat (length c) + 1) /\
  (forall incr, 0 <= Z.of_nat (length c) + incr <= sdsalloc s -> (flags s = SDS_TYPE_5 -> incr < 0) ->
     exists s', sdsIncrLen s incr = Some s' /\
       sds_ok s' (take (Z.to_nat (Z.of_nat (length c) + incr)) (buf s))) /\
  (forall start end_, Z.of_nat (length c) < 2 ^ 31 ->
     INT32_MIN <= start <= INT32_MAX -> INT32_MIN <= end_ <= INT32_MAX ->
     exists s', sdsrange s start end_ = Some s' /\ sds_ok s' (range_of c start end_)) /\
  (forall cset, exists s', sdstrim s cset = Some s' /\ sds_ok s' (trim cset c)).
Proof.
  intros Hs Hf. unfold fits in Hf. split_and!.
  - apply sdsnewlen_spec. lia.
  - intros addlen Ha Hl. destruct (sdsMakeRoomFor_spec fill s c addlen Hs Ha Hl) as (s' & ? & ? & ? & _). eauto.
  - by apply sdscatlen_spec.
  - by eapply sdscpylen_spec.
  - intros l Hl. by apply sdsgrowzero_spec.
  - by eapply sdsclear_spec.
  - apply sdsRemoveFreeSpace_spec; [done|]. unfold fits. lia.
  - intros incr Hi H5. by apply sdsIncrLen_spec.
  - intros; by apply sdsrange_spec.
  - intros; by apply sdstrim_spec.
Qed.

(** ** Witnesses *)

Definition example_sds : sdshdr := Sdshdr SDS_TYPE_8 5 7 (lit "hello" ++ [0; 1; 2]).

Lemma example_sds_ok : sds_ok example_sds (lit "hello").
Proof. split; [reflexivity|by exists [1; 2]|reflexivity|reflexivity]. Qed.

Lemma sds_ops_refine_witness :
  sds_ok example_sds (lit "hello") /\
  exists s', sdscatlen 0 example_sds (lit " world") 6 = Some s' /\ sds_ok s' (lit "hello world").
Proof.
  split; [apply example_sds_ok|].
  destruct (sds_ops_refine 0 example_sds (lit "hello") (lit " world")) as (_ & _ & H & _);
    [apply example_sds_ok|vm_compute; reflexivity|]. exact H.
Defined.

