(* ===== verification/SdsParse.v ===== *)
(** * sds.c: numbers, splitting and quoting

    The integer conversions work on the caller's buffer. The splitting and quoting
    functions build their results with [sdsnewlen] and [sdscatlen], which append
    bytes (Sds), and are modelled on byte lists. *)

From S2P Require Import Prelude Util Sds.

(** ** Integers *)

Definition SDS_LLSTR_SIZE : Z := 21.

(** [do { *p++ = '0'+(v%10); v /= 10; } while(v)]: the buffer and [p]. *)
Fixpoint ll2str_digits (fuel : nat) (b : list Z) (p v : Z) : option (list Z * Z) :=
  match fuel with
  | O => None
  | S fuel =>
    b ← wr b p [48 + v mod 10];
    if v / 10 =? 0 then Some (b, p + 1) else ll2str_digits fuel b (p + 1) (v / 10)
  end.

(** [while(s < p)]: swapping the bytes at [s] and [p]. *)
Fixpoint ll2str_reverse (fuel : nat) (b : list Z) (s p : Z) : option (list Z) :=
  match fuel with
  | O => None
  | S fuel =>
    if s <? p then
      aux ← rd1 b s;
      c ← rd1 b p;
      b ← wr b s [c];
      b ← wr b p [aux];
      ll2str_reverse fuel b (s + 1) (p - 1)
    else Some b
  end.

Definition sdsll2str (b : list Z) (value : Z) : option (list Z * Z) :=
  let v := u64 (if value <? 0 then - value else value) in
  '(b, p) ← ll2str_digits 20 b 0 v;
  '(b, p) ← (if value <? 0 then b ← wr b p [45]; Some (b, p + 1) else Some (b, p));
  b ← wr b p [0];
  b ← ll2str_reverse (length b) b 0 (p - 1);
  Some (b, p).

Definition sdsull2str (b : list Z) (v : Z) : option (list Z * Z) :=
  '(b, p) ← ll2str_digits 20 b 0 v;
  b ← wr b p [0];
  b ← ll2str_reverse (length b) b 0 (p - 1);
  Some (b, p).

(** ** Splitting at a separator *)

Definition at_sep (s sep : list Z) (seplen j : Z) : option bool :=
  match (if seplen =? 1 then c ← rd1 s j; c0 ← rd1 sep 0; Some (c =? c0) else Some false) with
  | None => None
  | Some true => Some true
  | Some false =>
    w ← rd s j seplen;
    sp ← rd sep 0 seplen;
    Some (memcmp w sp (Z.to_nat seplen) =? 0)
  end.

(** [tokens[elements] = sdsnewlen(...)]: the array has [slots] elements. *)
Definition push (tokens : list sds) (slots : Z) (tok : sds) : option (list sds) :=
  if Z.of_nat (length tokens) <? slots then Some (tokens ++ [tok]) else None.

Fixpoint split_loop (fuel : nat) (s sep : list Z) (len seplen j start slots : Z) (tokens : list sds)
  : option (list sds) :=
  match fuel with
  | O => None
  | S fuel =>
    if j <? len - (seplen - 1) then
      let slots := if slots <? Z.of_nat (length tokens) + 2 then s32 (slots * 2) else slots in
      b ← at_sep s sep seplen j;
      if (b : bool) then
        tok ← rd s start (j - start);
        tokens ← push tokens slots tok;
        split_loop fuel s sep len seplen (j + seplen - 1 + 1) (j + seplen) slots tokens
      else split_loop fuel s sep len seplen (j + 1) start slots tokens
    else
      tok ← rd s start (len - start);
      push tokens slots tok
  end.

(** The outer option is an access out of bounds, the inner one the returned NULL. *)
Definition sdssplitlen (s : list Z) (len : Z) (sep : list Z) (seplen : Z) : option (option (list sds)) :=
  if (seplen <? 1) || (len <? 0) then Some None else
  if len =? 0 then Some (Some []) else
  tokens ← split_loop (S (Z.to_nat len)) s sep len seplen 0 0 5 [];
  Some (Some tokens).

Fixpoint sdsjoinsds (argv : list sds) (sep : sds) : sds :=
  match argv with
  | [] => []
  | [a] => a
  | a :: argv => a ++ sep ++ sdsjoinsds argv sep
  end.

(** ** Quoting *)

(** [isprint] and [isspace] in the C locale. *)
Definition isprint (c : Z) : bool := (32 <=? c) && (c <=? 126).
Definition isspace (c : Z) : bool := (c =? 32) || ((9 <=? c) && (c <=? 13)).

(** A digit of [%02x]. *)
Definition hexchar (d : Z) : Z := if d <? 10 then 48 + d else 97 + (d - 10).

Definition repr_char (c : Z) : list Z :=
  if (c =? chr "\") || (c =? 34) then [chr "\"; c]
  else if c =? 10 then lit "\n"
  else if c =? 13 then lit "\r"
  else if c =? 9 then lit "\t"
  else if c =? 7 then lit "\a"
  else if c =? 8 then lit "\b"
  else if isprint c then [c]
  else lit "\x" ++ [hexchar (c / 16); hexchar (c mod 16)].

Definition sdscatrepr (s p : sds) : sds := s ++ [34] ++ concat (map repr_char p) ++ [34].

Definition is_hex_digit (c : Z) : bool :=
  ((48 <=? c) && (c <=? 57)) || ((97 <=? c) && (c <=? 102)) || ((65 <=? c) && (c <=? 70)).

Definition hex_digit_to_int (c : Z) : Z :=
  if (48 <=? c) && (c <=? 57) then c - 48
  else if (97 <=? c) && (c <=? 102) then c - 97 + 10
  else if (65 <=? c) && (c <=? 70) then c - 65 + 10
  else 0.

(** [p] is the rest of the line, whose terminator reads as 0. Every read of the code
    at [p+k] follows a test that the bytes before it are not 0. *)
Definition peek (p : list Z) (k : nat) : Z := nth k p 0.

(** [if ( *p) p++]. *)
Definition advance (p : list Z) : list Z := if peek p 0 =? 0 then p else drop 1 p.

Inductive quote := Plain | InQ | InSq.

(** [while(!done)]: the token and the rest, or the jump to [err]. *)
Fixpoint token_loop (fuel : nat) (q : quote) (current p : list Z) : option (option (list Z * list Z)) :=
  match fuel with
  | O => None
  | S fuel =>
    let next (k : nat) := advance (drop k p) in
    let c := peek p 0 in
    match q with
    | InQ =>
      if (c =? chr "\") && (peek p 1 =? chr "x") && is_hex_digit (peek p 2) && is_hex_digit (peek p 3) then
        token_loop fuel q (current ++ [hex_digit_to_int (peek p 2) * 16 + hex_digit_to_int (peek p 3)]) (next 3%nat)
      else if (c =? chr "\") && negb (peek p 1 =? 0) then
        let c := peek p 1 in
        let c := if c =? chr "n" then 10 else if c =? chr "r" then 13 else if c =? chr "t" then 9
                 else if c =? chr "b" then 8 else if c =? chr "a" then 7 else c in
        token_loop fuel q (current ++ [c]) (next 1%nat)
      else if c =? 34 then
        if negb (peek p 1 =? 0) && negb (isspace (peek p 1)) then Some None
        else Some (Some (current, next 0%nat))
      else if c =? 0 then Some None
      else token_loop fuel q (current ++ [c]) (next 0%nat)
    | InSq =>
      if (c =? chr "\") && (peek p 1 =? chr "'") then token_loop fuel q (current ++ [chr "'"]) (next 1%nat)
      else if c =? chr "'" then
        if negb (peek p 1 =? 0) && negb (isspace (peek p 1)) then Some None
        else Some (Some (current, next 0%nat))
      else if c =? 0 then Some None
      else token_loop fuel q (current ++ [c]) (next 0%nat)
    | Plain =>
      if (c =? 32) || (c =? 10) || (c =? 13) || (c =? 9) || (c =? 0) then Some (Some (current, next 0%nat))
      else if c =? 34 then token_loop fuel InQ current (next 0%nat)
      else if c =? chr "'" then token_loop fuel InSq current (next 0%nat)
      else token_loop fuel q (current ++ [c]) (next 0%nat)
    end
  end.

Fixpoint skip_blanks (p : list Z) : list Z :=
  match p with c :: p' => if isspace c then skip_blanks p' else p | [] => [] end.

(** [while(1)]; the inner [None] is the returned NULL. *)
Fixpoint splitargs_loop (fuel : nat) (p : list Z) (vector : list sds) : option (option (list sds)) :=
  match fuel with
  | O => None
  | S fuel =>
    let p := skip_blanks p in
    if peek p 0 =? 0 then Some (Some vector) else
      r ← token_loop (S (length p)) Plain [] p;
      match r with
      | None => Some None
      | Some (current, p) => splitargs_loop fuel p (vector ++ [current])
      end
  end.

(** [line] is the C string up to its terminator. *)
Definition sdssplitargs (line : list Z) : option (option (list sds)) :=
  splitargs_loop (S (length line)) line [].

(** ** Integers in decimal *)

Lemma ll2str_digits_spec fuel a x v :
  0 <= v < 10 ^ Z.of_nat fuel -> (0 < fuel)%nat -> (length (udecimal v) <= length x)%nat ->
  ll2str_digits fuel (a ++ x) (Z.of_nat (length a)) v =
    Some (a ++ reverse (udecimal v) ++ drop (length (udecimal v)) x,
          Z.of_nat (length (a ++ udecimal v))).
Proof.
  revert a x v. induction fuel as [|fuel IH]; intros a x v Hv Hf Hx; [lia|]. cbn [ll2str_digits].
  destruct (decide (v < 10)) as [Hsmall|Hbig].
  - rewrite udecimal_small in * by lia. cbn [length] in Hx. destruct x as [|x0 x]; [cbn in Hx; lia|].
    rewrite wr_one by done. mred. rewrite Z.div_small, Z.mod_small by lia. cbn [Z.eqb].
    rewrite length_app. cbn. do 2 f_equal. lia.
  - rewrite udecimal_step in * by lia. rewrite length_app in Hx. cbn [length] in Hx.
    destruct x as [|x0 x]; [cbn in Hx; lia|]. rewrite wr_one by done. mred.
    destruct (Z.eqb_spec (v / 10) 0) as [E|E]; [exfalso; zlia|].
    assert (Hp : 10 ^ Z.of_nat (S fuel) = 10 * 10 ^ Z.of_nat fuel).
    { rewrite Nat2Z.inj_succ, Z.pow_succ_r by lia. done. }
    specialize (IH (a ++ [48 + v mod 10]) x (v / 10)).
    rewrite <-app_assoc in IH. cbn [app] in IH. rewrite length_app in IH. cbn [length] in IH, Hx.
    replace (Z.of_nat (length a) + 1) with (Z.of_nat (length a + 1)) by lia. rewrite IH.
    + rewrite reverse_snoc, !length_app. cbn [length app]. rewrite (Nat.add_1_r (length (udecimal _))). cbn [drop].
      rewrite <-app_assoc. cbn [app]. f_equal. f_equal. lia.
    + split; [apply Z.div_pos; lia|]. apply Z.div_lt_upper_bound; lia.
    + destruct fuel; [|lia]. cbn in Hv. lia.
    + lia.
Qed.

Lemma ll2str_reverse_spec fuel a w b :
  (length w < 2 * fuel)%nat ->
  ll2str_reverse fuel (a ++ w ++ b) (Z.of_nat (length a)) (Z.of_nat (length (a ++ w)) - 1) =
    Some (a ++ reverse w ++ b).
Proof.
  revert a w b. induction fuel as [|fuel IH]; intros a w b Hf; [lia|].
  cbn [ll2str_reverse]. rewrite length_app.
  destruct w as [|x w].
  { destruct (Z.ltb_spec (Z.of_nat (length a)) (Z.of_nat (length a + length (@nil Z)) - 1)); [cbn in *; lia|done]. }
  destruct (decide (w = [])) as [->|Hne].
  { destruct (Z.ltb_spec (Z.of_nat (length a)) (Z.of_nat (length a + length [x]) - 1)); [cbn in *; lia|done]. }
  destruct (exists_last Hne) as (m & y & ->). cbn [length] in *. rewrite length_app in *. cbn [length] in *.
  destruct (Z.ltb_spec (Z.of_nat (length a)) (Z.of_nat (length a + S (length m + 1)) - 1)); [|lia].
  assert (E1 : a ++ (x :: m ++ [y]) ++ b = a ++ x :: m ++ y :: b) by (cbn; by rewrite <-app_assoc).
  rewrite E1, rd1_app0. cbn [head]. mred.
  assert (Ey : rd1 (a ++ x :: m ++ y :: b) (Z.of_nat (length a + S (length m + 1)) - 1) = Some y).
  { replace (a ++ x :: m ++ y :: b) with ((a ++ x :: m) ++ y :: b) by (by rewrite <-app_assoc).
    rewrite (rd1_app _ _ _ 0) by (rewrite ?length_app; cbn [length]; lia). done. }
  rewrite Ey. mred. rewrite wr_one by done. mred.
  replace (a ++ y :: m ++ y :: b) with ((a ++ y :: m) ++ y :: b) by (by rewrite <-app_assoc).
  rewrite wr_one by (rewrite length_app; cbn [length]; lia). mred.
  assert (Egoal : a ++ reverse (x :: m ++ [y]) ++ b = (a ++ [y]) ++ reverse m ++ x :: b).
  { rewrite reverse_cons, reverse_snoc, <-!app_assoc. done. }
  rewrite Egoal, <-(IH (a ++ [y]) m (x :: b)) by lia. f_equal.
  - rewrite <-!app_assoc. done.
  - rewrite length_app. cbn. lia.
  - rewrite !length_app. cbn. lia.
Qed.

Lemma udecimal_max v (k : nat) : 0 <= v < 10 ^ Z.of_nat (S k) -> (length (udecimal v) <= S k)%nat.
Proof.
  revert v. induction k as [|k IH]; intros v Hv.
  - rewrite udecimal_small by (cbn in Hv; lia). done.
  - destruct (decide (v < 10)); [rewrite udecimal_small by lia; cbn; lia|].
    rewrite udecimal_step, length_app by lia. cbn [length].
    assert (Hp : 10 ^ Z.of_nat (S (S k)) = 10 * 10 ^ Z.of_nat (S k)).
    { rewrite (Nat2Z.inj_succ (S k)), Z.pow_succ_r by lia. done. }
    specialize (IH (v / 10)). pose proof (Z.div_pos v 10). pose proof (Z.div_lt_upper_bound v 10 (10 ^ Z.of_nat (S k))).
    lia.
Qed.

(** The text [w], its terminator and the reversal. *)
Lemma ll2str_finish w x b p :
  b = reverse w ++ x -> p = Z.of_nat (length w) -> w <> [] -> x <> [] ->
  exists rest, (b ← wr b p [0]; b ← ll2str_reverse (length b) b 0 (p - 1); Some (b, p)) =
    Some (w ++ 0 :: rest, Z.of_nat (length w)) /\ length rest = (length x - 1)%nat.
Proof.
  intros -> -> Hw Hx. destruct x as [|x0 x]; [done|].
  rewrite wr_one by (by rewrite length_reverse). mred.
  pose proof (ll2str_reverse_spec (length (reverse w ++ 0 :: x)) [] (reverse w) (0 :: x)) as Hr.
  cbn [app length] in Hr. rewrite length_reverse in Hr. change (Z.of_nat 0) with 0 in Hr. rewrite Hr.
  - rewrite reverse_involutive. mred. exists x. split; [done|]. cbn [length]. lia.
  - rewrite length_app, length_reverse. cbn [length]. destruct w; [done|]. cbn [length]. lia.
Qed.

Lemma sdsull2str_spec b v :
  0 <= v <= ULLONG_MAX -> (21 <= length b)%nat ->
  exists rest, sdsull2str b v = Some (udecimal v ++ 0 :: rest, Z.of_nat (length (udecimal v))) /\
    (length (udecimal v ++ 0 :: rest) = length b).
Proof.
  intros Hv Hb. unfold sdsull2str.
  assert (Hl : (length (udecimal v) <= 20)%nat) by (apply (udecimal_max v 19); cbn; lia).
  pose proof (ll2str_digits_spec 20 [] b v) as Hd. cbn [app length] in Hd. change (Z.of_nat 0) with 0 in Hd.
  rewrite Hd by (lia || (cbn; lia)). mred.
  destruct (ll2str_finish (udecimal v) (drop (length (udecimal v)) b) _ _ eq_refl eq_refl) as (rest & E & Hr).
  - intros E. pose proof (length_udecimal_pos v). rewrite E in *. cbn in *. lia.
  - intros E. apply (f_equal length) in E. rewrite length_drop in E. cbn in E. lia.
  - exists rest. split; [exact E|]. rewrite length_app. cbn [length]. rewrite Hr, length_drop. lia.
Qed.

Lemma sdsll2str_spec b value :
  LLONG_MIN <= value <= LLONG_MAX -> (21 <= length b)%nat ->
  exists rest, sdsll2str b value = Some (decimal value ++ 0 :: rest, Z.of_nat (length (decimal value))) /\
    (length (decimal value ++ 0 :: rest) = length b).
Proof.
  intros Hv Hb. unfold sdsll2str, decimal. set (v := if value <? 0 then - value else value).
  assert (Hvr : 0 <= v <= 9223372036854775808) by (unfold v; destruct (Z.ltb_spec value 0); lia).
  rewrite wrapu_small by (change (2 ^ 64) with 18446744073709551616; lia).
  assert (Hl : (length (udecimal v) <= 19)%nat) by (apply (udecimal_max v 18); cbn; lia).
  pose proof (length_udecimal_pos v) as Hpos.
  pose proof (ll2str_digits_spec 20 [] b v) as Hd. cbn [app length] in Hd. change (Z.of_nat 0) with 0 in Hd.
  rewrite Hd by (lia || (cbn; lia)). mred. unfold v in *. clear v Hd. destruct (Z.ltb_spec value 0) as [Hneg|Hpos'].
  - set (v := - value) in *. destruct (drop (length (udecimal v)) b) as [|x0 x] eqn:Ex.
    { apply (f_equal length) in Ex. rewrite length_drop in Ex. cbn in Ex. lia. }
    apply (f_equal length) in Ex. rewrite length_drop in Ex. cbn [length] in Ex.
    rewrite wr_one by (by rewrite length_reverse). mred.
    destruct (ll2str_finish (45 :: udecimal v) x (reverse (udecimal v) ++ 45 :: x) (Z.of_nat (length (udecimal v)) + 1))
      as (rest & E & Hr).
    + by rewrite reverse_cons, <-app_assoc.
    + cbn [length]. lia.
    + done.
    + intros ->. cbn in Ex. lia.
    + exists rest. split; [exact E|]. cbn [length app]. rewrite length_app. cbn [length]. lia.
  - mred. destruct (ll2str_finish (udecimal value) (drop (length (udecimal value)) b) _ _ eq_refl eq_refl) as (rest & E & Hr).
    + intros E. rewrite E in Hpos. cbn in Hpos. lia.
    + intros E. apply (f_equal length) in E. rewrite length_drop in E. cbn in E. lia.
    + exists rest. split; [exact E|]. rewrite length_app. cbn [length]. rewrite Hr, length_drop. lia.
Qed.

(** ** Quoting and splitting *)

Lemma peek_S x p k : peek (x :: p) (S k) = peek p k.
Proof. done. Qed.

Lemma advance_cons x p : x <> 0 -> advance (x :: p) = p.
Proof. intros Hx. unfold advance, peek. cbn [nth]. by rewrite (proj2 (Z.eqb_neq x 0)) by done. Qed.

Lemma length_advance p : (length (advance p) <= length p)%nat.
Proof. unfold advance. destruct (_ =? _); [lia|]. rewrite length_drop. lia. Qed.

Lemma peek_length p k : peek p k <> 0 -> (k < length p)%nat.
Proof.
  intros Hp. destruct (decide (k < length p)%nat); [done|]. destruct Hp. unfold peek. by rewrite nth_overflow by lia.
Qed.

Lemma length_next p k : peek p 0 <> 0 -> (length (advance (drop k p)) < length p)%nat.
Proof.
  intros Hp. pose proof (peek_length _ _ Hp). destruct k as [|k].
  - rewrite drop_0. unfold advance. rewrite (proj2 (Z.eqb_neq _ _)) by done. rewrite length_drop. lia.
  - pose proof (length_advance (drop (S k) p)) as Hl. rewrite length_drop in Hl. lia.
Qed.

(** Case analysis along the tests of [token_loop]. *)
Ltac token_cases :=
  repeat match goal with
  | |- context [if ?b then _ else _] => destruct b eqn:?
  end.

(** What a token leaves to read. *)
Definition token_rest (p : list Z) (r : option (list Z * list Z)) : Prop :=
  match r with
  | None => True
  | Some (_, p') => (length p' <= length p)%nat /\ (peek p 0 <> 0 -> (length p' < length p)%nat)
  end.

Lemma token_loop_total fuel q current p :
  (length p < fuel)%nat -> exists r, token_loop fuel q current p = Some r /\ token_rest p r.
Proof.
  revert q current p. induction fuel as [|fuel IH]; intros q current p Hf; [lia|].
  assert (Hdone : forall cur, exists r, Some (Some (cur : list Z, advance (drop 0 p))) = Some r /\ token_rest p r).
  { intros cur. eexists. split; [done|]. cbn. split; [apply length_advance|].
    intros Hp. apply (length_next p 0 Hp). }
  assert (Hgo : forall q cur k, peek p 0 <> 0 -> exists r, token_loop fuel q cur (advance (drop k p)) = Some r /\ token_rest p r).
  { intros q' cur k Hp. pose proof (length_next p k Hp) as Hk.
    destruct (IH q' cur (advance (drop k p))) as (r & E & Hr); [lia|]. exists r. split; [exact E|].
    destruct r as [[? ?]|]; [|done]. unfold token_rest in *. lia. }
  assert (Herr : exists r : option (list Z * list Z), Some None = Some r /\ token_rest p r)
    by (by exists None).
  assert (Hbs : forall a b, (a =? b) = true -> b <> 0 -> a <> 0) by (intros a b ->%Z.eqb_eq; done).
  cbn [token_loop]. destruct q; token_cases; try exact Herr; try apply Hdone; try apply Hgo; zbool; try lia;
    try (eapply Hbs; [eassumption|done]); try (by intros ->); try (intros E0; rewrite E0 in *; done).
Qed.

Lemma hexchar_spec d : 0 <= d < 16 ->
  is_hex_digit (hexchar d) = true /\ hex_digit_to_int (hexchar d) = d /\ hexchar d <> 0.
Proof.
  intros Hd. assert (Hall : forallb (fun d => is_hex_digit (hexchar d) && (hex_digit_to_int (hexchar d) =? d) && negb (hexchar d =? 0))
    (map Z.of_nat (seq 0 16)) = true) by reflexivity.
  rewrite forallb_forall in Hall. specialize (Hall d). rewrite in_map_iff in Hall.
  assert (Hin : exists x : nat, Z.of_nat x = d /\ In x (seq 0 16)) by (exists (Z.to_nat d); rewrite in_seq; lia).
  specialize (Hall Hin). zbool. auto.
Qed.

(** One escaped byte inside double quotes is read back as the byte. *)
Lemma token_loop_repr fuel current c p :
  is_byte c -> token_loop (S fuel) InQ current (repr_char c ++ p) = token_loop fuel InQ (current ++ [c]) p.
Proof.
  intros Hc. unfold repr_char.
  destruct (Z.eqb_spec c (chr "\")) as [->|H1]; [reflexivity|].
  destruct (Z.eqb_spec c 34) as [->|H2]; [reflexivity|]. cbn [orb].
  destruct (Z.eqb_spec c 10) as [->|H3]; [reflexivity|].
  destruct (Z.eqb_spec c 13) as [->|H4]; [reflexivity|].
  destruct (Z.eqb_spec c 9) as [->|H5]; [reflexivity|].
  destruct (Z.eqb_spec c 7) as [->|H6]; [reflexivity|].
  destruct (Z.eqb_spec c 8) as [->|H7]; [reflexivity|].
  destruct (isprint c) eqn:Hp.
  - unfold isprint in Hp. zbool. cbn [token_loop app]. change (peek (c :: p) 0) with c.
    rewrite (proj2 (Z.eqb_neq c (chr "\"))), (proj2 (Z.eqb_neq c 34)), (proj2 (Z.eqb_neq c 0)) by (done || lia).
    cbn [andb drop]. by rewrite advance_cons by lia.
  - unfold is_byte in Hc. destruct (hexchar_spec (c / 16)) as (A1 & A2 & A3); [zlia|].
    destruct (hexchar_spec (c mod 16)) as (B1 & B2 & B3); [zlia|].
    change (lit "\x") with [92; 120]. cbn [token_loop app drop].
    rewrite advance_cons by done. unfold peek. cbn [nth]. rewrite A1, A2, B1, B2.
    change (chr "\") with 92. change (chr "x") with 120. cbn [Z.eqb Pos.eqb andb].
    do 3 f_equal. f_equal. zlia.
Qed.

Lemma length_repr_char c : (1 <= length (repr_char c))%nat.
Proof. unfold repr_char. token_cases; cbn; lia. Qed.

Lemma token_loop_reprs fuel current a rest :
  Forall is_byte a -> (peek rest 0 = 0 \/ isspace (peek rest 0) = true) -> (length a < fuel)%nat ->
  token_loop fuel InQ current (concat (map repr_char a) ++ 34 :: rest) = Some (Some (current ++ a, rest)).
Proof.
  intros Ha Hrest. revert fuel current. induction Ha as [|c a Hc _ IH]; intros fuel current Hf.
  - destruct fuel; [cbn in Hf; lia|]. cbn [map concat app token_loop drop]. rewrite peek_S.
    rewrite (advance_cons 34) by done. rewrite app_nil_r. change (peek (34 :: rest) 0) with 34. cbn [Z.eqb andb].
    change (chr "\") with 92. cbn [Z.eqb Pos.eqb andb].
    destruct Hrest as [-> | ->]; [done|]. cbn [negb]. by rewrite andb_false_r.
  - destruct fuel as [|fuel]; [cbn in Hf; lia|]. cbn [map concat]. rewrite <-app_assoc, token_loop_repr by done.
    rewrite IH by (cbn in Hf; lia). by rewrite <-app_assoc.
Qed.

Lemma token_loop_quoted fuel a rest :
  Forall is_byte a -> (peek rest 0 = 0 \/ isspace (peek rest 0) = true) -> (S (length a) < fuel)%nat ->
  token_loop fuel Plain [] (sdscatrepr [] a ++ rest) = Some (Some (a, rest)).
Proof.
  intros Ha Hrest Hf. destruct fuel as [|fuel]; [lia|]. unfold sdscatrepr. cbn [app].
  rewrite <-app_assoc. cbn [app token_loop drop]. rewrite advance_cons by done.
  change (peek (34 :: concat (map repr_char a) ++ 34 :: rest) 0) with 34. cbn [Z.eqb Pos.eqb orb].
  by rewrite token_loop_reprs by (done || lia).
Qed.

Lemma length_reprs a : (length a <= length (concat (map repr_char a)))%nat.
Proof.
  induction a as [|c a IH]; [done|]. cbn. rewrite length_app. pose proof (length_repr_char c). lia.
Qed.

Lemma sdsjoinsds_cons a args sep :
  sdsjoinsds (a :: args) sep = a ++ match args with [] => [] | _ => sep ++ sdsjoinsds args sep end.
Proof. destruct args; cbn; [by rewrite app_nil_r|done]. Qed.

Lemma splitargs_loop_roundtrip fuel args vector :
  Forall (Forall is_byte) args -> (length args < fuel)%nat ->
  splitargs_loop fuel (sdsjoinsds (map (sdscatrepr []) args) [32]) vector = Some (Some (vector ++ args)) /\
  splitargs_loop fuel ([32] ++ sdsjoinsds (map (sdscatrepr []) args) [32]) vector = Some (Some (vector ++ args)).
Proof.
  intros Hb. revert fuel vector. induction Hb as [|a args Ha Hb IH]; intros fuel vector Hf.
  { destruct fuel; [cbn in Hf; lia|]. rewrite app_nil_r. done. }
  destruct fuel as [|fuel]; [cbn in Hf; lia|]. cbn [map]. rewrite sdsjoinsds_cons.
  set (rest := match map (sdscatrepr []) args with [] => [] | _ => _ end).
  assert (Hrest : peek rest 0 = 0 \/ isspace (peek rest 0) = true).
  { unfold rest. destruct args; [by left|by right]. }
  assert (Hw : skip_blanks ([32] ++ sdscatrepr [] a ++ rest) = sdscatrepr [] a ++ rest) by reflexivity.
  assert (Hw' : skip_blanks (sdscatrepr [] a ++ rest) = sdscatrepr [] a ++ rest) by reflexivity.
  assert (Htok : token_loop (S (length (sdscatrepr [] a ++ rest))) Plain [] (sdscatrepr [] a ++ rest) = Some (Some (a, rest))).
  { apply token_loop_quoted; [done..|]. rewrite length_app. unfold sdscatrepr. cbn [length app].
    rewrite length_app. pose proof (length_reprs a). cbn [length]. lia. }
  assert (Hpk : (peek (sdscatrepr [] a ++ rest) 0 =? 0) = false) by reflexivity.
  assert (Hgo : splitargs_loop fuel rest (vector ++ [a]) = Some (Some (vector ++ a :: args))).
  { destruct (IH fuel (vector ++ [a])) as [I1 I2]; [cbn in Hf; lia|].
    rewrite <-!app_assoc in I1, I2. unfold rest. destruct args; [exact I1|exact I2]. }
  split; cbn [splitargs_loop]; rewrite ?Hw, ?Hw', Hpk, Htok; mred; exact Hgo.
Qed.

Lemma length_skip_blanks p : (length (skip_blanks p) <= length p)%nat.
Proof. induction p as [|c p IH]; cbn; [lia|]. destruct (isspace c); cbn; lia. Qed.

Lemma splitargs_loop_total fuel p vector :
  (length p < fuel)%nat -> exists r, splitargs_loop fuel p vector = Some r.
Proof.
  revert p vector. induction fuel as [|fuel IH]; intros p vector Hf; [lia|]. cbn [splitargs_loop].
  pose proof (length_skip_blanks p). destruct (Z.eqb_spec (peek (skip_blanks p) 0) 0); [by eexists|].
  destruct (token_loop_total (S (length (skip_blanks p))) Plain [] (skip_blanks p)) as (r & -> & Hr); [lia|]. mred.
  destruct r as [[cur p']|]; [|by eexists]. apply IH. destruct Hr as [_ Hr]. specialize (Hr n). lia.
Qed.

Lemma length_sdsjoinsds args : (length args <= length (sdsjoinsds (map (sdscatrepr []) args) [32%Z]))%nat.
Proof.
  induction args as [|a args IH]; [done|]. cbn [map]. rewrite sdsjoinsds_cons, length_app.
  assert (1 <= length (sdscatrepr [] a))%nat by (unfold sdscatrepr; cbn; lia). cbn [length].
  destruct args as [|a' args]; [cbn; lia|]. cbn [map] in *. rewrite length_app. cbn [length] in *. lia.
Qed.

(** ** Splitting at a separator *)

(** [tokens] cuts [w] at the separators found from left to right. *)
Inductive splits (sep : list Z) : list Z -> list sds -> Prop :=
| splits_last w :
    (forall i, ~ sep `prefix_of` drop i w) -> splits sep w [w]
| splits_at t rest toks :
    (forall i, (i < length t)%nat -> ~ sep `prefix_of` drop i (t ++ sep ++ rest)) ->
    splits sep rest toks -> splits sep (t ++ sep ++ rest) (t :: toks).

Lemma splits_nonempty sep w toks : splits sep w toks -> toks <> [].
Proof. by destruct 1. Qed.

Lemma splits_join sep w toks : splits sep w toks -> sdsjoinsds toks sep = w.
Proof.
  induction 1 as [|t rest toks _ Hs IH]; [done|]. rewrite sdsjoinsds_cons, IH.
  apply splits_nonempty in Hs. by destruct toks.
Qed.

Lemma memcmp_eq a b : length a = length b -> memcmp a b (length a) = 0 <-> a = b.
Proof.
  revert b. induction a as [|x a IH]; intros [|y b] Hl; try (cbn in Hl; lia); [done|]. cbn [length memcmp].
  destruct (Z.eqb_spec x y) as [->|Hne].
  - rewrite IH by (cbn in Hl; lia). split; [by intros ->|by intros [= ->]].
  - split; [lia|intros H; injection H; lia].
Qed.

Lemma prefix_take (a b : list Z) : a `prefix_of` b <-> take (length a) b = a.
Proof.
  split; [intros [k ->]; apply take_app_length|].
  intros E. exists (drop (length a) b). rewrite <-E at 1. by rewrite take_drop.
Qed.

Lemma at_sep_spec a r sep :
  sep <> [] -> (length sep <= length r)%nat ->
  exists b, at_sep (a ++ r) sep (Z.of_nat (length sep)) (Z.of_nat (length a)) = Some b /\
    (b = true <-> sep `prefix_of` r).
Proof.
  intros Hne Hl. unfold at_sep.
  set (w := take (length sep) r).
  assert (Hw : length w = length sep) by (unfold w; rewrite length_take; lia).
  assert (Hr : r = w ++ drop (length sep) r) by (unfold w; by rewrite take_drop).
  assert (Erd : rd (a ++ r) (Z.of_nat (length a)) (Z.of_nat (length sep)) = Some w)
    by (rewrite Hr; apply rd_mid; lia).
  rewrite Erd, rd_all by done. mred. rewrite Nat2Z.id.
  assert (Hm : (memcmp w sep (length sep) =? 0) = true <-> sep `prefix_of` r).
  { rewrite prefix_take. fold w. rewrite <-Hw at 1. rewrite Z.eqb_eq, memcmp_eq by done. done. }
  destruct (Z.eqb_spec (Z.of_nat (length sep)) 1) as [E1|_]; [|by eexists].
  destruct sep as [|c0 [|]]; try (cbn in E1; lia). destruct r as [|c r]; [cbn in Hl; lia|].
  rewrite rd1_app0. change (rd1 [c0] 0) with (Some c0). cbn [head]. mred.
  destruct (Z.eqb_spec c c0) as [->|Hc]; [|by eexists].
  exists true. split; [done|]. split; [intros _; by exists r|done].
Qed.

Lemma push_spec tokens slots t :
  Z.of_nat (length tokens) < slots -> push tokens slots t = Some (tokens ++ [t]).
Proof. intros. unfold push. by rewrite (proj2 (Z.ltb_lt _ _)). Qed.

Lemma prefix_short (sep w : list Z) : (length w < length sep)%nat -> ~ sep `prefix_of` w.
Proof. intros Hl Hp%prefix_length. lia. Qed.

Lemma split_loop_spec fuel a t r sep j start slots len tokens :
  sep <> [] -> start = Z.of_nat (length a) -> j = Z.of_nat (length (a ++ t)) ->
  len = Z.of_nat (length (a ++ t ++ r)) -> len < 2 ^ 29 ->
  (length r < fuel)%nat ->
  Z.of_nat (length tokens) < slots <= 2 * Z.of_nat (length tokens) + 10 ->
  Z.of_nat (length tokens) <= j ->
  (forall i, (i < length t)%nat -> ~ sep `prefix_of` drop i (t ++ r)) ->
  exists toks, split_loop fuel (a ++ t ++ r) sep len (Z.of_nat (length sep)) j start slots tokens = Some (tokens ++ toks) /\
    splits sep (t ++ r) toks.
Proof.
  intros Hsep -> -> -> Hmax. revert a t r slots tokens Hmax.
  induction fuel as [|fuel IH]; intros a t r slots tokens Hmax Hf Hslots Htok Hno; [lia|]. cbn [split_loop].
  assert (Hs1 : (1 <= length sep)%nat) by (destruct sep; [done|cbn; lia]).
  destruct (Z.ltb_spec (Z.of_nat (length (a ++ t))) (Z.of_nat (length (a ++ t ++ r)) - (Z.of_nat (length sep) - 1))) as [Hj|Hj].
  - rewrite !length_app in *.
    assert (Hr : (length sep <= length r)%nat) by lia.
    destruct (at_sep_spec (a ++ t) r sep Hsep Hr) as (b & Eb & Hb). rewrite length_app, <-app_assoc in Eb. rewrite Eb. mred.
    set (slots' := if slots <? _ then _ else _).
    assert (Hsl : Z.of_nat (length tokens) + 2 <= slots' <= 2 * Z.of_nat (length tokens) + 10).
    { unfold slots'. destruct (Z.ltb_spec slots (Z.of_nat (length tokens) + 2)); [|lia].
      rewrite wraps_small by (change (2 ^ (32 - 1)) with (4 * 2 ^ 29); lia). lia. }
    clearbody slots'. destruct b.
    + destruct (proj1 Hb eq_refl) as [r' ->]. rewrite rd_mid by (lia || done). mred. rewrite push_spec by lia. mred.
      rewrite length_app in *.
      destruct (IH (a ++ t ++ sep) [] r' slots' (tokens ++ [t])) as (toks & E & Hs).
      * rewrite !length_app. cbn [length]. lia.
      * lia.
      * rewrite length_app. cbn [length]. lia.
      * rewrite !length_app. cbn [length]. lia.
      * cbn [length]. lia.
      * exists (t :: toks). split; [|by constructor].
        rewrite <-!app_assoc in E. cbn [app] in E. etransitivity; [|exact E]. f_equal; rewrite ?length_app; cbn [length]; lia.
    + assert (Hnp : ~ sep `prefix_of` r) by (intros Hp; by apply Hb in Hp).
      destruct r as [|c r]; [cbn in Hr; lia|].
      destruct (IH a (t ++ [c]) r slots' tokens) as (toks & E & Hs).
      * rewrite !length_app. cbn [length] in *. lia.
      * cbn in Hf. lia.
      * lia.
      * rewrite !length_app. lia.
      * intros i Hi. rewrite <-app_assoc. cbn [app]. rewrite length_app in Hi. cbn [length] in Hi.
        destruct (decide (i = length t)) as [->|]; [by rewrite drop_app_length|]. apply Hno. lia.
      * exists toks. rewrite <-app_assoc in Hs. split; [|exact Hs].
        rewrite <-app_assoc in E. cbn [app] in E. etransitivity; [|exact E]. f_equal; rewrite ?length_app; cbn [length]; lia.
  - assert (Erd : rd (a ++ t ++ r) (Z.of_nat (length a)) (Z.of_nat (length (a ++ t ++ r)) - Z.of_nat (length a)) = Some (t ++ r)).
    { rewrite <-(rd_mid a (t ++ r) [] (Z.of_nat (length a)) (Z.of_nat (length (t ++ r)))) by done.
      rewrite app_nil_r. f_equal. rewrite !length_app. lia. }
    rewrite Erd. mred.
    rewrite push_spec by lia. exists [t ++ r]. split; [done|]. constructor. intros i.
    destruct (decide (i < length t)%nat); [by apply Hno|]. apply prefix_short.
    rewrite length_drop, length_app. rewrite !length_app in Hj. lia.
Qed.

(** [sdsll2str] and [sdsull2str] write, into any buffer of [SDS_LLSTR_SIZE] bytes or
    more, the decimal text of any 64-bit integer ([LLONG_MIN] included) followed by a
    NUL, and return the length of the text. *)
Theorem sdsll2str_decimal b value :
  LLONG_MIN <= value <= ULLONG_MAX -> SDS_LLSTR_SIZE <= Z.of_nat (length b) ->
  (value <= LLONG_MAX -> exists rest,
    sdsll2str b value = Some (decimal value ++ 0 :: rest, Z.of_nat (length (decimal value))) /\
    length (decimal value ++ 0 :: rest) = length b) /\
  (0 <= value -> exists rest,
    sdsull2str b value = Some (udecimal value ++ 0 :: rest, Z.of_nat (length (udecimal value))) /\
    length (udecimal value ++ 0 :: rest) = length b).
Proof.
  unfold SDS_LLSTR_SIZE. intros Hv Hb. split; intros H.
  - apply sdsll2str_spec; lia.
  - apply sdsull2str_spec; lia.
Qed.

(** [sdssplitlen] never reads outside the string nor writes outside the token array,
    which it doubles; its tokens are the pieces of the string between the separators found
    from left to right without overlap, and [sdsjoinsds] with the same separator gives the
    string back. An empty separator is refused and the empty string has no token. *)
Theorem sdssplitlen_splits s sep :
  Z.of_nat (length s) < 2 ^ 29 ->
  match sdssplitlen s (Z.of_nat (length s)) sep (Z.of_nat (length sep)) with
  | None => False
  | Some None => sep = []
  | Some (Some tokens) =>
    sep <> [] /\ sdsjoinsds tokens sep = s /\
    (s = [] /\ tokens = [] \/ s <> [] /\ splits sep s tokens)
  end.
Proof.
  intros Hl. unfold sdssplitlen. rewrite (proj2 (Z.ltb_ge (Z.of_nat (length s)) 0)), orb_false_r by lia.
  destruct (Z.ltb_spec (Z.of_nat (length sep)) 1) as [H0|H1]; [destruct sep; [done|cbn in H0; lia]|].
  assert (Hsep : sep <> []) by (intros ->; cbn in H1; lia).
  destruct (Z.eqb_spec (Z.of_nat (length s)) 0) as [E|E].
  { destruct s; [|cbn in E; lia]. auto. }
  destruct (split_loop_spec (S (Z.to_nat (Z.of_nat (length s)))) [] [] s sep 0 0 5 (Z.of_nat (length s)) [])
    as (toks & Et & Hs); try done; try (cbn [app length]; lia).
  cbn [app] in Et. rewrite Et. mred. split; [done|]. split; [by apply splits_join|]. right.
  split; [by intros ->|exact Hs].
Qed.

(** C35: [sdssplitargs] terminates on every line, with a vector of arguments or with NULL, and
    reads back what [sdscatrepr] quotes: the quoted forms of any byte strings (NUL, quotes
    and control characters included) separated by a space split into the same strings. *)
Theorem sdssplitargs_catrepr args :
  Forall (Forall is_byte) args ->
  (forall line, exists r, sdssplitargs line = Some r) /\
  sdssplitargs (sdsjoinsds (map (sdscatrepr []) args) [32]) = Some (Some args).
Proof.
  intros Hb. split.
  - intros line. apply splitargs_loop_total. lia.
  - unfold sdssplitargs.
    apply (splitargs_loop_roundtrip _ args []); [done|]. apply Nat.lt_succ_r, length_sdsjoinsds.
Qed.

(** Witnesses. *)
Lemma sdsll2str_decimal_witness :
  exists rest, sdsll2str (repeat 0 21) LLONG_MIN = Some (lit "-9223372036854775808" ++ 0 :: rest, 20).
Proof.
  destruct (sdsll2str_decimal (repeat 0 21) LLONG_MIN) as [H _].
  - lia.
  - vm_compute. discriminate.
  - destruct H as (rest & E & _); [lia|]. exists rest. rewrite E. f_equal.
Defined.

Lemma sdssplitlen_splits_witness :
  sdssplitlen (lit "foo_-_bar_-__-_") 15 (lit "_-_") 3 = Some (Some [lit "foo"; lit "bar"; []; []]) /\
  sdsjoinsds [lit "foo"; lit "bar"; []; []] (lit "_-_") = lit "foo_-_bar_-__-_".
Proof.
  assert (E : sdssplitlen (lit "foo_-_bar_-__-_") 15 (lit "_-_") 3 = Some (Some [lit "foo"; lit "bar"; []; []]))
    by (vm_compute; reflexivity).
  split; [exact E|].
  assert (Hl : Z.of_nat (length (lit "foo_-_bar_-__-_")) < 2 ^ 29) by (vm_compute; reflexivity).
  pose proof (sdssplitlen_splits (lit "foo_-_bar_-__-_") (lit "_-_") Hl) as H.
  change (Z.of_nat (length (lit "foo_-_bar_-__-_"))) with 15 in H.
  change (Z.of_nat (length (lit "_-_"))) with 3 in H. rewrite E in H. apply H.
Defined.

Lemma sdssplitargs_catrepr_witness :
  sdssplitargs (sdsjoinsds (map (sdscatrepr []) [[0; 255; 34]; []; lit "a b"]) [32]) =
    Some (Some [[0; 255; 34]; []; lit "a b"]).
Proof.
  apply (sdssplitargs_catrepr [[0; 255; 34]; []; lit "a b"]).
  unfold is_byte. vm_compute. repeat constructor; discriminate.
Defined.
