(* ===== verification/Skiplist.v ===== *)
(** * t_zset.c: the skiplist of sorted sets

    Nodes live in a heap and keep, per level, the forward pointer and the span: the
    number of nodes the pointer skips. A score is a C double that is not NaN: it is
    modelled by its position in the order of the doubles (an integer, the two zeros
    being one position), which is all the code uses of it. [None] is the access of
    [NULL], of a freed node or of a level a node does not have.

    [is_zsl h z nodes] says that the skiplist [z] in [h] holds [nodes], in order,
    with every forward pointer, span and backward pointer right. *)

From stdpp Require Import gmap sorting.
From S2P Require Import Prelude Sds.

Definition ptr := positive.

Definition ZSKIPLIST_MAXLEVEL : nat := 32.

Record zskiplistLevel := Level { forward : option ptr; span : Z }.

Record zskiplistNode := Node {
  ele : option sds;
  score : Z;
  backward : option ptr;
  level : list zskiplistLevel;
}.

Record zskiplist := Zsl {
  header : ptr;
  tail : option ptr;
  zlength : Z;
  zlevel : nat;
}.

Record zrangespec := RangeSpec { rmin : Z; rmax : Z; minex : bool; maxex : bool }.

Abbreviation heap := (gmap ptr zskiplistNode).

Definition get_level (h : heap) (p : ptr) (i : nat) : option zskiplistLevel :=
  n ← h !! p; level n !! i.

Definition set_level (h : heap) (p : ptr) (i : nat) (lv : zskiplistLevel) : option heap :=
  n ← h !! p;
  _ ← level n !! i;
  Some (<[p := Node (ele n) (score n) (backward n) (<[i := lv]> (level n))]> h).

Definition set_backward (h : heap) (p : ptr) (b : option ptr) : option heap :=
  n ← h !! p; Some (<[p := Node (ele n) (score n) b (level n)]> h).

(** The levels of a new node are not initialised: they hold [junk]. *)
Definition zslCreateNode (junk : zskiplistLevel) (lv : nat) (sc : Z) (e : option sds) : zskiplistNode :=
  Node e sc None (replicate lv junk).

(** [hd] is the address of the new header. *)
Definition zslCreate (hd : ptr) : heap * zskiplist :=
  ({[ hd := Node None 0 None (replicate ZSKIPLIST_MAXLEVEL (Level None 0)) ]},
   Zsl hd None 0 1).

(** [rnd] are the values of the successive calls of [random()];
    [ZSKIPLIST_P * 0xFFFF] is 16383.75. [None]: the values are exhausted. *)
Fixpoint zslRandomLevel_loop (lv : nat) (rnd : list Z) : option nat :=
  match rnd with
  | [] => None
  | r :: rnd => if Z.land r 0xFFFF <=? 16383 then zslRandomLevel_loop (S lv) rnd else Some lv
  end.

Definition zslRandomLevel (rnd : list Z) : option nat :=
  lv ← zslRandomLevel_loop 1 rnd;
  Some (if (lv <? ZSKIPLIST_MAXLEVEL)%nat then lv else ZSKIPLIST_MAXLEVEL).

(** [while (x->level[i].forward && go(x->level[i].forward))]: [go] sees the rank
    and the contents of the next node; the traversed rank has [w] bits. *)
Fixpoint zsl_walk (fuel : nat) (go : Z -> zskiplistNode -> bool) (w : Z) (h : heap) (i : nat)
    (x : ptr) (rank : Z) : option (ptr * Z) :=
  match fuel with
  | O => None
  | S fuel =>
    lv ← get_level h x i;
    match forward lv with
    | None => Some (x, rank)
    | Some f =>
      fn ← h !! f;
      let rank' := wrapu w (rank + span lv) in
      if go rank' fn then zsl_walk fuel go w h i f rank' else Some (x, rank)
    end
  end.

(** [for (i = zsl->level-1; i >= 0; i--)]: the arrays [update] and [rank], indexed
    by the level. *)
Fixpoint zsl_search (i : nat) (go : Z -> zskiplistNode -> bool) (w : Z) (h : heap)
    (x : ptr) (rank : Z) : option (list (ptr * Z)) :=
  match i with
  | O => Some []
  | S i =>
    '(x, rank) ← zsl_walk (S (size h)) go w h i x rank;
    rest ← zsl_search i go w h x rank;
    Some (rest ++ [(x, rank)])
  end.

(** [forward->score < score || (forward->score == score && sdscmp(...) < 0)] *)
Definition node_lt (sc : Z) (e : sds) (_ : Z) (n : zskiplistNode) : bool :=
  (score n <? sc) || ((score n =? sc) &&
    match ele n with Some e' => sdscmp e' e <? 0 | None => false end).

(** The levels from [zsl->level] up to the level of the new node. *)
Fixpoint zslInsert_raise (n : nat) (i : nat) (h : heap) (z : zskiplist) (upd : list (ptr * Z))
  : option (heap * list (ptr * Z)) :=
  match n with
  | O => Some (h, upd)
  | S n =>
    lv ← get_level h (header z) i;
    h ← set_level h (header z) i (Level (forward lv) (u32 (zlength z)));
    zslInsert_raise n (S i) h z (upd ++ [(header z, 0)])
  end.

(** [for (i = 0; i < level; i++)]: linking [x] at every level it has. *)
Fixpoint zslInsert_link (n : nat) (i : nat) (h : heap) (x : ptr) (rank0 : Z) (upd : list (ptr * Z))
  : option heap :=
  match n with
  | O => Some h
  | S n =>
    '(u, rank) ← upd !! i;
    ulv ← get_level h u i;
    h ← set_level h x i (Level (forward ulv) (u32 (span ulv - u32 (rank0 - rank))));
    h ← set_level h u i (Level (Some x) (u32 (u32 (rank0 - rank) + 1)));
    zslInsert_link n (S i) h x rank0 upd
  end.

(** [for (i = level; i < zsl->level; i++)] *)
Fixpoint zslInsert_bump (n : nat) (i : nat) (h : heap) (upd : list (ptr * Z)) : option heap :=
  match n with
  | O => Some h
  | S n =>
    '(u, _) ← upd !! i;
    ulv ← get_level h u i;
    h ← set_level h u i (Level (forward ulv) (u32 (span ulv + 1)));
    zslInsert_bump n (S i) h upd
  end.

(** [x] is the address of the new node. *)
Definition zslInsert (junk : zskiplistLevel) (rnd : list Z) (x : ptr) (h : heap) (z : zskiplist)
    (sc : Z) (e : sds) : option (heap * zskiplist) :=
  upd ← zsl_search (zlevel z) (node_lt sc e) 32 h (header z) 0;
  lv ← zslRandomLevel rnd;
  '(h, upd) ← zslInsert_raise (lv - zlevel z) (zlevel z) h z upd;
  let zl := if (zlevel z <? lv)%nat then lv else zlevel z in
  let h := <[x := zslCreateNode junk lv sc (Some e)]> h in
  '(u0, rank0) ← upd !! 0%nat;
  h ← zslInsert_link lv 0 h x rank0 upd;
  h ← zslInsert_bump (zl - lv) lv h upd;
  h ← set_backward h x (if bool_decide (u0 = header z) then None else Some u0);
  l0 ← get_level h x 0;
  '(h, tl) ← match forward l0 with
             | Some f => h ← set_backward h f (Some x); Some (h, tail z)
             | None => Some (h, Some x)
             end;
  Some (h, Zsl (header z) tl (u64 (zlength z + 1)) zl).

(** [zslDeleteNode]: the loop over the levels. *)
Fixpoint zslDeleteNode_loop (n : nat) (i : nat) (h : heap) (x : ptr) (upd : list (ptr * Z))
  : option heap :=
  match n with
  | O => Some h
  | S n =>
    '(u, _) ← upd !! i;
    ulv ← get_level h u i;
    h ← (if bool_decide (forward ulv = Some x) then
           xlv ← get_level h x i;
           set_level h u i (Level (forward xlv) (u32 (span ulv + u32 (span xlv - 1))))
         else set_level h u i (Level (forward ulv) (u32 (span ulv - 1))));
    zslDeleteNode_loop n (S i) h x upd
  end.

(** [while(zsl->level > 1 && zsl->header->level[zsl->level-1].forward == NULL)] *)
Fixpoint zsl_lower (lv : nat) (h : heap) (hd : ptr) : option nat :=
  match lv with
  | S (S lv' as l1) =>
    hl ← get_level h hd l1;
    match forward hl with None => zsl_lower l1 h hd | Some _ => Some lv end
  | _ => Some lv
  end.

Definition zslDeleteNode (h : heap) (z : zskiplist) (x : ptr) (upd : list (ptr * Z))
  : option (heap * zskiplist) :=
  h ← zslDeleteNode_loop (zlevel z) 0 h x upd;
  xn ← h !! x;
  l0 ← get_level h x 0;
  '(h, tl) ← match forward l0 with
             | Some f => h ← set_backward h f (backward xn); Some (h, tail z)
             | None => Some (h, backward xn)
             end;
  lv ← zsl_lower (zlevel z) h (header z);
  Some (h, Zsl (header z) tl (u64 (zlength z - 1)) lv).

(** With [node] = NULL the deleted node is freed, otherwise it is returned in
    [*node] and stays in the heap: [keep]. The flag is the returned 1. *)
Definition zslDelete (keep : bool) (h : heap) (z : zskiplist) (sc : Z) (e : sds)
  : option (heap * zskiplist * option ptr) :=
  upd ← zsl_search (zlevel z) (node_lt sc e) 64 h (header z) 0;
  '(u0, _) ← upd !! 0%nat;
  l0 ← get_level h u0 0;
  match forward l0 with
  | None => Some (h, z, None)
  | Some x =>
    xn ← h !! x;
    if (sc =? score xn) && match ele xn with Some e' => sdscmp e' e =? 0 | None => false end then
      '(h, z) ← zslDeleteNode h z x upd;
      Some (if keep then h else delete x h, z, Some x)
    else Some (h, z, None)
  end.

Definition zslValueGteMin (value : Z) (spec : zrangespec) : bool :=
  if minex spec then value >? rmin spec else value >=? rmin spec.

Definition zslValueLteMax (value : Z) (spec : zrangespec) : bool :=
  if maxex spec then value <? rmax spec else value <=? rmax spec.

(** The part of [zslIsInRange] and [zslIsInLexRange] that looks at the two ends. *)
Definition zsl_ends_in (gte lte : zskiplistNode -> bool) (h : heap) (z : zskiplist) : option bool :=
  match tail z with
  | None => Some false
  | Some x =>
    xn ← h !! x;
    if negb (gte xn) then Some false else
    l0 ← get_level h (header z) 0;
    match forward l0 with
    | None => Some false
    | Some x => xn ← h !! x; Some (lte xn)
    end
  end.

(** The bodies shared by the score and the lexicographic ranges. *)
Definition zsl_first_in (gte lte : zskiplistNode -> bool) (h : heap) (z : zskiplist)
  : option (option ptr) :=
  upd ← zsl_search (zlevel z) (fun _ n => negb (gte n)) 64 h (header z) 0;
  '(u0, _) ← upd !! 0%nat;
  l0 ← get_level h u0 0;
  x ← forward l0; (* serverAssert *)
  xn ← h !! x;
  Some (if lte xn then Some x else None).

Definition zsl_last_in (gte lte : zskiplistNode -> bool) (h : heap) (z : zskiplist)
  : option (option ptr) :=
  upd ← zsl_search (zlevel z) (fun _ n => lte n) 64 h (header z) 0;
  '(u0, _) ← upd !! 0%nat;
  xn ← h !! u0;
  Some (if gte xn then Some u0 else None).

Definition score_gte (range : zrangespec) (n : zskiplistNode) : bool := zslValueGteMin (score n) range.
Definition score_lte (range : zrangespec) (n : zskiplistNode) : bool := zslValueLteMax (score n) range.

Definition zslIsInRange (h : heap) (z : zskiplist) (range : zrangespec) : option bool :=
  if (rmin range >? rmax range) ||
     ((rmin range =? rmax range) && (minex range || maxex range)) then Some false else
  zsl_ends_in (score_gte range) (score_lte range) h z.

Definition zslFirstInRange (h : heap) (z : zskiplist) (range : zrangespec) : option (option ptr) :=
  inside ← zslIsInRange h z range;
  if negb inside then Some None else zsl_first_in (score_gte range) (score_lte range) h z.

Definition zslLastInRange (h : heap) (z : zskiplist) (range : zrangespec) : option (option ptr) :=
  inside ← zslIsInRange h z range;
  if negb inside then Some None else zsl_last_in (score_gte range) (score_lte range) h z.

(** An end of a lexicographic range: one of the two shared strings, compared by
    address, or the string of the command. *)
Inductive lexbound := MinString | MaxString | LexStr (s : sds).

Record zlexrangespec := LexRange { lmin : lexbound; lmax : lexbound; lminex : bool; lmaxex : bool }.

(** The contents of an end. *)
Definition lexbytes (b : lexbound) : sds :=
  match b with MinString => lit "minstring" | MaxString => lit "maxstring" | LexStr s => s end.

Definition sdscmplex (a b : lexbound) : Z :=
  match a, b with
  | MinString, MinString | MaxString, MaxString => 0
  | MinString, _ | _, MaxString => -1
  | MaxString, _ | _, MinString => 1
  | LexStr a, LexStr b => sdscmp a b
  end.

Definition zslLexValueGteMin (value : sds) (spec : zlexrangespec) : bool :=
  if lminex spec then sdscmplex (LexStr value) (lmin spec) >? 0
  else sdscmplex (LexStr value) (lmin spec) >=? 0.

Definition zslLexValueLteMax (value : sds) (spec : zlexrangespec) : bool :=
  if lmaxex spec then sdscmplex (LexStr value) (lmax spec) <? 0
  else sdscmplex (LexStr value) (lmax spec) <=? 0.

(** [x->ele] of the header is [NULL]; the comparison never sees it. *)
Definition lex_gte (range : zlexrangespec) (n : zskiplistNode) : bool :=
  match ele n with Some e => zslLexValueGteMin e range | None => false end.
Definition lex_lte (range : zlexrangespec) (n : zskiplistNode) : bool :=
  match ele n with Some e => zslLexValueLteMax e range | None => false end.

Definition zslIsInLexRange (h : heap) (z : zskiplist) (range : zlexrangespec) : option bool :=
  if (sdscmplex (lmin range) (lmax range) >? 1) ||
     ((sdscmp (lexbytes (lmin range)) (lexbytes (lmax range)) =? 0) && (lminex range || lmaxex range))
  then Some false else zsl_ends_in (lex_gte range) (lex_lte range) h z.

Definition zslFirstInLexRange (h : heap) (z : zskiplist) (range : zlexrangespec) : option (option ptr) :=
  inside ← zslIsInLexRange h z range;
  if negb inside then Some None else zsl_first_in (lex_gte range) (lex_lte range) h z.

Definition zslLastInLexRange (h : heap) (z : zskiplist) (range : zlexrangespec) : option (option ptr) :=
  inside ← zslIsInLexRange h z range;
  if negb inside then Some None else zsl_last_in (lex_gte range) (lex_lte range) h z.

(** The deletion loop of the three range deletions: [keep_going] sees the rank
    [traversed] and the node; the dictionary view of the sorted set loses the
    element too. *)
Fixpoint zslDeleteRange_loop (fuel : nat) (keep_going : Z -> zskiplistNode -> bool) (h : heap)
    (z : zskiplist) (d : gmap sds Z) (upd : list (ptr * Z)) (x : option ptr) (traversed removed : Z)
  : option (heap * zskiplist * gmap sds Z * Z) :=
  match fuel with
  | O => None
  | S fuel =>
    match x with
    | None => Some (h, z, d, removed)
    | Some x =>
      xn ← h !! x;
      if keep_going traversed xn then
        l0 ← get_level h x 0;
        '(h, z) ← zslDeleteNode h z x upd;
        e ← ele xn;
        zslDeleteRange_loop fuel keep_going (delete x h) z (delete e d) upd (forward l0)
          (u64 (traversed + 1)) (u64 (removed + 1))
      else Some (h, z, d, removed)
    end
  end.

Definition zslDeleteRange (skip : Z -> zskiplistNode -> bool) (keep_going : Z -> zskiplistNode -> bool)
    (h : heap) (z : zskiplist) (d : gmap sds Z) : option (heap * zskiplist * gmap sds Z * Z) :=
  upd ← zsl_search (zlevel z) skip 64 h (header z) 0;
  '(u0, rank0) ← upd !! 0%nat;
  l0 ← get_level h u0 0;
  zslDeleteRange_loop (S (size h)) keep_going h z d upd (forward l0) (u64 (rank0 + 1)) 0.

Definition zslDeleteRangeByScore (h : heap) (z : zskiplist) (range : zrangespec) (d : gmap sds Z) :=
  zslDeleteRange
    (fun _ n => if minex range then score n <=? rmin range else score n <? rmin range)
    (fun _ n => if maxex range then score n <? rmax range else score n <=? rmax range) h z d.

Definition zslDeleteRangeByLex (h : heap) (z : zskiplist) (range : zlexrangespec) (d : gmap sds Z) :=
  zslDeleteRange (fun _ n => negb (lex_gte range n)) (fun _ n => lex_lte range n) h z d.

Definition zslDeleteRangeByRank (h : heap) (z : zskiplist) (start end_ : Z) (d : gmap sds Z) :=
  zslDeleteRange (fun rank _ => rank <? start) (fun traversed _ => traversed <=? end_) h z d.

(** [zslGetRank]: the comparison is [<=], and the element is compared at each level. *)
Definition node_le (sc : Z) (e : sds) (_ : Z) (n : zskiplistNode) : bool :=
  (score n <? sc) || ((score n =? sc) &&
    match ele n with Some e' => sdscmp e' e <=? 0 | None => false end).

Fixpoint zslGetRank_loop (i : nat) (h : heap) (sc : Z) (e : sds) (x : ptr) (rank : Z) : option Z :=
  match i with
  | O => Some 0
  | S i =>
    '(x, rank) ← zsl_walk (S (size h)) (node_le sc e) 64 h i x rank;
    xn ← h !! x;
    if match ele xn with Some e' => sdscmp e' e =? 0 | None => false end then Some rank
    else zslGetRank_loop i h sc e x rank
  end.

Definition zslGetRank (h : heap) (z : zskiplist) (sc : Z) (e : sds) : option Z :=
  zslGetRank_loop (zlevel z) h sc e (header z) 0.

Fixpoint zslGetElementByRank_loop (i : nat) (h : heap) (target : Z) (x : ptr) (traversed : Z)
  : option (option ptr) :=
  match i with
  | O => Some None
  | S i =>
    '(x, traversed) ← zsl_walk (S (size h)) (fun r _ => r <=? target) 64 h i x traversed;
    if traversed =? target then Some (Some x)
    else zslGetElementByRank_loop i h target x traversed
  end.

Definition zslGetElementByRank (h : heap) (z : zskiplist) (target : Z) : option (option ptr) :=
  zslGetElementByRank_loop (zlevel z) h target (header z) 0.

(** ** The invariant *)

(** A node of the skiplist: its address, height, score and element. *)
Record snode := SNode { sp : ptr; sh : nat; ss : Z; se : sds }.

Implicit Types (h : heap) (z : zskiplist) (nodes A B P Q R T : list snode) (n : snode).

(** The level-[i] link a node must have when [l] are the nodes after it: to the
    first one high enough, or [NULL] with the number of nodes that follow. *)
Fixpoint fwd (i : nat) (l : list snode) : zskiplistLevel :=
  match l with
  | [] => Level None 0
  | n :: l => if (i <? sh n)%nat then Level (Some (sp n)) 1
              else Level (forward (fwd i l)) (span (fwd i l) + 1)
  end.

(** Everything of a node but the links. *)
Definition info h (p : ptr) : option (option sds * Z * option ptr * nat) :=
  (fun x => (ele x, score x, backward x, length (level x))) <$> h !! p.

Definition snode_lt (a b : snode) : Prop :=
  ss a < ss b \/ (ss a = ss b /\ lexcmp (se a) (se b) < 0).

(** The order of the elements is that of [sdscmp] on strings of less than 2^31 bytes. *)
Record is_zsl h z nodes : Prop := {
  z_nodup : NoDup (header z :: (sp <$> nodes));
  z_hdr : info h (header z) = Some (None, 0, None, ZSKIPLIST_MAXLEVEL);
  z_node : forall A n B, nodes = A ++ n :: B ->
    info h (sp n) = Some (Some (se n), ss n, sp <$> last A, sh n);
  z_hlv : forall i, (i < zlevel z)%nat -> get_level h (header z) i = Some (fwd i nodes);
  z_hhi : forall i, (zlevel z <= i < ZSKIPLIST_MAXLEVEL)%nat ->
    exists s, get_level h (header z) i = Some (Level None s);
  z_lv : forall A n B i, nodes = A ++ n :: B -> (i < sh n)%nat ->
    get_level h (sp n) i = Some (fwd i B);
  z_height : Forall (fun n => (1 <= sh n <= zlevel z)%nat) nodes;
  z_level : (1 <= zlevel z <= ZSKIPLIST_MAXLEVEL)%nat;
  z_tail : tail z = sp <$> last nodes;
  z_len : zlength z = Z.of_nat (length nodes);
  z_small : Z.of_nat (length nodes) < 2 ^ 32;
  z_sorted : StronglySorted snode_lt nodes;
  z_uniq : NoDup (se <$> nodes);
  z_short : Forall (fun n => short (se n)) nodes;
}.

Definition low (i : nat) n : Prop := (sh n <= i)%nat.

#[global] Instance low_dec i n : Decision (low i n).
Proof. unfold low. apply _. Defined.

Lemma fwd_cases i l :
  (Forall (low i) l /\ fwd i l = Level None (Z.of_nat (length l))) \/
  exists T n R, l = T ++ n :: R /\ Forall (low i) T /\ (i < sh n)%nat /\
    fwd i l = Level (Some (sp n)) (Z.of_nat (length T) + 1).
Proof.
  induction l as [|n l IH]; [by left|]. cbn [fwd]. destruct (Nat.ltb_spec i (sh n)) as [Hn|Hn].
  - right. exists [], n, l. done.
  - destruct IH as [[Hl ->]|(T & m & R & -> & HT & Hm & ->)]; cbn [forward span].
    + left. split; [by constructor|]. f_equal. cbn [length]. lia.
    + right. exists (n :: T), m, R. split; [done|]. split; [by constructor|]. split; [done|].
      f_equal. cbn [length]. lia.
Qed.

Lemma fwd_low i T l :
  Forall (low i) T ->
  fwd i (T ++ l) = Level (forward (fwd i l)) (span (fwd i l) + Z.of_nat (length T)).
Proof.
  induction 1 as [|n T Hn HT IH]; cbn [app fwd].
  - cbn [length]. rewrite Z.add_0_r. by destruct (fwd i l).
  - destruct (Nat.ltb_spec i (sh n)); [unfold low in Hn; lia|]. rewrite IH. cbn [forward span length].
    f_equal. lia.
Qed.

Lemma fwd_high i T l l' : ~ Forall (low i) T -> fwd i (T ++ l) = fwd i (T ++ l').
Proof.
  induction T as [|n T IH]; intros Hn; [by destruct Hn|]. cbn [app fwd].
  destruct (Nat.ltb_spec i (sh n)) as [|Hge]; [done|]. rewrite IH; [done|].
  intros HT. apply Hn. by constructor.
Qed.

(** ** Positions: the node before a suffix, or the header *)

Definition cur z A : ptr := match last A with Some n => sp n | None => header z end.
Definition hcur (top : nat) A : nat := match last A with Some n => sh n | None => top end.

Lemma cur_snoc z A n : cur z (A ++ [n]) = sp n.
Proof. unfold cur. by rewrite last_snoc. Qed.
Lemma hcur_snoc top A n : hcur top (A ++ [n]) = sh n.
Proof. unfold hcur. by rewrite last_snoc. Qed.

Lemma snoc_cases (A : list snode) : A = [] \/ exists A' n, A = A' ++ [n].
Proof.
  destruct (decide (length A = 0%nat)) as [E|E]; [left; by apply nil_length_inv|].
  right. destruct (exists_last (l := A)) as (A' & n & ->); [by intros ->|eauto].
Qed.

Lemma cur_level h z nodes A B i :
  is_zsl h z nodes -> nodes = A ++ B -> (i < hcur (zlevel z) A)%nat ->
  get_level h (cur z A) i = Some (fwd i B).
Proof.
  intros Hz -> Hi. destruct (snoc_cases A) as [->|(A' & n & ->)].
  - by apply Hz.
  - rewrite cur_snoc. rewrite hcur_snoc in Hi. apply (z_lv _ _ _ Hz A'); [|done]. by rewrite <-app_assoc.
Qed.

Lemma last_in A n : last A = Some n -> n ∈ A.
Proof. destruct (snoc_cases A) as [->|(A' & m & ->)]; [done|]. rewrite last_snoc. intros [= ->].
  apply elem_of_app. right. by left. Qed.

Lemma cur_in z A : cur z A ∈ header z :: (sp <$> A).
Proof.
  unfold cur. destruct (last A) as [n|] eqn:E; [|by left].
  right. apply list_elem_of_fmap. exists n. split; [done|by apply last_in].
Qed.

Lemma cur_other z A C n B : NoDup (header z :: (sp <$> (A ++ C ++ n :: B))) -> cur z A <> sp n.
Proof.
  intros Hn E. pose proof (cur_in z A) as Hc. rewrite E in Hc.
  rewrite !fmap_app, fmap_cons, app_comm_cons in Hn. apply NoDup_app in Hn as (_ & Hd & _).
  apply (Hd _ Hc), elem_of_app. right. by left.
Qed.

(** A position is determined by its pointer. *)
Lemma cur_inj z nodes A B A' B' :
  NoDup (header z :: (sp <$> nodes)) -> nodes = A ++ B -> nodes = A' ++ B' ->
  cur z A = cur z A' -> A = A'.
Proof.
  intros Hn E1 E2 Hc.
  rewrite E1 in E2. destruct (app_eq_inv _ _ _ _ E2) as [(C & -> & ->)|(C & -> & ->)];
    (destruct (snoc_cases C) as [->|(C' & n & ->)]; [by rewrite app_nil_r|]); exfalso;
    rewrite app_assoc, cur_snoc in Hc; subst nodes; rewrite <-!app_assoc in Hn; cbn [app] in Hn.
  - by apply (cur_other z A' C' n B Hn).
  - by apply (cur_other z A C' n B' Hn).
Qed.

(** ** Searching *)

(** The heap node of [n], as far as the loop conditions look at it. *)
Definition agrees (go : Z -> zskiplistNode -> bool) (r : Z) n (b : bool) : Prop :=
  forall hn, ele hn = Some (se n) -> score hn = ss n -> short (se n) -> go r hn = b.

(** The condition holds exactly on the nodes of the prefix [P]. *)
Record splits (go : Z -> zskiplistNode -> bool) P Q : Prop := {
  sp_yes : forall A n B, P = A ++ n :: B -> agrees go (Z.of_nat (length A) + 1) n true;
  sp_no : forall A n B, Q = A ++ n :: B -> agrees go (Z.of_nat (length P + length A) + 1) n false;
}.

Lemma node_heap h z nodes A n B :
  is_zsl h z nodes -> nodes = A ++ n :: B ->
  exists hn, h !! sp n = Some hn /\ ele hn = Some (se n) /\ score hn = ss n /\
    backward hn = sp <$> last A /\ length (level hn) = sh n.
Proof.
  intros Hz E. pose proof (z_node _ _ _ Hz A n B E) as Hi. unfold info in Hi.
  destruct (h !! sp n) as [hn|]; [|done]. cbn in Hi. simplify_eq. exists hn. by split_and!.
Qed.

Lemma node_short h z nodes A n B : is_zsl h z nodes -> nodes = A ++ n :: B -> short (se n).
Proof. intros Hz ->. pose proof (z_short _ _ _ Hz) as Hs. by apply Forall_app in Hs as [_ [? _]%Forall_cons]. Qed.

Lemma nodes_size h z nodes : is_zsl h z nodes -> (length nodes < size h)%nat.
Proof.
  intros Hz. pose proof (z_nodup _ _ _ Hz) as Hn.
  apply (Nat.lt_le_trans _ (length (header z :: (sp <$> nodes)))); [cbn; rewrite length_fmap; lia|].
  rewrite <-(size_list_to_set (C := gset ptr)) by done. rewrite <-size_dom.
  apply subseteq_size. intros p Hp. apply elem_of_list_to_set, elem_of_cons in Hp.
  apply elem_of_dom. destruct Hp as [->|Hp].
  - pose proof (z_hdr _ _ _ Hz) as Hi. unfold info in Hi. destruct (h !! header z); [by eexists|done].
  - apply list_elem_of_fmap in Hp as (n & -> & Hin).
    apply list_elem_of_split in Hin as (A & B & E). destruct (node_heap _ _ _ _ _ _ Hz E) as (hn & -> & _).
    by eexists.
Qed.

Lemma zsl_walk_spec go w h z nodes i fuel A A' Q :
  is_zsl h z nodes -> nodes = A ++ A' ++ Q -> splits go (A ++ A') Q -> 32 <= w ->
  (i < hcur (zlevel z) A)%nat -> (length A' < fuel)%nat ->
  exists T R, A' = T ++ R /\ Forall (low i) R /\ (i < hcur (zlevel z) (A ++ T))%nat /\
    zsl_walk fuel go w h i (cur z A) (Z.of_nat (length A)) =
      Some (cur z (A ++ T), Z.of_nat (length (A ++ T))).
Proof.
  intros Hz. revert A A'. induction fuel as [|fuel IH]; intros A A' E Hs Hw Hi Hf; [lia|].
  cbn [zsl_walk]. rewrite (cur_level h z nodes A (A' ++ Q) i Hz E Hi). mred.
  assert (Hlen : Z.of_nat (length A) + Z.of_nat (length A') + Z.of_nat (length Q) < 2 ^ 32).
  { pose proof (z_small _ _ _ Hz) as Hl. rewrite E, !length_app in Hl. lia. }
  assert (2 ^ 32 <= 2 ^ w) by (apply Z.pow_le_mono_r; lia).
  destruct (fwd_cases i A') as [[Hlow _]|(T & n & R & -> & HT & Hn & _)].
  - exists [], A'. split; [done|]. split; [done|]. rewrite app_nil_r. split; [done|].
    destruct (fwd_cases i (A' ++ Q)) as [[_ ->]|(T & n & R & Es & HT & Hn & ->)]; [done|].
    cbn [forward span].
    assert (exists Q1, T = A' ++ Q1 /\ Q = Q1 ++ n :: R) as (Q1 & -> & ->).
    { clear -Es Hlow Hn. revert T Es. induction Hlow as [|a A' Ha _ IH]; intros T Es; cbn in Es.
      - exists T. done.
      - destruct T as [|t T]; cbn in Es; simplify_eq.
        { unfold low in Ha. lia. }
        destruct (IH T) as (Q1 & -> & ->); [done|]. eauto. }
    assert (E' : nodes = (A ++ A' ++ Q1) ++ n :: R) by (by rewrite E, <-!app_assoc).
    destruct (node_heap h z nodes _ n R Hz E') as (hn & -> & He & Hsc & _).
    mred. rewrite wrapu_small by (rewrite !length_app in *; cbn [length] in *; lia).
    assert (Hgo := sp_no _ _ _ Hs Q1 n R eq_refl hn He Hsc (node_short _ _ _ _ _ _ Hz E')).
    rewrite !length_app in *.
    replace (Z.of_nat (length A) + (Z.of_nat (length A' + length Q1) + 1))
      with (Z.of_nat (length A + length A' + length Q1) + 1) by lia.
    by rewrite Hgo.
  - rewrite <-app_assoc in *. cbn [app] in *.
    rewrite (fwd_low i T) by done. cbn [fwd]. destruct (Nat.ltb_spec i (sh n)); [|lia]. cbn [forward span].
    assert (E' : nodes = (A ++ T) ++ n :: R ++ Q) by (by rewrite E, <-!app_assoc).
    destruct (node_heap h z nodes _ n _ Hz E') as (hn & -> & He & Hsc & _).
    mred. rewrite !length_app in *. cbn [length] in *. rewrite wrapu_small by lia.
    assert (Hgo : agrees go (Z.of_nat (length (A ++ T)) + 1) n true).
    { eapply (sp_yes _ _ _ Hs). by rewrite <-!app_assoc. }
    rewrite length_app in Hgo.
    replace (Z.of_nat (length A) + (1 + Z.of_nat (length T)))
      with (Z.of_nat (length A + length T) + 1) by lia.
    rewrite (Hgo hn He Hsc (node_short _ _ _ _ _ _ Hz E')).
    destruct (IH (A ++ T ++ [n]) R) as (T' & R' & -> & HR & Hh & Hwalk); try done.
    + by rewrite E, <-!app_assoc.
    + by rewrite <-!app_assoc.
    + rewrite app_assoc, hcur_snoc. done.
    + lia.
    + exists (T ++ n :: T'), R'. split; [by rewrite <-app_assoc|]. split; [done|].
      rewrite <-!app_assoc in *. cbn [app] in *. split; [done|].
      rewrite app_assoc, cur_snoc in Hwalk. rewrite !length_app in *. cbn [length] in *.
      replace (Z.of_nat (length A + length T) + 1) with (Z.of_nat (length A + length T + 1)) by lia.
      exact Hwalk.
Qed.

(** [update] and [rank]: at level [j] the last node of the prefix high enough. *)
Definition upd_ok z (top k : nat) P (upd : list (ptr * Z)) : Prop :=
  forall j, (j < k)%nat -> exists A R, P = A ++ R /\
    upd !! j = Some (cur z A, Z.of_nat (length A)) /\ Forall (low j) R /\ (j < hcur top A)%nat.

Lemma zsl_search_spec go w h z nodes k A A' Q :
  is_zsl h z nodes -> nodes = A ++ A' ++ Q -> splits go (A ++ A') Q -> 32 <= w ->
  (k <= hcur (zlevel z) A)%nat ->
  exists upd, zsl_search k go w h (cur z A) (Z.of_nat (length A)) = Some upd /\ length upd = k /\
    upd_ok z (zlevel z) k (A ++ A') upd.
Proof.
  intros Hz. revert A A'. induction k as [|k IH]; intros A A' E Hs Hw Hk.
  { exists []. split; [done|]. split; [done|]. intros j Hj. lia. }
  cbn [zsl_search].
  destruct (zsl_walk_spec go w h z nodes k (S (size h)) A A' Q) as (T & R & -> & HR & Hh & ->); try done.
  { pose proof (nodes_size _ _ _ Hz) as Hsz. rewrite E, !length_app in Hsz. lia. }
  mred. rewrite <-app_assoc in E.
  destruct (IH (A ++ T) R) as (upd & -> & Hlen & Hok); [by rewrite E, <-app_assoc|by rewrite <-app_assoc|done|lia|].
  mred. eexists. split; [done|]. split; [rewrite length_app; cbn; lia|].
  rewrite <-app_assoc in Hok. intros j Hj. destruct (decide (j = k)) as [->|].
  - exists (A ++ T), R. split; [by rewrite app_assoc|]. split; [|done].
    rewrite lookup_app_r by lia. by rewrite Hlen, Nat.sub_diag.
  - destruct (Hok j) as (A0 & R0 & ? & Hl & ?); [lia|]. exists A0, R0. split; [done|]. split; [|done].
    by apply lookup_app_l_Some.
Qed.

Lemma zsl_search_top go w h z P Q :
  is_zsl h z (P ++ Q) -> splits go P Q -> 32 <= w ->
  exists upd, zsl_search (zlevel z) go w h (header z) 0 = Some upd /\ length upd = zlevel z /\
    upd_ok z (zlevel z) (zlevel z) P upd.
Proof. intros Hz Hs Hw. apply (zsl_search_spec go w h z (P ++ Q) (zlevel z) [] P Q); done. Qed.

Lemma upd_zero z top k P upd :
  upd_ok z top k P upd -> (0 < k)%nat -> Forall (fun n => (1 <= sh n)%nat) P ->
  upd !! 0%nat = Some (cur z P, Z.of_nat (length P)).
Proof.
  intros Hok Hk HP. destruct (Hok 0%nat Hk) as (A & R & -> & -> & HR & _).
  assert (R = []) as ->; [|by rewrite app_nil_r].
  destruct R as [|n R]; [done|]. apply Forall_app in HP as [_ [Hn _]%Forall_cons].
  apply Forall_cons in HR as [Hlow _]. unfold low in Hlow. lia.
Qed.

(** The position of [update[j]] is the only high one with low nodes after it. *)
Lemma upd_unique j top A R A' R' :
  A ++ R = A' ++ R' -> Forall (low j) R -> Forall (low j) R' ->
  (j < hcur top A)%nat -> (j < hcur top A')%nat -> A = A'.
Proof.
  intros E HR HR' HA HA'.
  assert (Hgen : forall X Y C, Forall (low j) (C ++ Y) -> (j < hcur top (X ++ C))%nat -> X = X ++ C).
  { intros X Y C HC Hh. destruct (snoc_cases C) as [->|(C' & n & ->)]; [by rewrite app_nil_r|].
    rewrite app_assoc, hcur_snoc in Hh. apply Forall_app in HC as [[_ Hn]%Forall_app _].
    apply Forall_cons in Hn as [Hn _]. unfold low in Hn. lia. }
  destruct (app_eq_inv _ _ _ _ E) as [(C & -> & ->)|(C & -> & ->)].
  - symmetry. by eapply Hgen.
  - by eapply Hgen.
Qed.

(** ** Updating links *)

(** [h'] differs from [h] only in the level-[i] links of [k <= i < k + n], where the
    link of [q] is [f q i]. *)
Definition relinks (k n : nat) (f : ptr -> nat -> option zskiplistLevel) h h' : Prop :=
  (forall q, info h' q = info h q) /\
  (forall q j, get_level h' q j = if bool_decide (k <= j < k + n)%nat then f q j else get_level h q j).

Lemma set_level_spec h p i lv old :
  get_level h p i = Some old ->
  exists h', set_level h p i lv = Some h' /\ (forall q, info h' q = info h q) /\
    (forall q j, get_level h' q j = if bool_decide (q = p /\ j = i) then Some lv else get_level h q j).
Proof.
  unfold get_level, set_level, info. destruct (h !! p) as [n|] eqn:Hp; [|done]. mred. intros Hl. rewrite Hl. mred.
  eexists. split; [done|]. split.
  - intros q. destruct (decide (q = p)) as [->|Hne].
    + rewrite lookup_insert_eq, Hp. cbn. by rewrite length_insert.
    + by rewrite lookup_insert_ne by done.
  - intros q j. destruct (decide (q = p)) as [->|Hne].
    + rewrite lookup_insert_eq, Hp. mred. cbn [level]. case_bool_decide as Hj.
      * destruct Hj as [_ ->]. apply list_lookup_insert_eq. by eapply lookup_lt_Some.
      * rewrite list_lookup_insert_ne; [done|]. intros ->. by apply Hj.
    + rewrite lookup_insert_ne by done. case_bool_decide as Hj; [|done]. by destruct Hj.
Qed.

Lemma set_backward_spec h p b e s b0 k :
  info h p = Some (e, s, b0, k) ->
  exists h', set_backward h p b = Some h' /\ (forall q j, get_level h' q j = get_level h q j) /\
    (forall q, info h' q = if bool_decide (q = p) then Some (e, s, b, k) else info h q).
Proof.
  unfold get_level, set_backward, info. destruct (h !! p) as [nd|] eqn:Hp; [|done]. cbn. intros [= <- <- <- <-].
  eexists. split; [done|]. split.
  - intros q j. destruct (decide (q = p)) as [->|]; [by rewrite lookup_insert_eq, Hp|by rewrite lookup_insert_ne].
  - intros q. destruct (decide (q = p)) as [->|].
    + by rewrite lookup_insert_eq, bool_decide_true.
    + by rewrite lookup_insert_ne, bool_decide_false.
Qed.

Lemma relinks_step k (n : nat) f g h h1 h2 :
  (forall q, info h1 q = info h q) ->
  (forall q j, get_level h1 q j = if bool_decide (j = k) then f q k else get_level h q j) ->
  (forall q j, (S k <= j)%nat -> g q j = f q j) ->
  relinks (S k) n g h1 h2 -> relinks k (S n) f h h2.
Proof.
  intros Hi1 Hl1 Hg [Hi2 Hl2]. split; [intros q; by rewrite Hi2|]. intros q j. rewrite Hl2, Hl1.
  destruct (decide (j = k)) as [->|Hj].
  - rewrite bool_decide_false, !bool_decide_true by lia. done.
  - rewrite (bool_decide_false (j = k)) by done.
    destruct (decide (S k <= j < S k + n)%nat).
    + rewrite !bool_decide_true by lia. apply Hg. lia.
    + rewrite !bool_decide_false by lia. done.
Qed.

Lemma relinks_0 k f h : relinks k 0 f h h.
Proof. split; [done|]. intros q j. by rewrite bool_decide_false by lia. Qed.

Lemma zslInsert_raise_spec (n k : nat) h z upd :
  (forall i, (k <= i < k + n)%nat -> exists s, get_level h (header z) i = Some (Level None s)) ->
  exists h', zslInsert_raise n k h z upd = Some (h', upd ++ replicate n (header z, 0)) /\
    relinks k n (fun q j => if bool_decide (q = header z) then Some (Level None (u32 (zlength z)))
                            else get_level h q j) h h'.
Proof.
  revert k h upd. induction n as [|n IH]; intros k h upd Hl.
  { exists h. cbn. rewrite app_nil_r. split; [done|apply relinks_0]. }
  cbn [zslInsert_raise]. destruct (Hl k) as [s Hs]; [lia|]. rewrite Hs. mred. cbn [forward].
  destruct (set_level_spec h (header z) k (Level None (u32 (zlength z))) _ Hs) as (h1 & -> & Hi1 & Hl1). mred.
  destruct (IH (S k) h1 (upd ++ [(header z, 0)])) as (h2 & -> & Hr).
  { intros i Hi. destruct (Hl i) as [s' Hs']; [lia|]. exists s'. rewrite Hl1, bool_decide_false by lia. done. }
  exists h2. split; [by rewrite <-app_assoc|].
  eapply relinks_step; [exact Hi1| | |exact Hr].
  - intros q j. rewrite Hl1. destruct (decide (j = k)) as [->|].
    + rewrite (bool_decide_true (k = k)) by done. repeat case_bool_decide; tauto.
    + rewrite !bool_decide_false by tauto. done.
  - intros q j Hj. cbn. case_bool_decide; [done|]. by rewrite Hl1, bool_decide_false by lia.
Qed.

(** Linking the new node at level [j]. *)
Definition link_at h (x : ptr) (rank0 : Z) (upd : list (ptr * Z)) (q : ptr) (j : nat)
  : option zskiplistLevel :=
  '(u, r) ← upd !! j;
  ulv ← get_level h u j;
  if bool_decide (q = u) then Some (Level (Some x) (u32 (u32 (rank0 - r) + 1)))
  else if bool_decide (q = x) then Some (Level (forward ulv) (u32 (span ulv - u32 (rank0 - r))))
  else get_level h q j.

Definition updatable (k n : nat) h (upd : list (ptr * Z)) : Prop :=
  forall j, (k <= j < k + n)%nat -> exists u r lv, upd !! j = Some (u, r) /\ get_level h u j = Some lv.

Lemma updatable_next k (n : nat) h h1 upd :
  updatable k (S n) h upd -> (forall q j, j <> k -> get_level h1 q j = get_level h q j) ->
  updatable (S k) n h1 upd.
Proof.
  intros Hu Hl j Hj. destruct (Hu j) as (u & r & lv & ? & ?); [lia|]. exists u, r, lv.
  split; [done|]. by rewrite Hl by lia.
Qed.

Lemma zslInsert_link_spec (n k : nat) h x rank0 upd :
  updatable k n h upd ->
  (forall j, (k <= j < k + n)%nat -> is_Some (get_level h x j)) ->
  (forall j u r, (k <= j < k + n)%nat -> upd !! j = Some (u, r) -> u <> x) ->
  exists h', zslInsert_link n k h x rank0 upd = Some h' /\
    relinks k n (link_at h x rank0 upd) h h'.
Proof.
  revert k h. induction n as [|n IH]; intros k h Hu Hx Hne.
  { exists h. split; [done|apply relinks_0]. }
  cbn [zslInsert_link]. destruct (Hu k) as (u & r & lv & Hk & Hlv); [lia|]. rewrite Hk. mred. rewrite Hlv. mred.
  destruct (Hx k) as [xlv Hxk]; [lia|]. pose proof (Hne k u r ltac:(lia) Hk) as Hux.
  destruct (set_level_spec h x k (Level (forward lv) (u32 (span lv - u32 (rank0 - r)))) _ Hxk)
    as (h1 & -> & Hi1 & Hl1). mred.
  destruct (set_level_spec h1 u k (Level (Some x) (u32 (u32 (rank0 - r) + 1))) lv)
    as (h2 & -> & Hi2 & Hl2); [by rewrite Hl1, bool_decide_false by tauto|]. mred.
  assert (Hsame : forall q j, j <> k -> get_level h2 q j = get_level h q j).
  { intros q j Hj. rewrite Hl2, Hl1, !bool_decide_false by tauto. done. }
  destruct (IH (S k) h2) as (h3 & -> & Hr).
  { by eapply updatable_next. }
  { intros j Hj. rewrite Hsame by lia. apply Hx. lia. }
  { intros j u' r' Hj. apply Hne. lia. }
  exists h3. split; [done|]. eapply relinks_step; [intros q; by rewrite Hi2| | |exact Hr].
  - intros q j. destruct (decide (j = k)) as [->|].
    + rewrite (bool_decide_true (k = k)) by done. unfold link_at. rewrite Hk. mred. rewrite Hlv. mred.
      rewrite Hl2, Hl1. repeat case_bool_decide; tauto.
    + by rewrite (bool_decide_false (j = k)), Hsame by done.
  - intros q j Hj. unfold link_at. destruct (upd !! j) as [[u' r']|]; [|done]. mred.
    by rewrite !Hsame by lia.
Qed.

(** Spans over the new node at the levels it does not have. *)
Definition bump_at h (upd : list (ptr * Z)) (q : ptr) (j : nat) : option zskiplistLevel :=
  '(u, r) ← upd !! j;
  ulv ← get_level h u j;
  if bool_decide (q = u) then Some (Level (forward ulv) (u32 (span ulv + 1))) else get_level h q j.

Lemma zslInsert_bump_spec (n k : nat) h upd :
  updatable k n h upd ->
  exists h', zslInsert_bump n k h upd = Some h' /\ relinks k n (bump_at h upd) h h'.
Proof.
  revert k h. induction n as [|n IH]; intros k h Hu.
  { exists h. split; [done|apply relinks_0]. }
  cbn [zslInsert_bump]. destruct (Hu k) as (u & r & lv & Hk & Hlv); [lia|]. rewrite Hk. mred. rewrite Hlv. mred.
  destruct (set_level_spec h u k (Level (forward lv) (u32 (span lv + 1))) _ Hlv)
    as (h1 & -> & Hi1 & Hl1). mred.
  assert (Hsame : forall q j, j <> k -> get_level h1 q j = get_level h q j).
  { intros q j Hj. rewrite Hl1, !bool_decide_false by tauto. done. }
  destruct (IH (S k) h1) as (h2 & -> & Hr); [by eapply updatable_next|].
  exists h2. split; [done|]. eapply relinks_step; [exact Hi1| | |exact Hr].
  - intros q j. destruct (decide (j = k)) as [->|].
    + rewrite (bool_decide_true (k = k)) by done. unfold bump_at. rewrite Hk. mred. rewrite Hlv. mred.
      rewrite Hl1. repeat case_bool_decide; tauto.
    + by rewrite (bool_decide_false (j = k)), Hsame by done.
  - intros q j Hj. unfold bump_at. destruct (upd !! j) as [[u' r']|]; [|done]. mred.
    by rewrite !Hsame by lia.
Qed.

(** Unlinking [x] at level [j]. *)
Definition unlink_at h (x : ptr) (upd : list (ptr * Z)) (q : ptr) (j : nat) : option zskiplistLevel :=
  '(u, r) ← upd !! j;
  ulv ← get_level h u j;
  if bool_decide (q = u) then
    if bool_decide (forward ulv = Some x) then
      xlv ← get_level h x j; Some (Level (forward xlv) (u32 (span ulv + u32 (span xlv - 1))))
    else Some (Level (forward ulv) (u32 (span ulv - 1)))
  else get_level h q j.

Lemma zslDeleteNode_loop_spec (n k : nat) h x upd :
  updatable k n h upd ->
  (forall j u r lv, (k <= j < k + n)%nat -> upd !! j = Some (u, r) -> get_level h u j = Some lv ->
     forward lv = Some x -> is_Some (get_level h x j)) ->
  exists h', zslDeleteNode_loop n k h x upd = Some h' /\ relinks k n (unlink_at h x upd) h h'.
Proof.
  revert k h. induction n as [|n IH]; intros k h Hu Hx.
  { exists h. split; [done|apply relinks_0]. }
  cbn [zslDeleteNode_loop]. destruct (Hu k) as (u & r & lv & Hk & Hlv); [lia|].
  rewrite Hk. mred. rewrite Hlv. mred.
  assert (exists h1, (if bool_decide (forward lv = Some x) then
           xlv ← get_level h x k;
           set_level h u k (Level (forward xlv) (u32 (span lv + u32 (span xlv - 1))))
         else set_level h u k (Level (forward lv) (u32 (span lv - 1)))) = Some h1 /\
      (forall q, info h1 q = info h q) /\
      (forall q j, get_level h1 q j = if bool_decide (j = k) then unlink_at h x upd q k else get_level h q j))
    as (h1 & -> & Hi1 & Hl1).
  { unfold unlink_at. rewrite Hk. mred. rewrite Hlv. mred. case_bool_decide as Hf.
    - destruct (Hx k u r lv) as [xlv Hxl]; [lia|done..|]. rewrite Hxl. mred.
      destruct (set_level_spec h u k (Level (forward xlv) (u32 (span lv + u32 (span xlv - 1)))) _ Hlv)
        as (h1 & -> & Hi1 & Hl1). exists h1. split; [done|]. split; [done|].
      intros q j. rewrite Hl1. destruct (decide (j = k)) as [->|]; repeat case_bool_decide; tauto.
    - destruct (set_level_spec h u k (Level (forward lv) (u32 (span lv - 1))) _ Hlv)
        as (h1 & -> & Hi1 & Hl1). exists h1. split; [done|]. split; [done|].
      intros q j. rewrite Hl1. destruct (decide (j = k)) as [->|]; repeat case_bool_decide; tauto. }
  mred.
  assert (Hsame : forall q j, j <> k -> get_level h1 q j = get_level h q j).
  { intros q j Hj. by rewrite Hl1, bool_decide_false. }
  destruct (IH (S k) h1) as (h2 & -> & Hr); [by eapply updatable_next| |].
  { intros j u' r' lv' Hj Hu' Hlv' Hf'. rewrite Hsame in * by lia. eapply Hx; [|done..]. lia. }
  exists h2. split; [done|]. eapply relinks_step; [exact Hi1|exact Hl1| |exact Hr].
  intros q j Hj. unfold unlink_at. destruct (upd !! j) as [[u' r']|]; [|done]. mred.
  by rewrite !Hsame by lia.
Qed.

(** ** Inserting *)

Definition links_ok h z nodes : Prop :=
  forall A B j, nodes = A ++ B -> (j < hcur (zlevel z) A)%nat ->
    get_level h (cur z A) j = Some (fwd j B).

Lemma is_zsl_links h z nodes : is_zsl h z nodes -> links_ok h z nodes.
Proof. intros Hz A B j E Hj. by eapply cur_level. Qed.

Lemma links_ok_node h z nodes A n B i :
  links_ok h z nodes -> nodes = A ++ n :: B -> (i < sh n)%nat -> get_level h (sp n) i = Some (fwd i B).
Proof.
  intros Hl E Hi. rewrite <-(cur_snoc z A n). apply Hl; [by rewrite E, <-app_assoc|]. by rewrite hcur_snoc.
Qed.

(** What the search found at level [j]. *)
Lemma upd_link h z P Q upd j :
  is_zsl h z (P ++ Q) -> upd_ok z (zlevel z) (zlevel z) P upd -> (j < zlevel z)%nat ->
  exists A R, P = A ++ R /\ upd !! j = Some (cur z A, Z.of_nat (length A)) /\ Forall (low j) R /\
    (j < hcur (zlevel z) A)%nat /\
    get_level h (cur z A) j =
      Some (Level (forward (fwd j Q)) (span (fwd j Q) + Z.of_nat (length R))).
Proof.
  intros Hz Hok Hj. destruct (Hok j Hj) as (A & R & -> & Hu & HR & Hh). exists A, R.
  do 4 (split; [done|]). rewrite (cur_level h z _ A (R ++ Q) j Hz); [|by rewrite app_assoc|done].
  by rewrite fwd_low.
Qed.

Lemma fwd_span_bound j l : 0 <= span (fwd j l) <= Z.of_nat (length l).
Proof.
  destruct (fwd_cases j l) as [[_ ->]|(T & n & R & -> & _ & _ & ->)]; cbn [span]; [lia|].
  rewrite length_app. cbn [length]. lia.
Qed.

(** The two ways of looking at a position of the new list. *)
Lemma position_cases P Q (X : snode) A B :
  P ++ X :: Q = A ++ B ->
  (exists C, P = A ++ C /\ B = C ++ X :: Q) \/ (exists K, A = P ++ X :: K /\ Q = K ++ B).
Proof.
  intros E. destruct (app_eq_inv _ _ _ _ E) as [(C & -> & ->)|(C & -> & EC)]; [left; eauto|].
  destruct C as [|c C]; cbn in EC; simplify_eq.
  - left. exists []. by rewrite !app_nil_r.
  - right. eauto.
Qed.

Lemma cur_app_cons z P K X : cur z (P ++ X :: K) = match last K with Some n => sp n | None => sp X end.
Proof. unfold cur. rewrite last_app_cons. by destruct (snoc_cases K) as [->|(K' & n & ->)]; [|rewrite last_cons, last_snoc]. Qed.

Lemma hcur_bound z nodes A B top :
  Forall (fun n => (1 <= sh n <= top)%nat) nodes -> nodes = A ++ B -> (hcur top A <= top)%nat.
Proof.
  intros Hh ->. destruct (snoc_cases A) as [->|(A' & n & ->)]; [done|]. rewrite hcur_snoc.
  apply Forall_app in Hh as [[_ Hn]%Forall_app _]. apply Forall_cons in Hn as [Hn _]. lia.
Qed.

(** The links at level [j] after the two loops. *)
Lemma insert_row h h2 h3 h4 z P Q upd x lv j :
  is_zsl h z (P ++ Q) -> upd_ok z (zlevel z) (zlevel z) P upd -> (lv <= zlevel z)%nat ->
  x ∉ header z :: (sp <$> (P ++ Q)) -> Z.of_nat (length (P ++ Q)) + 1 < 2 ^ 32 ->
  (forall q j, q <> x -> get_level h2 q j = get_level h q j) ->
  relinks 0 lv (link_at h2 x (Z.of_nat (length P)) upd) h2 h3 ->
  relinks lv (zlevel z - lv) (bump_at h3 upd) h3 h4 -> (j < zlevel z)%nat ->
  exists A R, P = A ++ R /\ Forall (low j) R /\ (j < hcur (zlevel z) A)%nat /\ cur z A <> x /\
    forall q, get_level h4 q j =
      if bool_decide (q = cur z A) then
        Some (if (j <? lv)%nat then Level (Some x) (Z.of_nat (length R) + 1)
              else Level (forward (fwd j Q)) (span (fwd j Q) + Z.of_nat (length R) + 1))
      else if bool_decide (q = x) && (j <? lv)%nat then Some (fwd j Q)
      else get_level h2 q j.
Proof.
  intros Hz Hok Hlv Hx Hlen H2 [_ H3] [_ H4] Hj.
  destruct (upd_link h z P Q upd j Hz Hok Hj) as (A & R & -> & Hu & HR & Hh & Hl).
  assert (Hc : cur z A <> x).
  { intros E. apply Hx. pose proof (cur_in z A) as Hin. rewrite E in Hin. rewrite !fmap_app.
    rewrite elem_of_cons, !elem_of_app. apply elem_of_cons in Hin. tauto. }
  exists A, R. do 4 (split; [done|]). intros q.
  pose proof (fwd_span_bound j Q) as Hsp. rewrite !length_app in *.
  rewrite H4, H3. destruct (Nat.ltb_spec j lv) as [Hjl|Hjl].
  - rewrite bool_decide_false, bool_decide_true by lia. rewrite andb_true_r. unfold link_at. rewrite Hu. mred.
    rewrite (H2 (cur z A)), Hl by done. mred. cbn [forward span].
    replace (Z.of_nat (length A + length R) - Z.of_nat (length A)) with (Z.of_nat (length R)) by lia.
    rewrite (wrapu_small 32 (Z.of_nat (length R))) by lia.
    replace (span (fwd j Q) + Z.of_nat (length R) - Z.of_nat (length R)) with (span (fwd j Q)) by lia.
    rewrite !wrapu_small by lia.
    case_bool_decide; [done|]. case_bool_decide; [|done]. by destruct (fwd j Q).
  - rewrite bool_decide_true by lia. rewrite andb_false_r. unfold bump_at. rewrite Hu. mred.
    rewrite !H3, !(bool_decide_false (0 <= j < 0 + lv)%nat) by lia. rewrite (H2 (cur z A)), Hl by done. mred.
    cbn [forward span]. rewrite wrapu_small by lia. done.
Qed.

Lemma insert_links h h2 h3 h4 z P Q upd x lv sc e :
  is_zsl h z (P ++ Q) -> upd_ok z (zlevel z) (zlevel z) P upd -> (lv <= zlevel z)%nat ->
  x ∉ header z :: (sp <$> (P ++ Q)) -> Z.of_nat (length (P ++ Q)) + 1 < 2 ^ 32 ->
  (forall q j, q <> x -> get_level h2 q j = get_level h q j) ->
  relinks 0 lv (link_at h2 x (Z.of_nat (length P)) upd) h2 h3 ->
  relinks lv (zlevel z - lv) (bump_at h3 upd) h3 h4 ->
  links_ok h4 z (P ++ SNode x lv sc e :: Q).
Proof.
  intros Hz Hok Hlv Hx Hlen H2 H3 H4 A B j E Hj.
  assert (Hold : forall A0 B0, P ++ Q = A0 ++ B0 -> cur z A0 <> x).
  { intros A0 B0 E0 Ec. apply Hx. rewrite <-Ec, E0, fmap_app.
    pose proof (cur_in z A0) as Hin. rewrite elem_of_cons in *. rewrite elem_of_app. tauto. }
  destruct (position_cases P Q _ A B E) as [(C & EP & ->)|(K & -> & EQ)].
  - assert (Hjz : (j < zlevel z)%nat).
    { pose proof (hcur_bound z (P ++ Q) A (C ++ Q) (zlevel z) (z_height _ _ _ Hz)) as Hb.
      rewrite EP, <-app_assoc in Hb. specialize (Hb eq_refl). lia. }
    destruct (insert_row h h2 h3 h4 z P Q upd x lv j) as (Aj & Rj & EPj & HRj & Hhj & Hcj & Hrow); try done.
    rewrite Hrow. destruct (decide (Forall (low j) C)) as [HC|HC].
    + assert (A = Aj) as <-.
      { eapply (upd_unique j (zlevel z) A C Aj Rj); try done. congruence. }
      rewrite EPj in EP. apply app_inv_head in EP as <-.
      rewrite bool_decide_true by done. rewrite (fwd_low j Rj) by done. cbn [fwd sh sp].
      destruct (j <? lv)%nat; cbn [forward span]; do 2 f_equal; lia.
    + assert (cur z A <> cur z Aj).
      { intros Ec. apply HC. assert (A = Aj) as <-.
        { eapply (cur_inj z (P ++ Q) A (C ++ Q) Aj (Rj ++ Q)); [apply Hz|rewrite EP|rewrite EPj|done];
            by rewrite <-app_assoc. }
        rewrite EPj in EP. by apply app_inv_head in EP as <-. }
      assert (Hcx : cur z A <> x) by (apply (Hold A (C ++ Q)); by rewrite EP, <-app_assoc).
      rewrite !bool_decide_false by done. cbn [andb]. rewrite H2 by done.
      rewrite (cur_level h z (P ++ Q) A (C ++ Q)); [|done|by rewrite EP, <-app_assoc|done].
      f_equal. by apply fwd_high.
  - destruct (snoc_cases K) as [->|(K' & n & ->)].
    + rewrite cur_snoc. cbn [sp]. rewrite hcur_snoc in Hj. cbn [sh] in Hj. cbn in EQ. subst B.
      destruct (insert_row h h2 h3 h4 z P Q upd x lv j) as (Aj & Rj & EPj & HRj & Hhj & Hcj & Hrow); try done.
      { lia. }
      rewrite Hrow, bool_decide_false, bool_decide_true by congruence.
      by destruct (Nat.ltb_spec j lv); [|lia].
    + rewrite app_comm_cons, app_assoc, cur_snoc. rewrite app_comm_cons, app_assoc, hcur_snoc in Hj.
      rewrite <-app_assoc in EQ. cbn [app] in EQ.
      assert (Hn : (1 <= sh n <= zlevel z)%nat).
      { pose proof (z_height _ _ _ Hz) as Hh. rewrite EQ in Hh.
        apply Forall_app in Hh as [_ [_ Hn]%Forall_app]. by apply Forall_cons in Hn as [? _]. }
      destruct (insert_row h h2 h3 h4 z P Q upd x lv j) as (Aj & Rj & EPj & HRj & Hhj & Hcj & Hrow); try done.
      { lia. }
      assert (Hnx : sp n <> x).
      { rewrite <-(cur_snoc z (P ++ K') n). apply (Hold _ B). by rewrite EQ, <-!app_assoc. }
      assert (Hnc : sp n <> cur z Aj).
      { intros Ec. symmetry in Ec. revert Ec. apply (cur_other z Aj (Rj ++ K') n B).
        pose proof (z_nodup _ _ _ Hz) as Hnd. rewrite EQ, EPj in Hnd. by rewrite <-!app_assoc in *. }
      rewrite Hrow, !bool_decide_false by done. cbn [andb]. rewrite H2 by done.
      apply (z_lv _ _ _ Hz (P ++ K')); [by rewrite EQ, <-app_assoc|done].
Qed.

(** ** Splitting a sorted list *)

Lemma sorted_split (R : snode -> snode -> Prop) (pr : snode -> bool) nodes :
  StronglySorted R nodes -> (forall a b, R a b -> pr b = true -> pr a = true) ->
  exists P Q, nodes = P ++ Q /\ Forall (fun n => pr n = true) P /\ Forall (fun n => pr n = false) Q.
Proof.
  intros Hs Hm. induction Hs as [|n nodes Hs IH Hn]; [exists [], []; done|].
  destruct (pr n) eqn:E.
  - destruct IH as (P & Q & -> & HP & HQ). exists (n :: P), Q. split; [done|]. split; [by constructor|done].
  - exists [], (n :: nodes). split; [done|]. split; [constructor|]. constructor; [done|].
    eapply Forall_impl; [exact Hn|]. cbn. intros m Hm'. destruct (pr m) eqn:Em; [|done].
    by rewrite (Hm n m Hm' Em) in E.
Qed.

Lemma splits_intro (go : Z -> zskiplistNode -> bool) (pr : snode -> bool) P Q :
  (forall r n hn, ele hn = Some (se n) -> score hn = ss n -> short (se n) -> go r hn = pr n) ->
  Forall (fun n => pr n = true) P -> Forall (fun n => pr n = false) Q -> splits go P Q.
Proof.
  intros Hgo HP HQ. split.
  - intros A n B -> hn He Hs Hn. rewrite (Hgo _ n) by done.
    apply Forall_app in HP as [_ [? _]%Forall_cons]. done.
  - intros A n B -> hn He Hs Hn. rewrite (Hgo _ n) by done.
    apply Forall_app in HQ as [_ [? _]%Forall_cons]. done.
Qed.

Definition before (sc : Z) (e : sds) n : bool :=
  (ss n <? sc) || ((ss n =? sc) && (lexcmp (se n) e <? 0)).

Lemma before_lt sc e n x lv : before sc e n = true <-> snode_lt n (SNode x lv sc e).
Proof.
  unfold before, snode_lt. cbn. rewrite orb_true_iff, andb_true_iff, Z.ltb_lt, Z.eqb_eq, Z.ltb_lt. done.
Qed.

Lemma snode_lt_trans a b c : snode_lt a b -> snode_lt b c -> snode_lt a c.
Proof.
  unfold snode_lt. intros [?|[? ?]] [?|[? ?]]; try (left; lia). right. split; [lia|].
  by eapply lexcmp_trans.
Qed.

Lemma before_down sc e a b : snode_lt a b -> before sc e b = true -> before sc e a = true.
Proof. rewrite !(before_lt sc e _ 1%positive 0). apply snode_lt_trans. Qed.

Lemma not_before sc e n x lv : before sc e n = false -> se n <> e -> snode_lt (SNode x lv sc e) n.
Proof.
  intros Hb He. unfold before in Hb. apply orb_false_iff in Hb as [H1 H2]. apply Z.ltb_ge in H1.
  unfold snode_lt. cbn. destruct (Z.eqb_spec (ss n) sc) as [E|]; [|left; lia]. right. split; [lia|].
  cbn in H2. apply Z.ltb_ge in H2. apply lexcmp_antisym.
  assert (lexcmp (se n) e <> 0) by (by rewrite lexcmp_eq). lia.
Qed.

Lemma before_split h z nodes sc e :
  is_zsl h z nodes -> short e -> exists P Q, nodes = P ++ Q /\ splits (node_lt sc e) P Q /\
    Forall (fun n => before sc e n = true) P /\ Forall (fun n => before sc e n = false) Q.
Proof.
  intros Hz Hse. destruct (sorted_split snode_lt (before sc e) nodes (z_sorted _ _ _ Hz) (before_down sc e))
    as (P & Q & E & HP & HQ). exists P, Q. split; [done|]. split; [|done].
  apply (splits_intro _ (before sc e)); [|done|done]. intros r n hn He Hs Hn. unfold node_lt, before.
  by rewrite He, Hs, sdscmp_short.
Qed.

Lemma zslRandomLevel_bound rnd lv :
  zslRandomLevel rnd = Some lv -> (1 <= lv <= ZSKIPLIST_MAXLEVEL)%nat.
Proof.
  unfold zslRandomLevel. intros H. destruct (zslRandomLevel_loop 1 rnd) as [l|] eqn:E; [|done].
  change (Some (if (l <? ZSKIPLIST_MAXLEVEL)%nat then l else ZSKIPLIST_MAXLEVEL) = Some lv) in H.
  assert (1 <= l)%nat.
  { clear H. assert (Hg : forall rnd k l, zslRandomLevel_loop k rnd = Some l -> (k <= l)%nat).
    { clear. induction rnd as [|r rnd IH]; intros k l H; [done|]. cbn in H.
      destruct (_ <=? _); [apply IH in H; lia|]. simplify_eq. lia. }
    by eapply Hg. }
  revert H. destruct (Nat.ltb_spec l ZSKIPLIST_MAXLEVEL); intros [= <-]; unfold ZSKIPLIST_MAXLEVEL in *; lia.
Qed.

Definition with_level z (lv : nat) : zskiplist := Zsl (header z) (tail z) (zlength z) lv.

(** Raising the level of the list keeps the invariant. *)
Lemma raise_spec h z P Q upd lv :
  is_zsl h z (P ++ Q) -> upd_ok z (zlevel z) (zlevel z) P upd -> length upd = zlevel z ->
  (1 <= lv <= ZSKIPLIST_MAXLEVEL)%nat ->
  let top := if (zlevel z <? lv)%nat then lv else zlevel z in
  exists h1 upd1, zslInsert_raise (lv - zlevel z) (zlevel z) h z upd = Some (h1, upd1) /\
    is_zsl h1 (with_level z top) (P ++ Q) /\ upd_ok (with_level z top) top top P upd1 /\
    (forall q, info h1 q = info h q).
Proof.
  intros Hz Hok Hlen Hlv top.
  assert (Htop : top = (zlevel z + (lv - zlevel z))%nat /\ (1 <= top <= ZSKIPLIST_MAXLEVEL)%nat).
  { pose proof (z_level _ _ _ Hz). unfold top. destruct (Nat.ltb_spec (zlevel z) lv); lia. }
  destruct (zslInsert_raise_spec (lv - zlevel z) (zlevel z) h z upd) as (h1 & E1 & Hi & Hl).
  { intros i Hi. apply (z_hhi _ _ _ Hz). lia. }
  exists h1. eexists. split; [exact E1|].
  assert (Hother : forall q j, q <> header z -> get_level h1 q j = get_level h q j).
  { intros q j Hq. rewrite Hl, (bool_decide_false (q = header z)) by done. by case_bool_decide. }
  split; [|split; [|done]].
  - destruct Hz as [Hnd Hhd Hnode Hhlv Hhhi Hlvs Hh Hlev Ht Hzl Hsm Hso Hu Hst].
    split; cbn [with_level header tail zlength zlevel]; try done.
    + by rewrite Hi.
    + intros A n B E. rewrite Hi. eauto.
    + intros i Hi'. rewrite Hl. case_bool_decide as Hr.
      * rewrite bool_decide_true by done. rewrite Hzl, wrapu_small by lia.
        destruct (fwd_cases i (P ++ Q)) as [[_ ->]|(T & n & R & E & _ & Hn & _)]; [done|].
        rewrite E in Hh. apply Forall_app in Hh as [_ [Hn' _]%Forall_cons]. lia.
      * apply Hhlv. lia.
    + intros i Hi'. rewrite Hl, bool_decide_false by lia. apply Hhhi. lia.
    + intros A n B i E Hi'. rewrite Hother; [eauto|].
      intros Ex. rewrite E, fmap_app, fmap_cons in Hnd. apply NoDup_cons in Hnd as [Hx _].
      apply Hx. rewrite elem_of_app, elem_of_cons, Ex. tauto.
    + eapply Forall_impl; [exact Hh|]. cbn. lia.
    + lia.
  - intros j Hj. destruct (decide (j < zlevel z)%nat) as [Hjz|Hjz].
    + destruct (Hok j Hjz) as (A & R & EP & Hu & HR & Hhc). exists A, R. split; [done|].
      split; [rewrite lookup_app_l by lia; done|]. split; [done|].
      unfold hcur in *. destruct (last A); [done|lia].
    + exists [], P. split; [done|]. split.
      * rewrite lookup_app_r by lia. rewrite lookup_replicate. split; [done|lia].
      * split; [|cbn; lia]. pose proof (z_height _ _ _ Hz) as Hh. apply Forall_app in Hh as [Hh _].
        eapply Forall_impl; [exact Hh|]. unfold low. cbn. lia.
Qed.

Lemma new_node_sorted P Q x lv sc e :
  StronglySorted snode_lt (P ++ Q) -> (e ∉ se <$> P ++ Q) ->
  Forall (fun n => before sc e n = true) P -> Forall (fun n => before sc e n = false) Q ->
  StronglySorted snode_lt (P ++ SNode x lv sc e :: Q).
Proof.
  intros Hs He HP HQ. apply StronglySorted_app in Hs as (Hpq & HsP & HsQ).
  rewrite Forall_forall in HP, HQ. apply StronglySorted_app_2; [|done|].
  - intros a b Ha Hb. apply elem_of_cons in Hb as [->|Hb]; [by apply before_lt, HP|by apply Hpq].
  - constructor; [done|]. apply Forall_forall. intros n Hn. apply not_before; [by apply HQ|].
    intros <-. apply He. apply list_elem_of_fmap. exists n. split; [done|]. apply elem_of_app. by right.
Qed.

Lemma NoDup_insert {X} (l1 l2 : list X) x : NoDup (l1 ++ l2) -> x ∉ l1 ++ l2 -> NoDup (l1 ++ x :: l2).
Proof.
  intros Hn Hx. assert (E : l1 ++ x :: l2 ≡ₚ x :: l1 ++ l2) by (by rewrite Permutation_middle).
  rewrite E. by constructor.
Qed.

(** The predecessor of a node is the last one before it. *)
Lemma backward_after h h' z P Q x lv sc e :
  is_zsl h z (P ++ Q) -> x ∉ header z :: (sp <$> (P ++ Q)) ->
  info h' x = Some (Some e, sc, sp <$> last P, lv) ->
  (forall q, q <> x -> Some q <> (sp <$> head Q) -> info h' q = info h q) ->
  (forall n Q', Q = n :: Q' -> info h' (sp n) = Some (Some (se n), ss n, Some x, sh n)) ->
  forall A n B, P ++ SNode x lv sc e :: Q = A ++ n :: B ->
    info h' (sp n) = Some (Some (se n), ss n, sp <$> last A, sh n).
Proof.
  intros Hz Hx Hix Ho Hq A n B E.
  assert (Hne : forall m, m ∈ P ++ Q -> sp m <> x).
  { intros m Hm Em. apply Hx. right. apply list_elem_of_fmap. eauto. }
  destruct (position_cases P Q _ A (n :: B) E) as [(C & -> & EC)|(K & -> & ->)].
  - destruct C as [|c C]; cbn in EC.
    + injection EC as -> ->. rewrite app_nil_r in Hix. done.
    + injection EC as <- ->. assert (Hn : n ∈ (A ++ n :: C) ++ Q) by (rewrite !elem_of_app, elem_of_cons; tauto).
      rewrite Ho; [eapply (z_node _ _ _ Hz); by rewrite <-app_assoc|by apply Hne|].
      destruct Q as [|m Q]; [done|]. cbn. intros [= Em].
      pose proof (z_nodup _ _ _ Hz) as [_ Hnd]%NoDup_cons. rewrite fmap_app in Hnd.
      apply NoDup_app in Hnd as (_ & Hd & _). apply (Hd (sp n)).
      * rewrite fmap_app, elem_of_app. right. by left.
      * rewrite Em. by left.
  - destruct (snoc_cases K) as [->|(K' & m & ->)].
    + cbn in *. rewrite last_snoc. cbn. by eapply Hq.
    + rewrite app_comm_cons, app_assoc, last_snoc. rewrite <-app_assoc in *. cbn [app] in *.
      rewrite Ho.
      * rewrite (z_node _ _ _ Hz (P ++ K' ++ [m]) n B); [|by rewrite <-!app_assoc].
        by rewrite app_assoc, last_snoc.
      * apply Hne. rewrite !elem_of_app, !elem_of_cons. tauto.
      * pose proof (z_nodup _ _ _ Hz) as [_ Hnd]%NoDup_cons. rewrite fmap_app in Hnd.
        apply NoDup_app in Hnd as (_ & _ & Hnd). rewrite fmap_app in Hnd. cbn [fmap list_fmap] in Hnd.
        apply NoDup_app in Hnd as (_ & Hd & [Hm _]%NoDup_cons).
        destruct K' as [|k K']; cbn; intros [= Ek].
        -- apply Hm. rewrite Ek. by left.
        -- apply (Hd (sp k)); [by left|]. rewrite <-Ek. right. by left.
Qed.

Lemma info_insert_ne h x nd q : q <> x -> info (<[x := nd]> h) q = info h q.
Proof. intros. unfold info. by rewrite lookup_insert_ne. Qed.

Lemma level_insert_ne h x nd q j : q <> x -> get_level (<[x := nd]> h) q j = get_level h q j.
Proof. intros. unfold get_level. by rewrite lookup_insert_ne. Qed.

Lemma fwd0_head h z P Q :
  is_zsl h z (P ++ Q) -> forward (fwd 0 Q) = sp <$> head Q.
Proof.
  intros Hz. pose proof (z_height _ _ _ Hz) as Hh. apply Forall_app in Hh as [_ Hh].
  destruct Q as [|n Q]; [done|]. apply Forall_cons in Hh as [Hn _]. cbn [fwd head].
  destruct (Nat.ltb_spec 0 (sh n)); [done|lia].
Qed.

(** The rest of [zslInsert] once the level of the list is high enough. *)
(** The backward pointer of the node that follows, and the tail when there is none. *)
Lemma back_step h z P0 Q h5 b : is_zsl h z (P0 ++ Q) ->
  (forall n Q', Q = n :: Q' -> exists b0, info h5 (sp n) = Some (Some (se n), ss n, b0, sh n)) ->
  exists h6, (match forward (fwd 0 Q) with
     | Some f => h ← set_backward h5 f b; Some (h, tail z)
     | None => Some (h5, b) end) = Some (h6, match last Q with Some n => Some (sp n) | None => b end) /\
     (forall q j, get_level h6 q j = get_level h5 q j) /\
     (forall q, Some q <> (sp <$> head Q) -> info h6 q = info h5 q) /\
     (forall n Q', Q = n :: Q' -> info h6 (sp n) = Some (Some (se n), ss n, b, sh n)).
Proof.
  intros Hz Hq. rewrite (fwd0_head h z P0 Q Hz). destruct Q as [|n Q']; cbn [head fmap option_fmap option_map]; [by exists h5|].
  destruct (Hq n Q' eq_refl) as [b0 Hin]. destruct (set_backward_spec h5 (sp n) b _ _ _ _ Hin) as (h6 & -> & Hl6 & Hi6). mred.
  exists h6. split; [|split; [done|split]].
  - rewrite (z_tail _ _ _ Hz), last_app_cons. destruct (last (n :: Q')) eqn:El; [done|]. by apply last_None in El.
  - intros q Hqn. cbn in Hqn. by rewrite Hi6, bool_decide_false by congruence.
  - intros m Q2 [= <- <-]. by rewrite Hi6, bool_decide_true.
Qed.

Lemma last_after (P Q : list snode) X :
  sp <$> last (P ++ X :: Q) = match last Q with Some n => Some (sp n) | None => Some (sp X) end.
Proof. rewrite last_app_cons. destruct Q as [|n Q]; [done|]. rewrite last_cons_cons. by destruct (last (n :: Q)) eqn:E; [|apply last_None in E]. Qed.

(** The list with a new node, from its links and its records. *)
Lemma insert_assemble h h6 z P Q x lv sc e : let X := SNode x lv sc e in
  is_zsl h z (P ++ Q) -> (1 <= lv <= zlevel z)%nat -> x ∉ header z :: (sp <$> (P ++ Q)) ->
  (e ∉ se <$> P ++ Q) -> short e -> Z.of_nat (length (P ++ Q)) + 1 < 2 ^ 32 ->
  Forall (fun n => before sc e n = true) P -> Forall (fun n => before sc e n = false) Q ->
  links_ok h6 z (P ++ X :: Q) ->
  (forall i, (zlevel z <= i < ZSKIPLIST_MAXLEVEL)%nat -> get_level h6 (header z) i = get_level h (header z) i) ->
  info h6 x = Some (Some e, sc, sp <$> last P, lv) ->
  (forall q, q <> x -> Some q <> (sp <$> head Q) -> info h6 q = info h q) ->
  (forall n Q', Q = n :: Q' -> info h6 (sp n) = Some (Some (se n), ss n, Some x, sh n)) ->
  is_zsl h6 (Zsl (header z) (sp <$> last (P ++ X :: Q)) (u64 (zlength z + 1)) (zlevel z)) (P ++ X :: Q).
Proof.
  intros X Hz Hlv Hxn He Hse Hlen HP HQ Hlinks6 Hhi Hx6 Ho6 Hq6.
  assert (Hlen' : length (P ++ X :: Q) = S (length (P ++ Q))) by (rewrite !length_app; cbn; lia).
  split; cbn [header tail zlength zlevel].
  - apply NoDup_cons. pose proof (z_nodup _ _ _ Hz) as [Hh Hnd]%NoDup_cons.
    apply not_elem_of_cons in Hxn as [Hxh Hxp]. rewrite fmap_app in *. cbn [fmap list_fmap sp X]. split.
    + rewrite elem_of_app, elem_of_cons in *. intros [?|[?|?]]; [tauto|congruence|tauto].
    + by apply NoDup_insert.
  - rewrite Ho6; [apply Hz|by intros Eh; apply Hxn; rewrite <-Eh; left|]. destruct Q as [|n Q']; [done|]. cbn. intros [= Eh].
    pose proof (z_nodup _ _ _ Hz) as [Hh _]%NoDup_cons. apply Hh. rewrite Eh, fmap_app, elem_of_app. right. by left.
  - by eapply backward_after.
  - intros i Hi. by apply (Hlinks6 [] (P ++ X :: Q)).
  - intros i Hi. rewrite Hhi by done. by apply (z_hhi _ _ _ Hz).
  - intros A n B i E Hi. by eapply links_ok_node.
  - pose proof (z_height _ _ _ Hz) as Hh. apply Forall_app in Hh as [? ?]. apply Forall_app. split; [done|].
    constructor; [cbn; lia|done].
  - apply Hz.
  - done.
  - rewrite (z_len _ _ _ Hz), wrapu_small by lia. lia.
  - lia.
  - apply new_node_sorted; try done. apply Hz.
  - pose proof (z_uniq _ _ _ Hz) as Hu. rewrite fmap_app in *. cbn [fmap list_fmap se X]. by apply NoDup_insert.
  - pose proof (z_short _ _ _ Hz) as [? ?]%Forall_app. apply Forall_app. by split; [|constructor].
Qed.

Lemma insert_node_spec junk h z P Q upd x lv sc e :
  is_zsl h z (P ++ Q) -> upd_ok z (zlevel z) (zlevel z) P upd -> (1 <= lv <= zlevel z)%nat ->
  h !! x = None -> (e ∉ se <$> P ++ Q) -> short e -> Z.of_nat (length (P ++ Q)) + 1 < 2 ^ 32 ->
  Forall (fun n => before sc e n = true) P -> Forall (fun n => before sc e n = false) Q ->
  exists h3 h4 h5 h6 l0,
    zslInsert_link lv 0 (<[x := zslCreateNode junk lv sc (Some e)]> h) x (Z.of_nat (length P)) upd = Some h3 /\
    zslInsert_bump (zlevel z - lv) lv h3 upd = Some h4 /\
    set_backward h4 x (if bool_decide (cur z P = header z) then None else Some (cur z P)) = Some h5 /\
    get_level h5 x 0 = Some l0 /\
    (match forward l0 with
     | Some f => h ← set_backward h5 f (Some x); Some (h, tail z)
     | None => Some (h5, Some x)
     end) = Some (h6, sp <$> last (P ++ SNode x lv sc e :: Q)) /\
    is_zsl h6 (Zsl (header z) (sp <$> last (P ++ SNode x lv sc e :: Q)) (u64 (zlength z + 1)) (zlevel z))
      (P ++ SNode x lv sc e :: Q).
Proof.
  intros Hz Hok Hlv Hx He Hse Hlen HP HQ.
  assert (Hxn : x ∉ header z :: (sp <$> (P ++ Q))).
  { apply not_elem_of_cons. split.
    - intros ->. pose proof (z_hdr _ _ _ Hz) as Hi. unfold info in Hi. by rewrite Hx in Hi.
    - intros (n & -> & Hin)%list_elem_of_fmap. apply list_elem_of_split in Hin as (A & B & E).
      destruct (node_heap h z _ A n B Hz E) as (hn & Hhn & _). congruence. }
  set (X := SNode x lv sc e). set (h2 := <[x := _]> h).
  assert (H2 : forall q j, q <> x -> get_level h2 q j = get_level h q j) by (intros; by apply level_insert_ne).
  assert (Hcx : forall A B, P ++ Q = A ++ B -> cur z A <> x).
  { intros A B E Ec. apply Hxn. rewrite <-Ec, E, fmap_app. pose proof (cur_in z A) as Hin.
    rewrite elem_of_cons in *. rewrite elem_of_app. tauto. }
  assert (Hupd : updatable 0 (zlevel z) h2 upd).
  { intros j Hj. destruct (upd_link h z P Q upd j Hz Hok) as (A & R & -> & Hu & _ & _ & Hl); [lia|].
    do 3 eexists. split; [exact Hu|]. rewrite H2; [exact Hl|]. apply (Hcx A (R ++ Q)). by rewrite app_assoc. }
  destruct (zslInsert_link_spec lv 0 h2 x (Z.of_nat (length P)) upd) as (h3 & E3 & Hr3).
  { intros j Hj. apply Hupd. lia. }
  { intros j Hj. exists junk. unfold get_level, h2. rewrite lookup_insert_eq. mred. cbn [zslCreateNode level].
    apply lookup_replicate. split; [done|lia]. }
  { intros j u r Hj Hu. destruct (Hok j) as (A & R & -> & Hu' & _); [lia|]. rewrite Hu in Hu'. simplify_eq.
    apply (Hcx A (R ++ Q)). by rewrite app_assoc. }
  destruct (zslInsert_bump_spec (zlevel z - lv) lv h3 upd) as (h4 & E4 & Hr4).
  { intros j Hj. destruct (Hupd j) as (u & r & l & ? & ?); [lia|]. exists u, r, l. split; [done|].
    rewrite (proj2 Hr3), bool_decide_false by lia. done. }
  pose proof (insert_links h h2 h3 h4 z P Q upd x lv sc e Hz Hok (proj2 Hlv) Hxn Hlen H2 Hr3 Hr4) as Hlinks.
  fold X in Hlinks.
  assert (Hi4 : forall q, info h4 q = info h2 q) by (intros q; by rewrite (proj1 Hr4), (proj1 Hr3)).
  assert (Hi4x : info h4 x = Some (Some e, sc, None, lv)).
  { rewrite Hi4. unfold info, h2. rewrite lookup_insert_eq. cbn. by rewrite length_replicate. }
  destruct (set_backward_spec h4 x (if bool_decide (cur z P = header z) then None else Some (cur z P))
    _ _ _ _ Hi4x) as (h5 & E5 & Hl5 & Hi5).
  assert (Hback : (if bool_decide (cur z P = header z) then None else Some (cur z P)) = sp <$> last P).
  { unfold cur. destruct (last P) as [n|] eqn:El; [|by rewrite bool_decide_true].
    rewrite bool_decide_false; [done|]. intros Ec. pose proof (z_nodup _ _ _ Hz) as [Hh _]%NoDup_cons.
    apply Hh. rewrite <-Ec, fmap_app, elem_of_app. left. apply list_elem_of_fmap. exists n.
    split; [done|by apply last_in]. }
  assert (Hl0 : get_level h5 x 0 = Some (fwd 0 Q)).
  { rewrite Hl5. change x with (sp X). eapply links_ok_node; [exact Hlinks|done|cbn; lia]. }
  destruct (back_step h z P Q h5 (Some x) Hz) as (h6 & E6 & Hl6 & Ho6 & Hq6).
  { intros n Q' ->. assert (Hnx : sp n <> x). { intros En. apply Hxn. right. rewrite <-En, fmap_app, elem_of_app. right. by left. }
    exists (sp <$> last P). rewrite Hi5, bool_decide_false, Hi4 by done. unfold h2. rewrite info_insert_ne by done.
    by apply (z_node _ _ _ Hz P n Q'). }
  exists h3, h4, h5, h6, (fwd 0 Q). do 4 (split; [done|]). split; [by rewrite E6, last_after|].
  apply (insert_assemble h); try done.
  - intros A B j E Hj. rewrite Hl6, Hl5. by apply Hlinks.
  - intros i Hi. rewrite Hl6, Hl5, (proj2 Hr4), bool_decide_false, (proj2 Hr3), bool_decide_false by lia.
    apply H2. intros Eh. apply Hxn. rewrite <-Eh. left.
  - rewrite Ho6, Hi5, bool_decide_true, Hback; [done|done|]. destruct Q as [|n Q']; [done|]. cbn. intros [= En]. apply Hxn. right.
    rewrite En, fmap_app, elem_of_app. right. by left.
  - intros q Hq Hqn. rewrite Ho6, Hi5, bool_decide_false, Hi4 by done. by apply info_insert_ne.
Qed.

Lemma zslInsert_spec junk rnd x h z nodes sc e lv :
  is_zsl h z nodes -> zslRandomLevel rnd = Some lv -> h !! x = None -> (e ∉ se <$> nodes) ->
  short e -> Z.of_nat (length nodes) + 1 < 2 ^ 32 ->
  exists P Q h' z', nodes = P ++ Q /\ zslInsert junk rnd x h z sc e = Some (h', z') /\
    is_zsl h' z' (P ++ SNode x lv sc e :: Q).
Proof.
  intros Hz Hrnd Hx He Hse Hlen. destruct (before_split h z nodes sc e Hz Hse) as (P & Q & -> & Hsp & HP & HQ).
  pose proof (zslRandomLevel_bound rnd lv Hrnd) as Hlv. exists P, Q. unfold zslInsert.
  destruct (zsl_search_top (node_lt sc e) 32 h z P Q Hz Hsp) as (upd & -> & Hul & Hok); [lia|]. mred.
  rewrite Hrnd. mred.
  destruct (raise_spec h z P Q upd lv Hz Hok Hul Hlv) as (h1 & upd1 & -> & Hz1 & Hok1 & Hi1). mred.
  set (top := if (zlevel z <? lv)%nat then lv else zlevel z) in *.
  assert (Htop : (lv <= top)%nat) by (unfold top; destruct (Nat.ltb_spec (zlevel z) lv); lia).
  rewrite (upd_zero (with_level z top) top top P upd1 Hok1); [|lia|].
  2:{ pose proof (z_height _ _ _ Hz) as Hh. apply Forall_app in Hh as [Hh _].
      eapply Forall_impl; [exact Hh|]. cbn. lia. }
  mred. destruct (insert_node_spec junk h1 (with_level z top) P Q upd1 x lv sc e)
    as (h3 & h4 & h5 & h6 & l0 & E3 & E4 & E5 & E0 & E6 & Hz6); try done.
  { cbn [with_level zlevel]. lia. }
  { pose proof (Hi1 x) as Hix. unfold info in Hix. rewrite Hx in Hix. by apply fmap_None in Hix. }
  rewrite E3. mred. cbn [zlevel with_level] in E4. rewrite E4. mred. cbn [header with_level] in E5. rewrite E5.
  mred. rewrite E0. mred. cbn [tail with_level] in E6. rewrite E6. mred.
  do 2 eexists. split; [done|]. split; [done|exact Hz6].
Qed.

(** ** Deleting *)

Lemma u32_add a b : u32 (a + u32 b) = u32 (a + b).
Proof. unfold wrapu. apply Z.add_mod_idemp_r. lia. Qed.

Lemma fwd_in j l p : forward (fwd j l) = Some p -> p ∈ sp <$> l.
Proof.
  destruct (fwd_cases j l) as [[_ ->]|(T & n & R & -> & _ & _ & ->)]; cbn [forward]; [done|].
  intros [= <-]. rewrite fmap_app, elem_of_app. right. by left.
Qed.

Lemma delete_row h h' z P X Q upd j :
  is_zsl h z (P ++ X :: Q) -> upd_ok z (zlevel z) (zlevel z) P upd ->
  relinks 0 (zlevel z) (unlink_at h (sp X) upd) h h' -> (j < zlevel z)%nat ->
  exists A R, P = A ++ R /\ Forall (low j) R /\ (j < hcur (zlevel z) A)%nat /\
    forall q, get_level h' q j =
      if bool_decide (q = cur z A) then
        Some (Level (forward (fwd j Q)) (span (fwd j Q) + Z.of_nat (length R)))
      else get_level h q j.
Proof.
  intros Hz Hok [_ Hr] Hj.
  destruct (upd_link h z P (X :: Q) upd j Hz Hok Hj) as (A & R & EP & Hu & HR & Hh & Hl).
  exists A, R. do 3 (split; [done|]). intros q. rewrite Hr, bool_decide_true by lia.
  unfold unlink_at. rewrite Hu. mred. rewrite Hl. mred. case_bool_decide as Hq; [|done].
  pose proof (fwd_span_bound j Q) as Hsp. pose proof (z_small _ _ _ Hz) as Hsm.
  rewrite EP, !length_app in Hsm. cbn [length fwd] in Hsm |- *.
  destruct (Nat.ltb_spec j (sh X)) as [Hx|Hx]; cbn [forward span].
  - rewrite bool_decide_true by done. rewrite (z_lv _ _ _ Hz P X Q j eq_refl Hx). mred.
    rewrite u32_add. replace (1 + Z.of_nat (length R) + (span (fwd j Q) - 1))
      with (span (fwd j Q) + Z.of_nat (length R)) by lia. by rewrite wrapu_small by lia.
  - rewrite bool_decide_false.
    + do 2 f_equal. rewrite wrapu_small by lia. lia.
    + intros Ef%fwd_in. pose proof (z_nodup _ _ _ Hz) as [_ Hnd]%NoDup_cons. rewrite fmap_app in Hnd.
      apply NoDup_app in Hnd as (_ & _ & [Hn _]%NoDup_cons). done.
Qed.

Lemma delete_links h h' z P X Q upd :
  is_zsl h z (P ++ X :: Q) -> upd_ok z (zlevel z) (zlevel z) P upd ->
  relinks 0 (zlevel z) (unlink_at h (sp X) upd) h h' -> links_ok h' z (P ++ Q).
Proof.
  intros Hz Hok Hr A B j E Hj. pose proof (z_nodup _ _ _ Hz) as Hnd.
  assert (Hjz : (j < zlevel z)%nat).
  { pose proof (hcur_bound z (P ++ Q) A B (zlevel z)) as Hb. lapply Hb; [intros Hb'; specialize (Hb' E); lia|].
    pose proof (z_height _ _ _ Hz) as Hh. apply Forall_app in Hh as [? [_ ?]%Forall_cons].
    by apply Forall_app. }
  destruct (delete_row h h' z P X Q upd j Hz Hok Hr Hjz) as (Aj & Rj & EPj & HRj & Hhj & Hrow). rewrite Hrow.
  assert (Hin : forall C, P = A ++ C -> B = C ++ Q ->
    (if bool_decide (cur z A = cur z Aj)
     then Some (Level (forward (fwd j Q)) (span (fwd j Q) + Z.of_nat (length Rj)))
     else get_level h (cur z A) j) = Some (fwd j B)).
  { intros C EP ->. destruct (decide (Forall (low j) C)) as [HC|HC].
    - assert (A = Aj) as <- by (eapply (upd_unique j (zlevel z) A C Aj Rj); try done; congruence).
      rewrite EPj in EP. apply app_inv_head in EP as <-. by rewrite bool_decide_true, fwd_low.
    - rewrite bool_decide_false.
      + rewrite (cur_level h z (P ++ X :: Q) A (C ++ X :: Q)); [|done|by rewrite EP, <-app_assoc|done].
        f_equal. by apply fwd_high.
      + intros Ec. apply HC. assert (A = Aj) as <-.
        { apply (cur_inj z (P ++ X :: Q) A (C ++ X :: Q) Aj (Rj ++ X :: Q) Hnd); [rewrite EP|rewrite EPj|done];
            by rewrite <-app_assoc. }
        rewrite EPj in EP. by apply app_inv_head in EP as <-. }
  destruct (app_eq_inv _ _ _ _ E) as [(C & EP & EB)|(K & EA & EQ)]; [by eapply Hin|].
  destruct (snoc_cases K) as [->|(K' & n & ->)].
  { rewrite app_nil_r in EA. apply (Hin []); [by rewrite app_nil_r|by rewrite EQ]. }
  subst A Q. rewrite app_assoc, cur_snoc. rewrite app_assoc, hcur_snoc in Hj.
  rewrite bool_decide_false.
  - apply (z_lv _ _ _ Hz (P ++ X :: K')); [by rewrite <-!app_assoc|done].
  - intros Ec. symmetry in Ec. revert Ec. apply (cur_other z Aj (Rj ++ X :: K') n B).
    rewrite EPj in Hnd. by rewrite <-!app_assoc in *.
Qed.

Lemma zsl_lower_spec h hd nodes lv :
  (1 <= lv)%nat -> (forall i, (i < lv)%nat -> get_level h hd i = Some (fwd i nodes)) ->
  Forall (fun n => (1 <= sh n <= lv)%nat) nodes ->
  exists lv', zsl_lower lv h hd = Some lv' /\ (1 <= lv' <= lv)%nat /\
    Forall (fun n => (1 <= sh n <= lv')%nat) nodes.
Proof.
  induction lv as [|lv IH]; intros Hlv Hl Hh; [lia|].
  destruct lv as [|l]; [exists 1%nat; done|].
  change (zsl_lower (S (S l)) h hd) with
    (hl ← get_level h hd (S l); match forward hl with None => zsl_lower (S l) h hd | Some _ => Some (S (S l)) end).
  rewrite Hl by lia. mred.
  destruct (fwd_cases (S l) nodes) as [[Hlow ->]|(T & n & R & -> & _ & _ & ->)]; cbn [forward].
  - destruct IH as (lv' & -> & ? & ?).
    + lia.
    + intros i Hi. apply Hl. lia.
    + apply Forall_forall. intros n Hn. rewrite Forall_forall in Hlow, Hh. specialize (Hlow n Hn).
      specialize (Hh n Hn). unfold low in Hlow. cbn in *. lia.
    + exists lv'. split; [done|]. split; [lia|done].
  - exists (S (S l)). split; [done|]. split; [lia|done].
Qed.

Lemma NoDup_remove {Y} (l1 l2 : list Y) x : NoDup (l1 ++ x :: l2) -> NoDup (l1 ++ l2) /\ x ∉ l1 ++ l2.
Proof.
  intros Hn. assert (E : l1 ++ x :: l2 ≡ₚ x :: l1 ++ l2) by (by rewrite Permutation_middle).
  rewrite E in Hn. apply NoDup_cons in Hn. tauto.
Qed.

(** The predecessors after a deletion. *)
Lemma backward_deleted h h' z P X Q :
  is_zsl h z (P ++ X :: Q) ->
  (forall q, Some q <> (sp <$> head Q) -> info h' q = info h q) ->
  (forall n Q', Q = n :: Q' -> info h' (sp n) = Some (Some (se n), ss n, sp <$> last P, sh n)) ->
  forall A n B, P ++ Q = A ++ n :: B ->
    info h' (sp n) = Some (Some (se n), ss n, sp <$> last A, sh n).
Proof.
  intros Hz Ho Hq A n B E. pose proof (z_nodup _ _ _ Hz) as [_ Hnd]%NoDup_cons. rewrite fmap_app in Hnd.
  apply NoDup_app in Hnd as (_ & Hd & [_ HdQ]%NoDup_cons).
  destruct (app_eq_inv _ _ _ _ E) as [(C & -> & EC)|(K & -> & ->)].
  - destruct C as [|c C]; cbn in EC.
    + rewrite app_nil_r in *. by eapply Hq.
    + injection EC as <- ->. rewrite Ho; [eapply (z_node _ _ _ Hz); by rewrite <-app_assoc|].
      destruct Q as [|m Q]; [done|]. cbn. intros [= Em]. apply (Hd (sp n)).
      * rewrite fmap_app, elem_of_app. right. by left.
      * cbn. rewrite Em. right. by left.
  - destruct (snoc_cases K) as [->|(K' & m & ->)]; [rewrite app_nil_r; by eapply Hq|].
    rewrite Ho.
    + rewrite app_assoc, last_snoc. rewrite (z_node _ _ _ Hz (P ++ X :: K' ++ [m]) n B);
        [|rewrite <-!app_assoc; cbn; by rewrite <-!app_assoc].
      by rewrite app_comm_cons, app_assoc, last_snoc.
    + change (NoDup (sp <$> ((K' ++ [m]) ++ n :: B))) in HdQ.
      rewrite fmap_app in HdQ. apply NoDup_app in HdQ as (_ & HK & _).
      destruct K' as [|k K']; cbn; intros [= Ek].
      * apply (HK (sp m)); [by left|]. rewrite <-Ek. by left.
      * apply (HK (sp k)); [by left|]. rewrite <-Ek. by left.
Qed.

(** The list without a node, from its links and its records. *)
Lemma delete_assemble h h1 h2 z P X Q lv tl :
  is_zsl h z (P ++ X :: Q) -> (1 <= lv <= zlevel z)%nat -> links_ok h1 z (P ++ Q) ->
  Forall (fun n => (1 <= sh n <= lv)%nat) (P ++ Q) -> tl = sp <$> last (P ++ Q) ->
  (forall i, (zlevel z <= i < ZSKIPLIST_MAXLEVEL)%nat -> get_level h1 (header z) i = get_level h (header z) i) ->
  (forall q j, get_level h2 q j = get_level h1 q j) ->
  (forall q, Some q <> (sp <$> head Q) -> info h2 q = info h q) ->
  (forall n Q', Q = n :: Q' -> info h2 (sp n) = Some (Some (se n), ss n, sp <$> last P, sh n)) ->
  is_zsl h2 (Zsl (header z) tl (u64 (zlength z - 1)) lv) (P ++ Q).
Proof.
  intros Hz Hlv Hlinks Hhl Htl Hhi Hl2 Ho2 Hq2. pose proof (z_nodup _ _ _ Hz) as Hnd.
  assert (Hlen : length (P ++ X :: Q) = S (length (P ++ Q))) by (rewrite !length_app; cbn; lia).
  pose proof (z_level _ _ _ Hz) as Hlev. pose proof (z_small _ _ _ Hz) as Hsm.
  split; cbn [header tail zlength zlevel].
  - apply NoDup_cons in Hnd as [Hn Hnd]. rewrite fmap_app in *. cbn [fmap list_fmap] in *.
    apply NoDup_remove in Hnd as [Hnd _]. apply NoDup_cons. split; [|done].
    rewrite elem_of_app, elem_of_cons in Hn. rewrite elem_of_app. tauto.
  - rewrite Ho2; [apply Hz|]. destruct Q as [|n Q']; [done|]. cbn. intros [= Eh].
    apply NoDup_cons in Hnd as [Hn _]. apply Hn. rewrite Eh, fmap_app, elem_of_app. right. right. by left.
  - by eapply backward_deleted.
  - intros i Hi. rewrite Hl2. apply (Hlinks [] (P ++ Q)); [done|cbn; lia].
  - intros i Hi. rewrite Hl2. destruct (decide (i < zlevel z)%nat) as [Hiz|Hiz].
    + change (header z) with (cur z []). rewrite (Hlinks [] (P ++ Q) i eq_refl Hiz).
      destruct (fwd_cases i (P ++ Q)) as [[_ ->]|(T & n & R & E & _ & Hn & _)]; [eauto|].
      rewrite E in Hhl. apply Forall_app in Hhl as [_ [Hn' _]%Forall_cons]. lia.
    + rewrite Hhi by lia. apply (z_hhi _ _ _ Hz). lia.
  - intros A n B i E Hi. rewrite Hl2. eapply links_ok_node; [exact Hlinks|done|done].
  - done.
  - lia.
  - done.
  - rewrite (z_len _ _ _ Hz), wrapu_small by lia. lia.
  - lia.
  - pose proof (z_sorted _ _ _ Hz) as Hs. apply StronglySorted_app in Hs as (Hpq & HP & HQ).
    apply StronglySorted_inv in HQ as [HQ _]. apply StronglySorted_app_2; [|done|done].
    intros a b Ha Hb. apply Hpq; [done|by right].
  - pose proof (z_uniq _ _ _ Hz) as Hu. rewrite fmap_app in *. cbn [fmap list_fmap] in Hu.
    by apply NoDup_remove in Hu as [? _].
  - pose proof (z_short _ _ _ Hz) as [? [_ ?]%Forall_cons]%Forall_app. by apply Forall_app.
Qed.

Lemma zslDeleteNode_spec h z P X Q upd :
  is_zsl h z (P ++ X :: Q) -> upd_ok z (zlevel z) (zlevel z) P upd ->
  exists h' z', zslDeleteNode h z (sp X) upd = Some (h', z') /\ is_zsl h' z' (P ++ Q) /\
    header z' = header z /\ (zlevel z' <= zlevel z)%nat /\ info h' (sp X) = info h (sp X).
Proof.
  intros Hz Hok. unfold zslDeleteNode. pose proof (z_nodup _ _ _ Hz) as Hnd.
  assert (Hcx : forall A R, P = A ++ R -> cur z A <> sp X).
  { intros A R ->. apply (cur_other z A R X Q). by rewrite <-app_assoc in Hnd. }
  destruct (zslDeleteNode_loop_spec (zlevel z) 0 h (sp X) upd) as (h1 & -> & Hr).
  { intros j Hj. destruct (upd_link h z P (X :: Q) upd j Hz Hok) as (A & R & _ & Hu & _ & _ & Hl); [lia|]. eauto. }
  { intros j u r lv Hj Hu Hlv Hf.
    destruct (upd_link h z P (X :: Q) upd j Hz Hok) as (A & R & _ & Hu' & _ & _ & Hl); [lia|].
    rewrite Hu in Hu'. injection Hu' as -> ->. rewrite Hl in Hlv. injection Hlv as <-. cbn [forward fwd] in Hf.
    destruct (Nat.ltb_spec j (sh X)) as [Hx|Hx]; [eexists; by apply (z_lv _ _ _ Hz P X Q)|].
    cbn [forward] in Hf. apply fwd_in in Hf. apply NoDup_cons in Hnd as [_ Hnd]. rewrite fmap_app in Hnd.
    apply NoDup_app in Hnd as (_ & _ & [Hn _]%NoDup_cons). done. }
  mred. pose proof (delete_links h h1 z P X Q upd Hz Hok Hr) as Hlinks. destruct Hr as [Hi1 Hl1].
  destruct (node_heap h z _ P X Q Hz eq_refl) as (xn & Hxn & Hxe & Hxs & Hxb & Hxl).
  assert (exists xn1, h1 !! sp X = Some xn1 /\ backward xn1 = sp <$> last P) as (xn1 & -> & Hb1).
  { pose proof (Hi1 (sp X)) as Hi. unfold info in Hi. rewrite Hxn in Hi.
    destruct (h1 !! sp X) as [xn1|]; [|done]. cbn in Hi. simplify_eq. exists xn1. split; congruence. }
  mred. rewrite Hb1.
  assert (Hx0 : (0 < sh X)%nat).
  { pose proof (z_height _ _ _ Hz) as Hh. apply Forall_app in Hh as [_ [Hx _]%Forall_cons]. lia. }
  assert (Hl0 : get_level h1 (sp X) 0 = Some (fwd 0 Q)).
  { destruct (delete_row h h1 z P X Q upd 0 Hz Hok (conj Hi1 Hl1)) as (A & R & EP & _ & _ & Hrow);
      [pose proof (z_level _ _ _ Hz); lia|].
    rewrite Hrow, bool_decide_false; [by apply (z_lv _ _ _ Hz P X Q)|]. intros Ec. by eapply Hcx. }
  rewrite Hl0. mred.
  assert (Hz' : is_zsl h z ((P ++ [X]) ++ Q)) by (by rewrite <-app_assoc).
  destruct (back_step h z (P ++ [X]) Q h1 (sp <$> last P) Hz') as (h2 & -> & Hl2 & Ho2 & Hq2).
  { intros n Q' ->. exists (Some (sp X)). rewrite Hi1, (z_node _ _ _ Hz' (P ++ [X]) n Q' eq_refl). by rewrite last_snoc. }
  mred. assert (Ho2' : forall q, Some q <> (sp <$> head Q) -> info h2 q = info h q) by (intros q Hq; by rewrite Ho2, Hi1).
  assert (Hh : Forall (fun n => (1 <= sh n <= zlevel z)%nat) (P ++ Q)).
  { pose proof (z_height _ _ _ Hz) as Hh. apply Forall_app in Hh as [? [_ ?]%Forall_cons]. by apply Forall_app. }
  destruct (zsl_lower_spec h2 (header z) (P ++ Q) (zlevel z)) as (lv & -> & Hlv & Hhl); [apply Hz| |done|].
  { intros i Hi. rewrite Hl2. by apply (Hlinks [] (P ++ Q)). }
  mred. do 2 eexists. split; [done|]. split; [|split; [done|split; [cbn; lia|]]].
  2:{ apply Ho2'. destruct Q as [|n Q']; [done|]. cbn. intros [= Ex]. apply NoDup_cons in Hnd as [_ Hnd].
      rewrite fmap_app in Hnd. apply NoDup_app in Hnd as (_ & _ & [Hn _]%NoDup_cons). apply Hn. rewrite Ex. by left. }
  eapply (delete_assemble h h1); try done.
  - destruct Q as [|n Q']; [by rewrite app_nil_r|]. rewrite last_app_cons. by destruct (last (n :: Q')) eqn:El; [|apply last_None in El].
  - intros i Hi. by rewrite Hl1, bool_decide_false by lia.
Qed.

Lemma is_zsl_free h z nodes x :
  is_zsl h z nodes -> x ∉ header z :: (sp <$> nodes) -> is_zsl (delete x h) z nodes.
Proof.
  intros Hz Hx. apply not_elem_of_cons in Hx as [Hxh Hxn].
  assert (Hn : forall A n B, nodes = A ++ n :: B -> sp n <> x).
  { intros A n B -> E. apply Hxn. rewrite fmap_app, elem_of_app. right. rewrite <-E. by left. }
  assert (Hi : forall q, q <> x -> info (delete x h) q = info h q).
  { intros q Hq. unfold info. by rewrite lookup_delete_ne. }
  assert (Hl : forall q j, q <> x -> get_level (delete x h) q j = get_level h q j).
  { intros q j Hq. unfold get_level. by rewrite lookup_delete_ne. }
  destruct Hz as [Hnd Hhd Hnode Hhlv Hhhi Hlvs Hh Hlev Ht Hzl Hsm Hso Hu Hst]. split; try done.
  - by rewrite Hi.
  - intros A n B E. rewrite Hi by eauto. eauto.
  - intros i Hi'. rewrite Hl by done. eauto.
  - intros i Hi'. rewrite Hl by done. eauto.
  - intros A n B i E Hi'. rewrite Hl by eauto. eauto.
Qed.

(** The first node that is not before the key. *)
Lemma cur0_forward h z P Q :
  is_zsl h z (P ++ Q) -> exists l0, get_level h (cur z P) 0 = Some l0 /\ forward l0 = sp <$> head Q.
Proof.
  intros Hz. exists (fwd 0 Q). split; [|by eapply fwd0_head].
  apply (cur_level h z (P ++ Q)); [done|done|]. pose proof (z_level _ _ _ Hz). pose proof (z_height _ _ _ Hz) as Hh.
  destruct (snoc_cases P) as [->|(P' & n & ->)]; [cbn; lia|]. rewrite hcur_snoc.
  apply Forall_app in Hh as [[_ Hn]%Forall_app _]. apply Forall_cons in Hn as [Hn _]. lia.
Qed.

Lemma upd_zero_zsl h z P Q upd :
  is_zsl h z (P ++ Q) -> upd_ok z (zlevel z) (zlevel z) P upd ->
  upd !! 0%nat = Some (cur z P, Z.of_nat (length P)).
Proof.
  intros Hz Hok. eapply upd_zero; [exact Hok|apply Hz|]. pose proof (z_height _ _ _ Hz) as Hh.
  apply Forall_app in Hh as [Hh _]. eapply Forall_impl; [exact Hh|]. cbn. lia.
Qed.

Lemma head_heap h z P n Q :
  is_zsl h z (P ++ n :: Q) -> exists hn, h !! sp n = Some hn /\ ele hn = Some (se n) /\ score hn = ss n.
Proof. intros Hz. destruct (node_heap h z _ P n Q Hz eq_refl) as (hn & ? & ? & ? & _). eauto. Qed.

Lemma zslDelete_spec keep h z nodes sc e :
  is_zsl h z nodes -> short e ->
  (exists P X Q h' z', nodes = P ++ X :: Q /\ ss X = sc /\ se X = e /\
     zslDelete keep h z sc e = Some (h', z', Some (sp X)) /\ is_zsl h' z' (P ++ Q) /\
     info h' (sp X) = if keep : bool then info h (sp X) else None) \/
  (Forall (fun n => ~ (ss n = sc /\ se n = e)) nodes /\ zslDelete keep h z sc e = Some (h, z, None)).
Proof.
  intros Hz Hse. destruct (before_split h z nodes sc e Hz Hse) as (P & Q & -> & Hsp & HP & HQ).
  unfold zslDelete.
  destruct (zsl_search_top (node_lt sc e) 64 h z P Q Hz Hsp) as (upd & -> & Hul & Hok); [lia|]. mred.
  rewrite (upd_zero_zsl h z P Q upd Hz Hok). mred.
  destruct (cur0_forward h z P Q Hz) as (l0 & -> & Hf). mred. rewrite Hf.
  assert (HnP : Forall (fun n => ~ (ss n = sc /\ se n = e)) P).
  { eapply Forall_impl; [exact HP|]. cbn. intros n Hn [Es Ee]. unfold before in Hn. rewrite Es, Ee, lexcmp_refl in Hn.
    rewrite Z.ltb_irrefl, Z.eqb_refl in Hn. done. }
  destruct Q as [|X Q]; cbn [head fmap option_fmap option_map].
  { right. split; [|done]. apply Forall_app. split; [done|constructor]. }
  destruct (head_heap h z P X Q Hz) as (xn & Hxn & He & Hs). rewrite Hxn. mred.
  rewrite He, Hs, (sdscmp_short _ _ (node_short _ _ _ _ _ _ Hz eq_refl) Hse).
  destruct ((sc =? ss X) && (lexcmp (se X) e =? 0)) eqn:Hm.
  - left. apply andb_true_iff in Hm as [Es%Z.eqb_eq Ee%Z.eqb_eq%lexcmp_eq].
    destruct (zslDeleteNode_spec h z P X Q upd Hz Hok) as (h' & z' & -> & Hz' & Hhd & _ & Hi). mred.
    assert (Hx : sp X ∉ header z' :: (sp <$> P ++ Q)).
    { pose proof (z_nodup _ _ _ Hz) as [Hn Hnd]%NoDup_cons. rewrite Hhd, fmap_app in *. cbn [fmap list_fmap] in *.
      apply NoDup_remove in Hnd as [_ Hnx]. apply not_elem_of_cons. split; [|done]. intros Ex. apply Hn.
      rewrite <-Ex, elem_of_app. right. by left. }
    exists P, X, Q, (if keep then h' else delete (sp X) h'), z'. do 3 (split; [done|]). split; [by destruct keep|].
    destruct keep; [done|]. split; [by apply is_zsl_free|]. unfold info. by rewrite lookup_delete_eq.
  - right. split; [|done]. apply Forall_app. split; [done|].
    assert (Hnx : ~ (ss X = sc /\ se X = e)).
    { intros [Es Ee]. rewrite Es, Ee, Z.eqb_refl, lexcmp_refl in Hm. done. }
    constructor; [done|]. pose proof (z_sorted _ _ _ Hz) as Hso. apply StronglySorted_app in Hso as (_ & _ & Hso).
    apply StronglySorted_inv in Hso as [_ Hlt]. apply Forall_cons in HQ as [HX HQ].
    apply Forall_forall. intros n Hn [Es Ee]. rewrite Forall_forall in Hlt. specialize (Hlt n Hn).
    destruct n as [p k s' e']. cbn in Es, Ee. subst s' e'. apply before_lt in Hlt. by rewrite HX in Hlt.
Qed.

(** ** Ranks *)

Definition upto (sc : Z) (e : sds) n : bool :=
  (ss n <? sc) || ((ss n =? sc) && (lexcmp (se n) e <=? 0)).

Lemma upto_down sc e a b : snode_lt a b -> upto sc e b = true -> upto sc e a = true.
Proof.
  unfold upto, snode_lt. rewrite !orb_true_iff, !andb_true_iff, !Z.ltb_lt, !Z.eqb_eq, !Z.leb_le.
  intros [Hab|[Es Hab]] [Hb|[Hb Hc]]; try (left; lia). right. split; [lia|].
  destruct (Z.eq_dec (lexcmp (se b) e) 0) as [E|].
  - apply lexcmp_eq in E. rewrite <-E. lia.
  - assert (lexcmp (se a) e < 0) by (eapply lexcmp_trans; [exact Hab|lia]). lia.
Qed.

(** One level of a descending search, then the rest. *)
Lemma walk_top go w h z P Q i A R :
  is_zsl h z (P ++ Q) -> splits go P Q -> 32 <= w -> P = A ++ R -> (i < hcur (zlevel z) A)%nat ->
  exists A' R', P = A' ++ R' /\ Forall (low i) R' /\ (i < hcur (zlevel z) A')%nat /\
    zsl_walk (S (size h)) go w h i (cur z A) (Z.of_nat (length A)) = Some (cur z A', Z.of_nat (length A')).
Proof.
  intros Hz Hs Hw -> Hi.
  destruct (zsl_walk_spec go w h z ((A ++ R) ++ Q) i (S (size h)) A R Q) as (T & R' & -> & HR & Hh & E); try done.
  - by rewrite <-app_assoc.
  - pose proof (nodes_size _ _ _ Hz) as Hsz. rewrite !length_app in Hsz. lia.
  - exists (A ++ T), R'. split; [by rewrite <-app_assoc|]. done.
Qed.

Lemma low0_nil h z P Q A R : is_zsl h z (P ++ Q) -> P = A ++ R -> Forall (low 0) R -> A = P.
Proof.
  intros Hz -> HR. destruct R as [|n R]; [by rewrite app_nil_r|].
  pose proof (z_height _ _ _ Hz) as Hh. apply Forall_app in Hh as [[_ Hn]%Forall_app _].
  apply Forall_cons in Hn as [Hn _]. apply Forall_cons in HR as [HR _]. unfold low in HR. lia.
Qed.

Lemma cur_heap h z nodes A B :
  is_zsl h z nodes -> nodes = A ++ B ->
  exists hn, h !! cur z A = Some hn /\ ele hn = se <$> last A /\
    (forall n, last A = Some n -> score hn = ss n).
Proof.
  intros Hz ->. destruct (snoc_cases A) as [->|(A' & n & ->)].
  - pose proof (z_hdr _ _ _ Hz) as Hi. unfold info in Hi. change (cur z []) with (header z).
    destruct (h !! header z) as [hn|]; [|done]. cbn in Hi. simplify_eq. exists hn. done.
  - rewrite <-app_assoc in Hz. destruct (head_heap h z A' n B Hz) as (hn & Hhn & He & Hs).
    exists hn. rewrite cur_snoc, last_snoc. split; [done|]. split; [done|]. by intros ? [= <-].
Qed.

Lemma zslGetRank_loop_spec h z P Q sc e i A R :
  is_zsl h z (P ++ Q) -> short e -> splits (node_le sc e) P Q -> P = A ++ R -> (i <= hcur (zlevel z) A)%nat ->
  ((exists P' X, P = P' ++ [X] /\ se X = e /\ (0 < i)%nat) ->
     zslGetRank_loop i h sc e (cur z A) (Z.of_nat (length A)) = Some (Z.of_nat (length P))) /\
  ((e ∉ se <$> P) -> zslGetRank_loop i h sc e (cur z A) (Z.of_nat (length A)) = Some 0).
Proof.
  intros Hz Hse Hs. revert A R. induction i as [|i IH]; intros A R EP Hi.
  { split; [|done]. intros (? & ? & _ & _ & ?). lia. }
  cbn [zslGetRank_loop].
  destruct (walk_top (node_le sc e) 64 h z P Q i A R Hz Hs) as (A' & R' & EP' & HR & Hh & ->); [lia|done|lia|].
  mred. destruct (cur_heap h z (P ++ Q) A' (R' ++ Q) Hz) as (hn & -> & He & _); [by rewrite EP', <-app_assoc|].
  mred. rewrite He. destruct (IH A' R' EP') as [IH1 IH2]; [lia|].
  destruct (last A') as [n|] eqn:El; cbn [fmap option_fmap option_map].
  - assert (Hsn : short (se n)).
    { pose proof (z_short _ _ _ Hz) as Hsh. rewrite Forall_forall in Hsh. apply Hsh.
      rewrite EP', !elem_of_app. left. left. by apply last_in. }
    rewrite (sdscmp_short _ _ Hsn Hse). destruct (Z.eqb_spec (lexcmp (se n) e) 0) as [E%lexcmp_eq|E].
    + split.
      * intros (P' & X & EX & HX & _). f_equal. f_equal. f_equal.
        pose proof (z_uniq _ _ _ Hz) as Hu. rewrite fmap_app in Hu. apply NoDup_app in Hu as (Hu & _ & _).
        destruct (snoc_cases A') as [->|(A0 & m & ->)]; [done|]. rewrite last_snoc in El. injection El as ->.
        destruct (snoc_cases R') as [->|(R0 & m & ->)]; [by rewrite app_nil_r in EP'|]. exfalso.
        rewrite EP', app_assoc in EX. apply app_inj_tail in EX as [_ ->]. rewrite EP', !fmap_app in Hu.
        apply NoDup_app in Hu as (_ & Hd & _). apply (Hd (se n)).
        -- rewrite elem_of_app. right. by left.
        -- rewrite elem_of_app. right. cbn. rewrite HX, E. by left.
      * intros Hn. exfalso. apply Hn. rewrite <-E, EP', fmap_app, elem_of_app. left.
        apply list_elem_of_fmap. exists n. split; [done|by apply last_in].
    + split; [|done]. intros (P' & X & EX & HX & _). destruct i as [|i].
      * pose proof (low0_nil h z P Q A' R' Hz EP' HR) as ->. rewrite EX, last_snoc in El. injection El as ->.
        by rewrite HX, lexcmp_refl in E.
      * apply IH1. exists P', X. split; [done|]. split; [done|lia].
  - split; [|done]. intros (P' & X & EX & HX & _). destruct i as [|i].
    + pose proof (low0_nil h z P Q A' R' Hz EP' HR) as ->. by rewrite EX, last_snoc in El.
    + apply IH1. exists P', X. split; [done|]. split; [done|lia].
Qed.

Lemma upto_split h z nodes sc e :
  is_zsl h z nodes -> short e -> exists P Q, nodes = P ++ Q /\ splits (node_le sc e) P Q /\
    Forall (fun n => upto sc e n = true) P /\ Forall (fun n => upto sc e n = false) Q.
Proof.
  intros Hz Hse. destruct (sorted_split snode_lt (upto sc e) nodes (z_sorted _ _ _ Hz) (upto_down sc e))
    as (P & Q & E & HP & HQ). exists P, Q. split; [done|]. split; [|done].
  apply (splits_intro _ (upto sc e)); [|done|done]. intros r n hn He Hs Hn. unfold node_le, upto.
  by rewrite He, Hs, sdscmp_short.
Qed.

Lemma zslGetRank_spec h z nodes :
  is_zsl h z nodes ->
  (forall P X Q, nodes = P ++ X :: Q -> zslGetRank h z (ss X) (se X) = Some (Z.of_nat (length P) + 1)) /\
  (forall sc e, (e ∉ se <$> nodes) -> short e -> zslGetRank h z sc e = Some 0).
Proof.
  intros Hz. split.
  - intros P X Q E. pose proof (node_short _ _ _ _ _ _ Hz E) as HsX.
    destruct (upto_split h z nodes (ss X) (se X) Hz HsX) as (P' & Q' & E' & Hs & HP & HQ).
    assert (P' = P ++ [X]) as ->.
    { pose proof (z_sorted _ _ _ Hz) as Hso. rewrite E in Hso. apply StronglySorted_app in Hso as (_ & _ & Hso).
      apply StronglySorted_inv in Hso as [_ Hlt]. rewrite E in E'.
      assert (HX : upto (ss X) (se X) X = true).
      { unfold upto. rewrite Z.eqb_refl, lexcmp_refl. apply orb_true_r. }
      destruct (app_eq_inv _ _ _ _ E') as [(C & -> & EC)|(C & -> & EC)].
      - exfalso. subst Q'. apply Forall_app in HQ as [_ [HX' _]%Forall_cons]. congruence.
      - destruct C as [|c C]; cbn in EC.
        + exfalso. subst Q'. apply Forall_cons in HQ as [HX' _]. congruence.
        + injection EC as <- ->. destruct C as [|c C]; [done|]. exfalso.
          apply Forall_app in HP as [_ [_ HC]%Forall_cons]. apply Forall_cons in HC as [Hc _].
          apply Forall_cons in Hlt as [Hlt _]. unfold upto, snode_lt in *.
          apply orb_true_iff in Hc as [Hc%Z.ltb_lt|[Hc1%Z.eqb_eq Hc2%Z.leb_le]%andb_true_iff]; [lia|].
          destruct Hlt as [|[_ Hlt]]; [lia|]. apply lexcmp_antisym in Hlt. lia. }
    subst nodes. rewrite E' in Hz.
    destruct (zslGetRank_loop_spec h z (P ++ [X]) Q' (ss X) (se X) (zlevel z) [] (P ++ [X])) as [H1 _]; try done.
    unfold zslGetRank. change (header z) with (cur z []). change 0 with (Z.of_nat (@length snode [])).
    rewrite H1.
    + rewrite length_app. cbn [length]. f_equal. lia.
    + exists P, X. split; [done|]. split; [done|apply Hz].
  - intros sc e He Hse. destruct (upto_split h z nodes sc e Hz Hse) as (P' & Q' & -> & Hs & HP & HQ).
    destruct (zslGetRank_loop_spec h z P' Q' sc e (zlevel z) [] P') as [_ H2]; try done.
    unfold zslGetRank. change (header z) with (cur z []). change 0 with (Z.of_nat (@length snode [])).
    apply H2. intros Hin. apply He. rewrite fmap_app, elem_of_app. by left.
Qed.

Lemma rank_splits nodes k (go : Z -> zskiplistNode -> bool) :
  (forall r hn, go r hn = (r <=? Z.of_nat k)) ->
  splits go (take k nodes) (drop k nodes).
Proof.
  intros Hgo. split.
  - intros A n B E hn _ _ _. rewrite Hgo. apply Z.leb_le.
    apply (f_equal length) in E. rewrite length_take, length_app in E. cbn [length] in E. lia.
  - intros A n B E hn _ _ _. rewrite Hgo. apply Z.leb_gt.
    apply (f_equal length) in E. rewrite length_drop, length_app in E. cbn [length] in E.
    rewrite length_take. lia.
Qed.

Lemma take_last nodes A R k n :
  take k nodes = A ++ R -> last A = Some n -> length A = k -> nodes !! (k - 1)%nat = Some n.
Proof.
  intros E El Hk. destruct (snoc_cases A) as [->|(A' & m & ->)]; [done|]. rewrite last_snoc in El. injection El as ->.
  rewrite length_app in Hk. cbn in Hk. rewrite <-(take_drop k nodes), E, <-!app_assoc.
  rewrite lookup_app_r by lia. replace (k - 1 - length A')%nat with 0%nat by lia. done.
Qed.

Lemma zslGetElementByRank_loop_spec h z nodes k i A R :
  is_zsl h z nodes -> (1 <= k)%nat -> take k nodes = A ++ R -> (i <= hcur (zlevel z) A)%nat ->
  ((i = 0)%nat -> length A <> k) ->
  zslGetElementByRank_loop i h (Z.of_nat k) (cur z A) (Z.of_nat (length A)) =
    Some (if (i =? 0)%nat then None else sp <$> nodes !! (k - 1)%nat).
Proof.
  intros Hz Hk. revert A R. induction i as [|i IH]; intros A R E Hi Hne; [done|].
  cbn [zslGetElementByRank_loop].
  assert (Hz' : is_zsl h z (take k nodes ++ drop k nodes)) by (by rewrite take_drop).
  destruct (walk_top (fun r _ => r <=? Z.of_nat k) 64 h z (take k nodes) (drop k nodes) i A R Hz')
    as (A' & R' & E' & HR & Hh & ->).
  { by apply rank_splits. }
  { lia. } { done. } { lia. }
  mred. destruct (Z.eqb_spec (Z.of_nat (length A')) (Z.of_nat k)) as [Ek|Ek].
  - cbn [Nat.eqb]. destruct (last A') as [n|] eqn:El.
    + rewrite (take_last nodes A' R' k n E' El) by lia. unfold cur. by rewrite El.
    + destruct (snoc_cases A') as [->|(A0 & m & ->)]; [cbn in Ek; lia|]. by rewrite last_snoc in El.
  - rewrite (IH A' R' E'); [|lia|].
    2:{ lia. }
    cbn [Nat.eqb]. destruct i as [|i]; [|done]. cbn [Nat.eqb].
    pose proof (low0_nil h z _ _ A' R' Hz' E' HR) as EA. rewrite EA, length_take in Ek.
    rewrite lookup_ge_None_2; [done|lia].
Qed.

Lemma zslGetElementByRank_spec h z nodes k :
  is_zsl h z nodes -> 1 <= k -> zslGetElementByRank h z k = Some (sp <$> nodes !! Z.to_nat (k - 1)).
Proof.
  intros Hz Hk. unfold zslGetElementByRank. change (header z) with (cur z []).
  change 0 with (Z.of_nat (@length snode [])). rewrite <-(Z2Nat.id k) at 1 by lia.
  pose proof (z_level _ _ _ Hz).
  rewrite (zslGetElementByRank_loop_spec h z nodes (Z.to_nat k) (zlevel z) [] (take (Z.to_nat k) nodes));
    [|done|lia|done|done|lia].
  destruct (zlevel z); [lia|]. cbn [Nat.eqb]. do 3 f_equal. lia.
Qed.

(** ** Ranges

    [gte] and [lte] on the nodes of the list; [gteh] and [lteh] are the tests the
    code makes on the heap nodes. *)

Section ranges.
Context (gte lte : snode -> bool) (gteh lteh : zskiplistNode -> bool).
Context (gte_ok : forall n hn,
  ele hn = Some (se n) -> score hn = ss n -> short (se n) -> gteh hn = gte n).
Context (lte_ok : forall n hn,
  ele hn = Some (se n) -> score hn = ss n -> short (se n) -> lteh hn = lte n).
Context (ord : snode -> snode -> Prop).
Context (gte_up : forall a b, ord a b -> gte a = true -> gte b = true).
Context (lte_down : forall a b, ord a b -> lte b = true -> lte a = true).

Definition inside n : bool := gte n && lte n.

Lemma find_none (f : snode -> bool) l : Forall (fun n => f n = false) l -> List.find f l = None.
Proof. induction 1 as [|n l Hn _ IH]; [done|]. cbn. by rewrite Hn. Qed.

Lemma find_skip (f : snode -> bool) l l' :
  Forall (fun n => f n = false) l -> List.find f (l ++ l') = List.find f l'.
Proof. induction 1 as [|n l Hn _ IH]; [done|]. cbn. by rewrite Hn. Qed.

Lemma all_after (n : snode) l (f : snode -> bool) :
  Forall (ord n) l -> (forall m, ord n m -> f m = false) -> Forall (fun m => f m = false) l.
Proof. intros Hl Hf. eapply Forall_impl; [exact Hl|]. cbn. auto. Qed.

Lemma ends_spec h z nodes :
  is_zsl h z nodes -> StronglySorted ord nodes ->
  exists b, zsl_ends_in gteh lteh h z = Some b /\
    (b = false -> Forall (fun n => inside n = false) nodes) /\
    (b = true -> (exists t, last nodes = Some t /\ gte t = true) /\
                 (exists f, head nodes = Some f /\ lte f = true)).
Proof.
  intros Hz Hso. unfold zsl_ends_in. rewrite (z_tail _ _ _ Hz).
  destruct (snoc_cases nodes) as [->|(A & t & ->)]; [by exists false|]. rewrite last_snoc.
  cbn [fmap option_fmap option_map]. destruct (head_heap h z A t [] Hz) as (tn & -> & He & Hs). mred.
  rewrite (gte_ok t) by (done || by eapply node_short). destruct (gte t) eqn:Hgt; cbn [negb].
  2:{ exists false. split; [done|]. split; [|done]. intros _. apply StronglySorted_app in Hso as (Hat & _ & _).
      assert (Hf : forall n, n ∈ A -> gte n = false).
      { intros n Hn. destruct (gte n) eqn:E; [|done]. rewrite <-Hgt. symmetry. eapply gte_up; [|exact E].
        apply Hat; [done|by left]. }
      unfold inside. apply Forall_app. split; [|by constructor; [rewrite Hgt|constructor]].
      apply Forall_forall. intros n Hn. by rewrite Hf. }
  change (header z) with (cur z []).
  destruct (cur0_forward h z [] (A ++ [t]) Hz) as (l0 & -> & Hf). mred. rewrite Hf.
  destruct (A ++ [t]) as [|f B] eqn:EA; [by destruct A|]. cbn [head fmap option_fmap option_map].
  destruct (head_heap h z [] f B Hz) as (fn & -> & Hfe & Hfs). mred. rewrite (lte_ok f) by (done || exact (node_short _ _ _ [] f B Hz eq_refl)).
  exists (lte f). split; [done|]. split.
  - intros Hl. apply StronglySorted_inv in Hso as [_ Hlt]. unfold inside.
    constructor; [by rewrite Hl, andb_false_r|]. eapply all_after; [exact Hlt|].
    intros m Hm. destruct (lte m) eqn:E; [|by rewrite andb_false_r].
    by rewrite (lte_down f m Hm E) in Hl.
  - intros Hl. split; [|eauto]. exists t. split; [|done]. done.
Qed.

Lemma gte_split h z nodes :
  is_zsl h z nodes -> StronglySorted ord nodes ->
  exists P Q, nodes = P ++ Q /\ splits (fun _ x => negb (gteh x)) P Q /\
    Forall (fun n => gte n = false) P /\ Forall (fun n => gte n = true) Q.
Proof.
  intros Hz Hso. destruct (sorted_split ord (fun n => negb (gte n)) nodes Hso) as (P & Q & E & HP & HQ).
  { intros a b Hab Hb. destruct (gte a) eqn:E; [|done]. by rewrite (gte_up a b Hab E) in Hb. }
  exists P, Q. split; [done|]. split.
  - apply (splits_intro _ (fun n => negb (gte n))); [|done|done]. intros r n hn He Hs Hn. by rewrite (gte_ok n).
  - split; [eapply Forall_impl; [exact HP|]|eapply Forall_impl; [exact HQ|]]; cbn; intros n; by destruct (gte n).
Qed.

Lemma lte_split h z nodes :
  is_zsl h z nodes -> StronglySorted ord nodes ->
  exists P Q, nodes = P ++ Q /\ splits (fun _ x => lteh x) P Q /\
    Forall (fun n => lte n = true) P /\ Forall (fun n => lte n = false) Q.
Proof.
  intros Hz Hso. destruct (sorted_split ord lte nodes Hso lte_down) as (P & Q & E & HP & HQ).
  exists P, Q. split; [done|]. split; [|done]. apply (splits_intro _ lte); [|done|done].
  intros r n hn He Hs Hn. by rewrite (lte_ok n).
Qed.

Lemma first_in_spec h z nodes t :
  is_zsl h z nodes -> StronglySorted ord nodes -> last nodes = Some t -> gte t = true ->
  zsl_first_in gteh lteh h z = Some (sp <$> List.find inside nodes).
Proof.
  intros Hz Hso Hlast Ht. unfold zsl_first_in.
  destruct (gte_split h z nodes Hz Hso) as (P & Q & -> & Hs & HP & HQ).
  destruct (zsl_search_top _ 64 h z P Q Hz Hs) as (upd & -> & _ & Hok); [lia|]. mred.
  rewrite (upd_zero_zsl h z P Q upd Hz Hok). mred.
  destruct (cur0_forward h z P Q Hz) as (l0 & -> & Hf). mred. rewrite Hf.
  rewrite find_skip by (eapply Forall_impl; [exact HP|]; cbn; intros n Hn; unfold inside; by rewrite Hn).
  destruct Q as [|x Q].
  { exfalso. rewrite app_nil_r in Hlast. apply last_in in Hlast. rewrite Forall_forall in HP.
    by rewrite (HP t Hlast) in Ht. }
  cbn [head fmap option_fmap option_map]. mred. destruct (head_heap h z P x Q Hz) as (xn & -> & He & Hx). mred.
  rewrite (lte_ok x) by (done || by eapply node_short). cbn [List.find]. apply Forall_cons in HQ as [Hgx _]. unfold inside at 1. rewrite Hgx.
  cbn [andb]. destruct (lte x) eqn:Hl; [done|]. rewrite find_none; [done|].
  apply StronglySorted_app in Hso as (_ & _ & [_ Hlt]%StronglySorted_inv).
  eapply all_after; [exact Hlt|]. intros m Hm. unfold inside. destruct (lte m) eqn:E; [|by rewrite andb_false_r].
  by rewrite (lte_down x m Hm E) in Hl.
Qed.

Lemma last_in_spec h z nodes f :
  is_zsl h z nodes -> StronglySorted ord nodes -> head nodes = Some f -> lte f = true ->
  zsl_last_in gteh lteh h z = Some (sp <$> List.find inside (reverse nodes)).
Proof.
  intros Hz Hso Hhead Hlf. unfold zsl_last_in.
  destruct (lte_split h z nodes Hz Hso) as (P & Q & -> & Hs & HP & HQ).
  destruct (zsl_search_top _ 64 h z P Q Hz Hs) as (upd & -> & _ & Hok); [lia|]. mred.
  rewrite (upd_zero_zsl h z P Q upd Hz Hok). mred.
  rewrite reverse_app, find_skip.
  2:{ apply Forall_reverse. eapply Forall_impl; [exact HQ|]; cbn; intros n Hn; unfold inside.
      by rewrite Hn, andb_false_r. }
  destruct (snoc_cases P) as [->|(P' & x & ->)].
  { exfalso. destruct Q as [|q Q]; [done|]. cbn in Hhead. injection Hhead as ->. apply Forall_cons in HQ as [Hq _].
    congruence. }
  rewrite cur_snoc, reverse_snoc. rewrite <-app_assoc in Hz.
  destruct (head_heap h z P' x Q Hz) as (xn & -> & He & Hx). mred. rewrite (gte_ok x) by (done || by eapply node_short). cbn [List.find].
  apply Forall_app in HP as [HP [Hlx _]%Forall_cons]. unfold inside at 1. rewrite Hlx, andb_true_r.
  destruct (gte x) eqn:Hg; [done|]. rewrite find_none; [done|]. apply Forall_reverse.
  rewrite <-app_assoc in Hso. apply StronglySorted_app in Hso as (Hpx & _ & _). apply Forall_forall. intros n Hn.
  unfold inside. destruct (gte n) eqn:E; [|done]. rewrite (gte_up n x) in Hg; [done|apply Hpx; [done|by left]|done].
Qed.

Lemma find_none_rev (f : snode -> bool) l :
  Forall (fun n => f n = false) l -> List.find f l = None /\ List.find f (reverse l) = None.
Proof. intros Hl. split; apply find_none; [done|by apply Forall_reverse]. Qed.

Lemma range_queries_spec h z nodes :
  is_zsl h z nodes -> StronglySorted ord nodes ->
  exists b, zsl_ends_in gteh lteh h z = Some b /\
    (if negb b then Some None else zsl_first_in gteh lteh h z) = Some (sp <$> List.find inside nodes) /\
    (if negb b then Some None else zsl_last_in gteh lteh h z) =
      Some (sp <$> List.find inside (reverse nodes)).
Proof.
  intros Hz Hso. destruct (ends_spec h z nodes Hz Hso) as (b & -> & Hf & Ht). exists b. split; [done|].
  destruct b; cbn [negb].
  - destruct (Ht eq_refl) as [(t & Hlast & Htg) (f & Hhead & Hfl)].
    split; [by eapply first_in_spec|by eapply last_in_spec].
  - by destruct (find_none_rev _ nodes (Hf eq_refl)) as [-> ->].
Qed.

End ranges.

(** ** Deleting ranges *)

Lemma upd_ok_lower z z' P upd :
  upd_ok z (zlevel z) (zlevel z) P upd -> header z' = header z -> (zlevel z' <= zlevel z)%nat ->
  upd_ok z' (zlevel z') (zlevel z') P upd.
Proof.
  intros Hok Hh Hl j Hj. destruct (Hok j) as (A & R & E & Hu & HR & Hc); [lia|]. exists A, R.
  split; [done|]. split; [unfold cur in *; by rewrite Hh|]. split; [done|].
  unfold hcur in *. destruct (last A); [done|lia].
Qed.

Lemma zslDeleteRange_loop_spec go fuel h z P D E upd d t removed :
  is_zsl h z (P ++ D ++ E) -> upd_ok z (zlevel z) (zlevel z) P upd ->
  (forall A n B, D = A ++ n :: B -> agrees go (t + Z.of_nat (length A)) n true) ->
  (forall n B, E = n :: B -> agrees go (t + Z.of_nat (length D)) n false) ->
  (length D < fuel)%nat -> 0 <= t -> 0 <= removed ->
  t + Z.of_nat (length D) < 2 ^ 64 -> removed + Z.of_nat (length D) < 2 ^ 64 ->
  exists h' z', zslDeleteRange_loop fuel go h z d upd (sp <$> head (D ++ E)) t removed =
      Some (h', z', foldl (fun d e => delete e d) d (se <$> D), removed + Z.of_nat (length D)) /\
    is_zsl h' z' (P ++ E).
Proof.
  revert h z D d t removed. induction fuel as [|fuel IH];
    intros h z D d t removed Hz Hok HD HE Hf Ht Hr Hlt Hlr; [lia|].
  cbn [zslDeleteRange_loop]. destruct D as [|x D]; cbn [app head fmap option_fmap option_map].
  - exists h, z. cbn [length list_fmap fmap foldl] in *. rewrite Z.add_0_r in *.
    destruct E as [|n E]; [done|]. cbn [head fmap option_fmap option_map].
    destruct (head_heap h z P n E Hz) as (hn & -> & He & Hs). mred. by rewrite (HE n E eq_refl hn He Hs (node_short _ _ _ _ _ _ Hz eq_refl)).
  - cbn [app] in Hz. destruct (head_heap h z P x (D ++ E) Hz) as (hn & Hhn & He & Hs). rewrite Hhn. mred.
    pose proof (HD [] x D eq_refl hn He Hs (node_short _ _ _ _ _ _ Hz eq_refl)) as Hgo. cbn [length] in Hgo. rewrite Z.add_0_r in Hgo. rewrite Hgo.
    assert (Hz' : is_zsl h z ((P ++ [x]) ++ D ++ E)) by (by rewrite <-app_assoc).
    destruct (cur0_forward h z (P ++ [x]) (D ++ E) Hz') as (l0 & Hl0 & Hfw). rewrite cur_snoc in Hl0.
    rewrite Hl0. mred.
    destruct (zslDeleteNode_spec h z P x (D ++ E) upd Hz Hok) as (h1 & z1 & -> & Hz1 & Hh1 & Hlv1 & _). mred.
    rewrite He. mred. rewrite Hfw. cbn [length] in *.
    assert (Hx : sp x ∉ header z1 :: (sp <$> P ++ D ++ E)).
    { pose proof (z_nodup _ _ _ Hz) as [Hn Hnd]%NoDup_cons. rewrite Hh1.
      rewrite fmap_app in Hn, Hnd |- *. cbn [fmap list_fmap] in Hn, Hnd. apply NoDup_remove in Hnd as [_ Hnx].
      apply not_elem_of_cons. split; [|done]. intros Ex. apply Hn. rewrite <-Ex, elem_of_app. right. by left. }
    destruct (IH (delete (sp x) h1) z1 D (delete (se x) d) (t + 1) (removed + 1)) as (h' & z' & E' & Hz2).
    + by apply is_zsl_free.
    + by eapply upd_ok_lower.
    + intros A n B EA. specialize (HD (x :: A) n B). cbn [app length] in HD.
      replace (t + 1 + Z.of_nat (length A)) with (t + Z.of_nat (S (length A))) by lia. apply HD. by rewrite EA.
    + intros n B EB. replace (t + 1 + Z.of_nat (length D)) with (t + Z.of_nat (S (length D))) by lia. by eapply HE.
    + lia.
    + lia.
    + lia.
    + lia.
    + lia.
    + rewrite !wrapu_small by lia. exists h', z'. split; [|done]. rewrite E'. cbn. do 2 f_equal. lia.
Qed.

Lemma zslDeleteRange_spec skip go h z P D E d :
  is_zsl h z (P ++ D ++ E) -> splits skip P (D ++ E) ->
  (forall A n B, D = A ++ n :: B -> agrees go (Z.of_nat (length P + length A) + 1) n true) ->
  (forall n B, E = n :: B -> agrees go (Z.of_nat (length P + length D) + 1) n false) ->
  exists h' z', zslDeleteRange skip go h z d =
      Some (h', z', foldl (fun d e => delete e d) d (se <$> D), Z.of_nat (length D)) /\
    is_zsl h' z' (P ++ E).
Proof.
  intros Hz Hs HD HE. unfold zslDeleteRange.
  destruct (zsl_search_top skip 64 h z P (D ++ E) Hz Hs) as (upd & -> & _ & Hok); [lia|]. mred.
  rewrite (upd_zero_zsl h z P (D ++ E) upd Hz Hok). mred.
  destruct (cur0_forward h z P (D ++ E) Hz) as (l0 & -> & Hf). mred. rewrite Hf.
  pose proof (z_small _ _ _ Hz) as Hsm. rewrite !length_app in Hsm.
  assert (2 ^ 32 < 2 ^ 64) by (apply Z.pow_lt_mono_r; lia).
  rewrite wrapu_small by lia.
  apply (zslDeleteRange_loop_spec go (S (size h)) h z P D E upd d (Z.of_nat (length P) + 1) 0); try done; try lia.
  - intros A n B EA. replace (Z.of_nat (length P) + 1 + Z.of_nat (length A)) with
      (Z.of_nat (length P + length A) + 1) by lia. by eapply HD.
  - intros n B EB. replace (Z.of_nat (length P) + 1 + Z.of_nat (length D)) with
      (Z.of_nat (length P + length D) + 1) by lia. by eapply HE.
  - pose proof (nodes_size _ _ _ Hz) as Hsz. rewrite !length_app in Hsz. lia.
Qed.

Lemma filter_all (f : snode -> bool) l : Forall (fun n => f n = true) l -> List.filter f l = l.
Proof. induction 1 as [|n l Hn _ IH]; [done|]. cbn. by rewrite Hn, IH. Qed.
Lemma filter_none (f : snode -> bool) l : Forall (fun n => f n = false) l -> List.filter f l = [].
Proof. induction 1 as [|n l Hn _ IH]; [done|]. cbn. by rewrite Hn, IH. Qed.

(** Deleting by two conditions, [gte] upward and [lte] downward closed. *)
Lemma delete_inside gte lte (gteh lteh : zskiplistNode -> bool) (ord : snode -> snode -> Prop) h z nodes d :
  (forall n hn, ele hn = Some (se n) -> score hn = ss n -> short (se n) -> gteh hn = gte n) ->
  (forall n hn, ele hn = Some (se n) -> score hn = ss n -> short (se n) -> lteh hn = lte n) ->
  (forall a b, ord a b -> gte a = true -> gte b = true) ->
  (forall a b, ord a b -> lte b = true -> lte a = true) ->
  is_zsl h z nodes -> StronglySorted ord nodes ->
  let D := List.filter (inside gte lte) nodes in
  exists h' z', zslDeleteRange (fun _ x => negb (gteh x)) (fun _ x => lteh x) h z d =
      Some (h', z', foldl (fun d e => delete e d) d (se <$> D), Z.of_nat (length D)) /\
    is_zsl h' z' (List.filter (fun n => negb (inside gte lte n)) nodes).
Proof.
  intros Hg Hl Hup Hdn Hz Hso.
  destruct (gte_split gte gteh Hg ord Hup h z nodes Hz Hso) as (P & Q & -> & Hs & HP & HQ).
  pose proof Hso as (_ & _ & HsQ)%StronglySorted_app.
  destruct (sorted_split ord lte Q HsQ Hdn) as (D & E & -> & HD & HE).
  apply Forall_app in HQ as [HgD HgE].
  assert (HiP : Forall (fun n => inside gte lte n = false) P).
  { eapply Forall_impl; [exact HP|]. cbn. intros n Hn. unfold inside. by rewrite Hn. }
  assert (HiD : Forall (fun n => inside gte lte n = true) D).
  { apply Forall_forall. intros n Hn. rewrite Forall_forall in HgD, HD. unfold inside. by rewrite HgD, HD. }
  assert (HiE : Forall (fun n => inside gte lte n = false) E).
  { eapply Forall_impl; [exact HE|]. cbn. intros n Hn. unfold inside. by rewrite Hn, andb_false_r. }
  assert (HnP : Forall (fun n => negb (inside gte lte n) = true) P)
    by (eapply Forall_impl; [exact HiP|]; cbn; by intros n ->).
  assert (HnD : Forall (fun n => negb (inside gte lte n) = false) D)
    by (eapply Forall_impl; [exact HiD|]; cbn; by intros n ->).
  assert (HnE : Forall (fun n => negb (inside gte lte n) = true) E)
    by (eapply Forall_impl; [exact HiE|]; cbn; by intros n ->).
  cbv zeta. rewrite !List.filter_app, (filter_none _ P HiP), (filter_all _ D HiD), (filter_none _ E HiE), app_nil_r,
    (filter_all _ P HnP), (filter_none _ D HnD), (filter_all _ E HnE). cbn [app].
  apply zslDeleteRange_spec; [done|done|..].
  - intros A n B EA hn He Hsn Hst. rewrite (Hl n) by done. rewrite EA in HD. by apply Forall_app in HD as [_ [? _]%Forall_cons].
  - intros n B EB hn He Hsn Hst. rewrite (Hl n) by done. rewrite EB in HE. by apply Forall_cons in HE as [? _].
Qed.

Lemma zsl_walk_ext go go' w h i fuel x r :
  (forall r x, go r x = go' r x) -> zsl_walk fuel go w h i x r = zsl_walk fuel go' w h i x r.
Proof.
  intros Hg. revert x r. induction fuel as [|fuel IH]; intros x r; [done|]. cbn [zsl_walk].
  destruct (get_level h x i) as [lv|]; [|done]. mred. destruct (forward lv) as [f|]; [|done].
  destruct (h !! f) as [fn|]; [|done]. mred. rewrite Hg. destruct (go' _ _); [apply IH|done].
Qed.

Lemma zsl_search_ext go go' w h i x r :
  (forall r x, go r x = go' r x) -> zsl_search i go w h x r = zsl_search i go' w h x r.
Proof.
  intros Hg. revert x r. induction i as [|i IH]; intros x r; [done|]. cbn [zsl_search].
  rewrite (zsl_walk_ext go go') by done. destruct (zsl_walk _ go' w h i x r) as [[x' r']|]; [|done]. mred.
  by rewrite IH.
Qed.

Lemma zslDeleteRange_ext skip skip' go h z d :
  (forall r x, skip r x = skip' r x) -> zslDeleteRange skip go h z d = zslDeleteRange skip' go h z d.
Proof. intros Hs. unfold zslDeleteRange. by rewrite (zsl_search_ext skip skip'). Qed.

(** ** The orders of the two kinds of ranges *)

Definition score_le (a b : snode) : Prop := ss a <= ss b.
Definition ele_lt (a b : snode) : Prop := lexcmp (se a) (se b) < 0.

Lemma SS_impl {X} (R R' : X -> X -> Prop) l :
  (forall a b, R a b -> R' a b) -> StronglySorted R l -> StronglySorted R' l.
Proof.
  intros Hi. induction 1 as [|a l Hs IH Ha]; constructor; [done|].
  eapply Forall_impl; [exact Ha|]. cbn. auto.
Qed.

Lemma sorted_score h z nodes : is_zsl h z nodes -> StronglySorted score_le nodes.
Proof. intros Hz. eapply SS_impl; [|apply Hz]. unfold snode_lt, score_le. lia. Qed.

Lemma sorted_ele nodes s0 :
  StronglySorted snode_lt nodes -> Forall (fun n => ss n = s0) nodes -> StronglySorted ele_lt nodes.
Proof.
  induction 1 as [|a l Hs IH Ha]; intros Hall; [constructor|]. apply Forall_cons in Hall as [Hsa Hl].
  constructor; [by apply IH|]. rewrite Forall_forall in *. intros n Hn. specialize (Ha n Hn). specialize (Hl n Hn).
  unfold snode_lt, ele_lt in *. cbn in *. destruct Ha as [|[_ ?]]; [lia|done].
Qed.

Definition in_score (range : zrangespec) : snode -> bool :=
  inside (fun n => zslValueGteMin (ss n) range) (fun n => zslValueLteMax (ss n) range).

(** A string between the ends of a lexicographic range, in the order of the bytes. *)
Definition lex_above (range : zlexrangespec) (s : sds) : bool :=
  match lmin range with
  | MinString => true
  | MaxString => false
  | LexStr m => if lminex range then 0 <? lexcmp s m else 0 <=? lexcmp s m
  end.
Definition lex_below (range : zlexrangespec) (s : sds) : bool :=
  match lmax range with
  | MinString => false
  | MaxString => true
  | LexStr m => if lmaxex range then lexcmp s m <? 0 else lexcmp s m <=? 0
  end.

Definition in_lex (range : zlexrangespec) : snode -> bool :=
  inside (fun n => lex_above range (se n)) (fun n => lex_below range (se n)).

(** The two ends are compared by [sdscmp] too. *)
Definition lex_short (range : zlexrangespec) : Prop :=
  short (lexbytes (lmin range)) /\ short (lexbytes (lmax range)).

Lemma score_gte_up range a b :
  score_le a b -> zslValueGteMin (ss a) range = true -> zslValueGteMin (ss b) range = true.
Proof.
  unfold score_le, zslValueGteMin. destruct (minex range); rewrite ?Z.gtb_lt, ?Z.geb_le; lia.
Qed.

Lemma score_lte_down range a b :
  score_le a b -> zslValueLteMax (ss b) range = true -> zslValueLteMax (ss a) range = true.
Proof.
  unfold score_le, zslValueLteMax. destruct (maxex range); rewrite ?Z.ltb_lt, ?Z.leb_le; lia.
Qed.

Lemma lex_gte_up range a b :
  ele_lt a b -> lex_above range (se a) = true -> lex_above range (se b) = true.
Proof.
  unfold ele_lt, lex_above. intros Hab. destruct (lmin range) as [| |m]; [done|done|].
  assert (H : 0 <= lexcmp (se a) m -> 0 < lexcmp (se b) m).
  { intros Hm. apply lexcmp_antisym. destruct (Z.eq_dec (lexcmp (se a) m) 0) as [E%lexcmp_eq|Hne]; [by subst|].
    eapply lexcmp_trans; [|exact Hab]. apply lexcmp_antisym. lia. }
  destruct (lminex range); rewrite ?Z.ltb_lt, ?Z.leb_le; lia.
Qed.

Lemma lex_lte_down range a b :
  ele_lt a b -> lex_below range (se b) = true -> lex_below range (se a) = true.
Proof.
  unfold ele_lt, lex_below. intros Hab. destruct (lmax range) as [| |m]; [done|done|].
  assert (H : lexcmp (se b) m <= 0 -> lexcmp (se a) m < 0).
  { intros Hm. destruct (Z.eq_dec (lexcmp (se b) m) 0) as [E%lexcmp_eq|Hne]; [by subst|].
    eapply lexcmp_trans; [exact Hab|lia]. }
  destruct (lmaxex range); rewrite ?Z.ltb_lt, ?Z.leb_le; lia.
Qed.

Lemma score_gte_agrees range n hn :
  ele hn = Some (se n) -> score hn = ss n -> short (se n) -> score_gte range hn = zslValueGteMin (ss n) range.
Proof. unfold score_gte. by intros _ -> _. Qed.
Lemma score_lte_agrees range n hn :
  ele hn = Some (se n) -> score hn = ss n -> short (se n) -> score_lte range hn = zslValueLteMax (ss n) range.
Proof. unfold score_lte. by intros _ -> _. Qed.
Lemma lex_gte_agrees range : lex_short range -> forall n hn,
  ele hn = Some (se n) -> score hn = ss n -> short (se n) -> lex_gte range hn = lex_above range (se n).
Proof.
  intros [Hm _] n hn He _ Hn. unfold lex_gte, lex_above, zslLexValueGteMin. rewrite He.
  destruct (lmin range) as [| |m]; cbn [sdscmplex lexbytes] in *; [by destruct (lminex range)..|].
  by rewrite sdscmp_short, Z.gtb_ltb, Z.geb_leb.
Qed.

Lemma lex_lte_agrees range : lex_short range -> forall n hn,
  ele hn = Some (se n) -> score hn = ss n -> short (se n) -> lex_lte range hn = lex_below range (se n).
Proof.
  intros [_ Hm] n hn He _ Hn. unfold lex_lte, lex_below, zslLexValueLteMax. rewrite He.
  destruct (lmax range) as [| |m]; cbn [sdscmplex lexbytes] in *; [by destruct (lmaxex range)..|].
  by rewrite sdscmp_short.
Qed.

Lemma score_empty_range range nodes :
  (rmin range >? rmax range) || ((rmin range =? rmax range) && (minex range || maxex range)) = true ->
  Forall (fun n => in_score range n = false) nodes.
Proof.
  intros He. apply Forall_forall. intros n _. unfold in_score, inside, zslValueGteMin, zslValueLteMax.
  apply not_true_is_false. intros [H1 H2]%andb_true_iff.
  rewrite orb_true_iff, andb_true_iff, Z.gtb_lt, Z.eqb_eq in He.
  destruct (minex range), (maxex range); rewrite ?Z.gtb_lt, ?Z.geb_le, ?Z.ltb_lt, ?Z.leb_le in *; cbn in He;
    destruct He as [|[? ?]]; try lia; done.
Qed.

(** The two ends really denote the same bound when their bytes are compared. *)
Definition lex_bounds_ok (range : zlexrangespec) : Prop :=
  lexbytes (lmin range) = lexbytes (lmax range) -> lminex range || lmaxex range = true -> lmin range = lmax range.

Lemma lex_empty_range range nodes :
  lex_bounds_ok range -> lex_short range ->
  (sdscmplex (lmin range) (lmax range) >? 1) ||
   ((sdscmp (lexbytes (lmin range)) (lexbytes (lmax range)) =? 0) && (lminex range || lmaxex range)) = true ->
  Forall (fun n => in_lex range n = false) nodes.
Proof.
  intros Hok [Hs1 Hs2] He. rewrite sdscmp_short in He by done.
  apply Forall_forall. intros n _. unfold in_lex, inside, lex_above, lex_below.
  apply not_true_is_false. intros [H1 H2]%andb_true_iff.
  apply orb_true_iff in He as [He|[He Hx]%andb_true_iff].
  - apply Z.gtb_lt in He. destruct (lmin range) as [| |a], (lmax range) as [| |b]; cbn in He; try lia.
    cbn [lexbytes] in *. rewrite sdscmp_short in He by done.
    assert (0 <= lexcmp (se n) a) by (destruct (lminex range); rewrite ?Z.ltb_lt, ?Z.leb_le in H1; lia).
    assert (lexcmp (se n) b <= 0) by (destruct (lmaxex range); rewrite ?Z.ltb_lt, ?Z.leb_le in H2; lia).
    assert (Hba : lexcmp b a < 0) by (apply lexcmp_antisym; lia).
    assert (lexcmp (se n) a < 0); [|lia].
    destruct (Z.eq_dec (lexcmp (se n) b) 0) as [E%lexcmp_eq|Hne]; [by rewrite E|]. eapply lexcmp_trans; [|exact Hba]. lia.
  - apply Z.eqb_eq, lexcmp_eq in He. specialize (Hok He Hx). rewrite Hok in H1.
    destruct (lmax range) as [| |b]; [done|done|].
    destruct (lminex range), (lmaxex range); try done;
      rewrite ?Z.ltb_lt, ?Z.leb_le in *; lia.
Qed.

(** ** Main theorems *)

(** C5: [zslInsert] of an element that is not in the skiplist puts it at the place
    given by the order (score, then element bytes, the elements being shorter than 2^31
    bytes, the range of the [int] that [sdscmp] returns), whatever level the random
    numbers give (it is always between 1 and 32): all forward and backward pointers,
    all spans, the tail, the length and the level of the list are right again. *)
Theorem zslInsert_ordered junk rnd x h z nodes sc e lv :
  is_zsl h z nodes -> zslRandomLevel rnd = Some lv -> h !! x = None -> (e ∉ se <$> nodes) ->
  short e -> Z.of_nat (length nodes) + 1 < 2 ^ 32 ->
  (1 <= lv <= ZSKIPLIST_MAXLEVEL)%nat /\
  exists P Q h' z', nodes = P ++ Q /\ zslInsert junk rnd x h z sc e = Some (h', z') /\
    is_zsl h' z' (P ++ SNode x lv sc e :: Q).
Proof.
  intros Hz Hr Hx He Hse Hlen. split; [by eapply zslRandomLevel_bound|]. by apply zslInsert_spec.
Qed.

(** C28: queries on the spans and the order, for elements shorter than 2^31 bytes:
    [zslGetRank] gives the 1-based position of an element of the list and 0 for an element
    that is not there, and [zslGetElementByRank] the node at a 1-based position and NULL past
    the end. [zslFirstInRange] and [zslLastInRange] return the first and the last node whose
    score is in the interval (open or closed at each end), NULL when there is none, and never
    fail the assertion of the code. When all scores are equal, [zslFirstInLexRange] and
    [zslLastInLexRange] do the same for intervals of the order of the bytes, bounded by
    strings shorter than 2^31 bytes or by the infinite ends; excluded are intervals with an
    infinite end on one side and, on the other, a string that is the text "minstring" or
    "maxstring" of that end, one of the two ends being open, where the code is wrong. *)
Theorem zsl_queries h z nodes :
  is_zsl h z nodes ->
  (forall P X Q, nodes = P ++ X :: Q -> zslGetRank h z (ss X) (se X) = Some (Z.of_nat (length P) + 1)) /\
  (forall sc e, (e ∉ se <$> nodes) -> short e -> zslGetRank h z sc e = Some 0) /\
  (forall k, 1 <= k -> zslGetElementByRank h z k = Some (sp <$> nodes !! Z.to_nat (k - 1))) /\
  (forall range,
     zslFirstInRange h z range = Some (sp <$> List.find (in_score range) nodes) /\
     zslLastInRange h z range = Some (sp <$> List.find (in_score range) (reverse nodes))) /\
  (forall range s0, Forall (fun n => ss n = s0) nodes -> lex_bounds_ok range -> lex_short range ->
     zslFirstInLexRange h z range = Some (sp <$> List.find (in_lex range) nodes) /\
     zslLastInLexRange h z range = Some (sp <$> List.find (in_lex range) (reverse nodes))).
Proof.
  intros Hz. destruct (zslGetRank_spec h z nodes Hz) as [H1 H2]. split; [done|]. split; [done|]. split.
  { intros k Hk. by apply zslGetElementByRank_spec. }
  split.
  - intros range. unfold zslFirstInRange, zslLastInRange, zslIsInRange.
    destruct (_ || _) eqn:He.
    { mred. cbn [negb]. by destruct (find_none_rev _ nodes (score_empty_range range nodes He)) as [-> ->]. }
    destruct (range_queries_spec _ _ _ _ (score_gte_agrees range) (score_lte_agrees range) score_le
      (score_gte_up range) (score_lte_down range) h z nodes Hz (sorted_score h z nodes Hz)) as (b & -> & H).
    exact H.
  - intros range s0 Hall Hok Hsh. unfold zslFirstInLexRange, zslLastInLexRange, zslIsInLexRange.
    destruct (_ || _) eqn:He.
    { mred. cbn [negb]. by destruct (find_none_rev _ nodes (lex_empty_range range nodes Hok Hsh He)) as [-> ->]. }
    destruct (range_queries_spec _ _ _ _ (lex_gte_agrees range Hsh) (lex_lte_agrees range Hsh) ele_lt
      (lex_gte_up range) (lex_lte_down range) h z nodes Hz (sorted_ele nodes s0 (z_sorted _ _ _ Hz) Hall))
      as (b & -> & H).
    exact H.
Qed.

(** C26: deletions, for elements shorter than 2^31 bytes: [zslDelete] removes exactly the
    node with the given score and element and restores every pointer and span, freeing the
    node unless the caller keeps it; when there is no such node it changes nothing and
    reports so. Range deletions remove exactly the nodes in the interval of scores, of
    elements in the order of the bytes (when all scores are equal, as the lexicographic
    commands require) or of 1-based ranks, return their number, remove their elements from
    the dictionary of the sorted set, and leave a well-formed skiplist. *)
Theorem zslDelete_exact h z nodes d :
  is_zsl h z nodes ->
  (forall keep sc e, short e ->
     (exists P X Q h' z', nodes = P ++ X :: Q /\ ss X = sc /\ se X = e /\
        zslDelete keep h z sc e = Some (h', z', Some (sp X)) /\ is_zsl h' z' (P ++ Q) /\
        info h' (sp X) = if keep : bool then info h (sp X) else None) \/
     (Forall (fun n => ~ (ss n = sc /\ se n = e)) nodes /\ zslDelete keep h z sc e = Some (h, z, None))) /\
  (forall range, let D := List.filter (in_score range) nodes in
     exists h' z', zslDeleteRangeByScore h z range d =
         Some (h', z', foldl (fun d e => delete e d) d (se <$> D), Z.of_nat (length D)) /\
       is_zsl h' z' (List.filter (fun n => negb (in_score range n)) nodes)) /\
  (forall range s0, Forall (fun n => ss n = s0) nodes -> lex_short range ->
     let D := List.filter (in_lex range) nodes in
     exists h' z', zslDeleteRangeByLex h z range d =
         Some (h', z', foldl (fun d e => delete e d) d (se <$> D), Z.of_nat (length D)) /\
       is_zsl h' z' (List.filter (fun n => negb (in_lex range n)) nodes)) /\
  (forall start end_, (1 <= start)%nat -> (start <= end_ + 1)%nat ->
     let D := take (end_ + 1 - start) (drop (start - 1) nodes) in
     exists h' z', zslDeleteRangeByRank h z (Z.of_nat start) (Z.of_nat end_) d =
         Some (h', z', foldl (fun d e => delete e d) d (se <$> D), Z.of_nat (length D)) /\
       is_zsl h' z' (take (start - 1) nodes ++ drop end_ nodes)).
Proof.
  intros Hz. split; [intros; by apply zslDelete_spec|]. split; [|split].
  - intros range. unfold zslDeleteRangeByScore.
    destruct (delete_inside (fun n => zslValueGteMin (ss n) range) (fun n => zslValueLteMax (ss n) range)
      (score_gte range) (score_lte range) score_le h z nodes d (score_gte_agrees range) (score_lte_agrees range)
      (score_gte_up range) (score_lte_down range) Hz (sorted_score h z nodes Hz)) as (h' & z' & E & Hz').
    exists h', z'. split; [|done]. etransitivity; [|exact E]. apply zslDeleteRange_ext.
    intros _ x. unfold score_gte, zslValueGteMin. destruct (minex range).
    + by rewrite Z.gtb_ltb, Z.leb_antisym.
    + by rewrite Z.geb_leb, Z.ltb_antisym.
  - intros range s0 Hall Hsh.
    apply (delete_inside (fun n => lex_above range (se n)) (fun n => lex_below range (se n))
      (lex_gte range) (lex_lte range) ele_lt h z nodes d (lex_gte_agrees range Hsh) (lex_lte_agrees range Hsh)
      (lex_gte_up range) (lex_lte_down range) Hz (sorted_ele nodes s0 (z_sorted _ _ _ Hz) Hall)).
  - intros start end_ Hs He D.
    assert (En : nodes = take (start - 1) nodes ++ D ++ drop end_ nodes).
    { rewrite <-(take_drop (start - 1) nodes) at 1. f_equal. unfold D.
      rewrite <-(take_drop (end_ + 1 - start) (drop (start - 1) nodes)) at 1. f_equal.
      rewrite drop_drop. f_equal. lia. }
    apply zslDeleteRange_spec.
    + by rewrite <-En.
    + replace (D ++ drop end_ nodes) with (drop (start - 1) nodes).
      2:{ apply (app_inv_head (take (start - 1) nodes)). by rewrite <-En, take_drop. }
      apply rank_splits. intros r hn. destruct (Z.ltb_spec r (Z.of_nat start)), (Z.leb_spec r (Z.of_nat (start - 1)));
        try done; lia.
    + intros A n B EA hn _ _ _. apply Z.leb_le. apply (f_equal length) in EA. unfold D in EA.
      rewrite length_take, length_drop, length_app in EA. cbn [length] in EA. rewrite length_take. lia.
    + intros n B EB hn _ _ _. apply Z.leb_gt. apply (f_equal length) in EB. rewrite length_drop in EB. cbn [length] in EB.
      unfold D. rewrite !length_take, length_drop. lia.
Qed.

(** ** Examples and witnesses *)

Lemma zslCreate_spec hd : is_zsl (fst (zslCreate hd)) (snd (zslCreate hd)) [].
Proof.
  assert (Hl : forall i, (i < ZSKIPLIST_MAXLEVEL)%nat ->
    get_level (fst (zslCreate hd)) hd i = Some (Level None 0)).
  { intros i Hi. unfold get_level, zslCreate. cbn [fst]. rewrite lookup_singleton_eq. mred. cbn [level].
    by apply lookup_replicate. }
  split; cbn [snd zslCreate header tail zlength zlevel].
  - apply NoDup_singleton.
  - unfold info, zslCreate. cbn [fst]. by rewrite lookup_singleton_eq.
  - intros A n B E. by destruct A.
  - intros i Hi. apply Hl. unfold ZSKIPLIST_MAXLEVEL. lia.
  - intros i Hi. exists 0. apply Hl. lia.
  - intros A n B i E. by destruct A.
  - constructor.
  - unfold ZSKIPLIST_MAXLEVEL. lia.
  - done.
  - done.
  - done.
  - constructor.
  - constructor.
  - constructor.
Qed.

(** The element "a" with score 5 and height 2, then "b" with score 7 and height 1. *)
Definition example_a : heap * zskiplist :=
  match zslInsert (Level None 0) [0; 0xFFFF] 2%positive (fst (zslCreate 1%positive)) (snd (zslCreate 1%positive)) 5 (lit "a") with
  | Some r => r | None => zslCreate 1%positive end.
Definition example_ab : heap * zskiplist :=
  match zslInsert (Level None 0) [0xFFFF] 3%positive (fst example_a) (snd example_a) 7 (lit "b") with
  | Some r => r | None => zslCreate 1%positive end.
Definition node_a : snode := SNode 2%positive 2 5 (lit "a").
Definition node_b : snode := SNode 3%positive 1 7 (lit "b").

Lemma example_a_ok : is_zsl (fst example_a) (snd example_a) [node_a].
Proof.
  destruct (zslInsert_spec (Level None 0) [0; 0xFFFF] 2%positive _ _ [] 5 (lit "a") 2 (zslCreate_spec 1%positive))
    as (P & Q & h' & z' & E & Hi & Hz); [reflexivity|reflexivity|apply not_elem_of_nil|reflexivity|reflexivity|].
  symmetry in E. apply app_nil in E as [-> ->]. unfold example_a. rewrite Hi. exact Hz.
Qed.

Lemma example_ab_ok : is_zsl (fst example_ab) (snd example_ab) [node_a; node_b].
Proof.
  destruct (zslInsert_spec (Level None 0) [0xFFFF] 3%positive _ _ [node_a] 7 (lit "b") 1 example_a_ok)
    as (P & Q & h' & z' & E & Hi & Hz); [reflexivity|reflexivity| |reflexivity|reflexivity|].
  { apply (bool_decide_unpack _). vm_compute. exact I. }
  unfold example_ab. rewrite Hi. cbn [fst snd].
  destruct P as [|p [|? P]]; cbn in E; simplify_eq.
  - exfalso. pose proof (z_sorted _ _ _ Hz) as [_ Hs]%StronglySorted_inv. apply Forall_cons in Hs as [Hs _].
    unfold snode_lt in Hs. cbn in Hs. lia.
  - exact Hz.
Qed.

Lemma zslInsert_ordered_witness :
  is_zsl (fst example_a) (snd example_a) [node_a] /\
  exists P Q h' z', [node_a] = P ++ Q /\
    zslInsert (Level None 0) [0xFFFF] 3%positive (fst example_a) (snd example_a) 7 (lit "b") = Some (h', z') /\
    is_zsl h' z' (P ++ SNode 3%positive 1 7 (lit "b") :: Q).
Proof.
  split; [apply example_a_ok|].
  apply (zslInsert_ordered (Level None 0) [0xFFFF] 3%positive (fst example_a) (snd example_a) [node_a] 7 (lit "b") 1).
  - apply example_a_ok.
  - reflexivity.
  - reflexivity.
  - apply (bool_decide_unpack _). vm_compute. exact I.
  - reflexivity.
  - reflexivity.
Defined.

Lemma zsl_queries_witness :
  is_zsl (fst example_ab) (snd example_ab) [node_a; node_b] /\
  zslGetRank (fst example_ab) (snd example_ab) 7 (lit "b") = Some 2 /\
  zslGetElementByRank (fst example_ab) (snd example_ab) 1 = Some (Some 2%positive) /\
  zslFirstInRange (fst example_ab) (snd example_ab) (RangeSpec 5 9 true false) = Some (Some 3%positive) /\
  zslLastInLexRange (fst example_a) (snd example_a) (LexRange (LexStr (lit "a")) MaxString false true) =
    Some (Some 2%positive).
Proof.
  split; [apply example_ab_ok|].
  destruct (zsl_queries (fst example_ab) (snd example_ab) [node_a; node_b] example_ab_ok) as (H1 & _ & H3 & H4 & _).
  split; [apply (H1 [node_a] node_b []); reflexivity|]. split; [apply (H3 1); lia|].
  split; [apply (H4 (RangeSpec 5 9 true false))|].
  destruct (zsl_queries (fst example_a) (snd example_a) [node_a] example_a_ok) as (_ & _ & _ & _ & H5).
  apply (H5 (LexRange (LexStr (lit "a")) MaxString false true) 5); [by repeat constructor|done|done].
Defined.

Lemma zslDelete_exact_witness :
  is_zsl (fst example_ab) (snd example_ab) [node_a; node_b] /\
  exists h' z', zslDeleteRangeByRank (fst example_ab) (snd example_ab) 2 2 {[ lit "b" := 7 ]} =
      Some (h', z', ∅, 1) /\ is_zsl h' z' [node_a].
Proof.
  split; [apply example_ab_ok|].
  destruct (zslDelete_exact (fst example_ab) (snd example_ab) [node_a; node_b] {[ lit "b" := 7 ]} example_ab_ok)
    as (_ & _ & _ & H3).
  destruct (H3 2%nat 2%nat) as (h' & z' & E & Hz); [lia|lia|]. exists h', z'. split; [|exact Hz].
  change (Z.of_nat 2) with 2 in E. rewrite E. reflexivity.
Defined.

(** The early exit of [zslIsInLexRange] compares the ends with [sdscmp], which
    reads the text of the shared strings that stand for the infinite ends. For the
    range from "-" to the open end "(minstring" it finds two equal strings and
    reports an empty range, although an element below "minstring" is in the range. *)
Theorem zslIsInLexRange_minstring :
  let range := LexRange MinString (LexStr (lit "minstring")) false true in
  in_lex range node_a = true /\
  zslFirstInLexRange (fst example_a) (snd example_a) range = Some None.
Proof. split; vm_compute; reflexivity. Qed.
