(* ===== verification/Bits.v ===== *)
(** * Bits of integers

    Lemmas on [Z.testbit] shared by the checksums, the compression and the bitmap
    operations: extensionality of the bits, masks and bytes, additivity with respect
    to exclusive or, and exhaustive checks over small ranges. *)

From S2P Require Import Prelude.

(** ** Extensionality *)

Lemma testbit_mod_pow2 a n i : 0 <= n -> 0 <= i -> Z.testbit (a mod 2 ^ n) i = (i <? n) && Z.testbit a i.
Proof.
  intros. destruct (Z.ltb_spec i n); [by rewrite Z.mod_pow2_bits_low by lia|by rewrite Z.mod_pow2_bits_high by lia].
Qed.

Lemma testbit_small x n i : 0 <= x < 2 ^ n -> n <= i -> Z.testbit x i = false.
Proof.
  intros Hx Hi. assert (0 <= n) by (destruct (Z.lt_ge_cases n 0); [rewrite Z.pow_neg_r in Hx by lia; lia|lia]).
  rewrite <-(Z.mod_small x (2 ^ n)) by lia. by apply Z.mod_pow2_bits_high.
Qed.

Lemma land_255 x : Z.land x 255 = x mod 256.
Proof. exact (Z.land_ones x 8 ltac:(lia)). Qed.

Lemma land_65535 x : Z.land x 65535 = x mod 65536.
Proof. exact (Z.land_ones x 16 ltac:(lia)). Qed.

Lemma land_16383 x : Z.land x 16383 = x mod 16384.
Proof. exact (Z.land_ones x 14 ltac:(lia)). Qed.

Lemma lxor_range n a b : 0 <= n -> 0 <= a < 2 ^ n -> 0 <= b < 2 ^ n -> 0 <= Z.lxor a b < 2 ^ n.
Proof.
  intros Hn Ha Hb. assert (0 <= Z.lxor a b) by (apply Z.lxor_nonneg; lia). split; [done|].
  assert (E : Z.lxor a b = Z.lxor a b mod 2 ^ n).
  { apply Z.bits_inj'. intros i Hi. rewrite testbit_mod_pow2, Z.lxor_spec by lia.
    destruct (Z.ltb_spec i n); [done|]. by rewrite !(testbit_small _ n) by lia. }
  rewrite E. apply Z.mod_pos_bound. lia.
Qed.

(** Compare two integers bit by bit. *)
Ltac bitwise i Hi := apply Z.bits_inj'; intros i Hi.

(** ** Exhaustive checks *)

Lemma check_range (n : nat) (P : Z -> bool) :
  forallb P (map Z.of_nat (seq 0 n)) = true -> forall x, 0 <= x < Z.of_nat n -> P x = true.
Proof.
  intros H x Hx. rewrite forallb_forall in H. apply H, in_map_iff. exists (Z.to_nat x). rewrite in_seq. lia.
Qed.

(** ** Additivity *)

Class Additive (f : Z -> Z) : Prop := additive x y : f (Z.lxor x y) = Z.lxor (f x) (f y).

#[export] Instance additive_compose f g : Additive f -> Additive g -> Additive (fun x => f (g x)).
Proof. intros Hf Hg x y. by rewrite Hg, Hf. Qed.

#[export] Instance additive_shiftl n : Additive (fun x => Z.shiftl x n).
Proof. intros x y. apply Z.shiftl_lxor. Qed.

#[export] Instance additive_shiftr n : Additive (fun x => Z.shiftr x n).
Proof. intros x y. apply Z.shiftr_lxor. Qed.

#[export] Instance additive_land m : Additive (fun x => Z.land x m).
Proof. intros x y. bitwise i Hi. rewrite Z.lxor_spec, !Z.land_spec, Z.lxor_spec. by destruct (Z.testbit m i), (Z.testbit x i), (Z.testbit y i). Qed.

#[export] Instance additive_bit n c : Additive (fun x => if Z.testbit x n then c else 0).
Proof.
  intros x y. rewrite Z.lxor_spec. destruct (Z.testbit x n), (Z.testbit y n); cbn [xorb];
    rewrite ?Z.lxor_0_l, ?Z.lxor_0_r, ?Z.lxor_nilpotent; done.
Qed.

#[export] Instance additive_lxor f g : Additive f -> Additive g -> Additive (fun x => Z.lxor (f x) (g x)).
Proof.
  intros Hf Hg x y. rewrite Hf, Hg, !Z.lxor_assoc. f_equal.
  rewrite <-!Z.lxor_assoc. f_equal. apply Z.lxor_comm.
Qed.

Lemma additive_iter f n : Additive f -> Additive (Nat.iter n f).
Proof. intros Hf x y. induction n as [|n IH]; [done|]. rewrite !Nat.iter_succ. by rewrite IH, Hf. Qed.

(** ** The low byte and the rest *)

Lemma split_byte x : Z.lxor (Z.shiftl (Z.shiftr x 8) 8) (x mod 256) = x.
Proof.
  bitwise i Hi. change 256 with (2 ^ 8).
  rewrite Z.lxor_spec, Z.shiftl_spec, testbit_mod_pow2 by lia.
  destruct (Z.ltb_spec i 8).
  - rewrite Z.testbit_neg_r by lia. by destruct (Z.testbit x i).
  - rewrite Z.shiftr_spec by lia. replace (i - 8 + 8) with i by lia. by destruct (Z.testbit x i).
Qed.

(** Sign extension does not reach the low byte. *)
Lemma s8_mod c : s8 c mod 256 = c mod 256.
Proof. unfold wraps. pow2. zlia. Qed.

Lemma lxor_mod a b n : 0 <= n -> Z.lxor a b mod 2 ^ n = Z.lxor (a mod 2 ^ n) (b mod 2 ^ n).
Proof.
  intros Hn. bitwise i Hi. rewrite testbit_mod_pow2, !Z.lxor_spec, !testbit_mod_pow2 by lia.
  by destruct (i <? n), (Z.testbit a i), (Z.testbit b i).
Qed.

Lemma lxor_cancel_l a b c : Z.lxor a b = Z.lxor a c -> b = c.
Proof.
  intros E. apply (f_equal (Z.lxor a)) in E.
  by rewrite <-!Z.lxor_assoc, !Z.lxor_nilpotent, !Z.lxor_0_l in E.
Qed.

(** Bytes of a concrete list. *)
Lemma lit_bytes s : forallb (fun c => (0 <=? c) && (c <? 256)) s = true -> Forall is_byte s.
Proof.
  rewrite forallb_forall, Forall_forall. intros H x Hx%list_elem_of_In. specialize (H x Hx). zbool. unfold is_byte. lia.
Qed.

Lemma lor_shiftl a b n : 0 <= n -> 0 <= a < 2 ^ n -> Z.lor a (Z.shiftl b n) = a + b * 2 ^ n.
Proof.
  intros Hn Ha. rewrite <-Z.add_nocarry_lor; [by rewrite Z.shiftl_mul_pow2 by lia|].
  bitwise i Hi. rewrite Z.land_spec, Z.shiftl_spec, Z.bits_0 by lia.
  destruct (Z.lt_ge_cases i n); [rewrite (Z.testbit_neg_r _ (i - n)) by lia; apply andb_false_r|].
  by rewrite (testbit_small a n) by lia.
Qed.

(** ** Single bits *)

Lemma land_bit b k : 0 <= k -> Z.land b (Z.shiftl 1 k) = if Z.testbit b k then 2 ^ k else 0.
Proof.
  intros Hk. rewrite Z.shiftl_1_l. bitwise i Hi. rewrite Z.land_spec, Z.pow2_bits_eqb by lia.
  destruct (Z.eqb_spec k i) as [->|Hne].
  - destruct (Z.testbit b i); [by rewrite Z.pow2_bits_true|by rewrite Z.bits_0].
  - rewrite andb_false_r. destruct (Z.testbit b k); [by rewrite Z.pow2_bits_false|by rewrite Z.bits_0].
Qed.

Lemma land_7 j : Z.land j 7 = j mod 8.
Proof. exact (Z.land_ones j 3 ltac:(lia)). Qed.

Lemma land_bit_eqb b k : 0 <= k -> (Z.land b (Z.shiftl 1 k) =? 0) = negb (Z.testbit b k).
Proof.
  intros Hk. rewrite land_bit by done. destruct (Z.testbit b k); [|done].
  apply Z.eqb_neq, Z.pow_nonzero; lia.
Qed.
