(* ===== verification/Crc.v ===== *)
(** * crc16.c, crc64.c and the hash slots of cluster.c

    The table-driven checksums, proved equal to the bit-serial computations their
    parameters describe, and [keyHashSlot], which maps a key to one of the 16384 slots
    of a cluster. *)

From S2P Require Import Prelude Bits.

(** ** CRC-16 (XMODEM: polynomial 0x1021, most significant bit first) *)

Definition crc16tab : list Z :=
  [0x0000; 0x1021; 0x2042; 0x3063; 0x4084; 0x50a5; 0x60c6; 0x70e7;
   0x8108; 0x9129; 0xa14a; 0xb16b; 0xc18c; 0xd1ad; 0xe1ce; 0xf1ef;
   0x1231; 0x0210; 0x3273; 0x2252; 0x52b5; 0x4294; 0x72f7; 0x62d6;
   0x9339; 0x8318; 0xb37b; 0xa35a; 0xd3bd; 0xc39c; 0xf3ff; 0xe3de;
   0x2462; 0x3443; 0x0420; 0x1401; 0x64e6; 0x74c7; 0x44a4; 0x5485;
   0xa56a; 0xb54b; 0x8528; 0x9509; 0xe5ee; 0xf5cf; 0xc5ac; 0xd58d;
   0x3653; 0x2672; 0x1611; 0x0630; 0x76d7; 0x66f6; 0x5695; 0x46b4;
   0xb75b; 0xa77a; 0x9719; 0x8738; 0xf7df; 0xe7fe; 0xd79d; 0xc7bc;
   0x48c4; 0x58e5; 0x6886; 0x78a7; 0x0840; 0x1861; 0x2802; 0x3823;
   0xc9cc; 0xd9ed; 0xe98e; 0xf9af; 0x8948; 0x9969; 0xa90a; 0xb92b;
   0x5af5; 0x4ad4; 0x7ab7; 0x6a96; 0x1a71; 0x0a50; 0x3a33; 0x2a12;
   0xdbfd; 0xcbdc; 0xfbbf; 0xeb9e; 0x9b79; 0x8b58; 0xbb3b; 0xab1a;
   0x6ca6; 0x7c87; 0x4ce4; 0x5cc5; 0x2c22; 0x3c03; 0x0c60; 0x1c41;
   0xedae; 0xfd8f; 0xcdec; 0xddcd; 0xad2a; 0xbd0b; 0x8d68; 0x9d49;
   0x7e97; 0x6eb6; 0x5ed5; 0x4ef4; 0x3e13; 0x2e32; 0x1e51; 0x0e70;
   0xff9f; 0xefbe; 0xdfdd; 0xcffc; 0xbf1b; 0xaf3a; 0x9f59; 0x8f78;
   0x9188; 0x81a9; 0xb1ca; 0xa1eb; 0xd10c; 0xc12d; 0xf14e; 0xe16f;
   0x1080; 0x00a1; 0x30c2; 0x20e3; 0x5004; 0x4025; 0x7046; 0x6067;
   0x83b9; 0x9398; 0xa3fb; 0xb3da; 0xc33d; 0xd31c; 0xe37f; 0xf35e;
   0x02b1; 0x1290; 0x22f3; 0x32d2; 0x4235; 0x5214; 0x6277; 0x7256;
   0xb5ea; 0xa5cb; 0x95a8; 0x8589; 0xf56e; 0xe54f; 0xd52c; 0xc50d;
   0x34e2; 0x24c3; 0x14a0; 0x0481; 0x7466; 0x6447; 0x5424; 0x4405;
   0xa7db; 0xb7fa; 0x8799; 0x97b8; 0xe75f; 0xf77e; 0xc71d; 0xd73c;
   0x26d3; 0x36f2; 0x0691; 0x16b0; 0x6657; 0x7676; 0x4615; 0x5634;
   0xd94c; 0xc96d; 0xf90e; 0xe92f; 0x99c8; 0x89e9; 0xb98a; 0xa9ab;
   0x5844; 0x4865; 0x7806; 0x6827; 0x18c0; 0x08e1; 0x3882; 0x28a3;
   0xcb7d; 0xdb5c; 0xeb3f; 0xfb1e; 0x8bf9; 0x9bd8; 0xabbb; 0xbb9a;
   0x4a75; 0x5a54; 0x6a37; 0x7a16; 0x0af1; 0x1ad0; 0x2ab3; 0x3a92;
   0xfd2e; 0xed0f; 0xdd6c; 0xcd4d; 0xbdaa; 0xad8b; 0x9de8; 0x8dc9;
   0x7c26; 0x6c07; 0x5c64; 0x4c45; 0x3ca2; 0x2c83; 0x1ce0; 0x0cc1;
   0xef1f; 0xff3e; 0xcf5d; 0xdf7c; 0xaf9b; 0xbfba; 0x8fd9; 0x9ff8;
   0x6e17; 0x7e36; 0x4e55; 0x5e74; 0x2e93; 0x3eb2; 0x0ed1; 0x1ef0].

(** One iteration; [*buf++] is a [char], promoted to [int]. *)
Definition crc16_byte (crc c : Z) : option Z :=
  t ← rd1 crc16tab (Z.land (Z.lxor (Z.shiftr crc 8) (s8 c)) 255);
  Some (u16 (Z.lxor (Z.shiftl crc 8) t)).

Fixpoint crc16_loop (buf : list Z) (crc : Z) : option Z :=
  match buf with
  | [] => Some crc
  | c :: buf => crc ← crc16_byte crc c; crc16_loop buf crc
  end.

(** [buf] holds the [len] bytes. *)
Definition crc16 (buf : list Z) : option Z := crc16_loop buf 0.

(** ** CRC-64 (Jones polynomial, least significant bit first) *)

Definition crc64_tab : list Z :=
  [0x0000000000000000; 0x7ad870c830358979; 0xf5b0e190606b12f2; 0x8f689158505e9b8b;
   0xc038e5739841b68f; 0xbae095bba8743ff6; 0x358804e3f82aa47d; 0x4f50742bc81f2d04;
   0xab28ecb46814fe75; 0xd1f09c7c5821770c; 0x5e980d24087fec87; 0x24407dec384a65fe;
   0x6b1009c7f05548fa; 0x11c8790fc060c183; 0x9ea0e857903e5a08; 0xe478989fa00bd371;
   0x7d08ff3b88be6f81; 0x07d08ff3b88be6f8; 0x88b81eabe8d57d73; 0xf2606e63d8e0f40a;
   0xbd301a4810ffd90e; 0xc7e86a8020ca5077; 0x4880fbd87094cbfc; 0x32588b1040a14285;
   0xd620138fe0aa91f4; 0xacf86347d09f188d; 0x2390f21f80c18306; 0x594882d7b0f40a7f;
   0x1618f6fc78eb277b; 0x6cc0863448deae02; 0xe3a8176c18803589; 0x997067a428b5bcf0;
   0xfa11fe77117cdf02; 0x80c98ebf2149567b; 0x0fa11fe77117cdf0; 0x75796f2f41224489;
   0x3a291b04893d698d; 0x40f16bccb908e0f4; 0xcf99fa94e9567b7f; 0xb5418a5cd963f206;
   0x513912c379682177; 0x2be1620b495da80e; 0xa489f35319033385; 0xde51839b2936bafc;
   0x9101f7b0e12997f8; 0xebd98778d11c1e81; 0x64b116208142850a; 0x1e6966e8b1770c73;
   0x8719014c99c2b083; 0xfdc17184a9f739fa; 0x72a9e0dcf9a9a271; 0x08719014c99c2b08;
   0x4721e43f0183060c; 0x3df994f731b68f75; 0xb29105af61e814fe; 0xc849756751dd9d87;
   0x2c31edf8f1d64ef6; 0x56e99d30c1e3c78f; 0xd9810c6891bd5c04; 0xa3597ca0a188d57d;
   0xec09088b6997f879; 0x96d1784359a27100; 0x19b9e91b09fcea8b; 0x636199d339c963f2;
   0xdf7adabd7a6e2d6f; 0xa5a2aa754a5ba416; 0x2aca3b2d1a053f9d; 0x50124be52a30b6e4;
   0x1f423fcee22f9be0; 0x659a4f06d21a1299; 0xeaf2de5e82448912; 0x902aae96b271006b;
   0x74523609127ad31a; 0x0e8a46c1224f5a63; 0x81e2d7997211c1e8; 0xfb3aa75142244891;
   0xb46ad37a8a3b6595; 0xceb2a3b2ba0eecec; 0x41da32eaea507767; 0x3b024222da65fe1e;
   0xa2722586f2d042ee; 0xd8aa554ec2e5cb97; 0x57c2c41692bb501c; 0x2d1ab4dea28ed965;
   0x624ac0f56a91f461; 0x1892b03d5aa47d18; 0x97fa21650afae693; 0xed2251ad3acf6fea;
   0x095ac9329ac4bc9b; 0x7382b9faaaf135e2; 0xfcea28a2faafae69; 0x8632586aca9a2710;
   0xc9622c4102850a14; 0xb3ba5c8932b0836d; 0x3cd2cdd162ee18e6; 0x460abd1952db919f;
   0x256b24ca6b12f26d; 0x5fb354025b277b14; 0xd0dbc55a0b79e09f; 0xaa03b5923b4c69e6;
   0xe553c1b9f35344e2; 0x9f8bb171c366cd9b; 0x10e3202993385610; 0x6a3b50e1a30ddf69;
   0x8e43c87e03060c18; 0xf49bb8b633338561; 0x7bf329ee636d1eea; 0x012b592653589793;
   0x4e7b2d0d9b47ba97; 0x34a35dc5ab7233ee; 0xbbcbcc9dfb2ca865; 0xc113bc55cb19211c;
   0x5863dbf1e3ac9dec; 0x22bbab39d3991495; 0xadd33a6183c78f1e; 0xd70b4aa9b3f20667;
   0x985b3e827bed2b63; 0xe2834e4a4bd8a21a; 0x6debdf121b863991; 0x1733afda2bb3b0e8;
   0xf34b37458bb86399; 0x8993478dbb8deae0; 0x06fbd6d5ebd3716b; 0x7c23a61ddbe6f812;
   0x3373d23613f9d516; 0x49aba2fe23cc5c6f; 0xc6c333a67392c7e4; 0xbc1b436e43a74e9d;
   0x95ac9329ac4bc9b5; 0xef74e3e19c7e40cc; 0x601c72b9cc20db47; 0x1ac40271fc15523e;
   0x5594765a340a7f3a; 0x2f4c0692043ff643; 0xa02497ca54616dc8; 0xdafce7026454e4b1;
   0x3e847f9dc45f37c0; 0x445c0f55f46abeb9; 0xcb349e0da4342532; 0xb1eceec59401ac4b;
   0xfebc9aee5c1e814f; 0x8464ea266c2b0836; 0x0b0c7b7e3c7593bd; 0x71d40bb60c401ac4;
   0xe8a46c1224f5a634; 0x927c1cda14c02f4d; 0x1d148d82449eb4c6; 0x67ccfd4a74ab3dbf;
   0x289c8961bcb410bb; 0x5244f9a98c8199c2; 0xdd2c68f1dcdf0249; 0xa7f41839ecea8b30;
   0x438c80a64ce15841; 0x3954f06e7cd4d138; 0xb63c61362c8a4ab3; 0xcce411fe1cbfc3ca;
   0x83b465d5d4a0eece; 0xf96c151de49567b7; 0x76048445b4cbfc3c; 0x0cdcf48d84fe7545;
   0x6fbd6d5ebd3716b7; 0x15651d968d029fce; 0x9a0d8ccedd5c0445; 0xe0d5fc06ed698d3c;
   0xaf85882d2576a038; 0xd55df8e515432941; 0x5a3569bd451db2ca; 0x20ed197575283bb3;
   0xc49581ead523e8c2; 0xbe4df122e51661bb; 0x3125607ab548fa30; 0x4bfd10b2857d7349;
   0x04ad64994d625e4d; 0x7e7514517d57d734; 0xf11d85092d094cbf; 0x8bc5f5c11d3cc5c6;
   0x12b5926535897936; 0x686de2ad05bcf04f; 0xe70573f555e26bc4; 0x9ddd033d65d7e2bd;
   0xd28d7716adc8cfb9; 0xa85507de9dfd46c0; 0x273d9686cda3dd4b; 0x5de5e64efd965432;
   0xb99d7ed15d9d8743; 0xc3450e196da80e3a; 0x4c2d9f413df695b1; 0x36f5ef890dc31cc8;
   0x79a59ba2c5dc31cc; 0x037deb6af5e9b8b5; 0x8c157a32a5b7233e; 0xf6cd0afa9582aa47;
   0x4ad64994d625e4da; 0x300e395ce6106da3; 0xbf66a804b64ef628; 0xc5bed8cc867b7f51;
   0x8aeeace74e645255; 0xf036dc2f7e51db2c; 0x7f5e4d772e0f40a7; 0x05863dbf1e3ac9de;
   0xe1fea520be311aaf; 0x9b26d5e88e0493d6; 0x144e44b0de5a085d; 0x6e963478ee6f8124;
   0x21c640532670ac20; 0x5b1e309b16452559; 0xd476a1c3461bbed2; 0xaeaed10b762e37ab;
   0x37deb6af5e9b8b5b; 0x4d06c6676eae0222; 0xc26e573f3ef099a9; 0xb8b627f70ec510d0;
   0xf7e653dcc6da3dd4; 0x8d3e2314f6efb4ad; 0x0256b24ca6b12f26; 0x788ec2849684a65f;
   0x9cf65a1b368f752e; 0xe62e2ad306bafc57; 0x6946bb8b56e467dc; 0x139ecb4366d1eea5;
   0x5ccebf68aecec3a1; 0x2616cfa09efb4ad8; 0xa97e5ef8cea5d153; 0xd3a62e30fe90582a;
   0xb0c7b7e3c7593bd8; 0xca1fc72bf76cb2a1; 0x45775673a732292a; 0x3faf26bb9707a053;
   0x70ff52905f188d57; 0x0a2722586f2d042e; 0x854fb3003f739fa5; 0xff97c3c80f4616dc;
   0x1bef5b57af4dc5ad; 0x61372b9f9f784cd4; 0xee5fbac7cf26d75f; 0x9487ca0fff135e26;
   0xdbd7be24370c7322; 0xa10fceec0739fa5b; 0x2e675fb4576761d0; 0x54bf2f7c6752e8a9;
   0xcdcf48d84fe75459; 0xb71738107fd2dd20; 0x387fa9482f8c46ab; 0x42a7d9801fb9cfd2;
   0x0df7adabd7a6e2d6; 0x772fdd63e7936baf; 0xf8474c3bb7cdf024; 0x829f3cf387f8795d;
   0x66e7a46c27f3aa2c; 0x1c3fd4a417c62355; 0x935745fc4798b8de; 0xe98f353477ad31a7;
   0xa6df411fbfb21ca3; 0xdc0731d78f8795da; 0x536fa08fdfd90e51; 0x29b7d047efec8728].

Definition crc64_byte (crc byte : Z) : option Z :=
  t ← rd1 crc64_tab (Z.lxor (u8 crc) byte);
  Some (Z.lxor t (Z.shiftr crc 8)).

Fixpoint crc64 (crc : Z) (s : list Z) : option Z :=
  match s with
  | [] => Some crc
  | byte :: s => crc ← crc64_byte crc byte; crc64 crc s
  end.

(** ** Hash slots *)

(** [for (; i < keylen; i++) if (key[i] == c) break]: the index, [keylen] when absent. *)
Fixpoint find_char (fuel : nat) (key : list Z) (keylen c i : Z) : option Z :=
  match fuel with
  | O => None
  | S fuel =>
    if i <? keylen then
      x ← rd1 key i;
      if x =? c then Some i else find_char fuel key keylen c (i + 1)
    else Some i
  end.

Definition keyHashSlot (key : list Z) (keylen : Z) : option Z :=
  let fuel := S (Z.to_nat keylen) in
  let whole := k ← rd key 0 keylen; h ← crc16 k; Some (Z.land h 16383) in
  s ← find_char fuel key keylen (chr "{") 0;
  if s =? keylen then whole else
  e ← find_char fuel key keylen (chr "}") (s + 1);
  if (e =? keylen) || (e =? s + 1) then whole else
  k ← rd key (s + 1) (e - s - 1);
  h ← crc16 k;
  Some (Z.land h 16383).

(** ** The bit-serial reference *)

(** One bit of CRC-16: the register shifts left and the bit that leaves it, if set, adds
    the polynomial. *)
Definition bit16 (x : Z) : Z :=
  Z.lxor (Z.land (Z.shiftl x 1) 65535) (if Z.testbit x 15 then 0x1021 else 0).

(** One bit of CRC-64: the register shifts right; the constant is the polynomial
    0xad93d23594c935a9 with its bits reversed. *)
Definition bit64 (x : Z) : Z :=
  Z.lxor (Z.shiftr x 1) (if Z.testbit x 0 then 0x95ac9329ac4bc9b5 else 0).

Definition bits8 (f : Z -> Z) (x : Z) : Z := Nat.iter 8 f x.

(** The eight bits of a byte enter at the top (CRC-16) or at the bottom (CRC-64). *)
Definition crc16_serial (buf : list Z) : Z :=
  foldl (fun crc c => bits8 bit16 (Z.lxor crc (Z.shiftl c 8))) 0 buf.
Definition crc64_serial (crc : Z) (s : list Z) : Z :=
  foldl (fun crc c => bits8 bit64 (Z.lxor crc c)) crc s.

Example crc16_check : crc16 (lit "123456789") = Some 0x31c3.
Proof. vm_compute. reflexivity. Qed.
Example crc64_check : crc64 0 (lit "123456789") = Some 0xe9c6d914c4b8d9ca.
Proof. vm_compute. reflexivity. Qed.
Example crc16_serial_check : crc16_serial (lit "123456789") = 0x31c3.
Proof. vm_compute. reflexivity. Qed.
Example crc64_serial_check : crc64_serial 0 (lit "123456789") = 0xe9c6d914c4b8d9ca.
Proof. vm_compute. reflexivity. Qed.

(** ** The tables hold eight steps of the bit-serial computation *)

#[export] Instance additive_bit16 : Additive bit16.
Proof. unfold bit16. apply additive_lxor; [|apply additive_bit]. intros x y. by rewrite Z.shiftl_lxor, (additive_land 65535). Qed.

#[export] Instance additive_bit64 : Additive bit64.
Proof. unfold bit64. apply additive_lxor; [apply additive_shiftr|apply additive_bit]. Qed.

Lemma bits8_additive f x y : Additive f -> bits8 f (Z.lxor x y) = Z.lxor (bits8 f x) (bits8 f y).
Proof. intros Hf. apply (additive_iter f 8 Hf). Qed.

Definition opt_eqb (o : option Z) (x : Z) : bool := if o is Some y then y =? x else false.

Lemma opt_eqb_true o x : opt_eqb o x = true -> o = Some x.
Proof. destruct o; [|done]. cbn. by intros ->%Z.eqb_eq. Qed.

Lemma crc16tab_spec h : 0 <= h < 256 -> rd1 crc16tab h = Some (bits8 bit16 (Z.shiftl h 8)).
Proof.
  intros Hh. apply opt_eqb_true.
  apply (check_range 256 (fun h => opt_eqb (rd1 crc16tab h) (bits8 bit16 (Z.shiftl h 8)))); [vm_compute; reflexivity|done].
Qed.

Lemma bits8_16_low l : 0 <= l < 256 -> bits8 bit16 l = Z.shiftl l 8.
Proof.
  intros Hl. apply Z.eqb_eq. apply (check_range 256 (fun l => bits8 bit16 l =? Z.shiftl l 8)); [vm_compute; reflexivity|done].
Qed.

Lemma crc64_tab_spec h : 0 <= h < 256 -> rd1 crc64_tab h = Some (bits8 bit64 h).
Proof.
  intros Hh. apply opt_eqb_true.
  apply (check_range 256 (fun h => opt_eqb (rd1 crc64_tab h) (bits8 bit64 h))); [vm_compute; reflexivity|done].
Qed.

Lemma bit64_even x : bit64 (Z.shiftl x 1) = x.
Proof.
  unfold bit64. rewrite Z.shiftl_spec, Z.testbit_neg_r, Z.lxor_0_r, Z.shiftr_shiftl_l by lia.
  by rewrite Z.shiftl_0_r.
Qed.

Lemma bits8_64_high h : bits8 bit64 (Z.shiftl h 8) = h.
Proof.
  unfold bits8. change 8%Z with (1 + (1 + (1 + (1 + (1 + (1 + (1 + 1))))))).
  rewrite <-!Z.shiftl_shiftl by lia. rewrite !Nat.iter_succ_r, !bit64_even. done.
Qed.

Lemma bits8_16_range x : 0 <= bits8 bit16 x < 65536.
Proof.
  unfold bits8. rewrite Nat.iter_succ. generalize (Nat.iter 7 bit16 x). intros y. unfold bit16.
  rewrite land_65535. apply (lxor_range 16); [lia| |destruct (Z.testbit y 15); lia].
  apply Z.mod_pos_bound. lia.
Qed.

(** One table step is eight bit steps. *)
Lemma crc16_byte_spec crc c :
  0 <= crc < 65536 -> is_byte c -> crc16_byte crc c = Some (bits8 bit16 (Z.lxor crc (Z.shiftl c 8))).
Proof.
  intros Hcrc Hc. unfold crc16_byte, is_byte in *. rewrite land_255, (lxor_mod _ _ 8) by lia.
  change (2 ^ 8) with 256. rewrite s8_mod, !Z.mod_small by (rewrite ?Z.shiftr_div_pow2 by lia; change (2 ^ 8) with 256; zlia).
  assert (Hr : 0 <= Z.lxor (Z.shiftr crc 8) c < 256).
  { apply (lxor_range 8); [lia| |done]. rewrite Z.shiftr_div_pow2 by lia. change (2 ^ 8) with 256. zlia. }
  rewrite crc16tab_spec by done. mred. f_equal.
  assert (Hs : Z.lxor crc (Z.shiftl c 8) = Z.lxor (Z.shiftl (Z.lxor (Z.shiftr crc 8) c) 8) (crc mod 256)).
  { rewrite Z.shiftl_lxor, Z.lxor_assoc, (Z.lxor_comm (Z.shiftl c 8)), <-Z.lxor_assoc, split_byte. done. }
  rewrite Hs, bits8_additive by apply _. rewrite (bits8_16_low (crc mod 256)) by zlia.
  pose proof (bits8_16_range (Z.shiftl (Z.lxor (Z.shiftr crc 8) c) 8)) as Hb.
  unfold wrapu. rewrite (lxor_mod _ _ 16) by lia. change (2 ^ 16) with 65536. rewrite (Z.mod_small _ _ Hb).
  generalize (bits8 bit16 (Z.shiftl (Z.lxor (Z.shiftr crc 8) c) 8)). intros t.
  rewrite (Z.lxor_comm t). f_equal. rewrite !Z.shiftl_mul_pow2 by lia. change (2 ^ 8) with 256. zlia.
Qed.

Lemma crc64_byte_spec crc c :
  0 <= crc < 2 ^ 64 -> is_byte c -> crc64_byte crc c = Some (bits8 bit64 (Z.lxor crc c)).
Proof.
  intros Hcrc Hc. unfold crc64_byte, is_byte, wrapu in *. change (2 ^ 8) with 256.
  rewrite crc64_tab_spec; [mred; f_equal|apply (lxor_range 8); zlia].
  assert (Hs : Z.lxor crc c = Z.lxor (Z.lxor (crc mod 256) c) (Z.shiftl (Z.shiftr crc 8) 8)).
  { rewrite <-(split_byte crc) at 1. rewrite (Z.lxor_comm (Z.lxor (crc mod 256) c)), Z.lxor_assoc. done. }
  rewrite Hs, (bits8_additive bit64 (Z.lxor (crc mod 256) c)), bits8_64_high by apply _. done.
Qed.

Lemma bits8_64_range x : 0 <= x < 2 ^ 64 -> 0 <= bits8 bit64 x < 2 ^ 64.
Proof.
  assert (Hs : forall y, 0 <= y < 2 ^ 64 -> 0 <= bit64 y < 2 ^ 64).
  { intros y Hy. unfold bit64. apply lxor_range; [lia| |destruct (Z.testbit y 0); cbn; lia].
    rewrite Z.shiftr_div_pow2 by lia. zlia. }
  intros Hx. unfold bits8. generalize 8%nat. intros n. induction n as [|n IH]; [done|]. rewrite Nat.iter_succ. auto.
Qed.

Lemma crc16_loop_spec buf crc :
  0 <= crc < 65536 -> Forall is_byte buf ->
  crc16_loop buf crc = Some (foldl (fun crc c => bits8 bit16 (Z.lxor crc (Z.shiftl c 8))) crc buf) /\
  0 <= foldl (fun crc c => bits8 bit16 (Z.lxor crc (Z.shiftl c 8))) crc buf < 65536.
Proof.
  intros Hcrc Hb. revert crc Hcrc. induction Hb as [|c buf Hc _ IH]; intros crc Hcrc; [done|].
  cbn [crc16_loop foldl]. rewrite crc16_byte_spec by done. mred. apply IH, bits8_16_range.
Qed.

Lemma crc16_spec buf : Forall is_byte buf -> crc16 buf = Some (crc16_serial buf) /\ 0 <= crc16_serial buf < 65536.
Proof. apply crc16_loop_spec. lia. Qed.

Lemma crc64_spec crc s :
  0 <= crc < 2 ^ 64 -> Forall is_byte s ->
  crc64 crc s = Some (crc64_serial crc s) /\ 0 <= crc64_serial crc s < 2 ^ 64.
Proof.
  intros Hcrc Hb. revert crc Hcrc. unfold crc64_serial. induction Hb as [|c s Hc _ IH]; intros crc Hcrc; [done|].
  cbn [crc64 foldl]. rewrite crc64_byte_spec by done. mred. apply IH, bits8_64_range, lxor_range; [lia|done|].
  unfold is_byte in Hc. cbn. lia.
Qed.

(** ** No two registers go to the same one *)

Lemma bit64_inj x y : 0 <= x < 2 ^ 64 -> 0 <= y < 2 ^ 64 -> bit64 x = bit64 y -> x = y.
Proof.
  intros Hx Hy E. apply Z.lxor_eq. set (z := Z.lxor x y).
  assert (Hz : 0 <= z < 2 ^ 64) by (apply lxor_range; lia).
  assert (E0 : bit64 z = 0) by (unfold z; by rewrite additive_bit64, E, Z.lxor_nilpotent).
  clearbody z. unfold bit64 in E0. destruct (Z.testbit z 0) eqn:Hodd.
  - apply (f_equal (fun v => Z.testbit v 63)) in E0.
    rewrite Z.lxor_spec, Z.shiftr_spec, (testbit_small z 64) in E0 by lia. done.
  - rewrite Z.lxor_0_r, Z.shiftr_div_pow2 in E0 by lia. rewrite Z.bit0_odd in Hodd.
    rewrite Zodd_even_bool, negb_false_iff, Z.even_spec in Hodd. destruct Hodd as [k ->]. change (2 ^ 1) with 2 in E0. zlia.
Qed.

Lemma bits8_64_inj x y : 0 <= x < 2 ^ 64 -> 0 <= y < 2 ^ 64 -> bits8 bit64 x = bits8 bit64 y -> x = y.
Proof.
  assert (Hs : forall y, 0 <= y < 2 ^ 64 -> 0 <= bit64 y < 2 ^ 64).
  { intros z Hz. unfold bit64. apply lxor_range; [lia| |destruct (Z.testbit z 0); cbn; lia].
    rewrite Z.shiftr_div_pow2 by lia. zlia. }
  unfold bits8. generalize 8%nat. intros n. revert x y. induction n as [|n IH]; intros x y Hx Hy; [done|].
  rewrite !Nat.iter_succ_r. intros E%IH; [|auto..]. by apply bit64_inj.
Qed.

(** Several bytes enter the register as their little-endian integer. *)
Lemma crc64_serial_le crc w :
  Forall is_byte w ->
  crc64_serial crc w = Nat.iter (length w) (bits8 bit64) (Z.lxor crc (le_decode w)).
Proof.
  intros Hw. revert crc. induction Hw as [|c w Hc Hw IH]; intros crc; [by rewrite Z.lxor_0_r|].
  change (crc64_serial crc (c :: w)) with (crc64_serial (bits8 bit64 (Z.lxor crc c)) w).
  rewrite IH. cbn [length le_decode]. rewrite Nat.iter_succ_r. f_equal.
  assert (E : c + 256 * le_decode w = Z.lxor c (Z.shiftl (le_decode w) 8)).
  { rewrite <-(split_byte (c + 256 * le_decode w)), Z.lxor_comm. unfold is_byte in Hc.
    rewrite Z.shiftr_div_pow2 by lia. change (2 ^ 8) with 256.
    replace ((c + 256 * le_decode w) mod 256) with c by zlia.
    replace ((c + 256 * le_decode w) / 256) with (le_decode w) by zlia. done. }
  rewrite E, <-Z.lxor_assoc, (bits8_additive bit64 (Z.lxor crc c)), bits8_64_high by apply _. done.
Qed.

Lemma crc64_serial_app crc a b : crc64_serial crc (a ++ b) = crc64_serial (crc64_serial crc a) b.
Proof. apply foldl_app. Qed.

Lemma crc64_serial_inj b x y :
  Forall is_byte b -> 0 <= x < 2 ^ 64 -> 0 <= y < 2 ^ 64 -> crc64_serial x b = crc64_serial y b -> x = y.
Proof.
  intros Hb. revert x y. induction Hb as [|c b Hc _ IH]; intros x y Hx Hy; [done|].
  assert (Hcr : 0 <= c < 2 ^ 64) by (unfold is_byte in Hc; cbn; lia).
  intros E%IH; [|apply bits8_64_range, lxor_range; lia..].
  apply bits8_64_inj in E; [|apply lxor_range; lia..].
  rewrite !(Z.lxor_comm _ c) in E. by apply lxor_cancel_l in E.
Qed.

Lemma iter_bits8_64_inj n x y :
  0 <= x < 2 ^ 64 -> 0 <= y < 2 ^ 64 -> Nat.iter n (bits8 bit64) x = Nat.iter n (bits8 bit64) y -> x = y.
Proof.
  revert x y. induction n as [|n IH]; intros x y Hx Hy; [done|]. rewrite !Nat.iter_succ_r.
  intros E%IH; [by apply bits8_64_inj|by apply bits8_64_range..].
Qed.

(** ** The part of a key that is hashed *)

(** The bytes before the first [c], and those after it when there is one. *)
Fixpoint cut (c : Z) (l : list Z) : list Z * option (list Z) :=
  match l with
  | [] => ([], None)
  | x :: l => if x =? c then ([], Some l) else let '(a, b) := cut c l in (x :: a, b)
  end.

(** The first non-empty text between the first [{] and the next [}], or the key. *)
Definition hashed_part (key : list Z) : list Z :=
  match (cut (chr "{") key).2 with
  | None => key
  | Some r =>
    match cut (chr "}") r with
    | (t, Some _) => if bool_decide (t = []) then key else t
    | (_, None) => key
    end
  end.

Lemma cut_some c l a b : cut c l = (a, Some b) -> l = a ++ c :: b.
Proof.
  revert a. induction l as [|x l IH]; intros a E; [done|]. cbn in E. destruct (Z.eqb_spec x c) as [->|].
  - by injection E as <- <-.
  - destruct (cut c l) as [a' b'] eqn:E'. injection E as <- ->. cbn. by rewrite <-IH.
Qed.

Lemma cut_none c l a : cut c l = (a, None) -> l = a.
Proof.
  revert a. induction l as [|x l IH]; intros a E; [by injection E|]. cbn in E. destruct (Z.eqb_spec x c) as [->|]; [done|].
  destruct (cut c l) as [a' b'] eqn:E'. injection E as <- ->. f_equal. by apply IH.
Qed.

Lemma cut_first c a b : c ∉ a -> cut c (a ++ c :: b) = (a, Some b).
Proof.
  induction a as [|x a IH]; intros Hn; cbn; [by rewrite Z.eqb_refl|].
  rewrite not_elem_of_cons in Hn. destruct Hn as [Hx Hn].
  rewrite (proj2 (Z.eqb_neq x c)) by (intros ->; done). by rewrite IH.
Qed.

Lemma find_char_spec fuel a r c n i :
  n = Z.of_nat (length (a ++ r)) -> i = Z.of_nat (length a) -> (length r < fuel)%nat ->
  find_char fuel (a ++ r) n c i = Some (Z.of_nat (length (a ++ (cut c r).1))).
Proof.
  intros -> ->. revert a r. induction fuel as [|fuel IH]; intros a r Hf; [lia|]. cbn [find_char].
  destruct r as [|x r].
  - rewrite app_nil_r, (proj2 (Z.ltb_ge _ _)) by lia. cbn. by rewrite app_nil_r.
  - rewrite (proj2 (Z.ltb_lt _ _)) by (rewrite length_app; cbn [length]; lia). rewrite rd1_app0. cbn [head]. mred. cbn [cut].
    destruct (Z.eqb_spec x c) as [->|]; [cbn; by rewrite app_nil_r|].
    specialize (IH (a ++ [x]) r). rewrite <-app_assoc in IH. cbn [app] in IH.
    replace (Z.of_nat (length a) + 1) with (Z.of_nat (length (a ++ [x]))) by (rewrite length_app; cbn; lia).
    rewrite IH by (cbn in Hf; lia). destruct (cut c r). cbn [fst]. by rewrite <-app_assoc.
Qed.

Lemma slot_of k : Forall is_byte k -> (h ← crc16 k; Some (Z.land h 16383)) = Some (crc16_serial k mod 16384).
Proof. intros Hk. destruct (crc16_spec k Hk) as [-> _]. mred. by rewrite land_16383. Qed.

Lemma keyHashSlot_eq key :
  Forall is_byte key ->
  keyHashSlot key (Z.of_nat (length key)) = Some (crc16_serial (hashed_part key) mod 16384).
Proof.
  intros Hk. unfold keyHashSlot, hashed_part. set (fuel := S _).
  assert (Hwhole : (k ← rd key 0 (Z.of_nat (length key)); h ← crc16 k; Some (Z.land h 16383)) =
    Some (crc16_serial key mod 16384)).
  { assert (E : rd key 0 (Z.of_nat (length key)) = Some key).
    { apply rd_Some. rewrite drop_0, Nat2Z.id, take_ge by lia. split_and!; lia || done. }
    rewrite E. mred. by apply slot_of. }
  rewrite Hwhole. assert (Hfuel : (length key < fuel)%nat) by (unfold fuel; lia). clearbody fuel.
  pose proof (find_char_spec fuel [] key (chr "{") _ 0 eq_refl eq_refl Hfuel) as E1. cbn [app] in E1. rewrite E1. mred.
  destruct (cut (chr "{") key) as [a [r|]] eqn:Ecut; cbn [fst snd].
  2:{ apply cut_none in Ecut as <-. by rewrite Z.eqb_refl. }
  apply cut_some in Ecut. pose proof Ecut as Elen. apply (f_equal length) in Elen. rewrite length_app in Elen. cbn [length] in Elen.
  rewrite (proj2 (Z.eqb_neq _ _)) by lia.
  pose proof (find_char_spec fuel (a ++ [chr "{"]) r (chr "}") (Z.of_nat (length key)) (Z.of_nat (length a) + 1)) as E2.
  rewrite <-app_assoc in E2. cbn [app] in E2. rewrite <-Ecut in E2. rewrite E2; [mred|done| |lia].
  2:{ rewrite length_app. cbn. lia. }
  destruct (cut (chr "}") r) as [t o] eqn:Ecut2. cbn [fst]. rewrite !length_app. cbn [length].
  destruct o as [b|].
  2:{ apply cut_none in Ecut2 as <-. rewrite (proj2 (Z.eqb_eq _ _)) by lia. done. }
  apply cut_some in Ecut2. pose proof Ecut2 as Elen2. apply (f_equal length) in Elen2. rewrite length_app in Elen2. cbn [length] in Elen2.
  rewrite (proj2 (Z.eqb_neq (Z.of_nat (length a + 1 + length t)) (Z.of_nat (length key)))) by lia. cbn [orb].
  case_bool_decide as Ht.
  - subst t. cbn [length]. rewrite (proj2 (Z.eqb_eq _ _)) by lia. done.
  - assert (length t <> 0)%nat by (by destruct t). rewrite (proj2 (Z.eqb_neq _ _)) by lia.
    assert (E : rd key (Z.of_nat (length a) + 1) (Z.of_nat (length a + 1 + length t) - Z.of_nat (length a) - 1) = Some t).
    { apply rd_Some. split_and!; try lia.
      replace (Z.to_nat (Z.of_nat (length a) + 1)) with (length (a ++ [chr "{"])) by (rewrite length_app; cbn; lia).
      replace (Z.to_nat _) with (length t) by lia.
      replace key with ((a ++ [chr "{"]) ++ t ++ chr "}" :: b) by (rewrite Ecut, Ecut2, <-app_assoc; done).
      by rewrite drop_app_length, take_app_length. }
    rewrite E. mred. apply slot_of. rewrite Ecut, Ecut2 in Hk. rewrite !Forall_app, !Forall_cons, Forall_app in Hk. apply Hk.
Qed.

(** C33: the table-driven [crc16] and [crc64] compute, for every byte string and every
    starting value of [crc64], the bit-serial CRCs of their documented parameters, and
    [crc64] over a string in two parts is [crc64] of the second part started from the
    value of the first. *)
Theorem crc_tables_serial buf s1 s2 crc :
  Forall is_byte buf -> Forall is_byte s1 -> Forall is_byte s2 -> 0 <= crc < 2 ^ 64 ->
  crc16 buf = Some (crc16_serial buf) /\ 0 <= crc16_serial buf < 2 ^ 16 /\
  crc64 crc (s1 ++ s2) = Some (crc64_serial crc (s1 ++ s2)) /\ 0 <= crc64_serial crc (s1 ++ s2) < 2 ^ 64 /\
  (crc' ← crc64 crc s1; crc64 crc' s2) = crc64 crc (s1 ++ s2).
Proof.
  intros Hb H1 H2 Hc. destruct (crc16_spec buf Hb) as [-> ?].
  destruct (crc64_spec crc (s1 ++ s2)) as [-> ?]; [done|by apply Forall_app|].
  destruct (crc64_spec crc s1 Hc H1) as [-> Hr]. mred. destruct (crc64_spec _ s2 Hr H2) as [-> _].
  rewrite crc64_serial_app in *. split_and!; done || lia.
Qed.

(** [crc64] detects every change confined to eight consecutive bytes: two strings of
    the same length that differ only there never have the same checksum. *)
Theorem crc64_detects_burst crc a w w' b :
  0 <= crc < 2 ^ 64 -> Forall is_byte a -> Forall is_byte w -> Forall is_byte w' -> Forall is_byte b ->
  length w = length w' -> (length w <= 8)%nat -> w <> w' ->
  crc64 crc (a ++ w ++ b) <> crc64 crc (a ++ w' ++ b).
Proof.
  intros Hc Ha Hw Hw' Hb Hl Hl8 Hne E. apply Hne.
  destruct (crc64_spec crc (a ++ w ++ b) Hc) as [E1 _]; [by rewrite !Forall_app|].
  destruct (crc64_spec crc (a ++ w' ++ b) Hc) as [E2 _]; [by rewrite !Forall_app|].
  rewrite E1, E2, !crc64_serial_app in E. injection E as E.
  destruct (crc64_spec crc a Hc Ha) as [_ Hr]. set (c := crc64_serial crc a) in *.
  apply crc64_serial_inj in E; [|done|by apply crc64_spec..].
  rewrite !crc64_serial_le, <-Hl in E by done.
  assert (Hle : forall v, Forall is_byte v -> length v = length w -> 0 <= le_decode v < 2 ^ 64).
  { intros v Hv Hlv. pose proof (le_decode_range v Hv) as Hd. split; [lia|].
    eapply Z.lt_le_trans; [apply Hd|]. apply Z.pow_le_mono_r; lia. }
  apply iter_bits8_64_inj in E; [|apply lxor_range; [lia|done|by apply Hle]..].
  apply lxor_cancel_l in E. rewrite <-(le_encode_decode w), <-(le_encode_decode w') by done. by rewrite E, Hl.
Qed.

(** [keyHashSlot] returns a slot below 16384 for every key: the CRC-16 of the part of the
    key it hashes, modulo 16384; the part is the text between the first [{] and the next
    [}] when there is one, so keys that share a tag share a slot. *)
Theorem keyHashSlot_hashed_part key a t b :
  Forall is_byte key -> chr "{" ∉ a -> chr "}" ∉ t -> t <> [] ->
  keyHashSlot key (Z.of_nat (length key)) = Some (crc16_serial (hashed_part key) mod 16384) /\
  0 <= crc16_serial (hashed_part key) mod 16384 < 16384 /\
  hashed_part (a ++ chr "{" :: t ++ chr "}" :: b) = t.
Proof.
  intros Hk Ha Ht Hne. split; [by apply keyHashSlot_eq|]. split; [apply Z.mod_pos_bound; lia|].
  unfold hashed_part. rewrite !cut_first by done. cbn [snd]. by rewrite cut_first, bool_decide_false by done.
Qed.

(** Witnesses. *)
Lemma crc_tables_serial_witness :
  crc16 (lit "123456789") = Some (crc16_serial (lit "123456789")) /\
  (crc' ← crc64 0 (lit "12345"); crc64 crc' (lit "6789")) = Some 0xe9c6d914c4b8d9ca.
Proof.
  pose proof (crc_tables_serial (lit "123456789") (lit "12345") (lit "6789") 0) as H.
  destruct H as (E1 & _ & E2 & _ & E3); try (apply lit_bytes; vm_compute; reflexivity); [lia|].
  split; [exact E1|]. rewrite E3, E2. vm_compute. reflexivity.
Defined.

Lemma crc64_detects_burst_witness : crc64 0 (lit "REDIS" ++ lit "0008" ++ [255]) <> crc64 0 (lit "REDIS" ++ lit "0009" ++ [255]).
Proof.
  apply (crc64_detects_burst 0 (lit "REDIS") (lit "0008") (lit "0009") [255]);
    try (apply lit_bytes; vm_compute; reflexivity); [lia|reflexivity|cbn; lia|discriminate].
Defined.

Lemma keyHashSlot_hashed_part_witness :
  keyHashSlot (lit "{user1000}.following") 20 = Some (crc16_serial (lit "user1000") mod 16384).
Proof.
  assert (H1 : chr "{" ∉ @nil Z) by apply not_elem_of_nil.
  assert (H2 : chr "}" ∉ lit "user1000") by (apply (bool_decide_unpack _); vm_compute; exact I).
  assert (H3 : Forall is_byte (lit "{user1000}.following")) by (apply lit_bytes; vm_compute; reflexivity).
  destruct (keyHashSlot_hashed_part (lit "{user1000}.following") [] (lit "user1000") (lit ".following") H3 H1 H2) as (E & _ & Ep); [discriminate|].
  change (Z.of_nat (length (lit "{user1000}.following"))) with 20 in E. rewrite E.
  change (lit "{user1000}.following") with ([] ++ chr "{" :: lit "user1000" ++ chr "}" :: lit ".following").
  by rewrite Ep.
Defined.
