(* ===== verification/Lzf.v ===== *)
(** * lzf_c.c and lzf_d.c

    The LZF compressor and decompressor, compiled as the defaults of lzfP.h say
    ([HLOG] 16, [VERY_FAST], no [INIT_HTAB], [CHECK_INPUT], offsets in the hash table,
    unaligned 16-bit reads). Pointers are offsets in their buffers; every access is
    checked against the buffer. The hash table lives on the stack and is not
    initialised: its initial contents are an argument. *)

From S2P Require Import Prelude Bits.

(** ** Compression *)

Definition HSIZE : Z := Z.shiftl 1 16.
Definition MAX_LIT : Z := Z.shiftl 1 5.
Definition MAX_OFF : Z := Z.shiftl 1 13.
Definition MAX_REF : Z := Z.shiftl 1 8 + Z.shiftl 1 3.

Definition FRST (inp : list Z) (p : Z) : option Z :=
  a ← rd1 inp p; b ← rd1 inp (p + 1); Some (Z.lor (Z.shiftl a 8) b).
Definition NEXT (v : Z) (inp : list Z) (p : Z) : option Z :=
  c ← rd1 inp (p + 2); Some (Z.lor (u32 (Z.shiftl v 8)) c).
Definition IDX (h : Z) : Z := Z.land (u32 (Z.shiftr h 8 - h * 5)) (HSIZE - 1).

(** [ref = *hslot + in_data; *hslot = ip - in_data]. *)
Definition hslot_swap (htab : list Z) (i ip : Z) : option (Z * list Z) :=
  r ← rd1 htab i; Some (r, <[Z.to_nat i := u32 ip]> htab).

(** The condition of the match. *)
Definition match_found (inp : list Z) (ref ip : Z) : option bool :=
  if u64 (ip - ref - 1) <? MAX_OFF then
    if 0 <? ref then
      r2 ← rd1 inp (ref + 2);
      i2 ← rd1 inp (ip + 2);
      if r2 =? i2 then
        r ← rd inp ref 2;
        i ← rd inp ip 2;
        Some (bool_decide (r = i))
      else Some false
    else Some false
  else Some false.

(** The unrolled comparisons: [len] and whether one of them left the loop. *)
Fixpoint match_unrolled (n : nat) (inp : list Z) (ref ip len : Z) : option (Z * bool) :=
  match n with
  | O => Some (len, false)
  | S n =>
    let len := len + 1 in
    r ← rd1 inp (ref + len);
    i ← rd1 inp (ip + len);
    if r =? i then match_unrolled n inp ref ip len else Some (len, true)
  end.

(** [do len++; while (len < maxlen && ref[len] == ip[len])]. *)
Fixpoint match_more (fuel : nat) (inp : list Z) (ref ip len maxlen : Z) : option Z :=
  match fuel with
  | O => None
  | S fuel =>
    let len := len + 1 in
    if len <? maxlen then
      r ← rd1 inp (ref + len);
      i ← rd1 inp (ip + len);
      if r =? i then match_more fuel inp ref ip len maxlen else Some len
    else Some len
  end.

Definition match_len (inp : list Z) (ref ip maxlen : Z) : option Z :=
  '(len, stop) ← (if 16 <? maxlen then match_unrolled 16 inp ref ip 2 else Some (2, false));
  if (stop : bool) then Some len else match_more (S (Z.to_nat maxlen)) inp ref ip len maxlen.

Definition not_lit (lit : Z) : Z := if lit =? 0 then 1 else 0.

(** The code of a back reference, written at [op]; [len] is the number of octets minus 2. *)
Definition write_ref (out : list Z) (op off len : Z) : option (list Z * Z) :=
  '(out, op) ←
    (if len <? 7 then
       out ← wr out op [u8 (Z.shiftr off 8 + Z.shiftl len 5)]; Some (out, op + 1)
     else
       out ← wr out op [u8 (Z.shiftr off 8 + Z.shiftl 7 5)];
       out ← wr out (op + 1) [u8 (len - 7)];
       Some (out, op + 2));
  out ← wr out op [u8 off];
  Some (out, op + 1).

(** Copy one literal byte and close the run when it is full. *)
Definition put_lit (inp out : list Z) (ip op lit : Z) : option (list Z * Z * Z) :=
  c ← rd1 inp ip;
  out ← wr out op [c];
  let lit := lit + 1 in
  let op := op + 1 in
  if lit =? MAX_LIT then
    out ← wr out (op - lit - 1) [u8 (lit - 1)];
    Some (out, op + 1, 0)
  else Some (out, op, lit).

(** [inl out] is a return of 0, [inr (out, ip, op, lit)] the end of the loop. *)
Definition outcome : Type := list Z + (list Z * Z * Z * Z).

Fixpoint compress_loop (fuel : nat) (htab inp out : list Z) (in_end out_end ip op lit hval : Z) : option outcome :=
  match fuel with
  | O => None
  | S fuel =>
    if ip <? in_end - 2 then
      hval ← NEXT hval inp ip;
      '(ref, htab) ← hslot_swap htab (IDX hval) ip;
      m ← match_found inp ref ip;
      if (m : bool) then
        let off := u64 (ip - ref - 1) in
        let maxlen := u32 (in_end - ip - 2) in
        let maxlen := if MAX_REF <? maxlen then MAX_REF else maxlen in
        if (out_end <=? op + 3 + 1) && (out_end <=? op - not_lit lit + 3 + 1) then Some (inl out) else
        out ← wr out (op - lit - 1) [u8 (lit - 1)];
        let op := op - not_lit lit in
        len ← match_len inp ref ip maxlen;
        let len := len - 2 in
        let ip := ip + 1 in
        '(out, op) ← write_ref out op off len;
        let op := op + 1 in
        let ip := ip + (len + 1) in
        if in_end - 2 <=? ip then Some (inr (out, ip, op, 0)) else
        let ip := ip - 2 in
        hval ← FRST inp ip;
        hval ← NEXT hval inp ip;
        '(_, htab) ← hslot_swap htab (IDX hval) ip;
        let ip := ip + 1 in
        hval ← NEXT hval inp ip;
        '(_, htab) ← hslot_swap htab (IDX hval) ip;
        let ip := ip + 1 in
        compress_loop fuel htab inp out in_end out_end ip op 0 hval
      else if out_end <=? op then Some (inl out)
      else
        '(out, op, lit) ← put_lit inp out ip op lit;
        compress_loop fuel htab inp out in_end out_end (ip + 1) op lit hval
    else Some (inr (out, ip, op, lit))
  end.

(** [while (ip < in_end)]: the last bytes are literals. *)
Fixpoint compress_tail (fuel : nat) (inp out : list Z) (in_end ip op lit : Z) : option (list Z * Z * Z) :=
  match fuel with
  | O => None
  | S fuel =>
    if ip <? in_end then
      '(out, op, lit) ← put_lit inp out ip op lit;
      compress_tail fuel inp out in_end (ip + 1) op lit
    else Some (out, op, lit)
  end.

(** The returned length (0 when the result does not fit) and the output buffer. *)
Definition lzf_compress (htab inp : list Z) (out : list Z) : option (Z * list Z) :=
  let in_end := Z.of_nat (length inp) in
  let out_end := Z.of_nat (length out) in
  if (in_end =? 0) || (out_end =? 0) then Some (0, out) else
  hval ← FRST inp 0;
  r ← compress_loop (S (length inp)) htab inp out in_end out_end 0 1 0 hval;
  match r with
  | inl out => Some (0, out)
  | inr (out, ip, op, lit) =>
    if out_end <? op + 3 then Some (0, out) else
    '(out, op, lit) ← compress_tail (S (length inp)) inp out in_end ip op lit;
    out ← wr out (op - lit - 1) [u8 (lit - 1)];
    Some (op - not_lit lit, out)
  end.

(** ** Decompression *)

(** [*op++ = *ip++], [n] times, from the input. *)
Fixpoint copy_lits (n : nat) (inp out : list Z) (ip op : Z) : option (list Z) :=
  match n with
  | O => Some out
  | S n => c ← rd1 inp ip; out ← wr out op [c]; copy_lits n inp out (ip + 1) (op + 1)
  end.

(** [*op++ = *ref++], [n] times, within the output. *)
Fixpoint copy_octets (n : nat) (out : list Z) (op ref : Z) : option (list Z) :=
  match n with
  | O => Some out
  | S n => c ← rd1 out ref; out ← wr out op [c]; copy_octets n out (op + 1) (ref + 1)
  end.

(** The [switch (len)] of a back reference. *)
Definition copy_ref (out : list Z) (op ref len : Z) : option (list Z) :=
  if len <=? 9 then copy_octets (Z.to_nat (len + 2)) out op ref
  else if ref + (len + 2) <=? op then bs ← rd out ref (len + 2); wr out op bs
  else copy_octets (Z.to_nat (len + 2)) out op ref.

(** The length (0 on error) and the output buffer. *)
Fixpoint decompress_loop (fuel : nat) (inp out : list Z) (in_end out_end ip op : Z) : option (Z * list Z) :=
  match fuel with
  | O => None
  | S fuel =>
    ctrl ← rd1 inp ip;
    let ip := ip + 1 in
    let continue out ip op :=
      if ip <? in_end then decompress_loop fuel inp out in_end out_end ip op else Some (op, out) in
    if ctrl <? Z.shiftl 1 5 then
      let ctrl := ctrl + 1 in
      if out_end <? op + ctrl then Some (0, out) else
      if in_end <? ip + ctrl then Some (0, out) else
      out ← copy_lits (Z.to_nat ctrl) inp out ip op;
      continue out (ip + ctrl) (op + ctrl)
    else
      let len := Z.shiftr ctrl 5 in
      let ref := op - Z.shiftl (Z.land ctrl 31) 8 - 1 in
      if in_end <=? ip then Some (0, out) else
      let tail len ip :=
        c ← rd1 inp ip;
        let ip := ip + 1 in
        let ref := ref - c in
        if out_end <? op + len + 2 then Some (0, out) else
        if ref <? 0 then Some (0, out) else
        out ← copy_ref out op ref len;
        continue out ip (op + (len + 2)) in
      if len =? 7 then
        c ← rd1 inp ip;
        let ip := ip + 1 in
        if in_end <=? ip then Some (0, out) else tail (len + c) ip
      else tail len ip
  end.

Definition lzf_decompress (inp out : list Z) : option (Z * list Z) :=
  decompress_loop (S (length inp)) inp out (Z.of_nat (length inp)) (Z.of_nat (length out)) 0 0.

Example lzf_example :
  let inp := lit "aaaaaaaaaaaaaaaaaaaaaaaaaaaaaaaaabcabcabcabcabcabcabcdxyz" in
  (r ← lzf_compress (repeat 4294967295 (Z.to_nat HSIZE)) inp (repeat 0 60);
   let '(n, out) := r in
   bs ← rd out 0 n;
   lzf_decompress bs (repeat 0 (length inp))) = Some (Z.of_nat (length inp), inp).
Proof. vm_compute. reflexivity. Qed.

(** ** What the codes mean *)

(** [n] more octets, each the one [off + 1] positions before the end. *)
Fixpoint copy (n : nat) (d : list Z) (off : nat) : list Z :=
  match n with
  | O => d
  | S n => copy n (d ++ [nth (length d - 1 - off) d 0]) off
  end.

Inductive token := Lit (l : list Z) | Ref (off len : Z).

(** [len] is the number of octets minus 2. *)
Definition encode (t : token) : list Z :=
  match t with
  | Lit l => (Z.of_nat (length l) - 1) :: l
  | Ref off len =>
    if len <? 7 then [off / 256 + len * 32; off mod 256] else [off / 256 + 224; len - 7; off mod 256]
  end.

Definition token_ok (d : list Z) (t : token) : Prop :=
  match t with
  | Lit l => (1 <= length l <= 32)%nat
  | Ref off len => 0 <= off < 8192 /\ off < Z.of_nat (length d) /\ 1 <= len <= 262
  end.

Definition apply (d : list Z) (t : token) : list Z :=
  match t with
  | Lit l => d ++ l
  | Ref off len => copy (Z.to_nat (len + 2)) d (Z.to_nat off)
  end.

(** From the octets [d] the tokens lead to the octets [d']. *)
Inductive tokens_run : list Z -> list token -> list Z -> Prop :=
| run_nil d : tokens_run d [] d
| run_cons d t ts d' : token_ok d t -> tokens_run (apply d t) ts d' -> tokens_run d (t :: ts) d'.

Lemma run_snoc d ts d' t : tokens_run d ts d' -> token_ok d' t -> tokens_run d (ts ++ [t]) (apply d' t).
Proof. induction 1; intros; cbn; econstructor; eauto. constructor. Qed.

(** ** The copies *)

Lemma length_copy n d off : length (copy n d off) = (length d + n)%nat.
Proof. revert d. induction n as [|n IH]; intros d; cbn; [lia|]. rewrite IH, length_app. cbn. lia. Qed.

Lemma copy_octets_spec n d x op ref off :
  op = Z.of_nat (length d) -> ref = op - 1 - Z.of_nat off -> 0 <= ref -> (n <= length x)%nat ->
  copy_octets n (d ++ x) op ref = Some (copy n d off ++ drop n x).
Proof.
  revert d x op ref. induction n as [|n IH]; intros d x op ref Hop Href Hr Hx; [done|].
  destruct x as [|x0 x]; [cbn in Hx; lia|]. cbn [copy_octets].
  assert (E : rd1 (d ++ x0 :: x) ref = Some (nth (length d - 1 - off) d 0)).
  { unfold rd1. rewrite bool_decide_true by lia. rewrite lookup_app_l by lia.
    replace (Z.to_nat ref) with (length d - 1 - off)%nat by lia.
    destruct (nth_lookup_or_length d (length d - 1 - off) 0); [done|lia]. }
  rewrite E. mred. rewrite wr_one by done. mred. cbn [copy drop].
  replace (d ++ nth (length d - 1 - off) d 0 :: x) with ((d ++ [nth (length d - 1 - off) d 0]) ++ x) by (by rewrite <-app_assoc).
  apply IH; try (rewrite length_app; cbn [length]); try lia. cbn in Hx. lia.
Qed.

Lemma copy_disjoint n d off :
  (off < length d)%nat -> (n <= off + 1)%nat -> copy n d off = d ++ take n (drop (length d - 1 - off) d).
Proof.
  revert d. induction n as [|n IH]; intros d Hd Hn; [cbn; by rewrite take_0, app_nil_r|]. cbn [copy].
  rewrite IH by (rewrite ?length_app; cbn [length]; lia). rewrite length_app. cbn [length].
  set (s := (length d - 1 - off)%nat). replace (length d + 1 - 1 - off)%nat with (S s) by lia.
  rewrite <-app_assoc. f_equal. cbn [app].
  destruct (nth_lookup_or_length d s 0) as [El|]; [|lia].
  rewrite (drop_S d _ s El). cbn [take]. f_equal.
  rewrite drop_app_le, take_app_le by (rewrite ?length_drop; lia). done.
Qed.

Lemma copy_ref_spec d x op ref len off :
  op = Z.of_nat (length d) -> ref = op - 1 - Z.of_nat off -> 0 <= ref -> 0 <= len ->
  len + 2 <= Z.of_nat (length x) ->
  copy_ref (d ++ x) op ref len = Some (copy (Z.to_nat (len + 2)) d off ++ drop (Z.to_nat (len + 2)) x).
Proof.
  intros Hop Href Hr Hl Hx. unfold copy_ref.
  assert (Ho : copy_octets (Z.to_nat (len + 2)) (d ++ x) op ref =
    Some (copy (Z.to_nat (len + 2)) d off ++ drop (Z.to_nat (len + 2)) x)).
  { apply copy_octets_spec; lia || done. }
  destruct (len <=? 9); [exact Ho|]. destruct (Z.leb_spec (ref + (len + 2)) op) as [Hd|]; [|exact Ho].
  assert (E : rd (d ++ x) ref (len + 2) = Some (take (Z.to_nat (len + 2)) (drop (length d - 1 - off) d))).
  { apply rd_Some. rewrite length_app. split_and!; [lia..|].
    replace (Z.to_nat ref) with (length d - 1 - off)%nat by lia.
    rewrite drop_app_le, take_app_le by (rewrite ?length_drop; lia). done. }
  rewrite E. mred. rewrite copy_disjoint by lia.
  set (w := take _ _). assert (Hw : length w = Z.to_nat (len + 2)) by (unfold w; rewrite length_take, length_drop; lia).
  rewrite <-Hw. clearbody w. apply wr_Some. rewrite length_app. split_and!; [lia..|].
  rewrite Hop, Nat2Z.id, take_app_length, drop_app_add', <-app_assoc by done. done.
Qed.

Lemma copy_lits_spec a l b d x ip op :
  ip = Z.of_nat (length a) -> op = Z.of_nat (length d) -> (length l <= length x)%nat ->
  copy_lits (length l) (a ++ l ++ b) (d ++ x) ip op = Some (d ++ l ++ drop (length l) x).
Proof.
  revert a d x ip op. induction l as [|c l IH]; intros a d x ip op -> -> Hx; [done|].
  cbn [length] in *. destruct x as [|x0 x]; [cbn in Hx; lia|]. cbn [copy_lits app]. rewrite rd1_app0. cbn [head]. mred.
  rewrite wr_one by done. mred.
  replace (a ++ c :: l ++ b) with ((a ++ [c]) ++ l ++ b) by (by rewrite <-app_assoc).
  replace (d ++ c :: x) with ((d ++ [c]) ++ x) by (by rewrite <-app_assoc).
  rewrite IH; [by rewrite <-app_assoc|rewrite length_app; cbn; lia..|cbn in Hx; lia].
Qed.

(** ** Decompression reads the codes *)

Lemma shiftr5 c : Z.shiftr c 5 = c / 32.
Proof. by rewrite Z.shiftr_div_pow2 by lia. Qed.

Lemma shiftr8 c : Z.shiftr c 8 = c / 256.
Proof. by rewrite Z.shiftr_div_pow2 by lia. Qed.

Lemma shiftl8 c : Z.shiftl c 8 = c * 256.
Proof. by rewrite Z.shiftl_mul_pow2 by lia. Qed.

Lemma land31 c : Z.land c 31 = c mod 32.
Proof. exact (Z.land_ones c 5 ltac:(lia)). Qed.

Lemma rd1_here a x b off : off = Z.of_nat (length a) -> rd1 (a ++ x :: b) off = Some x.
Proof. intros ->. apply rd1_app0. Qed.

Lemma rd1_next a x y b off : off = Z.of_nat (length a) + 1 -> rd1 (a ++ x :: y :: b) off = Some y.
Proof. intros ->. exact (rd1_appp a (x :: y :: b) 1). Qed.

Lemma run_length d ts d' : tokens_run d ts d' -> (length d <= length d')%nat.
Proof.
  induction 1 as [|d t ts d' Hok _ IH]; [done|]. destruct t; cbn [apply] in IH; [rewrite length_app in IH|rewrite length_copy in IH]; lia.
Qed.

Lemma length_encode t : (1 <= length (encode t))%nat.
Proof. destruct t; cbn; [lia|]. destruct (_ <? _); cbn; lia. Qed.

(** One token: the loop goes on behind its code, with its octets appended. *)
Lemma decompress_step fuel a t b d x :
  token_ok d t -> (length (apply d t) <= length (d ++ x))%nat ->
  let inp := a ++ encode t ++ b in
  let d1 := apply d t in
  let out1 := d1 ++ drop (length d1 - length d) x in
  let ip := Z.of_nat (length (a ++ encode t)) in
  decompress_loop (S fuel) inp (d ++ x) (Z.of_nat (length inp)) (Z.of_nat (length (d ++ x)))
    (Z.of_nat (length a)) (Z.of_nat (length d)) =
  if ip <? Z.of_nat (length inp)
  then decompress_loop fuel inp out1 (Z.of_nat (length inp)) (Z.of_nat (length (d ++ x))) ip (Z.of_nat (length d1))
  else Some (Z.of_nat (length d1), out1).
Proof.
  intros Hok Hfit. cbn zeta. cbn [decompress_loop]. rewrite rd1_app0.
  destruct t as [l|off len]; cbn [token_ok apply encode] in *.
  - cbn [app head]. mred. change (Z.shiftl 1 5) with 32. rewrite (proj2 (Z.ltb_lt _ _)) by lia.
    set (inp := a ++ _ :: l ++ b). rewrite !length_app in Hfit.
    assert (Hin : length inp = (length a + S (length l + length b))%nat) by (unfold inp; rewrite length_app; cbn [length]; rewrite length_app; lia).
    rewrite (proj2 (Z.ltb_ge _ _)) by (rewrite ?length_app; lia).
    rewrite (proj2 (Z.ltb_ge _ _)) by lia.
    replace (Z.to_nat _) with (length l) by lia.
    assert (E : copy_lits (length l) inp (d ++ x) (Z.of_nat (length a) + 1) (Z.of_nat (length d)) = Some (d ++ l ++ drop (length l) x)).
    { unfold inp. rewrite <-(copy_lits_spec (a ++ [Z.of_nat (length l) - 1]) l b d x (Z.of_nat (length a) + 1) (Z.of_nat (length d))).
      - by rewrite <-app_assoc.
      - rewrite length_app. cbn. lia.
      - done.
      - lia. }
    rewrite E. mred. rewrite !length_app. cbn [length]. replace (length d + length l - length d)%nat with (length l) by lia.
    rewrite <-app_assoc.
    replace (Z.of_nat (length a) + 1 + (Z.of_nat (length l) - 1 + 1)) with (Z.of_nat (length a + S (length l))) by lia.
    replace (Z.of_nat (length d) + (Z.of_nat (length l) - 1 + 1)) with (Z.of_nat (length d + length l)) by lia. done.
  - destruct Hok as (Ho1 & Ho2 & Hl). rewrite length_copy in *. rewrite length_app in Hfit.
    pose (ctrl := if len <? 7 then off / 256 + len * 32 else off / 256 + 224).
    assert (Hdef : ctrl = if len <? 7 then off / 256 + len * 32 else off / 256 + 224) by done.
    assert (Hc : ctrl / 32 = Z.min len 7 /\ ctrl mod 32 = off / 256 /\ 32 <= ctrl).
    { unfold ctrl. destruct (Z.ltb_spec len 7); zlia. }
    replace (length d + Z.to_nat (len + 2) - length d)%nat with (Z.to_nat (len + 2)) by lia.
    assert (Hcopy : forall ref, ref = Z.of_nat (length d) - 1 - off ->
      copy_ref (d ++ x) (Z.of_nat (length d)) ref len =
        Some (copy (Z.to_nat (len + 2)) d (Z.to_nat off) ++ drop (Z.to_nat (len + 2)) x)).
    { intros ref ->. apply copy_ref_spec; lia. }
    assert (Href : Z.of_nat (length d) - Z.shiftl (Z.land ctrl 31) 8 - 1 - off mod 256 = Z.of_nat (length d) - 1 - off).
    { rewrite land31, shiftl8. zlia. }
    assert (Hnew : Z.of_nat (length d) + (len + 2) = Z.of_nat (length d + Z.to_nat (len + 2))) by lia.
    destruct Hc as (Hc1 & _ & Hc3). clearbody ctrl.
    destruct (len <? 7) eqn:E7; zbool; cbn [app head]; mred; rewrite <-Hdef;
      change (Z.shiftl 1 5) with 32; rewrite (proj2 (Z.ltb_ge _ _)) by lia; rewrite shiftr5, Hc1.
    + rewrite (proj2 (Z.leb_gt _ _)) by (rewrite !length_app; cbn [length]; lia).
      rewrite (proj2 (Z.eqb_neq _ _)) by lia.
      replace (a ++ ctrl :: off mod 256 :: b) with ((a ++ [ctrl]) ++ off mod 256 :: b) by (by rewrite <-app_assoc).
      rewrite rd1_here by (rewrite ?length_app; cbn [length]; lia). mred.
      rewrite (proj2 (Z.ltb_ge _ _)) by (rewrite ?length_app; lia).
      rewrite Href, (proj2 (Z.ltb_ge _ _)) by lia. rewrite Z.min_l by lia. rewrite (Hcopy _ eq_refl). mred.
      rewrite Hnew. rewrite !length_app. cbn [length].
      replace (Z.of_nat (length a) + 1 + 1) with (Z.of_nat (length a + 2)) by lia. done.
    + rewrite (proj2 (Z.leb_gt _ _)) by (rewrite !length_app; cbn [length]; lia).
      rewrite Z.min_r by lia. rewrite Z.eqb_refl.
      replace (a ++ ctrl :: len - 7 :: off mod 256 :: b) with ((a ++ [ctrl]) ++ len - 7 :: off mod 256 :: b) by (by rewrite <-app_assoc).
      rewrite (rd1_here (a ++ [ctrl]) (len - 7) _ (Z.of_nat (length a) + 1)) by (rewrite length_app; cbn [length]; lia). mred.
      rewrite (proj2 (Z.leb_gt _ _)) by (rewrite !length_app; cbn [length]; lia).
      rewrite rd1_next by (rewrite ?length_app; cbn [length]; lia). mred.
      replace (7 + (len - 7)) with len by lia.
      rewrite (proj2 (Z.ltb_ge _ _)) by (rewrite ?length_app; lia).
      rewrite Href, (proj2 (Z.ltb_ge _ _)) by lia. rewrite (Hcopy _ eq_refl). mred.
      rewrite Hnew. rewrite !length_app. cbn [length].
      replace (Z.of_nat (length a) + 1 + 1 + 1) with (Z.of_nat (length a + 3)) by lia. done.
Qed.

Lemma length_apply d t : token_ok d t -> (length d < length (apply d t))%nat.
Proof. destruct t; cbn; [rewrite length_app|rewrite length_copy]; lia. Qed.

Lemma decompress_tokens fuel a ts d x d' :
  tokens_run d ts d' -> ts <> [] -> (length ts <= fuel)%nat -> (length d' <= length (d ++ x))%nat ->
  let inp := a ++ concat (map encode ts) in
  decompress_loop fuel inp (d ++ x) (Z.of_nat (length inp)) (Z.of_nat (length (d ++ x)))
    (Z.of_nat (length a)) (Z.of_nat (length d)) =
  Some (Z.of_nat (length d'), d' ++ drop (length d' - length d) x).
Proof.
  intros Hrun. revert fuel a x. induction Hrun as [|d t ts d' Hok Hrun IH]; intros fuel a x Hne Hf Hfit; [done|].
  destruct fuel as [|fuel]; [cbn in Hf; lia|]. pose proof (run_length _ _ _ Hrun) as Hl.
  pose proof (length_apply _ _ Hok) as Hl2. cbn zeta. cbn [map concat].
  pose proof (decompress_step fuel a t (concat (map encode ts)) d x Hok ltac:(lia)) as E. cbn zeta in E. rewrite E.
  destruct ts as [|t' ts].
  - inversion Hrun; subst. cbn [map concat]. rewrite app_nil_r, (proj2 (Z.ltb_ge _ _)) by lia. done.
  - rewrite (proj2 (Z.ltb_lt _ _)).
    2:{ rewrite !length_app. cbn [map concat]. rewrite length_app. pose proof (length_encode t'). lia. }
    set (x1 := drop _ x). assert (Hx1 : length (apply d t ++ x1) = length (d ++ x)).
    { unfold x1. rewrite !length_app, length_drop. rewrite length_app in Hfit. lia. }
    specialize (IH fuel (a ++ encode t) x1 ltac:(done) ltac:(cbn in *; lia) ltac:(lia)). cbn zeta in IH.
    rewrite <-app_assoc, Hx1 in IH. rewrite IH. unfold x1. rewrite drop_drop. do 4 f_equal. lia.
Qed.

Lemma decompress_loop_safe fuel inp d x ip :
  Forall is_byte inp -> 0 <= ip < Z.of_nat (length inp) -> Z.of_nat (length inp) - ip <= Z.of_nat fuel ->
  exists r out', decompress_loop fuel inp (d ++ x) (Z.of_nat (length inp)) (Z.of_nat (length (d ++ x))) ip (Z.of_nat (length d)) =
    Some (r, out') /\ 0 <= r <= Z.of_nat (length (d ++ x)) /\ length out' = length (d ++ x).
Proof.
  intros Hb. revert d x ip. induction fuel as [|fuel IH]; intros d x ip Hip Hf; [lia|]. cbn [decompress_loop].
  assert (Hrd : forall i, 0 <= i < Z.of_nat (length inp) -> exists c, rd1 inp i = Some c /\ is_byte c).
  { intros i Hi. unfold rd1. rewrite bool_decide_true by lia.
    destruct (lookup_lt_is_Some_2 inp (Z.to_nat i)) as [c Ec]; [lia|]. exists c. split; [done|]. eapply Forall_lookup_1; eauto. }
  assert (Hzero : exists r out', Some (0, d ++ x) = Some (r, out') /\ 0 <= r <= Z.of_nat (length (d ++ x)) /\ length out' = length (d ++ x))
    by (exists 0, (d ++ x); split_and!; lia || done).
  assert (Hcont : forall d1 x1 op ip1, length (d1 ++ x1) = length (d ++ x) -> op = Z.of_nat (length d1) -> ip < ip1 ->
    exists r out', (if ip1 <? Z.of_nat (length inp) then
      decompress_loop fuel inp (d1 ++ x1) (Z.of_nat (length inp)) (Z.of_nat (length (d ++ x))) ip1 op
      else Some (op, d1 ++ x1)) = Some (r, out') /\ 0 <= r <= Z.of_nat (length (d ++ x)) /\ length out' = length (d ++ x)).
  { intros d1 x1 op ip1 Hl -> Hi. destruct (Z.ltb_spec ip1 (Z.of_nat (length inp))).
    - rewrite <-Hl. apply IH; lia.
    - eexists _, _. split; [done|]. split; [|exact Hl]. rewrite <-Hl, length_app. lia. }
  destruct (Hrd ip Hip) as (ctrl & -> & Hc). mred. unfold is_byte in Hc. change (Z.shiftl 1 5) with 32.
  destruct (Z.ltb_spec ctrl 32) as [Hlit|Href].
  - destruct (Z.ltb_spec (Z.of_nat (length (d ++ x))) (Z.of_nat (length d) + (ctrl + 1))) as [|Ho]; [exact Hzero|].
    destruct (Z.ltb_spec (Z.of_nat (length inp)) (ip + 1 + (ctrl + 1))) as [|Hi]; [exact Hzero|].
    set (l := take (Z.to_nat (ctrl + 1)) (drop (Z.to_nat (ip + 1)) inp)).
    assert (Hl : length l = Z.to_nat (ctrl + 1)) by (unfold l; rewrite length_take, length_drop; lia).
    assert (Einp : inp = take (Z.to_nat (ip + 1)) inp ++ l ++ drop (Z.to_nat (ctrl + 1)) (drop (Z.to_nat (ip + 1)) inp))
      by (unfold l; by rewrite take_drop, take_drop).
    rewrite length_app in Ho.
    assert (E : copy_lits (Z.to_nat (ctrl + 1)) inp (d ++ x) (ip + 1) (Z.of_nat (length d)) = Some (d ++ l ++ drop (length l) x)).
    { rewrite <-Hl. etransitivity; [|apply (copy_lits_spec (take (Z.to_nat (ip + 1)) inp) l
        (drop (Z.to_nat (ctrl + 1)) (drop (Z.to_nat (ip + 1)) inp)) d x)]; [by rewrite <-Einp|rewrite length_take; lia|done|lia]. }
    rewrite E. mred.
    rewrite app_assoc. apply Hcont; rewrite ?length_app, ?length_drop; lia.
  - destruct (Z.leb_spec (Z.of_nat (length inp)) (ip + 1)) as [|Hi]; [exact Hzero|].
    assert (Htail : forall len ip1, 0 <= len -> ip < ip1 < Z.of_nat (length inp) -> exists r out',
      (c ← rd1 inp ip1;
        if Z.of_nat (length (d ++ x)) <? Z.of_nat (length d) + len + 2 then Some (0, d ++ x) else
        if Z.of_nat (length d) - Z.shiftl (Z.land ctrl 31) 8 - 1 - c <? 0 then Some (0, d ++ x) else
        out ← copy_ref (d ++ x) (Z.of_nat (length d)) (Z.of_nat (length d) - Z.shiftl (Z.land ctrl 31) 8 - 1 - c) len;
        if ip1 + 1 <? Z.of_nat (length inp) then
          decompress_loop fuel inp out (Z.of_nat (length inp)) (Z.of_nat (length (d ++ x))) (ip1 + 1) (Z.of_nat (length d) + (len + 2))
        else Some (Z.of_nat (length d) + (len + 2), out)) = Some (r, out') /\
      0 <= r <= Z.of_nat (length (d ++ x)) /\ length out' = length (d ++ x)).
    { intros len ip1 Hlen Hip1. destruct (Hrd ip1) as (c & -> & Hcc); [lia|]. mred. unfold is_byte in Hcc.
      destruct (Z.ltb_spec (Z.of_nat (length (d ++ x))) (Z.of_nat (length d) + len + 2)) as [|Ho]; [exact Hzero|].
      rewrite land31, shiftl8. set (ref := _ - 1 - c).
      destruct (Z.ltb_spec ref 0) as [|Hr]; [exact Hzero|]. rewrite length_app in Ho.
      rewrite (copy_ref_spec d x _ ref len (Z.to_nat (Z.of_nat (length d) - 1 - ref))) by (unfold ref in *; zlia). mred.
      apply Hcont; rewrite ?length_app, ?length_copy, ?length_drop; lia. }
    pose proof (Z.shiftr_nonneg ctrl 5) as Hs.
    destruct (Z.shiftr ctrl 5 =? 7).
    + destruct (Hrd (ip + 1)) as (c & -> & Hcc); [lia|]. mred. unfold is_byte in Hcc.
      destruct (Z.leb_spec (Z.of_nat (length inp)) (ip + 1 + 1)) as [|Hi2]; [exact Hzero|]. apply Htail; lia.
    + apply Htail; lia.
Qed.

(** ** Compression writes the codes *)

Section compression.
Context (inp : list Z) (Hinp : Forall is_byte inp) (Hlen : Z.of_nat (length inp) < 2 ^ 32).

Abbreviation in_end := (Z.of_nat (length inp)).

(** The octets at [ref] and at [ip] agree for [n] positions. *)
Definition agree (ref ip n : Z) : Prop :=
  forall i, 0 <= i < n -> rd1 inp (ref + i) = rd1 inp (ip + i).

Definition htab_ok (htab : list Z) : Prop :=
  Z.of_nat (length htab) = HSIZE /\ Forall (fun r => 0 <= r < 2 ^ 32) htab.

(** The output holds the codes of [ts], which stand for the octets [d], then a byte kept
    for the next code and the pending literals [l]; or the codes alone and no room. *)
Definition comp_inv (out : list Z) (ip op lit : Z) : Prop :=
  exists ts d l,
    tokens_run [] ts d /\ 0 <= ip <= in_end /\ take (Z.to_nat ip) inp = d ++ l /\
    lit = Z.of_nat (length l) /\ lit < 32 /\
    op - lit - 1 = Z.of_nat (length (concat (map encode ts))) /\
    ((exists c rest, out = concat (map encode ts) ++ c :: l ++ rest) \/
     (lit = 0 /\ out = concat (map encode ts))).

Lemma rd1_in i : 0 <= i < in_end -> exists c, rd1 inp i = Some c /\ inp !! Z.to_nat i = Some c.
Proof.
  intros Hi. unfold rd1. rewrite bool_decide_true by lia.
  destruct (lookup_lt_is_Some_2 inp (Z.to_nat i)) as [c ->]; [lia|]. eauto.
Qed.

Lemma IDX_range h : 0 <= IDX h < HSIZE.
Proof. unfold IDX, HSIZE. change (Z.shiftl 1 16 - 1) with 65535. rewrite land_65535. change (Z.shiftl 1 16) with 65536. zlia. Qed.

Lemma hslot_swap_ok htab h ip :
  htab_ok htab -> exists r htab', hslot_swap htab (IDX h) ip = Some (r, htab') /\ htab_ok htab' /\ 0 <= r < 2 ^ 32.
Proof.
  intros [Hl Hr]. pose proof (IDX_range h). unfold hslot_swap, rd1. rewrite bool_decide_true by lia.
  destruct (lookup_lt_is_Some_2 htab (Z.to_nat (IDX h))) as [r Er]; [lia|]. rewrite Er. mred.
  eexists _, _. split; [done|]. split; [split|].
  - by rewrite length_insert.
  - apply Forall_insert; [done|]. apply wrapu_range. lia.
  - exact (Forall_lookup_1 _ _ _ _ Hr Er).
Qed.

Lemma FRST_ok p : 0 <= p -> p + 1 < in_end -> exists v, FRST inp p = Some v.
Proof.
  intros. unfold FRST. destruct (rd1_in p) as (a & -> & _); [lia|].
  destruct (rd1_in (p + 1)) as (b & -> & _); [lia|]. eauto.
Qed.

Lemma NEXT_ok v p : 0 <= p -> p + 2 < in_end -> exists v', NEXT v inp p = Some v'.
Proof. intros. unfold NEXT. destruct (rd1_in (p + 2)) as (a & -> & _); [lia|]. eauto. Qed.

Lemma match_found_ok ref ip :
  0 <= ref < 2 ^ 32 -> 0 <= ip -> ip + 2 < in_end ->
  exists b, match_found inp ref ip = Some b /\
    (b = true -> 0 < ref < ip /\ u64 (ip - ref - 1) = ip - ref - 1 /\ ip - ref - 1 < 8192 /\ agree ref ip 3).
Proof.
  intros Hr Hip Hend. unfold match_found. change MAX_OFF with 8192.
  destruct (Z.ltb_spec (u64 (ip - ref - 1)) 8192) as [Hoff|]; [|by exists false].
  assert (Hlt : ref < ip /\ u64 (ip - ref - 1) = ip - ref - 1).
  { unfold wrapu in *. pow2. zlia. }
  destruct (Z.ltb_spec 0 ref) as [H0|]; [|by exists false].
  destruct (rd1_in (ref + 2)) as (r2 & E1 & _); [lia|]. destruct (rd1_in (ip + 2)) as (i2 & E2 & _); [lia|].
  rewrite E1, E2. mred. destruct (Z.eqb_spec r2 i2) as [->|]; [|by exists false].
  destruct (rd_is_Some inp ref 2) as [w Ew]; [lia..|]. destruct (rd_is_Some inp ip 2) as [w' Ew']; [lia..|].
  rewrite Ew, Ew'. mred. eexists. split; [done|]. intros ->%bool_decide_eq_true. split; [lia|]. split; [lia|]. split; [lia|].
  intros i Hi. destruct (decide (i = 2)) as [->|]; [by rewrite E1, E2|].
  unfold rd1. rewrite !bool_decide_true by lia.
  rewrite <-(rd_lookup _ _ _ _ i Ew), <-(rd_lookup _ _ _ _ i Ew') by lia. done.
Qed.

Lemma agree_S ref ip n c :
  agree ref ip n -> rd1 inp (ref + n) = Some c -> rd1 inp (ip + n) = Some c -> agree ref ip (n + 1).
Proof. intros Ha E1 E2 i Hi. destruct (decide (i = n)) as [->|]; [by rewrite E1, E2|apply Ha; lia]. Qed.

Lemma match_unrolled_ok n ref ip len :
  0 <= ref < ip -> 0 <= len -> agree ref ip (len + 1) -> ip + len + Z.of_nat n < in_end ->
  exists len' stop, match_unrolled n inp ref ip len = Some (len', stop) /\ len <= len' <= len + Z.of_nat n /\
    ((stop : bool) = true -> len < len') /\ (stop = false -> len' = len + Z.of_nat n) /\
    agree ref ip (if stop then len' else len' + 1).
Proof.
  intros Hr. revert len. induction n as [|n IH]; intros len Hl Ha Hend; cbn [match_unrolled].
  { exists len, false. split_and!; done || lia. }
  destruct (rd1_in (ref + (len + 1))) as (r & E1 & _); [lia|]. destruct (rd1_in (ip + (len + 1))) as (i & E2 & _); [lia|].
  rewrite E1, E2. mred. destruct (Z.eqb_spec r i) as [->|].
  - destruct (IH (len + 1)) as (len' & stop & E & H1 & H2 & H3 & H4); [lia|by eapply agree_S|lia|].
    exists len', stop. split; [exact E|]. split; [lia|]. split; [intros Hs; specialize (H2 Hs); lia|].
    split; [intros Hs; specialize (H3 Hs); lia|exact H4].
  - exists (len + 1), true. split_and!; done || lia.
Qed.

Lemma match_more_ok fuel ref ip len maxlen :
  0 <= ref < ip -> 0 <= len -> agree ref ip (len + 1) -> ip + maxlen <= in_end -> maxlen - len <= Z.of_nat fuel -> (0 < fuel)%nat ->
  exists len', match_more fuel inp ref ip len maxlen = Some len' /\ len < len' <= Z.max (len + 1) maxlen /\ agree ref ip len'.
Proof.
  intros Hr. revert len. induction fuel as [|fuel IH]; intros len Hl Ha Hend Hf Hf0; [lia|]. cbn [match_more].
  destruct (Z.ltb_spec (len + 1) maxlen) as [Hlt|]; [|exists (len + 1); split_and!; done || lia].
  destruct (rd1_in (ref + (len + 1))) as (r & E1 & _); [lia|]. destruct (rd1_in (ip + (len + 1))) as (i & E2 & _); [lia|].
  rewrite E1, E2. mred. destruct (Z.eqb_spec r i) as [->|]; [|exists (len + 1); split_and!; done || lia].
  destruct (IH (len + 1)) as (len' & E & H1 & H2); [lia|by eapply agree_S|lia..|]. exists len'. split_and!; done || lia.
Qed.

Lemma match_len_ok ref ip maxlen :
  0 <= ref < ip -> agree ref ip 3 -> ip + 2 < in_end -> maxlen = Z.min 264 (in_end - ip - 2) ->
  exists len, match_len inp ref ip maxlen = Some len /\ 3 <= len <= 264 /\ ip + len <= in_end /\ agree ref ip len.
Proof.
  intros Hr Ha Hend Hm. unfold match_len. destruct (Z.ltb_spec 16 maxlen) as [H16|Hs].
  - destruct (match_unrolled_ok 16 ref ip 2) as (len & stop & -> & H1 & H2 & H3 & H4); [done|lia|done|lia|]. mred.
    destruct stop; [specialize (H2 eq_refl); exists len; split_and!; done || lia|].
    destruct (match_more_ok (S (Z.to_nat maxlen)) ref ip len maxlen) as (len' & E & H5 & H6); [done|lia|done|lia..|].
    exists len'. specialize (H3 eq_refl). split_and!; done || lia.
  - mred. destruct (match_more_ok (S (Z.to_nat maxlen)) ref ip 2 maxlen) as (len' & E & H5 & H6); [done|lia|done|lia..|].
    exists len'. split_and!; done || lia.
Qed.

(** A copy of agreeing octets extends the prefix of the input. *)
Lemma copy_agree n ref ip :
  0 <= ref < ip -> ip + Z.of_nat n <= in_end -> agree ref ip (Z.of_nat n) ->
  copy n (take (Z.to_nat ip) inp) (Z.to_nat (ip - ref - 1)) = take (Z.to_nat (ip + Z.of_nat n)) inp.
Proof.
  revert ref ip. induction n as [|n IH]; intros ref ip Hr Hend Ha; [cbn; do 2 f_equal; lia|]. cbn [copy].
  destruct (rd1_in ip) as (c & E & El); [lia|].
  assert (En : nth (length (take (Z.to_nat ip) inp) - 1 - Z.to_nat (ip - ref - 1)) (take (Z.to_nat ip) inp) 0 = c).
  { rewrite length_take. replace (_ - 1 - _)%nat with (Z.to_nat ref) by lia. apply nth_lookup_Some.
    rewrite lookup_take_lt by lia. specialize (Ha 0 ltac:(lia)). rewrite !Z.add_0_r, E in Ha.
    unfold rd1 in Ha. by rewrite bool_decide_true in Ha by lia. }
  rewrite En, <-(take_S_r _ _ _ El). replace (S (Z.to_nat ip)) with (Z.to_nat (ip + 1)) by lia.
  replace (ip - ref - 1) with ((ip + 1) - (ref + 1) - 1) by lia. rewrite IH; [do 2 f_equal; lia|lia..|].
  intros i Hi. specialize (Ha (i + 1) ltac:(lia)).
  by replace (ref + 1 + i) with (ref + (i + 1)) by lia; replace (ip + 1 + i) with (ip + (i + 1)) by lia.
Qed.

Lemma put_lit_ok out ip op lit :
  comp_inv out ip op lit -> ip < in_end -> op < Z.of_nat (length out) ->
  exists out' op' lit', put_lit inp out ip op lit = Some (out', op', lit') /\
    comp_inv out' (ip + 1) op' lit' /\ length out' = length out /\
    ((op' = op + 1 /\ lit' = lit + 1) \/ (op' = op + 2 /\ lit' = 0 /\ lit = 31)).
Proof.
  intros (ts & d & l & Hrun & Hip & Htake & Hlit & Hmax & Hop & Hout) Hlt Hroom.
  destruct Hout as [(c0 & rest & ->)|[-> ->]]; [|lia]. rewrite length_app in Hroom. cbn [length] in Hroom.
  rewrite length_app in Hroom. destruct rest as [|r0 rest]; [cbn in Hroom; lia|].
  set (e := concat (map encode ts)) in *. unfold put_lit.
  destruct (rd1_in ip) as (c & -> & Ec); [lia|]. mred.
  assert (Ew : wr (e ++ c0 :: l ++ r0 :: rest) op [c] = Some (e ++ c0 :: (l ++ [c]) ++ rest)).
  { replace (e ++ c0 :: l ++ r0 :: rest) with ((e ++ c0 :: l) ++ r0 :: rest) by (rewrite <-app_assoc; done).
    rewrite wr_one; [rewrite <-!app_assoc; done|]. rewrite length_app. cbn [length]. lia. }
  rewrite Ew. mred.
  assert (Htake' : take (Z.to_nat (ip + 1)) inp = d ++ l ++ [c]).
  { replace (Z.to_nat (ip + 1)) with (S (Z.to_nat ip)) by lia. by rewrite (take_S_r _ _ _ Ec), Htake, app_assoc. }
  assert (Hl' : Z.of_nat (length (l ++ [c])) = lit + 1) by (rewrite length_app; cbn; lia).
  assert (Hlen' : length (e ++ c0 :: (l ++ [c]) ++ rest) = length (e ++ c0 :: l ++ r0 :: rest)).
  { rewrite !length_app. cbn [length]. rewrite !length_app. cbn [length]. lia. }
  change MAX_LIT with 32. destruct (Z.eqb_spec (lit + 1) 32) as [E32|].
  - rewrite wr_one by lia. mred. eexists _, _, _. split; [done|]. split; [|split; [|right; lia]].
    + set (t := Lit (l ++ [c])). assert (Henc : concat (map encode (ts ++ [t])) = e ++ encode t).
      { rewrite map_app, concat_app. cbn [map concat]. by rewrite app_nil_r. }
      exists (ts ++ [t]), (d ++ (l ++ [c])), []. split; [|split; [lia|]].
      { apply (run_snoc [] ts d t); [done|]. unfold t. cbn [token_ok]. lia. }
      split; [by rewrite app_nil_r|]. split; [done|]. split; [lia|]. rewrite Henc. unfold encode, t.
      split; [rewrite length_app; cbn [length]; rewrite length_app; cbn [length]; lia|].
      replace (u8 (lit + 1 - 1)) with (Z.of_nat (length (l ++ [c])) - 1) by (rewrite wrapu_small; [lia|change (2 ^ 8) with 256; lia]).
      destruct rest as [|r1 rest]; [right; split; [done|by rewrite app_nil_r]|]. left. exists r1, rest. rewrite <-!app_assoc. cbn [app]. by rewrite <-!app_assoc.
    + rewrite <-Hlen'. rewrite !length_app. done.
  - eexists _, _, _. split; [done|]. split; [|split; [done|left; lia]].
    exists ts, d, (l ++ [c]). fold e. split_and!; try done; try lia. left. eauto.
Qed.

(** Closing the pending run, before a back reference or at the end. *)
Lemma stop_run_ok out ip op lit :
  comp_inv out ip op lit -> op - lit - 1 < Z.of_nat (length out) ->
  exists ts rest, wr out (op - lit - 1) [u8 (lit - 1)] = Some (concat (map encode ts) ++ rest) /\
    tokens_run [] ts (take (Z.to_nat ip) inp) /\ op - not_lit lit = Z.of_nat (length (concat (map encode ts))) /\
    length (concat (map encode ts) ++ rest) = length out.
Proof.
  intros (ts & d & l & Hrun & Hip & Htake & Hlit & Hmax & Hop & Hout) Hroom.
  destruct Hout as [(c0 & rest & ->)|[_ ->]]; [|lia]. set (e := concat (map encode ts)) in *.
  rewrite wr_one by lia. unfold not_lit. destruct (Z.eqb_spec lit 0) as [E0|Hne].
  - destruct l; [|cbn in Hlit; lia]. rewrite app_nil_r in Htake. exists ts, (u8 (lit - 1) :: rest). fold e.
    rewrite Htake, !length_app. split_and!; try done. lia.
  - exists (ts ++ [Lit l]), rest. rewrite map_app, concat_app. cbn [map concat encode]. rewrite app_nil_r. fold e.
    rewrite <-Hlit. rewrite wrapu_small by (change (2 ^ 8) with 256; lia). rewrite <-app_assoc. split; [done|].
    split; [|split].
    + rewrite Htake. apply (run_snoc [] ts d (Lit l)); [done|]. cbn [token_ok]. lia.
    + rewrite length_app. cbn [length]. lia.
    + rewrite !length_app. cbn [length]. by rewrite !length_app.
Qed.

Lemma write_ref_ok e rest op off len :
  op = Z.of_nat (length e) -> 0 <= off < 8192 -> 1 <= len <= 262 -> (3 < length rest)%nat ->
  exists c rest', write_ref (e ++ rest) op off len =
    Some (e ++ encode (Ref off len) ++ c :: rest', op + Z.of_nat (length (encode (Ref off len)))) /\
    length (e ++ encode (Ref off len) ++ c :: rest') = length (e ++ rest).
Proof.
  intros -> Hoff Hl Hr. destruct rest as [|r0 [|r1 [|r2 [|r3 rest]]]]; try (cbn in Hr; lia).
  unfold write_ref, encode. rewrite shiftr8. change (Z.shiftl 7 5) with 224. rewrite (Z.shiftl_mul_pow2 len) by lia. change (2 ^ 5) with 32.
  assert (Hu8 : u8 off = off mod 256) by done. destruct (Z.ltb_spec len 7).
  - rewrite wr_one by done. mred.
    replace (e ++ u8 (off / 256 + len * 32) :: r1 :: r2 :: r3 :: rest)
      with ((e ++ [u8 (off / 256 + len * 32)]) ++ r1 :: r2 :: r3 :: rest) by (by rewrite <-app_assoc).
    rewrite wr_one by (rewrite length_app; cbn; lia). mred. rewrite Hu8, wrapu_small by (change (2 ^ 8) with 256; zlia).
    exists r2, (r3 :: rest). rewrite <-app_assoc, !length_app. cbn [length app]. split; [|done]. do 2 f_equal. lia.
  - rewrite wr_one by done. mred.
    replace (e ++ u8 (off / 256 + 224) :: r1 :: r2 :: r3 :: rest)
      with ((e ++ [u8 (off / 256 + 224)]) ++ r1 :: r2 :: r3 :: rest) by (by rewrite <-app_assoc).
    rewrite wr_one by (rewrite length_app; cbn; lia). mred.
    replace ((e ++ [u8 (off / 256 + 224)]) ++ u8 (len - 7) :: r2 :: r3 :: rest)
      with ((e ++ [u8 (off / 256 + 224); u8 (len - 7)]) ++ r2 :: r3 :: rest) by (by rewrite <-!app_assoc).
    rewrite wr_one by (rewrite length_app; cbn; lia). mred.
    rewrite Hu8, !wrapu_small by (change (2 ^ 8) with 256; zlia).
    exists r3, rest. rewrite <-app_assoc, !length_app. cbn [length app]. split; [|done]. do 2 f_equal. lia.
Qed.

(** What the loop leaves: a return of 0, or the invariant near the end of the input. *)
Definition outcome_ok (n : nat) (r : outcome) : Prop :=
  match r with
  | inl out => length out = n
  | inr (out, ip, op, lit) => length out = n /\ comp_inv out ip op lit /\ in_end - 2 <= ip
  end.

(** After a back reference. *)
Lemma ref_inv ts rest' c ip n off :
  tokens_run [] ts (take (Z.to_nat ip) inp) -> 0 < ip -> ip + n <= in_end -> 3 <= n <= 264 ->
  0 <= off < 8192 -> off < ip -> agree (ip - off - 1) ip n ->
  let e := concat (map encode ts) ++ encode (Ref off (n - 2)) in
  comp_inv (e ++ c :: rest') (ip + n) (Z.of_nat (length e) + 1) 0.
Proof.
  intros Hrun Hip Hend Hn Hoff Hlt Ha. cbn zeta. set (t := Ref off (n - 2)).
  assert (Henc : concat (map encode (ts ++ [t])) = concat (map encode ts) ++ encode t).
  { rewrite map_app, concat_app. cbn [map concat]. by rewrite app_nil_r. }
  exists (ts ++ [t]), (take (Z.to_nat (ip + n)) inp), []. rewrite Henc, app_nil_r. split.
  - assert (Ea : apply (take (Z.to_nat ip) inp) t = take (Z.to_nat (ip + n)) inp).
    { unfold apply, t. replace (n - 2 + 2) with n by lia.
      pose proof (copy_agree (Z.to_nat n) (ip - off - 1) ip) as Ec. rewrite Z2Nat.id in Ec by lia.
      replace (ip - (ip - off - 1) - 1) with off in Ec by lia. apply Ec; [lia..|done]. }
    rewrite <-Ea. apply run_snoc; [done|]. unfold t. cbn [token_ok]. rewrite length_take. lia.
  - split_and!; try done; try lia. left. by exists c, rest'.
Qed.

Lemma compress_loop_ok fuel htab out ip op lit hval :
  htab_ok htab -> comp_inv out ip op lit -> in_end - ip < Z.of_nat fuel ->
  exists r, compress_loop fuel htab inp out in_end (Z.of_nat (length out)) ip op lit hval = Some r /\
    outcome_ok (length out) r.
Proof.
  revert htab out ip op lit hval. induction fuel as [|fuel IH]; intros htab out ip op lit hval Hh Hinv Hf.
  { destruct Hinv as (? & ? & ? & _ & Hip & _). lia. }
  assert (Hip : 0 <= ip <= in_end) by (destruct Hinv as (? & ? & ? & _ & Hip & _); done).
  cbn [compress_loop]. destruct (Z.ltb_spec ip (in_end - 2)) as [Hlt|Hge].
  2:{ eexists. split; [done|]. cbn. auto. }
  destruct (NEXT_ok hval ip) as [h ->]; [lia..|]. mred.
  destruct (hslot_swap_ok htab h ip Hh) as (ref & htab1 & -> & Hh1 & Href). mred.
  destruct (match_found_ok ref ip Href) as (b & -> & Hb); [lia..|]. mred. destruct b.
  - destruct (Hb eq_refl) as (Hr & Hoff & Hoff2 & Ha). clear Hb.
    destruct ((_ <=? op + 3 + 1) && _) eqn:Eroom; [eexists; split; [done|]; done|].
    assert (Hroom : op - not_lit lit + 4 < Z.of_nat (length out)).
    { rewrite andb_false_iff, !Z.leb_gt in Eroom. unfold not_lit in *. destruct (lit =? 0); lia. }
    assert (Hlit : 0 <= lit) by (destruct Hinv as (? & ? & l & _ & _ & _ & -> & _); lia).
    destruct (stop_run_ok out ip op lit Hinv) as (ts & rest & -> & Hrun & Hop & Hlo).
    { unfold not_lit in Hroom. destruct (lit =? 0) eqn:?; zbool; lia. }
    mred. rewrite Hoff. set (maxlen := if _ <? _ then _ else _).
    assert (Hmax : maxlen = Z.min 264 (in_end - ip - 2)).
    { unfold maxlen. rewrite wrapu_small by lia. change MAX_REF with 264.
      destruct (Z.ltb_spec 264 (in_end - ip - 2)); lia. }
    destruct (match_len_ok ref ip maxlen) as (len & -> & Hl1 & Hl2 & Hag); [lia|done|lia|done|]. mred.
    rewrite Hop. destruct (write_ref_ok (concat (map encode ts)) rest _ (ip - ref - 1) (len - 2) eq_refl) as (c & rest' & -> & Hlo2);
      [lia|lia|rewrite <-Hlo, length_app in Hroom; lia|]. mred.
    pose proof (ref_inv ts rest' c ip len (ip - ref - 1) Hrun) as Hnew. cbn zeta in Hnew.
    rewrite <-app_assoc, length_app, Nat2Z.inj_add in Hnew.
    assert (Hinv' : comp_inv (concat (map encode ts) ++ encode (Ref (ip - ref - 1) (len - 2)) ++ c :: rest') (ip + len)
      (Z.of_nat (length (concat (map encode ts))) + Z.of_nat (length (encode (Ref (ip - ref - 1) (len - 2)))) + 1) 0).
    { apply Hnew; try lia. by replace (ip - (ip - ref - 1) - 1) with ref by lia. }
    set (out' := concat _ ++ encode _ ++ c :: rest') in *. set (op' := _ + _ + 1) in *.
    replace (ip + 1 + (len - 2 + 1)) with (ip + len) by lia.
    assert (Hout' : length out' = length out) by lia. rewrite <-Hout'.
    destruct (Z.leb_spec (in_end - 2) (ip + len)); [eexists; split; [done|]; cbn; auto|].
    destruct (FRST_ok (ip + len - 2)) as [h1 ->]; [lia..|]. mred.
    destruct (NEXT_ok h1 (ip + len - 2)) as [h2 ->]; [lia..|]. mred.
    destruct (hslot_swap_ok htab1 h2 (ip + len - 2) Hh1) as (? & htab2 & -> & Hh2 & _). mred.
    destruct (NEXT_ok h2 (ip + len - 2 + 1)) as [h3 ->]; [lia..|]. mred.
    destruct (hslot_swap_ok htab2 h3 (ip + len - 2 + 1) Hh2) as (? & htab3 & -> & Hh3 & _). mred.
    replace (ip + len - 2 + 1 + 1) with (ip + len) by lia. apply IH; [done|done|lia].
  - destruct (Z.leb_spec (Z.of_nat (length out)) op); [eexists; split; [done|]; done|].
    destruct (put_lit_ok out ip op lit Hinv) as (out' & op' & lit' & -> & Hinv' & Hlo & _); [lia..|]. mred.
    rewrite <-Hlo. apply IH; [done|done|lia].
Qed.

Lemma compress_tail_ok fuel out ip op lit :
  comp_inv out ip op lit -> in_end - 2 <= ip -> in_end - ip < Z.of_nat fuel -> op + 3 <= Z.of_nat (length out) ->
  exists out' op' lit', compress_tail fuel inp out in_end ip op lit = Some (out', op', lit') /\
    comp_inv out' in_end op' lit' /\ length out' = length out /\ op' <= op + 3.
Proof.
  intros Hinv Hip Hf Hroom.
  destruct fuel as [|fuel]; [destruct Hinv as (? & ? & ? & _ & Hx & _); lia|]. cbn [compress_tail].
  destruct (Z.ltb_spec ip in_end) as [H1|H1].
  2:{ assert (ip = in_end) as -> by (destruct Hinv as (? & ? & ? & _ & Hx & _); lia).
      exists out, op, lit. split_and!; done || lia. }
  destruct (put_lit_ok out ip op lit Hinv) as (out1 & op1 & lit1 & -> & Hinv1 & Hl1 & Hop1); [lia..|]. mred.
  destruct fuel as [|fuel]; [lia|]. cbn [compress_tail]. destruct (Z.ltb_spec (ip + 1) in_end) as [H2|H2].
  2:{ assert (ip + 1 = in_end) as E by lia. rewrite E in Hinv1. exists out1, op1, lit1. split_and!; done || lia. }
  destruct (put_lit_ok out1 (ip + 1) op1 lit1 Hinv1) as (out2 & op2 & lit2 & -> & Hinv2 & Hl2 & Hop2); [lia..|]. mred.
  destruct fuel as [|fuel]; [lia|]. cbn [compress_tail].
  rewrite (proj2 (Z.ltb_ge _ _)) by lia.
  assert (ip + 1 + 1 = in_end) as E by lia. rewrite E in Hinv2. exists out2, op2, lit2. split_and!; try done; lia.
Qed.

Lemma comp_inv_start out : out <> [] -> comp_inv out 0 1 0.
Proof.
  intros Hne. exists [], [], []. split_and!; try done; try lia; [constructor|].
  left. destruct out as [|c rest]; [done|]. by exists c, rest.
Qed.

Lemma lzf_compress_ok htab out :
  htab_ok htab -> 2 <= in_end -> out <> [] ->
  exists n out', lzf_compress htab inp out = Some (n, out') /\ length out' = length out /\
    (n = 0 \/ exists ts rest, tokens_run [] ts inp /\ out' = concat (map encode ts) ++ rest /\
                             n = Z.of_nat (length (concat (map encode ts)))).
Proof.
  intros Hh Hin Hne. unfold lzf_compress.
  assert (Ho : 0 < Z.of_nat (length out)) by (destruct out; [done|cbn; lia]).
  rewrite (proj2 (Z.eqb_neq _ _)), (proj2 (Z.eqb_neq _ _)) by lia. cbn [orb].
  destruct (FRST_ok 0) as [h ->]; [lia..|]. mred.
  destruct (compress_loop_ok (S (length inp)) htab out 0 1 0 h) as (r & -> & Hr); [done|by apply comp_inv_start|lia|]. mred.
  destruct r as [out1|[[[out1 ip] op] lit]]; cbn [outcome_ok] in Hr; [exists 0, out1; auto|].
  destruct Hr as (Hl1 & Hinv & Hip).
  destruct (Z.ltb_spec (Z.of_nat (length out)) (op + 3)) as [|Hroom]; [exists 0, out1; auto|].
  destruct (compress_tail_ok (S (length inp)) out1 ip op lit) as (out2 & op2 & lit2 & -> & Hinv2 & Hl2 & Hop2); [done|done| |lia|].
  { destruct Hinv as (? & ? & ? & _ & Hx & _). lia. }
  mred. destruct (stop_run_ok out2 in_end op2 lit2 Hinv2) as (ts & rest & -> & Hrun & Hn & Hlo).
  { destruct Hinv2 as (? & ? & l & _ & _ & _ & -> & _). lia. }
  mred. eexists _, _. split; [done|]. split; [lia|]. right. exists ts, rest.
  rewrite Nat2Z.id, take_ge in Hrun by lia. auto.
Qed.
End compression.

Lemma tokens_run_bytes d ts d' : tokens_run d ts d' -> ts = [] -> d' = d.
Proof. by destruct 1. Qed.

Lemma length_concat_encode ts : (length ts <= length (concat (map encode ts)))%nat.
Proof. induction ts as [|t ts IH]; cbn; [lia|]. rewrite length_app. pose proof (length_encode t). lia. Qed.

Lemma copy_prefix n d off : d `prefix_of` copy n d off.
Proof. revert d. induction n as [|n IH]; intros d; cbn; [done|]. etrans; [|apply IH]. by apply prefix_app_r. Qed.

Lemma run_prefix d ts d' : tokens_run d ts d' -> d `prefix_of` d'.
Proof.
  induction 1 as [|d t ts d' _ _ IH]; [done|]. etrans; [|apply IH].
  destruct t; cbn; [by apply prefix_app_r|apply copy_prefix].
Qed.

(** The codes are bytes. *)
Lemma run_encode_bytes d ts d' :
  tokens_run d ts d' -> Forall is_byte d' -> Forall is_byte (concat (map encode ts)).
Proof.
  induction 1 as [|d t ts d' Hok Hrun IH]; intros Hb; [constructor|]. cbn [map concat]. apply Forall_app. split; [|auto].
  destruct t as [l|off len]; cbn [encode token_ok apply] in *.
  - apply Forall_cons. split; [unfold is_byte; lia|]. destruct (run_prefix _ _ _ Hrun) as [k ->].
    rewrite !Forall_app in Hb. tauto.
  - unfold is_byte. destruct (Z.ltb_spec len 7); repeat (apply Forall_cons; split; [zlia|]); constructor.
Qed.

(** ** The interface offered to the serializers *)

Class Lzf := {
  lzf_c : list Z -> list Z -> option (Z * list Z);
  lzf_d : list Z -> list Z -> option (Z * list Z)
}.

Class LzfLaws `{Lzf} : Prop := lzf_law inp out out2 :
  Forall is_byte inp -> 2 <= Z.of_nat (length inp) < 2 ^ 32 -> out <> [] -> length out2 = length inp ->
  exists n out', lzf_c inp out = Some (n, out') /\ length out' = length out /\ 0 <= n <= Z.of_nat (length out) /\
    (n <> 0 -> exists bs, rd out' 0 n = Some bs /\ Forall is_byte bs /\ lzf_d bs out2 = Some (Z.of_nat (length inp), inp)).

Definition lzf_functions (htab : list Z) : Lzf := {| lzf_c := lzf_compress htab; lzf_d := lzf_decompress |}.

Lemma lzf_functions_laws htab : htab_ok htab -> @LzfLaws (lzf_functions htab).
Proof.
  intros Hh inp out out2 Hb Hin Hne Hl2. cbn [lzf_c lzf_d lzf_functions].
  destruct (lzf_compress_ok inp ltac:(lia) htab out Hh ltac:(lia) Hne) as (n & out' & E & Hl & Hn).
  exists n, out'. split; [exact E|]. split; [exact Hl|].
  destruct Hn as [->|(ts & rest & Hrun & -> & ->)]; [split; [lia|done]|].
  rewrite length_app in Hl. split; [lia|]. intros Hpos. exists (concat (map encode ts)). split; [|split].
  { apply rd_Some. rewrite length_app, drop_0, Nat2Z.id, take_app_length. split_and!; done || lia. }
  { by eapply run_encode_bytes. }
  pose proof (decompress_tokens (S (length (concat (map encode ts)))) [] ts [] out2 inp Hrun) as Ed. cbn [app length] in Ed.
  change (Z.of_nat 0) with 0 in Ed. unfold lzf_decompress. rewrite Ed.
  - rewrite Nat.sub_0_r, <-Hl2, drop_all, app_nil_r. done.
  - intros ->. apply tokens_run_bytes in Hrun as ->; [cbn in Hin; lia|done].
  - pose proof (length_concat_encode ts). lia.
  - lia.
Qed.

(** C15: [lzf_compress] accesses only its input and the given output space, for every input of
    two bytes or more (and less than 2^32; with a single byte the code reads past the end),
    every non-empty output space and every content of its uninitialised hash table; when it returns a length, [lzf_decompress] of that many bytes gives the input back. *)
Theorem lzf_roundtrip htab inp out out2 :
  Forall is_byte inp -> 2 <= Z.of_nat (length inp) < 2 ^ 32 -> out <> [] -> htab_ok htab ->
  length out2 = length inp ->
  exists n out', lzf_compress htab inp out = Some (n, out') /\ length out' = length out /\
    0 <= n <= Z.of_nat (length out) /\
    (n <> 0 -> exists bs, rd out' 0 n = Some bs /\ lzf_decompress bs out2 = Some (Z.of_nat (length inp), inp)).
Proof.
  intros Hb Hin Hne Hh Hl2.
  destruct (lzf_functions_laws htab Hh inp out out2 Hb Hin Hne Hl2) as (n & out' & E & Hl & Hn & Hd).
  exists n, out'. split_and!; try done; [lia..|]. intros Hpos. destruct (Hd Hpos) as (bs & ? & _ & ?). eauto.
Qed.

(** C34: [lzf_decompress] is memory safe on every input, well formed or not: it reads only the
    input and the output written so far, writes only the output, and returns a length
    within it (0 on error). *)
Theorem lzf_decompress_safe inp out :
  Forall is_byte inp -> inp <> [] ->
  exists r out', lzf_decompress inp out = Some (r, out') /\ 0 <= r <= Z.of_nat (length out) /\ length out' = length out.
Proof.
  intros Hb Hne. apply (decompress_loop_safe (S (length inp)) inp [] out 0); [done| |lia].
  destruct inp; [done|cbn [length]; lia].
Qed.

(** Witnesses. *)
Lemma garbage_htab_ok : htab_ok (replicate (Z.to_nat HSIZE) 4294967295).
Proof. split; [rewrite length_replicate, Z2Nat.id; [reflexivity|vm_compute; discriminate]|]. apply Forall_replicate. lia. Qed.

Lemma lzf_roundtrip_witness :
  exists n out', lzf_compress (replicate (Z.to_nat HSIZE) 4294967295) (lit "abababababababab") (replicate 12 0) = Some (n, out') /\
    length out' = 12%nat.
Proof.
  destruct (lzf_roundtrip (replicate (Z.to_nat HSIZE) 4294967295) (lit "abababababababab") (replicate 12 0) (replicate 16 0))
    as (n & out' & E & Hl & _).
  - apply lit_bytes. reflexivity.
  - cbn; lia.
  - discriminate.
  - apply garbage_htab_ok.
  - reflexivity.
  - exists n, out'. split; [exact E|exact Hl].
Defined.

Lemma lzf_decompress_safe_witness : exists r out', lzf_decompress [224; 5; 200; 1] (replicate 9 0) = Some (r, out') /\ length out' = 9%nat.
Proof.
  destruct (lzf_decompress_safe [224; 5; 200; 1] (replicate 9 0)) as (r & out' & E & _ & Hl).
  - apply lit_bytes. reflexivity.
  - discriminate.
  - exists r, out'. split; [exact E|exact Hl].
Defined.
