(* ===== verification/Ziplist.v ===== *)
(** * ziplist.c: a list of strings in one block of memory

    The operations at the level of the bytes. A pointer into the ziplist is its offset from
    the start of the block; the code only compares pointers of the same block. An access out
    of bounds, a failed assertion and a [panic] are [None]. *)

From stdpp Require Import list.
From S2P Require Import Prelude Util.

(** ** Constants and entries *)

Definition ZIP_END : Z := 255.
Definition ZIP_BIG_PREVLEN : Z := 254.
Definition ZIP_STR_MASK : Z := 192.
Definition ZIP_STR_06B : Z := 0.
Definition ZIP_STR_14B : Z := 64.
Definition ZIP_STR_32B : Z := 128.
Definition ZIP_INT_16B : Z := 192.
Definition ZIP_INT_32B : Z := 208.
Definition ZIP_INT_64B : Z := 224.
Definition ZIP_INT_24B : Z := 240.
Definition ZIP_INT_8B : Z := 254.
Definition ZIP_INT_IMM_MASK : Z := 15.
Definition ZIP_INT_IMM_MIN : Z := 241.
Definition ZIP_INT_IMM_MAX : Z := 253.
Definition INT24_MAX : Z := 8388607.
Definition INT24_MIN : Z := - INT24_MAX - 1.
Definition UINT16_MAX : Z := 65535.
Definition ZIPLIST_HEADER_SIZE : Z := 10.
Definition ZIPLIST_END_SIZE : Z := 1.

Definition ZIP_IS_STR (enc : Z) : bool := Z.land enc ZIP_STR_MASK <? ZIP_STR_MASK.

(** The fields of the header. *)
Definition load (n : Z) (zl : list Z) (off : Z) : option Z := bs ← rd zl off n; Some (le_decode bs).
Definition ZIPLIST_BYTES (zl : list Z) : option Z := load 4 zl 0.
Definition ZIPLIST_TAIL_OFFSET (zl : list Z) : option Z := load 4 zl 4.
Definition ZIPLIST_LENGTH (zl : list Z) : option Z := load 2 zl 8.
Definition set_bytes (zl : list Z) (v : Z) : option (list Z) := wr zl 0 (le_encode 4 v).
Definition set_tail_offset (zl : list Z) (v : Z) : option (list Z) := wr zl 4 (le_encode 4 v).
Definition set_length (zl : list Z) (v : Z) : option (list Z) := wr zl 8 (le_encode 2 v).

Definition ZIPLIST_INCR_LENGTH (zl : list Z) (incr : Z) : option (list Z) :=
  len ← ZIPLIST_LENGTH zl;
  if len <? UINT16_MAX then set_length zl (u16 (len + incr)) else Some zl.

Record zlentry := Zlentry {
  prevrawlensize : Z;
  prevrawlen : Z;
  lensize : Z;
  len : Z;
  headersize : Z;
  encoding : Z;
  entry_p : Z
}.

Definition ZIP_ENTRY_ENCODING (b : Z) : Z := if b <? ZIP_STR_MASK then Z.land b ZIP_STR_MASK else b.

Definition zipIntSize (encoding : Z) : option Z :=
  if encoding =? ZIP_INT_8B then Some 1 else
  if encoding =? ZIP_INT_16B then Some 2 else
  if encoding =? ZIP_INT_24B then Some 3 else
  if encoding =? ZIP_INT_32B then Some 4 else
  if encoding =? ZIP_INT_64B then Some 8 else
  if (ZIP_INT_IMM_MIN <=? encoding) && (encoding <=? ZIP_INT_IMM_MAX) then Some 0 else None.

(** The bytes of [buf] that [zipStoreEntryEncoding] stores; it returns their number. *)
Definition entry_encoding (encoding rawlen : Z) : list Z :=
  if ZIP_IS_STR encoding then
    if rawlen <=? 63 then [Z.lor ZIP_STR_06B rawlen] else
    if rawlen <=? 16383 then [Z.lor ZIP_STR_14B (Z.land (Z.shiftr rawlen 8) 63); Z.land rawlen 255] else
    [ZIP_STR_32B; Z.land (Z.shiftr rawlen 24) 255; Z.land (Z.shiftr rawlen 16) 255; Z.land (Z.shiftr rawlen 8) 255; Z.land rawlen 255]
  else [encoding].

Definition zipStoreEntryEncoding (zl : list Z) (p encoding rawlen : Z) : option (list Z * Z) :=
  zl ← wr zl p (entry_encoding encoding rawlen);
  Some (zl, Z.of_nat (length (entry_encoding encoding rawlen))).

(** The encoding, the size of the header and the length of the data. *)
Definition ZIP_DECODE_LENGTH (zl : list Z) (ptr : Z) : option (Z * Z * Z) :=
  b0 ← rd1 zl ptr;
  let encoding := ZIP_ENTRY_ENCODING b0 in
  if encoding <? ZIP_STR_MASK then
    if encoding =? ZIP_STR_06B then Some (encoding, 1, Z.land b0 63) else
    if encoding =? ZIP_STR_14B then
      b1 ← rd1 zl (ptr + 1);
      Some (encoding, 2, Z.lor (Z.shiftl (Z.land b0 63) 8) b1)
    else if encoding =? ZIP_STR_32B then
      b1 ← rd1 zl (ptr + 1); b2 ← rd1 zl (ptr + 2); b3 ← rd1 zl (ptr + 3); b4 ← rd1 zl (ptr + 4);
      Some (encoding, 5, u32 (Z.lor (Z.lor (Z.lor (Z.shiftl b1 24) (Z.shiftl b2 16)) (Z.shiftl b3 8)) b4))
    else None
  else len ← zipIntSize encoding; Some (encoding, 1, len).

(** The stored forms of the length of the previous entry. *)
Definition prevlen_large (len : Z) : list Z := ZIP_BIG_PREVLEN :: le_encode 4 len.
Definition prevlen_size (len : Z) : Z := if len <? ZIP_BIG_PREVLEN then 1 else 5.

Definition zipStorePrevEntryLengthLarge (zl : list Z) (p len : Z) : option (list Z * Z) :=
  zl ← wr zl p (prevlen_large len); Some (zl, 5).

Definition zipStorePrevEntryLength (zl : list Z) (p len : Z) : option (list Z * Z) :=
  if len <? ZIP_BIG_PREVLEN then zl ← wr zl p [len]; Some (zl, 1) else zipStorePrevEntryLengthLarge zl p len.

Definition ZIP_DECODE_PREVLENSIZE (zl : list Z) (ptr : Z) : option Z :=
  b ← rd1 zl ptr; Some (if b <? ZIP_BIG_PREVLEN then 1 else 5).

(** The size of the field and its value. *)
Definition ZIP_DECODE_PREVLEN (zl : list Z) (ptr : Z) : option (Z * Z) :=
  prevlensize ← ZIP_DECODE_PREVLENSIZE zl ptr;
  if prevlensize =? 1 then b ← rd1 zl ptr; Some (prevlensize, b)
  else prevlen ← load 4 zl (ptr + 1); Some (prevlensize, prevlen).

Definition zipPrevLenByteDiff (zl : list Z) (p len : Z) : option Z :=
  prevlensize ← ZIP_DECODE_PREVLENSIZE zl p; Some (prevlen_size len - prevlensize).

Definition zipRawEntryLength (zl : list Z) (p : Z) : option Z :=
  prevlensize ← ZIP_DECODE_PREVLENSIZE zl p;
  '(_, lensize, len) ← ZIP_DECODE_LENGTH zl (p + prevlensize);
  Some (prevlensize + lensize + len).

(** The value and its encoding, when the string is an integer. *)
Definition zipTryEncoding (entry : list Z) : option (Z * Z) :=
  let entrylen := Z.of_nat (length entry) in
  if (32 <=? entrylen) || (entrylen =? 0) then None else
  value ← string2ll entry;
  Some (value,
    if (0 <=? value) && (value <=? 12) then ZIP_INT_IMM_MIN + value else
    if (-128 <=? value) && (value <=? 127) then ZIP_INT_8B else
    if (INT16_MIN <=? value) && (value <=? INT16_MAX) then ZIP_INT_16B else
    if (INT24_MIN <=? value) && (value <=? INT24_MAX) then ZIP_INT_24B else
    if (INT32_MIN <=? value) && (value <=? INT32_MAX) then ZIP_INT_32B else ZIP_INT_64B).

(** The bytes [zipSaveInteger] copies; on the 24-bit encoding the low byte of [value << 8] is left out. *)
Definition integer_bytes (value encoding : Z) : option (list Z) :=
  if encoding =? ZIP_INT_8B then Some (le_encode 1 value) else
  if encoding =? ZIP_INT_16B then Some (le_encode 2 value) else
  if encoding =? ZIP_INT_24B then Some (drop 1 (le_encode 4 (s32 (Z.shiftl value 8)))) else
  if encoding =? ZIP_INT_32B then Some (le_encode 4 value) else
  if encoding =? ZIP_INT_64B then Some (le_encode 8 value) else
  if (ZIP_INT_IMM_MIN <=? encoding) && (encoding <=? ZIP_INT_IMM_MAX) then Some [] else None.

Definition zipSaveInteger (zl : list Z) (p value encoding : Z) : option (list Z) :=
  bs ← integer_bytes value encoding; wr zl p bs.

Definition zipLoadInteger (zl : list Z) (p encoding : Z) : option Z :=
  if encoding =? ZIP_INT_8B then v ← load 1 zl p; Some (s8 v) else
  if encoding =? ZIP_INT_16B then v ← load 2 zl p; Some (s16 v) else
  if encoding =? ZIP_INT_32B then v ← load 4 zl p; Some (s32 v) else
  if encoding =? ZIP_INT_24B then bs ← rd zl p 3; Some (Z.shiftr (s32 (le_decode (0 :: bs))) 8) else
  if encoding =? ZIP_INT_64B then v ← load 8 zl p; Some (s64 v) else
  if (ZIP_INT_IMM_MIN <=? encoding) && (encoding <=? ZIP_INT_IMM_MAX) then Some (Z.land encoding ZIP_INT_IMM_MASK - 1) else None.

Definition zipEntry (zl : list Z) (p : Z) : option zlentry :=
  '(prevrawlensize, prevrawlen) ← ZIP_DECODE_PREVLEN zl p;
  '(encoding, lensize, len) ← ZIP_DECODE_LENGTH zl (p + prevrawlensize);
  Some (Zlentry prevrawlensize prevrawlen lensize len (prevrawlensize + lensize) encoding p).

(** ** The list *)

(** [mem] is the memory [zmalloc] returned. *)
Definition ziplistNew (mem : list Z) : option (list Z) :=
  zl ← set_bytes mem (ZIPLIST_HEADER_SIZE + 1);
  zl ← set_tail_offset zl ZIPLIST_HEADER_SIZE;
  zl ← set_length zl 0;
  wr zl (ZIPLIST_HEADER_SIZE + 1 - 1) [ZIP_END].

(** [fill] is the content of new memory. *)
Definition ziplistResize (fill : Z) (zl : list Z) (len : Z) : option (list Z) :=
  zl ← set_bytes (zrealloc fill zl len) len;
  wr zl (len - 1) [ZIP_END].

Fixpoint cascade_loop (fuel : nat) (fill : Z) (zl : list Z) (p curlen : Z) : option (list Z) :=
  match fuel with
  | O => None
  | S fuel =>
    b ← rd1 zl p;
    if b =? ZIP_END then Some zl else
    cur ← zipEntry zl p;
    let rawlen := headersize cur + len cur in
    let rawlensize := prevlen_size rawlen in
    b ← rd1 zl (p + rawlen);
    if b =? ZIP_END then Some zl else
    next ← zipEntry zl (p + rawlen);
    if prevrawlen next =? rawlen then Some zl else
    if prevrawlensize next <? rawlensize then
      let extra := rawlensize - prevrawlensize next in
      zl ← ziplistResize fill zl (curlen + extra);
      let np := p + rawlen in
      tail ← ZIPLIST_TAIL_OFFSET zl;
      zl ← (if negb (tail =? np) then set_tail_offset zl (u32 (tail + extra)) else Some zl);
      zl ← memmove zl (np + rawlensize) (np + prevrawlensize next) (curlen - np - prevrawlensize next - 1);
      '(zl, _) ← zipStorePrevEntryLength zl np rawlen;
      cascade_loop fuel fill zl (p + rawlen) (curlen + extra)
    else
      '(zl, _) ← (if rawlensize <? prevrawlensize next then zipStorePrevEntryLengthLarge zl (p + rawlen) rawlen
                  else zipStorePrevEntryLength zl (p + rawlen) rawlen);
      Some zl
  end.

(** An entry has at least two bytes, so that the length of the block bounds the iterations. *)
Definition ziplistCascadeUpdate (fill : Z) (zl : list Z) (p : Z) : option (list Z) :=
  curlen ← ZIPLIST_BYTES zl;
  cascade_loop (length zl) fill zl p curlen.

(** The loop that skips the entries to delete: the pointer and their number. *)
Fixpoint skip_loop (fuel : nat) (zl : list Z) (p i num : Z) : option (Z * Z) :=
  match fuel with
  | O => None
  | S fuel =>
    b ← rd1 zl p;
    if (b =? ZIP_END) || (num <=? i) then Some (p, i) else
    n ← zipRawEntryLength zl p;
    skip_loop fuel zl (p + n) (i + 1) num
  end.

Definition ziplistDelete_num (fill : Z) (zl : list Z) (p num : Z) : option (list Z) :=
  first ← zipEntry zl p;
  '(p, deleted) ← skip_loop (length zl) zl p 0 num;
  let totlen := p - entry_p first in
  if 0 <? totlen then
    b ← rd1 zl p;
    '(zl, nextdiff) ←
      (if negb (b =? ZIP_END) then
         nextdiff ← zipPrevLenByteDiff zl p (prevrawlen first);
         let p := p - nextdiff in
         '(zl, _) ← zipStorePrevEntryLength zl p (prevrawlen first);
         t ← ZIPLIST_TAIL_OFFSET zl;
         zl ← set_tail_offset zl (u32 (t - totlen));
         tail ← zipEntry zl p;
         b ← rd1 zl (p + headersize tail + len tail);
         zl ← (if negb (b =? ZIP_END) then t ← ZIPLIST_TAIL_OFFSET zl; set_tail_offset zl (u32 (t + nextdiff)) else Some zl);
         bytes ← ZIPLIST_BYTES zl;
         zl ← memmove zl (entry_p first) p (bytes - p - 1);
         Some (zl, nextdiff)
       else zl ← set_tail_offset zl (u32 (entry_p first - prevrawlen first)); Some (zl, 0));
    bytes ← ZIPLIST_BYTES zl;
    zl ← ziplistResize fill zl (bytes - totlen + nextdiff);
    zl ← ZIPLIST_INCR_LENGTH zl (- deleted);
    if negb (nextdiff =? 0) then ziplistCascadeUpdate fill zl (entry_p first) else Some zl
  else Some zl.

(** [__ziplistInsert]. *)
Definition ziplistInsert (fill : Z) (zl : list Z) (p : Z) (s : list Z) : option (list Z) :=
  let slen := Z.of_nat (length s) in
  curlen ← ZIPLIST_BYTES zl;
  b ← rd1 zl p;
  prevlen ← (if negb (b =? ZIP_END) then '(_, prevlen) ← ZIP_DECODE_PREVLEN zl p; Some prevlen
             else ptail ← ZIPLIST_TAIL_OFFSET zl;
                  bt ← rd1 zl ptail;
                  if negb (bt =? ZIP_END) then zipRawEntryLength zl ptail else Some 0);
  let try := zipTryEncoding s in
  let '(value, encoding) := default (123456789, 0) try in
  reqlen ← (match try with Some _ => zipIntSize encoding | None => Some slen end);
  let reqlen := reqlen + prevlen_size prevlen in
  let reqlen := reqlen + Z.of_nat (length (entry_encoding encoding slen)) in
  nextdiff ← (if negb (b =? ZIP_END) then zipPrevLenByteDiff zl p reqlen else Some 0);
  let forcelarge := (nextdiff =? -4) && (reqlen <? 4) in
  let nextdiff := if forcelarge then 0 else nextdiff in
  zl ← ziplistResize fill zl (curlen + reqlen + nextdiff);
  b ← rd1 zl p;
  zl ← (if negb (b =? ZIP_END) then
          zl ← memmove zl (p + reqlen) (p - nextdiff) (curlen - p - 1 + nextdiff);
          '(zl, _) ← (if forcelarge then zipStorePrevEntryLengthLarge zl (p + reqlen) reqlen
                      else zipStorePrevEntryLength zl (p + reqlen) reqlen);
          t ← ZIPLIST_TAIL_OFFSET zl;
          zl ← set_tail_offset zl (u32 (t + reqlen));
          tail ← zipEntry zl (p + reqlen);
          b ← rd1 zl (p + (reqlen + headersize tail + len tail));
          if negb (b =? ZIP_END) then t ← ZIPLIST_TAIL_OFFSET zl; set_tail_offset zl (u32 (t + nextdiff)) else Some zl
        else set_tail_offset zl (u32 p));
  zl ← (if negb (nextdiff =? 0) then ziplistCascadeUpdate fill zl (p + reqlen) else Some zl);
  '(zl, n) ← zipStorePrevEntryLength zl p prevlen;
  let p := p + n in
  '(zl, n) ← zipStoreEntryEncoding zl p encoding slen;
  let p := p + n in
  zl ← (if ZIP_IS_STR encoding then wr zl p s else zipSaveInteger zl p value encoding);
  ZIPLIST_INCR_LENGTH zl 1.

(** Where to push. *)
Inductive zl_where := ZIPLIST_HEAD | ZIPLIST_TAIL.

Definition ziplistPush (fill : Z) (zl : list Z) (s : list Z) (where_ : zl_where) : option (list Z) :=
  p ← (match where_ with ZIPLIST_HEAD => Some ZIPLIST_HEADER_SIZE | ZIPLIST_TAIL => bytes ← ZIPLIST_BYTES zl; Some (bytes - 1) end);
  ziplistInsert fill zl p s.

(** The two lists are different objects. The result is the block that was extended. *)
Definition ziplistMerge (fill : Z) (first second : list Z) : option (list Z) :=
  first_bytes ← ZIPLIST_BYTES first;
  first_len ← ZIPLIST_LENGTH first;
  second_bytes ← ZIPLIST_BYTES second;
  second_len ← ZIPLIST_LENGTH second;
  let zlbytes := first_bytes + second_bytes - ZIPLIST_HEADER_SIZE - ZIPLIST_END_SIZE in
  let zllength := first_len + second_len in
  let zllength := if zllength <? UINT16_MAX then zllength else UINT16_MAX in
  first_offset ← ZIPLIST_TAIL_OFFSET first;
  second_offset ← ZIPLIST_TAIL_OFFSET second;
  target ←
    (if second_len <=? first_len then
       let target := zrealloc fill first zlbytes in
       src ← rd second ZIPLIST_HEADER_SIZE (second_bytes - ZIPLIST_HEADER_SIZE);
       wr target (first_bytes - ZIPLIST_END_SIZE) src
     else
       let target := zrealloc fill second zlbytes in
       target ← memmove target (first_bytes - ZIPLIST_END_SIZE) ZIPLIST_HEADER_SIZE (second_bytes - ZIPLIST_HEADER_SIZE);
       src ← rd first 0 (first_bytes - ZIPLIST_END_SIZE);
       wr target 0 src);
  target ← set_bytes target zlbytes;
  target ← set_length target zllength;
  target ← set_tail_offset target ((first_bytes - ZIPLIST_END_SIZE) + (second_offset - ZIPLIST_HEADER_SIZE));
  ziplistCascadeUpdate fill target first_offset.

Fixpoint index_back (fuel : nat) (zl : list Z) (p prevlen index : Z) : option (Z * Z) :=
  match fuel with
  | O => None
  | S fuel =>
    if (0 <? prevlen) && negb (index =? 0) then
      let p := p - prevlen in
      '(_, prevlen) ← ZIP_DECODE_PREVLEN zl p;
      index_back fuel zl p prevlen (index - 1)
    else Some (p, if 0 <? prevlen then index - 1 else index)
  end.

Fixpoint index_forward (fuel : nat) (zl : list Z) (p index : Z) : option (Z * Z) :=
  match fuel with
  | O => None
  | S fuel =>
    b ← rd1 zl p;
    if negb (b =? ZIP_END) && negb (index =? 0) then
      n ← zipRawEntryLength zl p;
      index_forward fuel zl (p + n) (index - 1)
    else Some (p, if negb (b =? ZIP_END) then index - 1 else index)
  end.

(** [None] inside is NULL. *)
Definition ziplistIndex (zl : list Z) (index : Z) : option (option Z) :=
  '(p, index) ←
    (if index <? 0 then
       let index := - index - 1 in
       p ← ZIPLIST_TAIL_OFFSET zl;
       b ← rd1 zl p;
       if negb (b =? ZIP_END) then '(_, prevlen) ← ZIP_DECODE_PREVLEN zl p; index_back (length zl) zl p prevlen index
       else Some (p, index)
     else index_forward (length zl) zl ZIPLIST_HEADER_SIZE index);
  b ← rd1 zl p;
  Some (if (b =? ZIP_END) || (0 <? index) then None else Some p).

Definition ziplistNext (zl : list Z) (p : Z) : option (option Z) :=
  b ← rd1 zl p;
  if b =? ZIP_END then Some None else
  n ← zipRawEntryLength zl p;
  b ← rd1 zl (p + n);
  Some (if b =? ZIP_END then None else Some (p + n)).

Definition ziplistPrev (zl : list Z) (p : Z) : option (option Z) :=
  b ← rd1 zl p;
  if b =? ZIP_END then
    t ← ZIPLIST_TAIL_OFFSET zl;
    b ← rd1 zl t;
    Some (if b =? ZIP_END then None else Some t)
  else if p =? ZIPLIST_HEADER_SIZE then Some None else
  '(_, prevlen) ← ZIP_DECODE_PREVLEN zl p;
  if 0 <? prevlen then Some (Some (p - prevlen)) else None.

(** The string or the integer of an entry. *)
Inductive zval := ZStr (s : list Z) | ZInt (n : Z).

#[export] Instance zval_eq_dec : EqDecision zval.
Proof. solve_decision. Defined.

Definition ziplistGet (zl : list Z) (p : Z) : option (option zval) :=
  b ← rd1 zl p;
  if b =? ZIP_END then Some None else
  entry ← zipEntry zl p;
  if ZIP_IS_STR (encoding entry) then s ← rd zl (p + headersize entry) (len entry); Some (Some (ZStr s))
  else n ← zipLoadInteger zl (p + headersize entry) (encoding entry); Some (Some (ZInt n)).

(** The list and the new value of the pointer. *)
Definition ziplistDelete (fill : Z) (zl : list Z) (p : Z) : option (list Z * Z) :=
  let offset := p in
  zl ← ziplistDelete_num fill zl p 1;
  Some (zl, offset).

Definition ziplistDeleteRange (fill : Z) (zl : list Z) (index num : Z) : option (list Z) :=
  p ← ziplistIndex zl index;
  match p with None => Some zl | Some p => ziplistDelete_num fill zl p num end.

Definition ziplistCompare (zl : list Z) (p : Z) (sstr : list Z) : option bool :=
  b ← rd1 zl p;
  if b =? ZIP_END then Some false else
  entry ← zipEntry zl p;
  if ZIP_IS_STR (encoding entry) then
    if len entry =? Z.of_nat (length sstr) then s ← rd zl (p + headersize entry) (len entry); Some (bool_decide (s = sstr))
    else Some false
  else match zipTryEncoding sstr with
       | Some (sval, _) => zval ← zipLoadInteger zl (p + headersize entry) (encoding entry); Some (zval =? sval)
       | None => Some false
       end.

(** [vencoding] and [vll] are computed at the first integer entry. *)
Fixpoint find_loop (fuel : nat) (zl : list Z) (p : Z) (vstr : list Z) (skip skipcnt vencoding vll : Z) : option (option Z) :=
  match fuel with
  | O => None
  | S fuel =>
    b ← rd1 zl p;
    if b =? ZIP_END then Some None else
    prevlensize ← ZIP_DECODE_PREVLENSIZE zl p;
    '(encoding, lensize, len) ← ZIP_DECODE_LENGTH zl (p + prevlensize);
    let q := p + prevlensize + lensize in
    if skipcnt =? 0 then
      if ZIP_IS_STR encoding then
        found ← (if len =? Z.of_nat (length vstr) then s ← rd zl q len; Some (bool_decide (s = vstr)) else Some false);
        if (found : bool) then Some (Some p) else find_loop fuel zl (q + len) vstr skip skip vencoding vll
      else
        let '(vll, vencoding) :=
          if vencoding =? 0 then match zipTryEncoding vstr with Some (v, e) => (v, e) | None => (vll, 255) end
          else (vll, vencoding) in
        if vencoding =? 0 then None else
        found ← (if negb (vencoding =? 255) then ll ← zipLoadInteger zl q encoding; Some (ll =? vll) else Some false);
        if (found : bool) then Some (Some p) else find_loop fuel zl (q + len) vstr skip skip vencoding vll
    else find_loop fuel zl (q + len) vstr skip (skipcnt - 1) vencoding vll
  end.

Definition ziplistFind (zl : list Z) (p : Z) (vstr : list Z) (skip : Z) : option (option Z) :=
  find_loop (length zl) zl p vstr skip 0 0 0.

Fixpoint len_loop (fuel : nat) (zl : list Z) (p n : Z) : option Z :=
  match fuel with
  | O => None
  | S fuel =>
    b ← rd1 zl p;
    if b =? ZIP_END then Some n else
    k ← zipRawEntryLength zl p;
    len_loop fuel zl (p + k) (n + 1)
  end.

(** The length, and the list with the length stored again. *)
Definition ziplistLen (zl : list Z) : option (Z * list Z) :=
  l ← ZIPLIST_LENGTH zl;
  if l <? UINT16_MAX then Some (l, zl) else
  n ← len_loop (length zl) zl ZIPLIST_HEADER_SIZE 0;
  zl ← (if n <? UINT16_MAX then set_length zl n else Some zl);
  Some (n, zl).

Definition ziplistBlobLen (zl : list Z) : option Z := ZIPLIST_BYTES zl.

(** The tests of the repository: [createList]. *)
Example createList_pushes :
  (zl ← ziplistNew (replicate 11 0);
   zl ← ziplistPush 0 zl (lit "foo") ZIPLIST_TAIL;
   zl ← ziplistPush 0 zl (lit "quux") ZIPLIST_TAIL;
   zl ← ziplistPush 0 zl (lit "hello") ZIPLIST_HEAD;
   zl ← ziplistPush 0 zl (lit "1024") ZIPLIST_TAIL;
   p ← ziplistIndex zl 3; p ← p; v ← ziplistGet zl p;
   q ← ziplistIndex zl (-4); q ← q; w ← ziplistGet zl q;
   n ← ziplistLen zl;
   Some (v, w, fst n)) = Some (Some (ZInt 1024), Some (ZStr (lit "hello")), 4).
Proof. reflexivity. Qed.
