(* ===== verification/ZiplistRep.v ===== *)
(** * ziplist.c: the bytes of a ziplist and the list they represent

    Entries and their decoding, the layout of a ziplist, and the relation [models] between a
    block of memory and a list of strings. *)

From stdpp Require Import list.
From S2P Require Import Prelude Util Bits Ziplist.

(** ** Values and their bytes *)

(** The encoding [zipTryEncoding] chooses for an integer. *)
Definition int_encoding (value : Z) : Z :=
  if (0 <=? value) && (value <=? 12) then ZIP_INT_IMM_MIN + value else
  if (-128 <=? value) && (value <=? 127) then ZIP_INT_8B else
  if (INT16_MIN <=? value) && (value <=? INT16_MAX) then ZIP_INT_16B else
  if (INT24_MIN <=? value) && (value <=? INT24_MAX) then ZIP_INT_24B else
  if (INT32_MIN <=? value) && (value <=? INT32_MAX) then ZIP_INT_32B else ZIP_INT_64B.

(** The value stored for a string. *)
Definition zval_of (s : list Z) : zval := match zipTryEncoding s with Some (v, _) => ZInt v | None => ZStr s end.

(** The string a value stands for. *)
Definition text (v : zval) : list Z := match v with ZStr s => s | ZInt n => decimal n end.

(** The values stored are those of strings. *)
Definition zval_ok (v : zval) : Prop :=
  match v with
  | ZStr s => zipTryEncoding s = None /\ Z.of_nat (length s) < 2 ^ 32
  | ZInt n => LLONG_MIN <= n <= LLONG_MAX
  end.

Definition str_encoding (n : Z) : Z := if n <=? 63 then ZIP_STR_06B else if n <=? 16383 then ZIP_STR_14B else ZIP_STR_32B.
Definition zenc (v : zval) : Z := match v with ZStr s => str_encoding (Z.of_nat (length s)) | ZInt n => int_encoding n end.
Definition zhead (v : zval) : list Z := entry_encoding (zenc v) (Z.of_nat (length (text v))).
Definition zdata (v : zval) : list Z := match v with ZStr s => s | ZInt n => default [] (integer_bytes n (int_encoding n)) end.
Definition zbytes (v : zval) : list Z := zhead v ++ zdata v.

(** Split on the encoding of an integer. *)
Ltac int_cases n := unfold int_encoding, ZIP_INT_IMM_MIN, ZIP_INT_8B, ZIP_INT_16B, ZIP_INT_24B, ZIP_INT_32B, ZIP_INT_64B, INT24_MIN, INT24_MAX in *;
  destruct ((0 <=? n) && (n <=? 12)) eqn:?; [|destruct ((-128 <=? n) && (n <=? 127)) eqn:?; [|
  destruct ((INT16_MIN <=? n) && (n <=? INT16_MAX)) eqn:?; [|destruct ((- (8388607) - 1 <=? n) && (n <=? 8388607)) eqn:?; [|
  destruct ((INT32_MIN <=? n) && (n <=? INT32_MAX)) eqn:?]]]]; zbool.

Lemma int_encoding_range n : 192 <= int_encoding n <= 254.
Proof. int_cases n; lia. Qed.

Lemma int_encoding_not_str n : ZIP_IS_STR (int_encoding n) = false.
Proof.
  pose proof (int_encoding_range n) as H. unfold ZIP_IS_STR, ZIP_STR_MASK. set (e := int_encoding n) in *.
  assert (G : forall x, 0 <= x < 63 -> negb (Z.land (192 + x) 192 <? 192) = true) by (apply (check_range 63); vm_compute; reflexivity).
  specialize (G (e - 192) ltac:(lia)). replace (192 + (e - 192)) with e in G by lia. by apply negb_true_iff in G.
Qed.

Lemma str_encoding_is_str n : ZIP_IS_STR (str_encoding n) = true.
Proof. unfold str_encoding. by destruct (n <=? 63), (n <=? 16383). Qed.

(** Encodings 0, which the code passes for strings, and the exact one give the same header. *)
Lemma entry_encoding_str n : entry_encoding (str_encoding n) n = entry_encoding 0 n.
Proof. unfold entry_encoding. by rewrite str_encoding_is_str. Qed.

Lemma zipIntSize_spec n : exists k, zipIntSize (int_encoding n) = Some k /\ Z.of_nat (length (zdata (ZInt n))) = k /\
  is_Some (integer_bytes n (int_encoding n)).
Proof.
  cbn [zdata]. int_cases n; try (eexists; split; [reflexivity|]; split; [|eexists; reflexivity];
    cbn [integer_bytes Z.eqb Pos.eqb default]; try rewrite length_drop; by rewrite ?length_le_encode).
  assert (E : 0 <= n < 13) by lia.
  assert (G : forall x, 0 <= x < 13 -> match zipIntSize (241 + x), integer_bytes 0 (241 + x) with Some 0, Some [] => true | _, _ => false end = true)
    by (apply (check_range 13); vm_compute; reflexivity).
  specialize (G n E). exists 0. unfold integer_bytes in G |- *. unfold ZIP_INT_8B, ZIP_INT_16B, ZIP_INT_24B, ZIP_INT_32B, ZIP_INT_64B, ZIP_INT_IMM_MIN, ZIP_INT_IMM_MAX in *.
  rewrite !(proj2 (Z.eqb_neq (241 + n) _)) in G |- * by lia. rewrite (proj2 (Z.leb_le 241 _)), (proj2 (Z.leb_le _ 253)) in G |- * by lia. cbn [andb] in G |- *.
  destruct (zipIntSize (241 + n)) as [[| |]|]; try done.
Qed.

Lemma decode_head_int n : ZIP_ENTRY_ENCODING (int_encoding n) = int_encoding n.
Proof. unfold ZIP_ENTRY_ENCODING, ZIP_STR_MASK. pose proof (int_encoding_range n). by rewrite (proj2 (Z.ltb_ge _ _)) by lia. Qed.

Lemma shiftr_byte n k : 0 <= k -> Z.land (Z.shiftr n k) 255 = n / 2 ^ k mod 256.
Proof. intros Hk. by rewrite land_255, Z.shiftr_div_pow2. Qed.

(** ** Decoding *)

Lemma decode_length A v B : zval_ok v ->
  ZIP_DECODE_LENGTH (A ++ zbytes v ++ B) (Z.of_nat (length A)) =
  Some (zenc v, Z.of_nat (length (zhead v)), Z.of_nat (length (zdata v))).
Proof.
  intros Hv. unfold ZIP_DECODE_LENGTH, zbytes, zhead. rewrite rd1_app0. destruct v as [s|n]; cbn [zenc text zdata].
  - destruct Hv as [_ Hl]. set (n := Z.of_nat (length s)) in *. rewrite entry_encoding_str. unfold entry_encoding, str_encoding. change (ZIP_IS_STR 0) with true. cbv iota.
    destruct (Z.leb_spec n 63) as [H1|H1]; [|destruct (Z.leb_spec n 16383) as [H2|H2]].
    + cbn [app head]. mred. change (Z.lor ZIP_STR_06B n) with n.
      assert (G : forall x, 0 <= x < 64 -> (ZIP_ENTRY_ENCODING x =? 0) && (Z.land x 63 =? x) = true) by (apply (check_range 64); vm_compute; reflexivity).
      specialize (G n ltac:(lia)). zbool. rewrite H, H0. done.
    + cbn [app head]. mred. set (x := Z.shiftr n 8). assert (Hx : 0 <= x < 64) by (unfold x; rewrite Z.shiftr_div_pow2 by lia; change (2 ^ 8) with 256; zlia).
      assert (G : forall x, 0 <= x < 64 -> (ZIP_ENTRY_ENCODING (Z.lor ZIP_STR_14B (Z.land x 63)) =? 64) && (Z.land (Z.lor ZIP_STR_14B (Z.land x 63)) 63 =? x) = true)
        by (apply (check_range 64); vm_compute; reflexivity).
      specialize (G x Hx). zbool. rewrite H. cbn [Z.ltb Z.compare Pos.compare Pos.compare_cont ZIP_STR_MASK Z.eqb Pos.eqb ZIP_STR_06B ZIP_STR_14B].
      rewrite rd1_appp. change (Pos.to_nat 1) with 1%nat. cbn [lookup list_lookup]. mred. rewrite H0.
      rewrite Z.lor_comm, lor_shiftl by (rewrite ?land_255; try (pow2; zlia); lia). rewrite land_255. unfold x. rewrite Z.shiftr_div_pow2 by lia.
      cbn [length]. do 2 f_equal. change (2 ^ 8) with 256. zlia.
    + cbn [app head]. mred. change (ZIP_ENTRY_ENCODING ZIP_STR_32B) with 128. cbn [Z.ltb Z.compare Pos.compare Pos.compare_cont ZIP_STR_MASK Z.eqb Pos.eqb ZIP_STR_06B ZIP_STR_14B ZIP_STR_32B].
      rewrite !rd1_appp. change (Pos.to_nat 1) with 1%nat. change (Pos.to_nat 2) with 2%nat. change (Pos.to_nat 3) with 3%nat. change (Pos.to_nat 4) with 4%nat.
      cbn [lookup list_lookup]. mred. rewrite !shiftr_byte, land_255 by lia.
      rewrite <-!Z.lor_assoc. rewrite (Z.lor_comm (Z.shiftl _ 8)), lor_shiftl by (pow2; zlia).
      rewrite (Z.lor_comm (Z.shiftl _ 16)), lor_shiftl by (pow2; zlia). rewrite (Z.lor_comm (Z.shiftl _ 24)), lor_shiftl by (change (2 ^ 24) with 16777216; pow2; zlia).
      cbn [length]. assert (E : n mod 256 + n / 2 ^ 8 mod 256 * 2 ^ 8 + n / 2 ^ 16 mod 256 * 2 ^ 16 + n / 2 ^ 24 mod 256 * 2 ^ 24 = n)
        by (change (2 ^ 24) with 16777216; pow2; zlia).
      rewrite E, wrapu_small by lia. done.
  - unfold entry_encoding. rewrite int_encoding_not_str. cbn [app head]. mred. rewrite decode_head_int.
    pose proof (int_encoding_range n). rewrite (proj2 (Z.ltb_ge _ _)) by (unfold ZIP_STR_MASK; lia).
    destruct (zipIntSize_spec n) as (k & -> & <- & _). done.
Qed.

Lemma load_mid n A bs B off : off = Z.of_nat (length A) -> n = Z.of_nat (length bs) -> load n (A ++ bs ++ B) off = Some (le_decode bs).
Proof. intros -> ->. unfold load. by rewrite rd_mid. Qed.

Lemma load_signed (k : nat) A n B : (0 < k)%nat -> - 2 ^ (8 * Z.of_nat k - 1) <= n < 2 ^ (8 * Z.of_nat k - 1) ->
  (v ← load (Z.of_nat k) (A ++ le_encode k n ++ B) (Z.of_nat (length A)); Some (wraps (8 * Z.of_nat k) v)) = Some n.
Proof.
  intros Hk Hn. rewrite load_mid by (rewrite ?length_le_encode; done). mred. by rewrite le_decode_signed.
Qed.

(** The 24-bit encoding: the three high bytes of a shifted 32-bit integer. *)
Lemma load_24 n : INT24_MIN <= n <= INT24_MAX -> Z.shiftr (s32 (le_decode (0 :: drop 1 (le_encode 4 (s32 (Z.shiftl n 8)))))) 8 = n.
Proof.
  unfold INT24_MIN, INT24_MAX. intros Hn. rewrite Z.shiftl_mul_pow2 by lia.
  rewrite (wraps_small 32 (n * 2 ^ 8)) by (pow2; lia).
  assert (E : 0 :: drop 1 (le_encode 4 (n * 2 ^ 8)) = le_encode 4 (n * 2 ^ 8)).
  { cbn [le_encode drop]. f_equal. change (2 ^ 8) with 256. by rewrite Z.mod_mul. }
  rewrite E. change 32 with (8 * Z.of_nat 4). rewrite le_decode_signed by (cbn; lia || (change (8 * Z.of_nat 4 - 1) with 31; pow2; change (2 ^ 31) with 2147483648; lia)).
  rewrite Z.shiftr_div_pow2 by lia. by rewrite Z.div_mul by done.
Qed.

Lemma load_integer A n B : LLONG_MIN <= n <= LLONG_MAX ->
  zipLoadInteger (A ++ zdata (ZInt n) ++ B) (Z.of_nat (length A)) (int_encoding n) = Some n.
Proof.
  intros Hn. unfold zipLoadInteger, zdata. int_cases n; cbn [integer_bytes Z.eqb Pos.eqb default].
  - assert (E : 0 <= n < 13) by lia. rewrite !(proj2 (Z.eqb_neq (241 + n) _)) by lia. unfold ZIP_INT_IMM_MAX. rewrite (proj2 (Z.leb_le 241 _)), (proj2 (Z.leb_le _ 253)) by lia. cbn [andb].
    assert (G : forall x, 0 <= x < 13 -> (Z.land (241 + x) ZIP_INT_IMM_MASK - 1 =? x) = true) by (apply (check_range 13); vm_compute; reflexivity).
    specialize (G n E). zbool. by rewrite G.
  - apply (load_signed 1); [lia|]. change (2 ^ (8 * Z.of_nat 1 - 1)) with 128. lia.
  - apply (load_signed 2); [lia|]. change (2 ^ (8 * Z.of_nat 2 - 1)) with 32768. lia.
  - rewrite rd_mid by (rewrite ?length_drop, ?length_le_encode; done). mred. f_equal. apply load_24. unfold INT24_MIN, INT24_MAX. lia.
  - apply (load_signed 4); [lia|]. change (2 ^ (8 * Z.of_nat 4 - 1)) with 2147483648. lia.
  - apply (load_signed 8); [lia|]. change (2 ^ (8 * Z.of_nat 8 - 1)) with 9223372036854775808. lia.
Qed.

(** ** Entries *)

(** The length of the previous entry, in one byte or in five. *)
Definition plen (big : bool) (prev : Z) : list Z := if big then prevlen_large prev else [prev].
Definition plen_ok (big : bool) (prev : Z) : Prop := 0 <= prev < 2 ^ 32 /\ (ZIP_BIG_PREVLEN <= prev -> big = true).
Definition plen_size (big : bool) : Z := if big then 5 else 1.

Lemma plen_length big prev : Z.of_nat (length (plen big prev)) = plen_size big.
Proof. by destruct big. Qed.

(** An entry: the size of its first field and its value. *)
Abbreviation entry := (bool * zval)%type.
Definition ebytes (prev : Z) (e : entry) : list Z := plen e.1 prev ++ zbytes e.2.
Definition raw (e : entry) : Z := plen_size e.1 + Z.of_nat (length (zbytes e.2)).

Lemma ebytes_length prev e : Z.of_nat (length (ebytes prev e)) = raw e.
Proof. unfold ebytes, raw. rewrite length_app, Nat2Z.inj_add, plen_length. done. Qed.

Lemma zhead_length v : 1 <= Z.of_nat (length (zhead v)) <= 5.
Proof. unfold zhead, entry_encoding. repeat destruct (_ <=? _); destruct (ZIP_IS_STR _); cbn; lia. Qed.

Lemma raw_ge e : 2 <= raw e.
Proof. unfold raw, zbytes, plen_size. rewrite length_app. pose proof (zhead_length e.2). destruct e.1; lia. Qed.

Lemma decode_prevlen A big prev B : plen_ok big prev ->
  ZIP_DECODE_PREVLEN (A ++ plen big prev ++ B) (Z.of_nat (length A)) = Some (plen_size big, prev).
Proof.
  intros [Hr Hb]. unfold ZIP_DECODE_PREVLEN, ZIP_DECODE_PREVLENSIZE. rewrite rd1_app0. destruct big; cbn [plen prevlen_large app head]; mred.
  - change (ZIP_BIG_PREVLEN <? ZIP_BIG_PREVLEN) with false. cbn [Z.eqb Pos.eqb].
    change (A ++ ZIP_BIG_PREVLEN :: le_encode 4 prev ++ B) with (A ++ [ZIP_BIG_PREVLEN] ++ le_encode 4 prev ++ B).
    rewrite app_assoc, load_mid by (rewrite ?length_app, ?length_le_encode; cbn; lia). mred.
    rewrite le_decode_encode, Z.mod_small by (change (8 * Z.of_nat 4) with 32; done). done.
  - rewrite (proj2 (Z.ltb_lt prev ZIP_BIG_PREVLEN)) by (destruct (Z.lt_ge_cases prev ZIP_BIG_PREVLEN) as [|H]; [done|discriminate (Hb H)]). done.
Qed.

Lemma decode_prevlensize A big prev B : plen_ok big prev ->
  ZIP_DECODE_PREVLENSIZE (A ++ plen big prev ++ B) (Z.of_nat (length A)) = Some (plen_size big).
Proof.
  intros [Hr Hb]. unfold ZIP_DECODE_PREVLENSIZE. rewrite rd1_app0. destruct big; cbn [plen prevlen_large app head]; mred; [done|].
  rewrite (proj2 (Z.ltb_lt prev ZIP_BIG_PREVLEN)) by (destruct (Z.lt_ge_cases prev ZIP_BIG_PREVLEN) as [|H]; [done|discriminate (Hb H)]). done.
Qed.

(** The first byte of an entry is not the end mark. *)
Lemma first_byte A prev e B : plen_ok e.1 prev -> exists b, rd1 (A ++ ebytes prev e ++ B) (Z.of_nat (length A)) = Some b /\ (b =? ZIP_END) = false.
Proof.
  intros [Hr Hb]. rewrite rd1_app0. unfold ebytes. destruct (e.1); cbn [plen prevlen_large app head]; eexists; (split; [done|]); [done|].
  apply Z.eqb_neq. intros ->. by discriminate Hb.
Qed.

Lemma end_byte A B : rd1 (A ++ ZIP_END :: B) (Z.of_nat (length A)) = Some ZIP_END.
Proof. by rewrite rd1_app0. Qed.

Lemma zip_entry A prev e B : plen_ok e.1 prev -> zval_ok e.2 ->
  zipEntry (A ++ ebytes prev e ++ B) (Z.of_nat (length A)) =
  Some (Zlentry (plen_size e.1) prev (Z.of_nat (length (zhead e.2))) (Z.of_nat (length (zdata e.2)))
          (plen_size e.1 + Z.of_nat (length (zhead e.2))) (zenc e.2) (Z.of_nat (length A))).
Proof.
  intros Hp Hv. unfold zipEntry, ebytes. rewrite <-app_assoc, decode_prevlen by done. mred.
  rewrite app_assoc. replace (Z.of_nat (length A) + plen_size e.1) with (Z.of_nat (length (A ++ plen e.1 prev)))
    by (rewrite length_app, Nat2Z.inj_add, plen_length; done).
  rewrite decode_length by done. mred. done.
Qed.

Lemma raw_entry_length A prev e B : plen_ok e.1 prev -> zval_ok e.2 ->
  zipRawEntryLength (A ++ ebytes prev e ++ B) (Z.of_nat (length A)) = Some (raw e).
Proof.
  intros Hp Hv. unfold zipRawEntryLength, ebytes. rewrite <-app_assoc, decode_prevlensize by done. mred.
  rewrite app_assoc. replace (Z.of_nat (length A) + plen_size e.1) with (Z.of_nat (length (A ++ plen e.1 prev)))
    by (rewrite length_app, Nat2Z.inj_add, plen_length; done).
  rewrite decode_length by done. mred. f_equal. unfold raw, zbytes. rewrite length_app. lia.
Qed.

(** ** The layout *)

Definition hdr (bytes tail n : Z) : list Z := le_encode 4 bytes ++ le_encode 4 tail ++ le_encode 2 n.

Fixpoint body (prev : Z) (es : list entry) : list Z :=
  match es with [] => [] | e :: es => ebytes prev e ++ body (raw e) es end.

(** Every entry stores the length of the one before it. *)
Fixpoint chain (prev : Z) (es : list entry) : Prop :=
  match es with [] => True | e :: es => plen_ok e.1 prev /\ zval_ok e.2 /\ chain (raw e) es end.

Definition lastraw (prev : Z) (es : list entry) : Z := foldl (fun _ e => raw e) prev es.
Definition esize (es : list entry) : Z := foldr (fun e n => raw e + n) 0 es.

(** The offset of the last entry, for entries from [o] on; [d] when there is none. *)
Fixpoint toff (o d : Z) (es : list entry) : Z :=
  match es with [] => d | e :: es => toff (o + raw e) o es end.

Lemma hdr_length b t n : length (hdr b t n) = 10%nat.
Proof. unfold hdr. by rewrite !length_app, !length_le_encode. Qed.

Lemma le4_decode x : 0 <= x < 2 ^ 32 -> le_decode (le_encode 4 x) = x.
Proof. intros. rewrite le_decode_encode. by apply Z.mod_small. Qed.

Lemma get_bytes b t n X : 0 <= b < 2 ^ 32 -> ZIPLIST_BYTES (hdr b t n ++ X) = Some b.
Proof.
  intros Hb. unfold ZIPLIST_BYTES, hdr. rewrite <-!app_assoc.
  pose proof (load_mid 4 [] (le_encode 4 b) (le_encode 4 t ++ le_encode 2 n ++ X) 0 eq_refl eq_refl) as E. cbn [app] in E. by rewrite E, le4_decode.
Qed.

Lemma get_tail b t n X : 0 <= t < 2 ^ 32 -> ZIPLIST_TAIL_OFFSET (hdr b t n ++ X) = Some t.
Proof.
  intros Hb. unfold ZIPLIST_TAIL_OFFSET, hdr. rewrite <-!app_assoc. rewrite load_mid by (rewrite ?length_le_encode; done). by rewrite le4_decode.
Qed.

Lemma get_length b t n X : 0 <= n < 2 ^ 16 -> ZIPLIST_LENGTH (hdr b t n ++ X) = Some n.
Proof.
  intros Hn. unfold ZIPLIST_LENGTH, hdr. rewrite <-!app_assoc, (app_assoc (le_encode 4 b)).
  rewrite load_mid by (rewrite ?length_app, ?length_le_encode; done). rewrite le_decode_encode. f_equal. by apply Z.mod_small.
Qed.

Lemma put_bytes b t n X b' : set_bytes (hdr b t n ++ X) b' = Some (hdr b' t n ++ X).
Proof. unfold set_bytes, hdr. rewrite <-!app_assoc. exact (wr_mid [] (le_encode 4 b) (le_encode 4 b') _ 0 eq_refl eq_refl). Qed.

Lemma put_tail b t n X t' : set_tail_offset (hdr b t n ++ X) t' = Some (hdr b t' n ++ X).
Proof. unfold set_tail_offset, hdr. rewrite <-!app_assoc. rewrite wr_mid by (rewrite ?length_le_encode; done). done. Qed.

Lemma put_length b t n X n' : set_length (hdr b t n ++ X) n' = Some (hdr b t n' ++ X).
Proof.
  unfold set_length, hdr. rewrite <-!app_assoc, (app_assoc (le_encode 4 b)). rewrite wr_mid by (rewrite ?length_app, ?length_le_encode; done).
  by rewrite <-!app_assoc.
Qed.

Lemma resize_spec fill b t n Y L : 11 <= L ->
  ziplistResize fill (hdr b t n ++ Y) L =
  Some (hdr L t n ++ take (Z.to_nat (L - 11)) (Y ++ replicate (Z.to_nat L - 10 - length Y) fill) ++ [ZIP_END]).
Proof.
  intros HL. unfold ziplistResize, zrealloc. rewrite length_app, hdr_length, take_app_ge by (rewrite hdr_length; lia). rewrite hdr_length, <-app_assoc.
  rewrite put_bytes. mred. replace (Z.to_nat L - (10 + length Y))%nat with (Z.to_nat L - 10 - length Y)%nat by lia.
  set (M := take (Z.to_nat L - 10) Y ++ replicate (Z.to_nat L - 10 - length Y) fill).
  assert (EM : M = take (Z.to_nat L - 10) (Y ++ replicate (Z.to_nat L - 10 - length Y) fill)).
  { unfold M. rewrite take_app. f_equal. symmetry. apply take_ge. by rewrite length_replicate. }
  assert (LM : length M = (Z.to_nat L - 10)%nat) by (rewrite EM, length_take, length_app, length_replicate; lia).
  pose proof (wr_mid (hdr L t n ++ take (Z.to_nat (L - 11)) M) (drop (Z.to_nat (L - 11)) M) [ZIP_END] [] (L - 1)) as E.
  rewrite !app_nil_r, <-!app_assoc, take_drop in E.
  rewrite E by (rewrite ?length_app, ?hdr_length, ?length_drop, ?length_take, ?LM; cbn; lia).
  do 3 f_equal. rewrite EM, take_take. f_equal. lia.
Qed.
