(* ===== verification/ZiplistOps.v ===== *)
(** * ziplist.c: the operations refine those of a list of strings *)

From stdpp Require Import list.
From S2P Require Import Prelude Util Bits Ziplist ZiplistRep.

(** ** Storing the length of the previous entry *)

Definition needs_big (len : Z) : bool := ZIP_BIG_PREVLEN <=? len.

Lemma prevlen_size_spec len : prevlen_size len = plen_size (needs_big len).
Proof. unfold prevlen_size, needs_big. rewrite Z.leb_antisym. by destruct (len <? ZIP_BIG_PREVLEN). Qed.

Lemma plen_ok_needs len : 0 <= len < 2 ^ 32 -> plen_ok (needs_big len) len.
Proof. intros H. split; [done|]. unfold needs_big. intros. by apply Z.leb_le. Qed.

Lemma store_prevlen A X B len off : off = Z.of_nat (length A) -> Z.of_nat (length X) = prevlen_size len ->
  zipStorePrevEntryLength (A ++ X ++ B) off len = Some (A ++ plen (needs_big len) len ++ B, prevlen_size len).
Proof.
  intros -> HX. unfold zipStorePrevEntryLength, zipStorePrevEntryLengthLarge, prevlen_size, needs_big in *. rewrite Z.leb_antisym.
  destruct (len <? ZIP_BIG_PREVLEN); cbn [negb plen]; (rewrite wr_mid; [done|done|]); cbn; lia.
Qed.

Lemma store_prevlen_large A X B len off : off = Z.of_nat (length A) -> Z.of_nat (length X) = 5 ->
  zipStorePrevEntryLengthLarge (A ++ X ++ B) off len = Some (A ++ plen true len ++ B, 5).
Proof. intros -> HX. unfold zipStorePrevEntryLengthLarge. rewrite wr_mid; [done|done|cbn; lia]. Qed.

(** Moving the rest of a block: what was at [src] is at [dst], the bytes before are kept. *)
Lemma memmove_mid A X R Y A' X' Y' dst src n :
  A ++ X ++ R ++ Y = A' ++ X' ++ Y' -> length X' = length R ->
  src = Z.of_nat (length (A ++ X)) -> dst = Z.of_nat (length A') -> n = Z.of_nat (length R) ->
  memmove (A ++ X ++ R ++ Y) dst src n = Some (A' ++ R ++ Y').
Proof.
  intros E HX -> -> ->. unfold memmove. rewrite app_assoc, rd_mid by done. mred. rewrite <-app_assoc, E. by apply wr_mid.
Qed.

(** ** The cascade *)

Lemma toff_shift o d d' k es : es <> [] -> toff (o + k) d es = toff o d' es + k.
Proof.
  destruct es as [|e es]; [done|]. intros _. cbn [toff]. clear d d'. revert o e. induction es as [|e' es IH]; intros o e; cbn [toff]; [done|].
  rewrite <-IH. f_equal; lia.
Qed.

Lemma toff_ge o d es : es <> [] -> o <= toff o d es.
Proof.
  destruct es as [|e es]; [done|]. intros _. revert o d e. induction es as [|e' es IH]; intros o d e; cbn [toff]; [lia|].
  pose proof (IH (o + raw e) o e'). pose proof (raw_ge e). cbn [toff] in *. lia.
Qed.

Lemma body_length prev es : Z.of_nat (length (body prev es)) = esize es.
Proof.
  revert prev. induction es as [|e es IH]; intros prev; cbn [body esize foldr]; [done|]. rewrite length_app, Nat2Z.inj_add, ebytes_length, IH. done.
Qed.

Lemma esize_cons e es : esize (e :: es) = raw e + esize es.
Proof. done. Qed.

Lemma esize_nonneg es : 2 * Z.of_nat (length es) <= esize es.
Proof. induction es as [|e es IH]; cbn [esize foldr length]; [lia|]. pose proof (raw_ge e). unfold esize in IH. lia. Qed.

Lemma toff_lt o d es : es <> [] -> toff o d es < o + esize es.
Proof.
  destruct es as [|e es]; [done|]. intros _. revert o d e. induction es as [|e' es IH]; intros o d e; cbn [toff esize foldr].
  - pose proof (raw_ge e). lia.
  - pose proof (IH (o + raw e) o e'). cbn [toff esize foldr] in *. lia.
Qed.

(** The block with the entries [es] after the bytes [A] of entries before. *)
Definition block (t n : Z) (A : list Z) (prev : Z) (es : list entry) : list Z :=
  hdr (11 + Z.of_nat (length A) + esize es) t n ++ A ++ body prev es ++ [ZIP_END].

Lemma block_length t n A prev es : Z.of_nat (length (block t n A prev es)) = 11 + Z.of_nat (length A) + esize es.
Proof. unfold block. rewrite !length_app, hdr_length. cbn [length]. pose proof (body_length prev es). lia. Qed.

Lemma block_cons t n A prev e es : block t n A prev (e :: es) = block t n (A ++ ebytes prev e) (raw e) es.
Proof.
  unfold block. cbn [body]. rewrite length_app, Nat2Z.inj_add, ebytes_length, <-!app_assoc. f_equal. f_equal. cbn [esize foldr]. unfold esize. lia.
Qed.

Lemma block_entry t n A prev e es : block t n A prev (e :: es) =
  (hdr (11 + Z.of_nat (length A) + esize (e :: es)) t n ++ A) ++ ebytes prev e ++ body (raw e) es ++ [ZIP_END].
Proof. unfold block. cbn [body]. by rewrite <-!app_assoc. Qed.

(** Same values. *)
Definition same_vals (es es' : list entry) : Prop := es'.*2 = es.*2.

Lemma same_vals_size es es' : same_vals es es' -> esize es' <= esize es + 4 * Z.of_nat (length es) /\ length es' = length es.
Proof.
  unfold same_vals. revert es'. induction es as [|e es IH]; intros [|e' es'] E; try done; try (cbn; lia). cbn in E. injection E as E1 E2.
  destruct (IH es' E2) as [H1 H2]. cbn [esize foldr length]. fold (esize es) (esize es'). rewrite H2. unfold raw. rewrite E1.
  destruct (e.1), (e'.1); cbn [plen_size]; lia.
Qed.

(** Growing the first field of the next entry. *)
Lemma grow_step fill t n A r0 q v es :
  11 + Z.of_nat (length A) + esize ((false, v) :: es) + 4 < 2 ^ 32 ->
  0 <= t < 2 ^ 32 -> 0 <= t + 4 < 2 ^ 32 -> 254 <= r0 < 2 ^ 32 ->
  let curlen := 11 + Z.of_nat (length A) + esize ((false, v) :: es) in
  let np := 10 + Z.of_nat (length A) in
  (zl ← ziplistResize fill (block t n A q ((false, v) :: es)) (curlen + 4);
   tail ← ZIPLIST_TAIL_OFFSET zl;
   zl ← (if negb (tail =? np) then set_tail_offset zl (u32 (tail + 4)) else Some zl);
   zl ← memmove zl (np + 5) (np + 1) (curlen - np - 1 - 1);
   '(zl, _) ← zipStorePrevEntryLength zl np r0; Some zl) =
  Some (hdr (curlen + 4) (if t =? np then t else t + 4) n ++ A ++ ebytes r0 (true, v) ++ body (raw (false, v)) es ++ [ZIP_END]).
Proof.
  intros Hc Ht Ht4 Hr curlen np. set (R := zbytes v ++ body (raw (false, v)) es). set (t' := if t =? np then t else t + 4).
  assert (ER : Z.of_nat (length R) = curlen - np - 1 - 1).
  { unfold R, curlen, np. rewrite length_app, Nat2Z.inj_add, body_length, esize_cons. unfold raw. cbn [fst snd plen_size]. lia. }
  assert (EB : block t n A q ((false, v) :: es) = hdr curlen t n ++ A ++ [q] ++ R ++ [ZIP_END]).
  { unfold block. cbn [body ebytes plen fst snd]. unfold R. by rewrite <-!app_assoc. }
  rewrite EB, resize_spec by (unfold curlen; pose proof (esize_nonneg ((false, v) :: es)); lia). mred.
  set (M := [q] ++ R ++ [ZIP_END] ++ replicate 3 fill).
  assert (EM : take (Z.to_nat (curlen + 4 - 11)) ((A ++ [q] ++ R ++ [ZIP_END]) ++
     replicate (Z.to_nat (curlen + 4) - 10 - length (A ++ [q] ++ R ++ [ZIP_END])) fill) = A ++ M).
  { assert (Hl : length (A ++ [q] ++ R ++ [ZIP_END]) = Z.to_nat (curlen - 10)).
    { rewrite !length_app. cbn [length]. unfold np in ER. lia. }
    rewrite Hl. replace (Z.to_nat (curlen + 4) - 10 - Z.to_nat (curlen - 10))%nat with 4%nat by (unfold curlen; pose proof (esize_nonneg ((false, v) :: es)); lia).
    change (replicate 4 fill) with (replicate 3 fill ++ [fill]). rewrite app_assoc, take_app_le.
    - rewrite take_ge; [unfold M; by rewrite <-!app_assoc|]. rewrite length_app, Hl. cbn [length replicate]. lia.
    - rewrite length_app, Hl. cbn [length replicate]. unfold curlen; pose proof (esize_nonneg ((false, v) :: es)); lia. }
  rewrite EM, get_tail by done. mred.
  assert (ES : (if negb (t =? np) then set_tail_offset (hdr (curlen + 4) t n ++ (A ++ M) ++ [ZIP_END]) (u32 (t + 4))
                else Some (hdr (curlen + 4) t n ++ (A ++ M) ++ [ZIP_END])) = Some (hdr (curlen + 4) t' n ++ (A ++ M) ++ [ZIP_END])).
  { unfold t'. destruct (t =? np); cbn [negb]; [done|]. by rewrite put_tail, wrapu_small. }
  rewrite ES. mred. unfold M. set (h := hdr (curlen + 4) t' n). rewrite <-!app_assoc. rewrite (app_assoc h A).
  assert (Hh : Z.of_nat (length (h ++ A)) = np) by (rewrite length_app; unfold h; rewrite hdr_length; unfold np; lia).
  set (M5 := [q] ++ R ++ [ZIP_END] ++ replicate 3 fill) in *.
  assert (LM5 : length M5 = (5 + length R)%nat) by (unfold M5; rewrite !length_app; cbn [length replicate]; lia).
  rewrite (memmove_mid (h ++ A) [q] R ([ZIP_END] ++ replicate 3 fill ++ [ZIP_END]) ((h ++ A) ++ take 5 M5) (drop 5 M5) [ZIP_END]).
  2: { rewrite <-(app_assoc (h ++ A)). f_equal. rewrite (app_assoc (take 5 M5)), take_drop. unfold M5. by rewrite <-!app_assoc. }
  2: { rewrite length_drop, LM5. lia. }
  2: { rewrite length_app. cbn [length]. lia. }
  2: { rewrite length_app, length_take, LM5. lia. }
  2: { lia. }
  mred. rewrite <-(app_assoc (h ++ A)). rewrite store_prevlen; [|lia|rewrite length_take, LM5; unfold prevlen_size, ZIP_BIG_PREVLEN; rewrite (proj2 (Z.ltb_ge r0 254)) by lia; lia].
  mred. unfold needs_big, ZIP_BIG_PREVLEN. rewrite (proj2 (Z.leb_le 254 r0)) by lia. unfold ebytes, R. cbn [fst snd]. by rewrite <-!app_assoc.
Qed.

(** The offset of the last entry after the entry at [o] has grown by four bytes. *)
Lemma grow_tail o t v1 es : t = toff o t ((false, v1) :: es) -> 0 <= t < 2 ^ 32 - 4 ->
  let t1 := if t =? o then t else t + 4 in
  t1 = toff (o + raw (true, v1)) t1 es /\ 0 <= t1 < 2 ^ 32 /\ toff (o + raw (true, v1)) t1 es = toff (o + raw (true, v1)) o es.
Proof.
  intros Ht Htlt t1. split_and!.
  - unfold t1. cbn [toff] in Ht. destruct es as [|e2 es]; [cbn [toff]; done|]. rewrite (proj2 (Z.eqb_neq t o)).
    + replace (o + raw (true, v1)) with (o + raw (false, v1) + 4) by (unfold raw; cbn; lia). rewrite (toff_shift _ _ o) by done. rewrite <-Ht. done.
    + rewrite Ht. pose proof (toff_ge (o + raw (false, v1)) o (e2 :: es) ltac:(done)). pose proof (raw_ge (false, v1)). lia.
  - unfold t1. destruct (t =? o); lia.
  - unfold t1. destruct (t =? o); lia.
  - destruct es; [|done]. cbn [toff] in *. subst t. unfold t1. by rewrite Z.eqb_refl.
Qed.

(** Storing the length of the entry before in a field that is large enough. *)
Lemma store_fits hh q (e1 : entry) r rest : 0 <= r < 2 ^ 32 -> plen_size (needs_big r) <= plen_size e1.1 ->
  (if plen_size (needs_big r) <? plen_size e1.1
   then zipStorePrevEntryLengthLarge (hh ++ ebytes q e1 ++ rest) (Z.of_nat (length hh)) r
   else zipStorePrevEntryLength (hh ++ ebytes q e1 ++ rest) (Z.of_nat (length hh)) r) =
  Some (hh ++ ebytes r e1 ++ rest, plen_size e1.1).
Proof.
  intros Hr Hlt. unfold ebytes. rewrite <-!(app_assoc (plen _ _)). pose proof (plen_length e1.1 q) as Hl.
  destruct (Z.ltb_spec (plen_size (needs_big r)) (plen_size e1.1)) as [Hs|Hs].
  - destruct (e1.1) eqn:Eb; [|cbn in Hs; destruct (needs_big _); cbn in Hs; lia]. by rewrite store_prevlen_large.
  - assert (Ef : e1.1 = needs_big r) by (destruct (e1.1), (needs_big r); cbn in *; try lia; done).
    rewrite store_prevlen; [|done|by rewrite Hl, prevlen_size_spec, Ef]. by rewrite prevlen_size_spec, <-Ef.
Qed.

(** The state of the loop: [e0] is right, the entries after it are right among themselves, but the
    first of them may hold another length [q]. *)
Lemma cascade_spec fuel fill n : forall es A e0 r0 q t,
  let o := 10 + Z.of_nat (length A) + raw e0 in
  plen_ok e0.1 r0 -> zval_ok e0.2 -> chain q es -> raw e0 < 2 ^ 32 -> (length es < fuel)%nat ->
  o + 1 + esize es + 4 * Z.of_nat (length es) < 2 ^ 32 -> t = toff o t es -> 0 <= t < 2 ^ 32 ->
  exists es' t', cascade_loop fuel fill (block t n (A ++ ebytes r0 e0) q es) (10 + Z.of_nat (length A)) (o + 1 + esize es) =
    Some (block t' n (A ++ ebytes r0 e0) (raw e0) es') /\
    same_vals es es' /\ chain (raw e0) es' /\ t' = toff o t es'.
Proof.
  induction fuel as [|fuel IH]; intros es A e0 r0 q t o Hp Hv Hc Hr0 Hf Hlim Ht Htr; [lia|]. pose proof (raw_ge e0) as Hge.
  assert (EB : block t n (A ++ ebytes r0 e0) q es = (hdr (o + 1 + esize es) t n ++ A) ++ ebytes r0 e0 ++ body q es ++ [ZIP_END]).
  { unfold block. rewrite length_app, Nat2Z.inj_add, ebytes_length, <-!app_assoc. f_equal. f_equal. unfold o. lia. }
  assert (Hh : Z.of_nat (length (hdr (o + 1 + esize es) t n ++ A)) = 10 + Z.of_nat (length A)) by (rewrite length_app, hdr_length; lia).
  cbn [cascade_loop]. rewrite EB, <-Hh. destruct (first_byte (hdr (o + 1 + esize es) t n ++ A) r0 e0 (body q es ++ [ZIP_END]) Hp) as (b & Eb0 & Ee0). rewrite Eb0. mred. rewrite Ee0.
  rewrite zip_entry by done. mred. cbn [headersize len].
  replace (plen_size e0.1 + Z.of_nat (length (zhead e0.2)) + Z.of_nat (length (zdata e0.2))) with (raw e0) by (unfold raw, zbytes; rewrite length_app; lia).
  set (h := hdr (o + 1 + esize es) t n ++ A) in *.
  assert (Eo : Z.of_nat (length h) + raw e0 = Z.of_nat (length (h ++ ebytes r0 e0))) by (rewrite length_app, Nat2Z.inj_add, ebytes_length; done).
  rewrite Eo, app_assoc. destruct es as [|e1 es].
  { cbn [body app]. rewrite end_byte. mred. change (ZIP_END =? ZIP_END) with true. cbv iota.
    exists [], t. split; [|done]. f_equal. unfold block. cbn [body app]. unfold h. rewrite length_app, Nat2Z.inj_add, ebytes_length, <-!app_assoc. cbn [esize foldr].
    f_equal. f_equal. unfold o. lia. }
  cbn [chain] in Hc. destruct Hc as (Hp1 & Hv1 & Hc). cbn [body]. rewrite <-(app_assoc (ebytes q e1)).
  destruct (first_byte (h ++ ebytes r0 e0) q e1 (body (raw e1) es ++ [ZIP_END]) Hp1) as (b1 & Eb1 & Ee1). rewrite Eb1. mred. rewrite Ee1.
  rewrite zip_entry by done. mred. cbn [prevrawlen prevrawlensize].
  assert (Efin : forall x, (h ++ ebytes r0 e0) ++ ebytes x e1 ++ body (raw e1) es ++ [ZIP_END] = block t n (A ++ ebytes r0 e0) x (e1 :: es)).
  { intros x. unfold block, h. cbn [body]. rewrite length_app, Nat2Z.inj_add, ebytes_length, <-!app_assoc. f_equal. f_equal. unfold o. lia. }
  destruct (Z.eqb_spec q (raw e0)) as [->|Hq].
  { exists (e1 :: es), t. rewrite Efin. done. }
  rewrite prevlen_size_spec. destruct (Z.ltb_spec (plen_size e1.1) (plen_size (needs_big (raw e0)))) as [Hlt|Hlt].
  - destruct e1 as [b1' v1]. cbn [fst snd] in *. assert (b1' = false) as -> by (destruct b1'; [cbn in Hlt; destruct (needs_big _); cbn in Hlt; lia|done]).
    assert (Hbig : needs_big (raw e0) = true) by (destruct (needs_big _); [done|cbn in Hlt; lia]). rewrite Hbig. cbn [plen_size].
    assert (H254 : 254 <= raw e0) by (unfold needs_big, ZIP_BIG_PREVLEN in Hbig; lia). change (5 - 1) with 4.
    rewrite Efin. set (curlen := o + 1 + esize ((false, v1) :: es)) in *.
    assert (Ecur : curlen = 11 + Z.of_nat (length (A ++ ebytes r0 e0)) + esize ((false, v1) :: es)) by (unfold curlen, o; rewrite length_app, Nat2Z.inj_add, ebytes_length; lia).
    rewrite <-Eo, Hh. fold o.
    assert (Eoo : o = 10 + Z.of_nat (length (A ++ ebytes r0 e0))) by (unfold o; rewrite length_app, Nat2Z.inj_add, ebytes_length; lia).
    pose proof (esize_nonneg es) as Hes. unfold curlen in Hlim. rewrite esize_cons in Hlim. cbn [length] in Hlim. unfold raw at 1 in Hlim. cbn [fst snd plen_size] in Hlim.
    assert (Htlt : t < 2 ^ 32 - 4).
    { rewrite Ht. pose proof (toff_lt o t ((false, v1) :: es) ltac:(done)) as Hl. rewrite esize_cons in Hl. unfold raw at 1 in Hl. cbn [fst snd plen_size] in Hl. lia. }
    pose proof (grow_step fill t n (A ++ ebytes r0 e0) (raw e0) q v1 es) as G. cbv zeta in G. rewrite <-Ecur, <-Eoo in G.
    specialize (G ltac:(unfold curlen; rewrite esize_cons; unfold raw; cbn [fst snd plen_size]; lia) ltac:(lia) ltac:(lia) ltac:(lia)).
    set (t1 := if t =? o then t else t + 4) in *.
    pose proof (grow_tail o t v1 es Ht ltac:(lia)) as Et1. cbv zeta in Et1. fold t1 in Et1.
    destruct Et1 as (Et1 & Ht1 & Et1').
    destruct (ziplistResize fill _ _) as [zl1|] eqn:E1; cbn [mbind option_bind] in G; [|done]. mred.
    destruct (ZIPLIST_TAIL_OFFSET zl1) as [tl|] eqn:E2; cbn [mbind option_bind] in G; [|done]. mred.
    destruct (if negb (tl =? o) then _ else _) as [zl2|] eqn:E3; cbn [mbind option_bind] in G; [|done]. mred.
    destruct (memmove zl2 _ _ _) as [zl3|] eqn:E4; cbn [mbind option_bind] in G; [|done]. mred.
    destruct (zipStorePrevEntryLength zl3 _ _) as [[zl4 ?]|] eqn:E5; cbn [mbind option_bind] in G; [|done]. mred. apply (inj Some) in G. rewrite G. clear G E1 E2 E3 E4 E5.
    assert (E6 : hdr (curlen + 4) t1 n ++ (A ++ ebytes r0 e0) ++ ebytes (raw e0) (true, v1) ++ body (raw (false, v1)) es ++ [ZIP_END] =
                 block t1 n ((A ++ ebytes r0 e0) ++ ebytes (raw e0) (true, v1)) (raw (false, v1)) es).
    { unfold block. rewrite <-!app_assoc. f_equal. f_equal. rewrite !length_app, !Nat2Z.inj_add, !ebytes_length. unfold curlen, o. rewrite esize_cons.
      unfold raw at 2 4. cbn [fst snd plen_size]. lia. }
    rewrite E6. replace (curlen + 4) with (o + raw (true, v1) + 1 + esize es) by (rewrite Ecur, Eoo, esize_cons; unfold raw; cbn [fst snd plen_size]; lia).
    destruct (IH es (A ++ ebytes r0 e0) (true, v1) (raw e0) (raw (false, v1)) t1) as (es' & t' & EI & Sv & Ch & Et').
    { split; [lia|done]. } { done. } { done. }
    { unfold raw. cbn [fst snd plen_size]. lia. } { cbn [length] in Hf. lia. }
    { rewrite <-Eoo. unfold raw. cbn [fst snd plen_size]. lia. }
    { by rewrite <-Eoo. } { done. }
    rewrite <-Eoo in EI, Et'. rewrite EI. exists ((true, v1) :: es'), t'. split; [by rewrite block_cons|]. split; [unfold same_vals in *; cbn; by rewrite Sv|].
    split; [cbn [chain]; split_and!; [split; [lia|done]|done|done]|]. cbn [toff]. rewrite Et'.
    destruct es' as [|? ?]; [|done]. cbn [toff]. unfold same_vals in Sv. destruct es; [|done]. cbn [toff] in Et1'. done.
  - exists (e1 :: es), t. rewrite <-Efin. assert (G : plen_ok e1.1 (raw e0)).
    { split; [lia|]. intros Hb. destruct (e1.1); [done|]. unfold needs_big in Hlt. rewrite (proj2 (Z.leb_le _ _) Hb) in Hlt. cbn in Hlt. lia. }
    pose proof (store_fits (h ++ ebytes r0 e0) q e1 (raw e0) (body (raw e1) es ++ [ZIP_END]) ltac:(lia) ltac:(lia)) as Es.
    rewrite Es. mred. split; [by rewrite Efin|]. split; [done|]. split; [done|]. done.
Qed.

Lemma cascade_update fill n t A r0 e0 q es :
  let o := 10 + Z.of_nat (length A) + raw e0 in
  plen_ok e0.1 r0 -> zval_ok e0.2 -> chain q es ->
  o + 1 + esize es + 4 * Z.of_nat (length es) < 2 ^ 32 -> t = toff o t es -> 0 <= t < 2 ^ 32 ->
  exists es' t', ziplistCascadeUpdate fill (block t n (A ++ ebytes r0 e0) q es) (10 + Z.of_nat (length A)) =
    Some (block t' n (A ++ ebytes r0 e0) (raw e0) es') /\
    same_vals es es' /\ chain (raw e0) es' /\ t' = toff o t es'.
Proof.
  intros o Hp Hv Hc Hlim Ht Htr. pose proof (esize_nonneg es) as Hn. pose proof (raw_ge e0) as Hge. unfold ziplistCascadeUpdate.
  pose proof (block_length t n (A ++ ebytes r0 e0) q es) as Hl. rewrite length_app, Nat2Z.inj_add, ebytes_length in Hl.
  assert (Eb : ZIPLIST_BYTES (block t n (A ++ ebytes r0 e0) q es) = Some (o + 1 + esize es)).
  { unfold block. rewrite length_app, Nat2Z.inj_add, ebytes_length. rewrite get_bytes by (unfold o in *; lia). f_equal. unfold o. lia. }
  rewrite Eb. mred. apply cascade_spec; try done; unfold o in *; lia.
Qed.

(** ** The representation *)

Definition rep (zl : list Z) (n : Z) (es : list entry) : Prop :=
  zl = block (toff 10 10 es) n [] 0 es /\ chain 0 es /\ 11 + esize es < 2 ^ 32 /\
  0 <= n <= UINT16_MAX /\ (n < UINT16_MAX -> n = Z.of_nat (length es)).

Lemma body_app prev es1 es2 : body prev (es1 ++ es2) = body prev es1 ++ body (lastraw prev es1) es2.
Proof.
  revert prev. induction es1 as [|e es1 IH]; intros prev; [done|]. cbn [app body lastraw foldl]. rewrite IH, app_assoc. done.
Qed.

Lemma chain_app prev es1 es2 : chain prev (es1 ++ es2) <-> chain prev es1 /\ chain (lastraw prev es1) es2.
Proof.
  revert prev. induction es1 as [|e es1 IH]; intros prev; cbn [app chain lastraw foldl]; [tauto|]. rewrite IH. unfold lastraw. tauto.
Qed.

Lemma esize_app es1 es2 : esize (es1 ++ es2) = esize es1 + esize es2.
Proof. induction es1 as [|e es1 IH]; [done|]. cbn [app]. rewrite !esize_cons, IH. lia. Qed.

Lemma toff_app o d es1 es2 : toff o d (es1 ++ es2) = toff (o + esize es1) (toff o d es1) es2.
Proof.
  revert o d. induction es1 as [|e es1 IH]; intros o d; cbn [app toff]; [cbn; f_equal; lia|]. rewrite IH, esize_cons. f_equal. lia.
Qed.

(** A ziplist seen from one of its positions. *)
Lemma block_at t n es1 es2 : block t n [] 0 (es1 ++ es2) = block t n (body 0 es1) (lastraw 0 es1) es2.
Proof.
  unfold block. rewrite body_app, esize_app, <-(body_length 0 es1). cbn [length app]. rewrite <-!app_assoc. f_equal. f_equal. lia.
Qed.

Lemma lastraw_range es : chain 0 es -> 11 + esize es < 2 ^ 32 -> 0 <= lastraw 0 es < 2 ^ 32.
Proof.
  intros _ Hs. destruct es as [|e es _] using rev_ind; [cbn; lia|]. unfold lastraw. rewrite foldl_app. cbn [foldl].
  rewrite esize_app, esize_cons in Hs. pose proof (esize_nonneg es). pose proof (raw_ge e). change (esize []) with 0 in Hs. lia.
Qed.

Lemma zhead_str s : zhead (ZStr s) = entry_encoding 0 (Z.of_nat (length s)).
Proof. apply entry_encoding_str. Qed.

(** Writing an entry over bytes that are free. *)
Lemma write_entry Hd J X prev s : Z.of_nat (length s) < 2 ^ 32 ->
  let v := zval_of s in let e := (needs_big prev, v) in Z.of_nat (length J) = raw e ->
  let '(value, enc) := default (123456789, 0) (zipTryEncoding s) in
  ('(zl, n) ← zipStorePrevEntryLength (Hd ++ J ++ X) (Z.of_nat (length Hd)) prev;
   '(zl, n') ← zipStoreEntryEncoding zl (Z.of_nat (length Hd) + n) enc (Z.of_nat (length s));
   if ZIP_IS_STR enc then wr zl (Z.of_nat (length Hd) + n + n') s else zipSaveInteger zl (Z.of_nat (length Hd) + n + n') value enc) =
  Some (Hd ++ ebytes prev e ++ X).
Proof.
  intros Hs v e HJ. set (x := default (123456789, 0) (zipTryEncoding s)).
  assert (G : entry_encoding x.2 (Z.of_nat (length s)) = zhead v /\ ZIP_IS_STR x.2 = match v with ZStr _ => true | ZInt _ => false end /\
    match v with ZStr s' => s' = s | ZInt m => m = x.1 /\ x.2 = int_encoding m end).
  { unfold x, v, zval_of, zipTryEncoding. destruct (_ || _); [split; [symmetry; apply zhead_str|done]|].
    destruct (string2ll s) as [m|] eqn:Em; mred; [|split; [symmetry; apply zhead_str|done]].
    apply string2ll_sound in Em as [-> _]. cbn [default id fst snd]. fold (int_encoding m). by rewrite int_encoding_not_str. }
  destruct x as [value enc]. cbn [fst snd] in G. destruct G as (G1 & G2 & G3).
  rewrite <-(take_drop (Z.to_nat (plen_size (needs_big prev))) J), <-!app_assoc.
  assert (Hsz : raw e = plen_size (needs_big prev) + Z.of_nat (length (zhead v)) + Z.of_nat (length (zdata v))) by (unfold raw, e, zbytes; cbn [fst snd]; rewrite length_app; lia).
  assert (Hps : 1 <= plen_size (needs_big prev) <= 5) by (destruct (needs_big prev); cbn; lia).
  rewrite store_prevlen by (done || (rewrite length_take, prevlen_size_spec; lia)). mred. rewrite prevlen_size_spec.
  set (J1 := drop _ J). assert (LJ1 : Z.of_nat (length J1) = Z.of_nat (length (zhead v)) + Z.of_nat (length (zdata v))) by (unfold J1; rewrite length_drop; lia).
  rewrite <-(take_drop (length (zhead v)) J1), <-!app_assoc, (app_assoc Hd).
  assert (Hl : Z.of_nat (length (Hd ++ plen (needs_big prev) prev)) = Z.of_nat (length Hd) + plen_size (needs_big prev)) by (rewrite length_app, Nat2Z.inj_add, plen_length; done).
  unfold zipStoreEntryEncoding. rewrite G1, <-Hl. rewrite wr_mid by (done || (rewrite length_take; lia)). mred.
  rewrite (app_assoc (Hd ++ _)), G2. set (J2 := drop _ J1). assert (LJ2 : length J2 = length (zdata v)) by (unfold J2; rewrite length_drop; lia).
  assert (Hl2 : Z.of_nat (length (Hd ++ plen (needs_big prev) prev)) + Z.of_nat (length (zhead v)) = Z.of_nat (length ((Hd ++ plen (needs_big prev) prev) ++ zhead v)))
    by (rewrite (length_app (Hd ++ _)); lia).
  rewrite Hl2. assert (Ed : wr (((Hd ++ plen (needs_big prev) prev) ++ zhead v) ++ J2 ++ X) (Z.of_nat (length ((Hd ++ plen (needs_big prev) prev) ++ zhead v))) (zdata v) =
    Some (Hd ++ ebytes prev e ++ X)) by (rewrite wr_mid by done; unfold ebytes, e, zbytes; cbn [fst snd]; by rewrite <-!app_assoc).
  destruct v as [s'|m] eqn:Ev; cbn [zdata] in Ed.
  - subst s'. exact Ed.
  - destruct G3 as [-> ->]. unfold zipSaveInteger. destruct (zipIntSize_spec value) as (k & _ & _ & [bs Eb]). rewrite Eb in Ed |- *. mred. exact Ed.
Qed.

Lemma zval_of_ok s : Z.of_nat (length s) < 2 ^ 32 -> zval_ok (zval_of s).
Proof.
  intros Hs. unfold zval_of. destruct (zipTryEncoding s) as [[m enc]|] eqn:E; [|done]. unfold zipTryEncoding in E.
  destruct (_ || _); [done|]. destruct (string2ll s) as [m'|] eqn:Em; [|done]. cbn [mbind option_bind] in E. injection E as <- <-.
  apply string2ll_sound in Em as [_ Em]. exact Em.
Qed.

Lemma text_zval_of s : text (zval_of s) = s.
Proof.
  unfold zval_of. destruct (zipTryEncoding s) as [[m enc]|] eqn:E; [|done]. unfold zipTryEncoding in E.
  destruct (_ || _); [done|]. destruct (string2ll s) as [m'|] eqn:Em; [|done]. cbn [mbind option_bind] in E. injection E as <- <-.
  by apply string2ll_sound in Em as [-> _].
Qed.

(** The space an entry needs, as the code computes it. *)
Lemma reqlen_spec s prev : let '(_, enc) := default (123456789, 0) (zipTryEncoding s) in
  (reqlen ← (match zipTryEncoding s with Some _ => zipIntSize enc | None => Some (Z.of_nat (length s)) end);
   Some (reqlen + prevlen_size prev + Z.of_nat (length (entry_encoding enc (Z.of_nat (length s)))))) = Some (raw (needs_big prev, zval_of s)).
Proof.
  unfold raw, zbytes. cbn [fst snd]. rewrite length_app, prevlen_size_spec. unfold zval_of. destruct (zipTryEncoding s) as [[m enc]|] eqn:E; cbn [default id].
  - unfold zipTryEncoding in E. destruct (_ || _); [done|]. destruct (string2ll s) as [m'|] eqn:Em; [|done]. cbn [mbind option_bind] in E.
    injection E as <- <-. fold (int_encoding m'). destruct (zipIntSize_spec m') as (k & -> & Hk & _). mred. f_equal.
    apply string2ll_sound in Em as [-> _]. unfold zhead. cbn [zenc text]. lia.
  - mred. rewrite zhead_str. cbn [zdata]. f_equal. lia.
Qed.

(** Making room for an entry of [req] bytes: [k] bytes are kept for the first field of the next one. *)
Lemma shift_right Hd P R Q req k : (length P + length Q = req + k)%nat -> (k <= length Hd + length P)%nat ->
  memmove (Hd ++ P ++ R ++ Q ++ [ZIP_END]) (Z.of_nat (length Hd) + Z.of_nat req) (Z.of_nat (length Hd) + Z.of_nat (length P) - Z.of_nat k)
    (Z.of_nat k + Z.of_nat (length R)) =
  Some (Hd ++ take req (P ++ R ++ Q) ++ drop (length Hd + length P - k) (Hd ++ P) ++ R ++ [ZIP_END]).
Proof.
  intros HQ Hk. set (W := Hd ++ P). set (m := (length Hd + length P - k)%nat).
  assert (LW : length W = (length Hd + length P)%nat) by (unfold W; rewrite length_app; done).
  assert (E : Hd ++ P ++ R ++ Q ++ [ZIP_END] = take m W ++ [] ++ (drop m W ++ R) ++ Q ++ [ZIP_END]).
  { cbn [app]. rewrite <-app_assoc, (app_assoc (take m W)), take_drop. unfold W. by rewrite <-!app_assoc. }
  rewrite E. rewrite (memmove_mid (take m W) [] (drop m W ++ R) (Q ++ [ZIP_END]) (Hd ++ take req (P ++ R ++ Q)) (drop req (P ++ R ++ Q)) [ZIP_END]).
  - by rewrite <-!app_assoc.
  - rewrite <-E. rewrite <-(app_assoc Hd). f_equal. rewrite (app_assoc (take req _)), take_drop, <-!app_assoc. done.
  - rewrite length_drop, !length_app, length_drop, LW. lia.
  - rewrite app_nil_r, length_take, LW. lia.
  - rewrite length_app, length_take, !length_app. lia.
  - rewrite length_app, length_drop, LW. lia.
Qed.

(** The flag of the first field of the entry that follows an insertion of [req] bytes. *)
Definition next_big (big : bool) (req : Z) : bool := if big && (req <? 4) then true else needs_big req.
Definition next_diff (big : bool) (req : Z) : Z := plen_size (next_big big req) - plen_size big.

Lemma next_diff_spec big req : 2 <= req ->
  let d := plen_size (needs_big req) - plen_size big in
  let forcelarge := (d =? -4) && (req <? 4) in
  forcelarge = (big && (req <? 4)) /\ (if forcelarge then 0 else d) = next_diff big req /\ 0 <= req + next_diff big req.
Proof.
  intros Hr d fl. unfold next_diff, next_big, fl, d, needs_big, ZIP_BIG_PREVLEN.
  destruct big, (Z.ltb_spec req 4), (Z.leb_spec 254 req); cbn; try lia; split_and!; try done; lia.
Qed.

(** The block after the resize, the move and the store of the length in the next entry. *)
Lemma insert_shift fill t n A prev e2 es req :
  let p := 10 + Z.of_nat (length A) in
  let nd := next_diff e2.1 req in
  let b2 := next_big e2.1 req in
  let c := 11 + Z.of_nat (length A) + esize (e2 :: es) in
  let large := e2.1 && (req <? 4) in
  2 <= req < 2 ^ 32 -> plen_ok e2.1 prev -> 0 <= t < 2 ^ 32 ->
  exists J b, Z.of_nat (length J) = req /\
   ziplistResize fill (block t n A prev (e2 :: es)) (c + req + nd) = Some b /\ 
   (exists x, rd1 b p = Some x /\ (x =? ZIP_END) = false) /\
   (zl ← memmove b (p + req) (p - nd) (c - p - 1 + nd);
    if large then zipStorePrevEntryLengthLarge zl (p + req) req else zipStorePrevEntryLength zl (p + req) req) =
   Some (hdr (c + req + nd) t n ++ A ++ J ++ ebytes req (b2, e2.2) ++ body (raw e2) es ++ [ZIP_END], plen_size b2).
Proof.
  intros p nd b2 c large Hreq Hp Ht. set (P := plen e2.1 prev). set (R := zbytes e2.2 ++ body (raw e2) es).
  pose proof (plen_length e2.1 prev) as LP. fold P in LP. pose proof (next_diff_spec e2.1 req ltac:(lia)) as (_ & _ & Hnd). fold nd in Hnd.
  assert (Hps : 1 <= plen_size e2.1 <= 5 /\ 1 <= plen_size b2 <= 5) by (destruct e2.1, b2; cbn; lia).
  assert (End : nd = plen_size b2 - plen_size e2.1) by done.
  assert (LR : c - p - 1 = plen_size e2.1 + Z.of_nat (length R)).
  { unfold c, p, R. rewrite length_app, Nat2Z.inj_add, body_length, esize_cons. unfold raw at 1. lia. }
  assert (EB : block t n A prev (e2 :: es) = hdr c t n ++ A ++ P ++ R ++ [ZIP_END]) by (unfold block; cbn [body]; unfold ebytes, R, P; by rewrite <-!app_assoc).
  set (Y := A ++ P ++ R ++ [ZIP_END]). assert (LY : Z.of_nat (length Y) = c - 10).
  { unfold Y. rewrite !length_app. cbn [length]. unfold p in LR. lia. }
  set (Q := take (Z.to_nat (req + nd)) ([ZIP_END] ++ replicate (Z.to_nat (req + nd)) fill)).
  assert (LQ : Z.of_nat (length Q) = req + nd) by (unfold Q; rewrite length_take, length_app, length_replicate; cbn [length]; lia).
  assert (ER : ziplistResize fill (block t n A prev (e2 :: es)) (c + req + nd) = Some ((hdr (c + req + nd) t n ++ A) ++ P ++ R ++ Q ++ [ZIP_END])).
  { rewrite EB. fold Y. rewrite resize_spec by (unfold p in LR; lia). f_equal. rewrite <-(app_assoc (hdr _ _ _)). f_equal.
    assert (EY : Y = (A ++ P ++ R) ++ [ZIP_END]) by (unfold Y; by rewrite <-!app_assoc).
    replace (Z.to_nat (c + req + nd) - 10 - length Y)%nat with (Z.to_nat (req + nd)) by lia.
    rewrite EY at 1. rewrite <-(app_assoc (A ++ P ++ R)). rewrite take_app_ge.
    2: { rewrite EY, length_app in LY. cbn [length] in LY. lia. }
    rewrite <-!app_assoc. do 3 f_equal. f_equal. unfold Q. f_equal. rewrite EY, length_app in LY. cbn [length] in LY. rewrite !length_app in *. lia. }
  set (Hd := hdr (c + req + nd) t n ++ A) in *. assert (LH : Z.of_nat (length Hd) = p) by (unfold Hd; rewrite length_app, hdr_length; unfold p; lia).
  pose proof (shift_right Hd P R Q (Z.to_nat req) (Z.to_nat (plen_size b2)) ltac:(lia) ltac:(lia)) as Hmv.
  set (J := take (Z.to_nat req) (P ++ R ++ Q)) in *. set (P' := drop _ (Hd ++ P)) in *.
  assert (LJ : Z.of_nat (length J) = req) by (unfold J; rewrite length_take, !length_app; lia).
  assert (LP' : Z.of_nat (length P') = plen_size b2) by (unfold P'; rewrite length_drop, length_app; lia).
  exists J, (Hd ++ P ++ R ++ Q ++ [ZIP_END]). split; [done|]. split; [done|]. split.
  { rewrite <-LH. destruct (first_byte Hd prev e2 (body (raw e2) es ++ Q ++ [ZIP_END]) Hp) as (x & E1 & E2). exists x. split; [|done].
    rewrite <-E1. f_equal. unfold ebytes, R. fold P. by rewrite <-!app_assoc. }
  replace (p + req) with (Z.of_nat (length Hd) + Z.of_nat (Z.to_nat req)) by lia.
  replace (p - nd) with (Z.of_nat (length Hd) + Z.of_nat (length P) - Z.of_nat (Z.to_nat (plen_size b2))) by lia.
  replace (c - p - 1 + nd) with (Z.of_nat (Z.to_nat (plen_size b2)) + Z.of_nat (length R)) by lia.
  rewrite Hmv. mred. rewrite (app_assoc Hd J).
  assert (Eoff : Z.of_nat (length Hd) + Z.of_nat (Z.to_nat req) = Z.of_nat (length (Hd ++ J))) by (rewrite length_app; lia). rewrite Eoff.
  assert (Efin : (Hd ++ J) ++ plen b2 req ++ R ++ [ZIP_END] = hdr (c + req + nd) t n ++ A ++ J ++ ebytes req (b2, e2.2) ++ body (raw e2) es ++ [ZIP_END])
    by (unfold Hd, ebytes, R; cbn [fst snd]; by rewrite <-!app_assoc).
  unfold large, b2, next_big in *. destruct (e2.1 && (req <? 4)).
  - rewrite store_prevlen_large by (done || (cbn in LP'; lia)). by rewrite Efin.
  - rewrite store_prevlen by (done || (rewrite LP'; by rewrite prevlen_size_spec)). by rewrite Efin, prevlen_size_spec.
Qed.

Lemma append_room fill t n A prev req : 2 <= req ->
  let c := 11 + Z.of_nat (length A) in
  exists J, Z.of_nat (length J) = req /\ ziplistResize fill (block t n A prev []) (c + req) = Some (hdr (c + req) t n ++ A ++ J ++ [ZIP_END]) /\
    rd1 (hdr (c + req) t n ++ A ++ J ++ [ZIP_END]) (10 + Z.of_nat (length A)) = Some ZIP_END.
Proof.
  intros Hr c. exists (ZIP_END :: replicate (Z.to_nat req - 1) fill). split; [cbn [length]; rewrite length_replicate; lia|].
  set (J := ZIP_END :: replicate (Z.to_nat req - 1) fill). split.
  - unfold block. cbn [body app]. rewrite resize_spec by lia. f_equal. unfold c. replace (11 + Z.of_nat (length A) + esize []) with (11 + Z.of_nat (length A)) by (cbn; lia). f_equal.
    rewrite !app_assoc. f_equal. rewrite <-app_assoc. rewrite take_app_ge by (lia). f_equal. rewrite length_app. cbn [length app].
    replace (Z.to_nat (11 + Z.of_nat (length A) + req - 11) - length A)%nat with (S (Z.to_nat req - 1)) by lia. cbn [take]. unfold J. f_equal.
    rewrite take_replicate. f_equal. lia.
  - rewrite app_assoc. replace (10 + Z.of_nat (length A)) with (Z.of_nat (length (hdr (c + req) t n ++ A))) by (rewrite length_app, hdr_length; lia).
    by rewrite rd1_app0.
Qed.

Lemma tail_prevlen n es : chain 0 es ->
  (bt ← rd1 (block (toff 10 10 es) n [] 0 es) (toff 10 10 es);
   if negb (bt =? ZIP_END) then zipRawEntryLength (block (toff 10 10 es) n [] 0 es) (toff 10 10 es) else Some 0) = Some (lastraw 0 es).
Proof.
  intros Hc. destruct es as [|el es0 _] using rev_ind.
  - unfold block. cbn [toff body app]. set (h := hdr _ _ _). change 10 with (Z.of_nat 10). rewrite <-(hdr_length (11 + Z.of_nat 0 + esize []) (Z.of_nat 10) n).
    unfold h. cbn [length]. rewrite end_byte. done.
  - apply chain_app in Hc as [Hc1 [Hp [Hv _]]]. rewrite block_at, block_entry. set (h := hdr _ _ _ ++ _).
    assert (Et : toff 10 10 (es0 ++ [el]) = Z.of_nat (length h)).
    { rewrite toff_app. cbn [toff]. unfold h. rewrite length_app, hdr_length. pose proof (body_length 0 es0). lia. }
    rewrite Et. destruct (first_byte h (lastraw 0 es0) el (body (raw el) [] ++ [ZIP_END]) Hp) as (b & -> & Eb). mred. rewrite Eb. cbn [negb].
    rewrite raw_entry_length by done. f_equal. unfold lastraw. by rewrite foldl_app.
Qed.

Lemma incr_length b t n X : 0 <= n <= UINT16_MAX -> forall k, (n < UINT16_MAX -> 0 <= n + k <= UINT16_MAX) ->
  ZIPLIST_INCR_LENGTH (hdr b t n ++ X) k = Some (hdr b t (if n <? UINT16_MAX then n + k else n) ++ X).
Proof.
  unfold UINT16_MAX. intros Hn k Hk. unfold ZIPLIST_INCR_LENGTH, UINT16_MAX. rewrite get_length by (pow2; lia). mred.
  destruct (Z.ltb_spec n 65535) as [Hl|Hl]; [|done]. rewrite wrapu_small by (pow2; lia). apply put_length.
Qed.

Lemma raw_bound b s : raw (b, zval_of s) <= Z.of_nat (length s) + 14.
Proof.
  unfold raw, zbytes. cbn [fst snd]. rewrite length_app. pose proof (zhead_length (zval_of s)) as Hh. assert (plen_size b <= 5) by (destruct b; cbn; lia).
  unfold zval_of in *. destruct (zipTryEncoding s) as [[m e]|]; [|cbn [zdata]; lia]. unfold zhead in *. cbn [zenc text] in *. unfold entry_encoding in *.
  rewrite int_encoding_not_str in *. cbn [length] in *. cbn [zdata]. destruct (zipIntSize_spec m) as (k & Hk & <- & _). cbn [zdata] in Hk.
  assert (Hk8 : forall e k, zipIntSize e = Some k -> k <= 8) by (intros e' k'; unfold zipIntSize; repeat destruct (_ =? _); try (intros [= <-]; lia); destruct (_ && _); [intros [= <-]; lia|done]).
  specialize (Hk8 _ _ Hk). lia.
Qed.

Definition next_n (n k : Z) : Z := if n <? UINT16_MAX then n + k else n.

Lemma insert_end fill n es1 s : rep (block (toff 10 10 es1) n [] 0 es1) n es1 ->
  11 + esize es1 + Z.of_nat (length s) + 14 < 2 ^ 32 ->
  let e := (needs_big (lastraw 0 es1), zval_of s) in
  ziplistInsert fill (block (toff 10 10 es1) n [] 0 es1) (10 + esize es1) s = Some (block (toff 10 10 (es1 ++ [e])) (next_n n 1) [] 0 (es1 ++ [e])).
Proof.
  intros (_ & Hc & Hs & Hn & Hnl) Hlim e. pose proof (lastraw_range es1 Hc Hs) as Hlr. pose proof (raw_bound (needs_big (lastraw 0 es1)) s) as Hrb. fold e in Hrb.
  pose proof (raw_ge e) as Hre. pose proof (esize_nonneg es1) as Hes. unfold ziplistInsert.
  assert (EB : block (toff 10 10 es1) n [] 0 es1 = (hdr (11 + esize es1) (toff 10 10 es1) n ++ body 0 es1) ++ [ZIP_END]).
  { unfold block. cbn [length app]. rewrite <-app_assoc. f_equal; try (f_equal; lia). }
  assert (Eg : ZIPLIST_BYTES (block (toff 10 10 es1) n [] 0 es1) = Some (11 + esize es1)) by (rewrite EB, <-app_assoc; apply get_bytes; lia).
  assert (Hoff : Z.of_nat (length (hdr (11 + esize es1) (toff 10 10 es1) n ++ body 0 es1)) = 10 + esize es1) by (rewrite length_app, hdr_length; pose proof (body_length 0 es1); lia).
  assert (Ee : rd1 (block (toff 10 10 es1) n [] 0 es1) (10 + esize es1) = Some ZIP_END) by (rewrite EB, <-Hoff; apply end_byte).
  assert (Ht : 0 <= toff 10 10 es1 < 2 ^ 32).
  { destruct es1 as [|x l]; [cbn; lia|]. pose proof (toff_ge 10 10 (x :: l) ltac:(done)). pose proof (toff_lt 10 10 (x :: l) ltac:(done)). lia. }
  assert (Et : ZIPLIST_TAIL_OFFSET (block (toff 10 10 es1) n [] 0 es1) = Some (toff 10 10 es1)) by (rewrite EB, <-app_assoc; by apply get_tail).
  rewrite Eg. mred. rewrite Ee. mred. change (ZIP_END =? ZIP_END) with true. cbn [negb]. rewrite Et. mred. rewrite tail_prevlen by done. mred.
  pose proof (reqlen_spec s (lastraw 0 es1)) as Hreq. fold e in Hreq.
  pose proof (append_room fill (toff 10 10 es1) n (body 0 es1) (lastraw 0 es1) (raw e) Hre) as (J & LJ & EJ & ErJ). cbv zeta in EJ, ErJ. rewrite body_length in EJ, ErJ.
  rewrite <-block_at, app_nil_r in EJ.
  pose proof (write_entry (hdr (11 + esize es1 + raw e) (10 + esize es1) n ++ body 0 es1) J [ZIP_END] (lastraw 0 es1) s ltac:(lia) LJ) as HW. fold e in HW.
  destruct (default (123456789, 0) (zipTryEncoding s)) as [value enc].
  destruct (match zipTryEncoding s with Some _ => zipIntSize enc | None => Some (Z.of_nat (length s)) end) as [k|]; cbn [mbind option_bind] in Hreq; [|done].
  mred. injection Hreq as Hreq. rewrite Hreq. cbn [Z.eqb andb]. rewrite (Z.add_0_r (11 + esize es1 + raw e)), EJ. mred. rewrite ErJ. mred. change (ZIP_END =? ZIP_END) with true. cbn [negb].
  rewrite put_tail. mred. rewrite wrapu_small by (pow2; lia). cbn [Z.eqb negb]. mred.
  assert (Hl2 : Z.of_nat (length (hdr (11 + esize es1 + raw e) (10 + esize es1) n ++ body 0 es1)) = 10 + esize es1) by (rewrite length_app, hdr_length; pose proof (body_length 0 es1); lia).
  rewrite Hl2, <-app_assoc in HW.
  destruct (zipStorePrevEntryLength _ _ _) as [[z1 n1]|]; cbn [mbind option_bind] in HW |- *; [|done].
  destruct (zipStoreEntryEncoding _ _ _ _) as [[z2 n2]|]; cbn [mbind option_bind] in HW |- *; [|done].
  rewrite HW. mred. rewrite <-app_assoc, incr_length by (unfold UINT16_MAX in *; lia). f_equal. fold (next_n n 1).
  rewrite toff_app. cbn [toff]. unfold block. rewrite body_app, esize_app. cbn [body length app]. rewrite app_nil_r, <-!app_assoc. f_equal. f_equal.
  cbn [esize foldr]. unfold esize. lia.
Qed.

(** The update of the tail offset when the entry [e] starts at a new place. *)
Lemma tail_step L t n A r e q es d nd (f : zlentry -> Z) :
  let X t := hdr L t n ++ A ++ ebytes r e ++ body q es ++ [ZIP_END] in
  let p := 10 + Z.of_nat (length A) in
  (forall x, f x = p + (headersize x + len x)) -> plen_ok e.1 r -> zval_ok e.2 -> chain q es ->
  0 <= t < 2 ^ 32 -> 0 <= t + d < 2 ^ 32 -> 0 <= t + d + nd < 2 ^ 32 ->
  (t0 ← ZIPLIST_TAIL_OFFSET (X t);
   zl ← set_tail_offset (X t) (u32 (t0 + d));
   tail ← zipEntry zl p;
   b ← rd1 zl (f tail);
   if negb (b =? ZIP_END) then t1 ← ZIPLIST_TAIL_OFFSET zl; set_tail_offset zl (u32 (t1 + nd)) else Some zl) =
  Some (X (t + d + (if decide (es = []) then 0 else nd))).
Proof.
  intros X p Hf Hp Hv Hc Ht Ht1 Ht2. unfold X. rewrite get_tail by done. mred. rewrite put_tail. mred. rewrite wrapu_small by done.
  set (h := hdr L (t + d) n ++ A). assert (Eh : forall Y, hdr L (t + d) n ++ A ++ Y = h ++ Y) by (intros Y; unfold h; by rewrite <-!app_assoc).
  assert (Lh : Z.of_nat (length h) = p) by (unfold h; rewrite !length_app, hdr_length; unfold p; lia).
  rewrite Eh, <-Lh. rewrite zip_entry by done. mred. rewrite Hf. cbn [headersize len].
  replace (p + (plen_size e.1 + Z.of_nat (length (zhead e.2)) + Z.of_nat (length (zdata e.2)))) with (Z.of_nat (length (h ++ ebytes r e))).
  2: { rewrite length_app, Nat2Z.inj_add, ebytes_length, Lh. unfold raw, zbytes. rewrite length_app. lia. }
  rewrite (app_assoc h). destruct es as [|e3 es].
  - cbn [body app]. rewrite end_byte. mred. change (ZIP_END =? ZIP_END) with true. cbn [negb]. rewrite decide_True by done.
    rewrite <-!app_assoc. unfold h. rewrite <-!app_assoc, Z.add_0_r. done.
  - cbn [body chain] in *. destruct Hc as (Hp3 & _). rewrite <-(app_assoc (ebytes q e3)).
    destruct (first_byte (h ++ ebytes r e) q e3 (body (raw e3) es ++ [ZIP_END]) Hp3) as (b & -> & Eb). mred. rewrite Eb. cbn [negb].
    rewrite decide_False by done. rewrite <-!app_assoc. unfold h. rewrite <-!app_assoc. rewrite get_tail by done. mred. by rewrite put_tail, wrapu_small.
Qed.

(** The cascade after a change of [nd] bytes in the entry [e]. *)
Lemma cascade_if fill n t A r e q es nd :
  let o := 10 + Z.of_nat (length A) + raw e in
  raw e = q + nd -> plen_ok e.1 r -> zval_ok e.2 -> chain q es ->
  o + 1 + esize es + 4 * Z.of_nat (length es) < 2 ^ 32 -> t = toff o (10 + Z.of_nat (length A)) es ->
  exists es', (if negb (nd =? 0) then ziplistCascadeUpdate fill (block t n (A ++ ebytes r e) q es) (10 + Z.of_nat (length A))
       else Some (block t n (A ++ ebytes r e) q es)) =
     Some (block (toff o (10 + Z.of_nat (length A)) es') n (A ++ ebytes r e) (raw e) es') /\ same_vals es es' /\ chain (raw e) es'.
Proof.
  intros o Hr Hp Hv Hc Hlim Ht. pose proof (esize_nonneg es) as Hes. pose proof (raw_ge e) as Hge.
  assert (Htr : 10 + Z.of_nat (length A) <= t < 2 ^ 32).
  { rewrite Ht. destruct es as [|x l]; [cbn [toff]; unfold o in *; lia|]. pose proof (toff_ge o (10 + Z.of_nat (length A)) (x :: l) ltac:(done)).
    pose proof (toff_lt o (10 + Z.of_nat (length A)) (x :: l) ltac:(done)). unfold o in *; lia. }
  destruct (Z.eqb_spec nd 0) as [E0|E0]; cbn [negb].
  - exists es. replace q with (raw e) in * by lia. rewrite <-Ht. done.
  - destruct (cascade_update fill n t A r e q es) as (es' & t' & H1 & H2 & H3 & H4); try done; [rewrite Ht; by destruct es|lia|].
    exists es'. rewrite H1, H4. split; [|done]. do 2 f_equal. rewrite Ht. unfold same_vals in H2. destruct es', es; done.
Qed.

(** The offset of the last entry from the entry at [a] on, which has [r] bytes. *)
Lemma toff_range a r es3 : 0 < r -> a <= toff (a + r) a es3 < a + r + esize es3.
Proof.
  intros Hr. destruct es3 as [|e3 l]; [cbn [toff esize foldr]; lia|].
  pose proof (toff_ge (a + r) a (e3 :: l) ltac:(done)). pose proof (toff_lt (a + r) a (e3 :: l) ltac:(done)). lia.
Qed.

(** It moves with the entry, and by the change of its size when entries follow. *)
Lemma toff_moved a r d nd es3 :
  toff (a + r) a es3 + d + (if decide (es3 = []) then 0 else nd) = toff (a + d + (r + nd)) (a + d) es3.
Proof.
  destruct (decide (es3 = [])) as [->|Hne]; [cbn [toff]; lia|].
  replace (a + d + (r + nd)) with (a + r + (d + nd)) by lia. rewrite (toff_shift (a + r) _ a) by done. lia.
Qed.

(** Moving what follows a gap to its start. *)
Lemma memmove_gap c t n A W E :
  memmove (hdr c t n ++ (A ++ W) ++ E ++ [ZIP_END]) (10 + Z.of_nat (length A)) (10 + Z.of_nat (length (A ++ W))) (Z.of_nat (length E)) =
    Some (hdr c t n ++ (A ++ E) ++ drop (length E) (W ++ E) ++ [ZIP_END]).
Proof.
  pose proof (memmove_mid (hdr c t n ++ A) W E [ZIP_END] (hdr c t n ++ A) (take (length E) (W ++ E)) (drop (length E) (W ++ E) ++ [ZIP_END])
    (10 + Z.of_nat (length A)) (10 + Z.of_nat (length (A ++ W))) (Z.of_nat (length E))) as M.
  rewrite <-!app_assoc in M |- *. rewrite M; [done| | | | |].
  - f_equal. f_equal. by rewrite (app_assoc (take _ _)), take_drop, <-app_assoc.
  - rewrite length_take, length_app. lia.
  - rewrite !length_app, hdr_length. lia.
  - rewrite length_app, hdr_length. lia.
  - lia.
Qed.

Lemma insert_mid fill n es1 e2 es3 s :
  let es := es1 ++ e2 :: es3 in
  rep (block (toff 10 10 es) n [] 0 es) n es ->
  11 + esize es + Z.of_nat (length s) + 18 + 4 * Z.of_nat (length es3) < 2 ^ 32 ->
  let e := (needs_big (lastraw 0 es1), zval_of s) in
  exists e2' es3', ziplistInsert fill (block (toff 10 10 es) n [] 0 es) (10 + esize es1) s =
      Some (block (toff 10 10 (es1 ++ e :: e2' :: es3')) (next_n n 1) [] 0 (es1 ++ e :: e2' :: es3')) /\
    same_vals (e2 :: es3) (e2' :: es3') /\ chain 0 (es1 ++ e :: e2' :: es3').
Proof.
  intros es (_ & Hc & Hs & Hn & Hnl) Hlim e. unfold es in Hc. apply chain_app in Hc as [Hc1 (Hp2 & Hv2 & Hc3)].
  assert (Hes : esize es = esize es1 + raw e2 + esize es3) by (unfold es; rewrite esize_app, esize_cons; lia).
  pose proof (lastraw_range es1 Hc1 ltac:(pose proof (esize_nonneg es3); pose proof (raw_ge e2); lia)) as Hlr. pose proof (raw_bound (needs_big (lastraw 0 es1)) s) as Hrb. fold e in Hrb.
  pose proof (raw_ge e) as Hre. pose proof (raw_ge e2) as Hr2. pose proof (esize_nonneg es1) as Hes1. pose proof (esize_nonneg es3) as Hes3.
  set (t := toff 10 10 es). set (A := body 0 es1). set (prev := lastraw 0 es1) in *. assert (LA : Z.of_nat (length A) = esize es1) by apply body_length.
  assert (Et : t = toff (10 + esize es1 + raw e2) (10 + esize es1) es3) by (unfold t, es; rewrite toff_app; done).
  assert (Htr : 10 + esize es1 <= t < 10 + esize es) by (rewrite Et, Hes; pose proof (toff_range (10 + esize es1) (raw e2) es3 ltac:(lia)); lia).
  unfold es at 1. rewrite block_at. fold A prev. unfold ziplistInsert.
  set (c := 11 + Z.of_nat (length A) + esize (e2 :: es3)). assert (Ec : c = 11 + esize es) by (unfold c; rewrite esize_cons; lia).
  set (B0 := block t n A prev (e2 :: es3)).
  assert (EB0 : B0 = (hdr c t n ++ A) ++ ebytes prev e2 ++ body (raw e2) es3 ++ [ZIP_END]) by apply block_entry.
  assert (Lp : Z.of_nat (length (hdr c t n ++ A)) = 10 + esize es1) by (rewrite length_app, hdr_length; lia).
  assert (Eg : ZIPLIST_BYTES B0 = Some c) by (unfold B0, block; fold c; apply get_bytes; lia).
  destruct (first_byte (hdr c t n ++ A) prev e2 (body (raw e2) es3 ++ [ZIP_END]) Hp2) as (b & Eb & Eb'). rewrite <-EB0, Lp in Eb.
  assert (Epl : ZIP_DECODE_PREVLEN B0 (10 + esize es1) = Some (plen_size e2.1, prev)) by (rewrite EB0, <-Lp; unfold ebytes; rewrite <-(app_assoc (plen _ _)); by apply decode_prevlen).
  assert (Edf : forall r, zipPrevLenByteDiff B0 (10 + esize es1) r = Some (plen_size (needs_big r) - plen_size e2.1)).
  { intros r. unfold zipPrevLenByteDiff. rewrite EB0, <-Lp. unfold ebytes. rewrite <-(app_assoc (plen _ _)), decode_prevlensize by done. mred. by rewrite prevlen_size_spec. }
  rewrite Eg. mred. rewrite Eb. mred. rewrite Eb'. cbn [negb]. rewrite Epl. mred.
  pose proof (reqlen_spec s prev) as Hreq. fold e in Hreq.
  destruct (insert_shift fill t n A prev e2 es3 (raw e) ltac:(lia) Hp2 ltac:(lia)) as (J & b1 & LJ & Ers & (x & Ex & Ex') & Emv). fold c in Ers, Emv. fold B0 in Ers.
  set (nd := next_diff e2.1 (raw e)) in *. set (b2 := next_big e2.1 (raw e)) in *. rewrite LA in Ex, Emv.
  destruct (next_diff_spec e2.1 (raw e) ltac:(lia)) as (Efl & End & Hndr). fold nd in End, Hndr.
  assert (Hnd : nd = plen_size b2 - plen_size e2.1 /\ -4 <= nd <= 4) by (split; [done|unfold nd, next_diff; destruct e2.1, (next_big _ _); cbn; lia]).
  assert (Hpb : plen_ok b2 (raw e)).
  { split; [lia|]. intros Hb. unfold b2, next_big. destruct (_ && _); [done|]. by apply Z.leb_le. }
  set (e2' := (b2, e2.2) : entry) in *. assert (Hr2' : raw e2' = raw e2 + nd) by (unfold raw, e2'; cbn [fst snd]; lia).
  set (A' := A ++ J). assert (LA' : Z.of_nat (length A') = esize es1 + raw e) by (unfold A'; rewrite length_app; lia).
  set (t2 := toff (10 + Z.of_nat (length A') + raw e2') (10 + Z.of_nat (length A')) es3).
  assert (Et2 : t + raw e + (if decide (es3 = []) then 0 else nd) = t2) by (rewrite Et, toff_moved; unfold t2; f_equal; lia).
  pose proof (tail_step (c + raw e + nd) t n A' (raw e) e2' (raw e2) es3 (raw e) nd (fun x => 10 + esize es1 + (raw e + headersize x + len x))
    ltac:(intros; lia) Hpb Hv2 Hc3 ltac:(lia) ltac:(lia) ltac:(lia)) as Etl.
  cbv beta zeta in Etl. rewrite Et2 in Etl. replace (10 + Z.of_nat (length A')) with (10 + esize es1 + raw e) in Etl by lia.
  assert (EX : forall t, hdr (c + raw e + nd) t n ++ A' ++ ebytes (raw e) e2' ++ body (raw e2) es3 ++ [ZIP_END] = block t n (A' ++ ebytes (raw e) e2') (raw e2) es3).
  { intros t0. unfold block. rewrite <-!app_assoc. f_equal. f_equal. rewrite !length_app, !Nat2Z.inj_add, ebytes_length, Ec, LA', Hes. lia. }
  rewrite !EX in Etl. rewrite (app_assoc A J) in Emv. fold A' in Emv. rewrite EX in Emv.
  destruct (cascade_if fill n t2 A' (raw e) e2' (raw e2) es3 nd ltac:(lia) Hpb Hv2 Hc3 ltac:(lia) eq_refl) as (es3' & Ecas & Sv & Ch).
  replace (10 + Z.of_nat (length A')) with (10 + esize es1 + raw e) in Ecas by lia. set (t3 := toff _ _ es3') in Ecas.
  pose proof (same_vals_size _ _ Sv) as [Hsz Hlen]. pose proof (esize_nonneg es3') as Hes3'.
  assert (EY : block t3 n (A' ++ ebytes (raw e) e2') (raw e2') es3' =
    (hdr (11 + esize es1 + raw e + raw e2' + esize es3') t3 n ++ A) ++ J ++ ebytes (raw e) e2' ++ body (raw e2') es3' ++ [ZIP_END]).
  { unfold block, A'. rewrite <-!app_assoc. f_equal. f_equal. rewrite !length_app, !Nat2Z.inj_add, ebytes_length. lia. }
  pose proof (write_entry (hdr (11 + esize es1 + raw e + raw e2' + esize es3') t3 n ++ A) J (ebytes (raw e) e2' ++ body (raw e2') es3' ++ [ZIP_END]) prev s ltac:(lia) LJ) as HW.
  assert (Lp2 : Z.of_nat (length (hdr (11 + esize es1 + raw e + raw e2' + esize es3') t3 n ++ A)) = 10 + esize es1) by (rewrite length_app, hdr_length; lia).
  rewrite Lp2, <-EY in HW. fold e in HW. exists e2', es3'.
  destruct (default (123456789, 0) (zipTryEncoding s)) as [value enc].
  destruct (match zipTryEncoding s with Some _ => zipIntSize enc | None => Some (Z.of_nat (length s)) end) as [k|]; cbn [mbind option_bind] in Hreq; [|done].
  mred. injection Hreq as Hreq. rewrite Hreq, Edf. mred. rewrite End, Efl, Ers. mred. rewrite Ex. mred. rewrite Ex'. cbn [negb].
  destruct (memmove b1 _ _ _) as [z1|]; cbn [mbind option_bind] in Emv |- *; [|done]. rewrite Emv. mred. rewrite Etl. mred. rewrite Ecas. mred.
  destruct (zipStorePrevEntryLength (block t3 n (A' ++ ebytes (raw e) e2') (raw e2') es3') (10 + esize es1) prev) as [[z2 n1]|]; cbn [mbind option_bind] in HW |- *; [|done].
  destruct (zipStoreEntryEncoding _ _ _ _) as [[z3 n2]|]; cbn [mbind option_bind] in HW |- *; [|done].
  rewrite HW. mred. rewrite <-app_assoc, incr_length by (unfold UINT16_MAX in *; lia). fold (next_n n 1). split.
  - f_equal. rewrite block_at. fold A prev. rewrite !toff_app. cbn [toff]. unfold block. cbn [body].
    unfold t3.
    rewrite <-!app_assoc. f_equal. f_equal. rewrite !esize_cons, LA. lia.
  - split; [unfold same_vals in *; cbn; by rewrite Sv|]. apply chain_app. split; [done|]. cbn [chain]. split_and!; try done.
    + by apply plen_ok_needs.
    + apply zval_of_ok. lia.
Qed.

(** Space for the cascade: every entry may grow by four bytes. *)
Definition room (es : list entry) (k : Z) : Prop := 11 + esize es + k + 4 * Z.of_nat (length es) + 32 < 2 ^ 32.

Lemma rep_block zl n es : rep zl n es -> zl = block (toff 10 10 es) n [] 0 es.
Proof. by intros [-> _]. Qed.

Lemma rep_intro n es : chain 0 es -> 11 + esize es < 2 ^ 32 -> 0 <= n <= UINT16_MAX -> (n < UINT16_MAX -> n = Z.of_nat (length es)) ->
  rep (block (toff 10 10 es) n [] 0 es) n es.
Proof. done. Qed.

Lemma next_n_ok n k (len : nat) len' : 0 <= n <= UINT16_MAX -> (n < UINT16_MAX -> n = Z.of_nat len) -> Z.of_nat len + k = Z.of_nat len' -> k <= 1 ->
  0 <= next_n n k <= UINT16_MAX /\ (next_n n k < UINT16_MAX -> next_n n k = Z.of_nat len').
Proof. unfold next_n, UINT16_MAX. intros. destruct (Z.ltb_spec n 65535); lia. Qed.

Lemma insert_spec fill zl n es1 es2 s : rep zl n (es1 ++ es2) -> room (es1 ++ es2) (Z.of_nat (length s)) ->
  exists zl' n' e es2', ziplistInsert fill zl (10 + esize es1) s = Some zl' /\ rep zl' n' (es1 ++ e :: es2') /\
    e.2 = zval_of s /\ same_vals es2 es2'.
Proof.
  intros Hrep Hroom. unfold room in Hroom. rewrite length_app, esize_app in Hroom. pose proof (rep_block _ _ _ Hrep) as Ezl. subst zl. pose proof Hrep as (_ & Hc & Hs & Hn & Hnl).
  set (e := (needs_big (lastraw 0 es1), zval_of s)). pose proof (raw_bound (needs_big (lastraw 0 es1)) s) as Hrb. fold e in Hrb.
  pose proof (esize_nonneg es1). pose proof (esize_nonneg es2).
  assert (Hok : forall es2', same_vals es2 es2' -> chain 0 (es1 ++ e :: es2') ->
     rep (block (toff 10 10 (es1 ++ e :: es2')) (next_n n 1) [] 0 (es1 ++ e :: es2')) (next_n n 1) (es1 ++ e :: es2')).
  { intros es2' Sv Ch. destruct (same_vals_size _ _ Sv) as [Hz Hl]. destruct (next_n_ok n 1 (length (es1 ++ es2)) (length (es1 ++ e :: es2'))) as [? ?]; try done;
      [rewrite !length_app; cbn [length]; lia|]. apply rep_intro; try done. rewrite esize_app, esize_cons. lia. }
  destruct es2 as [|e2 es3].
  - rewrite app_nil_r in *. pose proof (insert_end fill n es1 s Hrep ltac:(lia)) as E. cbv zeta in E. fold e in E. rewrite E.
    do 2 eexists. exists e, []. split; [done|]. split; [|done]. apply Hok; [done|]. apply chain_app. split; [done|].
    split_and!; [|apply zval_of_ok; lia|done]. apply plen_ok_needs. apply lastraw_range; [done|lia].
  - rewrite esize_cons in *. cbn [length] in Hroom. pose proof (raw_ge e2).
    destruct (insert_mid fill n es1 e2 es3 s Hrep) as (e2' & es3' & E & Sv & Ch); [rewrite esize_app, esize_cons; lia|]. fold e in E, Ch. rewrite E.
    do 2 eexists. exists e, (e2' :: es3'). split; [done|]. split; [by apply Hok|done].
Qed.

(** ** Deletion *)

(** [zl] holds the entries [es] after a header and the bytes [A]. *)
Definition at_entries (zl A : list Z) (prev : Z) (es : list entry) : Prop :=
  chain prev es /\ exists h, zl = (h ++ A) ++ body prev es ++ [ZIP_END] /\ length h = 10%nat.

Lemma at_next zl A prev e es : at_entries zl A prev (e :: es) -> at_entries zl (A ++ ebytes prev e) (raw e) es.
Proof. intros ((Hp & Hv & Hc) & h & -> & Hh). split; [done|]. exists h. split; [|done]. cbn [body]. by rewrite <-!app_assoc. Qed.

Lemma at_end zl A prev : at_entries zl A prev [] -> rd1 zl (10 + Z.of_nat (length A)) = Some ZIP_END.
Proof.
  intros (_ & h & -> & Hh). replace (10 + Z.of_nat (length A)) with (Z.of_nat (length (h ++ A))) by (rewrite length_app; lia). apply end_byte.
Qed.

Lemma at_first zl A prev e es : at_entries zl A prev (e :: es) -> let p := 10 + Z.of_nat (length A) in
  (exists b, rd1 zl p = Some b /\ (b =? ZIP_END) = false) /\ zipRawEntryLength zl p = Some (raw e) /\
  ZIP_DECODE_PREVLEN zl p = Some (plen_size e.1, prev) /\ ZIP_DECODE_PREVLENSIZE zl p = Some (plen_size e.1) /\
  zipEntry zl p = Some (Zlentry (plen_size e.1) prev (Z.of_nat (length (zhead e.2))) (Z.of_nat (length (zdata e.2)))
          (plen_size e.1 + Z.of_nat (length (zhead e.2))) (zenc e.2) p).
Proof.
  intros ((Hp & Hv & Hc) & h & -> & Hh) p. cbn [body]. rewrite <-(app_assoc (ebytes prev e)).
  assert (Ep : p = Z.of_nat (length (h ++ A))) by (rewrite length_app; unfold p; lia). rewrite Ep.
  split; [by apply first_byte|]. split; [by apply raw_entry_length|]. split; [unfold ebytes; rewrite <-(app_assoc (plen _ _)); by apply decode_prevlen|].
  split; [unfold ebytes; rewrite <-(app_assoc (plen _ _)); by apply decode_prevlensize|]. by apply zip_entry.
Qed.

Lemma at_skip zl A prev es1 es2 : at_entries zl A prev (es1 ++ es2) ->
  exists A', at_entries zl A' (lastraw prev es1) es2 /\ Z.of_nat (length A') = Z.of_nat (length A) + esize es1.
Proof.
  revert A prev. induction es1 as [|e es1 IH]; intros A prev Ha; [exists A; split; [done|cbn; lia]|].
  destruct (IH _ _ (at_next _ _ _ _ _ Ha)) as (A' & Ha' & L). exists A'. split; [done|]. rewrite L, length_app, Nat2Z.inj_add, ebytes_length, esize_cons. lia.
Qed.

Lemma rep_at zl n es : rep zl n es -> at_entries zl [] 0 es.
Proof. intros (-> & Hc & _). split; [done|]. eexists. split; [unfold block; by rewrite app_nil_r|apply hdr_length]. Qed.

Lemma rep_at_skip zl n es1 es2 : rep zl n (es1 ++ es2) -> exists A, at_entries zl A (lastraw 0 es1) es2 /\ Z.of_nat (length A) = esize es1.
Proof. intros Hr. destruct (at_skip _ _ _ _ _ (rep_at _ _ _ Hr)) as (A & Ha & L). exists A. split; [done|]. cbn in L. lia. Qed.

Lemma skip_spec zl num del es : forall A prev fuel i, at_entries zl A prev (del ++ es) ->
  0 <= i -> i + Z.of_nat (length del) <= num -> (es <> [] -> i + Z.of_nat (length del) = num) -> (length del < fuel)%nat ->
  skip_loop fuel zl (10 + Z.of_nat (length A)) i num = Some (10 + Z.of_nat (length A) + esize del, i + Z.of_nat (length del)).
Proof.
  induction del as [|e del IH]; intros A prev fuel i Ha Hi Hnum Hes Hf; (destruct fuel as [|fuel]; [lia|]); cbn [skip_loop].
  - cbn [app length esize foldr] in *. destruct es as [|e2 es].
    + rewrite (at_end _ _ _ Ha). mred. change (ZIP_END =? ZIP_END) with true. cbn [orb]. do 2 f_equal; lia.
    + destruct (at_first _ _ _ _ _ Ha) as ((b & -> & Eb) & _). mred. rewrite Eb, (proj2 (Z.leb_le num i)) by (specialize (Hes ltac:(done)); lia). cbn [orb]. do 2 f_equal; lia.
  - cbn [app length] in *. destruct (at_first _ _ _ _ _ Ha) as ((b & -> & Eb) & -> & _). mred. rewrite Eb, (proj2 (Z.leb_gt num i)) by lia. cbn [orb].
    specialize (IH _ _ fuel (i + 1) (at_next _ _ _ _ _ Ha)). rewrite length_app, Nat2Z.inj_add, ebytes_length in IH.
    rewrite Z.add_assoc in IH. rewrite IH; try lia; [rewrite esize_cons; do 2 f_equal; lia|]. intros Hne. specialize (Hes Hne). lia.
Qed.

Lemma toff_last es : toff 10 10 es = 10 + esize es - lastraw 0 es.
Proof.
  destruct es as [|e es _] using rev_ind; [done|]. rewrite toff_app, esize_app. unfold lastraw. rewrite foldl_app. cbn. lia.
Qed.

(** The block without its end: a shrinking resize. *)
Lemma resize_shrink fill b t n Y Z L : L = 11 + Z.of_nat (length Y) -> ziplistResize fill (hdr b t n ++ Y ++ Z) L = Some (hdr L t n ++ Y ++ [ZIP_END]).
Proof.
  intros ->. rewrite resize_spec by lia. do 3 f_equal. replace (Z.to_nat (11 + Z.of_nat (length Y) - 11)) with (length Y) by lia.
  by rewrite <-app_assoc, take_app_length.
Qed.

Lemma delete_end fill zl n es1 del num : rep zl n (es1 ++ del) -> del <> [] -> Z.of_nat (length del) <= num ->
  ziplistDelete_num fill zl (10 + esize es1) num = Some (block (toff 10 10 es1) (next_n n (- Z.of_nat (length del))) [] 0 es1).
Proof.
  intros Hrep Hne Hnum. destruct (rep_at_skip _ _ _ _ Hrep) as (A & Ha & LA). pose proof Hrep as (Ezl & Hc & Hs & Hn & Hnl). rewrite esize_app in Hs.
  destruct del as [|e1 del0]; [done|]. set (del := e1 :: del0) in *. pose proof (esize_nonneg del0). pose proof (esize_nonneg es1). pose proof (raw_ge e1).
  assert (Hd : esize del = raw e1 + esize del0) by apply esize_cons. unfold ziplistDelete_num.
  destruct (at_first _ _ _ _ _ Ha) as (_ & _ & _ & _ & Ez). cbv zeta in Ez. rewrite LA in Ez. rewrite Ez. mred.
  assert (Hfuel : (length del < length zl)%nat).
  { pose proof (block_length (toff 10 10 (es1 ++ del)) n [] 0 (es1 ++ del)) as Hl. rewrite <-Ezl, esize_app in Hl. pose proof (esize_nonneg del). lia. }
  pose proof (skip_spec zl num del [] A (lastraw 0 es1) (length zl) 0) as Hsk. rewrite app_nil_r, LA in Hsk. rewrite Hsk by (done || lia). mred. clear Hsk.
  cbn [entry_p prevrawlen]. rewrite (proj2 (Z.ltb_lt 0 _)) by lia.
  destruct (at_skip zl A (lastraw 0 es1) del []) as (A2 & Ha2 & LA2); [by rewrite app_nil_r|].
  pose proof (at_end _ _ _ Ha2) as Eend. rewrite LA2, LA, Z.add_assoc in Eend. rewrite Eend. mred. change (ZIP_END =? ZIP_END) with true. cbn [negb].
  assert (EB : zl = hdr (11 + esize (es1 ++ del)) (toff 10 10 (es1 ++ del)) n ++ body 0 es1 ++ body (lastraw 0 es1) del ++ [ZIP_END]).
  { rewrite Ezl. unfold block. rewrite body_app. cbn [length app]. rewrite <-app_assoc. f_equal. }
  pose proof (lastraw_range es1 ltac:(by apply chain_app in Hc as [? _]) ltac:(lia)) as Hlr.
  assert (Hlast : 0 <= toff 10 10 es1 < 2 ^ 32). { destruct es1 as [|x l]; [cbn; lia|]. pose proof (toff_ge 10 10 (x :: l) ltac:(done)). pose proof (toff_lt 10 10 (x :: l) ltac:(done)). lia. }
  rewrite EB, put_tail. mred. rewrite <-toff_last, wrapu_small by done. rewrite get_bytes by (rewrite esize_app; lia). mred.
  rewrite resize_shrink by (rewrite esize_app; pose proof (body_length 0 es1); lia). mred.
  rewrite incr_length by (try done; rewrite length_app in Hnl; lia). mred. fold (next_n n (- (0 + Z.of_nat (length del)))). rewrite Z.add_0_l. cbn [Z.eqb negb].
  f_equal. unfold block. cbn [length app]. f_equal. f_equal. rewrite esize_app. lia.
Qed.

Lemma delete_mid fill zl n es1 del e2 es3 : let es := es1 ++ del ++ e2 :: es3 in
  rep zl n es -> del <> [] -> 11 + esize es + 4 + 4 * Z.of_nat (length es3) < 2 ^ 32 ->
  exists e2' es3', ziplistDelete_num fill zl (10 + esize es1) (Z.of_nat (length del)) =
      Some (block (toff 10 10 (es1 ++ e2' :: es3')) (next_n n (- Z.of_nat (length del))) [] 0 (es1 ++ e2' :: es3')) /\
    same_vals (e2 :: es3) (e2' :: es3') /\ chain 0 (es1 ++ e2' :: es3').
Proof.
  intros es Hrep Hne Hlim. destruct (rep_at_skip _ _ _ _ Hrep) as (A0 & Ha & LA0). pose proof Hrep as (Ezl & Hc & Hs & Hn & Hnl).
  assert (Hes : esize es = esize es1 + esize del + raw e2 + esize es3) by (unfold es; rewrite !esize_app, esize_cons; lia).
  unfold es in Hc. apply chain_app in Hc as [Hc1 Hc2]. pose proof Hc2 as Hc2'. apply chain_app in Hc2 as [Hcd (Hp2 & Hv2 & Hc3)].
  set (prev := lastraw 0 es1) in *. set (b := needs_big prev). set (nd := plen_size b - plen_size e2.1). set (e2' := (b, e2.2) : entry). set (tot := esize del).
  pose proof (esize_nonneg es1). pose proof (esize_nonneg es3). pose proof (raw_ge e2). pose proof (esize_nonneg del).
  assert (Hlr : 0 <= prev < 2 ^ 32) by (apply lastraw_range; [done|lia]).
  (* The first deleted entry. *)
  destruct del as [|e1 del0]; [done|]. set (del := e1 :: del0) in *. cbn [chain] in Hcd. destruct Hcd as ((_ & Hp1) & _ & _).
  assert (Htot : 2 <= tot /\ plen_size b <= tot + plen_size e2.1).
  { unfold tot, del. rewrite esize_cons. pose proof (raw_ge e1). pose proof (esize_nonneg del0). split; [lia|]. unfold b, needs_big. destruct (Z.leb_spec ZIP_BIG_PREVLEN prev) as [Hb|Hb].
    - specialize (Hp1 Hb). unfold raw. rewrite Hp1. cbn [plen_size]. destruct e2.1; cbn; lia.
    - destruct e2.1; cbn; lia. }
  assert (Hnd : -4 <= nd <= 4 /\ nd = plen_size b - plen_size e2.1 /\ 1 <= plen_size b /\ 1 <= plen_size e2.1) by (unfold nd; destruct b, e2.1; cbn; lia).
  assert (Hr2' : raw e2' = raw e2 + nd) by (unfold raw, e2', nd; cbn [fst snd]; lia).
  assert (Hpb : plen_ok b prev) by by apply plen_ok_needs.
  set (A := body 0 es1). assert (LA : Z.of_nat (length A) = esize es1) by apply body_length.
  set (D := body prev del). assert (LD : Z.of_nat (length D) = tot) by apply body_length.
  set (P := plen e2.1 (lastraw prev del)). assert (LP : Z.of_nat (length P) = plen_size e2.1) by apply plen_length.
  set (c := 11 + esize es). set (t := toff 10 10 es).
  assert (EB : zl = hdr c t n ++ A ++ (D ++ P) ++ zbytes e2.2 ++ body (raw e2) es3 ++ [ZIP_END]).
  { rewrite Ezl. unfold block, es. rewrite !body_app. cbn [body length app]. unfold ebytes. fold prev A D P t. rewrite <-!app_assoc. f_equal. }
  set (W' := take (Z.to_nat (tot - nd)) (D ++ P)). set (P' := drop (Z.to_nat (tot - nd)) (D ++ P)).
  assert (LW : Z.of_nat (length W') = tot - nd) by (unfold W'; rewrite length_take, length_app; lia).
  assert (LP' : Z.of_nat (length P') = prevlen_size prev) by (unfold P'; rewrite length_drop, length_app, prevlen_size_spec; fold b; lia).
  assert (EW : D ++ P = W' ++ P') by (symmetry; apply take_drop).
  set (R := body (raw e2) es3). set (E := ebytes prev e2' ++ R).
  assert (LE : Z.of_nat (length E) = c - (10 + esize es1 + tot - nd) - 1) by (unfold E, R, c; rewrite length_app, Nat2Z.inj_add, ebytes_length, body_length; lia).
  assert (Ht : t = toff (10 + esize es1 + tot + raw e2) (10 + esize es1 + tot) es3) by (unfold t, es; rewrite !toff_app; done).
  assert (Htr : 10 + esize es1 + tot <= t < 10 + esize es) by (rewrite Ht, Hes; pose proof (toff_range (10 + esize es1 + tot) (raw e2) es3 ltac:(lia)); fold tot; lia).
  set (t2 := toff (10 + Z.of_nat (length A) + raw e2') (10 + Z.of_nat (length A)) es3).
  assert (Et2 : t + - tot + (if decide (es3 = []) then 0 else nd) = t2) by (rewrite Ht, toff_moved; unfold t2; f_equal; lia).
  pose proof (tail_step c t n (A ++ W') prev e2' (raw e2) es3 (- tot) nd (fun x => 10 + Z.of_nat (length (A ++ W')) + headersize x + len x)
    ltac:(intros; lia) Hpb Hv2 Hc3 ltac:(lia) ltac:(lia) ltac:(lia)) as Etl.
  cbv beta zeta in Etl. rewrite Et2 in Etl. fold R in Etl.
  assert (Ep' : 10 + Z.of_nat (length (A ++ W')) = 10 + esize es1 + tot - nd) by (rewrite length_app; lia). rewrite Ep' in Etl.
  destruct (cascade_if fill (next_n n (- Z.of_nat (length del))) t2 A prev e2' (raw e2) es3 nd ltac:(lia) Hpb Hv2 Hc3 ltac:(lia) eq_refl) as (es3' & Ecas & Sv & Ch).
  rewrite LA in Ecas. exists e2', es3'.
  (* The run. *)
  unfold ziplistDelete_num. destruct (at_first _ _ _ _ _ Ha) as (_ & _ & _ & _ & Ez). cbv zeta in Ez. rewrite LA0 in Ez. rewrite Ez. mred. clear Ez.
  assert (Hfuel : (length del < length zl)%nat).
  { pose proof (block_length (toff 10 10 es) n [] 0 es) as Hl. rewrite <-Ezl in Hl. cbn [length] in Hl. lia. }
  pose proof (skip_spec zl (Z.of_nat (length del)) del (e2 :: es3) A0 prev (length zl) 0 Ha ltac:(lia) ltac:(lia) ltac:(intros; lia) Hfuel) as Hsk. rewrite LA0 in Hsk. fold tot in Hsk.
  rewrite Hsk. mred. clear Hsk. cbn [entry_p prevrawlen]. replace (10 + esize es1 + tot - (10 + esize es1)) with tot by lia. rewrite (proj2 (Z.ltb_lt 0 tot)) by lia.
  destruct (at_skip _ _ _ _ _ Ha) as (A2 & Ha2 & LA2). destruct (at_first _ _ _ _ _ Ha2) as ((x & Ex & Ex') & _ & _ & Eps & _). cbv zeta in Ex, Eps.
  rewrite LA2, LA0, Z.add_assoc in Ex, Eps. fold tot in Ex, Eps. rewrite Ex. mred. rewrite Ex'. cbn [negb]. unfold zipPrevLenByteDiff. rewrite Eps. mred.
  rewrite prevlen_size_spec. fold b nd. rewrite EB, EW. rewrite <-(app_assoc W'), (app_assoc A), (app_assoc (hdr c t n)).
  assert (Eoff : 10 + esize es1 + tot - nd = Z.of_nat (length (hdr c t n ++ A ++ W'))) by (rewrite length_app, hdr_length; lia).
  rewrite Eoff at 1. rewrite store_prevlen by done. mred. rewrite <-(app_assoc (hdr c t n)).
  assert (EX : hdr c t n ++ (A ++ W') ++ plen (needs_big prev) prev ++ zbytes e2.2 ++ R ++ [ZIP_END] = hdr c t n ++ (A ++ W') ++ ebytes prev e2' ++ R ++ [ZIP_END])
    by (unfold ebytes, e2'; cbn [fst snd]; by rewrite <-!app_assoc).
  fold R. rewrite EX. clear EX.
  change (u32 (?x - tot)) with (u32 (x + - tot)).
  destruct (ZIPLIST_TAIL_OFFSET (hdr c t n ++ (A ++ W') ++ ebytes prev e2' ++ R ++ [ZIP_END])) as [t0|]; cbn [mbind option_bind] in Etl |- *; [|done].
  replace (t0 - tot) with (t0 + - tot) by lia.
  destruct (set_tail_offset _ _) as [z1|]; cbn [mbind option_bind] in Etl |- *; [|done].
  destruct (zipEntry z1 _) as [te|]; cbn [mbind option_bind] in Etl |- *; [|done].
  destruct (rd1 z1 _) as [tb|]; cbn [mbind option_bind] in Etl |- *; [|done].
  rewrite Etl. mred. rewrite get_bytes by (unfold c; lia). mred.
  pose proof (memmove_gap c t2 n A W' E) as Emm. rewrite Ep', LA, LE in Emm. unfold E in Emm at 1. rewrite <-(app_assoc (ebytes prev e2')) in Emm.
  rewrite Emm. mred. rewrite get_bytes by (unfold c; lia). mred. rewrite resize_shrink by (rewrite length_app; lia). mred.
  rewrite incr_length by (try done; unfold es in Hnl; rewrite !length_app in Hnl; lia). mred. rewrite Z.add_0_l. fold (next_n n (- Z.of_nat (length del))).
  assert (EY : hdr (c - tot + nd) t2 (next_n n (- Z.of_nat (length del))) ++ (A ++ E) ++ [ZIP_END] = block t2 (next_n n (- Z.of_nat (length del))) (A ++ ebytes prev e2') (raw e2) es3).
  { unfold block, E, R. rewrite <-!app_assoc. f_equal. f_equal. rewrite length_app, Nat2Z.inj_add, ebytes_length. unfold c. lia. }
  rewrite EY. split; [|split].
  - rewrite Ecas. f_equal. rewrite block_at, block_cons. fold A prev. by rewrite toff_app.
  - unfold same_vals in *. cbn. by rewrite Sv.
  - apply chain_app. split; [done|]. cbn [chain]. done.
Qed.
