(* ===== verification/ZiplistQuery.v ===== *)
(** * ziplist.c: the list of strings a ziplist represents

    The relation [models], the traversals and searches, and the theorems: the operations of
    ziplist.c on the bytes are those of a list of strings. *)

From stdpp Require Import list.
From S2P Require Import Prelude Util Bits Ziplist ZiplistRep ZiplistOps.

(** ** Traversals *)

Lemma at_fuel zl A prev es : at_entries zl A prev es -> (length es < length zl)%nat.
Proof.
  intros (_ & h & -> & Hh). rewrite !length_app, Hh. pose proof (body_length prev es). pose proof (esize_nonneg es). lia.
Qed.

(** The offset of the entry after [es]. *)
Definition pos (es : list entry) : Z := 10 + esize es.

Lemma index_forward_spec zl : forall es A prev fuel i, at_entries zl A prev es -> 0 <= i -> (length es < fuel)%nat ->
  index_forward fuel zl (10 + Z.of_nat (length A)) i =
  Some (10 + Z.of_nat (length A) + esize (take (Z.to_nat i) es), if i <? Z.of_nat (length es) then -1 else i - Z.of_nat (length es)).
Proof.
  induction es as [|e es IH]; intros A prev fuel i Ha Hi Hf; (destruct fuel as [|fuel]; [lia|]); cbn [index_forward].
  - rewrite (at_end _ _ _ Ha). mred. change (ZIP_END =? ZIP_END) with true. cbn [negb andb length]. rewrite take_nil.
    rewrite (proj2 (Z.ltb_ge i _)) by lia. do 2 f_equal; [cbn; lia|lia].
  - destruct (at_first _ _ _ _ _ Ha) as ((b & -> & Eb) & Er & _). mred. rewrite Eb. cbn [negb andb length].
    destruct (Z.eqb_spec i 0) as [->|Hi0]; cbn [negb].
    + rewrite (proj2 (Z.ltb_lt 0 _)) by lia. change (take (Z.to_nat 0) (e :: es)) with (@nil entry). do 2 f_equal. cbn. lia.
    + rewrite Er. mred. pose proof (IH _ _ fuel (i - 1) (at_next _ _ _ _ _ Ha) ltac:(lia) ltac:(cbn in Hf; lia)) as E.
      rewrite length_app, Nat2Z.inj_add, ebytes_length, Z.add_assoc in E. rewrite E. f_equal.
      replace (Z.to_nat i) with (S (Z.to_nat (i - 1))) by lia. cbn [take]. rewrite esize_cons. f_equal; [lia|].
      destruct (Z.ltb_spec (i - 1) (Z.of_nat (length es))), (Z.ltb_spec i (Z.of_nat (S (length es)))); lia.
Qed.

(** Walking back from the last entry of [es], with the length of the one before. *)
Lemma index_back_spec zl e B : forall es fuel i n, rep zl n ((es ++ [e]) ++ B) -> 0 <= i -> (length es < fuel)%nat ->
  index_back fuel zl (pos es) (lastraw 0 es) i =
  Some (pos (take (length es - Z.to_nat i) es), if i <=? Z.of_nat (length es) then (if i =? Z.of_nat (length es) then 0 else -1) else i - Z.of_nat (length es)).
Proof.
  intros es. revert e B. induction es as [|e1 es IH] using rev_ind; intros e B fuel i n Hr Hi Hf; (destruct fuel as [|fuel]; [lia|]); cbn [index_back].
  - cbn [lastraw foldl length] in *. change (0 <? 0) with false. cbn [andb]. rewrite take_nil. do 2 f_equal.
    destruct (Z.leb_spec i (Z.of_nat 0)); [destruct (Z.eqb_spec i (Z.of_nat 0)); lia|lia].
  - assert (El : lastraw 0 (es ++ [e1]) = raw e1) by (unfold lastraw; by rewrite foldl_app). rewrite El. pose proof (raw_ge e1).
    rewrite (proj2 (Z.ltb_lt 0 (raw e1))) by lia. cbn [andb]. rewrite length_app in *. cbn [length] in *. destruct (Z.eqb_spec i 0) as [->|Hi0]; cbn [negb].
    + rewrite take_ge by (rewrite length_app; cbn [length]; lia). do 2 f_equal. rewrite (proj2 (Z.leb_le 0 _)), (proj2 (Z.eqb_neq 0 _)) by lia. done.
    + replace (pos (es ++ [e1]) - raw e1) with (pos es) by (unfold pos; rewrite esize_app, esize_cons; cbn [esize foldr]; lia).
      assert (Hr1 : rep zl n (es ++ e1 :: e :: B)) by (by rewrite <-!app_assoc in Hr).
      destruct (rep_at_skip _ _ _ _ Hr1) as (A & Ha & LA). destruct (at_first _ _ _ _ _ Ha) as (_ & _ & Ep & _). cbv zeta in Ep. rewrite LA in Ep.
      unfold pos. rewrite Ep. mred. fold (pos es). rewrite (IH e1 (e :: B) fuel (i - 1) n) by (try lia; by rewrite <-app_assoc).
      do 2 f_equal; [|destruct (Z.leb_spec (i - 1) (Z.of_nat (length es))), (Z.leb_spec i (Z.of_nat (length es + 1))); try lia;
                      destruct (Z.eqb_spec (i - 1) (Z.of_nat (length es))), (Z.eqb_spec i (Z.of_nat (length es + 1))); lia].
      unfold pos. do 2 f_equal. rewrite take_app_le by lia. f_equal. lia.
Qed.

Lemma rep_tail zl n es : rep zl n es -> ZIPLIST_TAIL_OFFSET zl = Some (toff 10 10 es) /\ ZIPLIST_BYTES zl = Some (11 + esize es) /\ ZIPLIST_LENGTH zl = Some n.
Proof.
  intros (-> & Hc & Hs & Hn & _). pose proof (esize_nonneg es). unfold block. split_and!.
  - apply get_tail. destruct es as [|x l]; [cbn; lia|]. pose proof (toff_ge 10 10 (x :: l) ltac:(done)). pose proof (toff_lt 10 10 (x :: l) ltac:(done)). lia.
  - rewrite get_bytes; cbn [length]; [f_equal; lia|lia].
  - apply get_length. unfold UINT16_MAX in Hn. pow2. lia.
Qed.

(** The byte at a position tells whether there is an entry. *)
Lemma byte_at zl n es1 es2 : rep zl n (es1 ++ es2) -> exists b, rd1 zl (pos es1) = Some b /\ (b =? ZIP_END) = bool_decide (es2 = []).
Proof.
  intros Hr. destruct (rep_at_skip _ _ _ _ Hr) as (A & Ha & LA). unfold pos. rewrite <-LA. destruct es2 as [|e es2].
  - rewrite (at_end _ _ _ Ha). by eexists.
  - destruct (at_first _ _ _ _ _ Ha) as ((b & -> & Eb) & _). exists b. split; [done|]. by rewrite Eb.
Qed.

Lemma index_spec zl n es i : rep zl n es ->
  ziplistIndex zl i = Some (let j := if i <? 0 then i + Z.of_nat (length es) else i in
    if (0 <=? j) && (j <? Z.of_nat (length es)) then Some (pos (take (Z.to_nat j) es)) else None).
Proof.
  intros Hr. unfold ziplistIndex. pose proof (at_fuel _ _ _ _ (rep_at _ _ _ Hr)) as Hf. cbv zeta. destruct (Z.ltb_spec i 0) as [Hi|Hi].
  - destruct (rep_tail _ _ _ Hr) as (-> & _). mred. destruct es as [|e es _] using rev_ind.
    + cbn [toff]. destruct (byte_at zl n [] [] Hr) as (b & E & Eb). unfold pos in E. change (10 + esize []) with 10 in E. rewrite bool_decide_true in Eb by done. rewrite E. mred. rewrite Eb. cbn [negb].
      mred. rewrite E. mred. rewrite Eb. cbn [length orb]. destruct ((0 <=? _) && _) eqn:Ej; [|done]. zbool. cbn [Z.of_nat] in *. lia.
    + rewrite toff_app. cbn [toff]. fold (pos es). destruct (byte_at zl n es [e] Hr) as (b & E & Eb). rewrite E. mred. rewrite Eb. rewrite bool_decide_false by done. cbn [negb].
      destruct (rep_at_skip _ _ _ _ Hr) as (A & Ha & LA). destruct (at_first _ _ _ _ _ Ha) as (_ & _ & Ep & _). cbv zeta in Ep. rewrite LA in Ep. fold (pos es) in Ep. rewrite Ep. mred.
      rewrite length_app in *. cbn [length] in *. rewrite (index_back_spec zl e [] es (length zl) (- i - 1) n) by (rewrite ?app_nil_r; try lia; done). mred.
      set (k := (length es - Z.to_nat (- i - 1))%nat).
      assert (Hr2 : rep zl n (take k es ++ drop k es ++ [e])) by (by rewrite app_assoc, take_drop).
      destruct (byte_at zl n _ _ Hr2) as (b2 & E2 & Eb2). rewrite E2. mred. rewrite Eb2. rewrite bool_decide_false by (intros E0; apply (f_equal length) in E0; rewrite length_app in E0; cbn [length] in E0; lia). cbn [orb].
      destruct (Z.leb_spec (- i - 1) (Z.of_nat (length es))) as [Hl|Hl].
      * rewrite (proj2 (Z.leb_le 0 _)), (proj2 (Z.ltb_lt _ (Z.of_nat (length es + 1)))) by lia. cbn [andb].
        assert (Ez : (0 <? (if - i - 1 =? Z.of_nat (length es) then 0 else -1)) = false) by (by destruct (- i - 1 =? Z.of_nat (length es))). rewrite Ez. f_equal. f_equal. f_equal.
        rewrite take_app_le by lia. f_equal. unfold k. lia.
      * rewrite (proj2 (Z.ltb_lt 0 _)) by lia. rewrite (proj2 (Z.leb_gt 0 _)) by lia. done.
  - pose proof (index_forward_spec zl es [] 0 (length zl) i (rep_at _ _ _ Hr) Hi Hf) as E. change (10 + Z.of_nat (length [])) with ZIPLIST_HEADER_SIZE in E. rewrite E. mred.
    set (k := Z.to_nat i). assert (Hr2 : rep zl n (take k es ++ drop k es)) by (by rewrite take_drop).
    destruct (byte_at zl n _ _ Hr2) as (b2 & E2 & Eb2). change (ZIPLIST_HEADER_SIZE + esize (take k es)) with (pos (take k es)). rewrite E2. mred. rewrite Eb2.
    rewrite (proj2 (Z.leb_le 0 i)) by lia. cbn [andb]. destruct (Z.ltb_spec i (Z.of_nat (length es))) as [Hl|Hl].
    + rewrite bool_decide_false; [done|]. intros E0. apply (f_equal length) in E0. rewrite length_drop in E0. cbn in E0. lia.
    + rewrite bool_decide_true; [done|]. apply drop_ge. lia.
Qed.

Lemma next_spec zl n es1 e es2 : rep zl n (es1 ++ e :: es2) ->
  ziplistNext zl (pos es1) = Some (if bool_decide (es2 = []) then None else Some (pos (es1 ++ [e]))).
Proof.
  intros Hr. unfold ziplistNext. destruct (byte_at _ _ _ _ Hr) as (b & -> & Eb). mred. rewrite Eb, bool_decide_false by done.
  destruct (rep_at_skip _ _ _ _ Hr) as (A & Ha & LA). destruct (at_first _ _ _ _ _ Ha) as (_ & Er & _). cbv zeta in Er. rewrite LA in Er. fold (pos es1) in Er. rewrite Er. mred.
  assert (Ep : pos es1 + raw e = pos (es1 ++ [e])) by (unfold pos; rewrite esize_app, esize_cons; cbn [esize foldr]; lia).
  rewrite Ep. assert (Hr2 : rep zl n ((es1 ++ [e]) ++ es2)) by (by rewrite <-app_assoc). destruct (byte_at _ _ _ _ Hr2) as (b2 & -> & Eb2). mred. by rewrite Eb2.
Qed.

Lemma prev_spec zl n es1 es2 : rep zl n (es1 ++ es2) ->
  ziplistPrev zl (pos es1) = Some (if bool_decide (es1 = []) then None else Some (pos (removelast es1))).
Proof.
  intros Hr. unfold ziplistPrev. destruct (byte_at _ _ _ _ Hr) as (b & -> & Eb). mred. rewrite Eb. case_bool_decide as H2.
  - subst es2. rewrite app_nil_r in Hr. destruct (rep_tail _ _ _ Hr) as (-> & _). mred. destruct es1 as [|e0 es0 _] using rev_ind.
    + cbn [toff]. destruct (byte_at zl n [] [] Hr) as (b2 & E2 & Eb2). change (pos []) with 10 in E2. rewrite E2. mred. by rewrite Eb2.
    + rewrite toff_app. cbn [toff]. fold (pos es0). destruct (byte_at _ _ _ _ Hr) as (b2 & -> & Eb2). mred. rewrite Eb2, bool_decide_false by done.
      rewrite bool_decide_false by (by destruct es0). by rewrite removelast_last.
  - destruct es2 as [|e2 es2]; [done|]. destruct (rep_at_skip _ _ _ _ Hr) as (A & Ha & LA). destruct (at_first _ _ _ _ _ Ha) as (_ & _ & Ep & _). cbv zeta in Ep. rewrite LA in Ep.
    destruct es1 as [|e0 es0 _] using rev_ind; [done|]. pose proof (raw_ge e0). pose proof (esize_nonneg es0).
    assert (Es : esize (es0 ++ [e0]) = esize es0 + raw e0) by (rewrite esize_app, esize_cons; cbn [esize foldr]; lia).
    unfold ZIPLIST_HEADER_SIZE. rewrite (proj2 (Z.eqb_neq (pos (es0 ++ [e0])) 10)) by (unfold pos; lia). fold (pos (es0 ++ [e0])) in Ep. rewrite Ep. mred.
    assert (El : lastraw 0 (es0 ++ [e0]) = raw e0) by (unfold lastraw; by rewrite foldl_app). rewrite El, (proj2 (Z.ltb_lt 0 _)) by lia.
    rewrite bool_decide_false by (by destruct es0). rewrite removelast_last. do 2 f_equal. unfold pos. lia.
Qed.

(** The data of an entry. *)
Lemma at_data zl A prev e es : at_entries zl A prev (e :: es) -> let q := 10 + Z.of_nat (length A) + (plen_size e.1 + Z.of_nat (length (zhead e.2))) in
  rd zl q (Z.of_nat (length (zdata e.2))) = Some (zdata e.2) /\ (forall m, e.2 = ZInt m -> zipLoadInteger zl q (int_encoding m) = Some m).
Proof.
  intros ((Hp & Hv & Hc) & h & -> & Hh) q. cbn [body]. unfold ebytes, zbytes. rewrite <-!app_assoc.
  assert (E : forall Y, h ++ A ++ plen e.1 prev ++ zhead e.2 ++ Y = (h ++ A ++ plen e.1 prev ++ zhead e.2) ++ Y) by (intros Y; by rewrite <-!app_assoc).
  assert (Lq : q = Z.of_nat (length (h ++ A ++ plen e.1 prev ++ zhead e.2))) by (unfold q; rewrite !length_app, Hh; pose proof (plen_length e.1 prev); lia).
  rewrite E, Lq. split; [by apply rd_mid|]. intros m Em. rewrite Em. apply load_integer. by rewrite Em in Hv.
Qed.

Lemma zenc_str v : ZIP_IS_STR (zenc v) = match v with ZStr _ => true | ZInt _ => false end.
Proof. destruct v as [s|m]; [apply str_encoding_is_str|apply int_encoding_not_str]. Qed.

Lemma get_spec zl n es1 e es2 : rep zl n (es1 ++ e :: es2) -> ziplistGet zl (pos es1) = Some (Some e.2).
Proof.
  intros Hr. unfold ziplistGet. destruct (byte_at _ _ _ _ Hr) as (b & -> & Eb). mred. rewrite Eb, bool_decide_false by done.
  destruct (rep_at_skip _ _ _ _ Hr) as (A & Ha & LA). destruct (at_first _ _ _ _ _ Ha) as (_ & _ & _ & _ & Ez). destruct (at_data _ _ _ _ _ Ha) as [Ed Ei].
  cbv zeta in Ez, Ed, Ei. rewrite LA in Ez, Ed, Ei. fold (pos es1) in Ez, Ed, Ei. rewrite Ez. mred. cbn [encoding headersize len]. rewrite zenc_str.
  destruct (e.2) as [s|m] eqn:Ev; [by rewrite Ed|cbn [zenc]; by rewrite (Ei m eq_refl)].
Qed.

(** Comparing a value with a string. *)
Lemma zval_of_text v : zval_ok v -> zval_of (text v) = v.
Proof.
  destruct v as [s|m]; cbn [text zval_ok]; unfold zval_of; [by intros [-> _]|]. intros Hm. unfold zipTryEncoding. pose proof (decimal_bounds m Hm).
  rewrite (proj2 (Z.leb_gt 32 _)), (proj2 (Z.eqb_neq _ 0)) by lia. cbn [orb]. by rewrite string2ll_complete.
Qed.

Lemma try_encoding_spec s : match zipTryEncoding s with Some (m, enc) => zval_of s = ZInt m /\ enc = int_encoding m | None => zval_of s = ZStr s end.
Proof.
  unfold zval_of. destruct (zipTryEncoding s) as [[m enc]|] eqn:E; [|done]. split; [done|]. unfold zipTryEncoding in E.
  destruct (_ || _); [done|]. destruct (string2ll s) as [m'|]; [|done]. cbn [mbind option_bind] in E. by injection E as <- <-.
Qed.

Lemma zval_of_str s t : zipTryEncoding t = None -> (zval_of s = ZStr t <-> s = t).
Proof. intros Ht. split; [|intros ->; unfold zval_of; by rewrite Ht]. intros E. by rewrite <-(text_zval_of s), E. Qed.

Lemma compare_spec zl n es1 e es2 s : rep zl n (es1 ++ e :: es2) -> ziplistCompare zl (pos es1) s = Some (bool_decide (zval_of s = e.2)).
Proof.
  intros Hr. unfold ziplistCompare. destruct (byte_at _ _ _ _ Hr) as (b & -> & Eb). mred. rewrite Eb, bool_decide_false by done.
  destruct (rep_at_skip _ _ _ _ Hr) as (A & Ha & LA). destruct (at_first _ _ _ _ _ Ha) as (_ & _ & _ & _ & Ez). destruct (at_data _ _ _ _ _ Ha) as [Ed Ei].
  cbv zeta in Ez, Ed, Ei. rewrite LA in Ez, Ed, Ei. fold (pos es1) in Ez, Ed, Ei. rewrite Ez. mred. cbn [encoding headersize len]. rewrite zenc_str.
  destruct Ha as ((_ & Hv & _) & _). destruct (e.2) as [t|m] eqn:Ev; cbn [zdata] in *.
  - destruct Hv as [Ht _]. destruct (Z.eqb_spec (Z.of_nat (length t)) (Z.of_nat (length s))) as [El|El].
    + rewrite Ed. mred. f_equal. apply bool_decide_ext. rewrite zval_of_str by done. naive_solver.
    + rewrite bool_decide_false; [done|]. rewrite zval_of_str by done. by intros ->.
  - pose proof (try_encoding_spec s) as Hs. destruct (zipTryEncoding s) as [[sv enc]|].
    + destruct Hs as [-> _]. cbn [zenc]. rewrite (Ei m eq_refl). mred. f_equal. destruct (Z.eqb_spec m sv) as [->|Hne]; [by rewrite bool_decide_true|]. rewrite bool_decide_false; [done|congruence].
    + rewrite Hs, bool_decide_false; done.
Qed.

Lemma len_loop_spec zl : forall es A prev fuel k, at_entries zl A prev es -> (length es < fuel)%nat ->
  len_loop fuel zl (10 + Z.of_nat (length A)) k = Some (k + Z.of_nat (length es)).
Proof.
  induction es as [|e es IH]; intros A prev fuel k Ha Hf; (destruct fuel as [|fuel]; [lia|]); cbn [len_loop].
  - rewrite (at_end _ _ _ Ha). mred. change (ZIP_END =? ZIP_END) with true. cbv iota. cbn [length]. f_equal. lia.
  - destruct (at_first _ _ _ _ _ Ha) as ((b & -> & Eb) & Er & _). mred. rewrite Eb, Er. mred.
    pose proof (IH _ _ fuel (k + 1) (at_next _ _ _ _ _ Ha) ltac:(cbn in Hf; lia)) as E. rewrite length_app, Nat2Z.inj_add, ebytes_length, Z.add_assoc in E. rewrite E.
    cbn [length]. f_equal. lia.
Qed.

Lemma len_spec zl n es : rep zl n es -> exists zl' n', ziplistLen zl = Some (Z.of_nat (length es), zl') /\ rep zl' n' es.
Proof.
  intros Hr. unfold ziplistLen. destruct (rep_tail _ _ _ Hr) as (_ & _ & ->). mred. pose proof Hr as (Ezl & Hc & Hs & Hn & Hnl).
  destruct (Z.ltb_spec n UINT16_MAX) as [H|H]; [exists zl, n; by rewrite <-(Hnl H)|].
  pose proof (len_loop_spec zl es [] 0 (length zl) 0 (rep_at _ _ _ Hr) (at_fuel _ _ _ _ (rep_at _ _ _ Hr))) as E. cbn [length] in E. change (10 + Z.of_nat 0) with ZIPLIST_HEADER_SIZE in E.
  rewrite E. mred. rewrite Z.add_0_l. destruct (Z.ltb_spec (Z.of_nat (length es)) UINT16_MAX) as [Hl|Hl]; [|by eauto]. rewrite Ezl. unfold block at 1. rewrite put_length. mred.
  eexists _, (Z.of_nat (length es)). split; [done|]. apply rep_intro; try done. lia.
Qed.

(** ** Searching *)

(** The first element equal to [s] at a distance from the start that is a multiple of [skip + 1]. *)
Fixpoint find_from (l : list (list Z)) (s : list Z) (skip cnt : nat) : option nat :=
  match l with
  | [] => None
  | x :: l => match cnt with
              | O => if bool_decide (x = s) then Some O else S <$> find_from l s skip skip
              | S cnt => S <$> find_from l s skip cnt
              end
  end.

Definition texts (es : list entry) : list (list Z) := map (fun e => text e.2) es.

(** The cached encoding of the string searched. *)
Definition cache_ok (s : list Z) (venc vll : Z) : Prop :=
  venc = 0 \/ match zipTryEncoding s with Some (m, enc) => vll = m /\ venc = enc | None => venc = 255 end.

Lemma text_eq v s : zval_ok v -> (text v = s <-> zval_of s = v).
Proof. intros Hv. split; [intros <-; by apply zval_of_text|intros <-; apply text_zval_of]. Qed.

Lemma cache_step s venc vll : cache_ok s venc vll ->
  let '(v, e) := if venc =? 0 then match zipTryEncoding s with Some (v, e) => (v, e) | None => (vll, 255) end else (vll, venc) in
  cache_ok s e v /\ (e =? 0) = false /\ match zipTryEncoding s with Some (m, _) => v = m /\ (e =? 255) = false | None => e = 255 end.
Proof.
  intros Hc. pose proof (try_encoding_spec s) as Hs. unfold cache_ok in *. destruct (Z.eqb_spec venc 0) as [H0|H0].
  - destruct (zipTryEncoding s) as [[m enc]|]; [|by split; [right|]]. destruct Hs as [_ ->]. pose proof (int_encoding_range m).
    split; [by right|]. split; [apply Z.eqb_neq; lia|]. split; [done|]. apply Z.eqb_neq. lia.
  - destruct Hc as [Hc|Hc]; [done|]. destruct (zipTryEncoding s) as [[m enc]|].
    + destruct Hc as [-> ->], Hs as [_ ->]. pose proof (int_encoding_range m). split; [by right|]. split; [by apply Z.eqb_neq|]. split; [done|]. apply Z.eqb_neq. lia.
    + subst venc. by split; [right|].
Qed.

Lemma find_loop_spec zl s (skip : nat) : forall es A prev fuel (cnt : nat) venc vll, at_entries zl A prev es -> (length es < fuel)%nat -> cache_ok s venc vll ->
  find_loop fuel zl (10 + Z.of_nat (length A)) s (Z.of_nat skip) (Z.of_nat cnt) venc vll =
  Some (j ← find_from (texts es) s skip cnt; Some (10 + Z.of_nat (length A) + esize (take j es))).
Proof.
  induction es as [|e es IH]; intros A prev fuel cnt venc vll Ha Hf Hc; (destruct fuel as [|fuel]; [lia|]); cbn [find_loop].
  - rewrite (at_end _ _ _ Ha). mred. done.
  - destruct (at_first _ _ _ _ _ Ha) as ((b & -> & Eb) & Er & _ & Eps & _). mred. rewrite Eb, Eps. mred.
    destruct (at_data _ _ _ _ _ Ha) as [Ed Ei]. cbv zeta in Ed, Ei. pose proof Ha as ((Hp & Hv & _) & _).
    unfold zipRawEntryLength in Er. rewrite Eps in Er. cbn [mbind option_bind] in Er.
    assert (Edl : ZIP_DECODE_LENGTH zl (10 + Z.of_nat (length A) + plen_size e.1) = Some (zenc e.2, Z.of_nat (length (zhead e.2)), Z.of_nat (length (zdata e.2)))).
    { destruct Ha as (_ & h & -> & Hh). cbn [body]. unfold ebytes. rewrite <-!app_assoc, (app_assoc A), (app_assoc h).
      replace (10 + Z.of_nat (length A) + plen_size e.1) with (Z.of_nat (length (h ++ A ++ plen e.1 prev))); [by apply decode_length|].
      rewrite !length_app, Hh. pose proof (plen_length e.1 prev). lia. }
    rewrite Edl. mred. clear Edl Er Eps.
    set (p := 10 + Z.of_nat (length A)) in *. set (q := p + plen_size e.1 + Z.of_nat (length (zhead e.2))).
    replace (p + (plen_size e.1 + Z.of_nat (length (zhead e.2)))) with q in Ed, Ei by (unfold q; lia).
    assert (Hrec : forall cnt venc vll, cache_ok s venc vll ->
      find_loop fuel zl (q + Z.of_nat (length (zdata e.2))) s (Z.of_nat skip) (Z.of_nat cnt) venc vll =
      Some (j ← (S <$> find_from (texts es) s skip cnt); Some (p + esize (take j (e :: es))))).
    { intros cnt' venc' vll' Hc'. pose proof (IH _ _ fuel cnt' venc' vll' (at_next _ _ _ _ _ Ha) ltac:(cbn in Hf; lia) Hc') as E.
      replace (10 + Z.of_nat (length (A ++ ebytes prev e))) with (q + Z.of_nat (length (zdata e.2))) in E.
      2: { rewrite length_app, Nat2Z.inj_add, ebytes_length. unfold q, p, raw, zbytes. rewrite length_app. lia. }
      rewrite E. f_equal. destruct (find_from (texts es) s skip cnt') as [j|]; [|done]. cbn [fmap option_fmap option_map mbind option_bind take]. f_equal. rewrite esize_cons.
      unfold q, raw, zbytes. rewrite length_app. lia. }
    cbn [texts map find_from]. destruct cnt as [|cnt].
    + change (Z.of_nat 0 =? 0) with true. cbv iota. rewrite zenc_str. pose proof (text_eq e.2 s Hv) as Ht. pose proof (try_encoding_spec s) as Hs.
      destruct (e.2) as [t|m] eqn:Ev; cbn [zdata text] in *.
      * assert (Ef : (if Z.of_nat (length t) =? Z.of_nat (length s) then s0 ← rd zl q (Z.of_nat (length t)); Some (bool_decide (s0 = s)) else Some false) = Some (bool_decide (t = s))).
        { destruct (Z.eqb_spec (Z.of_nat (length t)) (Z.of_nat (length s))); [by rewrite Ed|]. rewrite bool_decide_false; [done|]. by intros ->. }
        rewrite Ef. mred. case_bool_decide; [mred; cbn [take esize foldr]; do 2 f_equal; lia|]. by apply Hrec.
      * pose proof (cache_step s venc vll Hc) as Hst. destruct (if venc =? 0 then _ else _) as [v1 e1]. destruct Hst as (Hc1 & -> & Hm). cbn [zenc].
        assert (Ef : (if negb (e1 =? 255) then ll ← zipLoadInteger zl q (int_encoding m); Some (ll =? v1) else Some false) = Some (bool_decide (decimal m = s))).
        { destruct (zipTryEncoding s) as [[m' enc]|].
          - destruct Hm as [-> ->]. cbn [negb]. rewrite (Ei m eq_refl). mred. f_equal. destruct Hs as [Hz _]. rewrite Hz in Ht.
            destruct (Z.eqb_spec m m') as [->|Hne]; [symmetry; apply bool_decide_eq_true; by apply Ht|]. symmetry. apply bool_decide_eq_false. rewrite Ht. congruence.
          - rewrite Hm. cbn [Z.eqb Pos.eqb negb]. rewrite Hs in Ht. rewrite bool_decide_false; [done|]. rewrite Ht. done. }
        rewrite Ef. mred. case_bool_decide; [mred; cbn [take esize foldr]; do 2 f_equal; lia|]. by apply Hrec.
    + rewrite (proj2 (Z.eqb_neq (Z.of_nat (S cnt)) 0)) by lia. replace (Z.of_nat (S cnt) - 1) with (Z.of_nat cnt) by lia. by apply Hrec.
Qed.

(** ** Merging *)

(** The joined blocks, by extending either of them. *)
Lemma merge_bytes fill h1 h2 B1 B2 (append : bool) : length h1 = 10%nat -> length h2 = 10%nat ->
  let c1 := 11 + Z.of_nat (length B1) in let c2 := 11 + Z.of_nat (length B2) in let c := c1 + c2 - ZIPLIST_HEADER_SIZE - ZIPLIST_END_SIZE in
  (if append then
     src ← rd (h2 ++ B2 ++ [ZIP_END]) ZIPLIST_HEADER_SIZE (c2 - ZIPLIST_HEADER_SIZE);
     wr (zrealloc fill (h1 ++ B1 ++ [ZIP_END]) c) (c1 - ZIPLIST_END_SIZE) src
   else
     target ← memmove (zrealloc fill (h2 ++ B2 ++ [ZIP_END]) c) (c1 - ZIPLIST_END_SIZE) ZIPLIST_HEADER_SIZE (c2 - ZIPLIST_HEADER_SIZE);
     src ← rd (h1 ++ B1 ++ [ZIP_END]) 0 (c1 - ZIPLIST_END_SIZE);
     wr target 0 src) =
  Some (h1 ++ B1 ++ B2 ++ [ZIP_END]).
Proof.
  intros L1 L2 c1 c2 c. assert (Ec : c = 11 + Z.of_nat (length B1) + Z.of_nat (length B2)) by (unfold c, c1, c2, ZIPLIST_HEADER_SIZE, ZIPLIST_END_SIZE; lia).
  unfold zrealloc. destruct append.
  - pose proof (rd_mid h2 (B2 ++ [ZIP_END]) [] ZIPLIST_HEADER_SIZE (c2 - ZIPLIST_HEADER_SIZE)) as E. rewrite app_nil_r in E.
    rewrite E by (rewrite ?length_app, ?L2; unfold c2, ZIPLIST_HEADER_SIZE; cbn [length]; lia). mred.
    rewrite (take_ge (h1 ++ B1 ++ [ZIP_END])) by (rewrite !length_app, L1; cbn [length]; lia).
    set (f := replicate _ fill). assert (Lf : length f = length B2) by (unfold f; rewrite length_replicate, !length_app, L1; cbn [length]; lia).
    pose proof (wr_mid (h1 ++ B1) ([ZIP_END] ++ f) (B2 ++ [ZIP_END]) [] (c1 - ZIPLIST_END_SIZE)) as W. rewrite !app_nil_r in W. rewrite <-!app_assoc in W |- *.
    rewrite W by (rewrite ?length_app, ?L1; unfold c1, ZIPLIST_END_SIZE; cbn [length]; lia). done.
  - rewrite (take_ge (h2 ++ B2 ++ [ZIP_END])) by (rewrite !length_app, L2; cbn [length]; lia).
    set (f := replicate _ fill). assert (Lf : length f = length B1) by (unfold f; rewrite length_replicate, !length_app, L2; cbn [length]; lia).
    set (T := (h2 ++ B2 ++ [ZIP_END]) ++ f). assert (LT : length T = (11 + length B1 + length B2)%nat) by (unfold T; rewrite !length_app, L2, Lf; cbn [length]; lia).
    pose proof (memmove_mid h2 [] (B2 ++ [ZIP_END]) f (take (10 + length B1) T) (drop (10 + length B1) T) [] (c1 - ZIPLIST_END_SIZE) ZIPLIST_HEADER_SIZE (c2 - ZIPLIST_HEADER_SIZE)) as M.
    cbn [app] in M. rewrite !app_nil_r, take_drop in M. rewrite (app_assoc h2) in M. fold T in M. rewrite M.
    2: done. 2: rewrite length_drop, LT, length_app; cbn [length]; lia. 2: rewrite L2; done. 2: rewrite length_take, LT; unfold c1, ZIPLIST_END_SIZE; lia.
    2: rewrite length_app; unfold c2, ZIPLIST_HEADER_SIZE; cbn [length]; lia.
    mred. rewrite (app_assoc h1). rewrite (rd_mid [] (h1 ++ B1) [ZIP_END] 0) by (rewrite ?length_app, ?L1; unfold c1, ZIPLIST_END_SIZE; done || lia). mred.
    pose proof (wr_mid [] (take (10 + length B1) T) (h1 ++ B1) (B2 ++ [ZIP_END]) 0) as W. cbn [app] in W. rewrite W by (rewrite ?length_take, ?LT, ?length_app, ?L1; done || lia).
    by rewrite <-!app_assoc.
Qed.

Lemma merge_spec fill z1 z2 n1 n2 es1 es2 : rep z1 n1 es1 -> rep z2 n2 es2 -> es2 <> [] -> room (es1 ++ es2) 0 ->
  exists zl n es2', ziplistMerge fill z1 z2 = Some zl /\ rep zl n es2' /\ same_vals (es1 ++ es2) es2'.
Proof.
  intros Hr1 Hr2 Hne Hroom. unfold room in Hroom. rewrite esize_app, length_app in Hroom. pose proof (esize_nonneg es1). pose proof (esize_nonneg es2).
  destruct (rep_tail _ _ _ Hr1) as (Et1 & Eb1 & El1). destruct (rep_tail _ _ _ Hr2) as (Et2 & Eb2 & El2).
  pose proof Hr1 as (E1 & Hc1 & Hs1 & Hn1 & Hl1). pose proof Hr2 as (E2 & Hc2 & Hs2 & Hn2 & Hl2). unfold ziplistMerge.
  rewrite Eb1. mred. rewrite El1. mred. rewrite Eb2. mred. rewrite El2. mred. rewrite Et1. mred. rewrite Et2. mred.
  pose proof (body_length 0 es1) as LB1. pose proof (body_length 0 es2) as LB2.
  set (h1 := hdr (11 + Z.of_nat (length (@nil Z)) + esize es1) (toff 10 10 es1) n1). set (h2 := hdr (11 + Z.of_nat (length (@nil Z)) + esize es2) (toff 10 10 es2) n2).
  assert (F1 : z1 = h1 ++ body 0 es1 ++ [ZIP_END]) by (rewrite E1; done). assert (F2 : z2 = h2 ++ body 0 es2 ++ [ZIP_END]) by (rewrite E2; done).
  pose proof (merge_bytes fill h1 h2 (body 0 es1) (body 0 es2) (n2 <=? n1) (hdr_length _ _ _) (hdr_length _ _ _)) as Hm. cbv zeta in Hm. rewrite LB1, LB2, <-F1, <-F2 in Hm.
  set (c := 11 + esize es1 + (11 + esize es2) - ZIPLIST_HEADER_SIZE - ZIPLIST_END_SIZE) in *. assert (Ec : c = 11 + esize es1 + esize es2) by (unfold c, ZIPLIST_HEADER_SIZE, ZIPLIST_END_SIZE; lia).
  destruct (if n2 <=? n1 then _ else _) as [T|] eqn:ET; [|by destruct (n2 <=? n1)]. mred.
  assert (EqT : T = h1 ++ body 0 es1 ++ body 0 es2 ++ [ZIP_END]) by (destruct (n2 <=? n1); apply (inj Some) in Hm; by rewrite <-Hm). clear ET Hm.
  rewrite EqT. unfold h1. rewrite put_bytes. mred. rewrite put_length. mred. rewrite put_tail. mred.
  set (n := if n1 + n2 <? UINT16_MAX then n1 + n2 else UINT16_MAX). unfold ZIPLIST_END_SIZE, ZIPLIST_HEADER_SIZE.
  set (t := 11 + esize es1 - 1 + (toff 10 10 es2 - 10)).
  assert (Ht : t = toff (10 + esize es1) 0 es2) by (unfold t; rewrite (toff_shift 10 0 10) by done; lia).
  assert (Hnok : 0 <= n <= UINT16_MAX /\ (n < UINT16_MAX -> n = Z.of_nat (length es1 + length es2))).
  { unfold n, UINT16_MAX in *. destruct (Z.ltb_spec (n1 + n2) 65535); lia. }
  destruct es1 as [|el es0 _] using rev_ind.
  - (* The first list is empty. *)
    cbn [body app toff esize foldr length] in *. destruct es2 as [|e2 es2]; [done|]. cbn [chain] in Hc2. destruct Hc2 as (Hp2 & Hv2 & Hc2). rewrite esize_cons in *. pose proof (raw_ge e2). pose proof (esize_nonneg es2).
    pose proof (cascade_update fill n t [] 0 e2 (raw e2) es2 Hp2 Hv2 Hc2) as G. cbv zeta in G. cbn [app length Z.of_nat] in G. rewrite Z.add_0_r in G.
    assert (Htl : t = toff (10 + raw e2) 10 es2) by (rewrite Ht; done).
    assert (Htr : 0 <= t < 2 ^ 32). { rewrite Htl. destruct es2 as [|x l]; [cbn; lia|]. pose proof (toff_ge (10 + raw e2) 10 (x :: l) ltac:(done)). pose proof (toff_lt (10 + raw e2) 10 (x :: l) ltac:(done)). cbn [length] in *. lia. }
    destruct G as (es' & t' & EG & Sv & Ch & Et'); [cbn [length] in *; lia|rewrite Htl; by destruct es2|done|].
    assert (EB : hdr c t n ++ (ebytes 0 e2 ++ body (raw e2) es2) ++ [ZIP_END] = block t n (ebytes 0 e2) (raw e2) es2).
    { unfold block. rewrite <-app_assoc. f_equal. f_equal. rewrite ebytes_length. lia. }
    cbn [body] in *. rewrite EB, EG. destruct (same_vals_size _ _ Sv) as [Hz Hl]. exists (block t' n (ebytes 0 e2) (raw e2) es'), n, (e2 :: es'). split; [done|]. split; [|unfold same_vals in *; cbn; by rewrite Sv].
    refine (conj _ (conj _ (conj _ (conj _ _)))).
    + rewrite block_cons. cbn [app toff]. f_equal. rewrite Et'. destruct es' as [|? ?]; [|done]. cbn [toff]. destruct es2; [done|]. by apply (f_equal length) in Sv.
    + done.
    + rewrite esize_cons. cbn [length] in *. lia.
    + apply Hnok.
    + cbn [length] in *. rewrite Hl. apply Hnok.
  - rewrite esize_app, esize_cons in *. change (esize []) with 0 in *. rewrite length_app in *. cbn [length] in *. pose proof (raw_ge el). pose proof (esize_nonneg es0).
    apply chain_app in Hc1 as [Hc0 (Hpl & Hvl & _)]. set (prev := lastraw 0 es0) in *. set (A := body 0 es0). assert (LA : Z.of_nat (length A) = esize es0) by apply body_length.
    rewrite toff_app. cbn [toff]. rewrite body_app. cbn [body]. fold prev A. rewrite app_nil_r.
    pose proof (cascade_update fill n t A prev el 0 es2 Hpl Hvl Hc2) as G. cbv zeta in G. rewrite LA in G.
    assert (Htl : t = toff (10 + esize es0 + raw el) 0 es2) by (rewrite Ht; f_equal; lia).
    assert (Htr : 0 <= t < 2 ^ 32). { rewrite Htl. pose proof (toff_ge (10 + esize es0 + raw el) 0 es2 Hne). pose proof (toff_lt (10 + esize es0 + raw el) 0 es2 Hne). lia. }
    destruct G as (es' & t' & EG & Sv & Ch & Et'); [lia|rewrite Htl; by destruct es2|done|].
    assert (EB : hdr c t n ++ (A ++ ebytes prev el) ++ body 0 es2 ++ [ZIP_END] = block t n (A ++ ebytes prev el) 0 es2).
    { unfold block. f_equal. f_equal. rewrite length_app, Nat2Z.inj_add, ebytes_length. lia. }
    rewrite EB, EG. destruct (same_vals_size _ _ Sv) as [Hz Hl]. exists (block t' n (A ++ ebytes prev el) (raw el) es'), n, (es0 ++ el :: es'). split; [done|].
    split; [|unfold same_vals in *; rewrite !fmap_app, fmap_cons, Sv; cbn; by rewrite <-!app_assoc].
    refine (conj _ (conj _ (conj _ (conj _ _)))).
    + rewrite block_at, block_cons. fold A prev. f_equal. rewrite toff_app. cbn [toff]. rewrite Et'. destruct es' as [|? ?]; [|done]. destruct es2; [done|]. by apply (f_equal length) in Sv.
    + apply chain_app. split; [done|]. cbn [chain]. done.
    + rewrite esize_app, esize_cons. lia.
    + apply Hnok.
    + intros Hlt. rewrite length_app. cbn [length]. rewrite Hl. destruct Hnok as [_ Hnok]. rewrite (Hnok Hlt). lia.
Qed.

(** ** The theorems *)

(** [zl] is a ziplist of the strings [l]. *)
Definition models (zl : list Z) (l : list (list Z)) : Prop := exists n es, rep zl n es /\ texts es = l.

Lemma texts_same es es' : same_vals es es' -> texts es' = texts es.
Proof.
  assert (H : forall es, texts es = map text es.*2) by (intros l; induction l as [|e l IH]; [done|]; unfold texts in *; cbn; by rewrite IH).
  unfold same_vals. intros E. by rewrite !H, E.
Qed.

Lemma texts_app es1 es2 : texts (es1 ++ es2) = texts es1 ++ texts es2.
Proof. apply map_app. Qed.

Lemma texts_length es : length (texts es) = length es.
Proof. apply length_map. Qed.

Lemma texts_take k es : texts (take k es) = take k (texts es).
Proof. symmetry. apply firstn_map. Qed.

Lemma texts_drop k es : texts (drop k es) = drop k (texts es).
Proof. symmetry. apply skipn_map. Qed.

(** The size of the block bounds the number of entries. *)
Definition fits (k : Z) : Prop := 3 * k + 64 < 2 ^ 32.

Lemma rep_length zl n es : rep zl n es -> Z.of_nat (length zl) = 11 + esize es.
Proof. intros (-> & _). rewrite block_length. cbn [length]. lia. Qed.

Lemma rep_room zl n es (k : nat) : rep zl n es -> fits (Z.of_nat (length zl) + Z.of_nat k) -> room es (Z.of_nat k).
Proof. unfold fits, room. intros Hr. rewrite (rep_length _ _ _ Hr). pose proof (esize_nonneg es). lia. Qed.

Lemma insert_models fill zl n es1 es2 s : rep zl n (es1 ++ es2) -> fits (Z.of_nat (length zl) + Z.of_nat (length s)) ->
  exists z, ziplistInsert fill zl (pos es1) s = Some z /\ models z (texts es1 ++ s :: texts es2).
Proof.
  intros Hr Hf. destruct (insert_spec fill zl n es1 es2 s Hr (rep_room _ _ _ _ Hr Hf)) as (z & n' & e & es2' & E & Hr' & Ev & Sv).
  exists z. split; [exact E|]. exists n', (es1 ++ e :: es2'). split; [done|]. rewrite texts_app. f_equal. cbn [texts map]. rewrite Ev, text_zval_of. f_equal. by apply texts_same.
Qed.

Lemma delete_models fill zl n es1 es2 (num : nat) : rep zl n (es1 ++ es2) -> es2 <> [] -> fits (Z.of_nat (length zl)) ->
  exists z, ziplistDelete_num fill zl (pos es1) (Z.of_nat num) = Some z /\ models z (texts es1 ++ drop num (texts es2)).
Proof.
  intros Hr Hne Hf. assert (Hroom : room (es1 ++ es2) 0) by (apply (rep_room zl n _ 0 Hr); by rewrite Z.add_0_r). unfold room in Hroom.
  pose proof Hr as (_ & Hc & Hs & Hn & Hnl). destruct num as [|num0].
  { exists zl. split; [|exists n, (es1 ++ es2); split; [done|]; by rewrite texts_app]. unfold ziplistDelete_num. destruct es2 as [|e2 es2]; [done|].
    destruct (rep_at_skip _ _ _ _ Hr) as (A & Ha & LA). destruct (at_first _ _ _ _ _ Ha) as (_ & _ & _ & _ & Ez). cbv zeta in Ez. rewrite LA in Ez. fold (pos es1) in Ez. rewrite Ez. mred.
    pose proof (skip_spec zl 0 [] (e2 :: es2) A _ (length zl) 0 Ha ltac:(lia) ltac:(cbn; lia) ltac:(intros; cbn; lia) ltac:(pose proof (at_fuel _ _ _ _ Ha); cbn [length] in *; lia)) as E.
    rewrite LA in E. fold (pos es1) in E. change (Z.of_nat 0) with 0. rewrite E. mred. cbn [entry_p esize foldr]. rewrite (proj2 (Z.ltb_ge 0 _)) by lia. done. }
  set (num := S num0) in *. assert (Hdel : take num es2 <> []) by (by destruct es2).
  destruct (drop num es2) as [|e2 es3] eqn:Ed.
  - assert (Et : take num es2 = es2) by (apply take_ge; apply (f_equal length) in Ed; rewrite length_drop in Ed; cbn in Ed; lia).
    assert (Hlen : (length es2 <= num)%nat) by (apply (f_equal length) in Ed; rewrite length_drop in Ed; cbn in Ed; lia).
    pose proof (delete_end fill zl n es1 es2 (Z.of_nat num) Hr Hne ltac:(lia)) as E. eexists. split; [exact E|].
    exists (next_n n (- Z.of_nat (length es2))), es1. split; [|rewrite <-texts_drop, Ed, app_nil_r; done].
    rewrite length_app in Hnl. rewrite esize_app in Hs. pose proof (esize_nonneg es2). apply chain_app in Hc as [Hc _].
    destruct (next_n_ok n (- Z.of_nat (length es2)) (length es1 + length es2) (length es1)) as [? ?]; try done; try lia. by apply rep_intro; try lia.
  - assert (Ees : es2 = take num es2 ++ e2 :: es3) by (rewrite <-Ed; symmetry; apply take_drop). set (del := take num es2) in *. rewrite Ees in Hr, Hroom, Hnl, Hs.
    assert (Hld : length del = num) by (unfold del; apply length_take_le; apply (f_equal length) in Ed; rewrite length_drop in Ed; cbn [length] in Ed; lia).
    rewrite !length_app in Hroom, Hnl. cbn [length] in Hroom, Hnl.
    destruct (delete_mid fill zl n es1 del e2 es3 Hr Hdel ltac:(lia)) as (e2' & es3' & E & Sv & Ch). rewrite Hld in E. eexists. split; [exact E|].
    exists (next_n n (- Z.of_nat num)), (es1 ++ e2' :: es3'). destruct (same_vals_size _ _ Sv) as [Hz Hl]. split.
    + destruct (next_n_ok n (- Z.of_nat num) (length es1 + (length del + S (length es3))) (length (es1 ++ e2' :: es3'))) as [? ?]; try done; try lia;
        [rewrite length_app; cbn [length] in *; lia|]. apply rep_intro; try done. rewrite !esize_app in *. cbn [length] in *. pose proof (esize_nonneg del). lia.
    + rewrite texts_app, <-texts_drop, Ed. f_equal. by apply texts_same.
Qed.

Lemma new_models mem : length mem = 11%nat -> exists z, ziplistNew mem = Some z /\ models z [].
Proof.
  intros Hl.
  do 11 (destruct mem as [|? mem]; [done|]). destruct mem; [|done]. eexists. split; [reflexivity|]. exists 0, []. split; [|done].
  refine (conj _ (conj I (conj _ (conj _ _)))); [reflexivity|reflexivity|unfold UINT16_MAX; lia|done].
Qed.

(** The position of a string, through [ziplistIndex]. *)
Lemma index_at zl n es1 e es2 : rep zl n (es1 ++ e :: es2) ->
  ziplistIndex zl (Z.of_nat (length es1)) = Some (Some (pos es1)) /\ ziplistIndex zl (Z.of_nat (length es1) - Z.of_nat (length (es1 ++ e :: es2))) = Some (Some (pos es1)).
Proof.
  intros Hr. assert (Hl : (length es1 < length (es1 ++ e :: es2))%nat) by (rewrite length_app; cbn [length]; lia). rewrite !(index_spec _ _ _ _ Hr). cbv zeta.
  rewrite (proj2 (Z.ltb_ge (Z.of_nat (length es1)) 0)) by lia. rewrite (proj2 (Z.ltb_lt (Z.of_nat (length es1) - _) 0)) by lia. rewrite Z.sub_add.
  rewrite (proj2 (Z.leb_le 0 (Z.of_nat (length es1)))), (proj2 (Z.ltb_lt (Z.of_nat (length es1)) _)) by lia. cbn [andb]. by rewrite Nat2Z.id, take_app_length.
Qed.

Lemma split_at es (i : nat) x : texts es !! i = Some x ->
  exists es1 e es2, es = es1 ++ e :: es2 /\ length es1 = i /\ text e.2 = x /\ texts es1 = take i (texts es) /\ texts es2 = drop (S i) (texts es) /\ texts (e :: es2) = drop i (texts es).
Proof.
  intros Hi. apply list_lookup_fmap_Some in Hi as (e & Ex & He). exists (take i es), e, (drop (S i) es). pose proof (lookup_lt_Some _ _ _ He).
  split; [symmetry; by apply take_drop_middle|]. split; [rewrite length_take; lia|]. split; [done|]. split; [apply texts_take|]. split; [apply texts_drop|].
  rewrite <-texts_drop. f_equal. symmetry. by apply drop_S.
Qed.

(** C9: The updates of a ziplist. On the bytes that represent a list of strings, pushing at both
    ends, inserting at and deleting from a position found by [ziplistIndex], deleting a range
    and merging with a second list that is not empty (merging with an empty one leaves a
    wrong tail offset) never access memory out of bounds and leave bytes that represent the
    list changed accordingly, for sizes up to about a third of what the 32-bit fields hold. Strings that are integers are stored in one of six binary
    encodings and others with a header of one, two or five bytes; every entry holds the length
    of the previous one in one or five bytes, and the cascade of changes of these fields that
    an update may start leaves all of them, the offset of the tail, the total size and the
    length right. *)
Theorem ziplist_updates fill zl l s :
  models zl l -> fits (Z.of_nat (length zl) + Z.of_nat (length s)) ->
  (forall mem, length mem = 11%nat -> exists z, ziplistNew mem = Some z /\ models z []) /\
  (exists z, ziplistPush fill zl s ZIPLIST_HEAD = Some z /\ models z (s :: l)) /\
  (exists z, ziplistPush fill zl s ZIPLIST_TAIL = Some z /\ models z (l ++ [s])) /\
  (forall (i : nat) x, l !! i = Some x -> exists p, ziplistIndex zl (Z.of_nat i) = Some (Some p) /\
     (exists z, ziplistInsert fill zl p s = Some z /\ models z (take i l ++ s :: drop i l)) /\
     (exists z, ziplistDelete fill zl p = Some (z, p) /\ models z (take i l ++ drop (S i) l))) /\
  (forall index (num : nat), let j := if index <? 0 then index + Z.of_nat (length l) else index in
     exists z, ziplistDeleteRange fill zl index (Z.of_nat num) = Some z /\
       models z (if (0 <=? j) && (j <? Z.of_nat (length l)) then take (Z.to_nat j) l ++ drop (Z.to_nat j + num) l else l)) /\
  (forall zl2 l2, models zl2 l2 -> l2 <> [] -> fits (Z.of_nat (length zl) + Z.of_nat (length zl2)) ->
     exists z, ziplistMerge fill zl zl2 = Some z /\ models z (l ++ l2)).
Proof.
  intros (n & es & Hr & <-) Hf. assert (Hf0 : fits (Z.of_nat (length zl))) by (unfold fits in *; lia). split_and!.
  - apply new_models.
  - unfold ziplistPush. mred. exact (insert_models fill zl n [] es s Hr Hf).
  - unfold ziplistPush. destruct (rep_tail _ _ _ Hr) as (_ & -> & _). mred. replace (11 + esize es - 1) with (pos es) by (unfold pos; lia).
    assert (Hr' : rep zl n (es ++ [])) by (by rewrite app_nil_r). exact (insert_models fill zl n es [] s Hr' Hf).
  - intros i x Hi. destruct (split_at es i x Hi) as (es1 & e & es2 & -> & <- & _ & T1 & T2 & T3). exists (pos es1). destruct (index_at _ _ _ _ _ Hr) as [E _]. split; [done|]. split.
    + destruct (insert_models fill zl n es1 (e :: es2) s Hr Hf) as (z & Ez & M). exists z. split; [done|]. by rewrite T1, T3 in M.
    + destruct (delete_models fill zl n es1 (e :: es2) 1 Hr ltac:(done) Hf0) as (z & Ez & M). exists z. unfold ziplistDelete. change (Z.of_nat 1) with 1 in Ez. rewrite Ez. mred. split; [done|].
      rewrite T1 in M. cbn [texts map drop] in M. by rewrite <-T2.
  - intros index num j. unfold ziplistDeleteRange. rewrite (index_spec _ _ _ _ Hr). mred. unfold j. clear j. rewrite texts_length in *. cbv zeta. set (j := if index <? 0 then _ else _). destruct ((0 <=? j) && (j <? Z.of_nat (length es))) eqn:Ej.
    + zbool. set (k := Z.to_nat j). assert (Hr' : rep zl n (take k es ++ drop k es)) by (by rewrite take_drop).
      destruct (delete_models fill zl n (take k es) (drop k es) num Hr') as (z & Ez & M); [intros E0; apply (f_equal length) in E0; rewrite length_drop in E0; cbn in E0; lia|done|].
      exists z. split; [done|]. by rewrite texts_take, texts_drop, drop_drop in M.
    + exists zl. split; [done|]. by exists n, es.
  - intros zl2 l2 (n2 & es2 & Hr2 & <-) Hne Hf2. pose proof (rep_length _ _ _ Hr) as L1. pose proof (rep_length _ _ _ Hr2) as L2.
    destruct (merge_spec fill zl zl2 n n2 es es2 Hr Hr2) as (z & n' & es' & E & Hr' & Sv).
    + intros ->. by apply Hne.
    + unfold room. rewrite esize_app, length_app. unfold fits in Hf2. pose proof (esize_nonneg es). pose proof (esize_nonneg es2). lia.
    + exists z. split; [done|]. exists n', es'. split; [done|]. rewrite (texts_same _ _ Sv). apply texts_app.
Qed.

(** C18: The queries of a ziplist. [ziplistIndex] finds every position from either end and no
    other, and there [ziplistGet] returns the string or the integer it denotes,
    [ziplistCompare] decides equality with a string, [ziplistNext] and [ziplistPrev] move by
    one, and [ziplistFind] returns the first equal string of those it does not skip, with
    the string encoded at most once. [ziplistLen] is the length, also of lists whose length
    does not fit the field of the header, and [ziplistBlobLen] the number of bytes. *)
Theorem ziplist_queries zl l :
  models zl l ->
  (forall i, ziplistIndex zl i = Some None <-> ~ (- Z.of_nat (length l) <= i < Z.of_nat (length l))) /\
  (forall (i : nat) x, l !! i = Some x -> exists p, ziplistIndex zl (Z.of_nat i) = Some (Some p) /\ ziplistIndex zl (Z.of_nat i - Z.of_nat (length l)) = Some (Some p) /\
     (exists v, ziplistGet zl p = Some (Some v) /\ text v = x) /\
     (forall s, ziplistCompare zl p s = Some (bool_decide (s = x))) /\
     ziplistNext zl p = ziplistIndex zl (Z.of_nat i + 1) /\
     ziplistPrev zl p = (if bool_decide (i = 0%nat) then Some None else ziplistIndex zl (Z.of_nat i - 1)) /\
     (forall s skip, ziplistFind zl p s (Z.of_nat skip) =
        match find_from (drop i l) s skip 0 with Some j => ziplistIndex zl (Z.of_nat (i + j)) | None => Some None end)) /\
  (exists zl', ziplistLen zl = Some (Z.of_nat (length l), zl') /\ models zl' l) /\
  ziplistBlobLen zl = Some (Z.of_nat (length zl)).
Proof.
  intros (n & es & Hr & <-). split_and!.
  - intros i. rewrite (index_spec _ _ _ _ Hr), texts_length. cbv zeta. destruct (Z.ltb_spec i 0), ((0 <=? _) && _) eqn:E; zbool; (split; [intros E0|intros Hn]); try done; try lia;
      intros Hn; apply andb_false_iff in E as [E|E]; zbool; lia.
  - intros i x Hi. destruct (split_at es i x Hi) as (es1 & e & es2 & -> & <- & Ex & T1 & T2 & T3). exists (pos es1). rewrite texts_length. destruct (index_at _ _ _ _ _ Hr) as [E1 E2].
    destruct (rep_at_skip _ _ _ _ Hr) as (A & Ha & LA). pose proof Ha as ((_ & Hv & _) & _).
    split; [done|]. split; [done|]. split; [exists e.2; split; [by eapply get_spec|done]|]. split; [|split; [|split]].
    + intros s. rewrite (compare_spec _ _ _ _ _ s Hr). f_equal. apply bool_decide_ext. rewrite <-Ex, <-(text_eq e.2 s Hv). by split; intros ->.
    + rewrite (next_spec _ _ _ _ _ Hr), (index_spec _ _ _ _ Hr). cbv zeta. f_equal. rewrite (proj2 (Z.ltb_ge _ 0)), (proj2 (Z.leb_le 0 _)), length_app by lia. cbn [andb length].
      destruct es2 as [|e2 es2]; [rewrite bool_decide_true, (proj2 (Z.ltb_ge _ _)) by (done || (cbn [length]; lia)); done|].
      rewrite bool_decide_false, (proj2 (Z.ltb_lt _ _)) by (done || (cbn [length]; lia)). do 2 f_equal.
      replace (Z.to_nat (Z.of_nat (length es1) + 1)) with (length es1 + 1)%nat by lia. by rewrite take_app_add.
    + rewrite (prev_spec _ _ _ _ Hr). destruct es1 as [|e0 es0 _] using rev_ind; [done|]. rewrite !bool_decide_false by (rewrite ?length_app; cbn [length]; first [lia|by destruct es0]).
      rewrite removelast_last. rewrite length_app. cbn [length]. replace (Z.of_nat (length es0 + 1) - 1) with (Z.of_nat (length es0)) by lia.
      assert (Hr2 : rep zl n (es0 ++ e0 :: e :: es2)) by (by rewrite <-app_assoc in Hr). symmetry. apply (index_at _ _ _ _ _ Hr2).
    + intros s skip. unfold ziplistFind. rewrite <-T3. pose proof (find_loop_spec zl s skip (e :: es2) A (lastraw 0 es1) (length zl) 0 0 0 Ha (at_fuel _ _ _ _ Ha) ltac:(by left)) as E.
      rewrite LA in E. fold (pos es1) in E. change (Z.of_nat 0) with 0 in E. rewrite E. clear E. destruct (find_from (texts (e :: es2)) s skip 0) as [j|] eqn:Ej; mred; [|done].
      assert (Hj : (j < length (e :: es2))%nat).
      { assert (G : forall l cnt j, find_from l s skip cnt = Some j -> (j < length l)%nat); [|apply G in Ej; by rewrite texts_length in Ej].
        induction l as [|y l IH]; intros cnt j'; cbn [find_from length]; [done|]. destruct cnt as [|cnt]; [case_bool_decide; [intros [= <-]; lia|]|];
          intros (j0 & Ej0 & ->)%fmap_Some; apply IH in Ej0; lia. }
      rewrite (index_spec _ _ _ _ Hr). cbv zeta. rewrite (proj2 (Z.ltb_ge _ 0)), (proj2 (Z.leb_le 0 _)), (proj2 (Z.ltb_lt _ _)) by (rewrite ?length_app; lia). cbn [andb].
      do 2 f_equal. rewrite Nat2Z.id, take_app_add. unfold pos. rewrite esize_app. lia.
  - rewrite texts_length. destruct (len_spec _ _ _ Hr) as (z & n' & E & Hr'). exists z. split; [done|]. by exists n', es.
  - unfold ziplistBlobLen. destruct (rep_tail _ _ _ Hr) as (_ & -> & _). by rewrite (rep_length _ _ _ Hr).
Qed.

(** ** Witnesses *)

Definition example_entries : list entry := [(false, ZStr (lit "a")); (false, ZInt 1024); (false, ZStr [])].
Definition example_zl : list Z := block (toff 10 10 example_entries) 3 [] 0 example_entries.

Lemma example_zl_models : models example_zl [lit "a"; lit "1024"; []].
Proof.
  exists 3, example_entries. split; [|reflexivity]. apply rep_intro; try reflexivity; try (unfold UINT16_MAX; lia).
  repeat split; try reflexivity; try (cbn; lia); try discriminate;
    vm_compute; intros H; exfalso; apply H; reflexivity.
Qed.

Lemma ziplist_updates_witness :
  exists z z2 z3, ziplistPush 7 example_zl (lit "-5") ZIPLIST_HEAD = Some z /\ models z [lit "-5"; lit "a"; lit "1024"; []] /\
    ziplistDeleteRange 7 example_zl (-3) 2 = Some z2 /\ models z2 [[]] /\
    ziplistMerge 7 example_zl example_zl = Some z3 /\ models z3 [lit "a"; lit "1024"; []; lit "a"; lit "1024"; []].
Proof.
  destruct (ziplist_updates 7 example_zl [lit "a"; lit "1024"; []] (lit "-5")) as (_ & (z & E1 & M1) & _ & _ & Hd & Hm).
  - exact example_zl_models.
  - vm_compute. reflexivity.
  - destruct (Hd (-3) 2%nat) as (z2 & E2 & M2). destruct (Hm example_zl [lit "a"; lit "1024"; []]) as (z3 & E3 & M3).
    + exact example_zl_models.
    + discriminate.
    + vm_compute. reflexivity.
    + exists z, z2, z3. split; [exact E1|]. split; [exact M1|]. split; [exact E2|]. split; [exact M2|]. split; [exact E3|exact M3].
Defined.

Lemma ziplist_queries_witness :
  exists p, ziplistIndex example_zl 1 = Some (Some p) /\ ziplistIndex example_zl (-2) = Some (Some p) /\
    ziplistCompare example_zl p (lit "1024") = Some true /\ ziplistFind example_zl p [] 0 = ziplistIndex example_zl 2.
Proof.
  destruct (ziplist_queries example_zl [lit "a"; lit "1024"; []]) as (_ & H & _).
  - exact example_zl_models.
  - destruct (H 1%nat (lit "1024")) as (p & E1 & E2 & _ & Hc & _ & _ & Hf); [reflexivity|]. exists p. split; [exact E1|]. split; [exact E2|].
    split; [apply (Hc (lit "1024"))|apply (Hf [] 0%nat)].
Defined.

(** The cascade: a large entry in front makes both entries behind it grow. *)
Example cascade_example :
  let s := replicate 250 97 in
  (zl ← ziplistNew (replicate 11 0);
   zl ← ziplistPush 0 zl s ZIPLIST_TAIL; zl ← ziplistPush 0 zl s ZIPLIST_TAIL;
   z ← ziplistPush 0 zl (s ++ s) ZIPLIST_HEAD;
   Some (ziplistBlobLen zl, ziplistBlobLen z)) = Some (Some 517, Some (517 + 503 + 8)).
Proof. vm_compute. reflexivity. Qed.

(** Merging with an empty second list leaves the tail offset at the end mark: counting from the
    end finds nothing. *)
Example merge_empty_second :
  (e ← ziplistNew (replicate 11 0); z ← ziplistMerge 0 example_zl e;
   Some (ziplistIndex z 2, ziplistIndex z (-1))) = Some (Some (Some 17), Some None).
Proof. vm_compute. reflexivity. Qed.
