(* ===== verification/Rio.v ===== *)
(** * rio.h and rio.c: the stream layer

    A [rio] over an in-memory buffer, with its running checksum and its chunked reads
    and writes. The interface the serializers rely on is the class [Stream] at the end. *)

From S2P Require Import Prelude Bits Crc Util.

(** The fields of [struct _rio] with the buffer backend. *)
Record rio := Rio {
  update_cksum : bool;           (* update_cksum is rioGenericUpdateChecksum or NULL *)
  cksum : Z;
  processed_bytes : Z;
  max_processing_chunk : Z;
  ptr : list Z;                  (* io.buffer.ptr *)
  pos : Z                        (* io.buffer.pos *)
}.

Definition rioInitWithBuffer (s : list Z) : rio := Rio false 0 0 0 s 0.

Definition rioGenericUpdateChecksum (r : rio) (buf : list Z) : option rio :=
  c ← crc64 (cksum r) buf;
  Some (Rio (update_cksum r) c (processed_bytes r) (max_processing_chunk r) (ptr r) (pos r)).

Definition rioBufferWrite (r : rio) (buf : list Z) : rio :=
  Rio (update_cksum r) (cksum r) (processed_bytes r) (max_processing_chunk r)
    (ptr r ++ buf) (pos r + Z.of_nat (length buf)).

(** [None]: fewer than [len] bytes are left. The subtraction is unsigned. *)
Definition rioBufferRead (r : rio) (len : Z) : option (list Z * rio) :=
  if u64 (Z.of_nat (length (ptr r)) - pos r) <? len then None else
  bs ← rd (ptr r) (pos r) len;
  Some (bs, Rio (update_cksum r) (cksum r) (processed_bytes r) (max_processing_chunk r) (ptr r) (pos r + len)).

Definition chunk (r : rio) (len : Z) : Z :=
  if negb (max_processing_chunk r =? 0) && (max_processing_chunk r <? len) then max_processing_chunk r else len.

Definition processed (r : rio) (n : Z) : rio :=
  Rio (update_cksum r) (cksum r) (u64 (processed_bytes r + n)) (max_processing_chunk r) (ptr r) (pos r).

(** The buffer backend never fails to write. *)
Fixpoint rioWrite_loop (fuel : nat) (r : rio) (buf : list Z) : option rio :=
  match fuel with
  | O => None
  | S fuel =>
    if Z.of_nat (length buf) =? 0 then Some r else
    let n := chunk r (Z.of_nat (length buf)) in
    let bs := take (Z.to_nat n) buf in
    r ← (if update_cksum r then rioGenericUpdateChecksum r bs else Some r);
    rioWrite_loop fuel (processed (rioBufferWrite r bs) n) (drop (Z.to_nat n) buf)
  end.

Definition rioWrite (r : rio) (buf : list Z) : option rio := rioWrite_loop (S (length buf)) r buf.

(** The outer [None] is out of fuel, the inner one a return of 0. *)
Fixpoint rioRead_loop (fuel : nat) (r : rio) (buf : list Z) (len : Z) : option (option (list Z * rio)) :=
  match fuel with
  | O => None
  | S fuel =>
    if len =? 0 then Some (Some (buf, r)) else
    let n := chunk r len in
    match rioBufferRead r n with
    | None => Some None
    | Some (bs, r) =>
      r ← (if update_cksum r then rioGenericUpdateChecksum r bs else Some r);
      rioRead_loop fuel (processed r n) (buf ++ bs) (len - n)
    end
  end.

Definition rioRead (r : rio) (len : Z) : option (option (list Z * rio)) :=
  rioRead_loop (S (Z.to_nat len)) r [] len.

(** ** The protocol writers used by the append only file *)

(** The buffer [cbuf] after the call to [ll2string]. *)
Definition rioWriteBulkCount (r : rio) (prefix count : Z) : option (Z * rio) :=
  '(clen, b) ← ll2string (replicate 127 0) 127 count;
  t ← rd b 0 clen;
  let cbuf := prefix :: t ++ [13; 10] in
  r ← rioWrite r cbuf;
  Some (clen + 3, r).

Definition rioWriteBulkString (r : rio) (buf : list Z) : option (Z * rio) :=
  let len := Z.of_nat (length buf) in
  '(nwritten, r) ← rioWriteBulkCount r (chr "$") (s32 len);
  r ← (if 0 <? len then rioWrite r buf else Some r);
  r ← rioWrite r [13; 10];
  Some (nwritten + len + 2, r).

Definition rioWriteBulkLongLong (r : rio) (l : Z) : option (Z * rio) :=
  '(llen, b) ← ll2string (replicate 32 0) 32 l;
  t ← rd b 0 llen;
  rioWriteBulkString r t.

(** ** The interface of a stream *)

(** Operations of a stream, as the serializers call them. *)
Class Stream (R : Type) := {
  s_write : R -> list Z -> option R;
  s_read : R -> Z -> option (option (list Z * R));
  written : R -> list Z;         (* the bytes of the target *)
  unread : R -> list Z;          (* the bytes still to be read *)
  stream_ok : R -> Prop
}.

Class StreamLaws (R : Type) `{Stream R} : Prop := {
  stream_write r bs :
    stream_ok r -> Forall is_byte bs -> Z.of_nat (length (written r ++ bs)) < 2 ^ 62 ->
    exists r', s_write r bs = Some r' /\ stream_ok r' /\ written r' = written r ++ bs;
  stream_read r bs rest :
    stream_ok r -> unread r = bs ++ rest ->
    exists r', s_read r (Z.of_nat (length bs)) = Some (Some (bs, r')) /\ stream_ok r' /\ unread r' = rest;
  stream_short r n :
    stream_ok r -> Z.of_nat (length (unread r)) < n -> s_read r n = Some None
}.

(** ** The in-memory buffer is a stream *)

Definition rio_unread (r : rio) : list Z := drop (Z.to_nat (pos r)) (ptr r).

Definition rio_ok (r : rio) : Prop :=
  0 <= pos r <= Z.of_nat (length (ptr r)) /\ Z.of_nat (length (ptr r)) < 2 ^ 62 /\ Forall is_byte (ptr r) /\
  0 <= max_processing_chunk r /\ 0 <= cksum r < 2 ^ 64.

#[export] Instance rio_stream : Stream rio :=
  {| s_write := rioWrite; s_read := rioRead; written := ptr; unread := rio_unread; stream_ok := rio_ok |}.

(** The checksum after some bytes. *)
Definition cksum_after (r : rio) (bs : list Z) : Z :=
  if update_cksum r then crc64_serial (cksum r) bs else cksum r.

Lemma chunk_bounds r len : 0 < len -> 0 <= max_processing_chunk r -> 0 < chunk r len <= len.
Proof. intros Hl Hm. unfold chunk. destruct (Z.eqb_spec (max_processing_chunk r) 0); cbn [negb andb]; [lia|]. destruct (Z.ltb_spec (max_processing_chunk r) len); lia. Qed.

Lemma update_cksum_ok r bs :
  0 <= cksum r < 2 ^ 64 -> Forall is_byte bs ->
  (if update_cksum r then rioGenericUpdateChecksum r bs else Some r) =
    Some (Rio (update_cksum r) (cksum_after r bs) (processed_bytes r) (max_processing_chunk r) (ptr r) (pos r)) /\
  0 <= cksum_after r bs < 2 ^ 64.
Proof.
  intros Hc Hb. unfold cksum_after, rioGenericUpdateChecksum. destruct r as [[] c p m t q]; cbn [update_cksum cksum] in *; [|done].
  destruct (crc64_spec c bs Hc Hb) as [-> ?]. done.
Qed.

Lemma cksum_after_app r r1 a b :
  update_cksum r1 = update_cksum r -> cksum r1 = cksum_after r a -> cksum_after r1 b = cksum_after r (a ++ b).
Proof.
  unfold cksum_after. intros -> ->. destruct (update_cksum r); [|done]. by rewrite crc64_serial_app.
Qed.

Lemma rioWrite_loop_spec fuel r buf :
  rio_ok r -> Forall is_byte buf -> Z.of_nat (length (ptr r ++ buf)) < 2 ^ 62 -> (length buf < fuel)%nat ->
  exists r', rioWrite_loop fuel r buf = Some r' /\ rio_ok r' /\ ptr r' = ptr r ++ buf /\ pos r' = pos r + Z.of_nat (length buf) /\
    cksum r' = cksum_after r buf /\ update_cksum r' = update_cksum r /\ max_processing_chunk r' = max_processing_chunk r.
Proof.
  revert r buf. induction fuel as [|fuel IH]; intros r buf Hok Hb Hmax Hf; [lia|]. cbn [rioWrite_loop].
  destruct (Z.eqb_spec (Z.of_nat (length buf)) 0) as [E0|Hne].
  { destruct buf; [|cbn in E0; lia]. exists r. rewrite app_nil_r. unfold cksum_after. split_and!; try done; [cbn; lia|by destruct (update_cksum r)]. }
  destruct Hok as (Hp & Hl & Hby & Hm & Hc). set (n := chunk r _).
  assert (Hn : 0 < n <= Z.of_nat (length buf)) by (apply chunk_bounds; lia).
  set (bs := take (Z.to_nat n) buf). set (rest := drop (Z.to_nat n) buf).
  assert (Hbuf : buf = bs ++ rest) by (unfold bs, rest; by rewrite take_drop).
  assert (Hlb : Z.of_nat (length bs) = n) by (unfold bs; rewrite length_take; lia).
  clearbody n bs rest. subst buf. rewrite Forall_app in Hb. destruct Hb as [Hb1 Hb2].
  rewrite !length_app in *.
  destruct (update_cksum_ok r bs Hc Hb1) as [-> Hc']. mred. unfold processed, rioBufferWrite. cbn [update_cksum cksum processed_bytes max_processing_chunk ptr pos].
  set (r1 := Rio _ _ _ _ _ _). destruct (IH r1 rest) as (r' & E & Hok' & H1 & H2 & H3 & H4 & H5).
  - unfold r1, rio_ok. cbn [pos ptr max_processing_chunk cksum]. rewrite length_app, Forall_app. split_and!; done || lia.
  - done.
  - unfold r1. cbn [ptr]. rewrite !length_app. lia.
  - lia.
  - exists r'. split; [exact E|]. split; [exact Hok'|]. unfold r1 in H1, H2, H4, H5. cbn [ptr pos update_cksum max_processing_chunk] in H1, H2, H4, H5.
    rewrite H3, (cksum_after_app r r1 bs rest) by done. rewrite H1, H2, H4, H5, <-app_assoc. split_and!; done || lia.
Qed.

Lemma rioRead_loop_spec fuel r buf bs rest :
  rio_ok r -> rio_unread r = bs ++ rest -> (length bs < fuel)%nat ->
  exists r', rioRead_loop fuel r buf (Z.of_nat (length bs)) = Some (Some (buf ++ bs, r')) /\ rio_ok r' /\
    rio_unread r' = rest /\ ptr r' = ptr r /\
    cksum r' = cksum_after r bs /\ update_cksum r' = update_cksum r /\ max_processing_chunk r' = max_processing_chunk r.
Proof.
  revert r buf bs. induction fuel as [|fuel IH]; intros r buf bs Hok Hun Hf; [lia|]. cbn [rioRead_loop].
  destruct (Z.eqb_spec (Z.of_nat (length bs)) 0) as [E0|Hne].
  { destruct bs; [|cbn in E0; lia]. exists r. rewrite app_nil_r. unfold cksum_after. split_and!; try done. by destruct (update_cksum r). }
  destruct Hok as (Hp & Hl & Hby & Hm & Hc). set (n := chunk r _).
  assert (Hn : 0 < n <= Z.of_nat (length bs)) by (apply chunk_bounds; lia).
  set (b1 := take (Z.to_nat n) bs). set (b2 := drop (Z.to_nat n) bs).
  assert (Hbs : bs = b1 ++ b2) by (unfold b1, b2; by rewrite take_drop).
  assert (Hlb : Z.of_nat (length b1) = n) by (unfold b1; rewrite length_take; lia).
  clearbody n b1 b2. subst bs. unfold rio_unread in Hun. rewrite <-app_assoc in Hun. rewrite length_app in *.
  assert (Hsp : ptr r = take (Z.to_nat (pos r)) (ptr r) ++ b1 ++ b2 ++ rest) by (rewrite <-Hun; by rewrite take_drop).
  assert (Hlen : length (ptr r) = (Z.to_nat (pos r) + length b1 + length b2 + length rest)%nat).
  { apply (f_equal length) in Hun. rewrite length_drop, !length_app in Hun. lia. }
  assert (Ehead : rioBufferRead r n = Some (b1, Rio (update_cksum r) (cksum r) (processed_bytes r) (max_processing_chunk r) (ptr r) (pos r + n))).
  { unfold rioBufferRead. rewrite wrapu_small by lia. rewrite (proj2 (Z.ltb_ge _ _)) by lia.
    assert (Erd : rd (ptr r) (pos r) n = Some b1).
    { apply rd_Some. split_and!; try lia. rewrite Hun, <-Hlb, Nat2Z.id, take_app_length. done. }
    rewrite Erd. done. }
  rewrite Ehead. set (r0 := Rio _ _ _ _ _ _).
  assert (Hb1 : Forall is_byte b1) by (rewrite Hsp, !Forall_app in Hby; tauto).
  destruct (update_cksum_ok r0 b1 Hc Hb1) as [-> Hc']. mred. unfold processed. cbn [update_cksum cksum processed_bytes max_processing_chunk ptr pos].
  set (r1 := Rio _ _ _ _ _ _). destruct (IH r1 (buf ++ b1) b2) as (r' & E & Hok' & H1 & H2 & H3 & H4 & H5).
  - unfold r1, r0, rio_ok in *. cbn [pos ptr max_processing_chunk cksum] in *. split_and!; try done; lia.
  - unfold rio_unread, r1, r0. cbn [ptr pos]. replace (Z.to_nat (pos r + n)) with (Z.to_nat (pos r) + length b1)%nat by lia. by rewrite <-drop_drop, Hun, drop_app_length.
  - lia.
  - exists r'. replace (Z.of_nat (length b1 + length b2) - n) with (Z.of_nat (length b2)) by lia. rewrite E, <-app_assoc.
    split; [done|]. split; [exact Hok'|]. unfold r1, r0 in H1, H2, H4, H5. cbn [ptr pos update_cksum max_processing_chunk] in H1, H2, H4, H5.
    rewrite H3, (cksum_after_app r r1 b1 b2) by done. split_and!; done.
Qed.

Lemma rioRead_loop_short fuel r buf len :
  rio_ok r -> Z.of_nat (length (rio_unread r)) < len -> len < Z.of_nat fuel ->
  rioRead_loop fuel r buf len = Some None.
Proof.
  revert r buf len. induction fuel as [|fuel IH]; intros r buf len Hok Hs Hf; [lia|]. cbn [rioRead_loop].
  pose proof Hok as (Hp & Hl & Hby & Hm & Hc). unfold rio_unread in Hs. rewrite length_drop in Hs.
  rewrite (proj2 (Z.eqb_neq _ _)) by lia. set (n := chunk r len).
  assert (Hn : 0 < n <= len) by (apply chunk_bounds; lia). clearbody n. unfold rioBufferRead. rewrite wrapu_small by lia.
  destruct (Z.ltb_spec (Z.of_nat (length (ptr r)) - pos r) n); [done|].
  destruct (rd_is_Some (ptr r) (pos r) n) as [b1 Eb]; [lia..|]. rewrite Eb. mred. set (r0 := Rio _ _ _ _ _ _).
  assert (Hb1 : Forall is_byte b1) by (apply rd_Some in Eb as (_ & _ & _ & ->); by apply Forall_take, Forall_drop).
  destruct (update_cksum_ok r0 b1 Hc Hb1) as [-> Hc']. mred. unfold r0 in *. unfold processed. cbn [update_cksum cksum processed_bytes max_processing_chunk ptr pos] in *.
  apply IH; [|unfold rio_unread; cbn [ptr pos]; rewrite length_drop; lia|lia].
  unfold rio_ok. cbn [pos ptr max_processing_chunk cksum]. split_and!; done || lia.
Qed.

#[export] Instance rio_stream_laws : StreamLaws rio.
Proof.
  split; cbn.
  - intros r bs Hok Hb Hmax. destruct (rioWrite_loop_spec (S (length bs)) r bs Hok Hb Hmax) as (r' & E & Hok' & Hp & _); [lia|]. eauto.
  - intros r bs rest Hok Hun. unfold rioRead.
    destruct (rioRead_loop_spec (S (Z.to_nat (Z.of_nat (length bs)))) r [] bs rest Hok Hun) as (r' & E & Hok' & Hu & _); [lia|]. eauto.
  - intros r n Hok Hs. apply (rioRead_loop_short (S (Z.to_nat n)) r [] n); [done|done|lia].
Qed.

(** ** Checksums over sequences of writes and of reads *)

Fixpoint write_all (r : rio) (bss : list (list Z)) : option rio :=
  match bss with
  | [] => Some r
  | bs :: bss => r ← rioWrite r bs; write_all r bss
  end.

Fixpoint read_all (r : rio) (lens : list Z) : option (option (list (list Z) * rio)) :=
  match lens with
  | [] => Some (Some ([], r))
  | n :: lens =>
    x ← rioRead r n;
    match x with
    | None => Some None
    | Some (bs, r) =>
      y ← read_all r lens;
      Some (match y with None => None | Some (bss, r) => Some (bs :: bss, r) end)
    end
  end.

Lemma write_all_spec r bss :
  rio_ok r -> Forall (Forall is_byte) bss -> Z.of_nat (length (ptr r ++ concat bss)) < 2 ^ 62 ->
  exists r', write_all r bss = Some r' /\ rio_ok r' /\ ptr r' = ptr r ++ concat bss /\
    cksum r' = cksum_after r (concat bss) /\ update_cksum r' = update_cksum r.
Proof.
  intros Hok Hb. revert r Hok. induction Hb as [|bs bss Hbs Hb IH]; intros r Hok Hmax.
  { exists r. cbn. rewrite app_nil_r. unfold cksum_after. split_and!; try done. by destruct (update_cksum r). }
  cbn [write_all concat] in *. rewrite !length_app in Hmax.
  destruct (rioWrite_loop_spec (S (length bs)) r bs Hok Hbs) as (r1 & E1 & Hok1 & Hp1 & _ & Hc1 & Hu1 & _); [rewrite length_app; lia|lia|].
  unfold rioWrite. rewrite E1. mred. destruct (IH r1 Hok1) as (r' & E & Hok' & Hp & Hc & Hu); [rewrite Hp1, !length_app; lia|].
  exists r'. split; [exact E|]. rewrite Hp, Hp1, <-app_assoc, Hc, (cksum_after_app r r1 bs) by done.
  split_and!; try done. by rewrite Hu.
Qed.

Lemma read_all_spec r bss rest :
  rio_ok r -> rio_unread r = concat bss ++ rest ->
  exists r', read_all r (map (fun bs => Z.of_nat (length bs)) bss) = Some (Some (bss, r')) /\ rio_ok r' /\
    rio_unread r' = rest /\ cksum r' = cksum_after r (concat bss).
Proof.
  revert r. induction bss as [|bs bss IH]; intros r Hok Hun.
  { exists r. unfold cksum_after. split_and!; try done. by destruct (update_cksum r). }
  cbn [read_all map concat] in *. rewrite <-app_assoc in Hun.
  destruct (rioRead_loop_spec (S (Z.to_nat (Z.of_nat (length bs)))) r [] bs _ Hok Hun)
    as (r1 & E1 & Hok1 & Hu1 & _ & Hc1 & Hup1 & _); [lia|].
  unfold rioRead. rewrite E1. mred. destruct (IH r1 Hok1 Hu1) as (r' & E & Hok' & Hu & Hc).
  fold (rioRead r1). exists r'. rewrite E. mred. cbn [app]. split; [done|]. rewrite Hc, (cksum_after_app r r1 bs) by done. done.
Qed.

(** The checksum of a stream depends on the bytes alone: whatever pieces they are written
    in, and later read in, and whatever the maximum chunk of either stream, the writer and the
    reader end with the CRC-64 of the whole, and the reader gets back the bytes. *)
Theorem rio_checksum_pieces m1 m2 bss1 bss2 :
  0 <= m1 -> 0 <= m2 -> Forall (Forall is_byte) bss1 -> concat bss1 = concat bss2 ->
  Z.of_nat (length (concat bss1)) < 2 ^ 62 ->
  exists w r, write_all (Rio true 0 0 m1 [] 0) bss1 = Some w /\ ptr w = concat bss1 /\
    read_all (Rio true 0 0 m2 (ptr w) 0) (map (fun bs => Z.of_nat (length bs)) bss2) = Some (Some (bss2, r)) /\
    Some (cksum w) = crc64 0 (concat bss1) /\ cksum r = cksum w.
Proof.
  intros Hm1 Hm2 Hb Heq Hmax.
  assert (Hbc : Forall is_byte (concat bss1)) by (by apply Forall_concat).
  destruct (write_all_spec (Rio true 0 0 m1 [] 0) bss1) as (w & Ew & Hokw & Hpw & Hcw & _); [|done|done|].
  { unfold rio_ok. cbn [pos ptr max_processing_chunk cksum]. split_and!; try done; cbn; lia. }
  cbn [ptr app] in Hpw. destruct (read_all_spec (Rio true 0 0 m2 (ptr w) 0) bss2 []) as (r & Er & _ & _ & Hcr).
  { unfold rio_ok. cbn [pos ptr max_processing_chunk cksum]. rewrite Hpw. split_and!; try done; lia. }
  { unfold rio_unread. cbn [ptr pos]. by rewrite Hpw, app_nil_r, <-Heq. }
  exists w, r. split_and!; try done.
  - destruct (crc64_spec 0 (concat bss1)) as [-> _]; [lia|done|]. by rewrite Hcw.
  - rewrite Hcr, Hcw, Heq. done.
Qed.

Lemma rio_checksum_pieces_witness :
  exists w r, write_all (Rio true 0 0 3 [] 0) [lit "REDIS0008"; [254; 0]; [255]] = Some w /\
    read_all (Rio true 0 0 0 (ptr w) 0) [9; 3] = Some (Some ([lit "REDIS0008"; [254; 0; 255]], r)) /\ cksum r = cksum w.
Proof.
  destruct (rio_checksum_pieces 3 0 [lit "REDIS0008"; [254; 0]; [255]] [lit "REDIS0008"; [254; 0; 255]])
    as (w & r & Ew & _ & Er & _ & Ec); [lia|lia| |reflexivity|vm_compute; reflexivity|].
  - do 3 (apply Forall_cons; split; [apply lit_bytes; reflexivity|]). apply Forall_nil_2.
  - exists w, r. split; [exact Ew|]. split; [exact Er|exact Ec].
Defined.
