(* ===== verification/Rdb.v ===== *)
(** * rdb.c: lengths, integers and strings of the dump format

    The functions are written over any stream (Rio) and any compressor (Lzf) and proved
    against the laws of these interfaces; the theorems at the end are about the
    in-memory [rio] and the LZF functions of the server. *)

From S2P Require Import Prelude Bits Util Sds SdsParse Crc Lzf Rio.

(** ** Constants of rdb.h *)

Definition RDB_6BITLEN : Z := 0.
Definition RDB_14BITLEN : Z := 1.
Definition RDB_32BITLEN : Z := 0x80.
Definition RDB_64BITLEN : Z := 0x81.
Definition RDB_ENCVAL : Z := 3.
Definition RDB_LENERR : Z := ULLONG_MAX.
Definition RDB_ENC_INT8 : Z := 0.
Definition RDB_ENC_INT16 : Z := 1.
Definition RDB_ENC_INT32 : Z := 2.
Definition RDB_ENC_LZF : Z := 3.
Definition RDB_LOAD_NONE : Z := 0.
Definition RDB_LOAD_ENC : Z := Z.shiftl 1 0.
Definition RDB_LOAD_PLAIN : Z := Z.shiftl 1 1.
Definition RDB_LOAD_SDS : Z := Z.shiftl 1 2.

(** The bytes of [htonl] and [htonu64] values in memory. *)
Definition be_encode (n : nat) (v : Z) : list Z := reverse (le_encode n v).
Definition be_decode (l : list Z) : Z := le_decode (reverse l).

(** The string values the loaders return: a plain buffer, an sds, an object with an sds
    or an object that encodes an integer. *)
Inductive strval := PlainBuf (p : list Z) | SdsStr (s : sds) | ObjRaw (s : sds) | ObjInt (v : Z).

(** What a loader does: it returns a value, or NULL, or reports a corrupt file and exits;
    [LoadFault] is an access out of bounds. *)
Inductive load (R A : Type) := Loaded (a : A) (r : R) | LoadNull | LoadExit | LoadFault.
Arguments Loaded {R A}.
Arguments LoadNull {R A}.
Arguments LoadExit {R A}.
Arguments LoadFault {R A}.

Definition lbind {R A B} (x : load R A) (k : A -> R -> load R B) : load R B :=
  match x with
  | Loaded a r => k a r
  | LoadNull => LoadNull
  | LoadExit => LoadExit
  | LoadFault => LoadFault
  end.

Definition checked {R A B} (o : option A) (k : A -> load R B) : load R B :=
  match o with Some a => k a | None => LoadFault end.

Section rdb.
Context {R : Type} `{Stream R} `{Lzf}.

(** ** Writing *)

(** The result and the stream; a NULL stream only counts. The length is returned as an [int]. *)
Definition rdbWriteRaw (rdb : option R) (p : list Z) : Z * option R :=
  match rdb with
  | None => (s32 (Z.of_nat (length p)), None)
  | Some r =>
    match s_write r p with
    | None => (-1, rdb)
    | Some r => (s32 (Z.of_nat (length p)), Some r)
    end
  end.

(** [if ((n = ...) == -1) return -1]. *)
Definition wthen (x : Z * option R) (k : Z -> option R -> Z * option R) : Z * option R :=
  let '(n, rdb) := x in if n =? -1 then (-1, rdb) else k n rdb.

Definition rdbSaveType (rdb : option R) (type : Z) : Z * option R := rdbWriteRaw rdb [u8 type].

Definition rdbSaveMillisecondTime (rdb : option R) (t : Z) : Z * option R := rdbWriteRaw rdb (le_encode 8 (u64 t)).

Definition rdbSaveLen (rdb : option R) (len : Z) : Z * option R :=
  if len <? Z.shiftl 1 6 then
    wthen (rdbWriteRaw rdb [Z.lor (Z.land len 255) (Z.shiftl RDB_6BITLEN 6)]) (fun _ rdb => (1, rdb))
  else if len <? Z.shiftl 1 14 then
    wthen (rdbWriteRaw rdb [Z.lor (Z.land (Z.shiftr len 8) 255) (Z.shiftl RDB_14BITLEN 6); Z.land len 255])
      (fun _ rdb => (2, rdb))
  else if len <=? 4294967295 then
    wthen (rdbWriteRaw rdb [RDB_32BITLEN]) (fun _ rdb =>
    wthen (rdbWriteRaw rdb (be_encode 4 len)) (fun _ rdb => (1 + 4, rdb)))
  else
    wthen (rdbWriteRaw rdb [RDB_64BITLEN]) (fun _ rdb =>
    wthen (rdbWriteRaw rdb (be_encode 8 len)) (fun _ rdb => (1 + 8, rdb))).

(** The bytes put in [enc]; none when the function returns 0. *)
Definition rdbEncodeInteger (value : Z) : list Z :=
  let tag t := Z.lor (Z.shiftl RDB_ENCVAL 6) t in
  if (-128 <=? value) && (value <=? 127) then [tag RDB_ENC_INT8; Z.land value 255]
  else if (-32768 <=? value) && (value <=? 32767) then
    [tag RDB_ENC_INT16; Z.land value 255; Z.land (Z.shiftr value 8) 255]
  else if (-2147483648 <=? value) && (value <=? 2147483647) then
    [tag RDB_ENC_INT32; Z.land value 255; Z.land (Z.shiftr value 8) 255; Z.land (Z.shiftr value 16) 255;
     Z.land (Z.shiftr value 24) 255]
  else [].

(** [strtoll(s, &endptr, 10)]: the value, saturated, and what follows the number. *)
Fixpoint strtoll_digits (v : Z) (p : list Z) : Z * list Z :=
  match p with
  | c :: p' => if is_digit c then strtoll_digits (v * 10 + (c - 48)) p' else (v, p)
  | [] => (v, [])
  end.

Definition strtoll (s : list Z) : Z * list Z :=
  let p := skip_blanks s in
  let '(neg, p) := match p with
                   | c :: p' => if c =? 45 then (true, p') else if c =? 43 then (false, p') else (false, p)
                   | [] => (false, p)
                   end in
  match p with
  | c :: _ =>
    if is_digit c then
      let '(v, rest) := strtoll_digits 0 p in
      (if (neg : bool) then Z.max LLONG_MIN (- v) else Z.min LLONG_MAX v, rest)
    else (0, s)
  | [] => (0, s)
  end.

(** [s] is followed by a NUL. *)
Definition rdbTryIntegerEncoding (s : list Z) : option (list Z) :=
  let '(value, endptr) := strtoll s in
  if negb (default 0 (head endptr) =? 0) then Some [] else
  '(_, buf) ← ll2string (replicate 32 0) 32 value;
  let t := cstring buf in
  if negb (Z.of_nat (length t) =? Z.of_nat (length s)) || negb (memcmp buf s (length s) =? 0) then Some []
  else Some (rdbEncodeInteger value).

Definition rdbSaveLzfBlob (rdb : option R) (data : list Z) (original_len : Z) : Z * option R :=
  wthen (rdbWriteRaw rdb [Z.lor (Z.shiftl RDB_ENCVAL 6) RDB_ENC_LZF]) (fun n1 rdb =>
  wthen (rdbSaveLen rdb (Z.of_nat (length data))) (fun n2 rdb =>
  wthen (rdbSaveLen rdb original_len) (fun n3 rdb =>
  wthen (rdbWriteRaw rdb data) (fun n4 rdb => (n1 + n2 + n3 + n4, rdb))))).

(** [fill]: what the allocation contains. *)
Definition rdbSaveLzfStringObject (fill : Z) (rdb : option R) (s : list Z) : option (Z * option R) :=
  let len := Z.of_nat (length s) in
  if len <=? 4 then Some (0, rdb) else
  let outlen := len - 4 in
  '(comprlen, out) ← lzf_c (take (Z.to_nat (u32 len)) s) (replicate (Z.to_nat (u32 outlen)) fill);
  if comprlen =? 0 then Some (0, rdb) else
  data ← rd out 0 comprlen;
  Some (rdbSaveLzfBlob rdb data len).

(** [rdb_compression] is [server.rdb_compression]. *)
Definition rdbSaveRawString (fill : Z) (rdb_compression : bool) (rdb : option R) (s : list Z) : option (Z * option R) :=
  let len := Z.of_nat (length s) in
  enc ← (if len <=? 11 then rdbTryIntegerEncoding s else Some []);
  if 0 <? Z.of_nat (length enc) then
    Some (wthen (rdbWriteRaw rdb enc) (fun _ rdb => (Z.of_nat (length enc), rdb)))
  else
    '(n, rdb) ← (if rdb_compression && (20 <? len) then rdbSaveLzfStringObject fill rdb s else Some (0, rdb));
    if n =? -1 then Some (-1, rdb) else
    if 0 <? n then Some (n, rdb) else
    Some (wthen (rdbSaveLen rdb len) (fun n1 rdb =>
      if 0 <? len then wthen (rdbWriteRaw rdb s) (fun _ rdb => (n1 + len, rdb)) else (n1, rdb))).

Definition rdbSaveLongLongAsStringObject (rdb : option R) (value : Z) : option (Z * option R) :=
  let enc := rdbEncodeInteger value in
  if 0 <? Z.of_nat (length enc) then Some (rdbWriteRaw rdb enc) else
  '(enclen, buf) ← ll2string (replicate 32 0) 32 value;
  t ← rd buf 0 enclen;
  Some (wthen (rdbSaveLen rdb enclen) (fun n1 rdb => wthen (rdbWriteRaw rdb t) (fun n2 rdb => (n1 + n2, rdb)))).

(** A string object is [ObjInt] or [ObjRaw]; other values do not occur. The count is
    returned as an [int]. *)
Definition rdbSaveStringObject (fill : Z) (rdb_compression : bool) (rdb : option R) (obj : strval) : option (Z * option R) :=
  '(n, rdb) ← match obj with
              | ObjInt v => rdbSaveLongLongAsStringObject rdb v
              | ObjRaw s => rdbSaveRawString fill rdb_compression rdb s
              | _ => None
              end;
  Some (s32 n, rdb).

(** ** Reading *)

(** [if (rioRead(rdb,buf,len) == 0) return NULL]. *)
Definition readn (r : R) (len : Z) : load R (list Z) :=
  match s_read r len with
  | Some (Some (bs, r)) => Loaded bs r
  | Some None => LoadNull
  | None => LoadFault
  end.

Definition rdbLoadType (r : R) : load R Z :=
  lbind (readn r 1) (fun b r => checked (rd1 b 0) (fun c => Loaded c r)).

Definition rdbLoadMillisecondTime (r : R) : load R Z :=
  lbind (readn r 8) (fun b r => Loaded (s64 (le_decode b)) r).

(** [isencoded] and the length; [LoadNull] is the return of -1. *)
Definition rdbLoadLenByRef (r : R) : load R (bool * Z) :=
  lbind (readn r 1) (fun b r =>
  checked (rd1 b 0) (fun b0 =>
  let type := Z.shiftr (Z.land b0 0xC0) 6 in
  if type =? RDB_ENCVAL then Loaded (true, Z.land b0 0x3F) r
  else if type =? RDB_6BITLEN then Loaded (false, Z.land b0 0x3F) r
  else if type =? RDB_14BITLEN then
    lbind (readn r 1) (fun b r =>
    checked (rd1 b 0) (fun b1 => Loaded (false, Z.lor (Z.shiftl (Z.land b0 0x3F) 8) b1) r))
  else if b0 =? RDB_32BITLEN then lbind (readn r 4) (fun b r => Loaded (false, be_decode b) r)
  else if b0 =? RDB_64BITLEN then lbind (readn r 8) (fun b r => Loaded (false, be_decode b) r)
  else LoadExit)).

(** On error the length is [RDB_LENERR]; the stream is not used after it. *)
Definition rdbLoadLen (r : R) : load R (bool * Z) :=
  match rdbLoadLenByRef r with
  | LoadNull => Loaded (false, RDB_LENERR) r
  | x => x
  end.

Definition has (flags bit : Z) : bool := negb (Z.land flags bit =? 0).

(** The value and [*lenptr] when it is set. *)
Definition rdbLoadIntegerObject (r : R) (enctype flags : Z) : load R (strval * option Z) :=
  lbind
    (if enctype =? RDB_ENC_INT8 then
       lbind (readn r 1) (fun enc r => checked (rd1 enc 0) (fun a => Loaded (s8 a) r))
     else if enctype =? RDB_ENC_INT16 then
       lbind (readn r 2) (fun enc r => checked (rd1 enc 0) (fun a => checked (rd1 enc 1) (fun b =>
         Loaded (s16 (u16 (Z.lor a (Z.shiftl b 8)))) r)))
     else if enctype =? RDB_ENC_INT32 then
       lbind (readn r 4) (fun enc r => checked (rd1 enc 0) (fun a => checked (rd1 enc 1) (fun b =>
         checked (rd1 enc 2) (fun c => checked (rd1 enc 3) (fun d =>
         Loaded (s32 (u32 (Z.lor (Z.lor (Z.lor a (Z.shiftl b 8)) (Z.shiftl c 16)) (Z.shiftl d 24)))) r)))))
     else LoadExit)
    (fun val r =>
     if has flags RDB_LOAD_PLAIN || has flags RDB_LOAD_SDS then
       checked ('(len, buf) ← ll2string (replicate 21 0) 21 val; t ← rd buf 0 len; Some (len, t)) (fun '(len, t) =>
       Loaded (if has flags RDB_LOAD_PLAIN then PlainBuf t else SdsStr t, Some len) r)
     else if has flags RDB_LOAD_ENC then Loaded (ObjInt val, None) r
     else
       checked ('(b, n) ← sdsll2str (replicate 21 0) val; rd b 0 n) (fun s => Loaded (ObjRaw s, None) r)).

Definition rdbLoadLzfStringObject (fill : Z) (r : R) (flags : Z) : load R (strval * option Z) :=
  lbind (rdbLoadLen r) (fun '(_, clen) r =>
  if clen =? RDB_LENERR then LoadNull else
  lbind (rdbLoadLen r) (fun '(_, len) r =>
  if len =? RDB_LENERR then LoadNull else
  let plain := has flags RDB_LOAD_PLAIN in
  let lenptr := if plain then Some len else None in
  lbind (readn r clen) (fun c r =>
  checked (lzf_d (take (Z.to_nat (u32 clen)) c) (replicate (Z.to_nat (u32 len)) fill)) (fun '(n, val) =>
  if n =? 0 then LoadNull else
  Loaded (if plain then PlainBuf val else if has flags RDB_LOAD_SDS then SdsStr val else ObjRaw val, lenptr) r)))).

Definition rdbGenericLoadStringObject (fill : Z) (r : R) (flags : Z) : load R (strval * option Z) :=
  lbind (rdbLoadLen r) (fun '(isencoded, len) r =>
  if (isencoded : bool) then
    if (len =? RDB_ENC_INT8) || (len =? RDB_ENC_INT16) || (len =? RDB_ENC_INT32) then rdbLoadIntegerObject r len flags
    else if len =? RDB_ENC_LZF then rdbLoadLzfStringObject fill r flags
    else LoadExit
  else if len =? RDB_LENERR then LoadNull
  else
    lbind (readn r len) (fun buf r =>
    if has flags RDB_LOAD_PLAIN || has flags RDB_LOAD_SDS then
      Loaded (if has flags RDB_LOAD_PLAIN then PlainBuf buf else SdsStr buf, Some len) r
    else Loaded (ObjRaw buf, None) r)).

Definition rdbLoadStringObject (fill : Z) (r : R) := rdbGenericLoadStringObject fill r RDB_LOAD_NONE.
Definition rdbLoadEncodedStringObject (fill : Z) (r : R) := rdbGenericLoadStringObject fill r RDB_LOAD_ENC.

(** ** What is written and what is read *)

(** [f] appends [bs] to any stream with room and returns [n]; on NULL it only returns [n]. *)
Definition saves (f : option R -> Z * option R) (bs : list Z) (n : Z) : Prop :=
  f None = (n, None) /\
  forall w, stream_ok w -> Z.of_nat (length (written w ++ bs)) < 2 ^ 62 ->
    exists w', f (Some w) = (n, Some w') /\ stream_ok w' /\ written w' = written w ++ bs.

(** [f] returns [a] on any stream that starts with [bs], and consumes exactly [bs]. *)
Definition loads {A} (f : R -> load R A) (bs : list Z) (a : A) : Prop :=
  forall r rest, stream_ok r -> unread r = bs ++ rest ->
    exists r', f r = Loaded a r' /\ stream_ok r' /\ unread r' = rest.

Context `{!StreamLaws R}.

Lemma saves_raw bs :
  Forall is_byte bs -> Z.of_nat (length bs) < 2 ^ 31 -> saves (fun rdb => rdbWriteRaw rdb bs) bs (Z.of_nat (length bs)).
Proof.
  intros Hb Hl. assert (Hs : s32 (Z.of_nat (length bs)) = Z.of_nat (length bs)) by (apply wraps_small; lia).
  split; [by cbn; rewrite Hs|]. intros w Hok Hmax. destruct (stream_write w bs Hok Hb Hmax) as (w' & E & ? & ?).
  exists w'. unfold rdbWriteRaw. by rewrite E, Hs.
Qed.

Lemma saves_ret n : saves (fun rdb => (n, rdb)) [] n.
Proof. split; [done|]. intros w Hok _. exists w. by rewrite app_nil_r. Qed.

Lemma saves_then f k b1 b2 n1 n2 :
  saves f b1 n1 -> n1 <> -1 -> saves (k n1) b2 n2 -> saves (fun rdb => wthen (f rdb) k) (b1 ++ b2) n2.
Proof.
  intros [F1 F2] Hn [K1 K2]. unfold wthen. split.
  - by rewrite F1, (proj2 (Z.eqb_neq n1 (-1))).
  - intros w Hok Hmax. rewrite app_assoc in Hmax. pose proof Hmax as Hmax'. rewrite length_app in Hmax'.
    destruct (F2 w Hok ltac:(lia)) as (w1 & -> & Hok1 & Hw1). rewrite (proj2 (Z.eqb_neq n1 (-1))) by done.
    destruct (K2 w1 Hok1) as (w2 & -> & Hok2 & Hw2); [by rewrite Hw1|]. exists w2. by rewrite Hw2, Hw1, <-app_assoc.
Qed.

Lemma saves_last f bs n1 n : saves f bs n1 -> n1 <> -1 -> saves (fun rdb => wthen (f rdb) (fun _ rdb => (n, rdb))) bs n.
Proof. intros Hf Hn. rewrite <-(app_nil_r bs). eapply saves_then; [done|done|apply saves_ret]. Qed.

Lemma saves_count f bs n1 (g : Z -> Z) :
  saves f bs n1 -> n1 <> -1 -> saves (fun rdb => wthen (f rdb) (fun m rdb => (g m, rdb))) bs (g n1).
Proof. intros Hf Hn. rewrite <-(app_nil_r bs). eapply saves_then; [done|done|apply saves_ret]. Qed.

Lemma loads_ret {A} (a : A) : loads (fun r => Loaded a r) [] a.
Proof. intros r rest Hok Hu. by exists r. Qed.

Lemma loads_bind {A B} (f : R -> load R A) (k : A -> R -> load R B) b1 b2 a b :
  loads f b1 a -> loads (k a) b2 b -> loads (fun r => lbind (f r) k) (b1 ++ b2) b.
Proof.
  intros F K r rest Hok Hu. rewrite <-app_assoc in Hu.
  destruct (F r _ Hok Hu) as (r1 & E1 & Hok1 & Hu1). rewrite E1. cbn [lbind]. exact (K r1 rest Hok1 Hu1).
Qed.

Lemma loads_readn bs n : n = Z.of_nat (length bs) -> loads (fun r => readn r n) bs bs.
Proof.
  intros -> r rest Hok Hu. destruct (stream_read r bs rest Hok Hu) as (r' & E & ? & ?).
  exists r'. unfold readn. rewrite E. done.
Qed.

(** Read, then return a value computed from the bytes. *)
Lemma loads_map {A} bs n (k : list Z -> R -> load R A) a :
  n = Z.of_nat (length bs) -> (forall r, k bs r = Loaded a r) -> loads (fun r => lbind (readn r n) k) bs a.
Proof.
  intros Hn Hk. rewrite <-(app_nil_r bs). eapply loads_bind; [by apply loads_readn|].
  intros r rest Hok Hu. exists r. by rewrite Hk.
Qed.

(** ** Lengths *)

Definition len_code (len : Z) : list Z :=
  if len <? 64 then [len]
  else if len <? 16384 then [len / 256 + 64; len mod 256]
  else if len <=? 4294967295 then RDB_32BITLEN :: be_encode 4 len
  else RDB_64BITLEN :: be_encode 8 len.

Lemma be_encode_bytes n v : Forall is_byte (be_encode n v).
Proof. apply Forall_reverse, le_encode_bytes. Qed.

Lemma length_be_encode n v : length (be_encode n v) = n.
Proof. unfold be_encode. by rewrite length_reverse, length_le_encode. Qed.

Lemma be_decode_encode n v : 0 <= v < 2 ^ (8 * Z.of_nat n) -> be_decode (be_encode n v) = v.
Proof. intros Hv. unfold be_decode, be_encode. rewrite reverse_involutive, le_decode_encode. by apply Z.mod_small. Qed.

Lemma lor_64 a : 0 <= a < 64 -> Z.lor a 64 = a + 64.
Proof.
  intros Ha. apply Z.eqb_eq. apply (check_range 64 (fun a => Z.lor a 64 =? a + 64)); [vm_compute; reflexivity|done].
Qed.

Lemma len_code_bytes len : 0 <= len < 2 ^ 64 -> Forall is_byte (len_code len).
Proof.
  intros Hl. unfold len_code. destruct (Z.ltb_spec len 64); [|destruct (Z.ltb_spec len 16384); [|destruct (Z.leb_spec len 4294967295)]];
    repeat (apply Forall_cons; split; [unfold is_byte, RDB_32BITLEN, RDB_64BITLEN; zlia|]); try apply Forall_nil_2; apply be_encode_bytes.
Qed.

Lemma length_len_code len : (1 <= length (len_code len) <= 9)%nat.
Proof. unfold len_code. repeat case_match; cbn [length]; rewrite ?length_be_encode; lia. Qed.

Lemma rdbSaveLen_saves len :
  0 <= len < 2 ^ 64 -> saves (fun rdb => rdbSaveLen rdb len) (len_code len) (Z.of_nat (length (len_code len))).
Proof.
  intros Hl. pose proof (len_code_bytes len Hl) as Hb. unfold rdbSaveLen, len_code in *.
  change (Z.shiftl 1 6) with 64. change (Z.shiftl 1 14) with 16384. change (Z.shiftl RDB_6BITLEN 6) with 0.
  change (Z.shiftl RDB_14BITLEN 6) with 64.
  destruct (Z.ltb_spec len 64).
  { rewrite Z.lor_0_r, land_255, Z.mod_small by lia. eapply saves_last; [apply saves_raw; [done|cbn; lia]|cbn; lia]. }
  destruct (Z.ltb_spec len 16384).
  { rewrite !land_255, Z.shiftr_div_pow2 by lia. change (2 ^ 8) with 256. rewrite (Z.mod_small (len / 256)) by zlia.
    rewrite lor_64 by zlia.
    eapply saves_last; [apply saves_raw; [done|cbn; lia]|cbn; lia]. }
  destruct (Z.leb_spec len 4294967295); cbn [length]; rewrite length_be_encode.
  - eapply (saves_then _ _ [RDB_32BITLEN]); [apply saves_raw; [apply lit_bytes; reflexivity|cbn; lia]|cbn; lia|].
    eapply saves_last; [apply saves_raw; [apply be_encode_bytes|rewrite length_be_encode; lia]|rewrite length_be_encode; lia].
  - eapply (saves_then _ _ [RDB_64BITLEN]); [apply saves_raw; [apply lit_bytes; reflexivity|cbn; lia]|cbn; lia|].
    eapply saves_last; [apply saves_raw; [apply be_encode_bytes|rewrite length_be_encode; lia]|rewrite length_be_encode; lia].
Qed.

(** The first byte of a code decides how it is read. *)
Lemma len_byte_cases b :
  0 <= b < 256 ->
  Z.shiftr (Z.land b 0xC0) 6 = b / 64 /\ Z.land b 0x3F = b mod 64.
Proof.
  intros Hb. assert (Hchk : (Z.shiftr (Z.land b 0xC0) 6 =? b / 64) && (Z.land b 0x3F =? b mod 64) = true).
  { apply (check_range 256 (fun b => (Z.shiftr (Z.land b 0xC0) 6 =? b / 64) && (Z.land b 0x3F =? b mod 64))); [vm_compute; reflexivity|done]. }
  zbool. done.
Qed.

Lemma rdbLoadLenByRef_loads len :
  0 <= len < 2 ^ 64 -> loads rdbLoadLenByRef (len_code len) (false, len).
Proof.
  intros Hl. unfold rdbLoadLenByRef, len_code.
  destruct (Z.ltb_spec len 64).
  { apply loads_map; [done|]. intros r. change (rd1 [len] 0) with (Some len). cbn [checked].
    destruct (len_byte_cases len) as [-> ->]; [lia|]. rewrite Z.div_small, Z.mod_small by lia. done. }
  destruct (Z.ltb_spec len 16384).
  { set (b0 := len / 256 + 64). assert (Hb0 : b0 / 64 = 1 /\ b0 mod 64 = len / 256 /\ 0 <= b0 < 256) by (unfold b0; zlia).
    destruct Hb0 as (Hq & Hm & Hb0). eapply (loads_bind _ _ [b0] [len mod 256]); [by apply loads_readn|].
    change (rd1 [b0] 0) with (Some b0). cbn [checked]. destruct (len_byte_cases b0) as [-> ->]; [lia|]. rewrite Hq, Hm. cbn [Z.eqb Pos.eqb RDB_ENCVAL RDB_6BITLEN RDB_14BITLEN].
    apply loads_map; [done|]. intros r. change (rd1 [len mod 256] 0) with (Some (len mod 256)). cbn [checked]. do 2 f_equal.
    rewrite Z.lor_comm, lor_shiftl by (change (2 ^ 8) with 256; zlia). change (2 ^ 8) with 256. zlia. }
  destruct (Z.leb_spec len 4294967295).
  - eapply (loads_bind _ _ [RDB_32BITLEN]); [by apply loads_readn|]. apply loads_map; [by rewrite length_be_encode|].
    intros r. rewrite be_decode_encode by (cbn; lia). done.
  - eapply (loads_bind _ _ [RDB_64BITLEN]); [by apply loads_readn|]. apply loads_map; [by rewrite length_be_encode|].
    intros r. rewrite be_decode_encode by (cbn in *; lia). done.
Qed.

Lemma rdbLoadLen_loads len : 0 <= len < 2 ^ 64 -> loads rdbLoadLen (len_code len) (false, len).
Proof.
  intros Hl r rest Hok Hu. destruct (rdbLoadLenByRef_loads len Hl r rest Hok Hu) as (r' & E & ?).
  exists r'. unfold rdbLoadLen. rewrite E. done.
Qed.

(** The tag of an encoded value. *)
Lemma rdbLoadLen_tag t : 0 <= t < 64 -> loads rdbLoadLen [192 + t] (true, t).
Proof.
  intros Ht r rest Hok Hu.
  assert (Hl : loads rdbLoadLenByRef [192 + t] (true, t)).
  { unfold rdbLoadLenByRef. apply loads_map; [done|]. intros r1. change (rd1 [192 + t] 0) with (Some (192 + t)). cbn [checked].
    destruct (len_byte_cases (192 + t)) as [-> ->]; [lia|].
    replace ((192 + t) / 64) with 3 by zlia. replace ((192 + t) mod 64) with t by zlia. done. }
  destruct (Hl r rest Hok Hu) as (r' & E & ?). exists r'. unfold rdbLoadLen. rewrite E. done.
Qed.

(** ** Integers *)

Definition int_code (v : Z) : list Z :=
  if (-128 <=? v) && (v <=? 127) then 192 :: le_encode 1 v
  else if (-32768 <=? v) && (v <=? 32767) then 193 :: le_encode 2 v
  else 194 :: le_encode 4 v.

Lemma rdbEncodeInteger_spec v :
  rdbEncodeInteger v = if (INT32_MIN <=? v) && (v <=? INT32_MAX) then int_code v else [].
Proof.
  unfold rdbEncodeInteger, int_code. cbn [le_encode]. rewrite !land_255, !Z.shiftr_div_pow2, !Z.div_div by lia.
  change (2 ^ 8) with 256. change (2 ^ 16) with 65536. change (2 ^ 24) with 16777216.
  repeat match goal with |- context [?a <=? ?b] => destruct (Z.leb_spec a b); cbn [andb] end; try lia; done.
Qed.

(** The string an object or buffer stands for. *)
Definition strval_bytes (v : strval) : list Z :=
  match v with PlainBuf p => p | SdsStr s => s | ObjRaw s => s | ObjInt v => decimal v end.

(** The kind of value the flags ask for. *)
Definition wanted (flags : Z) (s : list Z) : strval * option Z :=
  if has flags RDB_LOAD_PLAIN then (PlainBuf s, Some (Z.of_nat (length s)))
  else if has flags RDB_LOAD_SDS then (SdsStr s, Some (Z.of_nat (length s)))
  else (ObjRaw s, None).

Definition wanted_int (flags v : Z) : strval * option Z :=
  if negb (has flags RDB_LOAD_PLAIN || has flags RDB_LOAD_SDS) && has flags RDB_LOAD_ENC then (ObjInt v, None)
  else wanted flags (decimal v).

Lemma load_int_finish flags v (r : R) :
  LLONG_MIN <= v <= LLONG_MAX ->
  (if has flags RDB_LOAD_PLAIN || has flags RDB_LOAD_SDS then
     checked ('(len, buf) ← ll2string (replicate 21 0) 21 v; t ← rd buf 0 len; Some (len, t)) (fun '(len, t) =>
     Loaded (if has flags RDB_LOAD_PLAIN then PlainBuf t else SdsStr t, Some len) r)
   else if has flags RDB_LOAD_ENC then Loaded (ObjInt v, None) r
   else checked ('(b, n) ← sdsll2str (replicate 21 0) v; rd b 0 n) (fun s => Loaded (ObjRaw s, None) r)) =
  Loaded (wanted_int flags v) r.
Proof.
  intros Hv. unfold wanted_int, wanted.
  destruct (ll2string_text 21 v Hv) as (b & Eb & _ & Er); [lia|]. change (Z.of_nat 21) with 21 in Eb. rewrite Eb. mred. rewrite Er. mred. cbn [checked].
  destruct (sdsll2str_spec (replicate 21 0) v Hv) as (rest & Es & _); [rewrite length_replicate; lia|].
  rewrite Es. mred. rewrite rd_prefix by done. cbn [checked].
  by destruct (has flags RDB_LOAD_PLAIN), (has flags RDB_LOAD_SDS), (has flags RDB_LOAD_ENC).
Qed.

Lemma le_lor2 a b : 0 <= a < 256 -> Z.lor a (Z.shiftl b 8) = le_decode [a; b].
Proof. intros Ha. rewrite lor_shiftl by (lia || (cbn; lia)). cbn [le_decode]. change (2 ^ 8) with 256. lia. Qed.

Lemma le_lor4 a b c d :
  0 <= a < 256 -> 0 <= b < 256 -> 0 <= c < 256 ->
  Z.lor (Z.lor (Z.lor a (Z.shiftl b 8)) (Z.shiftl c 16)) (Z.shiftl d 24) = le_decode [a; b; c; d].
Proof.
  intros Ha Hb Hc. rewrite (lor_shiftl a b 8) by (lia || (cbn; lia)). change (2 ^ 8) with 256.
  rewrite (lor_shiftl _ c 16) by (lia || (cbn; lia)). change (2 ^ 16) with 65536.
  rewrite (lor_shiftl _ d 24) by (lia || (change (2 ^ 24) with 16777216; lia)).
  cbn [le_decode]. change (2 ^ 24) with 16777216. lia.
Qed.

Lemma rdbLoadIntegerObject_loads (n : nat) t v flags :
  (n = 1%nat /\ t = 0) \/ (n = 2%nat /\ t = 1) \/ (n = 4%nat /\ t = 2) ->
  - 2 ^ (8 * Z.of_nat n - 1) <= v < 2 ^ (8 * Z.of_nat n - 1) ->
  loads (fun r => rdbLoadIntegerObject r t flags) (le_encode n v) (wanted_int flags v).
Proof.
  intros Hn Hv. assert (Hll : LLONG_MIN <= v <= LLONG_MAX).
  { destruct Hn as [[-> _]|[[-> _]|[-> _]]]; cbn in Hv; lia. }
  assert (Hd : wraps (8 * Z.of_nat n) (le_decode (le_encode n v)) = v) by (apply le_decode_signed; [lia|done]).
  rewrite <-(app_nil_r (le_encode n v)). apply (loads_bind _ _ (le_encode n v) [] v).
  2:{ intros r rest Hok Hu. exists r. rewrite load_int_finish by done. done. }
  destruct Hn as [[-> ->]|[[-> ->]|[-> ->]]]; cbn [Z.eqb Pos.eqb RDB_ENC_INT8 RDB_ENC_INT16 RDB_ENC_INT32];
    (apply loads_map; [done|]); intros r; cbn [le_encode] in *;
    set (a := v mod 256) in *; assert (Ha : 0 <= a < 256) by (unfold a; zlia).
  - change (rd1 [a] 0) with (Some a). cbn [checked le_decode] in *. f_equal. rewrite Z.mul_0_r, Z.add_0_r in Hd. exact Hd.
  - set (b := (v / 256) mod 256) in *. assert (Hb : 0 <= b < 256) by (unfold b; zlia).
    change (rd1 [a; b] 0) with (Some a). change (rd1 [a; b] 1) with (Some b). cbn [checked].
    f_equal. by rewrite le_lor2, wraps_wrapu by lia.
  - set (b := (v / 256) mod 256) in *. assert (Hb : 0 <= b < 256) by (unfold b; zlia).
    set (c := (v / 256 / 256) mod 256) in *. assert (Hc : 0 <= c < 256) by (unfold c; zlia).
    set (d := (v / 256 / 256 / 256) mod 256) in *.
    change (rd1 [a; b; c; d] 0) with (Some a). change (rd1 [a; b; c; d] 1) with (Some b).
    change (rd1 [a; b; c; d] 2) with (Some c). change (rd1 [a; b; c; d] 3) with (Some d). cbn [checked].
    f_equal. by rewrite le_lor4, wraps_wrapu by lia.
Qed.

(** ** Strings that look like integers *)

Lemma strtoll_digits_nonneg v p : 0 <= v -> 0 <= (strtoll_digits v p).1.
Proof.
  revert v. induction p as [|c p IH]; intros v Hv; [done|]. cbn [strtoll_digits].
  destruct (is_digit c) eqn:Hc; [|done]. apply IH. unfold is_digit in Hc. lia.
Qed.

Lemma strtoll_range s : LLONG_MIN <= (strtoll s).1 <= LLONG_MAX.
Proof.
  unfold strtoll. destruct (match skip_blanks s with [] => _ | _ => _ end) as [neg p].
  destruct p as [|c p]; [cbn; lia|]. destruct (is_digit c); [|cbn; lia].
  pose proof (strtoll_digits_nonneg 0 (c :: p) ltac:(lia)) as Hn.
  destruct (strtoll_digits 0 (c :: p)) as [v rest]. cbn [fst] in *. destruct neg; lia.
Qed.

Lemma strtoll_digits_val v p :
  Forall (fun c => is_digit c = true) p -> strtoll_digits v p = (digits_val v p, []).
Proof.
  intros Hp. revert v. induction Hp as [|c p Hc Hp IH]; intros v; [done|]. cbn [strtoll_digits]. rewrite Hc, IH. done.
Qed.

Lemma udecimal_nonempty v : udecimal v <> [].
Proof. intros E. pose proof (length_udecimal_pos v) as Hl. rewrite E in Hl. cbn in Hl. lia. Qed.

Lemma decimal_no_nul v : Forall (fun c => c <> 0) (decimal v).
Proof.
  assert (Hu : forall u, 0 <= u -> Forall (fun c => c <> 0) (udecimal u)).
  { intros u Hu. eapply Forall_impl; [apply udecimal_digits, Hu|]. intros c Hc. unfold is_digit in Hc. lia. }
  unfold decimal. destruct (Z.ltb_spec v 0); [apply Forall_cons; split; [lia|]|]; apply Hu; lia.
Qed.

Lemma strtoll_decimal v : LLONG_MIN <= v <= LLONG_MAX -> strtoll (decimal v) = (v, []).
Proof.
  intros Hv. unfold decimal. destruct (Z.ltb_spec v 0) as [Hneg|Hpos].
  - pose proof (udecimal_digits (- v) ltac:(lia)) as Hd. pose proof (udecimal_nonempty (- v)) as Hne. unfold strtoll. cbn [skip_blanks isspace].
    change (isspace 45) with false. cbn [Z.eqb Pos.eqb].
    destruct (udecimal (- v)) as [|c p] eqn:E; [done|]. rewrite (Forall_inv Hd), strtoll_digits_val by done.
    rewrite <-E, digits_val_udecimal by lia. f_equal. lia.
  - pose proof (udecimal_digits v ltac:(lia)) as Hd. pose proof (udecimal_nonempty v) as Hne. unfold strtoll.
    destruct (udecimal v) as [|c p] eqn:E; [done|]. pose proof (Forall_inv Hd) as Hc. cbn beta in Hc.
    assert (Hs : isspace c = false) by (unfold is_digit, isspace in *; lia). cbn [skip_blanks]. rewrite Hs.
    unfold is_digit in Hc. rewrite (proj2 (Z.eqb_neq c 45)), (proj2 (Z.eqb_neq c 43)) by lia.
    rewrite (Forall_inv Hd), strtoll_digits_val by done. rewrite <-E, digits_val_udecimal by lia. f_equal. lia.
Qed.

Lemma cstring_app t b : Forall (fun c => c <> 0) t -> cstring (t ++ 0 :: b) = t.
Proof.
  induction 1 as [|c t Hc _ IH]; [done|]. cbn [cstring app]. by rewrite (proj2 (Z.eqb_neq c 0)), IH.
Qed.

Lemma memcmp_prefix t b s : length t = length s -> memcmp (t ++ b) s (length s) = memcmp t s (length s).
Proof.
  revert s. induction t as [|x t IH]; intros [|y s] Hl; try (cbn in Hl; lia); [by destruct b|].
  cbn [app length memcmp]. rewrite IH by (cbn in Hl; lia). done.
Qed.

Definition is_int32_text (s : list Z) : option Z :=
  match string2ll s with
  | Some v => if (INT32_MIN <=? v) && (v <=? INT32_MAX) then Some v else None
  | None => None
  end.

(** Exactly the decimal texts of 32-bit integers are encoded. *)
Lemma rdbTryIntegerEncoding_spec s :
  rdbTryIntegerEncoding s = Some (match is_int32_text s with Some v => int_code v | None => [] end).
Proof.
  unfold rdbTryIntegerEncoding, is_int32_text. destruct (string2ll s) as [v|] eqn:Es.
  - apply string2ll_sound in Es as [-> Hv]. rewrite strtoll_decimal by done. cbn [head default Z.eqb negb].
    destruct (ll2string_text 32 v Hv) as (b & Eb & Hb & _); [lia|]. change (Z.of_nat 32) with 32 in Eb. rewrite Eb. mred.
    rewrite Hb, cstring_app by apply decimal_no_nul. rewrite Z.eqb_refl, memcmp_prefix by done.
    rewrite (proj2 (memcmp_eq (decimal v) (decimal v) eq_refl)) by done. cbn [Z.eqb negb orb].
    rewrite rdbEncodeInteger_spec. by destruct (_ && _).
  - pose proof (strtoll_range s) as Hr. destruct (strtoll s) as [value endptr]. cbn [fst] in Hr.
    destruct (negb _); [done|].
    destruct (ll2string_text 32 value Hr) as (b & Eb & Hb & _); [lia|]. change (Z.of_nat 32) with 32 in Eb. rewrite Eb. mred.
    rewrite Hb, cstring_app by apply decimal_no_nul.
    destruct (Z.eqb_spec (Z.of_nat (length (decimal value))) (Z.of_nat (length s))) as [El|]; [|done].
    rewrite memcmp_prefix by lia. cbn [negb orb].
    destruct (Z.eqb_spec (memcmp (decimal value) s (length s)) 0) as [Em|]; [|done]. exfalso.
    replace (length s) with (length (decimal value)) in Em by lia. apply memcmp_eq in Em; [|lia].
    rewrite <-Em, string2ll_complete in Es by done. done.
Qed.

Lemma int_code_facts v :
  INT32_MIN <= v <= INT32_MAX -> Forall is_byte (int_code v) /\ 0 < Z.of_nat (length (int_code v)) <= 5.
Proof.
  intros Hv. unfold int_code. repeat case_match; (split; [|cbn; lia]); (apply Forall_cons; split; [unfold is_byte; lia|apply le_encode_bytes]).
Qed.

Lemma int_code_loads fill v flags :
  INT32_MIN <= v <= INT32_MAX ->
  loads (fun r => rdbGenericLoadStringObject fill r flags) (int_code v) (wanted_int flags v).
Proof.
  intros Hv. unfold rdbGenericLoadStringObject, int_code.
  destruct ((-128 <=? v) && (v <=? 127)) eqn:E8; [|destruct ((-32768 <=? v) && (v <=? 32767)) eqn:E16].
  - zbool. eapply (loads_bind _ _ [192] (le_encode 1 v) (true, 0)); [apply (rdbLoadLen_tag 0); lia|].
    apply rdbLoadIntegerObject_loads; [auto|cbn; lia].
  - zbool. eapply (loads_bind _ _ [193] (le_encode 2 v) (true, 1)); [apply (rdbLoadLen_tag 1); lia|].
    apply rdbLoadIntegerObject_loads; [auto|cbn; lia].
  - eapply (loads_bind _ _ [194] (le_encode 4 v) (true, 2)); [apply (rdbLoadLen_tag 2); lia|].
    apply rdbLoadIntegerObject_loads; [auto|cbn; lia].
Qed.

(** ** Strings *)

Definition verbatim_code (s : list Z) : list Z := len_code (Z.of_nat (length s)) ++ s.
Definition lzf_code (data s : list Z) : list Z :=
  [195] ++ len_code (Z.of_nat (length data)) ++ len_code (Z.of_nat (length s)) ++ data.

(** A loader gives back the string [s], in the form the flags ask for. *)
Definition loads_string (f : Z -> R -> load R (strval * option Z)) (bs s : list Z) : Prop :=
  forall flags, exists v lp, loads (f flags) bs (v, lp) /\ strval_bytes v = s /\
    (has flags RDB_LOAD_PLAIN = true -> v = PlainBuf s /\ lp = Some (Z.of_nat (length s))) /\
    (has flags RDB_LOAD_PLAIN = false -> has flags RDB_LOAD_SDS = true -> v = SdsStr s).

Lemma verbatim_saves s :
  Forall is_byte s -> Z.of_nat (length s) < 2 ^ 31 ->
  saves (fun rdb => wthen (rdbSaveLen rdb (Z.of_nat (length s))) (fun n1 rdb =>
      if 0 <? Z.of_nat (length s) then wthen (rdbWriteRaw rdb s) (fun _ rdb => (n1 + Z.of_nat (length s), rdb)) else (n1, rdb)))
    (verbatim_code s) (Z.of_nat (length (verbatim_code s))).
Proof.
  intros Hb Hl. unfold verbatim_code. rewrite length_app, Nat2Z.inj_add.
  eapply saves_then; [apply rdbSaveLen_saves; lia|lia|].
  destruct (Z.ltb_spec 0 (Z.of_nat (length s))).
  - eapply saves_last; [by apply saves_raw; [|lia]|lia].
  - destruct s; [|cbn in *; lia]. rewrite Z.add_0_r. apply saves_ret.
Qed.

Lemma verbatim_loads fill s :
  Z.of_nat (length s) < 2 ^ 32 -> loads_string (fun flags r => rdbGenericLoadStringObject fill r flags) (verbatim_code s) s.
Proof.
  intros Hl flags. exists (wanted flags s).1, (wanted flags s).2. split; [|unfold wanted; split_and!; intros; repeat case_match; done].
  unfold rdbGenericLoadStringObject, verbatim_code. rewrite <-surjective_pairing.
  eapply (loads_bind _ _ _ _ (false, Z.of_nat (length s))); [apply rdbLoadLen_loads; lia|].
  unfold RDB_LENERR. rewrite (proj2 (Z.eqb_neq _ _)) by lia.
  apply loads_map; [done|]. intros r. unfold wanted. by destruct (has flags RDB_LOAD_PLAIN), (has flags RDB_LOAD_SDS).
Qed.

Lemma lzf_saves data s :
  Forall is_byte data -> Z.of_nat (length data) < 2 ^ 31 -> Z.of_nat (length s) < 2 ^ 32 ->
  saves (fun rdb => rdbSaveLzfBlob rdb data (Z.of_nat (length s))) (lzf_code data s) (Z.of_nat (length (lzf_code data s))).
Proof.
  intros Hb Hd Hs. unfold lzf_code, rdbSaveLzfBlob.
  eapply saves_then; [apply saves_raw; [apply lit_bytes; reflexivity|cbn; lia]|cbn; lia|].
  eapply saves_then; [apply rdbSaveLen_saves; lia|lia|].
  eapply saves_then; [apply rdbSaveLen_saves; lia|lia|].
  rewrite !length_app, !Nat2Z.inj_add, !Z.add_assoc. apply (saves_count _ _ _ (Z.add _)); [by apply saves_raw; [|lia]|lia].
Qed.

Lemma lzf_loads fill data s :
  Z.of_nat (length data) < 2 ^ 32 -> Z.of_nat (length s) < 2 ^ 32 -> s <> [] ->
  lzf_d data (replicate (length s) fill) = Some (Z.of_nat (length s), s) ->
  loads_string (fun flags r => rdbGenericLoadStringObject fill r flags) (lzf_code data s) s.
Proof.
  intros Hd Hs Hne El flags.
  set (v := if has flags RDB_LOAD_PLAIN then PlainBuf s else if has flags RDB_LOAD_SDS then SdsStr s else ObjRaw s).
  exists v, (if has flags RDB_LOAD_PLAIN then Some (Z.of_nat (length s)) else None).
  split; [|unfold v; split_and!; intros; repeat case_match; done].
  unfold rdbGenericLoadStringObject, lzf_code.
  eapply (loads_bind _ _ [195] _ (true, 3)); [apply (rdbLoadLen_tag 3); lia|]. cbn [Z.eqb Pos.eqb orb RDB_ENC_INT8 RDB_ENC_INT16 RDB_ENC_INT32 RDB_ENC_LZF].
  unfold rdbLoadLzfStringObject. eapply (loads_bind _ _ _ _ (false, Z.of_nat (length data))); [apply rdbLoadLen_loads; lia|].
  unfold RDB_LENERR. rewrite (proj2 (Z.eqb_neq _ _)) by lia.
  eapply (loads_bind _ _ _ _ (false, Z.of_nat (length s))); [apply rdbLoadLen_loads; lia|].
  rewrite (proj2 (Z.eqb_neq _ _)) by lia.
  apply loads_map; [done|]. intros r. rewrite !wrapu_small, !Nat2Z.id, take_ge by lia. rewrite El. cbn [checked].
  rewrite (proj2 (Z.eqb_neq _ _)); [done|]. destruct s; [done|cbn; lia].
Qed.

Lemma int_loads_string fill v :
  INT32_MIN <= v <= INT32_MAX ->
  loads_string (fun flags r => rdbGenericLoadStringObject fill r flags) (int_code v) (decimal v).
Proof.
  intros Hv flags. exists (wanted_int flags v).1, (wanted_int flags v).2. rewrite <-surjective_pairing.
  split; [by apply int_code_loads|]. unfold wanted_int, wanted.
  split_and!; intros; destruct (has flags RDB_LOAD_PLAIN), (has flags RDB_LOAD_SDS), (has flags RDB_LOAD_ENC); done.
Qed.

(** A saver that may fault: it does not, and appends [bs]. *)
Definition saves_some (f : option R -> option (Z * option R)) (bs : list Z) : Prop :=
  f None = Some (Z.of_nat (length bs), None) /\
  forall w, stream_ok w -> Z.of_nat (length (written w ++ bs)) < 2 ^ 62 ->
    exists w', f (Some w) = Some (Z.of_nat (length bs), Some w') /\ stream_ok w' /\ written w' = written w ++ bs.

Lemma saves_some_intro f g bs :
  (forall rdb x, g rdb = (Z.of_nat (length bs), x) -> f rdb = Some (Z.of_nat (length bs), x)) ->
  saves g bs (Z.of_nat (length bs)) -> saves_some f bs.
Proof.
  intros Hfg [G1 G2]. split; [by apply Hfg|]. intros w Hok Hmax. destruct (G2 w Hok Hmax) as (w' & E & ? & ?).
  exists w'. split; [by apply Hfg|done].
Qed.

(** The count returned as an [int]. *)
Lemma saves_some_int f bs :
  saves_some f bs -> Z.of_nat (length bs) < 2 ^ 31 ->
  saves_some (fun rdb => '(n, rdb) ← f rdb; Some (s32 n, rdb)) bs.
Proof.
  intros [F1 F2] Hl. assert (Hs : s32 (Z.of_nat (length bs)) = Z.of_nat (length bs)) by (apply wraps_small; lia).
  split.
  - rewrite F1. mred. by rewrite Hs.
  - intros w Hok Hmax. destruct (F2 w Hok Hmax) as (w' & -> & ? & ?). exists w'. mred. by rewrite Hs.
Qed.

Context `{!LzfLaws}.

Lemma rdbSaveRawString_ok fill comp s :
  Forall is_byte s -> Z.of_nat (length s) < 2 ^ 31 ->
  exists bs, saves_some (fun rdb => rdbSaveRawString fill comp rdb s) bs /\ Forall is_byte bs /\
    loads_string (fun flags r => rdbGenericLoadStringObject fill r flags) bs s.
Proof.
  intros Hb Hl. unfold rdbSaveRawString. set (len := Z.of_nat (length s)) in *.
  assert (Henc : exists enc, (if len <=? 11 then rdbTryIntegerEncoding s else Some []) = Some enc /\
    (enc = [] \/ exists v, s = decimal v /\ INT32_MIN <= v <= INT32_MAX /\ enc = int_code v)).
  { destruct (len <=? 11); [|eauto]. rewrite rdbTryIntegerEncoding_spec. unfold is_int32_text.
    destruct (string2ll s) as [v|] eqn:Es; [|eauto]. apply string2ll_sound in Es as [-> _].
    destruct (_ && _) eqn:Er; [|eauto]. eexists. split; [done|]. right. exists v. zbool. split_and!; done || lia. }
  destruct Henc as (enc & Ee & Hcase). rewrite Ee. mred.
  destruct Hcase as [->|(v & -> & Hv & ->)].
  2:{ destruct (int_code_facts v Hv) as [Hbe Hle]. exists (int_code v). split; [|split; [done|by apply int_loads_string]].
      rewrite (proj2 (Z.ltb_lt _ _)) by lia.
      eapply saves_some_intro; [intros rdb x E; f_equal; exact E|]. eapply saves_last; [by apply saves_raw; [|lia]|lia]. }
  cbn [length Z.ltb Z.compare]. change (0 <? Z.of_nat 0) with false. cbn iota.
  assert (Hverb : saves_some (fun rdb => Some (wthen (rdbSaveLen rdb len) (fun n1 rdb =>
      if 0 <? len then wthen (rdbWriteRaw rdb s) (fun _ rdb => (n1 + len, rdb)) else (n1, rdb)))) (verbatim_code s)).
  { eapply saves_some_intro; [intros rdb x E; f_equal; exact E|]. by apply verbatim_saves. }
  assert (Hvb : Forall is_byte (verbatim_code s)) by (apply Forall_app; split; [apply len_code_bytes; unfold len in *; lia|done]).
  pose proof (verbatim_loads fill s ltac:(lia)) as Hvl.
  destruct (comp && (20 <? len)) eqn:Ec; [|by exists (verbatim_code s)].
  zbool. unfold rdbSaveLzfStringObject. fold len. rewrite (proj2 (Z.leb_gt len 4)) by lia.
  rewrite !wrapu_small, take_ge by lia.
  destruct (lzf_law s (replicate (Z.to_nat (len - 4)) fill) (replicate (length s) fill)) as (n & out & E & Hlo & Hn & Hd).
  { done. } { unfold len in *. lia. }
  { intros E. apply (f_equal length) in E. rewrite length_replicate in E. cbn in E. lia. }
  { by rewrite length_replicate. }
  rewrite E. mred. destruct (Z.eqb_spec n 0) as [->|Hn0]; [by exists (verbatim_code s)|].
  destruct (Hd Hn0) as (data & Erd & Hdb & Edec). rewrite Erd. mred.
  assert (Hdl : Z.of_nat (length data) = n) by (by eapply rd_length). rewrite length_replicate in Hn.
  assert (Hpos : 0 < Z.of_nat (length (lzf_code data s))) by (unfold lzf_code; cbn [app length]; lia).
  exists (lzf_code data s). split; [|split; [|by apply lzf_loads; [lia|lia|intros ->; cbn in *; lia|]]].
  - eapply saves_some_intro; [|apply (lzf_saves data s Hdb ltac:(lia) ltac:(lia))]. intros rdb x Em. cbn beta in Em. fold len in Em.
    rewrite Em. mred. rewrite (proj2 (Z.eqb_neq _ _)), (proj2 (Z.ltb_lt _ _)) by lia. done.
  - unfold lzf_code. rewrite !Forall_app. split_and!; [apply lit_bytes; reflexivity|apply len_code_bytes; lia..|done].
Qed.

Lemma rdbSaveLongLong_ok fill v :
  LLONG_MIN <= v <= LLONG_MAX ->
  exists bs, saves_some (fun rdb => rdbSaveLongLongAsStringObject rdb v) bs /\ Forall is_byte bs /\ Z.of_nat (length bs) < 2 ^ 31 /\
    loads_string (fun flags r => rdbGenericLoadStringObject fill r flags) bs (decimal v).
Proof.
  intros Hv. unfold rdbSaveLongLongAsStringObject. rewrite rdbEncodeInteger_spec.
  destruct ((INT32_MIN <=? v) && (v <=? INT32_MAX)) eqn:Er.
  - zbool. destruct (int_code_facts v) as [Hbe Hle]; [lia|]. exists (int_code v). split; [|split; [done|split; [lia|apply int_loads_string; lia]]].
    rewrite (proj2 (Z.ltb_lt _ _)) by lia. eapply saves_some_intro; [intros rdb x E; f_equal; exact E|]. by apply saves_raw; [|lia].
  - change (0 <? Z.of_nat (length (@nil Z))) with false. cbn iota.
    destruct (ll2string_text 32 v Hv) as (b & Eb & _ & Erd); [lia|]. change (Z.of_nat 32) with 32 in Eb. rewrite Eb. mred. rewrite Erd. mred.
    pose proof (decimal_bounds v Hv) as Hdb. assert (Hby : Forall is_byte (decimal v)).
    { assert (Hu : forall u, 0 <= u -> Forall is_byte (udecimal u)).
      { intros u Hu. eapply Forall_impl; [apply udecimal_digits, Hu|]. intros c Hc. unfold is_digit, is_byte in *. lia. }
      unfold decimal. destruct (Z.ltb_spec v 0); [apply Forall_cons; split; [unfold is_byte; lia|]|]; apply Hu; lia. }
    exists (verbatim_code (decimal v)). split; [|split; [|split]].
    + eapply saves_some_intro; [intros rdb x E; f_equal; exact E|]. unfold verbatim_code. rewrite length_app, Nat2Z.inj_add.
      eapply saves_then; [apply rdbSaveLen_saves; lia|lia|]. apply (saves_count _ _ _ (Z.add _)); [by apply saves_raw; [|lia]|lia].
    + apply Forall_app. split; [apply len_code_bytes; lia|done].
    + unfold verbatim_code. rewrite length_app. pose proof (length_len_code (Z.of_nat (length (decimal v)))). lia.
    + apply verbatim_loads. lia.
Qed.
End rdb.

(** ** The server's streams and compressor *)

(** C12: saving then loading gives the value back, on an in-memory stream with any chunk size
    and checksum setting and with the server's LZF functions, and the load stops where the
    save did: for every 64-bit length, for every string of less than 2^31 bytes (as verbatim
    bytes, as an integer or compressed, whatever [rdb_compression] says) and for every integer
    object, loaded as a plain buffer, an sds or an object as the flags ask. The returned count
    is the number of bytes appended, also for a NULL stream. The bound is that of the [int]
    results of [rdbWriteRaw] and [rdbSaveStringObject], which say -1 for an error: the count
    of [rdbSaveStringObject] is right when the encoded string, header included, is below it. *)
Theorem rdb_roundtrip htab fill comp w len s v :
  htab_ok htab -> rio_ok w -> Z.of_nat (length (ptr w)) < 2 ^ 61 ->
  0 <= len < 2 ^ 64 -> Forall is_byte s -> Z.of_nat (length s) < 2 ^ 31 -> LLONG_MIN <= v <= LLONG_MAX ->
  let LZF := lzf_functions htab in
  let appends (f : option rio -> option (Z * option rio)) (bs : list Z) :=
    f None = Some (Z.of_nat (length bs), None) /\
    (Z.of_nat (length bs) < 2 ^ 61 ->
     exists w', f (Some w) = Some (Z.of_nat (length bs), Some w') /\ ptr w' = ptr w ++ bs) in
  (exists bs, appends (fun rdb => Some (rdbSaveLen rdb len)) bs /\ loads rdbLoadLenByRef bs (false, len)) /\
  (exists bs, appends (fun rdb => rdbSaveRawString fill comp rdb s) bs /\
     (Z.of_nat (length bs) < 2 ^ 31 -> appends (fun rdb => rdbSaveStringObject fill comp rdb (ObjRaw s)) bs) /\
     loads_string (fun flags r => rdbGenericLoadStringObject fill r flags) bs s) /\
  (exists bs, appends (fun rdb => rdbSaveStringObject fill comp rdb (ObjInt v)) bs /\
     loads_string (fun flags r => rdbGenericLoadStringObject fill r flags) bs (decimal v)).
Proof.
  intros Hh Hw Hptr Hlen Hs Hsl Hv LZF appends. pose proof (lzf_functions_laws htab Hh) as HL. fold LZF in HL.
  assert (Happ : forall f bs, saves_some f bs -> appends f bs).
  { intros f bs [F1 F2]. split; [exact F1|]. intros Hb. destruct (F2 w Hw) as (w' & E & _ & Ew); [|eauto].
    cbn [written rio_stream]. rewrite length_app. lia. }
  split; [|split].
  - exists (len_code len). split; [|by apply rdbLoadLenByRef_loads]. apply Happ.
    eapply saves_some_intro; [intros rdb x E; f_equal; exact E|]. by apply rdbSaveLen_saves.
  - destruct (rdbSaveRawString_ok fill comp s Hs Hsl) as (bs & H1 & _ & H2). exists bs. split; [by apply Happ|].
    split; [|done]. intros Hbs. by apply Happ, saves_some_int.
  - destruct (rdbSaveLongLong_ok fill v Hv) as (bs & H1 & _ & Hbs & H2). exists bs. split; [|done].
    by apply Happ, saves_some_int.
Qed.

(** A compressed string whose compressed length is 0 makes the loader read a byte outside
    its zero-byte allocation: [lzf_decompress] reads a control byte before it tests the end. *)
Lemma rdb_empty_lzf_fault fill (htab : list Z) :
  let LZF := lzf_functions htab in
  rdbGenericLoadStringObject fill (rioInitWithBuffer [195; 0; 5]) RDB_LOAD_NONE = LoadFault.
Proof. reflexivity. Qed.

(** Witnesses. *)
Lemma rio_empty_ok : rio_ok (rioInitWithBuffer []).
Proof. unfold rio_ok. cbn. split_and!; try lia. constructor. Qed.

Lemma rdb_roundtrip_witness :
  exists bs, (Z.of_nat (length bs) < 2 ^ 61 -> exists w',
     @rdbSaveRawString rio _ (lzf_functions (replicate (Z.to_nat HSIZE) 4294967295)) 0 true (Some (rioInitWithBuffer [])) (replicate 40 97) =
       Some (Z.of_nat (length bs), Some w') /\ ptr w' = bs) /\
    loads_string (fun flags r => @rdbGenericLoadStringObject rio _ (lzf_functions (replicate (Z.to_nat HSIZE) 4294967295)) 0 r flags)
      bs (replicate 40 97).
Proof.
  destruct (rdb_roundtrip (replicate (Z.to_nat HSIZE) 4294967295) 0 true (rioInitWithBuffer []) 0 (replicate 40 97) 0)
    as (_ & (bs & [_ H1] & _ & H2) & _).
  - apply garbage_htab_ok.
  - apply rio_empty_ok.
  - cbn. lia.
  - lia.
  - apply lit_bytes. reflexivity.
  - rewrite length_replicate. lia.
  - lia.
  - exists bs. split; [exact H1|exact H2].
Defined.
