(* ===== verification/Resp.v ===== *)
(** * networking.c: from the bytes of a client to its commands

    The query buffer of a client, the parsers of the two request formats and the loop
    that executes the commands found in the buffer, with the encoder of commands of
    aof.c. The content of an sds is its list of bytes. The execution of a command is a
    parameter. A failed assertion or a read out of bounds is [None]. *)

From stdpp Require Import list.
From S2P Require Import Prelude Util Sds SdsParse Rdb.

(** ** Data *)

Definition PROTO_IOBUF_LEN : Z := 1024 * 16.
Definition PROTO_INLINE_MAX_SIZE : Z := 1024 * 64.
Definition PROTO_MBULK_BIG_ARG : Z := 1024 * 32.
Definition PROTO_MAX_QUERYBUF_LEN : Z := 1024 * 1024 * 1024.
Definition PROTO_REQ_INLINE : Z := 1.
Definition PROTO_REQ_MULTIBULK : Z := 2.

(** The fields of a client that hold the request being parsed. *)
Record request := Request {
  querybuf : list Z;
  reqtype : Z;
  multibulklen : Z;
  bulklen : Z;
  argv : list (list Z)
}.

(** The errors the parsers reply with. *)
Inductive protoError :=
  | TooBigInline | UnbalancedQuotes | TooBigMbulkCount | InvalidMbulkLength
  | TooBigBulkCount | ExpectedDollar (got : Z) | InvalidBulkLength.

Inductive parsed := Ready | More | Failed (e : protoError).

Definition with_querybuf (r : request) (q : list Z) : request := Request q (reqtype r) (multibulklen r) (bulklen r) (argv r).
Definition with_bulklen (r : request) (n : Z) : request := Request (querybuf r) (reqtype r) (multibulklen r) n (argv r).
Definition with_reqtype (r : request) (t : Z) : request := Request (querybuf r) t (multibulklen r) (bulklen r) (argv r).
Definition with_multibulklen (r : request) (n : Z) : request := Request (querybuf r) (reqtype r) n (bulklen r) (argv r).
Definition with_argv (r : request) (l : list (list Z)) : request := Request (querybuf r) (reqtype r) (multibulklen r) (bulklen r) l.

(** [sdsrange(querybuf,pos,-1)]. *)
Definition trim (r : request) (pos : Z) : request := with_querybuf r (drop (Z.to_nat pos) (querybuf r)).

Definition qblen (r : request) : Z := Z.of_nat (length (querybuf r)).

(** [strchr] on the zero-terminated [l], for a character other than zero. *)
Fixpoint strchr (l : list Z) (ch : Z) : option Z :=
  match l with
  | [] => None
  | x :: l => if x =? ch then Some 0 else if x =? 0 then None else i ← strchr l ch; Some (i + 1)
  end.

(** ** Inline requests *)

(** The second result tells that the line was empty. *)
Definition processInlineBuffer (r : request) : option (request * parsed * bool) :=
  match strchr (querybuf r) 10 with
  | None => Some (r, if PROTO_INLINE_MAX_SIZE <? qblen r then Failed TooBigInline else More, false)
  | Some newline =>
    newline ← (if newline =? 0 then Some newline else
               c ← rd1 (querybuf r) (newline - 1); Some (if c =? 13 then newline - 1 else newline));
    let querylen := newline in
    aux ← rd (querybuf r) 0 querylen;
    args ← sdssplitargs aux;
    match args with
    | None => Some (r, Failed UnbalancedQuotes, false)
    | Some args =>
      let r := trim r (querylen + 2) in
      Some (with_argv r (filter (fun a => a <> []) args), Ready, querylen =? 0)
    end
  end.

(** ** Multi bulk requests *)

Inductive bulkHeader := HdrFail (e : protoError) (pos : Z) | HdrMore | HdrLen (r : request) (pos : Z).

(** The length of the next argument, at [pos]. *)
Definition read_bulklen (r : request) (pos : Z) : option bulkHeader :=
  match strchr (drop (Z.to_nat pos) (querybuf r)) 13 with
  | None => Some (if PROTO_INLINE_MAX_SIZE <? qblen r then HdrFail TooBigBulkCount 0 else HdrMore)
  | Some i =>
    let newline := pos + i in
    if qblen r - 2 <? newline then Some HdrMore else
    c ← rd1 (querybuf r) pos;
    if negb (c =? 36) then Some (HdrFail (ExpectedDollar c) pos) else
    digits ← rd (querybuf r) (pos + 1) (newline - (pos + 1));
    match string2ll digits with
    | None => Some (HdrFail InvalidBulkLength pos)
    | Some ll =>
      if (ll <? 0) || (512 * 1024 * 1024 <? ll) then Some (HdrFail InvalidBulkLength pos) else
      let pos := newline + 2 in
      let '(r, pos) := if PROTO_MBULK_BIG_ARG <=? ll then (trim r pos, 0) else (r, pos) in
      Some (HdrLen (with_bulklen r ll) pos)
    end
  end.

(** [while(c->multibulklen)]: the request, the position, and the protocol error if any. *)
Fixpoint mbulk_loop (k : nat) (r : request) (pos : Z) : option (request * Z * option protoError) :=
  match k with
  | O => Some (r, pos, None)
  | S k =>
    hdr ← (if bulklen r =? -1 then read_bulklen r pos else Some (HdrLen r pos));
    match hdr with
    | HdrFail e pos => Some (r, pos, Some e)
    | HdrMore => Some (r, pos, None)
    | HdrLen r pos =>
      if u64 (qblen r - pos) <? u32 (bulklen r + 2) then Some (r, pos, None) else
      if (pos =? 0) && (PROTO_MBULK_BIG_ARG <=? bulklen r) && (s32 (qblen r) =? bulklen r + 2) then
        mbulk_loop k (Request [] (reqtype r) (multibulklen r - 1) (-1) (argv r ++ [take (Z.to_nat (bulklen r)) (querybuf r)])) 0
      else
        arg ← rd (querybuf r) pos (bulklen r);
        mbulk_loop k (Request (querybuf r) (reqtype r) (multibulklen r - 1) (-1) (argv r ++ [arg])) (pos + bulklen r + 2)
    end
  end.

(** The part of [processMultibulkBuffer] from the loop on. *)
Definition processBulks (r : request) (pos : Z) : option (request * parsed) :=
  if negb (0 <? multibulklen r) then None else
  '(r, pos, err) ← mbulk_loop (Z.to_nat (multibulklen r)) r pos;
  let r := trim r pos in
  match err with
  | Some e => Some (r, Failed e)
  | None => Some (r, if multibulklen r =? 0 then Ready else More)
  end.

Definition processMultibulkBuffer (r : request) : option (request * parsed) :=
  if negb (multibulklen r =? 0) then processBulks r 0 else
  if negb (bool_decide (argv r = [])) then None else
  match strchr (querybuf r) 13 with
  | None => Some (r, if PROTO_INLINE_MAX_SIZE <? qblen r then Failed TooBigMbulkCount else More)
  | Some newline =>
    if qblen r - 2 <? newline then Some (r, More) else
    c ← rd1 (querybuf r) 0;
    if negb (c =? 42) then None else
    digits ← rd (querybuf r) 1 (newline - 1);
    match string2ll digits with
    | None => Some (r, Failed InvalidMbulkLength)
    | Some ll =>
      if 1024 * 1024 <? ll then Some (r, Failed InvalidMbulkLength) else
      let pos := newline + 2 in
      if ll <=? 0 then Some (trim r pos, Ready) else
      processBulks (with_multibulklen r ll) pos
    end
  end.

(** ** Clients *)

Record client := Client {
  req : request;
  close_after_reply : bool;
  blocked : bool;
  in_multi : bool;
  is_master : bool;
  is_slave : bool;
  reploff : Z;
  read_reploff : Z;
  pending_querybuf : list Z;
  repl_ack_time : Z;
  errors : list protoError         (* the error replies, in order *)
}.

Definition with_req (c : client) (r : request) : client :=
  Client r (close_after_reply c) (blocked c) (in_multi c) (is_master c) (is_slave c) (reploff c) (read_reploff c)
    (pending_querybuf c) (repl_ack_time c) (errors c).
Definition with_error (c : client) (e : protoError) : client :=
  Client (req c) true (blocked c) (in_multi c) (is_master c) (is_slave c) (reploff c) (read_reploff c)
    (pending_querybuf c) (repl_ack_time c) (errors c ++ [e]).
Definition with_ack_time (c : client) (t : Z) : client :=
  Client (req c) (close_after_reply c) (blocked c) (in_multi c) (is_master c) (is_slave c) (reploff c) (read_reploff c)
    (pending_querybuf c) t (errors c).
Definition with_reploff (c : client) (off : Z) : client :=
  Client (req c) (close_after_reply c) (blocked c) (in_multi c) (is_master c) (is_slave c) off (read_reploff c)
    (pending_querybuf c) (repl_ack_time c) (errors c).
Definition with_pending (c : client) (p : list Z) : client :=
  Client (req c) (close_after_reply c) (blocked c) (in_multi c) (is_master c) (is_slave c) (reploff c) (read_reploff c)
    p (repl_ack_time c) (errors c).
Definition with_read (c : client) (bytes : list Z) : client :=
  Client (with_querybuf (req c) (querybuf (req c) ++ bytes)) (close_after_reply c) (blocked c) (in_multi c) (is_master c) (is_slave c)
    (reploff c) (if is_master c then read_reploff c + Z.of_nat (length bytes) else read_reploff c)
    (if is_master c then pending_querybuf c ++ bytes else pending_querybuf c) (repl_ack_time c) (errors c).

(** The fields of the request that [resetClient] resets. *)
Definition resetClient (c : client) : client := with_req c (Request (querybuf (req c)) 0 0 (-1) []).

(** What [processCommand] tells: its result and the flags it leaves. *)
Record cmdResult := CmdResult {
  cmd_ok : bool;
  cmd_blocked : bool;
  cmd_module : bool;               (* blocked in a module command *)
  cmd_multi : bool;
  cmd_close : bool;
  cmd_freed : bool                 (* the client was freed *)
}.

Definition set_flags (c : client) (r : cmdResult) : client :=
  Client (req c) (close_after_reply c || cmd_close r) (cmd_blocked r) (cmd_multi r) (is_master c) (is_slave c) (reploff c) (read_reploff c)
    (pending_querybuf c) (repl_ack_time c) (errors c).

(** [readQueryFromClient] asks for at most this many bytes. *)
Definition readlen (r : request) : Z :=
  if (reqtype r =? PROTO_REQ_MULTIBULK) && negb (multibulklen r =? 0) && negb (bulklen r =? -1) && (PROTO_MBULK_BIG_ARG <=? bulklen r) then
    let remaining := s32 (u32 (bulklen r + 2) - qblen r) in
    if remaining <? PROTO_IOBUF_LEN then remaining else PROTO_IOBUF_LEN
  else PROTO_IOBUF_LEN.

Section server.
Context {W : Type} (processCommand : list (list Z) -> W -> W * cmdResult).
Context (unixtime client_max_querybuf_len : Z) (paused : bool).

(** One round of the loop of [processInputBuffer] once the request type is known:
    the client, or [None] to leave the loop. *)
Definition execute (c : client) (w : W) : client * W * bool :=
  if bool_decide (argv (req c) = []) then (resetClient c, w, true) else
  let '(w, res) := processCommand (argv (req c)) w in
  let c := set_flags c res in
  let c := if cmd_ok res then
             let c := if is_master c && negb (in_multi c) then with_reploff c (read_reploff c - qblen (req c)) else c in
             if negb (blocked c) || negb (cmd_module res) then resetClient c else c
           else c in
  (c, w, negb (cmd_freed res)).

Fixpoint processInputBuffer (fuel : nat) (c : client) (w : W) : option (client * W) :=
  match fuel with
  | O => None
  | S fuel =>
    match querybuf (req c) with
    | [] => Some (c, w)
    | ch :: _ =>
      if negb (is_slave c) && paused then Some (c, w) else
      if blocked c then Some (c, w) else
      if close_after_reply c then Some (c, w) else
      let r := req c in
      let r := if reqtype r =? 0 then with_reqtype r (if ch =? 42 then PROTO_REQ_MULTIBULK else PROTO_REQ_INLINE) else r in
      '(r, res, empty) ← (if reqtype r =? PROTO_REQ_INLINE then processInlineBuffer r
                          else if reqtype r =? PROTO_REQ_MULTIBULK then '(r, res) ← processMultibulkBuffer r; Some (r, res, false)
                          else None);
      let c := with_req c r in
      let c := if (empty : bool) && is_slave c then with_ack_time c unixtime else c in
      match res with
      | Failed e => Some (with_error c e, w)
      | More => Some (c, w)
      | Ready =>
        let '(c, w, continue) := execute c w in
        if (continue : bool) then processInputBuffer fuel c w else Some (c, w)
      end
    end
  end.

(** The result: the client unless it was freed, the world, and the bytes fed to the
    slaves of a master client. [bytes] is what [read] returned. *)
Definition readQueryFromClient (c : client) (bytes : list Z) (w : W) : option (option client * W * list Z) :=
  let c := with_read c bytes in
  if client_max_querybuf_len <? qblen (req c) then Some (None, w, []) else
  let prev_offset := reploff c in
  '(c, w) ← processInputBuffer (S (length (querybuf (req c)))) c w;
  if is_master c then
    let applied := Z.to_nat (reploff c - prev_offset) in
    Some (Some (with_pending c (drop applied (pending_querybuf c))), w, take applied (pending_querybuf c))
  else Some (Some c, w, []).
End server.

(** ** Commands as bytes: aof.c *)

(** [buf[0] = prefix], the number and CRLF. *)
Definition bulk_count (prefix n : Z) : option (list Z) :=
  '(len, b) ← ll2string (replicate 31 0) 31 n;
  t ← rd b 0 len;
  Some (prefix :: t ++ [13; 10]).

Fixpoint cat_args (dst : list Z) (args : list (list Z)) : option (list Z) :=
  match args with
  | [] => Some dst
  | a :: args =>
    h ← bulk_count 36 (Z.of_nat (length a));
    cat_args (dst ++ h ++ a ++ [13; 10]) args
  end.

(** The objects are strings, already decoded. *)
Definition catAppendOnlyGenericCommand (dst : list Z) (args : list (list Z)) : option (list Z) :=
  h ← bulk_count 42 (Z.of_nat (length args));
  cat_args (dst ++ h) args.

(** ** Inline requests that end in a bare newline *)

(** Two bytes are removed after the line whether it ends in CRLF or in LF alone: then the
    first byte of the next request is lost. *)
Lemma inline_newline_drops_byte b rest :
  processInlineBuffer (Request (lit "PING" ++ 10 :: b :: rest) PROTO_REQ_INLINE 0 (-1) []) =
  Some (Request rest PROTO_REQ_INLINE 0 (-1) [lit "PING"], Ready, false).
Proof.
  unfold processInlineBuffer. cbn [querybuf]. change (strchr (lit "PING" ++ 10 :: b :: rest) 10) with (Some 4). cbn [Z.eqb].
  change (rd1 (lit "PING" ++ 10 :: b :: rest) (4 - 1)) with (Some 71). mred. change (71 =? 13) with false. cbn iota.
  rewrite (rd_prefix (lit "PING") (10 :: b :: rest) 4) by done. mred.
  assert (E : sdssplitargs (lit "PING") = Some (Some [lit "PING"])) by (vm_compute; reflexivity). rewrite E. mred. reflexivity.
Qed.
