(* ===== verification/RespStream.v ===== *)
(** * networking.c: a stream of commands is executed whatever the reads

    The encoding of commands, and the proof that the parser of [Resp] recovers them from
    the stream for every way in which the socket delivers it. *)

From stdpp Require Import list.
From S2P Require Import Prelude Util Sds SdsParse Rdb Resp.

(** ** The encoding *)

Definition enc_hdr (prefix n : Z) : list Z := prefix :: decimal n ++ [13; 10].
Definition enc_arg (a : list Z) : list Z := enc_hdr 36 (Z.of_nat (length a)) ++ a ++ [13; 10].
Definition enc_args (l : list (list Z)) : list Z := concat (map enc_arg l).
Definition enc_cmd (l : list (list Z)) : list Z := enc_hdr 42 (Z.of_nat (length l)) ++ enc_args l.
Definition enc_cmds (l : list (list (list Z))) : list Z := concat (map enc_cmd l).

Definition MAX_ARG : Z := 512 * 1024 * 1024.
Definition valid_arg (a : list Z) : Prop := Z.of_nat (length a) <= MAX_ARG.
Definition valid_cmd (l : list (list Z)) : Prop := 1 <= Z.of_nat (length l) <= 1024 * 1024 /\ Forall valid_arg l.

Lemma bulk_count_spec p n : 0 <= n <= LLONG_MAX -> bulk_count p n = Some (enc_hdr p n).
Proof.
  intros Hn. unfold bulk_count. destruct (ll2string_text 31 n) as (b & E & _ & Er); [lia|lia|].
  change (Z.of_nat 31) with 31 in E. rewrite E. mred. rewrite Er. done.
Qed.

Lemma cat_args_spec dst l : Forall valid_arg l -> cat_args dst l = Some (dst ++ enc_args l).
Proof.
  revert dst. induction l as [|a l IH]; intros dst Hl; cbn [cat_args]; [by rewrite app_nil_r|].
  apply Forall_cons in Hl as [Ha Hl]. unfold valid_arg, MAX_ARG in Ha. rewrite bulk_count_spec by lia. mred.
  rewrite IH by done. unfold enc_args. cbn [map concat]. unfold enc_arg at 2. by rewrite <-!app_assoc.
Qed.

Lemma cat_command_spec dst l : valid_cmd l -> catAppendOnlyGenericCommand dst l = Some (dst ++ enc_cmd l).
Proof.
  intros [Hn Hl]. unfold catAppendOnlyGenericCommand. rewrite bulk_count_spec by lia. mred.
  rewrite cat_args_spec by done. unfold enc_cmd. by rewrite <-app_assoc.
Qed.

(** ** Headers in a buffer *)

Definition clean (x : Z) : Prop := x <> 13 /\ x <> 0.

Lemma strchr_clean h l : Forall clean h -> strchr (h ++ l) 13 = (i ← strchr l 13; Some (i + Z.of_nat (length h))).
Proof.
  induction 1 as [|x h [Hx H0] Hh IH]; cbn [app strchr length]; [destruct (strchr l 13); mred; [f_equal; lia|done]|].
  rewrite (proj2 (Z.eqb_neq x 13)), (proj2 (Z.eqb_neq x 0)), IH by done. destruct (strchr l 13); mred; [f_equal; lia|done].
Qed.

Lemma decimal_clean n : 0 <= n -> Forall clean (decimal n).
Proof.
  intros Hn. unfold decimal. rewrite (proj2 (Z.ltb_ge n 0)) by done. eapply Forall_impl; [by apply udecimal_digits|].
  intros x Hx. cbn in Hx. unfold is_digit in Hx. unfold clean. lia.
Qed.

Lemma enc_hdr_split p n : enc_hdr p n = (p :: decimal n) ++ [13; 10].
Proof. done. Qed.

Lemma enc_hdr_length p n : Z.of_nat (length (enc_hdr p n)) = Z.of_nat (length (decimal n)) + 3.
Proof. unfold enc_hdr. cbn [length]. rewrite length_app. cbn [length]. lia. Qed.

Lemma hdr_short p n : 0 <= n <= LLONG_MAX -> 4 <= Z.of_nat (length (enc_hdr p n)) <= 23.
Proof.
  intros Hn. rewrite enc_hdr_length. pose proof (decimal_bounds n ltac:(lia)). lia.
Qed.

(** A buffer holds a whole header or a proper prefix of it. *)
Lemma header_cases p n B U T :
  clean p -> 0 <= n -> B ++ U = enc_hdr p n ++ T ->
  (exists B2, B = enc_hdr p n ++ B2 /\ B2 ++ U = T /\ strchr B 13 = Some (Z.of_nat (length (enc_hdr p n)) - 2)) \/
  ((length B < length (enc_hdr p n))%nat /\ (strchr B 13 = None \/ strchr B 13 = Some (Z.of_nat (length B) - 1))).
Proof.
  intros Hp Hn E. assert (Hc : Forall clean (p :: decimal n)) by (constructor; [done|by apply decimal_clean]).
  destruct (Nat.le_gt_cases (length (enc_hdr p n)) (length B)) as [Hl|Hl].
  - left. apply app_eq_inv in E as [(k & -> & ->)|(k & E1 & ->)].
    + exists k. split; [done|]. split; [done|]. rewrite enc_hdr_length, enc_hdr_split, <-app_assoc, strchr_clean by done.
      cbn [app strchr Z.eqb Pos.eqb]. mred. f_equal. cbn [length]. lia.
    + assert (k = []) as ->. { apply nil_length_inv. apply (f_equal length) in E1. rewrite length_app in E1. lia. }
      rewrite app_nil_r in E1. exists []. rewrite app_nil_r. split; [done|]. split; [done|].
      rewrite <-E1, enc_hdr_length, enc_hdr_split, strchr_clean by done. cbn [strchr Z.eqb Pos.eqb]. mred. f_equal. cbn [length]. lia.
  - right. split; [done|]. assert (EB : B = take (length B) (enc_hdr p n)).
    { rewrite <-(take_app_le _ T) by lia. rewrite <-E. by rewrite take_app_length. }
    rewrite enc_hdr_split in *. set (h := p :: decimal n) in *.
    destruct (Nat.le_gt_cases (length B) (length h)) as [Hb|Hb].
    + left. rewrite EB, take_app_le by done. rewrite <-(app_nil_r (take _ h)), strchr_clean; [done|]. by apply Forall_take.
    + right. rewrite length_app in Hl. cbn [length] in Hl. assert (Hlen : length B = (length h + 1)%nat) by lia.
      assert (EB2 : B = h ++ [13]). { rewrite EB, Hlen. rewrite take_app_add. done. }
      rewrite EB2 at 1. rewrite strchr_clean by done. cbn [strchr Z.eqb Pos.eqb]. mred. f_equal. lia.
Qed.

Lemma hdr_digits p n T : 0 <= n <= LLONG_MAX ->
  rd (enc_hdr p n ++ T) 1 (Z.of_nat (length (enc_hdr p n)) - 3) = Some (decimal n) /\ string2ll (decimal n) = Some n.
Proof.
  intros Hn. split; [|apply string2ll_complete; lia]. rewrite enc_hdr_length. unfold enc_hdr.
  replace (Z.of_nat (length (decimal n)) + 3 - 3) with (Z.of_nat (length (decimal n))) by lia.
  change ((p :: decimal n ++ [13; 10]) ++ T) with ([p] ++ (decimal n ++ [13; 10]) ++ T). rewrite <-(app_assoc (decimal n)).
  by apply (rd_mid [p]).
Qed.

(** ** One argument *)

(** The buffer after [pos]. *)
Definition ahead (r : request) (pos : Z) : list Z := drop (Z.to_nat pos) (querybuf r).
Definition within (r : request) (pos : Z) : Prop := 0 <= pos <= qblen r.

Lemma ahead_length r pos : within r pos -> Z.of_nat (length (ahead r pos)) = qblen r - pos.
Proof. unfold within, ahead, qblen. intros H. rewrite length_drop. lia. Qed.

Lemma ahead_split r pos : within r pos -> querybuf r = take (Z.to_nat pos) (querybuf r) ++ ahead r pos /\
  Z.of_nat (length (take (Z.to_nat pos) (querybuf r))) = pos.
Proof. unfold within, ahead, qblen. intros H. split; [by rewrite take_drop|]. rewrite length_take. lia. Qed.

Lemma ahead_app r pos a B : within r pos -> ahead r pos = a ++ B ->
  within r (pos + Z.of_nat (length a)) /\ ahead r (pos + Z.of_nat (length a)) = B /\ rd (querybuf r) pos (Z.of_nat (length a)) = Some a.
Proof.
  intros Hw E. destruct (ahead_split r pos Hw) as [Eq El]. pose proof (ahead_length r pos Hw) as Hl. rewrite E, length_app in Hl.
  split; [unfold within in *; lia|]. split.
  - unfold ahead in *. rewrite Z2Nat.inj_add by (unfold within in *; lia). rewrite Nat2Z.id, <-drop_drop, E. apply drop_app_length.
  - rewrite Eq, E. apply rd_mid; [done|done].
Qed.

Definition SMALL : Z := 49154.

(** A header is only looked for in a small buffer; a big argument is read on its own. *)
Definition room (r : request) (pos : Z) : Prop :=
  qblen r <= SMALL \/ (PROTO_MBULK_BIG_ARG <= bulklen r <= MAX_ARG /\ pos = 0 /\ qblen r <= bulklen r + 2).

Lemma read_bulklen_cases r pos a X U :
  within r pos -> qblen r <= SMALL -> valid_arg a -> ahead r pos ++ U = enc_hdr 36 (Z.of_nat (length a)) ++ X ->
  (read_bulklen r pos = Some HdrMore /\ (length (ahead r pos) < length (enc_hdr 36 (Z.of_nat (length a))))%nat) \/
  (exists r' pos', read_bulklen r pos = Some (HdrLen r' pos') /\ within r' pos' /\ qblen r' <= SMALL /\ ahead r' pos' ++ U = X /\
     bulklen r' = Z.of_nat (length a) /\ multibulklen r' = multibulklen r /\ argv r' = argv r /\ reqtype r' = reqtype r).
Proof.
  intros Hw Hs Ha E. unfold valid_arg, MAX_ARG in Ha. unfold read_bulklen. fold (ahead r pos).
  pose proof (ahead_length r pos Hw) as Hlen. set (n := Z.of_nat (length a)) in *. assert (Hn : 0 <= n <= LLONG_MAX) by lia.
  destruct (header_cases 36 n (ahead r pos) U X ltac:(done) ltac:(lia) E) as [(B2 & EB & EX & ->)|(Hl & Hs')].
  - right. pose proof (hdr_short 36 n Hn) as Hh. destruct (ahead_app r pos _ _ Hw EB) as (Hw2 & EB2 & _).
    destruct (ahead_split r pos Hw) as [Eq El]. destruct (hdr_digits 36 n B2 Hn) as [Hd1 Hd2].
    rewrite (proj2 (Z.ltb_ge _ _)) by (unfold within in *; lia).
    assert (Hc : rd1 (querybuf r) pos = Some 36).
    { rewrite Eq, EB. rewrite (rd1_app _ _ _ 0) by lia. done. }
    rewrite Hc. mred. cbn [Z.eqb Pos.eqb negb].
    assert (Hd : rd (querybuf r) (pos + 1) (pos + (Z.of_nat (length (enc_hdr 36 n)) - 2) - (pos + 1)) = Some (decimal n)).
    { replace (pos + (Z.of_nat (length (enc_hdr 36 n)) - 2) - (pos + 1)) with (Z.of_nat (length (decimal n))) by (rewrite enc_hdr_length; lia).
      rewrite Eq, EB. unfold enc_hdr. change ((36 :: decimal n ++ [13; 10]) ++ B2) with ([36] ++ (decimal n ++ [13; 10]) ++ B2).
      rewrite <-(app_assoc (decimal n)), app_assoc. apply rd_mid; [rewrite length_app; cbn [length]; lia|done]. }
    rewrite Hd. mred. rewrite Hd2. rewrite (proj2 (Z.ltb_ge n 0)), (proj2 (Z.ltb_ge (512 * 1024 * 1024) n)) by lia. cbn [orb].
    replace (pos + (Z.of_nat (length (enc_hdr 36 n)) - 2) + 2) with (pos + Z.of_nat (length (enc_hdr 36 n))) by lia.
    set (p2 := pos + Z.of_nat (length (enc_hdr 36 n))) in *. destruct (PROTO_MBULK_BIG_ARG <=? n).
    + eexists _, _. split; [done|]. unfold within, qblen, ahead. cbn [with_bulklen trim with_querybuf querybuf bulklen multibulklen argv reqtype].
      change (drop (Z.to_nat p2) (querybuf r)) with (ahead r p2). rewrite EB2, drop_0. split; [lia|]. split; [|done].
      rewrite EB, length_app in Hlen. unfold within in Hw. lia.
    + eexists _, _. split; [done|]. split; [exact Hw2|]. split; [exact Hs|]. split; [|done]. unfold ahead in *. cbn [with_bulklen querybuf]. by rewrite EB2.
  - left. split; [|done]. destruct Hs' as [-> | ->].
    + rewrite (proj2 (Z.ltb_ge PROTO_INLINE_MAX_SIZE _)); [done|]. unfold SMALL, PROTO_INLINE_MAX_SIZE in *. lia.
    + rewrite (proj2 (Z.ltb_lt _ _)) by lia. done.
Qed.

(** ** The loop over the arguments *)

Definition stage (r : request) (todo : list (list Z)) (P T : list Z) : Prop :=
  multibulklen r = Z.of_nat (length todo) /\ reqtype r = PROTO_REQ_MULTIBULK /\
  ((bulklen r = -1 /\ P = enc_args todo ++ T) \/
   (exists a l, todo = a :: l /\ bulklen r = Z.of_nat (length a) /\ P = a ++ [13; 10] ++ enc_args l ++ T)).

(** The bytes that are missing. *)
Definition stuck (r : request) (todo : list (list Z)) (B : list Z) : Prop :=
  match todo with
  | [] => False
  | a :: _ => if bulklen r =? -1 then (length B < length (enc_hdr 36 (Z.of_nat (length a))))%nat
              else Z.of_nat (length B) < Z.of_nat (length a) + 2
  end.

Definition loop_post (r : request) (todo : list (list Z)) (U T : list Z) (res : option (request * Z * option protoError)) : Prop :=
  exists r' pos' todo', res = Some (r', pos', None) /\ within r' pos' /\ stage r' todo' (ahead r' pos' ++ U) T /\
    argv r' ++ todo' = argv r ++ todo /\ ((todo' = [] /\ qblen r' <= SMALL) \/ stuck r' todo' (ahead r' pos')).

(** The argument [a] is known to come next. *)
Lemma loop_bulk k r pos a l U T :
  (forall r' pos', within r' pos' -> qblen r' <= SMALL -> stage r' l (ahead r' pos' ++ U) T ->
     loop_post r' l U T (mbulk_loop k r' pos')) ->
  within r pos -> room r pos -> valid_arg a -> bulklen r = Z.of_nat (length a) -> multibulklen r = Z.of_nat (length (a :: l)) ->
  reqtype r = PROTO_REQ_MULTIBULK -> ahead r pos ++ U = a ++ [13; 10] ++ enc_args l ++ T ->
  loop_post r (a :: l) U T
    (if u64 (qblen r - pos) <? u32 (bulklen r + 2) then Some (r, pos, None) else
     if (pos =? 0) && (PROTO_MBULK_BIG_ARG <=? bulklen r) && (s32 (qblen r) =? bulklen r + 2) then
       mbulk_loop k (Request [] (reqtype r) (multibulklen r - 1) (-1) (argv r ++ [take (Z.to_nat (bulklen r)) (querybuf r)])) 0
     else
       arg ← rd (querybuf r) pos (bulklen r);
       mbulk_loop k (Request (querybuf r) (reqtype r) (multibulklen r - 1) (-1) (argv r ++ [arg])) (pos + bulklen r + 2)).
Proof.
  intros IH Hw Hroom Ha Hb Hm Ht E. unfold valid_arg, MAX_ARG in Ha. pose proof (ahead_length r pos Hw) as Hl.
  assert (Hq : qblen r <= 536870914) by (unfold room, SMALL, MAX_ARG, PROTO_MBULK_BIG_ARG in Hroom; lia).
  rewrite (wrapu_small 64), (wrapu_small 32) by (pow2; unfold within in *; lia). rewrite Hb.
  destruct (Z.ltb_spec (qblen r - pos) (Z.of_nat (length a) + 2)) as [Hlt|Hge].
  { exists r, pos, (a :: l). split; [done|]. split; [done|]. split.
    - split; [done|]. split; [done|]. right. eauto.
    - split; [done|]. right. unfold stuck. rewrite Hb, (proj2 (Z.eqb_neq _ _)) by lia. lia. }
  (* the whole argument is in the buffer *)
  assert (HB : exists B2, ahead r pos = (a ++ [13; 10]) ++ B2 /\ B2 ++ U = enc_args l ++ T).
  { rewrite app_assoc in E. apply app_eq_inv in E as [(x & E1 & E2)|(x & E1 & E2)].
    - exists x. done.
    - assert (x = []) as ->. { apply nil_length_inv. apply (f_equal length) in E1. rewrite !length_app in E1. cbn [length] in E1. lia. }
      exists []. rewrite app_nil_r in *. by split. }
  destruct HB as (B2 & EB & EX). destruct (ahead_app r pos _ _ Hw EB) as (Hw2 & EB2 & _).
  rewrite <-app_assoc in EB. destruct (ahead_app r pos _ _ Hw EB) as (_ & _ & Hrd). rewrite length_app in Hw2, EB2. cbn [length] in Hw2, EB2.
  replace (pos + Z.of_nat (length a + 2)) with (pos + Z.of_nat (length a) + 2) in * by lia.
  assert (Hnext : forall q p, within (Request q (reqtype r) (multibulklen r - 1) (-1) (argv r ++ [a])) p -> Z.of_nat (length q) <= SMALL ->
    ahead (Request q (reqtype r) (multibulklen r - 1) (-1) (argv r ++ [a])) p ++ U = enc_args l ++ T ->
    loop_post r (a :: l) U T (mbulk_loop k (Request q (reqtype r) (multibulklen r - 1) (-1) (argv r ++ [a])) p)).
  { intros q p Hwq Hq' Eq. destruct (IH _ p Hwq Hq') as (r' & p' & t' & -> & W' & S' & A' & K').
    - split; [cbn [multibulklen]; rewrite Hm; cbn [length]; lia|]. split; [done|]. left. done.
    - exists r', p', t'. split; [done|]. split; [done|]. split; [done|]. split; [|done]. rewrite A'. cbn [argv]. by rewrite <-app_assoc. }
  destruct ((pos =? 0) && _ && _) eqn:Eopt.
  - apply andb_true_iff in Eopt as [[Hp0%Z.eqb_eq _]%andb_true_iff Hz%Z.eqb_eq]. rewrite wraps_small in Hz by (pow2; unfold within in *; lia).
    subst pos. assert (B2 = []) as ->.
    { apply nil_length_inv. rewrite EB, !length_app in Hl. cbn [length] in Hl. lia. }
    assert (Eq : querybuf r = a ++ [13; 10]) by exact EB.
    rewrite Eq, Nat2Z.id, take_app_length. apply Hnext; [unfold within, qblen; cbn; lia|cbn; unfold SMALL; lia|done].
  - rewrite Hrd. mred. apply Hnext; [exact Hw2| |unfold ahead in *; cbn [querybuf]; by rewrite EB2].
    fold (qblen r). destruct Hroom as [?|(H1 & -> & H3)]; [done|exfalso].
    rewrite wraps_small in Eopt by (pow2; unfold within in *; lia). rewrite Hb in H1, H3.
    rewrite (proj2 (Z.leb_le PROTO_MBULK_BIG_ARG _)), (proj2 (Z.eqb_eq (qblen r) _)) in Eopt by lia. done.
Qed.

Lemma mbulk_loop_spec todo r pos U T :
  within r pos -> room r pos -> Forall valid_arg todo -> stage r todo (ahead r pos ++ U) T ->
  loop_post r todo U T (mbulk_loop (length todo) r pos).
Proof.
  revert r pos. induction todo as [|a l IH]; intros r pos Hw Hroom Hv Hst; cbn [length mbulk_loop].
  { exists r, pos, []. split; [done|]. split; [done|]. split; [done|]. split; [done|]. left. split; [done|].
    destruct Hroom as [?|(H1 & _)]; [done|]. destruct Hst as (_ & _ & [[Hb _]|(? & ? & ? & _)]); [|done]. unfold PROTO_MBULK_BIG_ARG in H1. lia. }
  apply Forall_cons in Hv as [Ha Hl]. pose proof Hst as (Hm & Ht & [(Hb & E)|(a' & l' & [= <- <-] & Hb & E)]).
  - rewrite Hb. cbn [Z.eqb Pos.eqb]. assert (Hsm : qblen r <= SMALL).
    { destruct Hroom as [?|(H1 & _)]; [done|]. unfold PROTO_MBULK_BIG_ARG in H1. lia. }
    unfold enc_args in E. cbn [map concat] in E. fold (enc_args l) in E. unfold enc_arg in E. rewrite <-!app_assoc in E.
    destruct (read_bulklen_cases r pos a _ U Hw Hsm Ha E) as [(-> & Hlt)|(r' & p' & -> & W' & Q' & X' & B' & M' & A' & T')]; mred.
    + exists r, pos, (a :: l). split; [done|]. split; [done|]. split; [done|]. split; [done|]. right. unfold stuck. by rewrite Hb.
    + pose proof (loop_bulk (length l) r' p' a l U T) as Hb'. unfold loop_post in *. rewrite <-A'. apply Hb'; try done; [|by left|congruence|congruence].
      intros r2 p2 W2 Q2 S2. apply IH; [done|by left|done|done].
  - rewrite (proj2 (Z.eqb_neq (bulklen r) (-1))) by lia. mred. apply loop_bulk; try done.
    intros r2 p2 W2 Q2 S2. apply IH; [done|by left|done|done].
Qed.

Lemma processBulks_spec r pos todo U T :
  todo <> [] -> within r pos -> room r pos -> Forall valid_arg todo -> stage r todo (ahead r pos ++ U) T ->
  exists r' todo', processBulks r pos = Some (r', if bool_decide (todo' = []) then Ready else More) /\
    stage r' todo' (querybuf r' ++ U) T /\ argv r' ++ todo' = argv r ++ todo /\
    ((todo' = [] /\ qblen r' <= SMALL) \/ stuck r' todo' (querybuf r')).
Proof.
  intros Hne Hw Hroom Hv Hst. pose proof (mbulk_loop_spec todo r pos U T Hw Hroom Hv Hst) as (r1 & p1 & t1 & E & W1 & S1 & A1 & K1).
  unfold processBulks. destruct Hst as (Hm & _). rewrite Hm. assert (Hpos : 0 < Z.of_nat (length todo)) by (destruct todo; [done|cbn; lia]).
  rewrite (proj2 (Z.ltb_lt _ _)), Nat2Z.id, E by done. cbn [negb]. mred. exists (trim r1 p1), t1.
  change (querybuf (trim r1 p1)) with (ahead r1 p1). pose proof S1 as (Hm1 & _). cbn [trim with_querybuf multibulklen]. rewrite Hm1.
  split; [|split; [done|split; [done|]]].
  - do 2 f_equal. destruct t1; [done|]. rewrite bool_decide_false by done. rewrite (proj2 (Z.eqb_neq _ _)); [done|cbn; lia].
  - destruct K1 as [[-> Hq]|?]; [left; split; [done|]|by right]. unfold qblen in *. cbn [trim with_querybuf querybuf]. rewrite length_drop. lia.
Qed.

(** ** A command *)

(** The request is waiting for the commands [cmds], whose bytes not parsed yet are [P]. *)
Definition waiting (r : request) (cmds : list (list (list Z))) (P : list Z) : Prop :=
  (multibulklen r = 0 /\ bulklen r = -1 /\ argv r = [] /\ (reqtype r = 0 \/ reqtype r = PROTO_REQ_MULTIBULK) /\ P = enc_cmds cmds) \/
  (exists l rest todo, cmds = l :: rest /\ todo <> [] /\ argv r ++ todo = l /\ stage r todo P (enc_cmds rest)).

(** It cannot go on without more bytes. *)
Definition starved (r : request) (cmds : list (list (list Z))) : Prop :=
  (multibulklen r = 0 /\ (querybuf r = [] \/ exists l rest, cmds = l :: rest /\
     (length (querybuf r) < length (enc_hdr 42 (Z.of_nat (length l))))%nat)) \/
  (exists l rest todo, cmds = l :: rest /\ argv r ++ todo = l /\ multibulklen r = Z.of_nat (length todo) /\ reqtype r = PROTO_REQ_MULTIBULK /\
     (bulklen r = -1 \/ exists a l, todo = a :: l /\ bulklen r = Z.of_nat (length a)) /\ stuck r todo (querybuf r)).

Definition round_post (r : request) (cmds : list (list (list Z))) (U : list Z) (res : option (request * parsed)) : Prop :=
  exists r', (res = Some (r', More) /\ waiting r' cmds (querybuf r' ++ U) /\ starved r' cmds) \/
    (res = Some (r', Ready) /\ exists l rest, cmds = l :: rest /\ argv r' = l /\ querybuf r' ++ U = enc_cmds rest /\
       (length (querybuf r') < length (querybuf r))%nat /\ qblen r' <= SMALL).

(** From the stage of the arguments. *)
Lemma round_args r0 r pos l rest todo U :
  todo <> [] -> argv r ++ todo = l -> within r pos -> room r pos -> Forall valid_arg todo -> stage r todo (ahead r pos ++ U) (enc_cmds rest) ->
  (length (ahead r pos) <= length (querybuf r0))%nat ->
  round_post r0 (l :: rest) U (processBulks r pos).
Proof.
  intros Hne Hl Hw Hroom Hv Hst Hlen. destruct (processBulks_spec r pos todo U (enc_cmds rest) Hne Hw Hroom Hv Hst) as (r' & t' & E & S' & A' & K').
  exists r'. rewrite E. destruct K' as [[-> Hq]|K'].
  - right. split; [done|]. exists l, rest. rewrite app_nil_r in A'. destruct S' as (_ & _ & [[_ E']|(? & ? & ? & _)]); [|done].
    split; [done|]. split; [congruence|]. unfold enc_args in E'. cbn in E'. split; [done|]. split; [|done].
    assert (HP : (length (enc_cmds rest) < length (ahead r pos ++ U))%nat).
    { destruct Hst as (_ & _ & [[_ ->]|(a & l0 & _ & _ & ->)]); rewrite !length_app.
      - destruct todo as [|a todo]; [done|]. unfold enc_args. cbn [map concat]. unfold enc_arg, enc_hdr. rewrite !length_app. cbn [length]. lia.
      - cbn [length]. lia. }
    rewrite <-E', !length_app in HP. lia.
  - left. destruct t' as [|a t']; [done|]. rewrite bool_decide_false by done. split; [done|]. split.
    + right. exists l, rest, (a :: t'). split; [done|]. split; [done|]. split; [congruence|done].
    + right. exists l, rest, (a :: t'). destruct S' as (Hm & Ht & Hb). split; [done|]. split; [congruence|]. split; [done|]. split; [done|].
      split; [|done]. destruct Hb as [[? _]|(a2 & l2 & ? & ? & _)]; [by left|right; eauto].
Qed.

Lemma round_spec r cmds U :
  waiting r cmds (querybuf r ++ U) -> room r 0 -> Forall valid_cmd cmds -> reqtype r = PROTO_REQ_MULTIBULK -> querybuf r <> [] ->
  round_post r cmds U (processMultibulkBuffer r).
Proof.
  intros Hw Hroom Hv Ht Hne. unfold processMultibulkBuffer. destruct Hw as [(Hm & Hb & Ha & _ & E)|(l & rest & todo & -> & Htodo & Hl & Hst)].
  - rewrite Hm, Ha. rewrite bool_decide_true by done. cbn [Z.eqb negb].
    assert (Hsm : qblen r <= SMALL). { destruct Hroom as [?|(H1 & _)]; [done|]. unfold PROTO_MBULK_BIG_ARG in H1. lia. }
    destruct cmds as [|l rest]; [by apply app_eq_nil in E as [? _]|]. apply Forall_cons in Hv as [[Hn Hargs] _].
    unfold enc_cmds in E. cbn [map concat] in E. fold (enc_cmds rest) in E. unfold enc_cmd in E. rewrite <-app_assoc in E.
    assert (Hlne : l <> []) by (intros ->; cbn in Hn; lia). set (n := Z.of_nat (length l)) in *. assert (Hn' : 0 <= n <= LLONG_MAX) by lia. pose proof (hdr_short 42 n Hn') as Hh.
    destruct (header_cases 42 n (querybuf r) U _ ltac:(done) ltac:(lia) E) as [(B2 & EB & EX & ->)|(Hlt & Hs)].
    + assert (Hql : qblen r = Z.of_nat (length (enc_hdr 42 n)) + Z.of_nat (length B2)) by (unfold qblen; rewrite EB, length_app; lia).
      rewrite (proj2 (Z.ltb_ge _ _)) by lia. assert (Hc : rd1 (querybuf r) 0 = Some 42) by (by rewrite EB). rewrite Hc. mred. cbn [Z.eqb Pos.eqb negb].
      replace (Z.of_nat (length (enc_hdr 42 n)) - 2 - 1) with (Z.of_nat (length (enc_hdr 42 n)) - 3) by lia.
      destruct (hdr_digits 42 n B2 Hn') as [Hd1 Hd2]. rewrite EB at 1. rewrite Hd1. mred. rewrite Hd2.
      rewrite (proj2 (Z.ltb_ge (1024 * 1024) n)), (proj2 (Z.leb_gt n 0)) by lia.
      replace (Z.of_nat (length (enc_hdr 42 n)) - 2 + 2) with (Z.of_nat (length (enc_hdr 42 n))) by lia.
      assert (Hah : ahead (with_multibulklen r n) (Z.of_nat (length (enc_hdr 42 n))) = B2).
      { unfold ahead. cbn [with_multibulklen querybuf]. rewrite EB, Nat2Z.id. apply drop_app_length. }
      apply round_args with l; [done|cbn; by rewrite Ha|unfold within, qblen in *; cbn [with_multibulklen querybuf]; lia|by left|done| |].
      * rewrite Hah. split; [done|]. split; [done|]. left. done.
      * rewrite Hah, EB, length_app. lia.
    + exists r. left. assert (Ew : waiting r (l :: rest) (querybuf r ++ U) /\ starved r (l :: rest)).
      { split; [left|left; split; [done|]; right; eauto]. split_and!; try done; [by right|]. rewrite E. unfold enc_cmds. cbn [map concat].
        unfold enc_cmd. by rewrite <-app_assoc. }
      split; [|done]. destruct Hs as [-> | ->].
      * rewrite (proj2 (Z.ltb_ge PROTO_INLINE_MAX_SIZE _)); [done|]. unfold SMALL, PROTO_INLINE_MAX_SIZE in *. lia.
      * rewrite (proj2 (Z.ltb_lt _ _)) by (unfold qblen; lia). done.
  - pose proof Hst as (Hm & _). rewrite (proj2 (Z.eqb_neq (multibulklen r) 0)) by (destruct todo; [done|rewrite Hm; cbn; lia]). cbn [negb].
    apply Forall_cons in Hv as [[_ Hargs] _]. apply round_args with todo; try done; [unfold within, qblen; lia|].
    rewrite <-Hl in Hargs. by apply Forall_app in Hargs as [_ ?].
Qed.

(** ** The client *)

(** A command that is executed and leaves the client ready for the next. *)
Definition plain : cmdResult := CmdResult true false false false false false.

Section stream.
Context {W : Type} (processCommand : list (list Z) -> W -> W * cmdResult) (unixtime maxlen : Z).
Context (Hmax : PROTO_MAX_QUERYBUF_LEN <= maxlen).

(** The commands leave the client ready, in every state of the server. *)
Definition plain_cmds (cmds : list (list (list Z))) : Prop := Forall (fun l => forall w, (processCommand l w).2 = plain) cmds.

Definition run_cmds (w : W) (cmds : list (list (list Z))) : W := foldl (fun w l => (processCommand l w).1) w cmds.

(** A client in order, that has still to receive [U] to have the commands [cmds]; the
    offset of a master counts the bytes of the commands executed. *)
Record client_ok (c : client) (cmds : list (list (list Z))) (U : list Z) : Prop := {
  co_flags : close_after_reply c = false /\ blocked c = false /\ is_slave c = false /\ errors c = [];
  co_valid : Forall valid_cmd cmds;
  co_plain : plain_cmds cmds;
  co_wait : waiting (req c) cmds (querybuf (req c) ++ U);
  co_reploff : is_master c = true -> read_reploff c - reploff c + Z.of_nat (length U) = Z.of_nat (length (enc_cmds cmds))
}.

Lemma execute_plain c w :
  argv (req c) <> [] -> (processCommand (argv (req c)) w).2 = plain ->
  exists c', execute processCommand c w = (c', (processCommand (argv (req c)) w).1, true) /\
    req c' = Request (querybuf (req c)) 0 0 (-1) [] /\ close_after_reply c' = close_after_reply c /\ blocked c' = false /\
    is_slave c' = is_slave c /\ errors c' = errors c /\ is_master c' = is_master c /\ read_reploff c' = read_reploff c /\
    pending_querybuf c' = pending_querybuf c /\ (is_master c = true -> reploff c' = read_reploff c - qblen (req c)).
Proof.
  intros Hne Hplain. unfold execute. rewrite bool_decide_false by done.
  destruct (processCommand (argv (req c)) w) as [w' res]. cbn in Hplain. subst res. eexists. split; [done|].
  destruct c as [r b1 b2 b3 m sl ro rr pq ack er]. destruct b1, m; cbn; done.
Qed.

Lemma processInput_spec fuel c w cmds U :
  client_ok c cmds U -> room (req c) 0 -> (length (querybuf (req c)) < fuel)%nat ->
  exists c' done rest, processInputBuffer processCommand unixtime false fuel c w = Some (c', run_cmds w done) /\ cmds = done ++ rest /\
    client_ok c' rest U /\ starved (req c') rest /\ is_master c' = is_master c /\ read_reploff c' = read_reploff c /\
    pending_querybuf c' = pending_querybuf c /\ (is_master c = true -> done = [] -> reploff c' = reploff c).
Proof.
  revert c w cmds. induction fuel as [|fuel IH]; intros c w cmds [Hf Hv Hpl Hw Hr] Hroom Hfuel; [lia|]. cbn [processInputBuffer].
  destruct (querybuf (req c)) as [|ch q] eqn:Eq.
  { exists c, [], cmds. split; [done|]. split; [done|]. split; [by split; rewrite ?Eq|]. split; [|done].
    destruct Hw as [(Hm & _)|(l & rest & todo & -> & Hne & Hl & Hst)]; [left; eauto|]. right. exists l, rest, todo.
    destruct Hst as (Hm & Ht & Hb). split_and!; try done.
    - destruct Hb as [[? _]|(a & l2 & ? & ? & _)]; [by left|right; eauto].
    - rewrite Eq. destruct todo as [|a todo]; [done|]. unfold stuck. destruct (_ =? _); cbn [length]; [|lia].
      unfold enc_hdr. cbn [length]. lia. }
  destruct Hf as (F1 & F2 & F3 & F4). rewrite F3, F2, F1. cbn [negb andb].
  (* the type of the request *)
  set (r := if reqtype (req c) =? 0 then _ else req c).
  assert (Hr' : reqtype r = PROTO_REQ_MULTIBULK /\ waiting r cmds (querybuf r ++ U) /\ querybuf r = ch :: q /\ room r 0).
  { unfold r. rewrite <-Eq in Hw. destruct (Z.eqb_spec (reqtype (req c)) 0) as [E0|E0].
    - destruct Hw as [(Hm & Hb & Ha & _ & E)|(l & rest & todo & _ & _ & _ & (_ & Ht & _))]; [|rewrite Ht in E0; done].
      rewrite Eq in E. destruct cmds as [|l rest]; [done|]. unfold enc_cmds in E. cbn [map concat] in E. unfold enc_cmd, enc_hdr in E.
      injection E as -> E. cbn [Z.eqb Pos.eqb]. split; [done|]. split; [|done]. left. cbn [with_reqtype querybuf]. split_and!; try done; [by right|].
      rewrite Eq. cbn [app]. rewrite E. done.
    - split_and!; try done. destruct Hw as [(_ & _ & _ & [?|?] & _)|(l & rest & todo & _ & _ & _ & (_ & Ht & _))]; done. }
  destruct Hr' as (Ht & Hw' & Eq' & Hroom').
  rewrite Ht. cbn [Z.eqb Pos.eqb PROTO_REQ_MULTIBULK PROTO_REQ_INLINE].
  destruct (round_spec r cmds U Hw' Hroom' Hv Ht ltac:(by rewrite Eq')) as (r' & [(-> & W' & S')|(-> & l & rest & -> & Hargv & HU & Hlt & Hsm)]); mred.
  - exists (with_req c r'), [], cmds. split; [done|]. split; [done|]. split; [by split|done].
  - cbn [andb]. apply Forall_cons in Hv as [Hvl Hvr]. apply Forall_cons in Hpl as [Hpl1 Hpl].
    assert (Hne : argv (req (with_req c r')) <> []) by (cbn; rewrite Hargv; destruct Hvl as [Hn _]; intros ->; cbn in Hn; lia).
    destruct (execute_plain (with_req c r') w Hne ltac:(cbn; rewrite Hargv; apply Hpl1)) as (c1 & -> & R1 & C1 & B1 & S1 & E1 & M1 & RR1 & P1 & O1). cbn in R1, C1, B1, S1, E1, M1, RR1, P1, O1.
    cbn [req with_req]. rewrite Hargv.
    destruct (IH c1 (processCommand l w).1 rest) as (c2 & dn & rs & E2 & -> & Ok2 & St2 & M2 & RR2 & P2 & _).
    + split; [by rewrite C1, B1, S1, E1|done|done| |].
      * rewrite R1. left. cbn. split_and!; try done. by left.
      * rewrite M1. intros Hm. rewrite RR1, (O1 Hm), <-HU, length_app. unfold qblen. lia.
    + rewrite R1. left. exact Hsm.
    + rewrite R1. cbn [querybuf]. rewrite Eq' in Hlt. cbn [length] in *. lia.
    + exists c2, (l :: dn), rs. split; [exact E2|]. split; [done|]. split; [done|]. split; [done|]. split_and!; try congruence.
Qed.

(** More bytes than a starved request is missing are never asked for. *)
Lemma read_room r cmds bytes :
  starved r cmds -> Forall valid_cmd cmds -> 1 <= readlen r /\
  (Z.of_nat (length bytes) <= readlen r -> room (with_querybuf r (querybuf r ++ bytes)) 0 /\ qblen (with_querybuf r (querybuf r ++ bytes)) <= PROTO_MAX_QUERYBUF_LEN).
Proof.
  intros Hs Hv.
  assert (Hgen : qblen r <= 32769 -> readlen r = PROTO_IOBUF_LEN -> 1 <= readlen r /\
    (Z.of_nat (length bytes) <= readlen r -> room (with_querybuf r (querybuf r ++ bytes)) 0 /\ qblen (with_querybuf r (querybuf r ++ bytes)) <= PROTO_MAX_QUERYBUF_LEN)).
  { intros Hq ->. unfold PROTO_IOBUF_LEN, room, qblen, SMALL, PROTO_MAX_QUERYBUF_LEN in *. cbn [with_querybuf querybuf]. rewrite length_app. lia. }
  destruct Hs as [(Hm & Hq)|(l & rest & todo & -> & Hl & Hm & Ht & Hb & Hst)].
  - assert (Hrl : readlen r = PROTO_IOBUF_LEN). { unfold readlen. rewrite Hm. cbn [Z.eqb negb]. by rewrite andb_false_r. }
    apply Hgen; [|done]. destruct Hq as [Hq|(l & rest & -> & Hq)]; [unfold qblen; rewrite Hq; cbn; lia|].
    apply Forall_cons in Hv as [[Hn _] _]. pose proof (hdr_short 42 (Z.of_nat (length l)) ltac:(lia)). unfold qblen. lia.
  - apply Forall_cons in Hv as [[_ Hargs] _]. rewrite <-Hl in Hargs. apply Forall_app in Hargs as [_ Hargs].
    destruct todo as [|a todo]; [done|]. apply Forall_cons in Hargs as [Ha _]. unfold valid_arg, MAX_ARG in Ha. unfold stuck in Hst.
    destruct Hb as [Hb|(a2 & l2 & [= <- <-] & Hb)].
    + rewrite Hb in Hst. cbn [Z.eqb Pos.eqb] in Hst. apply Hgen.
      * pose proof (hdr_short 36 (Z.of_nat (length a)) ltac:(lia)). unfold qblen. lia.
      * unfold readlen. rewrite Hb. cbn [Z.eqb Pos.eqb negb]. by rewrite !andb_false_r.
    + rewrite Hb in Hst. rewrite (proj2 (Z.eqb_neq _ _)) in Hst by lia.
      destruct (Z.leb_spec PROTO_MBULK_BIG_ARG (Z.of_nat (length a))) as [Hbig|Hsmall].
      * unfold readlen. rewrite Ht, Hm, Hb, (proj2 (Z.leb_le _ _)) by done. rewrite (proj2 (Z.eqb_neq (Z.of_nat (length (a :: todo))) 0)) by (cbn; lia).
        rewrite (proj2 (Z.eqb_neq (Z.of_nat (length a)) (-1))) by lia. cbn [Z.eqb Pos.eqb negb andb PROTO_REQ_MULTIBULK].
        unfold qblen. autorewrite with widths.
        unfold room, qblen, PROTO_IOBUF_LEN, MAX_ARG, PROTO_MAX_QUERYBUF_LEN in *. cbn [with_querybuf querybuf bulklen]. rewrite Hb, length_app.
        destruct (Z.ltb_spec (Z.of_nat (length a) + 2 - Z.of_nat (length (querybuf r))) (1024 * 16)); lia.
      * apply Hgen; [unfold qblen, PROTO_MBULK_BIG_ARG in *; lia|]. unfold readlen. rewrite Hb, (proj2 (Z.leb_gt _ _)) by done. by rewrite !andb_false_r.
Qed.

Lemma starved_done r cmds : starved r cmds -> waiting r cmds (querybuf r) -> cmds = [] /\ querybuf r = [].
Proof.
  intros Hs [(Hm & _ & _ & _ & E)|(l & rest & todo & -> & Hne & Hl & Hst)].
  - destruct Hs as [(_ & [Hq|(l & rest & -> & Hq)])|(l & rest & todo & -> & _ & Hm' & _ & _ & Hst)].
    + rewrite Hq in E. split; [|done]. destruct cmds as [|l cmds]; [done|]. discriminate E.
    + exfalso. rewrite E in Hq. unfold enc_cmds in Hq. cbn [map concat] in Hq. unfold enc_cmd in Hq. rewrite !length_app in Hq. lia.
    + exfalso. rewrite Hm in Hm'. destruct todo; [done|]. cbn in Hm'. lia.
  - exfalso. pose proof Hst as (Hm & _ & Hb). destruct Hs as [(Hm0 & _)|(l2 & rest2 & t2 & [= <- <-] & Hl2 & Hm2 & _ & _ & Hst2)].
    { rewrite Hm in Hm0. destruct todo; [done|cbn in Hm0; lia]. }
    rewrite <-Hl in Hl2. apply app_inv_head in Hl2 as ->. destruct todo as [|a todo]; [done|]. unfold stuck in Hst2.
    destruct Hb as [[Hb E]|(a2 & l2 & [= <- <-] & Hb & E)]; rewrite Hb in Hst2.
    + cbn [Z.eqb Pos.eqb] in Hst2. rewrite E in Hst2. unfold enc_args in Hst2. cbn [map concat] in Hst2. unfold enc_arg in Hst2. rewrite !length_app in Hst2. lia.
    + rewrite (proj2 (Z.eqb_neq _ _)) in Hst2 by lia. rewrite E, !length_app in Hst2. cbn [length] in Hst2. lia.
Qed.
End stream.

(** ** The socket *)

Section socket.
Context {W : Type} (processCommand : list (list Z) -> W -> W * cmdResult) (unixtime maxlen : Z).

(** The bytes [U] are delivered in reads of the given sizes, each at most what the client
    asks for; the last result is what the slaves of a master client are fed. *)
Fixpoint serve (sizes : list Z) (c : client) (U : list Z) (w : W) : option (client * list Z * W * list Z) :=
  match sizes with
  | [] => Some (c, U, w, [])
  | n :: sizes =>
    if bool_decide (U = []) then Some (c, U, w, []) else
    let k := Z.to_nat (Z.min n (readlen (req c))) in
    '(oc, w, f) ← readQueryFromClient processCommand unixtime maxlen false c (take k U) w;
    c ← oc;
    '(c, U, w, fed) ← serve sizes c (drop k U) w;
    Some (c, U, w, f ++ fed)
  end.

Context (Hmax : PROTO_MAX_QUERYBUF_LEN <= maxlen).
Local Abbreviation client_ok := (client_ok processCommand).

(** The bytes a master client has read and not applied yet. *)
Definition pending_ok (c : client) (cmds : list (list (list Z))) (U : list Z) : Prop :=
  is_master c = true -> pending_querybuf c ++ U = enc_cmds cmds.

Lemma enc_cmds_app a b : enc_cmds (a ++ b) = enc_cmds a ++ enc_cmds b.
Proof. unfold enc_cmds. by rewrite map_app, concat_app. Qed.

Lemma run_cmds_app w a b : run_cmds processCommand w (a ++ b) = run_cmds processCommand (run_cmds processCommand w a) b.
Proof. apply foldl_app. Qed.

Lemma readQuery_spec c w cmds bytes U :
  client_ok c cmds (bytes ++ U) -> starved (req c) cmds -> pending_ok c cmds (bytes ++ U) -> Z.of_nat (length bytes) <= readlen (req c) ->
  exists c' done rest, readQueryFromClient processCommand unixtime maxlen false c bytes w =
      Some (Some c', run_cmds processCommand w done, if is_master c then enc_cmds done else []) /\
    cmds = done ++ rest /\ client_ok c' rest U /\ starved (req c') rest /\ pending_ok c' rest U /\ is_master c' = is_master c /\
    (is_master c = true -> read_reploff c' = read_reploff c + Z.of_nat (length bytes)).
Proof.
  intros [Hf Hv Hpl Hw Hr] Hs Hp Hlen. unfold readQueryFromClient. destruct (read_room (req c) cmds bytes Hs Hv) as [_ Hroom].
  specialize (Hroom Hlen) as [Hroom Hq]. change (req (with_read c bytes)) with (with_querybuf (req c) (querybuf (req c) ++ bytes)).
  rewrite (proj2 (Z.ltb_ge maxlen _)) by lia.
  assert (Hok : client_ok (with_read c bytes) cmds U).
  { split; [exact Hf|done|done| |].
    - change (req (with_read c bytes)) with (with_querybuf (req c) (querybuf (req c) ++ bytes)). cbn [with_querybuf querybuf].
      rewrite <-app_assoc. exact Hw.
    - cbn [with_read is_master read_reploff reploff]. intros Hm. specialize (Hr Hm). rewrite length_app in Hr. rewrite Hm. lia. }
  destruct (processInput_spec processCommand unixtime (S (length (querybuf (with_querybuf (req c) (querybuf (req c) ++ bytes)))))
    (with_read c bytes) w cmds U Hok Hroom ltac:(change (req (with_read c bytes)) with (with_querybuf (req c) (querybuf (req c) ++ bytes)); lia))
    as (c' & dn & rest & -> & -> & Ok' & St' & M' & RR' & P' & _). mred. cbn [with_read is_master read_reploff pending_querybuf] in M', RR', P'.
  rewrite M'. destruct (is_master c) eqn:Em.
  - assert (Happ : reploff c' - reploff (with_read c bytes) = Z.of_nat (length (enc_cmds dn))).
    { pose proof (co_reploff _ _ _ _ Ok' ltac:(congruence)) as H1. pose proof (co_reploff _ _ _ _ Hok ltac:(done)) as H2.
      rewrite enc_cmds_app, length_app in H2. cbn [with_read read_reploff] in H2. rewrite Em in H2. lia. }
    rewrite Happ, Nat2Z.id, P'. specialize (Hp Em). rewrite enc_cmds_app, app_assoc in Hp.
    assert (Hsplit : exists x, pending_querybuf c ++ bytes = enc_cmds dn ++ x /\ x ++ U = enc_cmds rest).
    { apply app_eq_inv in Hp as [(x & E1 & E2)|(x & E1 & E2)]; [eauto|].
      pose proof (co_reploff _ _ _ _ Hok ltac:(done)) as H2. pose proof (co_reploff _ _ _ _ Ok' ltac:(congruence)) as H1.
      (* the bytes not applied are in the buffer of the client *)
      assert (Hx : x = []).
      { apply nil_length_inv. destruct Ok' as [_ _ _ Wt _]. assert (HU : (length U <= length (enc_cmds rest))%nat).
        { destruct Wt as [(_ & _ & _ & _ & E)|(l & rs & todo & -> & _ & Hl & (_ & _ & [[_ E]|(a & l2 & -> & _ & E)]))].
          - apply (f_equal length) in E. rewrite length_app in E. lia.
          - apply (f_equal length) in E. unfold enc_cmds at 1. cbn [map concat]. fold (enc_cmds rs). unfold enc_cmd. subst l.
            unfold enc_args in *. rewrite map_app, concat_app. rewrite !length_app in *. lia.
          - apply (f_equal length) in E. unfold enc_cmds at 1. cbn [map concat]. fold (enc_cmds rs). unfold enc_cmd. subst l.
            unfold enc_args in *. rewrite map_app, concat_app. cbn [map concat]. unfold enc_arg at 2. rewrite !length_app in *. cbn [length] in *. lia. }
        apply (f_equal length) in E2. rewrite length_app in E2. lia. }
      subst x. rewrite app_nil_r in E1. cbn in E2. exists []. rewrite app_nil_r. by split. }
    destruct Hsplit as (x & Ex & HU). rewrite Ex, take_app_length, drop_app_length. eexists _, dn, rest. split; [done|]. split; [done|].
    split; [destruct Ok'; by split|]. split; [done|]. split; [by intros _|]. done.
  - eexists _, dn, rest. split; [done|]. split; [done|]. split; [done|]. split; [done|]. split; [|done]. intros Hm. congruence.
Qed.

Lemma serve_spec sizes c U w cmds :
  client_ok c cmds U -> starved (req c) cmds -> pending_ok c cmds U -> Forall (fun n => 1 <= n) sizes ->
  exists c' U' done rest, serve sizes c U w = Some (c', U', run_cmds processCommand w done, if is_master c then enc_cmds done else []) /\
    cmds = done ++ rest /\ client_ok c' rest U' /\ starved (req c') rest /\ pending_ok c' rest U' /\ is_master c' = is_master c /\
    (is_master c = true -> read_reploff c' + Z.of_nat (length U') = read_reploff c + Z.of_nat (length U)) /\
    ((length U <= length sizes)%nat -> U' = []).
Proof.
  intros Hok Hst Hp Hs. revert c U w cmds Hok Hst Hp. induction Hs as [|n sizes Hn Hs IH]; intros c U w cmds Hok Hst Hp; cbn [serve].
  { exists c, U, [], cmds. split; [by destruct (is_master c)|]. split_and!; try done. intros ?. apply nil_length_inv. cbn in *. lia. }
  destruct (decide (U = [])) as [->|Hne].
  { rewrite bool_decide_true by done. exists c, [], [], cmds. split; [by destruct (is_master c)|]. by split_and!. }
  rewrite bool_decide_false by done. set (k := Z.to_nat (Z.min n (readlen (req c)))).
  destruct (read_room (req c) cmds [] Hst (co_valid _ _ _ _ Hok)) as [Hrl _]. assert (Hk : (0 < k)%nat) by (unfold k; lia).
  rewrite <-(take_drop k U) in Hok, Hp.
  destruct (readQuery_spec c w cmds (take k U) (drop k U) Hok Hst Hp) as (c1 & d1 & r1 & -> & -> & Ok1 & St1 & P1 & M1 & RR1).
  { rewrite length_take. unfold k. lia. }
  mred. destruct (IH c1 (drop k U) (run_cmds processCommand w d1) r1 Ok1 St1 P1) as (c2 & U2 & d2 & r2 & -> & -> & Ok2 & St2 & P2 & M2 & RR2 & HU2). mred.
  exists c2, U2, (d1 ++ d2), r2. split.
  { rewrite M1, run_cmds_app, enc_cmds_app. by destruct (is_master c). }
  split; [by rewrite app_assoc|]. split; [done|]. split; [done|]. split; [done|]. split; [congruence|]. split.
  - intros Hm. rewrite RR2 by congruence. rewrite RR1 by done. rewrite length_take, length_drop. lia.
  - intros Hl. apply HU2. rewrite length_drop. destruct U; [done|]. cbn [length] in *. lia.
Qed.
End socket.

(** ** The theorem *)

Definition encode_stream (cmds : list (list (list Z))) : option (list Z) :=
  foldl (fun acc l => b ← acc; catAppendOnlyGenericCommand b l) (Some []) cmds.

Lemma encode_stream_spec cmds : Forall valid_cmd cmds -> encode_stream cmds = Some (enc_cmds cmds).
Proof.
  unfold encode_stream. change (enc_cmds cmds) with ([] ++ enc_cmds cmds). generalize (@nil Z) as acc. induction cmds as [|l cmds IH]; intros acc Hv.
  { by rewrite app_nil_r. }
  apply Forall_cons in Hv as [Hl Hv]. cbn [foldl]. mred. rewrite cat_command_spec by done. rewrite IH by done.
  unfold enc_cmds. cbn [map concat]. by rewrite <-app_assoc.
Qed.

(** A client that has just connected, or has just executed a command. *)
Definition fresh_client (c : client) : Prop :=
  req c = Request [] 0 0 (-1) [] /\ close_after_reply c = false /\ blocked c = false /\ is_slave c = false /\ errors c = [] /\
  pending_querybuf c = [] /\ read_reploff c = reploff c.

Lemma stream_executes {W} (processCommand : list (list Z) -> W -> W * cmdResult) unixtime maxlen cmds sizes c w :
  plain_cmds processCommand cmds -> PROTO_MAX_QUERYBUF_LEN <= maxlen ->
  Forall valid_cmd cmds -> fresh_client c -> Forall (fun n => 1 <= n) sizes -> (length (enc_cmds cmds) <= length sizes)%nat ->
  exists c', serve processCommand unixtime maxlen sizes c (enc_cmds cmds) w =
     Some (c', [], foldl (fun w l => (processCommand l w).1) w cmds, if is_master c then enc_cmds cmds else []) /\
     querybuf (req c') = [] /\ close_after_reply c' = false /\ errors c' = [] /\
     (is_master c = true -> reploff c' = reploff c + Z.of_nat (length (enc_cmds cmds))).
Proof.
  intros Hplain Hmax Hv (Hreq & F1 & F2 & F3 & F4 & F5 & F6) Hs. intros Hl.
  assert (Hok : client_ok processCommand c cmds (enc_cmds cmds)).
  { split; [done|done|done| |].
    - rewrite Hreq. left. cbn. split_and!; try done. by left.
    - intros _. lia. }
  assert (Hst : starved (req c) cmds) by (rewrite Hreq; left; cbn; split; [done|by left]).
  assert (Hp : pending_ok c cmds (enc_cmds cmds)) by (intros _; by rewrite F5).
  destruct (serve_spec processCommand unixtime maxlen Hmax sizes c (enc_cmds cmds) w cmds Hok Hst Hp Hs)
    as (c' & U' & dn & rest & -> & -> & Ok' & St' & _ & M' & RR' & HU'). specialize (HU' Hl) as ->.
  destruct Ok' as [(G1 & G2 & G3 & G4) _ _ Wt Ro]. rewrite app_nil_r in Wt. destruct (starved_done _ _ St' Wt) as [-> Hq].
  rewrite app_nil_r in *. exists c'. split; [done|]. split; [done|]. split; [done|]. split; [done|]. intros Hm.
  specialize (Ro ltac:(congruence)). specialize (RR' Hm). cbn in Ro, RR'. lia.
Qed.

(** C6: A stream of commands. The bytes [catAppendOnlyGenericCommand] writes for a list of
    commands that leave the client ready for the next one (they open no transaction, do not
    block or close it), delivered to a client in reads of any sizes, make it execute exactly
    these commands in their order, with no protocol error and nothing left in its buffer. When the
    client is the master of a slave, its replication offset has grown by the bytes of the
    stream, and what is fed to the slaves of this slave is the stream itself. *)
Theorem resp_stream_executes {W} (processCommand : list (list Z) -> W -> W * cmdResult) unixtime maxlen cmds sizes c w :
  plain_cmds processCommand cmds -> PROTO_MAX_QUERYBUF_LEN <= maxlen ->
  Forall valid_cmd cmds -> fresh_client c -> Forall (fun n => 1 <= n) sizes ->
  exists stream, encode_stream cmds = Some stream /\
    ((length stream <= length sizes)%nat ->
     exists c', serve processCommand unixtime maxlen sizes c stream w =
       Some (c', [], foldl (fun w l => (processCommand l w).1) w cmds, if is_master c then stream else []) /\
       querybuf (req c') = [] /\ close_after_reply c' = false /\ errors c' = [] /\
       (is_master c = true -> reploff c' = reploff c + Z.of_nat (length stream))).
Proof.
  intros Hplain Hmax Hv Hc Hs. exists (enc_cmds cmds). split; [by apply encode_stream_spec|]. intros Hl. by apply stream_executes.
Qed.

(** A log of the commands executed. *)
Definition log_command (l : list (list Z)) (w : list (list (list Z))) : list (list (list Z)) * cmdResult := (w ++ [l], plain).

Lemma resp_stream_executes_witness :
  let cmds := [[lit "SET"; lit "k"; lit "v"]; [lit "PING"]] in
  let c := Client (Request [] 0 0 (-1) []) false false false true false 0 0 [] 0 [] in
  exists stream c', encode_stream cmds = Some stream /\
    serve log_command 0 PROTO_MAX_QUERYBUF_LEN (replicate 64 1) c stream [] = Some (c', [], cmds, stream).
Proof.
  cbn zeta. destruct (resp_stream_executes log_command 0 PROTO_MAX_QUERYBUF_LEN [[lit "SET"; lit "k"; lit "v"]; [lit "PING"]] (replicate 64 1)
    (Client (Request [] 0 0 (-1) []) false false false true false 0 0 [] 0 []) []) as (stream & E & H).
  - repeat constructor.
  - discriminate.
  - repeat constructor; try (vm_compute; discriminate).
  - unfold fresh_client. repeat split; reflexivity.
  - apply Forall_replicate. discriminate.
  - exists stream. destruct H as (c' & Hs & _).
    + assert (El : length <$> Some stream = Some 41%nat) by (rewrite <-E; vm_compute; reflexivity).
      injection El as ->. rewrite length_replicate. lia.
    + exists c'. split; [exact E|exact Hs].
Defined.
