(* ===== verification/Repl.v ===== *)
(** * replication.c: the replication stream of a master

    The backlog, a circular buffer of the last bytes of the stream, the propagation of
    commands to the backlog and to the slaves, the synchronisation of slaves and the change
    of roles. The output of a slave is the list of all bytes queued for it; none of it is
    sent before the slave is online. Run ids are byte lists, new ones are arguments. Two
    fields are not in the code: [stream] records every byte fed to the backlog, and [start]
    of a slave is the offset of the last byte the slave has when it attaches, which is what
    it sent with PSYNC (less one) or what +FULLRESYNC told it. A failed assertion is [None].
    Writes to the sockets of slaves succeed. *)

From stdpp Require Import list.
From S2P Require Import Prelude Util Sds SdsParse Rdb Resp RespStream.

(** ** Data *)

Definition CONFIG_REPL_BACKLOG_MIN_SIZE : Z := 1024 * 16.
Definition LONG_STR_SIZE : Z := 21.
Definition OBJ_SHARED_BULKHDR_LEN : Z := 32.
Definition PROTO_SHARED_SELECT_CMDS : Z := 10.

Inductive slaveState := WAIT_BGSAVE_START | WAIT_BGSAVE_END | SEND_BULK | ONLINE.

#[export] Instance slaveState_eq : EqDecision slaveState.
Proof. solve_decision. Defined.

Record slave := Slave {
  slave_id : Z;
  replstate : slaveState;
  psync_initial_offset : Z;
  slave_capa : Z;
  output : list Z;
  start : Z                        (* offset of the last byte before the output *)
}.

Record repl := Repl {
  has_master : bool;               (* masterhost != NULL *)
  slaveseldb : Z;
  master_repl_offset : Z;
  repl_backlog : option (list Z);
  repl_backlog_size : Z;
  repl_backlog_histlen : Z;
  repl_backlog_idx : Z;
  repl_backlog_off : Z;
  replid : list Z;
  replid2 : list Z;
  second_replid_offset : Z;
  slaves : list slave;
  stream : list Z                  (* the history of the backlog *)
}.

(** String objects: an sds or an integer in the pointer. *)
Inductive robj := OSds (s : list Z) | OInt (n : Z).

(** Assignments to fields. *)
Definition with_backlog (r : repl) (b : option (list Z)) (histlen idx off : Z) : repl :=
  Repl (has_master r) (slaveseldb r) (master_repl_offset r) b (repl_backlog_size r) histlen idx off
    (replid r) (replid2 r) (second_replid_offset r) (slaves r) (stream r).
Definition with_size (r : repl) (size : Z) : repl :=
  Repl (has_master r) (slaveseldb r) (master_repl_offset r) (repl_backlog r) size (repl_backlog_histlen r) (repl_backlog_idx r)
    (repl_backlog_off r) (replid r) (replid2 r) (second_replid_offset r) (slaves r) (stream r).
Definition with_fed (r : repl) (p : list Z) : repl :=
  Repl (has_master r) (slaveseldb r) (master_repl_offset r + Z.of_nat (length p)) (repl_backlog r) (repl_backlog_size r)
    (repl_backlog_histlen r) (repl_backlog_idx r) (repl_backlog_off r) (replid r) (replid2 r) (second_replid_offset r) (slaves r) (stream r ++ p).
Definition with_seldb (r : repl) (db : Z) : repl :=
  Repl (has_master r) db (master_repl_offset r) (repl_backlog r) (repl_backlog_size r) (repl_backlog_histlen r) (repl_backlog_idx r)
    (repl_backlog_off r) (replid r) (replid2 r) (second_replid_offset r) (slaves r) (stream r).
Definition with_ids (r : repl) (id1 id2 : list Z) (off2 : Z) : repl :=
  Repl (has_master r) (slaveseldb r) (master_repl_offset r) (repl_backlog r) (repl_backlog_size r) (repl_backlog_histlen r)
    (repl_backlog_idx r) (repl_backlog_off r) id1 id2 off2 (slaves r) (stream r).
Definition with_slaves (r : repl) (l : list slave) : repl :=
  Repl (has_master r) (slaveseldb r) (master_repl_offset r) (repl_backlog r) (repl_backlog_size r) (repl_backlog_histlen r)
    (repl_backlog_idx r) (repl_backlog_off r) (replid r) (replid2 r) (second_replid_offset r) l (stream r).

(** ** The backlog *)

(** [b] is the memory [zmalloc] returned. *)
Definition createReplicationBacklog (r : repl) (b : list Z) : option repl :=
  if bool_decide (is_Some (repl_backlog r)) then None else
  Some (with_backlog r (Some b) 0 0 (master_repl_offset r + 1)).

Definition resizeReplicationBacklog (r : repl) (newsize : Z) (b : list Z) : repl :=
  let newsize := if newsize <? CONFIG_REPL_BACKLOG_MIN_SIZE then CONFIG_REPL_BACKLOG_MIN_SIZE else newsize in
  if repl_backlog_size r =? newsize then r else
  let r := with_size r newsize in
  match repl_backlog r with
  | None => r
  | Some _ => with_backlog r (Some b) 0 0 (master_repl_offset r + 1)
  end.

Definition freeReplicationBacklog (r : repl) : option repl :=
  if negb (bool_decide (slaves r = [])) then None else
  Some (with_backlog r None (repl_backlog_histlen r) (repl_backlog_idx r) (repl_backlog_off r)).

(** The loop of [feedReplicationBacklog]: the buffer, the index and the history length. *)
Fixpoint feed_loop (fuel : nat) (size : Z) (b : list Z) (idx histlen : Z) (p : list Z) : option (list Z * Z * Z) :=
  match p, fuel with
  | [], _ => Some (b, idx, histlen)
  | _, O => None
  | _, S fuel =>
    let thislen := size - idx in
    let thislen := if Z.of_nat (length p) <? thislen then Z.of_nat (length p) else thislen in
    b ← wr b idx (take (Z.to_nat thislen) p);
    let idx := idx + thislen in
    let idx := if idx =? size then 0 else idx in
    feed_loop fuel size b idx (histlen + thislen) (drop (Z.to_nat thislen) p)
  end.

Definition feedReplicationBacklog (r : repl) (p : list Z) : option repl :=
  b ← repl_backlog r;
  let r := with_fed r p in
  '(b, idx, histlen) ← feed_loop (length p) (repl_backlog_size r) b (repl_backlog_idx r) (repl_backlog_histlen r) p;
  let histlen := if repl_backlog_size r <? histlen then repl_backlog_size r else histlen in
  Some (with_backlog r (Some b) histlen idx (master_repl_offset r - histlen + 1)).

Definition feedReplicationBacklogWithObject (r : repl) (o : robj) : option repl :=
  match o with
  | OInt n =>
    '(len, b) ← ll2string (replicate (Z.to_nat LONG_STR_SIZE) 0) LONG_STR_SIZE n;
    p ← rd b 0 len;
    feedReplicationBacklog r p
  | OSds s => feedReplicationBacklog r s
  end.

(** [while(len)]: the two parts of the reply. *)
Fixpoint backlog_loop (fuel : nat) (b : list Z) (size j len : Z) (acc : list Z) : option (list Z) :=
  if len =? 0 then Some acc else
  match fuel with
  | O => None
  | S fuel =>
    let thislen := if size - j <? len then size - j else len in
    x ← rd b j thislen;
    backlog_loop fuel b size 0 (len - thislen) (acc ++ x)
  end.

(** The bytes queued and the returned length. *)
Definition addReplyReplicationBacklog (r : repl) (offset : Z) : option (list Z * Z) :=
  if repl_backlog_histlen r =? 0 then Some ([], 0) else
  b ← repl_backlog r;
  let size := repl_backlog_size r in
  let skip := offset - repl_backlog_off r in
  let j := Z.rem (repl_backlog_idx r + (size - repl_backlog_histlen r)) size in
  let j := Z.rem (j + skip) size in
  let len := repl_backlog_histlen r - skip in
  out ← backlog_loop 2 b size j len [];
  Some (out, repl_backlog_histlen r - skip).

(** ** Replies *)

(** The objects of [createSharedObjects]. *)
Definition shared_hdr (prefix j : Z) : list Z := prefix :: decimal j ++ [13; 10].
Definition select_text (len : Z) (db : list Z) : list Z := lit "*2" ++ [13; 10] ++ lit "$6" ++ [13; 10] ++ lit "SELECT" ++ [13; 10] ++
  36 :: decimal len ++ [13; 10] ++ db ++ [13; 10].

Definition select_cmd (size db : Z) : option (list Z) :=
  '(len, b) ← ll2string (replicate (Z.to_nat size) 0) size db;
  t ← rd b 0 len;
  Some (select_text len t).

Definition addReplyLongLongWithPrefix (ll prefix : Z) : option (list Z) :=
  if (prefix =? 42) && (ll <? OBJ_SHARED_BULKHDR_LEN) && (0 <=? ll) then Some (shared_hdr 42 ll) else
  if (prefix =? 36) && (ll <? OBJ_SHARED_BULKHDR_LEN) && (0 <=? ll) then Some (shared_hdr 36 ll) else
  '(len, b) ← ll2string (replicate 127 0) 127 ll;
  t ← rd b 0 len;
  Some (prefix :: t ++ [13; 10]).

Definition addReplyMultiBulkLen (length : Z) : option (list Z) :=
  if length <? OBJ_SHARED_BULKHDR_LEN then (if length <? 0 then None else Some (shared_hdr 42 length))
  else addReplyLongLongWithPrefix length 42.

(** [while((n = n/10) != 0) len++]. *)
Fixpoint count_digits (fuel : nat) (n len : Z) : option Z :=
  match fuel with
  | O => None
  | S fuel => let n := Z.quot n 10 in if n =? 0 then Some len else count_digits fuel n (len + 1)
  end.

Definition bulk_len (o : robj) : option Z :=
  match o with
  | OSds s => Some (Z.of_nat (length s))
  | OInt n => if n <? 0 then count_digits 20 (s64 (- n)) 2 else count_digits 20 n 1
  end.

Definition addReplyBulkLen (o : robj) : option (list Z) :=
  len ← bulk_len o;
  if len <? OBJ_SHARED_BULKHDR_LEN then Some (shared_hdr 36 len) else addReplyLongLongWithPrefix len 36.

(** [addReply] of an object, decoded when it is an integer. *)
Definition addReply_text (o : robj) : option (list Z) :=
  match o with
  | OSds s => Some s
  | OInt n => '(len, b) ← ll2string (replicate 32 0) 32 n; rd b 0 len
  end.

Definition addReplyBulk (o : robj) : option (list Z) :=
  h ← addReplyBulkLen o;
  t ← addReply_text o;
  Some (h ++ t ++ [13; 10]).

Definition stringObjectLen (o : robj) : option Z :=
  match o with OSds s => Some (Z.of_nat (length s)) | OInt n => sdigits10 n end.

(** ** Propagation *)

(** Output queued for every slave that does not wait for a BGSAVE to start. *)
Definition feed_slaves (l : list slave) (p : list Z) : list slave :=
  map (fun s => if bool_decide (replstate s = WAIT_BGSAVE_START) then s
                else Slave (slave_id s) (replstate s) (psync_initial_offset s) (slave_capa s) (output s ++ p) (start s)) l.

(** The header [aux] and its length. *)
Definition aux_hdr (prefix n : Z) : option (list Z) :=
  '(len, b) ← ll2string (replicate (Z.to_nat (LONG_STR_SIZE + 2)) 0) (LONG_STR_SIZE + 2) n;
  t ← rd b 0 len;
  Some (prefix :: t ++ [13; 10]).

Fixpoint feed_args (r : repl) (argv : list robj) : option repl :=
  match argv with
  | [] => Some r
  | o :: argv =>
    objlen ← stringObjectLen o;
    aux ← aux_hdr 36 objlen;
    r ← feedReplicationBacklog r aux;
    r ← feedReplicationBacklogWithObject r o;
    r ← feedReplicationBacklog r [13; 10];
    feed_args r argv
  end.

Fixpoint reply_args (argv : list robj) : option (list Z) :=
  match argv with
  | [] => Some []
  | o :: argv => x ← addReplyBulk o; y ← reply_args argv; Some (x ++ y)
  end.

Definition replicationFeedSlaves (r : repl) (dictid : Z) (argv : list robj) : option repl :=
  if has_master r then Some r else
  if bool_decide (repl_backlog r = None) && bool_decide (slaves r = []) then Some r else
  if negb (bool_decide (slaves r = [])) && bool_decide (repl_backlog r = None) then None else
  r ← (if negb (slaveseldb r =? dictid) then
         selectcmd ← (if (0 <=? dictid) && (dictid <? PROTO_SHARED_SELECT_CMDS) then select_cmd 64 dictid
                      else select_cmd LONG_STR_SIZE dictid);
         r ← (if bool_decide (is_Some (repl_backlog r)) then feedReplicationBacklogWithObject r (OSds selectcmd) else Some r);
         Some (with_slaves r (feed_slaves (slaves r) selectcmd))
       else Some r);
  let r := with_seldb r dictid in
  r ← (if bool_decide (is_Some (repl_backlog r)) then
         aux ← aux_hdr 42 (Z.of_nat (length argv));
         r ← feedReplicationBacklog r aux;
         feed_args r argv
       else Some r);
  h ← addReplyMultiBulkLen (Z.of_nat (length argv));
  t ← reply_args argv;
  Some (with_slaves r (feed_slaves (slaves r) (h ++ t))).

Definition replicationFeedSlavesFromMasterStream (r : repl) (buf : list Z) : option repl :=
  r ← (if bool_decide (is_Some (repl_backlog r)) then feedReplicationBacklog r buf else Some r);
  Some (with_slaves r (feed_slaves (slaves r) buf)).

(** ** Synchronisation *)

Definition changeReplicationId (r : repl) (id : list Z) : repl := with_ids r id (replid2 r) (second_replid_offset r).
Definition clearReplicationId2 (r : repl) : repl := with_ids r (replid r) (replicate 40 48) (-1).
Definition shiftReplicationId (r : repl) (id : list Z) : repl :=
  changeReplicationId (with_ids r (replid r) (replid r) (master_repl_offset r + 1)) id.

(** [strcasecmp] of two strings, for equality. *)
Definition lower (s : list Z) : list Z := map (fun c => if (65 <=? c) && (c <=? 90) then c + 32 else c) s.
Definition same_id (a b : list Z) : bool := bool_decide (lower a = lower b).

(** The state of the client as a slave. *)
Definition setup_slave (s : slave) (offset : Z) : slave := Slave (slave_id s) WAIT_BGSAVE_END offset (slave_capa s) (output s) offset.

Definition replicationSetupSlaveForFullResync (r : repl) (id offset : Z) : repl :=
  with_seldb (with_slaves r (map (fun s => if slave_id s =? id then setup_slave s offset else s) (slaves r))) (-1).

(** Whether the history holds what the slave asks for. *)
Definition psync_ok (r : repl) (master_replid : list Z) (psync_offset : Z) : bool :=
  (same_id master_replid (replid r) || (same_id master_replid (replid2 r) && (psync_offset <=? second_replid_offset r))) &&
  bool_decide (is_Some (repl_backlog r)) && (repl_backlog_off r <=? psync_offset) &&
  (psync_offset <=? repl_backlog_off r + repl_backlog_histlen r).

(** The reply of [getLongLongFromObjectOrReply] when the offset is not an integer. *)
Definition not_integer : list Z := lit "-ERR value is not an integer or out of range" ++ [13; 10].

(** [psync_offset] is the parsed offset, if it is one. The result is the new state, whether
    the resynchronisation is partial, and what was queued for the client otherwise. *)
Definition masterTryPartialResynchronization (r : repl) (id capa : Z) (master_replid : list Z) (psync_offset : option Z)
  : option (repl * bool * list Z) :=
  match psync_offset with
  | None => Some (r, false, not_integer)
  | Some psync_offset =>
    if psync_ok r master_replid psync_offset then
      '(out, _) ← addReplyReplicationBacklog r psync_offset;
      Some (with_slaves r (slaves r ++ [Slave id ONLINE 0 capa out (psync_offset - 1)]), true, [])
    else Some (r, false, [])
  end.

(** The slaves waiting for a BGSAVE to start are set up, in the order of the list. *)
Definition setup_waiting (r : repl) : repl :=
  foldl (fun r s => if bool_decide (replstate s = WAIT_BGSAVE_START)
                    then replicationSetupSlaveForFullResync r (slave_id s) (master_repl_offset r) else r) r (slaves r).

(** [ok] is the result of the save. With a socket target [rdbSaveToSlavesSockets] has set up
    the slaves in the same way. *)
Definition startBgsaveForReplication (r : repl) (ok : bool) : repl :=
  if ok then setup_waiting r
  else with_slaves r (filter (fun s => replstate s <> WAIT_BGSAVE_START) (slaves r)).

(** The child that saves: none, to a disk or to sockets. *)
Inductive rdbChild := NoChild | DiskChild | SocketChild.

(** The full resynchronisation of [syncCommand]; [queued] is the output of the client,
    [diskless] the test of the configuration and of the capability of the slave. *)
Definition fullSync (r : repl) (id capa : Z) (queued newid b : list Z) (child : rdbChild) (diskless aof_child bgsave_ok : bool) : option repl :=
  let r := with_slaves r (slaves r ++ [Slave id WAIT_BGSAVE_START 0 capa queued 0]) in
  r ← (if bool_decide (length (slaves r) = 1%nat) && bool_decide (repl_backlog r = None) then
         createReplicationBacklog (clearReplicationId2 (changeReplicationId r newid)) b
       else Some r);
  match child with
  | DiskChild =>
    match list_find (fun s => replstate s = WAIT_BGSAVE_END) (slaves r) with
    | Some (_, s) =>
      if Z.land capa (slave_capa s) =? slave_capa s then
        let copy x := if slave_id x =? id
                      then Slave id (replstate x) (psync_initial_offset x) capa (output s) (start x) else x in
        Some (replicationSetupSlaveForFullResync (with_slaves r (map copy (slaves r))) id (psync_initial_offset s))
      else Some r
    | None => Some r
    end
  | SocketChild => Some r
  | NoChild => Some (if diskless || aof_child then r else startBgsaveForReplication r bgsave_ok)
  end.

(** [psync] is the argument of PSYNC, none for SYNC; [connected]: the link with the master,
    if there is one, is up; [pending]: the client has output. *)
Definition syncCommand (r : repl) (id capa : Z) (connected pending : bool) (psync : option (list Z * option Z))
    (newid b : list Z) (child : rdbChild) (diskless aof_child bgsave_ok : bool) : option repl :=
  if bool_decide (id ∈ map slave_id (slaves r)) then Some r else
  if has_master r && negb connected then Some r else
  if pending then Some r else
  match psync with
  | Some (master_replid, offset) =>
    '(r, done, queued) ← masterTryPartialResynchronization r id capa master_replid offset;
    if (done : bool) then Some r else fullSync r id capa queued newid b child diskless aof_child bgsave_ok
  | None => fullSync r id capa [] newid b child diskless aof_child bgsave_ok
  end.

Definition putSlaveOnline (r : repl) (id : Z) : repl :=
  with_slaves r (map (fun s => if slave_id s =? id
                               then Slave (slave_id s) ONLINE (psync_initial_offset s) (slave_capa s) (output s) (start s) else s) (slaves r)).

(** The part of [freeClient] for a slave. *)
Definition freeSlave (r : repl) (id : Z) : repl := with_slaves r (filter (fun s => slave_id s <> id) (slaves r)).

Definition disconnectSlaves (r : repl) : repl := with_slaves r [].

(** One slave at the end of a background save, none when it is freed; [opened]: the file was
    opened and the handler installed. *)
Definition bgsave_done (ok : bool) (type : rdbChild) (opened : Z -> bool) (s : slave) : option slave :=
  if bool_decide (replstate s = WAIT_BGSAVE_END) then
    match type with
    | SocketChild => Some (Slave (slave_id s) ONLINE (psync_initial_offset s) (slave_capa s) (output s) (start s))
    | _ => if negb ok then None else
           if opened (slave_id s) then Some (Slave (slave_id s) SEND_BULK (psync_initial_offset s) (slave_capa s) (output s) (start s)) else None
    end
  else Some s.

Definition updateSlavesWaitingBgsave (r : repl) (ok : bool) (type : rdbChild) (opened : Z -> bool) (bgsave_ok : bool) : repl :=
  let startbgsave := bool_decide (Exists (fun s => replstate s = WAIT_BGSAVE_START) (slaves r)) in
  let r := with_slaves r (omap (bgsave_done ok type opened) (slaves r)) in
  if startbgsave then startBgsaveForReplication r bgsave_ok else r.

(** The part of [replicationCron] that frees the backlog; [expired] is the idle time limit. *)
Definition cron_backlog (r : repl) (newid : list Z) (expired : bool) : option repl :=
  if bool_decide (slaves r = []) && bool_decide (is_Some (repl_backlog r)) && negb (has_master r) && expired
  then freeReplicationBacklog (clearReplicationId2 (changeReplicationId r newid)) else Some r.

(** The PING of [replicationCron]. *)
Definition cron_ping (r : repl) : option repl :=
  if bool_decide (slaves r = []) then Some r else replicationFeedSlaves r (slaveseldb r) [OSds (lit "PING")].

(** The part of [replicationCron] that starts a save; [due]: no child runs and the delay is over. *)
Definition cron_bgsave (r : repl) (due bgsave_ok : bool) : repl :=
  if due && bool_decide (Exists (fun s => replstate s = WAIT_BGSAVE_START) (slaves r))
  then startBgsaveForReplication r bgsave_ok else r.

(** ** Roles *)

Definition with_master (r : repl) (m : bool) : repl :=
  Repl m (slaveseldb r) (master_repl_offset r) (repl_backlog r) (repl_backlog_size r) (repl_backlog_histlen r)
    (repl_backlog_idx r) (repl_backlog_off r) (replid r) (replid2 r) (second_replid_offset r) (slaves r) (stream r).

Definition replicationSetMaster (r : repl) : repl := disconnectSlaves (with_master r true).

Definition replicationUnsetMaster (r : repl) (newid : list Z) : repl :=
  if negb (has_master r) then r else
  with_seldb (disconnectSlaves (shiftReplicationId (with_master r false) newid)) (-1).

(** [slaveTryPartialResynchronization] when the master continues; [cached] is the id of the
    cached master, [new] the id in the reply, if it has one. *)
Definition psync_continue (r : repl) (cached : list Z) (new : option (list Z)) (b : list Z) : option repl :=
  let r := match new with
           | Some new => if bool_decide (new = cached) then r else
                         disconnectSlaves (with_ids r new cached (master_repl_offset r + 1))
           | None => r
           end in
  if bool_decide (repl_backlog r = None) then createReplicationBacklog r b else Some r.

(** [syncWithMaster] when a full resynchronisation follows. *)
Definition prepare_full (r : repl) : option repl := freeReplicationBacklog (disconnectSlaves r).

(** The end of [readSyncBulkPayload]: the history is that of the master, from its offset. *)
Definition finish_full (r : repl) (id : list Z) (reploff : Z) (b : list Z) : option repl :=
  let r := Repl (has_master r) (slaveseldb r) reploff (repl_backlog r) (repl_backlog_size r) (repl_backlog_histlen r)
    (repl_backlog_idx r) (repl_backlog_off r) id (replid2 r) (second_replid_offset r) (slaves r) [] in
  let r := clearReplicationId2 r in
  if bool_decide (repl_backlog r = None) then createReplicationBacklog r b else Some r.
