(* ===== verification/ReplStream.v ===== *)
(** * replication.c: slaves receive the stream

    The backlog holds the end of the stream, commands are encoded alike for the backlog and
    for the slaves, and the output of every slave is the stream from the offset it knows. *)

From stdpp Require Import list.
From S2P Require Import Prelude Util Sds SdsParse Rdb Resp RespStream Repl.

(** ** The circular buffer *)

(** The last [n] elements. *)
Definition lastn (n : Z) (l : list Z) : list Z := drop (length l - Z.to_nat n) l.

(** The index of the byte written [k] bytes before the last one. *)
Definition rpos (size idx k : Z) : Z := if k <? idx then idx - 1 - k else idx - 1 - k + size.

Record ring (size : Z) (b : list Z) (histlen idx : Z) (st : list Z) : Prop := {
  ring_len : Z.of_nat (length b) = size;
  ring_idx : 0 <= idx < size;
  ring_hist : 0 <= histlen <= size /\ histlen <= Z.of_nat (length st);
  ring_byte k : 0 <= k < histlen -> b !! Z.to_nat (rpos size idx k) = st !! Z.to_nat (Z.of_nat (length st) - 1 - k)
}.

Lemma ring_empty size b st : 0 < size -> Z.of_nat (length b) = size -> ring size b 0 0 st.
Proof. split; [done|lia|lia|]. intros k Hk. lia. Qed.

Lemma ring_chunk size b h idx st c b' :
  ring size b h idx st -> 0 < Z.of_nat (length c) <= size - idx -> wr b idx c = Some b' ->
  ring size b' (Z.min size (h + Z.of_nat (length c)))
    (if idx + Z.of_nat (length c) =? size then 0 else idx + Z.of_nat (length c)) (st ++ c).
Proof.
  intros [Hl Hi Hh Hb] Hc E. pose proof (wr_length _ _ _ _ E) as Hl'. set (n := Z.of_nat (length c)) in *.
  assert (Hpos : forall k, 0 <= k < size -> rpos size (if idx + n =? size then 0 else idx + n) k =
                 if k <? n then idx + n - 1 - k else rpos size idx (k - n)).
  { intros k Hk. unfold rpos. destruct (Z.eqb_spec (idx + n) size), (Z.ltb_spec k n); try (rewrite (proj2 (Z.ltb_ge k 0)) by lia).
    all: repeat (match goal with |- context [?x <? ?y] => destruct (Z.ltb_spec x y) end); lia. }
  split; [lia|destruct (Z.eqb_spec (idx + n) size); lia|rewrite length_app; lia|].
  intros k Hk. rewrite Hpos by lia. rewrite length_app, Nat2Z.inj_add. fold n. destruct (Z.ltb_spec k n).
  - replace (idx + n - 1 - k) with (idx + (n - 1 - k)) by lia. rewrite (wr_lookup_in _ _ _ _ _ E) by lia.
    rewrite lookup_app_r by lia. f_equal. lia.
  - assert (Hr : 0 <= rpos size idx (k - n) < idx \/ idx + n <= rpos size idx (k - n)).
    { unfold rpos. destruct (Z.ltb_spec (k - n) idx); lia. }
    rewrite (wr_lookup_out _ _ _ _ _ E) by lia. rewrite Hb by lia. rewrite lookup_app_l by lia. f_equal. lia.
Qed.

Lemma feed_loop_spec fuel size b idx h histlen p st :
  ring size b h idx st -> h = Z.min size histlen -> (length p <= fuel)%nat ->
  exists b' idx', feed_loop fuel size b idx histlen p = Some (b', idx', histlen + Z.of_nat (length p)) /\
    ring size b' (Z.min size (histlen + Z.of_nat (length p))) idx' (st ++ p).
Proof.
  revert b idx h histlen p st. induction fuel as [|fuel IH]; intros b idx h histlen p st R Eh Hf.
  - destruct p; [|cbn in Hf; lia]. exists b, idx. cbn [feed_loop length Z.of_nat]. rewrite Z.add_0_r, app_nil_r. by subst h.
  - destruct p as [|x p']; [exists b, idx; cbn [feed_loop length Z.of_nat]; rewrite Z.add_0_r, app_nil_r; by subst h|].
    set (p := x :: p') in *. assert (Hp : (0 < length p)%nat) by (cbn; lia). cbn [feed_loop]. fold p.
    change (match p with [] => _ | _ :: _ => ?e end) with e.
    set (n := if Z.of_nat (length p) <? size - idx then Z.of_nat (length p) else size - idx).
    pose proof (ring_idx _ _ _ _ _ R) as Hi. pose proof (ring_len _ _ _ _ _ R) as Hl. pose proof (ring_hist _ _ _ _ _ R) as Hh.
    assert (Hn : 0 < n <= size - idx /\ n <= Z.of_nat (length p)) by (unfold n; destruct (Z.ltb_spec (Z.of_nat (length p)) (size - idx)); lia).
    assert (Hc : Z.of_nat (length (take (Z.to_nat n) p)) = n) by (rewrite length_take; lia).
    destruct (wr_is_Some b idx (take (Z.to_nat n) p)) as [b1 E1]; [lia..|]. rewrite E1. mred.
    pose proof (ring_chunk size b h idx st (take (Z.to_nat n) p) b1 R ltac:(lia) E1) as R1. rewrite Hc in R1.
    destruct (IH b1 _ _ (histlen + n) (drop (Z.to_nat n) p) _ R1) as (b2 & i2 & E2 & R2); [lia|rewrite length_drop; lia|].
    exists b2, i2. rewrite length_drop in E2, R2. rewrite <-app_assoc, take_drop in R2.
    replace (histlen + n + Z.of_nat (length p - Z.to_nat n)) with (histlen + Z.of_nat (length p)) in * by lia. done.
Qed.

Lemma lastn_length n l : 0 <= n <= Z.of_nat (length l) -> Z.of_nat (length (lastn n l)) = n.
Proof. intros Hn. unfold lastn. rewrite length_drop. lia. Qed.

Lemma lastn_lookup n l i : 0 <= n <= Z.of_nat (length l) -> 0 <= i < n ->
  lastn n l !! Z.to_nat i = l !! Z.to_nat (Z.of_nat (length l) - n + i).
Proof. intros Hn Hi. unfold lastn. rewrite lookup_drop. f_equal. lia. Qed.

Lemma lastn_app n l p : 0 <= n <= Z.of_nat (length l) -> lastn n l ++ p = lastn (n + Z.of_nat (length p)) (l ++ p).
Proof.
  intros Hn. unfold lastn. rewrite drop_app_le by (rewrite length_app; lia). f_equal. f_equal. rewrite length_app. lia.
Qed.

(** What is read from the index of the byte [n] before the end. *)
Lemma backlog_loop_spec size b h idx st n :
  ring size b h idx st -> 0 <= n <= h ->
  backlog_loop 2 b size (if n <=? idx then idx - n else idx - n + size) n [] = Some (lastn n st).
Proof.
  intros [Hl Hi Hh Hb] Hn. cbn [backlog_loop]. destruct (Z.eqb_spec n 0) as [->|Hn0].
  { f_equal. unfold lastn. rewrite drop_ge by lia. done. }
  set (j := if n <=? idx then idx - n else idx - n + size).
  set (t := if size - j <? n then size - j else n).
  assert (Hj : 0 <= j < size /\ 0 < t <= n /\ j + t <= size /\ (t < n -> j + t = size /\ n - t = idx)).
  { unfold t, j. destruct (Z.leb_spec n idx); repeat (match goal with |- context [?x <? ?y] => destruct (Z.ltb_spec x y) end); lia. }
  destruct (rd_is_Some b j t) as [x1 E1]; [lia..|]. rewrite E1. mred. cbn [app].
  assert (Hx1 : x1 = take (Z.to_nat t) (lastn n st)).
  { apply list_eq_same_length with (Z.to_nat t); [rewrite length_take; pose proof (lastn_length n st); lia|pose proof (rd_length _ _ _ _ E1); lia|].
    intros i y1 y2 Hlt H1 H2. rewrite lookup_take_lt in H2 by lia.
    pose proof (rd_lookup _ _ _ _ (Z.of_nat i) E1 ltac:(lia)) as H3. rewrite Nat2Z.id in H3.
    pose proof (lastn_lookup n st (Z.of_nat i) ltac:(lia) ltac:(lia)) as H4. rewrite Nat2Z.id in H4.
    specialize (Hb (n - 1 - Z.of_nat i) ltac:(lia)). replace (rpos size idx (n - 1 - Z.of_nat i)) with (j + Z.of_nat i) in Hb.
    2: { unfold rpos, j. destruct (Z.ltb_spec (n - 1 - Z.of_nat i) idx), (Z.leb_spec n idx); lia. }
    replace (Z.of_nat (length st) - 1 - (n - 1 - Z.of_nat i)) with (Z.of_nat (length st) - n + Z.of_nat i) in Hb by lia. congruence. }
  destruct (Z.eqb_spec (n - t) 0) as [Et|Et]; [f_equal; rewrite Hx1; apply take_ge; pose proof (lastn_length n st); lia|].
  assert (Hidx : j + t = size /\ n - t = idx) by (apply Hj; lia).
  rewrite (proj2 (Z.ltb_ge _ _)) by lia.
  destruct (rd_is_Some b 0 (n - t)) as [x2 E2]; [lia..|]. rewrite E2. mred. rewrite Z.sub_diag. cbn [Z.eqb]. f_equal.
  rewrite <-(take_drop (Z.to_nat t) (lastn n st)), Hx1. f_equal.
  apply list_eq_same_length with (Z.to_nat (n - t)); [rewrite length_drop; pose proof (lastn_length n st); lia|pose proof (rd_length _ _ _ _ E2); lia|].
  intros i y1 y2 Hlt H1 H2. rewrite lookup_drop in H2.
  pose proof (rd_lookup _ _ _ _ (Z.of_nat i) E2 ltac:(lia)) as H3. rewrite Z.add_0_l, Nat2Z.id in H3.
  pose proof (lastn_lookup n st (t + Z.of_nat i) ltac:(lia) ltac:(lia)) as H4. rewrite Z2Nat.inj_add, Nat2Z.id in H4 by lia.
  specialize (Hb (idx - 1 - Z.of_nat i) ltac:(lia)). unfold rpos in Hb. rewrite (proj2 (Z.ltb_lt _ _)) in Hb by lia.
  replace (idx - 1 - (idx - 1 - Z.of_nat i)) with (Z.of_nat i) in Hb by lia. rewrite Nat2Z.id in Hb.
  replace (Z.of_nat (length st) - 1 - (idx - 1 - Z.of_nat i)) with (Z.of_nat (length st) - n + (t + Z.of_nat i)) in Hb by lia. congruence.
Qed.

Lemma repl_ext r r' :
  has_master r = has_master r' -> slaveseldb r = slaveseldb r' -> master_repl_offset r = master_repl_offset r' ->
  repl_backlog r = repl_backlog r' -> repl_backlog_size r = repl_backlog_size r' -> repl_backlog_histlen r = repl_backlog_histlen r' ->
  repl_backlog_idx r = repl_backlog_idx r' -> repl_backlog_off r = repl_backlog_off r' -> replid r = replid r' ->
  replid2 r = replid2 r' -> second_replid_offset r = second_replid_offset r' -> slaves r = slaves r' -> stream r = stream r' -> r = r'.
Proof. destruct r, r'. cbn. intros. by subst. Qed.

(** ** The invariant *)

(** The backlog, if there is one, holds the end of the stream. *)
Definition backlog_ok (r : repl) : Prop :=
  forall b, repl_backlog r = Some b ->
    ring (repl_backlog_size r) b (repl_backlog_histlen r) (repl_backlog_idx r) (stream r) /\
    repl_backlog_off r = master_repl_offset r - repl_backlog_histlen r + 1.

(** A slave that is fed has the stream from its offset on; while the dump is made or sent
    that is the offset in the +FULLRESYNC reply. *)
Definition slave_ok (off : Z) (st : list Z) (s : slave) : Prop :=
  if bool_decide (replstate s = WAIT_BGSAVE_START) then output s = []
  else 0 <= off - start s <= Z.of_nat (length st) /\ output s = lastn (off - start s) st /\
       (replstate s = ONLINE \/ start s = psync_initial_offset s).

Record repl_ok (r : repl) : Prop := {
  ro_size : 0 < repl_backlog_size r;
  ro_backlog : backlog_ok r;
  ro_slaves : slaves r <> [] -> is_Some (repl_backlog r);
  ro_output : Forall (slave_ok (master_repl_offset r) (stream r)) (slaves r);
  ro_ids : NoDup (map slave_id (slaves r))
}.

(** Feeding the backlog changes nothing but the backlog. *)
Definition fed (r r' : repl) (p : list Z) : Prop :=
  (exists b h i o, r' = with_backlog (with_fed r p) (Some b) h i o) /\ is_Some (repl_backlog r) /\ backlog_ok r'.

Lemma feed_spec r p : 0 < repl_backlog_size r -> backlog_ok r -> is_Some (repl_backlog r) ->
  exists r', feedReplicationBacklog r p = Some r' /\ fed r r' p.
Proof.
  intros Hs Hok [b Eb]. destruct (Hok b Eb) as [R Eo]. unfold feedReplicationBacklog. rewrite Eb. mred.
  cbn [with_fed repl_backlog_size repl_backlog_idx repl_backlog_histlen].
  pose proof (ring_hist _ _ _ _ _ R) as Hh.
  destruct (feed_loop_spec (length p) _ _ _ _ (repl_backlog_histlen r) p _ R ltac:(lia) ltac:(lia)) as (b' & i' & E & R').
  rewrite E. mred. eexists. split; [done|]. split; [eauto 10|]. split; [done|]. intros b2 E2. cbn in E2 |- *. injection E2 as <-.
  split; [|done]. destruct (Z.ltb_spec (repl_backlog_size r) (repl_backlog_histlen r + Z.of_nat (length p)));
    [rewrite Z.min_l in R' by lia|rewrite Z.min_r in R' by lia]; done.
Qed.

Lemma fed_size r r' p : fed r r' p -> repl_backlog_size r' = repl_backlog_size r /\ is_Some (repl_backlog r').
Proof. intros [(b & h & i & o & ->) _]. cbn. eauto. Qed.

Lemma fed_trans r r1 r2 p q : fed r r1 p -> fed r1 r2 q -> fed r r2 (p ++ q).
Proof.
  intros [(b & h & i & o & ->) [Hb H1]] [(b2 & h2 & i2 & o2 & ->) [_ H2]]. split; [|done]. exists b2, h2, i2, o2.
  apply repl_ext; try reflexivity; cbn; [rewrite length_app; lia|by rewrite app_assoc].
Qed.

Lemma feed_next r r1 p q : 0 < repl_backlog_size r -> fed r r1 p ->
  exists r2, feedReplicationBacklog r1 q = Some r2 /\ fed r r2 (p ++ q).
Proof.
  intros Hs F. destruct (fed_size _ _ _ F) as [Es Hb].
  destruct (feed_spec r1 q) as (r2 & E & F2); [by rewrite Es|by destruct F as (_ & _ & ?)|done|].
  exists r2. split; [done|]. by eapply fed_trans.
Qed.

(** ** The encoding of commands *)

(** The text of an object. *)
Definition robj_text (o : robj) : list Z := match o with OSds s => s | OInt n => decimal n end.
Definition robj_ok (o : robj) : Prop :=
  match o with OSds s => Z.of_nat (length s) <= LLONG_MAX | OInt n => LLONG_MIN <= n <= LLONG_MAX end.

Lemma robj_len o : robj_ok o -> Z.of_nat (length (robj_text o)) <= LLONG_MAX.
Proof. destruct o as [s|n]; cbn; [done|]. intros Hn. pose proof (decimal_bounds n Hn). lia. Qed.

Lemma aux_hdr_spec p n : 0 <= n <= LLONG_MAX -> aux_hdr p n = Some (enc_hdr p n).
Proof.
  intros Hn. unfold aux_hdr. destruct (ll2string_text 23 n) as (b & E & _ & Er); [lia..|].
  change (Z.of_nat 23) with (LONG_STR_SIZE + 2) in E. change (Z.to_nat (LONG_STR_SIZE + 2)) with 23%nat. rewrite E. mred. by rewrite Er.
Qed.

Lemma count_digits_spec fuel n len : 0 <= n < 10 ^ Z.of_nat fuel -> (0 < fuel)%nat ->
  count_digits fuel n len = Some (len - 1 + Z.of_nat (length (udecimal n))).
Proof.
  revert n len. induction fuel as [|fuel IH]; intros n len Hn Hf; [lia|]. cbn [count_digits]. rewrite Z.quot_div_nonneg by lia.
  destruct (Z.ltb_spec n 10) as [Hs|Hs].
  - rewrite Z.div_small by lia. cbn [Z.eqb]. rewrite udecimal_small by lia. cbn [length]. f_equal. lia.
  - assert (1 <= n / 10) by (apply Z.div_le_lower_bound; lia). rewrite (proj2 (Z.eqb_neq _ _)) by lia.
    rewrite Nat2Z.inj_succ, Z.pow_succ_r in Hn by lia.
    assert (Hd : n / 10 < 10 ^ Z.of_nat fuel) by (apply Z.div_lt_upper_bound; lia).
    destruct fuel as [|f]; [change (10 ^ Z.of_nat 0) with 1 in Hd; lia|]. rewrite IH by lia.
    rewrite (udecimal_step n) by lia. rewrite length_app. cbn [length]. f_equal. lia.
Qed.

Lemma bulk_len_spec o : robj_ok o -> bulk_len o = Some (Z.of_nat (length (robj_text o))).
Proof.
  destruct o as [s|n]; [done|]. cbn [robj_ok robj_text bulk_len]. intros Hn.
  unfold decimal. destruct (Z.ltb_spec n 0) as [H0|H0]; [|rewrite count_digits_spec by lia; f_equal; lia].
  cbn [length]. destruct (Z.eq_dec n LLONG_MIN) as [->|Hm].
  { change (s64 (- LLONG_MIN)) with LLONG_MIN. vm_compute. done. }
  rewrite wraps_small by (pow2; lia). rewrite count_digits_spec by lia. f_equal. lia.
Qed.

Lemma shared_hdr_spec p n : shared_hdr p n = enc_hdr p n.
Proof. done. Qed.

Lemma long_prefix_spec n p : 0 <= n <= LLONG_MAX -> addReplyLongLongWithPrefix n p = Some (enc_hdr p n).
Proof.
  intros Hn. unfold addReplyLongLongWithPrefix.
  destruct (Z.eqb_spec p 42) as [->|]; cbn [andb Z.eqb Pos.eqb].
  all: repeat match goal with |- context [if ?c then _ else _] => destruct c eqn:? end; try done.
  all: try (apply andb_true_iff in Heqb as [Heqb _]; apply andb_true_iff in Heqb as [Heqb _]; apply Z.eqb_eq in Heqb as ->; done).
  all: destruct (ll2string_text 127 n) as (b & E & _ & Er); [lia..|]; change (Z.of_nat 127) with 127 in E; rewrite E; mred; by rewrite Er.
Qed.

Lemma multi_bulk_spec n : 0 <= n <= LLONG_MAX -> addReplyMultiBulkLen n = Some (enc_hdr 42 n).
Proof.
  intros Hn. unfold addReplyMultiBulkLen. rewrite (proj2 (Z.ltb_ge n 0)) by lia.
  destruct (n <? OBJ_SHARED_BULKHDR_LEN); [done|by apply long_prefix_spec].
Qed.

Lemma reply_bulk_spec o : robj_ok o -> addReplyBulk o = Some (enc_arg (robj_text o)).
Proof.
  intros Ho. pose proof (robj_len o Ho) as Hl. unfold addReplyBulk, addReplyBulkLen. rewrite bulk_len_spec by done. mred.
  assert (E : (if Z.of_nat (length (robj_text o)) <? OBJ_SHARED_BULKHDR_LEN then Some (shared_hdr 36 (Z.of_nat (length (robj_text o))))
               else addReplyLongLongWithPrefix (Z.of_nat (length (robj_text o))) 36) = Some (enc_hdr 36 (Z.of_nat (length (robj_text o))))).
  { destruct (_ <? _); [done|by apply long_prefix_spec; lia]. }
  rewrite E. mred. assert (Et : addReply_text o = Some (robj_text o)).
  { destruct o as [s|n]; [done|]. cbn [addReply_text robj_text]. destruct (ll2string_text 32 n Ho) as (b & Eb & _ & Er); [lia|].
    change (Z.of_nat 32) with 32 in Eb. rewrite Eb. mred. done. }
  rewrite Et. done.
Qed.

Lemma reply_args_spec argv : Forall robj_ok argv -> reply_args argv = Some (enc_args (map robj_text argv)).
Proof.
  induction 1 as [|o argv Ho _ IH]; [done|]. cbn [reply_args map]. rewrite reply_bulk_spec, IH by done. mred. done.
Qed.

Lemma select_cmd_spec n db : (20 < n)%nat -> LLONG_MIN <= db <= LLONG_MAX ->
  select_cmd (Z.of_nat n) db = Some (enc_cmd [lit "SELECT"; decimal db]).
Proof.
  intros Hn Hdb. unfold select_cmd. rewrite Nat2Z.id. destruct (ll2string_text n db Hdb Hn) as (b & E & _ & Er). rewrite E. mred. rewrite Er. mred. f_equal.
  unfold select_text, enc_cmd, enc_args, enc_arg. cbn [map concat length]. rewrite app_nil_r. unfold enc_hdr.
  change (decimal (Z.of_nat 2)) with [50]. change (Z.of_nat (length (lit "SELECT"))) with 6. change (decimal 6) with [54].
  set (d := decimal db). cbn [app lit map String.list_ascii_of_string]. by rewrite <-!app_assoc.
Qed.

(** ** Propagation *)

Lemma feed_object_next r r1 p o : 0 < repl_backlog_size r -> robj_ok o -> fed r r1 p ->
  exists r2, feedReplicationBacklogWithObject r1 o = Some r2 /\ fed r r2 (p ++ robj_text o).
Proof.
  intros Hs Ho F. destruct o as [s|n]; cbn [feedReplicationBacklogWithObject robj_text]; [by apply feed_next|].
  destruct (ll2string_text 21 n Ho) as (b & E & _ & Er); [lia|]. change (Z.of_nat 21) with LONG_STR_SIZE in E.
  change (Z.to_nat LONG_STR_SIZE) with 21%nat. rewrite E. mred. rewrite Er. mred. by apply feed_next.
Qed.

Lemma feed_args_next r r1 p argv : 0 < repl_backlog_size r -> Forall robj_ok argv -> fed r r1 p ->
  exists r2, feed_args r1 argv = Some r2 /\ fed r r2 (p ++ enc_args (map robj_text argv)).
Proof.
  intros Hs Ha. revert r1 p. induction Ha as [|o argv Ho _ IH]; intros r1 p F; cbn [feed_args map].
  { exists r1. split; [done|]. unfold enc_args. cbn [map concat]. by rewrite app_nil_r. }
  assert (El : stringObjectLen o = Some (Z.of_nat (length (robj_text o)))).
  { destruct o as [s|n]; [done|]. by apply sdigits10_spec. }
  pose proof (robj_len o Ho). rewrite El. mred. rewrite aux_hdr_spec by lia. mred.
  destruct (feed_next _ _ _ (enc_hdr 36 (Z.of_nat (length (robj_text o)))) Hs F) as (r2 & E2 & F2). rewrite E2. mred.
  destruct (feed_object_next _ _ _ o Hs Ho F2) as (r3 & E3 & F3). rewrite E3. mred.
  destruct (feed_next _ _ _ [13; 10] Hs F3) as (r4 & E4 & F4). rewrite E4. mred.
  destruct (IH _ _ F4) as (r5 & E5 & F5). exists r5. split; [done|].
  unfold enc_args in *. cbn [map concat]. unfold enc_arg at 1. by rewrite <-!app_assoc in *.
Qed.

(** The commands a propagation puts in the stream. *)
Definition propagated (r : repl) (dictid : Z) (argv : list robj) : list (list (list Z)) :=
  (if slaveseldb r =? dictid then [] else [[lit "SELECT"; decimal dictid]]) ++ [map robj_text argv].

(** The state after the bytes [p] went to the backlog and to the slaves. *)
Definition streamed (r r' : repl) (p : list Z) (db : Z) : Prop :=
  exists b h i o, r' = with_seldb (with_backlog (with_fed (with_slaves r (feed_slaves (slaves r) p)) p) (Some b) h i o) db /\ backlog_ok r'.

Lemma feed_slaves_app l p q : feed_slaves (feed_slaves l p) q = feed_slaves l (p ++ q).
Proof.
  unfold feed_slaves. rewrite map_map. apply map_ext. intros s. repeat case_bool_decide; try done. cbn. by rewrite app_assoc.
Qed.

Lemma feed_slaves_nil l : feed_slaves l [] = l.
Proof.
  unfold feed_slaves. induction l as [|s l IH]; cbn [map]; [done|]. rewrite IH. f_equal. case_bool_decide; [done|].
  destruct s. cbn. by rewrite app_nil_r.
Qed.

Definition argv_ok (argv : list robj) : Prop := Z.of_nat (length argv) <= INT32_MAX /\ Forall robj_ok argv.

Lemma select_step r dictid : 0 < repl_backlog_size r -> backlog_ok r -> is_Some (repl_backlog r) -> INT32_MIN <= dictid <= INT32_MAX ->
  exists r', (if negb (slaveseldb r =? dictid) then
         selectcmd ← (if (0 <=? dictid) && (dictid <? PROTO_SHARED_SELECT_CMDS) then select_cmd 64 dictid
                      else select_cmd LONG_STR_SIZE dictid);
         r ← (if bool_decide (is_Some (repl_backlog r)) then feedReplicationBacklogWithObject r (OSds selectcmd) else Some r);
         Some (with_slaves r (feed_slaves (slaves r) selectcmd))
       else Some r) = Some r' /\
   exists r1, let p := enc_cmds (if slaveseldb r =? dictid then [] else [[lit "SELECT"; decimal dictid]]) in
    fed r r1 p /\ r' = with_slaves r1 (feed_slaves (slaves r) p).
Proof.
  intros Hs Hok Hb Hd. destruct (slaveseldb r =? dictid); cbn [negb].
  - eexists. split; [done|]. exists r. change (enc_cmds []) with (@nil Z). cbv zeta. rewrite feed_slaves_nil. destruct r; cbn in *.
    split; [|done]. destruct Hb as [b ->]. split; [|done]. exists b. do 3 eexists. unfold with_backlog, with_fed. cbn. f_equal; [lia|by rewrite app_nil_r].
  - assert (E : (if (0 <=? dictid) && (dictid <? PROTO_SHARED_SELECT_CMDS) then select_cmd 64 dictid
                 else select_cmd LONG_STR_SIZE dictid) = Some (enc_cmd [lit "SELECT"; decimal dictid])).
    { destruct (_ && _); [apply (select_cmd_spec 64); lia|apply (select_cmd_spec 21); lia]. }
    rewrite E. mred. set (p := enc_cmd [lit "SELECT"; decimal dictid]) in *. rewrite bool_decide_true by done. cbn [feedReplicationBacklogWithObject].
    destruct (feed_spec r p Hs Hok Hb) as (r1 & E1 & F). rewrite E1. mred.
    eexists. split; [done|]. exists r1. cbv zeta. unfold enc_cmds. cbn [map concat]. fold p. rewrite app_nil_r. split; [done|].
    f_equal. f_equal. destruct F as [(b & h & i & o & ->) _]. done.
Qed.

Lemma propagate_spec r dictid argv : repl_ok r -> is_Some (repl_backlog r) -> has_master r = false ->
  INT32_MIN <= dictid <= INT32_MAX -> argv_ok argv ->
  exists r', replicationFeedSlaves r dictid argv = Some r' /\ streamed r r' (enc_cmds (propagated r dictid argv)) dictid.
Proof.
  intros Hok Hb Hm Hd [Hn Ha]. unfold replicationFeedSlaves. rewrite Hm.
  assert (En : bool_decide (repl_backlog r = None) = false) by (rewrite bool_decide_false; [done|intros E; destruct Hb; congruence]).
  rewrite En. cbn [andb]. rewrite andb_false_r.
  destruct (select_step r dictid (ro_size _ Hok) (ro_backlog _ Hok) Hb Hd) as (r' & E & r1 & F & ->). rewrite E. mred. clear E.
  unfold propagated. rewrite enc_cmds_app. set (p := enc_cmds (if slaveseldb r =? dictid then [] else _)) in *.
  destruct F as [(b & h & i & o & ->) [_ Hok1]].
  set (r2 := with_seldb _ dictid). assert (H2 : backlog_ok r2 /\ 0 < repl_backlog_size r2 /\ is_Some (repl_backlog r2)).
  { split; [done|]. split; [apply (ro_size _ Hok)|]. by eexists. }
  destruct H2 as (Hok2 & Hs2 & Hb2). rewrite (bool_decide_true (is_Some (repl_backlog r2))) by done.
  rewrite aux_hdr_spec by lia. mred.
  destruct (feed_spec r2 (enc_hdr 42 (Z.of_nat (length argv))) Hs2 Hok2 Hb2) as (r3 & E3 & F3). rewrite E3. mred.
  destruct (feed_args_next _ _ _ argv Hs2 Ha F3) as (r4 & E4 & F4). rewrite E4. mred.
  rewrite multi_bulk_spec by lia. mred. rewrite reply_args_spec by done. mred. eexists. split; [done|].
  replace (enc_cmds [map robj_text argv]) with (enc_hdr 42 (Z.of_nat (length argv)) ++ enc_args (map robj_text argv)).
  2: { unfold enc_cmds. cbn [map concat]. rewrite app_nil_r. unfold enc_cmd. by rewrite length_map. }
  set (q := enc_hdr 42 (Z.of_nat (length argv)) ++ enc_args (map robj_text argv)) in *.
  destruct F4 as [(b4 & h4 & i4 & o4 & ->) [_ Hok4]]. exists b4, h4, i4, o4. split; [|exact Hok4].
  clearbody q p. subst r2.
  apply repl_ext; try reflexivity; cbn; [rewrite length_app; lia|apply feed_slaves_app|by rewrite app_assoc].
Qed.

(** ** Operations preserve the invariant *)

Lemma lastn_0 st : lastn 0 st = [].
Proof. unfold lastn. apply drop_ge. lia. Qed.

Lemma streamed_ok r r' p db : repl_ok r -> is_Some (repl_backlog r) -> streamed r r' p db -> repl_ok r'.
Proof.
  intros [H1 H2 H3 H4 H5] Hb (b & h & i & o & E & Hok). split; [by subst r'|done|by subst r'; eexists| |].
  - subst r'. cbn. unfold feed_slaves. apply Forall_map. eapply Forall_impl; [exact H4|]. intros s. unfold slave_ok. cbn.
    case_bool_decide as Hw; cbn; [by rewrite bool_decide_true|]. rewrite bool_decide_false by done. intros (Hs & Ho & Hst).
    rewrite length_app. split; [lia|]. split; [|done].
    replace (master_repl_offset r + Z.of_nat (length p) - start s) with (master_repl_offset r - start s + Z.of_nat (length p)) by lia.
    rewrite <-lastn_app by lia. by rewrite Ho.
  - subst r'. cbn. unfold feed_slaves. rewrite map_map. replace (map _ (slaves r)) with (map slave_id (slaves r)); [done|].
    apply map_ext. intros s. by case_bool_decide.
Qed.

(** Fields the invariant does not mention. *)
Definition same_core (r r' : repl) : Prop :=
  repl_backlog_size r' = repl_backlog_size r /\ repl_backlog r' = repl_backlog r /\ repl_backlog_histlen r' = repl_backlog_histlen r /\
  repl_backlog_idx r' = repl_backlog_idx r /\ repl_backlog_off r' = repl_backlog_off r /\
  master_repl_offset r' = master_repl_offset r /\ stream r' = stream r.

Lemma core_ok r r' : same_core r r' -> repl_ok r -> (slaves r' <> [] -> is_Some (repl_backlog r')) ->
  Forall (slave_ok (master_repl_offset r) (stream r)) (slaves r') -> NoDup (map slave_id (slaves r')) -> repl_ok r'.
Proof.
  intros (E1 & E2 & E3 & E4 & E5 & E6 & E7) [H1 H2 H3 H4 H5] Hb Hs Hn. split; [congruence| |done|by rewrite E6, E7|done].
  intros b Eb. rewrite E1, E3, E4, E5, E6, E7. apply H2. congruence.
Qed.

(** Changes of the slaves one by one. *)
Lemma map_slaves_ok r r' f : same_core r r' -> repl_ok r -> slaves r' = omap f (slaves r) ->
  (forall s x, s ∈ slaves r -> f s = Some x -> slave_id x = slave_id s /\
     (slave_ok (master_repl_offset r) (stream r) s -> slave_ok (master_repl_offset r) (stream r) x)) -> repl_ok r'.
Proof.
  intros C Hok Es Hf. pose proof C as (_ & E2 & _). apply (core_ok r); [done|done|..]; rewrite Es.
  - intros Hne. rewrite E2. apply (ro_slaves _ Hok). intros E. by rewrite E in Hne.
  - apply Forall_forall. intros x (s & Hs & Ex)%list_elem_of_omap. apply (Hf s x Hs Ex). by eapply Forall_forall; [apply (ro_output _ Hok)|].
  - pose proof (ro_ids _ Hok) as Hn. clear Es C E2. induction (slaves r) as [|s l IH]; cbn; [constructor|].
    apply NoDup_cons in Hn as [Hnin Hn]. destruct (f s) as [x|] eqn:Ex; cbn; [|apply IH; [|done]; intros; eapply Hf; [by right|done]].
    apply NoDup_cons. split; [|apply IH; [|done]; intros; eapply Hf; [by right|done]]. destruct (Hf s x ltac:(by left) Ex) as [-> _].
    intros (y & Ey & Hy)%list_elem_of_fmap. apply list_elem_of_omap in Hy as (t & Ht & Et). destruct (Hf t y ltac:(by right) Et) as [Eyt _].
    apply Hnin. rewrite Ey, Eyt. by apply list_elem_of_fmap_2.
Qed.

Lemma map_as_omap {A B} (f : A -> B) (l : list A) : map f l = omap (fun x => Some (f x)) l.
Proof. induction l as [|x l IH]; cbn; [done|by rewrite IH]. Qed.

Lemma filter_as_omap {A} (P : A -> Prop) `{!forall x, Decision (P x)} (l : list A) : filter P l = omap (fun x => if decide (P x) then Some x else None) l.
Proof. induction l as [|x l IH]; [done|]. rewrite filter_cons. cbn [omap list_omap]. destruct (decide (P x)); cbn; by rewrite IH. Qed.

Lemma setup_slave_ok off st s : output s = [] -> slave_ok off st (setup_slave s off).
Proof. intros E. unfold slave_ok. cbn. rewrite Z.sub_diag, lastn_0, E. split; [lia|]. split; [done|by right]. Qed.

(** The slaves with the ids [ids] are set up. *)
Definition setup_ids (ids : list Z) (off : Z) (s : slave) : slave := if decide (slave_id s ∈ ids) then setup_slave s off else s.

Lemma setup_waiting_spec r l : exists db, (db = -1 \/ db = slaveseldb r /\ Forall (fun s => replstate s <> WAIT_BGSAVE_START) l) /\
  foldl (fun r s => if bool_decide (replstate s = WAIT_BGSAVE_START)
                    then replicationSetupSlaveForFullResync r (slave_id s) (master_repl_offset r) else r) r l =
  with_seldb (with_slaves r (map (setup_ids (map slave_id (filter (fun s => replstate s = WAIT_BGSAVE_START) l)) (master_repl_offset r)) (slaves r))) db.
Proof.
  revert r. induction l as [|s l IH]; intros r; cbn [foldl].
  { exists (slaveseldb r). split; [right; by split; [|constructor]|]. destruct r. unfold with_seldb, with_slaves. cbn. f_equal. symmetry. apply list_fmap_id. }
  rewrite filter_cons. case_bool_decide as Hw; [rewrite decide_True by done|rewrite decide_False by done].
  2: { destruct (IH r) as (db&Hdb&E). exists db. split; [|done]. destruct Hdb as [?|[? ?]]; [auto|]. right. split; [done|by constructor]. }
  destruct (IH (replicationSetupSlaveForFullResync r (slave_id s) (master_repl_offset r))) as (db&Hdb&->). exists db.
  split; [left; destruct Hdb as [?|[? _]]; done|].
  unfold replicationSetupSlaveForFullResync, with_seldb, with_slaves. cbn. f_equal. rewrite map_map. apply map_ext. intros x.
  unfold setup_ids. cbn [map]. destruct (Z.eqb_spec (slave_id x) (slave_id s)) as [E|E].
  - cbn. rewrite (decide_True (P := slave_id x ∈ slave_id s :: _)) by (rewrite E; by left). by destruct (decide _).
  - destruct (decide (slave_id x ∈ map _ _)) as [Hi|Hi]; [rewrite decide_True by (by right); done|].
    rewrite decide_False; [done|]. intros [?|?]%elem_of_cons; done.
Qed.

Lemma same_id_slave r s t : repl_ok r -> s ∈ slaves r -> t ∈ slaves r -> slave_id s = slave_id t -> s = t.
Proof.
  intros Hok. pose proof (ro_ids _ Hok) as Hn. induction (slaves r) as [|x l IH]; [intros []%elem_of_nil|].
  cbn in Hn. apply NoDup_cons in Hn as [Hx Hn]. intros [->|Hs]%elem_of_cons [->|Ht]%elem_of_cons E; [done|..|by apply IH].
  - destruct Hx. rewrite E. by apply list_elem_of_fmap_2.
  - destruct Hx. rewrite <-E. by apply list_elem_of_fmap_2.
Qed.

Lemma start_bgsave_ok r ok : repl_ok r -> repl_ok (startBgsaveForReplication r ok).
Proof.
  intros Hok. unfold startBgsaveForReplication. destruct ok.
  - unfold setup_waiting. destruct (setup_waiting_spec r (slaves r)) as (db&_&->).
    eapply (map_slaves_ok r); [by split_and!|done|apply map_as_omap|]. cbn. intros s x Hs [= <-]. unfold setup_ids.
    destruct (decide _) as [Hi|]; [|done]. split; [done|]. apply list_elem_of_fmap in Hi as (t & Et & Ht).
    apply list_elem_of_filter in Ht as [Hw Ht]. rewrite (same_id_slave r s t Hok Hs Ht Et). unfold slave_ok at 1.
    rewrite bool_decide_true by done. apply setup_slave_ok.
  - eapply (map_slaves_ok r); [by split_and!|done|apply filter_as_omap|]. cbn. intros s x Hs. by case_decide; intros [= <-].
Qed.

Lemma create_backlog_ok r b : repl_ok r -> repl_backlog r = None -> Z.of_nat (length b) = repl_backlog_size r ->
  exists r', createReplicationBacklog r b = Some r' /\ repl_ok r' /\ is_Some (repl_backlog r') /\ slaves r' = slaves r.
Proof.
  intros [H1 H2 H3 H4 H5] En Hb. unfold createReplicationBacklog. rewrite bool_decide_false by (rewrite En; by intros []).
  eexists. split; [done|]. split; [|by split; [eexists|]]. split; [done| |by eexists|done|done].
  intros b' E. cbn in E |- *. injection E as <-. split; [by apply ring_empty|]. lia.
Qed.

(** What a slave is sent by a partial resynchronisation. *)
Lemma backlog_reply_spec r b offset : backlog_ok r -> repl_backlog r = Some b -> 0 < repl_backlog_size r ->
  repl_backlog_off r <= offset <= repl_backlog_off r + repl_backlog_histlen r ->
  let n := master_repl_offset r + 1 - offset in
  0 <= n <= Z.of_nat (length (stream r)) /\ addReplyReplicationBacklog r offset = Some (lastn n (stream r), n).
Proof.
  intros Hok Eb Hs Ho n. destruct (Hok b Eb) as [R Eo]. pose proof (ring_hist _ _ _ _ _ R) as Hh. pose proof (ring_idx _ _ _ _ _ R) as Hi.
  split; [lia|]. unfold addReplyReplicationBacklog. rewrite Eb. mred. destruct (Z.eqb_spec (repl_backlog_histlen r) 0) as [E0|E0].
  { assert (Hn : n = 0) by lia. by rewrite Hn, lastn_0. }
  set (size := repl_backlog_size r) in *. set (h := repl_backlog_histlen r) in *. set (idx := repl_backlog_idx r) in *.
  replace (h - (offset - repl_backlog_off r)) with n by lia.
  destruct (Z.eq_dec n 0) as [En|En]; [rewrite En; cbn [backlog_loop Z.eqb]; mred; by rewrite lastn_0|].
  assert (Ej : Z.rem (Z.rem (idx + (size - h)) size + (offset - repl_backlog_off r)) size = if n <=? idx then idx - n else idx - n + size).
  { rewrite (Z.rem_mod_nonneg (idx + _)), Z.rem_mod_nonneg by (pose proof (Z.mod_pos_bound (idx + (size - h)) size); lia).
    rewrite Z.add_mod_idemp_l by lia. replace (idx + (size - h) + (offset - repl_backlog_off r)) with (idx - n + size) by lia.
    destruct (Z.leb_spec n idx); [|by rewrite Z.mod_small by lia]. replace (idx - n + size) with (idx - n + 1 * size) by lia.
    by rewrite Z.mod_add, Z.mod_small by lia. }
  rewrite Ej. rewrite (backlog_loop_spec size b h idx (stream r) n R) by lia. mred. done.
Qed.

Lemma psync_ok_window r id off : psync_ok r id off = true ->
  is_Some (repl_backlog r) /\ repl_backlog_off r <= off <= repl_backlog_off r + repl_backlog_histlen r.
Proof. unfold psync_ok. intros H. zbool. apply bool_decide_eq_true in H2. split; [done|lia]. Qed.

(** A new slave at the end of the list. *)
Lemma add_slave_ok r s : repl_ok r -> is_Some (repl_backlog r) -> slave_id s ∉ map slave_id (slaves r) ->
  slave_ok (master_repl_offset r) (stream r) s -> repl_ok (with_slaves r (slaves r ++ [s])).
Proof.
  intros Hok Hb Hid Hs. apply (core_ok r); [by split_and!|done|done| |]; cbn.
  - apply Forall_app. split; [apply (ro_output _ Hok)|by constructor].
  - rewrite map_app. apply NoDup_app. split; [apply (ro_ids _ Hok)|]. split; [|apply NoDup_singleton].
    intros x Hx ->%list_elem_of_singleton. done.
Qed.

Lemma partial_ok r id capa mid off : repl_ok r -> id ∉ map slave_id (slaves r) -> psync_ok r mid off = true ->
  exists r', masterTryPartialResynchronization r id capa mid (Some off) = Some (r', true, []) /\ repl_ok r' /\
    slaves r' = slaves r ++ [Slave id ONLINE 0 capa (lastn (master_repl_offset r + 1 - off) (stream r)) (off - 1)].
Proof.
  intros Hok Hid Hp. destruct (psync_ok_window _ _ _ Hp) as [[b Eb] Hw]. unfold masterTryPartialResynchronization. rewrite Hp.
  destruct (backlog_reply_spec r b off (ro_backlog _ Hok) Eb (ro_size _ Hok) Hw) as [Hn E]. rewrite E. mred.
  eexists. split; [done|]. split; [|done]. apply add_slave_ok; [done|by eexists|done|]. unfold slave_ok. cbn.
  replace (master_repl_offset r - (off - 1)) with (master_repl_offset r + 1 - off) by lia. split; [lia|]. split; [done|by left].
Qed.

(** The copy of the output of a slave that waits for the same dump. *)
Lemma attach_ok r id capa s : repl_ok r -> s ∈ slaves r -> replstate s = WAIT_BGSAVE_END ->
  repl_ok (replicationSetupSlaveForFullResync
    (with_slaves r (map (fun x => if slave_id x =? id then Slave id (replstate x) (psync_initial_offset x) capa (output s) (start x) else x) (slaves r)))
    id (psync_initial_offset s)).
Proof.
  intros Hok Hs Hw. unfold replicationSetupSlaveForFullResync. eapply (map_slaves_ok r); [by split_and!|done| |].
  { cbn. rewrite map_map. apply map_as_omap. }
  cbn. intros x y Hx [= <-]. destruct (Z.eqb_spec (slave_id x) id) as [E|E]; cbn.
  - rewrite Z.eqb_refl. cbn. split; [done|]. intros _. pose proof (proj1 (Forall_forall _ _) (ro_output _ Hok) s Hs) as So.
    unfold slave_ok in So |- *. rewrite Hw in So. cbn in So |- *. destruct So as (H1 & H2 & [H3|H3]); [done|].
    rewrite H3 in *. split; [done|]. split; [done|by right].
  - rewrite (proj2 (Z.eqb_neq _ _)) by done. done.
Qed.

(** The new slave in the list, and the backlog if it is the first one. *)
Lemma full_attach r id capa newid b : repl_ok r -> id ∉ map slave_id (slaves r) -> Z.of_nat (length b) = repl_backlog_size r ->
  let s0 := Slave id WAIT_BGSAVE_START 0 capa [] 0 in
  exists r1, (if bool_decide (length (slaves r ++ [s0]) = 1%nat) && bool_decide (repl_backlog r = None)
      then createReplicationBacklog (clearReplicationId2 (changeReplicationId (with_slaves r (slaves r ++ [s0])) newid)) b
      else Some (with_slaves r (slaves r ++ [s0]))) = Some r1 /\
    repl_ok r1 /\ slaves r1 = slaves r ++ [s0] /\ has_master r1 = has_master r /\ slaveseldb r1 = slaveseldb r.
Proof.
  intros Hok Hid Hb s0. assert (Hs0 : slave_ok (master_repl_offset r) (stream r) s0) by done.
  destruct (repl_backlog r) as [b0|] eqn:Eb.
  - rewrite (bool_decide_false (Some b0 = None)) by done. rewrite andb_false_r. eexists. split; [done|]. split; [|done].
    apply add_slave_ok; [done|by rewrite Eb; eexists|done|done].
  - destruct (slaves r) as [|s l] eqn:Es; [|exfalso; destruct (ro_slaves _ Hok) as [? ?]; [by rewrite Es|congruence]].
    cbn. unfold createReplicationBacklog. cbn. rewrite Eb. rewrite bool_decide_true, (bool_decide_false (is_Some None)) by (done || by intros []). cbn [andb]. eexists. split; [done|].
    split; [|done].
    destruct Hok as [G1 G2 G3 G4 G5]. split; [done| |by eexists|by constructor|apply NoDup_singleton].
    intros b' E. cbn in E |- *. injection E as <-. split; [by apply ring_empty|]. lia.
Qed.

Lemma full_sync_ok r id capa newid b child diskless aof ok : repl_ok r -> id ∉ map slave_id (slaves r) ->
  Z.of_nat (length b) = repl_backlog_size r ->
  exists r', fullSync r id capa [] newid b child diskless aof ok = Some r' /\ repl_ok r'.
Proof.
  intros Hok Hid Hb. unfold fullSync. cbn [slaves with_slaves repl_backlog].
  destruct (full_attach r id capa newid b Hok Hid Hb) as (r1 & -> & Hok1 & _). mred. destruct child; [| |by eauto].
  - eexists. split; [done|]. destruct (_ || _); [done|by apply start_bgsave_ok].
  - destruct (list_find _ (slaves r1)) as [[i s]|] eqn:Ef; [|by eauto]. destruct (_ =? _); [|by eauto].
    eexists. split; [done|]. apply list_find_Some in Ef as (Hi & Hw & _). apply attach_ok; [done| |done]. by eapply list_elem_of_lookup_2.
Qed.

Lemma sync_ok r id capa connected pending psync newid b child diskless aof ok :
  repl_ok r -> Z.of_nat (length b) = repl_backlog_size r -> (forall mid off, psync = Some (mid, off) -> is_Some off) ->
  exists r', syncCommand r id capa connected pending psync newid b child diskless aof ok = Some r' /\ repl_ok r'.
Proof.
  intros Hok Hb Hp. unfold syncCommand. case_bool_decide as Hid; [by eauto|]. destruct (_ && _); [by eauto|]. destruct pending; [by eauto|].
  destruct psync as [[mid off]|]; [|by apply full_sync_ok]. destruct (Hp mid off eq_refl) as [o ->].
  destruct (psync_ok r mid o) eqn:E.
  - destruct (partial_ok r id capa mid o Hok Hid E) as (r' & -> & Hok' & _). mred. eauto.
  - cbn [masterTryPartialResynchronization]. rewrite E. mred. by apply full_sync_ok.
Qed.

(** ** Runs *)

Inductive rop :=
  | Propagate (dictid : Z) (argv : list robj)
  | MasterStream (buf : list Z)
  | Resize (newsize : Z) (b : list Z)
  | Sync (id capa : Z) (connected pending : bool) (psync : option (list Z * option Z)) (newid b : list Z)
      (child : rdbChild) (diskless aof_child bgsave_ok : bool)
  | PutOnline (id : Z)
  | FreeSlave (id : Z)
  | BgsaveDone (ok : bool) (type : rdbChild) (opened : Z -> bool) (bgsave_ok : bool)
  | CronBacklog (newid : list Z) (expired : bool)
  | CronPing
  | CronBgsave (due bgsave_ok : bool)
  | SetMaster
  | UnsetMaster (newid : list Z)
  | Continue (cached : list Z) (new : option (list Z)) (b : list Z)
  | PrepareFull
  | FinishFull (id : list Z) (reploff : Z) (b : list Z).

Definition run_op (r : repl) (op : rop) : option repl :=
  match op with
  | Propagate dictid argv => replicationFeedSlaves r dictid argv
  | MasterStream buf => replicationFeedSlavesFromMasterStream r buf
  | Resize newsize b => Some (resizeReplicationBacklog r newsize b)
  | Sync id capa connected pending psync newid b child diskless aof_child bgsave_ok =>
      syncCommand r id capa connected pending psync newid b child diskless aof_child bgsave_ok
  | PutOnline id => Some (putSlaveOnline r id)
  | FreeSlave id => Some (freeSlave r id)
  | BgsaveDone ok type opened bgsave_ok => Some (updateSlavesWaitingBgsave r ok type opened bgsave_ok)
  | CronBacklog newid expired => cron_backlog r newid expired
  | CronPing => cron_ping r
  | CronBgsave due bgsave_ok => Some (cron_bgsave r due bgsave_ok)
  | SetMaster => Some (replicationSetMaster r)
  | UnsetMaster newid => Some (replicationUnsetMaster r newid)
  | Continue cached new b => psync_continue r cached new b
  | PrepareFull => prepare_full r
  | FinishFull id reploff b => finish_full r id reploff b
  end.

(** Allocated memory has the size asked for, sizes of commands are those of C, and an event
    only happens in a state in which the code installs its handler. *)
Definition op_ok (r : repl) (op : rop) : Prop :=
  match op with
  | Propagate dictid argv => INT32_MIN <= dictid <= INT32_MAX /\ argv_ok argv
  | Resize newsize b => Z.of_nat (length b) = Z.max newsize CONFIG_REPL_BACKLOG_MIN_SIZE
  | Sync _ _ _ _ psync _ b _ _ _ _ => Z.of_nat (length b) = repl_backlog_size r /\ forall mid off, psync = Some (mid, off) -> is_Some off
  | PutOnline id => Forall (fun s => slave_id s = id -> replstate s = SEND_BULK \/ replstate s = ONLINE) (slaves r)
  | CronPing => INT32_MIN <= slaveseldb r <= INT32_MAX
  | Continue _ _ b => Z.of_nat (length b) = repl_backlog_size r
  | FinishFull _ _ b => Z.of_nat (length b) = repl_backlog_size r /\ repl_backlog r = None
  | _ => True
  end.

Fixpoint run_ops (r : repl) (ops : list rop) : option repl :=
  match ops with [] => Some r | op :: ops => r ← run_op r op; run_ops r ops end.

Fixpoint ops_ok (r : repl) (ops : list rop) : Prop :=
  match ops with [] => True | op :: ops => op_ok r op /\ forall r', run_op r op = Some r' -> ops_ok r' ops end.

Lemma no_slaves r : repl_ok r -> repl_backlog r = None -> slaves r = [].
Proof.
  intros Hok En. destruct (slaves r) as [|s l] eqn:Es; [done|]. destruct (ro_slaves _ Hok) as [? ?]; [by rewrite Es|congruence].
Qed.

Lemma core_no_slaves r r' : same_core r r' -> repl_ok r -> slaves r' = [] -> repl_ok r'.
Proof. intros C Hok E. apply (core_ok r); [done|done|..]; rewrite E; [done|constructor|constructor]. Qed.

Lemma propagate_ok r dictid argv : repl_ok r -> INT32_MIN <= dictid <= INT32_MAX -> argv_ok argv ->
  exists r', replicationFeedSlaves r dictid argv = Some r' /\ repl_ok r'.
Proof.
  intros Hok Hd Ha. destruct (has_master r) eqn:Em; [unfold replicationFeedSlaves; rewrite Em; by eauto|].
  destruct (repl_backlog r) as [b|] eqn:Eb.
  - destruct (propagate_spec r dictid argv) as (r1 & E & St); [done|rewrite Eb; by eexists|done|done|done|]. exists r1. split; [done|].
    eapply streamed_ok; [done| |exact St]. rewrite Eb. by eexists.
  - unfold replicationFeedSlaves. rewrite Em, Eb, (no_slaves r) by done. cbn. eauto.
Qed.

Lemma master_stream_ok r buf : repl_ok r -> exists r', replicationFeedSlavesFromMasterStream r buf = Some r' /\ repl_ok r'.
Proof.
  intros Hok. unfold replicationFeedSlavesFromMasterStream. case_bool_decide as Hb.
  - destruct (feed_spec r buf (ro_size _ Hok) (ro_backlog _ Hok) Hb) as (r1 & E & (b & h & i & o & ->) & _ & Hok1). rewrite E. mred.
    eexists. split; [done|]. eapply (streamed_ok r _ buf (slaveseldb r)); [done|done|]. exists b, h, i, o. done.
  - eexists. split; [done|]. destruct (repl_backlog r) as [b|] eqn:Eb; [destruct Hb; by eexists|].
    apply (core_no_slaves r); [by split_and!|done|]. cbn. by rewrite (no_slaves r).
Qed.

Lemma resize_ok r newsize b : repl_ok r -> Z.of_nat (length b) = Z.max newsize CONFIG_REPL_BACKLOG_MIN_SIZE ->
  repl_ok (resizeReplicationBacklog r newsize b).
Proof.
  intros Hok Hb. unfold resizeReplicationBacklog. set (n := if newsize <? _ then _ else _).
  assert (Hn : Z.of_nat (length b) = n /\ 0 < n) by (unfold n, CONFIG_REPL_BACKLOG_MIN_SIZE in *; destruct (Z.ltb_spec newsize (1024 * 16)); lia).
  destruct (_ =? _); [done|]. destruct Hok as [H1 H2 H3 H4 H5]. cbn [with_size repl_backlog]. destruct (repl_backlog r) as [b0|] eqn:Eb.
  - split; [cbn; lia| |by eexists|done|done]. intros b' E. cbn in E |- *. injection E as <-. split; [apply ring_empty; apply Hn|lia].
  - split; [cbn; lia| |cbn; by rewrite Eb|exact H4|exact H5]. intros b' E. cbn in E. congruence.
Qed.

Lemma slaves_map_ok r f : repl_ok r -> (forall s x, s ∈ slaves r -> f s = Some x -> slave_id x = slave_id s /\
     (slave_ok (master_repl_offset r) (stream r) s -> slave_ok (master_repl_offset r) (stream r) x)) -> repl_ok (with_slaves r (omap f (slaves r))).
Proof. intros Hok Hf. by apply (map_slaves_ok r _ f); [split_and!| | |]. Qed.

Lemma put_online_ok r id : repl_ok r -> op_ok r (PutOnline id) -> repl_ok (putSlaveOnline r id).
Proof.
  intros Hok Hst. unfold putSlaveOnline. rewrite map_as_omap. apply slaves_map_ok; [done|]. intros s x Hs [= <-].
  destruct (Z.eqb_spec (slave_id s) id) as [E|]; [|done]. split; [done|].
  pose proof (proj1 (Forall_forall _ _) Hst s Hs E) as H. unfold slave_ok. rewrite bool_decide_false by (by destruct H as [-> | ->]).
  cbn. intros (H1 & H2 & _). split; [done|]. split; [done|by left].
Qed.

Lemma bgsave_done_ok r ok type opened : repl_ok r -> repl_ok (with_slaves r (omap (bgsave_done ok type opened) (slaves r))).
Proof.
  intros Hok. apply slaves_map_ok; [done|]. intros s x Hs. unfold bgsave_done. case_bool_decide as Hw; [|intros [= <-]; done].
  assert (G : forall x, x = Slave (slave_id s) ONLINE (psync_initial_offset s) (slave_capa s) (output s) (start s) \/
      x = Slave (slave_id s) SEND_BULK (psync_initial_offset s) (slave_capa s) (output s) (start s) ->
      slave_id x = slave_id s /\ (slave_ok (master_repl_offset r) (stream r) s -> slave_ok (master_repl_offset r) (stream r) x)).
  { intros y [-> | ->]; (split; [done|]); unfold slave_ok; rewrite Hw; cbn; intros (H1 & H2 & [H3|H3]); (split; [done|]); (split; [done|]);
      first [done|by left|by right]. }
  destruct type; [| |intros [= <-]; apply G; by left]; (destruct ok; cbn [negb]; [|done]); (destruct (opened _); [|done]);
    intros [= <-]; apply G; by right.
Qed.

Lemma continue_ok r cached new b : repl_ok r -> Z.of_nat (length b) = repl_backlog_size r ->
  exists r', psync_continue r cached new b = Some r' /\ repl_ok r'.
Proof.
  intros Hok Hb. unfold psync_continue. set (r1 := match new with Some _ => _ | None => _ end).
  assert (H1 : repl_ok r1 /\ repl_backlog_size r1 = repl_backlog_size r).
  { subst r1. destruct new as [n|]; [case_bool_decide|]; [done| |done]. split; [|done]. by apply (core_no_slaves r); [split_and!| |]. }
  destruct H1 as [Hok1 Es]. case_bool_decide as En; [|by eauto].
  destruct (create_backlog_ok r1 b Hok1 En) as (r' & E & Hok' & _); [congruence|]. eauto.
Qed.

Lemma finish_ok r id off b : repl_ok r -> Z.of_nat (length b) = repl_backlog_size r -> repl_backlog r = None ->
  exists r', finish_full r id off b = Some r' /\ repl_ok r'.
Proof.
  intros Hok Hb En. unfold finish_full. set (r1 := clearReplicationId2 _). assert (Hok1 : repl_ok r1).
  { pose proof (no_slaves r Hok En) as Es. destruct Hok as [H1 H2 H3 H4 H5]. split; [done| | | |]; cbn; rewrite ?Es; [|done|constructor|constructor].
    intros b' E. cbn in E. congruence. }
  change (repl_backlog r1) with (repl_backlog r). rewrite bool_decide_true by done.
  destruct (create_backlog_ok r1 b Hok1 En Hb) as (r' & E & Hok' & _). eauto.
Qed.

Lemma run_op_ok r op : repl_ok r -> op_ok r op -> exists r', run_op r op = Some r' /\ repl_ok r'.
Proof.
  intros Hok Ho. destruct op; cbn [run_op op_ok] in *.
  - destruct Ho. by apply propagate_ok.
  - by apply master_stream_ok.
  - eexists. split; [done|by apply resize_ok].
  - destruct Ho. by apply sync_ok.
  - eexists. split; [done|by apply put_online_ok].
  - eexists. split; [done|]. unfold freeSlave. rewrite filter_as_omap. apply slaves_map_ok; [done|]. intros s x _. by case_decide; intros [= <-].
  - eexists. split; [done|]. unfold updateSlavesWaitingBgsave. case_bool_decide; [apply start_bgsave_ok|]; by apply bgsave_done_ok.
  - unfold cron_backlog. destruct (_ && _ && _ && _) eqn:E; [|by eauto]. zbool. apply bool_decide_eq_true in H.
    unfold freeReplicationBacklog. cbn [slaves clearReplicationId2 changeReplicationId with_ids]. rewrite bool_decide_true by done. cbn [negb].
    eexists. split; [done|]. destruct Hok as [H1' H2' H3' H4' H5']. split; [done|done|cbn; by rewrite H|done|done].
  - unfold cron_ping. case_bool_decide; [by eauto|]. apply propagate_ok; [done|done|]. split; [cbn; lia|]. constructor; [cbn; lia|constructor].
  - eexists. split; [done|]. unfold cron_bgsave. destruct (_ && _); [by apply start_bgsave_ok|done].
  - eexists. split; [done|]. by apply (core_no_slaves r); [split_and!| |].
  - eexists. split; [done|]. unfold replicationUnsetMaster. destruct (negb _); [done|]. by apply (core_no_slaves r); [split_and!| |].
  - by apply continue_ok.
  - unfold prepare_full, freeReplicationBacklog. cbn. eexists. split; [done|]. destruct Hok as [H1' H2' H3' H4' H5']. split; [done|done|done|constructor|constructor].
  - destruct Ho. by apply finish_ok.
Qed.

Lemma run_ops_ok r ops : repl_ok r -> ops_ok r ops -> exists r', run_ops r ops = Some r' /\ repl_ok r'.
Proof.
  revert r. induction ops as [|op ops IH]; intros r Hok Ho; [by eexists|]. destruct Ho as [Ho Hs]. cbn [run_ops].
  destruct (run_op_ok r op Hok Ho) as (r1 & E & Hok1). rewrite E. mred. by apply IH; [|apply Hs].
Qed.

(** [initServer]: the fields of replication. *)
Definition repl_init (size : Z) (id : list Z) : repl :=
  Repl false (-1) 0 None size 0 0 0 id (replicate 40 48) (-1) [] [].

Lemma repl_init_ok size id : 0 < size -> repl_ok (repl_init size id).
Proof. intros Hs. split; [done|done|done|constructor|constructor]. Qed.

(** C7: The replication stream. Whatever commands are propagated, slaves attach (with SYNC, or
    with PSYNC and an offset that is an integer: with any other offset the code queues the
    text of an error in the stream of the slave), disconnect or change state, saves end, and
    the server changes its role, no assertion fails, and: what is
    queued for a slave is exactly the stream from the offset it was told, without a gap or a
    repetition; while it waits for its dump this is the offset of the dump; slaves waiting for
    a dump to start have nothing queued. A partial resynchronisation the code accepts sends
    exactly the missing end of the stream, although the backlog is a circular buffer that
    has been overwritten and resized. *)
Theorem replication_stream_exact size id ops :
  0 < size -> ops_ok (repl_init size id) ops ->
  exists r, run_ops (repl_init size id) ops = Some r /\
    (forall s, s ∈ slaves r -> replstate s <> WAIT_BGSAVE_START ->
       0 <= master_repl_offset r - start s <= Z.of_nat (length (stream r)) /\
       output s = drop (length (stream r) - Z.to_nat (master_repl_offset r - start s)) (stream r) /\
       (replstate s = ONLINE \/ start s = psync_initial_offset s)) /\
    (forall s, s ∈ slaves r -> replstate s = WAIT_BGSAVE_START -> output s = []) /\
    (forall mid off, psync_ok r mid off = true ->
       let n := master_repl_offset r + 1 - off in 0 <= n <= Z.of_nat (length (stream r)) /\
       addReplyReplicationBacklog r off = Some (drop (length (stream r) - Z.to_nat n) (stream r), n)).
Proof.
  intros Hs Ho. destruct (run_ops_ok _ ops (repl_init_ok size id Hs) Ho) as (r & E & Hok). exists r. split; [done|].
  pose proof (proj1 (Forall_forall _ _) (ro_output _ Hok)) as Hall. split_and!.
  - intros s Hin Hw. pose proof (Hall s Hin) as H. unfold slave_ok in H. by rewrite bool_decide_false in H.
  - intros s Hin Hw. pose proof (Hall s Hin) as H. unfold slave_ok in H. by rewrite bool_decide_true in H.
  - intros mid off Hp. destruct (psync_ok_window _ _ _ Hp) as [[b Eb] Hw].
    apply (backlog_reply_spec r b off (ro_backlog _ Hok) Eb (ro_size _ Hok) Hw).
Qed.

(** A small backlog wraps around; the second slave asks for its last bytes. *)
Lemma replication_stream_exact_witness :
  exists r, run_ops (repl_init 8 []) [Sync 1 0 true false None [] (replicate 8 0) NoChild false false true;
                                     Propagate 0 [OInt 12]; Propagate 0 [OSds [7]];
                                     Sync 2 0 true false (Some ([], Some 44)) [] (replicate 8 0) NoChild false false true] = Some r /\
    (forall s, s ∈ slaves r -> replstate s = WAIT_BGSAVE_START -> output s = []) /\
    map output (slaves r) = [stream r; [7; 13; 10]].
Proof.
  destruct (replication_stream_exact 8 [] [Sync 1 0 true false None [] (replicate 8 0) NoChild false false true;
              Propagate 0 [OInt 12]; Propagate 0 [OSds [7]];
              Sync 2 0 true false (Some ([], Some 44)) [] (replicate 8 0) NoChild false false true]) as (r & E & _ & H & _).
  - reflexivity.
  - cbn [ops_ok op_ok]. split_and!; [reflexivity|discriminate|]. intros r1 E1. injection E1 as <-.
    split_and!; [discriminate|discriminate|split; [discriminate|repeat constructor; discriminate]|].
    intros r1 E1. vm_compute in E1. injection E1 as <-. split_and!; [discriminate|discriminate|split; [discriminate|repeat constructor; discriminate]|].
    intros r1 E1. vm_compute in E1. injection E1 as <-. split_and!; [reflexivity|intros mid off [= <- <-]; by eexists|]. done.
  - exists r. split; [exact E|]. split; [exact H|]. vm_compute in E. injection E as <-. reflexivity.
Defined.

(** ** The slave executes the writes of the master *)

(** SELECT, as the command table finds it. *)
Definition is_select (l : list (list Z)) : bool :=
  match l with n :: _ => bool_decide (lower (cstring n) = lit "select") | [] => false end.

(** The commands [cmds] of a stream carry out the writes [ws], each a command with the
    database it was executed in: before every write the database last selected in the stream
    is the one of the write. The database selected is [cur] before and [cur'] after, none if
    the stream has not selected one. *)
Inductive selected : option Z -> list (list (list Z)) -> list (Z * list (list Z)) -> option Z -> Prop :=
  | selected_nil cur : selected cur [] [] cur
  | selected_select cur d cmds ws cur' : selected (Some d) cmds ws cur' -> selected cur ([lit "SELECT"; decimal d] :: cmds) ws cur'
  | selected_ping cur cmds ws cur' : selected cur cmds ws cur' -> selected cur ([lit "PING"] :: cmds) ws cur'
  | selected_write d l cmds ws cur' : is_select l = false -> selected (Some d) cmds ws cur' ->
      selected (Some d) (l :: cmds) ((d, l) :: ws) cur'.

Lemma selected_app c1 w1 c2 w2 a b c : selected a c1 w1 b -> selected b c2 w2 c -> selected a (c1 ++ c2) (w1 ++ w2) c.
Proof. induction 1; intros H2; cbn [app]; [done|constructor; auto..]. Qed.

(** The writes among the operations of a master. *)
Definition writes (ops : list rop) : list (Z * list (list Z)) :=
  omap (fun op => match op with Propagate d argv => Some (d, map robj_text argv) | _ => None end) ops.

(** Runs in which the slaves attach by full resynchronisations. What comes from a master is
    received by a slave only; writes are commands the parser accepts. *)
Definition master_op (r : repl) (op : rop) : Prop :=
  match op with
  | Propagate d argv => 0 <= d <= INT32_MAX /\ valid_cmd (map robj_text argv) /\ is_select (map robj_text argv) = false
  | Sync _ _ _ _ psync _ _ _ _ _ _ => forall mid off, psync = Some (mid, Some off) -> psync_ok r mid off = false
  | MasterStream _ | Continue _ _ _ | PrepareFull | FinishFull _ _ _ => has_master r = true
  | _ => True
  end.

Fixpoint master_ops (r : repl) (ops : list rop) : Prop :=
  match ops with [] => True | op :: ops => master_op r op /\ forall r', run_op r op = Some r' -> master_ops r' ops end.

Lemma valid_select d : 0 <= d <= INT32_MAX -> valid_cmd [lit "SELECT"; decimal d].
Proof.
  intros Hd. split; [cbn [length]; lia|]. pose proof (decimal_bounds d ltac:(lia)). unfold valid_arg, MAX_ARG.
  constructor; [vm_compute; discriminate|]. constructor; [|constructor]. cbv beta. lia.
Qed.

Section log.
Context (r0 : repl).

(** The output of a slave that attached after [ops1]: the writes since then. The database the
    master believes to be selected is the one selected in the stream. *)
Definition slave_log (ops : list rop) (r : repl) (s : slave) : Prop :=
  exists ops1 ops2 r1 cmds cur, ops = ops1 ++ ops2 /\ run_ops r0 ops1 = Some r1 /\ master_repl_offset r1 = start s /\
    output s = enc_cmds cmds /\ Forall valid_cmd cmds /\ selected None cmds (writes ops2) cur /\
    (slaveseldb r = -1 \/ cur = Some (slaveseldb r)).

Definition log_inv (ops : list rop) (r : repl) : Prop :=
  has_master r = false -> Forall (fun s => replstate s = WAIT_BGSAVE_START \/ slave_log ops r s) (slaves r).

(** An operation that writes nothing to the slave. *)
Lemma slave_log_idle ops op r r' s s' : slave_log ops r s -> writes [op] = [] -> output s' = output s -> start s' = start s ->
  slaveseldb r' = slaveseldb r \/ slaveseldb r' = -1 -> slave_log (ops ++ [op]) r' s'.
Proof.
  intros (ops1&ops2&r1&cmds&cur&->&E1&Eo&Eout&Hv&Hs&Hd) Hw Ho Hst Hsel. exists ops1, (ops2 ++ [op]), r1, cmds, cur.
  rewrite <-app_assoc. do 2 (split; [done|]). split; [congruence|]. split; [congruence|]. split; [done|]. split.
  - unfold writes in *. rewrite omap_app, Hw, app_nil_r. done.
  - destruct Hsel as [-> | ->]; auto.
Qed.

(** A slave whose dump starts now. *)
Lemma slave_log_new ops r s : run_ops r0 ops = Some r -> start s = master_repl_offset r -> output s = [] -> slaveseldb r = -1 -> slave_log ops r s.
Proof.
  intros E Es Eo Ed. exists ops, [], r, [], None. rewrite app_nil_r. split_and!; try done; [constructor|by left].
Qed.

(** Commands written to the slave. *)
Lemma slave_log_write ops op r r' s s' cmds : slave_log ops r s -> output s' = output s ++ enc_cmds cmds -> start s' = start s ->
  Forall valid_cmd cmds ->
  (forall cur, slaveseldb r = -1 \/ cur = Some (slaveseldb r) -> exists cur', selected cur cmds (writes [op]) cur' /\
     (slaveseldb r' = -1 \/ cur' = Some (slaveseldb r'))) -> slave_log (ops ++ [op]) r' s'.
Proof.
  intros (ops1&ops2&r1&cmds0&cur&->&E1&Eo&Eout&Hv&Hs&Hd) Ho Hst Hv2 H. destruct (H cur Hd) as (cur'&Hs'&Hd').
  exists ops1, (ops2 ++ [op]), r1, (cmds0 ++ cmds), cur'. rewrite <-app_assoc. do 2 (split; [done|]). split; [congruence|].
  split; [by rewrite Ho, Eout, enc_cmds_app|]. split; [by apply Forall_app|]. split; [|done].
  unfold writes. rewrite omap_app. by eapply selected_app.
Qed.

Lemma run_ops_snoc r ops op : run_ops r (ops ++ [op]) = (r1 ← run_ops r ops; run_op r1 op).
Proof. revert r. induction ops as [|o ops IH]; intros r; cbn [app run_ops].
  - mred. by destruct (run_op r op).
  - destruct (run_op r o); mred; [apply IH|done].
Qed.

(** Slaves changed one by one without output. *)
Lemma log_inv_omap ops op r r' f : log_inv ops r -> has_master r' = has_master r -> slaves r' = omap f (slaves r) -> writes [op] = [] ->
  slaveseldb r' = slaveseldb r \/ slaveseldb r' = -1 ->
  (has_master r = false -> forall s x, s ∈ slaves r -> f s = Some x ->
     (replstate s = WAIT_BGSAVE_START -> replstate x = WAIT_BGSAVE_START \/ slave_log (ops ++ [op]) r' x) /\
     (replstate s <> WAIT_BGSAVE_START -> output x = output s /\ start x = start s)) -> log_inv (ops ++ [op]) r'.
Proof.
  intros H Hm Es Hw Hd Hf Hm'. rewrite Es. apply Forall_forall. intros x (s&Hs&Ex)%list_elem_of_omap.
  destruct (Hf ltac:(congruence) s x Hs Ex) as [H1 H2]. destruct (decide (replstate s = WAIT_BGSAVE_START)) as [|Hne]; [auto|]. right.
  destruct (H2 Hne) as [Ho Hst]. destruct (proj1 (Forall_forall _ _) (H ltac:(congruence)) s Hs) as [|L]; [done|]. by eapply slave_log_idle.
Qed.

Lemma log_inv_same ops op r r' : log_inv ops r -> has_master r' = has_master r -> slaves r' = slaves r -> writes [op] = [] ->
  slaveseldb r' = slaveseldb r -> log_inv (ops ++ [op]) r'.
Proof.
  intros H Hm Es Hw Hd. apply (log_inv_omap ops op r r' Some); auto.
  - rewrite Es, <-(map_as_omap id). symmetry. apply map_id.
  - intros _ s x _ [= <-]. auto.
Qed.

Lemma log_inv_streamed ops op r r' cmds db : log_inv ops r -> has_master r = false -> streamed r r' (enc_cmds cmds) db -> Forall valid_cmd cmds ->
  (forall cur, slaveseldb r = -1 \/ cur = Some (slaveseldb r) -> exists cur', selected cur cmds (writes [op]) cur' /\
     (db = -1 \/ cur' = Some db)) -> log_inv (ops ++ [op]) r'.
Proof.
  intros H Hm (b&h&i&o&->&_) Hv Hs _. cbn [slaves with_seldb with_backlog with_fed with_slaves]. unfold feed_slaves. apply Forall_map.
  eapply Forall_impl; [exact (H Hm)|]. intros s [Hw|L]; [left; by case_bool_decide|]. case_bool_decide; [by left|]. right.
  by eapply (slave_log_write ops op r _ s _ cmds).
Qed.

(** ** Attaching slaves *)

Lemma log_inv_bgsave ops op r r' ok : repl_ok r -> log_inv ops r -> writes [op] = [] -> r' = startBgsaveForReplication r ok ->
  run_ops r0 (ops ++ [op]) = Some r' -> log_inv (ops ++ [op]) r'.
Proof.
  intros Hok H Hw Er E. unfold startBgsaveForReplication in Er. destruct ok.
  - unfold setup_waiting in Er. destruct (setup_waiting_spec r (slaves r)) as (db&Hdb&Eq). rewrite Eq in Er. clear Eq. 
    eapply (log_inv_omap ops op r r'); [done|by subst r'|subst r'; apply map_as_omap|done|subst r'; cbn; tauto|].
    cbn. intros _ s x Hs [= <-]. unfold setup_ids. set (ids := map slave_id _).
    destruct (decide (slave_id s ∈ ids)) as [Hi|Hi].
    + assert (replstate s = WAIT_BGSAVE_START) as Hst.
      { apply list_elem_of_fmap in Hi as (t&Et&Ht). apply list_elem_of_filter in Ht as [Hwt Ht]. by rewrite (same_id_slave r s t Hok Hs Ht Et). }
      split; [|done]. intros _. right. apply slave_log_new; [done|by subst r'| |].
      * pose proof (proj1 (Forall_forall _ _) (ro_output _ Hok) s Hs) as So. unfold slave_ok in So. by rewrite bool_decide_true in So.
      * subst r'. cbn. destruct Hdb as [?|[_ Hn]]; [done|]. by destruct (proj1 (Forall_forall _ _) Hn s Hs).
    + auto.
  - eapply (log_inv_omap ops op r r'); [done|by subst r'|subst r'; apply filter_as_omap|done|subst r'; auto|].
    cbn. intros _ s x Hs. case_decide; intros [= <-]; auto.
Qed.

(** The output of a slave that waits for the same dump is copied. *)
Lemma log_inv_copy ops op r r' id capa s : repl_ok r -> log_inv ops r -> writes [op] = [] -> s ∈ slaves r -> replstate s = WAIT_BGSAVE_END ->
  r' = replicationSetupSlaveForFullResync
    (with_slaves r (map (fun x => if slave_id x =? id then Slave id (replstate x) (psync_initial_offset x) capa (output s) (start x) else x) (slaves r)))
    id (psync_initial_offset s) ->
  (forall x, x ∈ slaves r -> slave_id x = id -> replstate x = WAIT_BGSAVE_START) -> log_inv (ops ++ [op]) r'.
Proof.
  intros Hok H Hw Hs Hst Er Hid. eapply (log_inv_omap ops op r r'); [done|by subst r'| |done|subst r'; by right|].
  { subst r'. cbn. rewrite map_map. apply map_as_omap. }
  intros Hm x y Hx [= <-]. destruct (Z.eqb_spec (slave_id x) id) as [E|E]; cbn.
  - rewrite Z.eqb_refl. split; [|intros Hne; by destruct Hne; apply Hid]. intros _. right.
    pose proof (proj1 (Forall_forall _ _) (ro_output _ Hok) s Hs) as So. unfold slave_ok in So. rewrite Hst in So. cbn in So. destruct So as (_&_&[|Est]); [done|].
    destruct (proj1 (Forall_forall _ _) (H Hm) s Hs) as [|L]; [congruence|]. eapply slave_log_idle; [exact L|done|done|by cbn|]. subst r'. by right.
  - rewrite (proj2 (Z.eqb_neq _ _)) by done. auto.
Qed.

Lemma log_inv_add ops r r1 s0 : log_inv ops r -> slaves r1 = slaves r ++ [s0] -> replstate s0 = WAIT_BGSAVE_START ->
  has_master r1 = has_master r -> slaveseldb r1 = slaveseldb r -> log_inv ops r1.
Proof.
  intros H Es Hw Hm Hd Hm'. rewrite Es. apply Forall_app. split; [|by constructor; [left|]].
  eapply Forall_impl; [apply H; congruence|]. intros s [?|(ops1&ops2&rx&cmds&cur&L)]; [by left|]. right. exists ops1, ops2, rx, cmds, cur. by rewrite Hd.
Qed.

Lemma log_inv_full ops op r r' id capa newid b child diskless aof ok : repl_ok r -> id ∉ map slave_id (slaves r) ->
  Z.of_nat (length b) = repl_backlog_size r -> log_inv ops r -> writes [op] = [] ->
  fullSync r id capa [] newid b child diskless aof ok = Some r' -> run_ops r0 (ops ++ [op]) = Some r' -> log_inv (ops ++ [op]) r'.
Proof.
  intros Hok Hid Hb H Hw E Er. unfold fullSync in E. cbn [slaves with_slaves repl_backlog] in E.
  destruct (full_attach r id capa newid b Hok Hid Hb) as (r1&E1&Hok1&Es&Hm&Hd). rewrite E1 in E. cbn [mbind option_bind] in E.
  pose proof (log_inv_add ops r r1 _ H Es eq_refl Hm Hd) as H1. assert (r' = r1 -> log_inv (ops ++ [op]) r') as Hsame.
  { intros ->. by eapply log_inv_same. }
  destruct child; [| |injection E as <-; auto].
  - destruct (_ || _); injection E as <-; [auto|]. by eapply log_inv_bgsave.
  - destruct (list_find _ (slaves r1)) as [[i s]|] eqn:Ef; [|injection E as <-; auto]. destruct (_ =? _); [|injection E as <-; auto].
    apply list_find_Some in Ef as (Hi&Hst&_). injection E as <-. eapply log_inv_copy; [exact Hok1|done|done|by eapply list_elem_of_lookup_2|done|done|].
    intros x Hx Ex. rewrite Es in Hx. apply elem_of_app in Hx as [Hx| ->%list_elem_of_singleton]; [|done]. destruct Hid. rewrite <-Ex. by apply list_elem_of_fmap_2.
Qed.

(** ** Every operation *)

Lemma log_inv_propagate ops r r' d argv : repl_ok r -> log_inv ops r -> op_ok r (Propagate d argv) -> master_op r (Propagate d argv) ->
  replicationFeedSlaves r d argv = Some r' -> log_inv (ops ++ [Propagate d argv]) r'.
Proof.
  intros Hok H [Hd Ha] (Hd'&Hv&Hs) E Hm'. destruct (has_master r) eqn:Em.
  { unfold replicationFeedSlaves in E. rewrite Em in E. injection E as <-. congruence. }
  destruct (repl_backlog r) as [b|] eqn:Eb.
  2: { unfold replicationFeedSlaves in E. rewrite Em, Eb, (no_slaves r) in E by done. injection E as <-. rewrite (no_slaves r) by done. constructor. }
  destruct (propagate_spec r d argv Hok ltac:(rewrite Eb; by eexists) Em Hd Ha) as (r1&E1&St). rewrite E in E1. injection E1 as <-.
  revert Hm'. eapply log_inv_streamed; [exact H|done|exact St| |].
  - unfold propagated. apply Forall_app. split; [|by constructor]. destruct (_ =? _); [constructor|]. constructor; [by apply valid_select|constructor].
  - intros cur Hc. exists (Some d). split; [|by right]. unfold propagated. cbn.
    assert (forall c, c = Some d -> selected c [map robj_text argv] [(d, map robj_text argv)] (Some d)) as Hw.
    { intros c ->. constructor; [done|constructor]. }
    destruct (Z.eqb_spec (slaveseldb r) d) as [Ed|]; cbn [app]; [|constructor; by apply Hw]. apply Hw. destruct Hc as [?|Hc]; [lia|congruence].
Qed.

Lemma log_inv_ping ops r r' : repl_ok r -> log_inv ops r -> op_ok r CronPing -> cron_ping r = Some r' -> log_inv (ops ++ [CronPing]) r'.
Proof.
  intros Hok H Ho. unfold cron_ping. case_bool_decide as Hn; [intros [= <-]; by eapply log_inv_same|]. intros E Hm'.
  destruct (has_master r) eqn:Em.
  { unfold replicationFeedSlaves in E. rewrite Em in E. injection E as <-. congruence. }
  destruct (propagate_spec r (slaveseldb r) [OSds (lit "PING")] Hok (ro_slaves _ Hok Hn) Em Ho) as (r1&E1&St).
  { split; [cbn; lia|]. constructor; [cbn; lia|constructor]. }
  rewrite E in E1. injection E1 as <-. revert Hm'. unfold propagated in St. rewrite Z.eqb_refl in St. cbn [app map robj_text] in St.
  eapply log_inv_streamed; [exact H|done|exact St| |].
  - repeat constructor; vm_compute; discriminate.
  - intros cur Hc. exists cur. split; [|done]. constructor. constructor.
Qed.

Lemma log_inv_sync ops r r' id capa connected pending psync newid b child diskless aof ok :
  let op := Sync id capa connected pending psync newid b child diskless aof ok in
  repl_ok r -> log_inv ops r -> op_ok r op -> master_op r op -> run_op r op = Some r' -> run_ops r0 (ops ++ [op]) = Some r' -> log_inv (ops ++ [op]) r'.
Proof.
  intros op Hok H [Hb Hp] Hmo E Er. cbn [run_op op] in E. unfold syncCommand in E.
  assert (r' = r -> log_inv (ops ++ [op]) r') as Hsame by (intros ->; by eapply log_inv_same).
  case_bool_decide as Hid; [injection E as <-; auto|]. destruct (_ && _); [injection E as <-; auto|]. destruct pending; [injection E as <-; auto|].
  destruct psync as [[mid off]|]; [|by eapply log_inv_full]. destruct (Hp mid off eq_refl) as [o ->].
  cbn [masterTryPartialResynchronization] in E. rewrite (Hmo mid o eq_refl) in E. cbn [mbind option_bind] in E. by eapply log_inv_full.
Qed.

Lemma log_inv_no_slaves ops r : slaves r = [] -> log_inv ops r.
Proof. intros E _. rewrite E. constructor. Qed.

Lemma log_inv_bgsave_done ops op r r1 ok type opened : log_inv ops r -> writes [op] = [] ->
  r1 = with_slaves r (omap (bgsave_done ok type opened) (slaves r)) -> log_inv (ops ++ [op]) r1 /\ log_inv ops r1.
Proof.
  intros H Hw Er.
  assert (forall s x, bgsave_done ok type opened s = Some x -> output x = output s /\ start x = start s /\ (replstate s = WAIT_BGSAVE_START -> x = s)) as Hb.
  { intros s x. unfold bgsave_done. case_bool_decide as Hst; [|by intros [= <-]].
    destruct type; [| |intros [= <-]; split_and!; try done; congruence]; (destruct ok; cbn [negb]; [|done]); (destruct (opened _); [|done]);
      intros [= <-]; (split_and!; try done; congruence). }
  split.
  - eapply (log_inv_omap ops op r r1); [done|by subst r1|by subst r1|done|by subst r1; left|].
    intros _ s x _ Hx. destruct (Hb s x Hx) as (Ho&Hst&He). split; [intros Hw'; left; by rewrite (He Hw')|done].
  - intros Hm. subst r1. cbn [slaves with_slaves]. apply Forall_forall. intros x (s&Hs&Ex)%list_elem_of_omap. destruct (Hb s x Ex) as (Ho&Hst&He).
    destruct (proj1 (Forall_forall _ _) (H Hm) s Hs) as [Hws|(ops1&ops2&rx&cmds&cur&L)]; [left; by rewrite (He Hws)|]. right.
    exists ops1, ops2, rx, cmds, cur. cbn [slaveseldb with_slaves]. rewrite Ho, Hst. done.
Qed.

Lemma log_inv_step ops op r r' : repl_ok r -> log_inv ops r -> op_ok r op -> master_op r op -> run_ops r0 ops = Some r ->
  run_op r op = Some r' -> log_inv (ops ++ [op]) r'.
Proof.
  intros Hok H Ho Hmo Er E. assert (run_ops r0 (ops ++ [op]) = Some r') as Er' by (rewrite run_ops_snoc, Er; exact E).
  destruct op; cbn [run_op] in E.
  - by eapply log_inv_propagate.
  - unfold replicationFeedSlavesFromMasterStream in E. intros Hm'. exfalso. cbn in Hmo. case_bool_decide as Hb.
    + destruct (feed_spec r buf (ro_size _ Hok) (ro_backlog _ Hok) Hb) as (r1&E1&(?&?&?&?&->)&_). rewrite E1 in E. cbn in E. injection E as <-. cbn in Hm'. congruence.
    + cbn in E. injection E as <-. cbn in Hm'. congruence.
  - injection E as <-. apply (log_inv_same ops _ r); [done|..]; unfold resizeReplicationBacklog; cbv zeta; repeat case_match; done.
  - by eapply log_inv_sync.
  - injection E as <-. eapply (log_inv_omap ops _ r); [done|done|apply map_as_omap|done|by left|]. intros _ s x Hs [= <-].
    destruct (Z.eqb_spec (slave_id s) id) as [Eid|]; [|auto]. split; [|done]. intros Hw.
    destruct (proj1 (Forall_forall _ _) Ho s Hs Eid); congruence.
  - injection E as <-. eapply (log_inv_omap ops _ r); [done|done|apply filter_as_omap|done|by left|]. cbn. intros _ s x Hs. case_decide; intros [= <-]; auto.
  - injection E as E. unfold updateSlavesWaitingBgsave in E.
    destruct (log_inv_bgsave_done ops (BgsaveDone ok type opened bgsave_ok) r _ ok type opened H eq_refl eq_refl) as [H1 H2].
    case_bool_decide; [|by subst r']. eapply log_inv_bgsave; [|exact H2|done|by symmetry|done]. by apply bgsave_done_ok.
  - unfold cron_backlog in E. destruct (_ && _ && _ && _); [|injection E as <-; by eapply log_inv_same].
    unfold freeReplicationBacklog in E. destruct (negb _); [done|]. injection E as <-. by apply (log_inv_same ops _ r).
  - by eapply log_inv_ping.
  - injection E as E. unfold cron_bgsave in E. destruct (_ && _); [by eapply log_inv_bgsave|subst r'; by eapply log_inv_same].
  - injection E as <-. by apply log_inv_no_slaves.
  - injection E as <-. unfold replicationUnsetMaster. destruct (negb _); [by eapply log_inv_same|by apply log_inv_no_slaves].
  - intros Hm'. exfalso. cbn in Hmo. revert E. unfold psync_continue, createReplicationBacklog, disconnectSlaves.
    destruct new as [n|]; [case_bool_decide|]; cbn; repeat case_bool_decide; intros [= <-]; cbn in Hm'; congruence.
  - intros Hm'. exfalso. cbn in Hmo. revert E. unfold prepare_full, freeReplicationBacklog. cbn. intros [= <-]. cbn in Hm'. congruence.
  - intros Hm'. exfalso. cbn in Hmo. revert E. unfold finish_full, createReplicationBacklog. cbn. repeat case_bool_decide; intros [= <-]; cbn in Hm'; congruence.
Qed.

Lemma log_inv_run ops : forall pre r, repl_ok r -> log_inv pre r -> run_ops r0 pre = Some r -> ops_ok r ops -> master_ops r ops ->
  exists r', run_ops r ops = Some r' /\ repl_ok r' /\ log_inv (pre ++ ops) r'.
Proof.
  induction ops as [|op ops IH]; intros pre r Hok H Er Ho Hm; [exists r; rewrite app_nil_r; done|]. destruct Ho as [Ho Hos]. destruct Hm as [Hm Hms].
  destruct (run_op_ok r op Hok Ho) as (r1&E1&Hok1). destruct (IH (pre ++ [op]) r1) as (r2&E2&Hok2&H2); [done|exact (log_inv_step pre op r r1 Hok H Ho Hm Er E1)| |auto|auto|].
  { rewrite run_ops_snoc, Er. exact E1. }
  exists r2. cbn [run_ops]. rewrite E1, <-app_assoc in *. done.
Qed.
End log.

(** C8: Writes reach the slaves. A master performs any operations, in which slaves attach by
    full resynchronisations (from a save of their own or sharing one that runs), attached
    slaves change state, saves end or fail, the backlog is resized or freed, PINGs are sent,
    the server changes its role, and writes are propagated, each a command (other than
    SELECT) made in some database. What is queued for a slave once its dump has started is
    then a sequence of commands that carries out exactly the writes propagated since the
    moment of the offset the slave was given with the dump, in their order and each with its
    database selected by the stream before it, whatever database the slave had selected;
    besides the writes there are only SELECTs and PINGs. A slave that reads these bytes in
    pieces of any sizes executes exactly these commands, as long as they leave the client of
    its master ready (no transaction), whatever executing a command does; no protocol error
    occurs, and its offset advances from the offset of the dump to that of the master. *)
Theorem slave_executes_writes size id ops r s :
  0 < size -> ops_ok (repl_init size id) ops -> master_ops (repl_init size id) ops -> run_ops (repl_init size id) ops = Some r ->
  has_master r = false -> s ∈ slaves r -> replstate s <> WAIT_BGSAVE_START ->
  exists ops1 ops2 r1 cmds cur,
    ops = ops1 ++ ops2 /\ run_ops (repl_init size id) ops1 = Some r1 /\ master_repl_offset r1 = start s /\
    output s = enc_cmds cmds /\ selected None cmds (writes ops2) cur /\
    forall (W : Type) (exec : list (list Z) -> W -> W * cmdResult) (w : W) c sizes unixtime,
      plain_cmds exec cmds -> fresh_client c -> is_master c = true -> Forall (fun n => 1 <= n) sizes ->
      (length (output s) <= length sizes)%nat ->
      exists c' fed, serve exec unixtime PROTO_MAX_QUERYBUF_LEN sizes c (output s) w =
          Some (c', [], foldl (fun w l => (exec l w).1) w cmds, fed) /\
        errors c' = [] /\ reploff c' - reploff c = master_repl_offset r - start s.
Proof.
  intros Hs Ho Hm Er Hma Hin Hw.
  destruct (log_inv_run (repl_init size id) ops [] (repl_init size id)) as (r'&E&Hok&H); [by apply repl_init_ok|by apply log_inv_no_slaves|done|done|done|].
  rewrite Er in E. injection E as <-. destruct (proj1 (Forall_forall _ _) (H Hma) s Hin) as [|(ops1&ops2&r1&cmds&cur&E&E1&Eo&Eout&Hv&Hsel&_)]; [done|].
  exists ops1, ops2, r1, cmds, cur. do 5 (split; [done|]). intros W exec w c sizes unixtime Hpl Hf Hmc Hsz Hl.
  rewrite Eout in Hl |- *.
  destruct (stream_executes exec unixtime PROTO_MAX_QUERYBUF_LEN cmds sizes c w) as (c'&Es&_&_&He&Hoff); [done|done|done|done|done|done|].
  exists c'. eexists. split; [exact Es|]. split; [done|]. rewrite (Hoff Hmc), <-Eout.
  pose proof (proj1 (Forall_forall _ _) (ro_output _ Hok) s Hin) as So. unfold slave_ok in So. rewrite bool_decide_false in So by done.
  destruct So as (Hb&Elast&_). rewrite Elast, lastn_length by lia. lia.
Qed.

(** A second slave attaches after a write in database 3: the next write in this database is
    preceded by SELECT for both slaves. *)
Definition example_ops : list rop :=
  [Sync 1 0 true false None [] (replicate 8 0) NoChild false false true;
   Propagate 3 [OSds (lit "SET"); OSds (lit "k"); OInt (-5)];
   Sync 2 0 true false None [] (replicate 8 0) NoChild false false true;
   CronPing;
   Propagate 3 [OSds (lit "DEL"); OSds (lit "k")]].

Definition example_client : client := Client (Request [] 0 0 (-1) []) false false false true false 0 0 [] 0 [].

Example example_outputs : (fun r => map output (slaves r)) <$> run_ops (repl_init 8 []) example_ops =
  Some [enc_cmds [[lit "SELECT"; lit "3"]; [lit "SET"; lit "k"; lit "-5"]; [lit "PING"]; [lit "SELECT"; lit "3"]; [lit "DEL"; lit "k"]];
        enc_cmds [[lit "PING"]; [lit "SELECT"; lit "3"]; [lit "DEL"; lit "k"]]].
Proof. vm_compute. reflexivity. Qed.

Lemma example_ops_ok : ops_ok (repl_init 8 []) example_ops /\ master_ops (repl_init 8 []) example_ops.
Proof.
  split; cbn [example_ops ops_ok master_ops op_ok master_op].
  - split_and!; [reflexivity|discriminate|]. intros r1 E1. injection E1 as <-.
    split_and!; [discriminate|discriminate|split; [discriminate|repeat constructor; discriminate]|]. intros r1 E1. vm_compute in E1. injection E1 as <-.
    split_and!; [reflexivity|discriminate|]. intros r1 E1. vm_compute in E1. injection E1 as <-.
    split_and!; [discriminate|discriminate|]. intros r1 E1. vm_compute in E1. injection E1 as <-.
    split_and!; [discriminate|discriminate|split; [discriminate|repeat constructor; discriminate]|]. done.
  - split; [discriminate|]. intros r1 _. split; [split_and!; [lia|lia|split; [cbn; lia|repeat constructor; vm_compute; discriminate]|reflexivity]|].
    intros r2 _. split; [discriminate|]. intros r3 _. split; [done|]. intros r4 _.
    split; [split_and!; [lia|lia|split; [cbn; lia|repeat constructor; vm_compute; discriminate]|reflexivity]|]. done.
Qed.

Lemma slave_executes_writes_witness :
  exists r s ops1 ops2 r1 cmds cur c' fed, run_ops (repl_init 8 []) example_ops = Some r /\ slaves r !! 1%nat = Some s /\
    output s = enc_cmds [[lit "PING"]; [lit "SELECT"; lit "3"]; [lit "DEL"; lit "k"]] /\
    example_ops = ops1 ++ ops2 /\ run_ops (repl_init 8 []) ops1 = Some r1 /\ master_repl_offset r1 = start s /\
    output s = enc_cmds cmds /\ selected None cmds (writes ops2) cur /\
    serve log_command 0 PROTO_MAX_QUERYBUF_LEN (replicate 64 1) example_client (output s) [] = Some (c', [], cmds, fed) /\
    reploff c' = master_repl_offset r - start s.
Proof.
  destruct (run_ops (repl_init 8 []) example_ops) as [r|] eqn:Er; [|vm_compute in Er; discriminate].
  pose proof example_outputs as Eo. rewrite Er in Eo. cbn [fmap option_fmap option_map] in Eo.
  destruct (slaves r) as [|s1 [|s [|? ?]]] eqn:Es; [discriminate Eo..| |discriminate Eo]. injection Eo as _ Eo.
  assert (Hst : (fun r => (has_master r, replstate <$> slaves r)) <$> Some r = Some (false, [WAIT_BGSAVE_END; WAIT_BGSAVE_END]))
    by (rewrite <-Er; vm_compute; reflexivity).
  injection Hst as Hm Hst. rewrite Es in Hst. injection Hst as _ Hst.
  destruct (slave_executes_writes 8 [] example_ops r s) as (ops1 & ops2 & r1 & cmds & cur & E1 & E2 & E3 & E4 & E5 & H);
    [lia|apply example_ops_ok|apply example_ops_ok|exact Er|exact Hm|rewrite Es; right; left|rewrite Hst; discriminate|].
  destruct (H _ log_command [] example_client (replicate 64 1) 0) as (c' & fed & Hs & _ & Hoff).
  - unfold plain_cmds. apply Forall_true. done.
  - unfold fresh_client. repeat split; reflexivity.
  - done.
  - apply Forall_replicate. lia.
  - rewrite Eo. vm_compute. lia.
  - exists r, s, ops1, ops2, r1, cmds, cur, c', fed. rewrite Es. split; [reflexivity|]. split; [reflexivity|].
    split; [exact Eo|]. split; [exact E1|]. split; [exact E2|]. split; [exact E3|]. split; [exact E4|]. split; [exact E5|].
    split; [|change (reploff example_client) with 0 in Hoff; lia].
    rewrite Hs. f_equal. f_equal. f_equal. clear. change (foldl (fun w l => w ++ [l]) [] cmds = cmds).
    assert (forall w, foldl (fun w l => w ++ [l]) w cmds = w ++ cmds) as Hf; [|exact (Hf [])].
    induction cmds as [|l cmds IH]; intros w; cbn [foldl]; [by rewrite app_nil_r|]. by rewrite IH, <-app_assoc.
Defined.
