(* ===== verification/Bitops.v ===== *)
(** * Bit operations

    bitops.c. First the routines that work on a block of bytes: [redisPopcount],
    [redisBitpos] and the bit fields. Then the commands SETBIT, GETBIT, BITOP, BITCOUNT,
    BITPOS and BITFIELD as functions of the object that the key holds and of the arguments;
    a command returns the object the key holds afterwards, the increment of [server.dirty]
    and the reply. [None] is a fault: an access out of bounds, a shift by the width of the
    type, or the panic of [redisBitpos]. Signed additions wrap around; the code does not use
    their results when they do. *)

From S2P Require Import Prelude Bits Util.

(** ** Counting ones *)

Definition bitsinbyte : list Z :=
  [0; 1; 1; 2; 1; 2; 2; 3; 1; 2; 2; 3; 2; 3; 3; 4; 1; 2; 2; 3; 2; 3; 3; 4; 2; 3; 3; 4; 3; 4; 4; 5;
   1; 2; 2; 3; 2; 3; 3; 4; 2; 3; 3; 4; 3; 4; 4; 5; 2; 3; 3; 4; 3; 4; 4; 5; 3; 4; 4; 5; 4; 5; 5; 6;
   1; 2; 2; 3; 2; 3; 3; 4; 2; 3; 3; 4; 3; 4; 4; 5; 2; 3; 3; 4; 3; 4; 4; 5; 3; 4; 4; 5; 4; 5; 5; 6;
   2; 3; 3; 4; 3; 4; 4; 5; 3; 4; 4; 5; 4; 5; 5; 6; 3; 4; 4; 5; 4; 5; 5; 6; 4; 5; 5; 6; 5; 6; 6; 7;
   1; 2; 2; 3; 2; 3; 3; 4; 2; 3; 3; 4; 3; 4; 4; 5; 2; 3; 3; 4; 3; 4; 4; 5; 3; 4; 4; 5; 4; 5; 5; 6;
   2; 3; 3; 4; 3; 4; 4; 5; 3; 4; 4; 5; 4; 5; 5; 6; 3; 4; 4; 5; 4; 5; 5; 6; 4; 5; 5; 6; 5; 6; 6; 7;
   2; 3; 3; 4; 3; 4; 4; 5; 3; 4; 4; 5; 4; 5; 5; 6; 3; 4; 4; 5; 4; 5; 5; 6; 4; 5; 5; 6; 5; 6; 6; 7;
   3; 4; 4; 5; 4; 5; 5; 6; 4; 5; 5; 6; 5; 6; 6; 7; 4; 5; 5; 6; 5; 6; 6; 7; 5; 6; 6; 7; 6; 7; 7; 8].

(** The count of a byte, then one step of the counting of bytes. *)
Definition pop_byte (s : list Z) (p bits : Z) : option Z :=
  b ← rd1 s p; n ← bitsinbyte !! Z.to_nat b; Some (u64 (bits + n)).

(** The bytes before the first address that is a multiple of four; [addr] is the address
    of the block, [p] an offset in it. *)
Fixpoint pop_align (count : nat) (addr : Z) (s : list Z) (p bits : Z) : option (nat * Z * Z) :=
  match count with
  | O => Some (O, p, bits)
  | S count' =>
    if Z.land (addr + p) 3 =? 0 then Some (count, p, bits) else
    bits ← pop_byte s p bits; pop_align count' addr s (p + 1) bits
  end.

Definition swar_step1 (aux : Z) : Z := u32 (aux - Z.land (Z.shiftr aux 1) 0x55555555).
Definition swar_step2 (aux : Z) : Z :=
  u32 (Z.land aux 0x33333333 + Z.land (Z.shiftr aux 2) 0x33333333).
Definition swar_step3 (aux : Z) : Z := Z.land (u32 (aux + Z.shiftr aux 4)) 0x0F0F0F0F.

(** The ones in seven words. *)
Definition pop_seven (auxs : list Z) : Z :=
  let sum := foldl (fun a x => u32 (a + swar_step3 (swar_step2 (swar_step1 x)))) 0 auxs in
  Z.shiftr (u32 (sum * 0x01010101)) 24.

Definition rd_u32 (s : list Z) (p : Z) : option Z := bs ← rd s p 4; Some (le_decode bs).

Fixpoint pop_words (fuel count : nat) (s : list Z) (p bits : Z) : option (nat * Z * Z) :=
  match fuel with
  | O => None
  | S fuel =>
    if (28 <=? count)%nat then
      aux1 ← rd_u32 s p; aux2 ← rd_u32 s (p + 4); aux3 ← rd_u32 s (p + 8);
      aux4 ← rd_u32 s (p + 12); aux5 ← rd_u32 s (p + 16); aux6 ← rd_u32 s (p + 20);
      aux7 ← rd_u32 s (p + 24);
      pop_words fuel (count - 28) s (p + 28)
        (u64 (bits + pop_seven [aux1; aux2; aux3; aux4; aux5; aux6; aux7]))
    else Some (count, p, bits)
  end.

Fixpoint pop_bytes (count : nat) (s : list Z) (p bits : Z) : option Z :=
  match count with
  | O => Some bits
  | S count => bits ← pop_byte s p bits; pop_bytes count s (p + 1) bits
  end.

Definition redisPopcount (addr : Z) (s : list Z) (p : Z) (count : nat) : option Z :=
  '(count, p, bits) ← pop_align count addr s p 0;
  '(count, p, bits) ← pop_words (S count) count s p bits;
  pop_bytes count s p bits.

(** ** The first bit with a value *)

(** The bytes before the first aligned address: whether one differs from [skipval], the
    position reached, the bytes left and the bits skipped. *)
Fixpoint bitpos_bytes (count : nat) (addr : Z) (s : list Z) (c skipval pos : Z)
    : option (bool * Z * nat * Z) :=
  match count with
  | O => Some (false, c, O, pos)
  | S count' =>
    if Z.land (addr + c) 7 =? 0 then Some (false, c, count, pos) else
    x ← rd1 s c;
    if x =? skipval then bitpos_bytes count' addr s (c + 1) skipval (pos + 8)
    else Some (true, c, count, pos)
  end.

Fixpoint bitpos_words (fuel count : nat) (s : list Z) (l skipval pos : Z) : option (Z * nat * Z) :=
  match fuel with
  | O => None
  | S fuel =>
    if (8 <=? count)%nat then
      w ← rd s l 8;
      if le_decode w =? skipval then bitpos_words fuel (count - 8) s (l + 8) skipval (pos + 64)
      else Some (l, count, pos)
    else Some (l, count, pos)
  end.

(** The bytes left, as a big-endian word padded with zeros on the right. *)
Fixpoint bitpos_load (j count : nat) (s : list Z) (c word : Z) : option Z :=
  match j with
  | O => Some word
  | S j =>
    let word := u64 (Z.shiftl word 8) in
    match count with
    | O => bitpos_load j O s c word
    | S count => x ← rd1 s c; bitpos_load j count s (c + 1) (Z.lor word x)
    end
  end.

Fixpoint bitpos_scan (fuel : nat) (one word bit pos : Z) : option Z :=
  match fuel with
  | O => None
  | S fuel =>
    if one =? 0 then None else
    if Z.b2z (negb (Z.land one word =? 0)) =? bit then Some pos
    else bitpos_scan fuel (Z.shiftr one 1) word bit (pos + 1)
  end.

Definition redisBitpos (addr : Z) (s : list Z) (p : Z) (count : nat) (bit : Z) : option Z :=
  '(found, c, count, pos) ← bitpos_bytes count addr s p (if bit =? 0 then 255 else 0) 0;
  '(l, count, pos) ←
    (if found : bool then Some (c, count, pos)
     else bitpos_words (S count) count s c (if bit =? 0 then ULLONG_MAX else 0) pos);
  word ← bitpos_load 8 count s l 0;
  if (bit =? 1) && (word =? 0) then Some (-1) else
  bitpos_scan 65 (u64 (Z.lnot (Z.shiftr ULLONG_MAX 1))) word bit pos.

(** ** Bit fields *)

(** [x << n] of an unsigned 64-bit [x]: a shift by 64 or more is undefined. *)
Definition shl64 (x n : Z) : option Z := if n <? 64 then Some (u64 (Z.shiftl x n)) else None.

Fixpoint setUnsignedBitfield_loop (n : nat) (p : list Z) (offset bits value j : Z) : option (list Z) :=
  match n with
  | O => Some p
  | S n =>
    let bitval := if Z.land value (Z.shiftl 1 (bits - 1 - j)) =? 0 then 0 else 1 in
    let byte := Z.shiftr offset 3 in
    let bit := 7 - Z.land offset 7 in
    byteval ← rd1 p byte;
    let byteval := Z.land byteval (u64 (Z.lnot (Z.shiftl 1 bit))) in
    let byteval := Z.lor byteval (Z.shiftl bitval bit) in
    p ← wr p byte [Z.land byteval 255];
    setUnsignedBitfield_loop n p (u64 (offset + 1)) bits value (j + 1)
  end.

Definition setUnsignedBitfield (p : list Z) (offset bits value : Z) : option (list Z) :=
  setUnsignedBitfield_loop (Z.to_nat bits) p offset bits value 0.

Definition setSignedBitfield (p : list Z) (offset bits value : Z) : option (list Z) :=
  setUnsignedBitfield p offset bits (u64 value).

Fixpoint getUnsignedBitfield_loop (n : nat) (p : list Z) (offset value : Z) : option Z :=
  match n with
  | O => Some value
  | S n =>
    let byte := Z.shiftr offset 3 in
    let bit := 7 - Z.land offset 7 in
    byteval ← rd1 p byte;
    let bitval := Z.land (Z.shiftr byteval bit) 1 in
    getUnsignedBitfield_loop n p (u64 (offset + 1)) (Z.lor (u64 (Z.shiftl value 1)) bitval)
  end.

Definition getUnsignedBitfield (p : list Z) (offset bits : Z) : option Z :=
  getUnsignedBitfield_loop (Z.to_nat bits) p offset 0.

Definition getSignedBitfield (p : list Z) (offset bits : Z) : option Z :=
  u ← getUnsignedBitfield p offset bits;
  let value := s64 u in
  if Z.land (u64 value) (Z.shiftl 1 (bits - 1)) =? 0 then Some value
  else m ← shl64 (u64 (-1)) bits; Some (s64 (Z.lor (u64 value) m)).

Inductive bfoverflow := BFOVERFLOW_WRAP | BFOVERFLOW_SAT | BFOVERFLOW_FAIL.

#[export] Instance bfoverflow_eq : EqDecision bfoverflow.
Proof. solve_decision. Defined.

(** The value returned and what is stored in [*limit], if anything is. *)
Definition checkUnsignedBitfieldOverflow (value incr bits : Z) (owtype : bfoverflow)
    : option (Z * option Z) :=
  let max := if bits =? 64 then ULLONG_MAX else Z.shiftl 1 bits - 1 in
  let maxincr := s64 (u64 (max - value)) in
  let minincr := s64 (u64 (- value)) in
  let handle_wrap :=
    mask ← shl64 (u64 (-1)) bits;
    Some (1, Some (Z.land (u64 (value + incr)) (u64 (Z.lnot mask)))) in
  if (value >? max) || ((incr >? 0) && (incr >? maxincr)) then
    match owtype with
    | BFOVERFLOW_WRAP => handle_wrap
    | BFOVERFLOW_SAT => Some (1, Some max)
    | BFOVERFLOW_FAIL => Some (1, None)
    end
  else if (incr <? 0) && (incr <? minincr) then
    match owtype with
    | BFOVERFLOW_WRAP => handle_wrap
    | BFOVERFLOW_SAT => Some (-1, Some 0)
    | BFOVERFLOW_FAIL => Some (-1, None)
    end
  else Some (0, None).

Definition checkSignedBitfieldOverflow (value incr bits : Z) (owtype : bfoverflow)
    : option (Z * option Z) :=
  let max := if bits =? 64 then LLONG_MAX else Z.shiftl 1 (bits - 1) - 1 in
  let min := - max - 1 in
  let maxincr := s64 (max - value) in
  let minincr := s64 (min - value) in
  let handle_wrap :=
    mask ← shl64 (u64 (-1)) bits;
    let msb := Z.shiftl 1 (bits - 1) in
    let c := u64 (u64 value + u64 incr) in
    Some (1, Some (s64 (if Z.land c msb =? 0 then Z.land c (u64 (Z.lnot mask)) else Z.lor c mask))) in
  if (value >? max) || (negb (bits =? 64) && (incr >? maxincr))
     || ((value >=? 0) && (incr >? 0) && (incr >? maxincr)) then
    match owtype with
    | BFOVERFLOW_WRAP => handle_wrap
    | BFOVERFLOW_SAT => Some (1, Some max)
    | BFOVERFLOW_FAIL => Some (1, None)
    end
  else if (value <? min) || (negb (bits =? 64) && (incr <? minincr))
     || ((value <? 0) && (incr <? 0) && (incr <? minincr)) then
    match owtype with
    | BFOVERFLOW_WRAP => handle_wrap
    | BFOVERFLOW_SAT => Some (-1, Some min)
    | BFOVERFLOW_FAIL => Some (-1, None)
    end
  else Some (0, None).

(** ** Objects, replies and arguments *)

(** The object at a key: a string (raw or embedded), a string encoded as an integer, or
    an object of another type. *)
Inductive vobj := VStr (s : list Z) | VInt (v : Z) | VOther.

Inductive berror :=
  | ErrOffset       (* bit offset is not an integer or out of range *)
  | ErrBit          (* bit is not an integer or out of range *)
  | ErrBitArg       (* The bit argument must be 1 or 0. *)
  | ErrType         (* Invalid bitfield type. *)
  | ErrOverflow     (* Invalid OVERFLOW type specified *)
  | ErrInteger      (* value is not an integer or out of range *)
  | ErrNotKeys      (* BITOP NOT must be called with a single source key. *)
  | ErrSyntax       (* shared.syntaxerr *)
  | ErrWrongType.   (* shared.wrongtypeerr *)

Inductive breply := RInt (v : Z) | RNull | RErr (e : berror) | RMulti (l : list breply).

(** What a command leaves: the object at the key, the increment of [server.dirty] and the
    reply. *)
Record bresult := Res { obj_after : option vobj; dirty : Z; reply : breply }.

(** [strcasecmp] with a literal in lower case: both are C strings. *)
Definition strcaseeq (s : list Z) (name : string) : bool :=
  bool_decide (map tolower (cstring s) = lit name).

Definition getLongLongFromArg (s : list Z) : option Z := string2ll s.

Definition getLongFromArg (s : list Z) : option Z :=
  value ← string2ll s;
  if (value <? LLONG_MIN) || (value >? LLONG_MAX) then None else Some value.

(** [None] is the error reply [ErrOffset]. The product wraps around. *)
Definition getBitOffsetFromArgument (p : list Z) (hash : bool) (bits : Z) : option Z :=
  let usehash := bool_decide (head p = Some (chr "#")) && hash && (bits >? 0) in
  loffset ← string2ll (if usehash then drop 1 p else p);
  let loffset := if usehash then s64 (loffset * bits) else loffset in
  if (loffset <? 0) || (Z.shiftr loffset 3 >=? 512 * 1024 * 1024) then None else Some loffset.

(** The sign and the number of bits; [None] is the error reply [ErrType]. *)
Definition getBitfieldTypeFromArgument (p : list Z) : option (bool * Z) :=
  match p with
  | c :: p =>
    sign ← (if c =? chr "i" then Some true else if c =? chr "u" then Some false else None);
    llbits ← string2ll (cstring p);
    if (llbits <? 1) || (sign && (llbits >? 64)) || (negb sign && (llbits >? 63)) then None
    else Some (sign, llbits)
  | [] => None
  end.

(** [ll2string] into a buffer of [n] bytes, as the string it makes. *)
Definition int_text (n : Z) (v : Z) : option (list Z) :=
  '(len, buf) ← ll2string (replicate (Z.to_nat n) 0) n v; rd buf 0 len.

Definition getObjectReadOnlyString (o : vobj) : option (list Z) :=
  match o with
  | VStr s => Some s
  | VInt v => int_text 21 v
  | VOther => None
  end.

(** The bytes of a string object ([getDecodedObject]). *)
Definition decoded (o : vobj) : option (list Z) :=
  match o with
  | VStr s => Some s
  | VInt v => int_text 32 v
  | VOther => None
  end.

Definition growzero (s : list Z) (len : Z) : list Z := s ++ replicate (Z.to_nat len - length s) 0.

(** The string made writable up to [maxbit]; [inr] is the error that replaces NULL. *)
Definition lookupStringForBitCommand (o : option vobj) (maxbit : Z) : option (list Z + berror) :=
  let byte := Z.shiftr maxbit 3 in
  match o with
  | None => Some (inl (replicate (Z.to_nat (byte + 1)) 0))
  | Some VOther => Some (inr ErrWrongType)
  | Some o => s ← decoded o; Some (inl (growzero s (byte + 1)))
  end.

Definition fails (o : option vobj) (e : berror) : option bresult := Some (Res o 0 (RErr e)).
Definition replies (o : option vobj) (v : Z) : option bresult := Some (Res o 0 (RInt v)).

(** ** SETBIT and GETBIT *)

Definition setbitCommand (o : option vobj) (a_offset a_value : list Z) : option bresult :=
  match getBitOffsetFromArgument a_offset false 0 with
  | None => fails o ErrOffset
  | Some bitoffset =>
    match getLongFromArg a_value with
    | None => fails o ErrBit
    | Some on =>
      if negb (Z.land on (Z.lnot 1) =? 0) then fails o ErrBit else
      r ← lookupStringForBitCommand o bitoffset;
      match r with
      | inr e => fails o e
      | inl s =>
        let byte := Z.shiftr bitoffset 3 in
        byteval ← rd1 s byte;
        let bit := 7 - Z.land bitoffset 7 in
        let bitval := Z.land byteval (Z.shiftl 1 bit) in
        let byteval := Z.land byteval (Z.lnot (Z.shiftl 1 bit)) in
        let byteval := Z.lor byteval (Z.shiftl (Z.land on 1) bit) in
        s ← wr s byte [u8 byteval];
        Some (Res (Some (VStr s)) 1 (RInt (if bitval =? 0 then 0 else 1)))
      end
    end
  end.

Definition getbitCommand (o : option vobj) (a_offset : list Z) : option bresult :=
  match getBitOffsetFromArgument a_offset false 0 with
  | None => fails o ErrOffset
  | Some bitoffset =>
    match o with
    | None => replies o 0
    | Some VOther => fails o ErrWrongType
    | Some obj =>
      let byte := Z.shiftr bitoffset 3 in
      let bit := 7 - Z.land bitoffset 7 in
      s ← decoded obj;
      if byte <? Z.of_nat (length s) then
        b ← rd1 s byte; replies o (if Z.land b (Z.shiftl 1 bit) =? 0 then 0 else 1)
      else replies o 0
    end
  end.

(** ** BITOP *)

Inductive bitop := BITOP_AND | BITOP_OR | BITOP_XOR | BITOP_NOT.

#[export] Instance bitop_eq : EqDecision bitop.
Proof. solve_decision. Defined.

Definition bitop_name (opname : list Z) : option bitop :=
  if strcaseeq opname "and" then Some BITOP_AND
  else if strcaseeq opname "or" then Some BITOP_OR
  else if strcaseeq opname "xor" then Some BITOP_XOR
  else if strcaseeq opname "not" then Some BITOP_NOT
  else None.

(** The strings of the source keys with the greatest and the least of their lengths; a
    missing key is an empty string. [j] counts the keys seen. *)
Fixpoint bitop_lookup (objects : list (option vobj)) (j : Z) (maxlen minlen : Z)
    : option (list (list Z) * Z * Z + berror) :=
  match objects with
  | [] => Some (inl ([], maxlen, minlen))
  | None :: objects =>
    r ← bitop_lookup objects (j + 1) maxlen 0;
    Some (match r with inl (src, mx, mn) => inl ([] :: src, mx, mn) | inr e => inr e end)
  | Some VOther :: _ => Some (inr ErrWrongType)
  | Some o :: objects =>
    s ← decoded o;
    let len := Z.of_nat (length s) in
    let maxlen := if len >? maxlen then len else maxlen in
    let minlen := if (j =? 0) || (len <? minlen) then len else minlen in
    r ← bitop_lookup objects (j + 1) maxlen minlen;
    Some (match r with inl (src, mx, mn) => inl (s :: src, mx, mn) | inr e => inr e end)
  end.

(** One assignment [lres[w] op= lp[i][w]], at byte [off]; NOT has its own loop. *)
Definition word_op (op : bitop) (a b : Z) : Z :=
  match op with
  | BITOP_AND => Z.land a b
  | BITOP_OR => Z.lor a b
  | BITOP_XOR => Z.lxor a b
  | BITOP_NOT => a
  end.

Definition bitop_word (op : bitop) (res src : list Z) (off : Z) : option (list Z) :=
  a ← rd res off 8; b ← rd src off 8;
  wr res off (le_encode 8 (word_op op (le_decode a) (le_decode b))).

Definition not_word (res : list Z) (off : Z) : option (list Z) :=
  a ← rd res off 8; wr res off (le_encode 8 (u64 (Z.lnot (le_decode a)))).

(** Four words at [j], from every source but the first. *)
Fixpoint bitop_block (op : bitop) (srcs : list (list Z)) (res : list Z) (j : Z) : option (list Z) :=
  match srcs with
  | [] => Some res
  | src :: srcs =>
    res ← bitop_word op res src j; res ← bitop_word op res src (j + 8);
    res ← bitop_word op res src (j + 16); res ← bitop_word op res src (j + 24);
    bitop_block op srcs res j
  end.

Definition not_block (res : list Z) (j : Z) : option (list Z) :=
  res ← not_word res j; res ← not_word res (j + 8);
  res ← not_word res (j + 16); not_word res (j + 24).

(** The fast path: the result and the next byte to process. *)
Fixpoint bitop_fast (fuel : nat) (op : bitop) (srcs : list (list Z)) (res : list Z) (j minlen : Z)
    : option (list Z * Z) :=
  match fuel with
  | O => None
  | S fuel =>
    if 32 <=? minlen then
      res ← (if decide (op = BITOP_NOT) then not_block res j else bitop_block op srcs res j);
      bitop_fast fuel op srcs res (j + 32) (minlen - 32)
    else Some (res, j)
  end.

Definition byte_at (src : list Z) (j : Z) : option Z :=
  if Z.of_nat (length src) <=? j then Some 0 else rd1 src j.

Fixpoint bitop_byte (op : bitop) (srcs : list (list Z)) (output j : Z) : option Z :=
  match srcs with
  | [] => Some output
  | src :: srcs => byte ← byte_at src j; bitop_byte op srcs (word_op op output byte) j
  end.

Fixpoint bitop_bytes (n : nat) (op : bitop) (src0 : list Z) (srcs : list (list Z)) (res : list Z) (j : Z)
    : option (list Z) :=
  match n with
  | O => Some res
  | S n =>
    output ← byte_at src0 j;
    let output := if decide (op = BITOP_NOT) then u8 (Z.lnot output) else output in
    output ← bitop_byte op srcs output j;
    res ← wr res j [output];
    bitop_bytes n op src0 srcs res (j + 1)
  end.

Definition bitop_compute (op : bitop) (src0 : list Z) (srcs : list (list Z)) (maxlen minlen : Z)
    : option (list Z) :=
  let res := replicate (Z.to_nat maxlen) 0 in
  '(res, j) ←
    (if (32 <=? minlen) && (Z.of_nat (S (length srcs)) <=? 16) then
       bs ← rd src0 0 minlen; res ← wr res 0 bs;
       bitop_fast (S (Z.to_nat minlen)) op srcs res 0 minlen
     else Some (res, 0));
  bitop_bytes (Z.to_nat (maxlen - j)) op src0 srcs res j.

(** [target] is the object at the target key. *)
Definition bitopCommand (target : option vobj) (opname : list Z) (objects : list (option vobj))
    : option bresult :=
  match bitop_name opname with
  | None => fails target ErrSyntax
  | Some op =>
    if bool_decide (op = BITOP_NOT) && negb (Z.of_nat (length objects) =? 1) then fails target ErrNotKeys else
    r ← bitop_lookup objects 0 0 0;
    match r with
    | inr e => fails target e
    | inl ([], _, _) => None
    | inl (src0 :: srcs, maxlen, minlen) =>
      if maxlen =? 0 then Some (Res None 1 (RInt 0)) else
      res ← bitop_compute op src0 srcs maxlen minlen;
      Some (Res (Some (VStr res)) 1 (RInt maxlen))
    end
  end.

(** ** BITCOUNT and BITPOS *)

(** Negative indexes count from the end; both are then put within the string. *)
Definition clip_range (strlen start end_ : Z) : Z * Z :=
  let start := if start <? 0 then strlen + start else start in
  let end_ := if end_ <? 0 then strlen + end_ else end_ in
  let start := if start <? 0 then 0 else start in
  let end_ := if end_ <? 0 then 0 else end_ in
  let end_ := if end_ >=? strlen then strlen - 1 else end_ in
  (start, end_).

Definition count_range (addr : Z) (o : option vobj) (s : list Z) (start end_ : Z) : option bresult :=
  if start >? end_ then replies o 0
  else n ← redisPopcount addr s start (Z.to_nat (end_ - start + 1)); replies o n.

(** [args] are the arguments after the key, [addr] the address of the bytes. *)
Definition bitcountCommand (addr : Z) (o : option vobj) (args : list (list Z)) : option bresult :=
  match o with
  | None => replies o 0
  | Some VOther => fails o ErrWrongType
  | Some obj =>
    s ← getObjectReadOnlyString obj;
    let strlen := Z.of_nat (length s) in
    match args with
    | [a_start; a_end] =>
      match getLongFromArg a_start with
      | None => fails o ErrInteger
      | Some start =>
        match getLongFromArg a_end with
        | None => fails o ErrInteger
        | Some end_ =>
          if (start <? 0) && (end_ <? 0) && (start >? end_) then replies o 0 else
          let '(start, end_) := clip_range strlen start end_ in count_range addr o s start end_
        end
      end
    | [] => count_range addr o s 0 (strlen - 1)
    | _ => fails o ErrSyntax
    end
  end.

Definition pos_range (addr : Z) (o : option vobj) (s : list Z) (bit start end_ : Z) (end_given : bool)
    : option bresult :=
  if start >? end_ then replies o (-1) else
  let bytes := end_ - start + 1 in
  pos ← redisBitpos addr s start (Z.to_nat bytes) bit;
  if end_given && (bit =? 0) && (pos =? bytes * 8) then replies o (-1) else
  replies o (if pos =? -1 then pos else pos + start * 8).

(** [args] are the arguments after the bit. *)
Definition bitposCommand (addr : Z) (o : option vobj) (a_bit : list Z) (args : list (list Z))
    : option bresult :=
  match getLongFromArg a_bit with
  | None => fails o ErrInteger
  | Some bit =>
    if negb (bit =? 0) && negb (bit =? 1) then fails o ErrBitArg else
    match o with
    | None => replies o (if bit =? 0 then 0 else -1)
    | Some VOther => fails o ErrWrongType
    | Some obj =>
      s ← getObjectReadOnlyString obj;
      let strlen := Z.of_nat (length s) in
      match args with
      | [] => pos_range addr o s bit 0 (strlen - 1) false
      | [a_start] =>
        match getLongFromArg a_start with
        | None => fails o ErrInteger
        | Some start =>
          let '(start, end_) := clip_range strlen start (strlen - 1) in
          pos_range addr o s bit start end_ false
        end
      | [a_start; a_end] =>
        match getLongFromArg a_start with
        | None => fails o ErrInteger
        | Some start =>
          match getLongFromArg a_end with
          | None => fails o ErrInteger
          | Some end_ =>
            let '(start, end_) := clip_range strlen start end_ in
            pos_range addr o s bit start end_ true
          end
        end
      | _ => fails o ErrSyntax
      end
    end
  end.

(** ** BITFIELD *)

Inductive bfopcode := BITFIELDOP_GET | BITFIELDOP_SET | BITFIELDOP_INCRBY.

#[export] Instance bfopcode_eq : EqDecision bfopcode.
Proof. solve_decision. Defined.

Record bitfieldOp := BitfieldOp {
  bf_offset : Z; bf_i64 : Z; bf_opcode : bfopcode; bf_owtype : bfoverflow; bf_bits : Z; bf_sign : bool
}.

(** What the loop over the arguments has gathered. *)
Record bfparse := BfParse { ops : list bitfieldOp; owtype : bfoverflow; readonly : bool; higest_write_offset : Z }.

Definition bf_overflow_name (s : list Z) : option bfoverflow :=
  if strcaseeq s "wrap" then Some BFOVERFLOW_WRAP
  else if strcaseeq s "sat" then Some BFOVERFLOW_SAT
  else if strcaseeq s "fail" then Some BFOVERFLOW_FAIL
  else None.

(** One operation: its type, its offset and, if it writes, its value. *)
Definition bf_add (st : bfparse) (opcode : bfopcode) (a_type a_offset : list Z) (a_value : option (list Z))
    : bfparse + berror :=
  match getBitfieldTypeFromArgument a_type with
  | None => inr ErrType
  | Some (sign, bits) =>
    match getBitOffsetFromArgument a_offset true bits with
    | None => inr ErrOffset
    | Some bitoffset =>
      match a_value with
      | None =>
        inl (BfParse (ops st ++ [BitfieldOp bitoffset 0 opcode (owtype st) bits sign])
               (owtype st) (readonly st) (higest_write_offset st))
      | Some a_value =>
        let h := higest_write_offset st in
        let h := if h <? bitoffset + bits - 1 then bitoffset + bits - 1 else h in
        match getLongLongFromArg a_value with
        | None => inr ErrInteger
        | Some i64 =>
          inl (BfParse (ops st ++ [BitfieldOp bitoffset i64 opcode (owtype st) bits sign])
                 (owtype st) false h)
        end
      end
    end
  end.

(** The loop over the arguments. The names of the subcommands differ, so the order in which
    they are compared is immaterial. *)
Fixpoint bf_parse (args : list (list Z)) (st : bfparse) : bfparse + berror :=
  match args with
  | [] => inl st
  | [_] => inr ErrSyntax
  | subcmd :: a1 :: rest =>
    if strcaseeq subcmd "overflow" then
      match bf_overflow_name a1 with
      | Some ow => bf_parse rest (BfParse (ops st) ow (readonly st) (higest_write_offset st))
      | None => inr ErrOverflow
      end
    else
      match rest with
      | [] => inr ErrSyntax
      | a2 :: rest =>
        if strcaseeq subcmd "get" then
          match bf_add st BITFIELDOP_GET a1 a2 None with
          | inl st => bf_parse rest st
          | inr e => inr e
          end
        else
          match rest with
          | [] => inr ErrSyntax
          | a3 :: rest =>
            match (if strcaseeq subcmd "set" then bf_add st BITFIELDOP_SET a1 a2 (Some a3)
                   else if strcaseeq subcmd "incrby" then bf_add st BITFIELDOP_INCRBY a1 a2 (Some a3)
                   else inr ErrSyntax) with
            | inl st => bf_parse rest st
            | inr e => inr e
            end
          end
      end
  end.

(** What SET and INCRBY are to store: the result of the overflow check, the new value and
    the value to reply. On [BFOVERFLOW_FAIL] the code copies an indeterminate [wrapped],
    which is not used. *)
Definition bf_newval (op : bitfieldOp) (oldval : Z) : option (Z * Z * Z) :=
  let conv := if bf_sign op then s64 else u64 in
  let check := if bf_sign op then checkSignedBitfieldOverflow else checkUnsignedBitfieldOverflow in
  if decide (bf_opcode op = BITFIELDOP_INCRBY) then
    let newval := conv (oldval + bf_i64 op) in
    '(overflow, wrapped) ← check oldval (bf_i64 op) (bf_bits op) (bf_owtype op);
    let newval := if overflow =? 0 then newval else default 0 wrapped in
    Some (overflow, newval, newval)
  else
    let newval := conv (bf_i64 op) in
    '(overflow, wrapped) ← check newval 0 (bf_bits op) (bf_owtype op);
    let newval := if overflow =? 0 then newval else default 0 wrapped in
    Some (overflow, newval, oldval).

(** SET and INCRBY on the bytes [p] of the string: the bytes after it and the reply. *)
Definition bf_write (op : bitfieldOp) (p : list Z) : option (list Z * breply) :=
  oldval ← (if bf_sign op then getSignedBitfield p (bf_offset op) (bf_bits op)
            else getUnsignedBitfield p (bf_offset op) (bf_bits op));
  '(overflow, newval, retval) ← bf_newval op oldval;
  if negb (overflow =? 0) && bool_decide (bf_owtype op = BFOVERFLOW_FAIL) then Some (p, RNull) else
  p ← (if bf_sign op then setSignedBitfield p (bf_offset op) (bf_bits op) newval
       else setUnsignedBitfield p (bf_offset op) (bf_bits op) newval);
  Some (p, RInt (s64 retval)).

(** Copy up to nine bytes of the string from [byte] on to the local buffer. *)
Fixpoint bf_copy (n : nat) (src : list Z) (i byte : Z) (buf : list Z) : option (list Z) :=
  match n with
  | O => Some buf
  | S n =>
    if i + byte >=? Z.of_nat (length src) then Some buf else
    x ← rd1 src (i + byte); buf ← wr buf i [x]; bf_copy n src (i + 1) byte buf
  end.

(** GET; [src] is [None] when the key does not exist. *)
Definition bf_get (op : bitfieldOp) (src : option (list Z)) : option breply :=
  let byte := Z.shiftr (bf_offset op) 3 in
  buf ← match src with
        | None => Some (replicate 9 0)
        | Some src => bf_copy 9 src 0 byte (replicate 9 0)
        end;
  val ← (if bf_sign op then getSignedBitfield buf (bf_offset op - byte * 8) (bf_bits op)
         else getUnsignedBitfield buf (bf_offset op - byte * 8) (bf_bits op));
  Some (RInt (s64 val)).

(** All operations in order: the object, the replies and the number of changes. *)
Fixpoint bf_exec (l : list bitfieldOp) (o : option vobj) (replies : list breply) (changes : Z)
    : option (option vobj * list breply * Z) :=
  match l with
  | [] => Some (o, replies, changes)
  | op :: l =>
    if decide (bf_opcode op = BITFIELDOP_GET) then
      src ← match o with None => Some None | Some o => Some <$> getObjectReadOnlyString o end;
      r ← bf_get op src; bf_exec l o (replies ++ [r]) changes
    else
      match o with
      | Some (VStr p) =>
        '(p, r) ← bf_write op p; bf_exec l (Some (VStr p)) (replies ++ [r]) (changes + 1)
      | _ => None
      end
  end.

(** [args] are the arguments after the key. *)
Definition bitfieldCommand (o : option vobj) (args : list (list Z)) : option bresult :=
  match bf_parse args (BfParse [] BFOVERFLOW_WRAP true 0) with
  | inr e => fails o e
  | inl st =>
    r ← (if readonly st then
           Some (match o with Some VOther => inr ErrWrongType | _ => inl o end)
         else
           r ← lookupStringForBitCommand o (higest_write_offset st);
           Some (match r with inl s => inl (Some (VStr s)) | inr e => inr e end));
    match r with
    | inr e => fails o e
    | inl o' =>
      '(o', l, changes) ← bf_exec (ops st) o' [] 0;
      Some (Res o' changes (RMulti l))
    end
  end.
