(* ===== verification/BitScan.v ===== *)
(** * Counting and searching bits

    A string of bytes as the sequence of its bits, and the routines of bitops.c that count
    and search them: [redisPopcount], [redisBitpos] and the commands BITCOUNT and BITPOS. *)

From S2P Require Import Prelude Bits Util Bitops.

(** ** The bits of a string *)

(** The [n] low bits of [v], the most significant one first. *)
Definition bbits (n : nat) (v : Z) : list bool :=
  map (fun j => Z.testbit v (Z.of_nat n - 1 - Z.of_nat j)) (seq 0 n).

(** The bit at position 0 of a string is the most significant bit of its first byte. *)
Definition bitmap (s : list Z) : list bool := mjoin (bbits 8 <$> s).

Fixpoint ones (l : list bool) : Z :=
  match l with [] => 0 | b :: l => Z.b2z b + ones l end.

Fixpoint find_bit (bit : bool) (l : list bool) : option Z :=
  match l with
  | [] => None
  | b :: l => if Bool.eqb b bit then Some 0 else Z.succ <$> find_bit bit l
  end.

(** [count] bytes from [p] on. *)
Definition sub (s : list Z) (p : Z) (count : nat) : list Z := take count (drop (Z.to_nat p) s).

Lemma length_bbits n v : length (bbits n v) = n.
Proof. unfold bbits. by rewrite length_map, length_seq. Qed.

Lemma bbits_S n v : bbits (S n) v = Z.testbit v (Z.of_nat n) :: bbits n v.
Proof.
  unfold bbits. cbn [seq map]. f_equal; [f_equal; lia|].
  rewrite <-seq_shift, map_map. apply map_ext. intros j. f_equal. lia.
Qed.

Lemma lookup_bbits n v i :
  (i < n)%nat -> bbits n v !! i = Some (Z.testbit v (Z.of_nat n - 1 - Z.of_nat i)).
Proof.
  revert i. induction n as [|n IH]; intros i Hi; [lia|]. rewrite bbits_S.
  destruct i as [|i]; cbn [lookup list_lookup]; [do 2 f_equal; lia|].
  change (bbits n v !! i = Some (Z.testbit v (Z.of_nat (S n) - 1 - Z.of_nat (S i)))).
  rewrite IH by lia. do 2 f_equal. lia.
Qed.

Lemma bbits_ext n v w :
  (forall i, 0 <= i < Z.of_nat n -> Z.testbit v i = Z.testbit w i) -> bbits n v = bbits n w.
Proof.
  intros H. apply list_eq. intros i. destruct (decide (i < n)%nat).
  - rewrite !lookup_bbits by done. f_equal. apply H. lia.
  - rewrite !lookup_ge_None_2; rewrite ?length_bbits; lia || done.
Qed.

Lemma testbit_shift_add v x m i :
  0 <= m -> 0 <= i -> 0 <= x < 2 ^ m ->
  Z.testbit (x + v * 2 ^ m) i = if i <? m then Z.testbit x i else Z.testbit v (i - m).
Proof.
  intros Hm Hi Hx. rewrite <-lor_shiftl, Z.lor_spec, Z.shiftl_spec by lia.
  destruct (Z.ltb_spec i m); [rewrite (Z.testbit_neg_r _ (i - m)) by lia; apply orb_false_r|].
  by rewrite (testbit_small x m) by lia.
Qed.

Lemma bbits_app n m v x :
  0 <= x < 2 ^ Z.of_nat m -> bbits (n + m) (x + v * 2 ^ Z.of_nat m) = bbits n v ++ bbits m x.
Proof.
  intros Hx. induction n as [|n IH]; cbn [Nat.add].
  - apply bbits_ext. intros i Hi. rewrite testbit_shift_add by lia.
    by rewrite (proj2 (Z.ltb_lt _ _)) by lia.
  - rewrite !bbits_S, IH. cbn [app]. f_equal. rewrite testbit_shift_add by lia.
    rewrite (proj2 (Z.ltb_ge _ _)) by lia. f_equal. lia.
Qed.

Lemma bitmap_cons b s : bitmap (b :: s) = bbits 8 b ++ bitmap s.
Proof. done. Qed.

Lemma bitmap_app s t : bitmap (s ++ t) = bitmap s ++ bitmap t.
Proof. induction s as [|b s IH]; [done|]. by rewrite <-app_comm_cons, !bitmap_cons, IH, app_assoc. Qed.

Lemma length_bitmap s : length (bitmap s) = (8 * length s)%nat.
Proof. induction s as [|b s IH]; [done|]. rewrite bitmap_cons, length_app, length_bbits, IH. cbn [length]. lia. Qed.

Lemma ones_app l k : ones (l ++ k) = ones l + ones k.
Proof. induction l as [|b l IH]; [done|]. cbn. rewrite IH. lia. Qed.

Lemma ones_range l : 0 <= ones l <= Z.of_nat (length l).
Proof. induction l as [|[] l IH]; cbn [ones length Z.b2z]; lia. Qed.

Lemma ones_bitmap_app s t : ones (bitmap (s ++ t)) = ones (bitmap s) + ones (bitmap t).
Proof. by rewrite bitmap_app, ones_app. Qed.

Lemma find_bit_app bit l k :
  find_bit bit (l ++ k) =
  match find_bit bit l with
  | Some i => Some i
  | None => Z.add (Z.of_nat (length l)) <$> find_bit bit k
  end.
Proof.
  induction l as [|b l IH]; cbn [find_bit app length].
  - by destruct (find_bit bit k).
  - destruct (Bool.eqb b bit); [done|]. rewrite IH. destruct (find_bit bit l); [done|].
    destruct (find_bit bit k); cbn; [f_equal; lia|done].
Qed.

Lemma find_bit_None bit l : find_bit bit l = None <-> bit ∉ l.
Proof.
  induction l as [|b l IH]; cbn [find_bit]; [split; [intros _; apply not_elem_of_nil|done]|].
  rewrite not_elem_of_cons. destruct (eqb_spec b bit) as [->|Hb]; [split; [done|by intros []]|].
  rewrite fmap_None, IH. split; [intros; split; congruence|tauto].
Qed.

Lemma find_bit_range bit l i : find_bit bit l = Some i -> 0 <= i < Z.of_nat (length l).
Proof.
  revert i. induction l as [|b l IH]; intros i; cbn [find_bit length]; [done|].
  destruct (Bool.eqb b bit); [intros [= <-]; lia|].
  destruct (find_bit bit l) as [k|]; [|done]. intros [= <-]. specialize (IH k eq_refl). lia.
Qed.

(** ** Reading a block *)

Lemma rd1_drop s p : 0 <= p -> rd1 s p = head (drop (Z.to_nat p) s).
Proof.
  intros. unfold rd1. rewrite bool_decide_true by done.
  rewrite <-(Nat.add_0_r (Z.to_nat p)), <-lookup_drop, Nat.add_0_r. by destruct (drop _ s).
Qed.

Lemma drop_S_Z (s : list Z) p b rest :
  0 <= p -> drop (Z.to_nat p) s = b :: rest -> drop (Z.to_nat (p + 1)) s = rest.
Proof.
  intros Hp E. replace (Z.to_nat (p + 1)) with (Z.to_nat p + 1)%nat by lia.
  rewrite <-drop_drop, E. done.
Qed.

Lemma drop_add_Z (s : list Z) p a rest k :
  0 <= p -> drop (Z.to_nat p) s = a ++ rest -> k = Z.of_nat (length a) -> drop (Z.to_nat (p + k)) s = rest.
Proof.
  intros Hp E ->. rewrite Z2Nat.inj_add, Nat2Z.id, <-drop_drop, E by lia. apply drop_app_length.
Qed.

Lemma rd_drop s p a rest k :
  0 <= p -> drop (Z.to_nat p) s = a ++ rest -> a <> [] -> k = Z.of_nat (length a) -> rd s p k = Some a.
Proof.
  intros Hp E Ha ->. apply rd_Some.
  pose proof (f_equal length E) as El. rewrite length_drop, length_app in El.
  destruct a as [|x a]; [done|]. cbn [length] in *. split_and!; [lia..|].
  rewrite E, Nat2Z.id. symmetry. exact (take_app_length (x :: a) rest).
Qed.

(** ** Counting *)

(** The table and the steps on the bytes of a word, checked on every byte. *)
Definition pc (b : Z) : Z := ones (bbits 8 b).

Lemma bitsinbyte_pc b : is_byte b -> bitsinbyte !! Z.to_nat b = Some (pc b).
Proof.
  intros Hb.
  assert (forallb (fun b => bool_decide (bitsinbyte !! Z.to_nat b = Some (pc b))) (map Z.of_nat (seq 0 256)) = true)
    as C by (vm_compute; reflexivity).
  exact (bool_decide_eq_true_1 _ (check_range 256 _ C b Hb)).
Qed.

Definition swar1 (b : Z) : Z := b - Z.land (Z.shiftr b 1) 0x55.
Definition swar2 (b : Z) : Z := Z.land b 0x33 + Z.land (Z.shiftr b 2) 0x33.

Lemma swar_byte b : is_byte b ->
  is_byte (swar1 b) /\
  exists hi lo, swar2 (swar1 b) = 16 * hi + lo /\ 0 <= hi <= 4 /\ 0 <= lo <= 4 /\ hi + lo = pc b.
Proof.
  intros Hb.
  pose proof (check_range 256 (fun b => let c := swar1 b in let d := swar2 c in
    (0 <=? c) && (c <? 256) && (0 <=? d) && (d / 16 <=? 4) && (d mod 16 <=? 4) && (d / 16 + d mod 16 =? pc b))
    ltac:(vm_compute; reflexivity) b Hb) as H. cbv beta zeta in H. zbool.
  split; [unfold is_byte; lia|]. exists (swar2 (swar1 b) / 16), (swar2 (swar1 b) mod 16). zlia.
Qed.

(** Masks act on the low byte and on the rest. *)
Lemma land_byte b x m y :
  is_byte b -> is_byte m -> Z.land (b + 256 * x) (m + 256 * y) = Z.land b m + 256 * Z.land x y.
Proof.
  intros Hb Hm. rewrite !(Z.mul_comm 256). change 256 with (2 ^ 8).
  assert (0 <= Z.land b m < 2 ^ 8) by (apply land_range; unfold is_byte in *; lia).
  bitwise i Hi. rewrite Z.land_spec, !testbit_shift_add, !Z.land_spec by (unfold is_byte in *; lia).
  by destruct (i <? 8).
Qed.

Lemma shr_land_byte k b x m y :
  0 <= k <= 8 -> is_byte b -> 0 <= m < 2 ^ (8 - k) ->
  Z.land (Z.shiftr (b + 256 * x) k) (m + 256 * y) = Z.land (Z.shiftr b k) m + 256 * Z.land (Z.shiftr x k) y.
Proof.
  intros Hk Hb Hm. rewrite !(Z.mul_comm 256). change 256 with (2 ^ 8).
  assert (2 ^ (8 - k) <= 2 ^ 8) by (apply Z.pow_le_mono_r; lia).
  assert (0 <= Z.shiftr b k) by (apply Z.shiftr_nonneg; unfold is_byte in *; lia).
  assert (0 <= Z.land (Z.shiftr b k) m < 2 ^ 8) by (apply land_range; lia).
  bitwise i Hi.
  rewrite Z.land_spec, Z.shiftr_spec, !testbit_shift_add, !Z.land_spec, !Z.shiftr_spec by (unfold is_byte in *; lia).
  destruct (Z.ltb_spec i 8), (Z.ltb_spec (i + k) 8); try lia; [done| |rewrite Z.shiftr_spec by lia; by replace (i - 8 + k) with (i + k - 8) by lia].
  rewrite (testbit_small m (8 - k)) by lia. by rewrite !andb_false_r.
Qed.

(** A word of four bytes. *)
Definition word4 (b0 b1 b2 b3 : Z) : Z := b0 + 256 * (b1 + 256 * (b2 + 256 * b3)).

Lemma land_word4 b0 b1 b2 b3 m :
  is_byte b0 -> is_byte b1 -> is_byte b2 -> is_byte b3 -> is_byte m ->
  Z.land (word4 b0 b1 b2 b3) (word4 m m m m) =
  word4 (Z.land b0 m) (Z.land b1 m) (Z.land b2 m) (Z.land b3 m).
Proof. intros. unfold word4. by rewrite !land_byte. Qed.

Lemma shr_land_word4 k b0 b1 b2 b3 m :
  0 <= k <= 8 -> is_byte b0 -> is_byte b1 -> is_byte b2 -> is_byte b3 -> 0 <= m < 2 ^ (8 - k) ->
  Z.land (Z.shiftr (word4 b0 b1 b2 b3) k) (word4 m m m m) =
  word4 (Z.land (Z.shiftr b0 k) m) (Z.land (Z.shiftr b1 k) m) (Z.land (Z.shiftr b2 k) m) (Z.land (Z.shiftr b3 k) m).
Proof. intros. unfold word4. by rewrite !shr_land_byte. Qed.

Lemma swar_step1_word b0 b1 b2 b3 :
  is_byte b0 -> is_byte b1 -> is_byte b2 -> is_byte b3 ->
  swar_step1 (word4 b0 b1 b2 b3) = word4 (swar1 b0) (swar1 b1) (swar1 b2) (swar1 b3).
Proof.
  intros H0 H1 H2 H3. unfold swar_step1. change 0x55555555 with (word4 0x55 0x55 0x55 0x55).
  rewrite shr_land_word4 by (done || lia).
  destruct (swar_byte b0 H0) as [R0 _], (swar_byte b1 H1) as [R1 _], (swar_byte b2 H2) as [R2 _], (swar_byte b3 H3) as [R3 _].
  unfold swar1, is_byte, word4 in *. rewrite wrapu_small; pow2; lia.
Qed.

Lemma swar_step2_word b0 b1 b2 b3 :
  is_byte b0 -> is_byte b1 -> is_byte b2 -> is_byte b3 ->
  swar_step2 (word4 b0 b1 b2 b3) = word4 (swar2 b0) (swar2 b1) (swar2 b2) (swar2 b3).
Proof.
  intros H0 H1 H2 H3. unfold swar_step2. change 0x33333333 with (word4 0x33 0x33 0x33 0x33).
  rewrite land_word4, shr_land_word4 by (done || lia || (unfold is_byte; lia)).
  assert (forall b, is_byte b -> 0 <= Z.land b 51 < 2 ^ 6 /\ 0 <= Z.land (Z.shiftr b 2) 51 < 2 ^ 6) as R.
  { unfold is_byte. intros b Hb. split; apply land_range; try lia. apply Z.shiftr_nonneg. lia. }
  pose proof (R b0 H0). pose proof (R b1 H1). pose proof (R b2 H2). pose proof (R b3 H3).
  change (2 ^ 6) with 64 in *. unfold swar2, word4 in *. rewrite wrapu_small; pow2; lia.
Qed.

Lemma swar_step3_word h0 l0 h1 l1 h2 l2 h3 l3 :
  0 <= h0 <= 4 -> 0 <= l0 <= 4 -> 0 <= h1 <= 4 -> 0 <= l1 <= 4 ->
  0 <= h2 <= 4 -> 0 <= l2 <= 4 -> 0 <= h3 <= 4 -> 0 <= l3 <= 4 ->
  swar_step3 (word4 (16 * h0 + l0) (16 * h1 + l1) (16 * h2 + l2) (16 * h3 + l3)) =
  word4 (h0 + l0) (h1 + l1) (h2 + l2) (h3 + l3).
Proof.
  intros. unfold swar_step3.
  assert (Z.shiftr (word4 (16 * h0 + l0) (16 * h1 + l1) (16 * h2 + l2) (16 * h3 + l3)) 4 =
          word4 (h0 + 16 * l1) (h1 + 16 * l2) (h2 + 16 * l3) h3) as ->.
  { rewrite Z.shiftr_div_pow2 by lia. change (2 ^ 4) with 16. unfold word4. zlia. }
  rewrite wrapu_small by (unfold word4; pow2; lia).
  replace (_ + _) with (word4 (h0 + l0 + 16 * (h0 + l1)) (h1 + l1 + 16 * (h1 + l2))
    (h2 + l2 + 16 * (h2 + l3)) (h3 + l3 + 16 * h3)) by (unfold word4; lia).
  change 0x0F0F0F0F with (word4 15 15 15 15). rewrite land_word4 by (unfold is_byte; lia).
  change 15 with (Z.ones 4). rewrite !Z.land_ones by lia. change (2 ^ 4) with 16.
  f_equal; zlia.
Qed.

Lemma pc_range b : 0 <= pc b <= 8.
Proof. unfold pc. pose proof (ones_range (bbits 8 b)) as H. rewrite length_bbits in H. lia. Qed.

Lemma swar_word b0 b1 b2 b3 :
  is_byte b0 -> is_byte b1 -> is_byte b2 -> is_byte b3 ->
  swar_step3 (swar_step2 (swar_step1 (le_decode [b0; b1; b2; b3]))) = word4 (pc b0) (pc b1) (pc b2) (pc b3).
Proof.
  intros H0 H1 H2 H3. replace (le_decode [b0; b1; b2; b3]) with (word4 b0 b1 b2 b3) by (unfold word4; cbn [le_decode]; lia).
  destruct (swar_byte b0 H0) as (R0&h0&l0&E0&?&?&<-), (swar_byte b1 H1) as (R1&h1&l1&E1&?&?&<-),
    (swar_byte b2 H2) as (R2&h2&l2&E2&?&?&<-), (swar_byte b3 H3) as (R3&h3&l3&E3&?&?&<-).
  rewrite swar_step1_word, swar_step2_word, E0, E1, E2, E3 by done. by apply swar_step3_word.
Qed.

Lemma word4_sum s0 s1 s2 s3 :
  0 <= s0 <= 56 -> 0 <= s1 <= 56 -> 0 <= s2 <= 56 -> 0 <= s3 <= 56 ->
  Z.shiftr (u32 (word4 s0 s1 s2 s3 * 0x01010101)) 24 = s0 + s1 + s2 + s3.
Proof.
  intros. replace (word4 s0 s1 s2 s3 * 0x01010101) with
    (s0 + 256 * (s0 + s1) + 65536 * (s0 + s1 + s2) + (s0 + s1 + s2 + s3) * 2 ^ 24 + (s1 + s2 + s3 + 256 * (s2 + s3) + 65536 * s3) * 2 ^ 32)
    by (unfold word4; change (2 ^ 24) with 16777216; pow2; lia).
  unfold wrapu. rewrite Z.mod_add, Z.mod_small, Z.shiftr_div_pow2 by (change (2 ^ 24) with 16777216; pow2; lia).
  rewrite Z.div_add, Z.div_small by (change (2 ^ 24) with 16777216; lia). lia.
Qed.

Lemma foldl_swar ws : Forall (fun w => length w = 4%nat /\ Forall is_byte w) ws -> (length ws <= 7)%nat ->
  exists s0 s1 s2 s3,
    foldl (fun a x => u32 (a + swar_step3 (swar_step2 (swar_step1 x)))) 0 (le_decode <$> ws) = word4 s0 s1 s2 s3 /\
    s0 + s1 + s2 + s3 = ones (bitmap (mjoin ws)) /\
    0 <= s0 <= 8 * Z.of_nat (length ws) /\ 0 <= s1 <= 8 * Z.of_nat (length ws) /\
    0 <= s2 <= 8 * Z.of_nat (length ws) /\ 0 <= s3 <= 8 * Z.of_nat (length ws).
Proof.
  induction ws as [|w ws IH] using rev_ind; intros Hw Hl; [exists 0, 0, 0, 0; split; [done|]; split; [done|]; cbn; lia|].
  apply Forall_app in Hw as [Hws [[Hw4 Hb] _]%Forall_cons]. rewrite length_app in Hl. cbn in Hl.
  destruct IH as (s0&s1&s2&s3&E&Es&?&?&?&?); [done|lia|].
  destruct w as [|b0 [|b1 [|b2 [|b3 [|]]]]]; try done. rewrite !Forall_cons in Hb. destruct Hb as (B0&B1&B2&B3&_).
  rewrite fmap_app, foldl_app, E, length_app. cbn [fmap list_fmap foldl length]. rewrite swar_word by done.
  pose proof (pc_range b0). pose proof (pc_range b1). pose proof (pc_range b2). pose proof (pc_range b3).
  exists (s0 + pc b0), (s1 + pc b1), (s2 + pc b2), (s3 + pc b3).
  split; [unfold word4; rewrite wrapu_small; pow2; lia|]. split; [|lia].
  rewrite join_app, ones_bitmap_app, <-Es. cbn [mjoin list_join].
  rewrite app_nil_r, !bitmap_cons, !ones_app. fold (pc b0) (pc b1) (pc b2) (pc b3). cbn. lia.
Qed.

Lemma pop_seven_spec ws : Forall (fun w => length w = 4%nat /\ Forall is_byte w) ws -> length ws = 7%nat ->
  pop_seven (le_decode <$> ws) = ones (bitmap (mjoin ws)).
Proof.
  intros Hw Hl. destruct (foldl_swar ws Hw) as (s0&s1&s2&s3&E&Es&?&?&?&?); [lia|].
  unfold pop_seven. rewrite E, <-Es. apply word4_sum; lia.
Qed.

Lemma sub_S s p c : 0 <= p -> p + Z.of_nat (S c) <= Z.of_nat (length s) ->
  exists b, rd1 s p = Some b /\ sub s p (S c) = b :: sub s (p + 1) c /\ b ∈ s.
Proof.
  intros Hp Hl. destruct (drop (Z.to_nat p) s) as [|b rest] eqn:E.
  { apply (f_equal length) in E. rewrite length_drop in E. cbn in E. lia. }
  exists b. unfold sub. rewrite rd1_drop, (drop_S_Z s p b rest) by done. rewrite E. split; [done|]. split; [done|].
  rewrite <-(take_drop (Z.to_nat p) s), E. rewrite elem_of_app, elem_of_cons. tauto.
Qed.

Lemma sub_add s p k c : 0 <= p -> (0 < k)%nat -> p + Z.of_nat (k + c) <= Z.of_nat (length s) ->
  exists a, rd s p (Z.of_nat k) = Some a /\ length a = k /\ sub s p (k + c) = a ++ sub s (p + Z.of_nat k) c /\ a ⊆ s.
Proof.
  intros Hp Hk Hl. exists (take k (drop (Z.to_nat p) s)).
  assert (length (take k (drop (Z.to_nat p) s)) = k) as L by (rewrite length_take, length_drop; lia).
  split; [apply rd_Some; rewrite Nat2Z.id; split_and!; [lia..|done]|]. split; [done|]. split.
  - unfold sub. rewrite <-take_take_drop, drop_drop. do 3 f_equal. lia.
  - intros x Hx%(subseteq_take k)%(subseteq_drop _). done.
Qed.

(** What is counted so far and what is left, which the loops keep. *)
Definition pop_inv (s : list Z) (p : Z) (count : nat) (bits total : Z) : Prop :=
  0 <= p /\ p + Z.of_nat count <= Z.of_nat (length s) /\ 0 <= bits /\ bits + 8 * Z.of_nat count < 2 ^ 64 /\
  bits + ones (bitmap (sub s p count)) = total.

Lemma pop_byte_step s p c bits total :
  Forall is_byte s -> pop_inv s p (S c) bits total ->
  exists bits', pop_byte s p bits = Some bits' /\ pop_inv s (p + 1) c bits' total.
Proof.
  intros Hs (Hp&Hl&Hb&Hw&<-). destruct (sub_S s p c Hp Hl) as (b&Hr&E&Hin).
  assert (is_byte b) by (by eapply Forall_forall in Hs).
  pose proof (pc_range b). exists (bits + pc b). unfold pop_byte. rewrite Hr. mred.
  rewrite bitsinbyte_pc by done. mred. rewrite wrapu_small by lia. split; [done|].
  unfold pop_inv. split_and!; [lia..|]. rewrite E, bitmap_cons, ones_app. fold (pc b). lia.
Qed.

Lemma pop_align_inv s addr total : Forall is_byte s -> forall count p bits, pop_inv s p count bits total ->
  exists count' p' bits', pop_align count addr s p bits = Some (count', p', bits') /\ pop_inv s p' count' bits' total.
Proof.
  intros Hs. induction count as [|c IH]; intros p bits Hi; cbn [pop_align]; [eauto 6|].
  destruct (Z.land (addr + p) 3 =? 0); [eauto 6|].
  destruct (pop_byte_step s p c bits total Hs Hi) as (bits'&->&Hi'). mred. by apply IH.
Qed.

Lemma pop_bytes_inv s total : Forall is_byte s -> forall count p bits, pop_inv s p count bits total ->
  pop_bytes count s p bits = Some total.
Proof.
  intros Hs. induction count as [|c IH]; intros p bits Hi; cbn [pop_bytes].
  - destruct Hi as (_&_&_&_&<-). unfold sub. rewrite take_0. f_equal. cbn. lia.
  - destruct (pop_byte_step s p c bits total Hs Hi) as (bits'&->&Hi'). mred. by apply IH.
Qed.

Lemma rd_split s p k a b : rd s p k = Some (a ++ b) -> a <> [] -> b <> [] ->
  rd s p (Z.of_nat (length a)) = Some a /\ rd s (p + Z.of_nat (length a)) (k - Z.of_nat (length a)) = Some b.
Proof.
  intros Hr Ha Hb. pose proof (rd_length _ _ _ _ Hr) as L. rewrite length_app in L.
  apply rd_Some in Hr as (?&?&?&E).
  assert (drop (Z.to_nat p) s = a ++ b ++ drop (Z.to_nat k) (drop (Z.to_nat p) s)) as D.
  { rewrite <-(take_drop (Z.to_nat k) (drop (Z.to_nat p) s)) at 1. by rewrite <-E, <-app_assoc. }
  split; [by eapply rd_drop|]. eapply (rd_drop s _ b); [lia| |done|lia]. by eapply drop_add_Z.
Qed.

(** Seven words of four bytes. *)
Lemma rd_seven s p a : rd s p 28 = Some a -> Forall is_byte a ->
  exists ws, (rd_u32 s <$> [p; p + 4; p + 8; p + 12; p + 16; p + 20; p + 24]) = Some <$> (le_decode <$> ws) /\
    Forall (fun w => length w = 4%nat /\ Forall is_byte w) ws /\ length ws = 7%nat /\ mjoin ws = a.
Proof.
  intros Hr Hb. pose proof (rd_length _ _ _ _ Hr) as L.
  assert (forall n q a, Z.of_nat (length a) = 4 * Z.of_nat n -> (0 < n)%nat -> Forall is_byte a ->
    rd s q (4 * Z.of_nat n) = Some a ->
    exists ws, (rd_u32 s <$> ((fun i => q + 4 * Z.of_nat i) <$> seq 0 n)) = Some <$> (le_decode <$> ws) /\
      Forall (fun w => length w = 4%nat /\ Forall is_byte w) ws /\ length ws = n /\ mjoin ws = a) as G.
  { clear. induction n as [|n IH]; intros q a L Hn Hb Hr; [lia|].
    destruct (decide (n = O)) as [->|Hn0].
    { exists [a]. cbn. rewrite app_nil_r, Z.add_0_r. unfold rd_u32. change (rd s q 4 = Some a) in Hr. rewrite Hr. mred. split; [done|]. split; [|done].
      constructor; [split; [lia|done]|done]. }
    rewrite <-(take_drop 4 a) in Hr, Hb. apply Forall_app in Hb as [Hb1 Hb2].
    assert (length (take 4 a) = 4%nat) as L4 by (rewrite length_take; lia).
    apply rd_split in Hr as [H1 H2];
      [|intros E; apply (f_equal length) in E; rewrite ?length_take, ?length_drop in E; cbn [length] in E; lia..].
    rewrite L4 in H1, H2. replace (4 * Z.of_nat (S n) - Z.of_nat 4) with (4 * Z.of_nat n) in H2 by lia.
    destruct (IH (q + Z.of_nat 4) (drop 4 a)) as (ws&Ew&Hw&Lw&J); [rewrite length_drop; lia|lia|done|done|].
    exists (take 4 a :: ws). split; [|split; [by constructor|split; [cbn; lia|change (take 4 a ++ mjoin ws = a); by rewrite J, take_drop]]].
    change (seq 0 (S n)) with (0%nat :: seq 1 n). rewrite !fmap_cons, <-Ew.
    f_equal; [unfold rd_u32; rewrite Z.add_0_r; change 4 with (Z.of_nat 4); by rewrite H1|].
    rewrite <-fmap_S_seq, <-!list_fmap_compose. apply list_fmap_ext.
    intros i x _. unfold compose. f_equal. lia. }
  destruct (G 7%nat p a L ltac:(lia) Hb Hr) as (ws&E&?&?&?). exists ws. split; [|done].
  rewrite <-E. cbn. rewrite Z.add_0_r. done.
Qed.

Lemma pop_words_inv s total : Forall is_byte s -> forall fuel count p bits,
  (count < fuel)%nat -> pop_inv s p count bits total ->
  exists count' p' bits', pop_words fuel count s p bits = Some (count', p', bits') /\ pop_inv s p' count' bits' total.
Proof.
  intros Hs. induction fuel as [|fuel IH]; intros count p bits Hf Hi; [lia|]. cbn [pop_words].
  destruct (Nat.leb_spec 28 count); [|eauto 6].
  destruct Hi as (Hp&Hl&Hb&Hw&<-). replace count with (28 + (count - 28))%nat in Hl by lia.
  destruct (sub_add s p 28 (count - 28) Hp ltac:(lia) Hl) as (a&Hr&La&E&Hin).
  assert (Forall is_byte a) as Ha by (rewrite Forall_forall in *; eauto).
  destruct (rd_seven s p a Hr Ha) as (ws&Ew&Hws&Lw&<-).
  destruct ws as [|w1 [|w2 [|w3 [|w4 [|w5 [|w6 [|w7 [|]]]]]]]]; try done.
  pose proof (pop_seven_spec _ Hws Lw) as P. set (n := ones (bitmap (mjoin _))) in P.
  assert (0 <= n <= 8 * 28) as Hn.
  { pose proof (ones_range (bitmap (mjoin [w1; w2; w3; w4; w5; w6; w7]))) as R. rewrite length_bitmap, La in R. fold n in R. lia. }
  cbn [fmap list_fmap] in Ew, P. injection Ew as E1 E2 E3 E4 E5 E6 E7.
  rewrite E1, E2, E3, E4, E5, E6, E7. mred. rewrite P, wrapu_small by lia. apply IH; [lia|].
  unfold pop_inv. split_and!; [lia..|].
  replace count with (28 + (count - 28))%nat at 2 by lia. rewrite E, ones_bitmap_app. fold n.
  change (Z.of_nat 28) with 28. lia.
Qed.

Lemma redisPopcount_spec addr s p count :
  Forall is_byte s -> 0 <= p -> p + Z.of_nat count <= Z.of_nat (length s) -> 8 * Z.of_nat count < 2 ^ 64 ->
  redisPopcount addr s p count = Some (ones (bitmap (sub s p count))).
Proof.
  intros Hs Hp Hl Hw. unfold redisPopcount.
  destruct (pop_align_inv s addr (ones (bitmap (sub s p count))) Hs count p 0) as (c1&p1&b1&->&I1); [by split_and!|].
  mred. destruct (pop_words_inv s _ Hs (S c1) c1 p1 b1 ltac:(lia) I1) as (c2&p2&b2&->&I2). mred.
  by apply pop_bytes_inv.
Qed.

(** ** Searching *)

(** The byte that holds no [bit]. *)
Definition skip_byte (bit : bool) : Z := if bit then 0 else 255.

Lemma skip_byte_eq bit : (if Z.b2z bit =? 0 then 255 else 0) = skip_byte bit.
Proof. by destruct bit. Qed.

Lemma find_bit_skip bit : find_bit bit (bbits 8 (skip_byte bit)) = None.
Proof. by destruct bit. Qed.

Lemma find_other bit b : is_byte b -> b <> skip_byte bit -> is_Some (find_bit bit (bbits 8 b)).
Proof.
  intros Hb Hn. apply not_eq_None_Some. intros E.
  pose proof (check_range 256 (fun b => (b =? skip_byte bit) || bool_decide (is_Some (find_bit bit (bbits 8 b))))
    ltac:(destruct bit; vm_compute; reflexivity) b Hb) as H. cbv beta in H.
  apply orb_true_iff in H as [H|H]; [zbool; done|]. apply bool_decide_eq_true in H as [i H]. congruence.
Qed.

Lemma find_skips bit n : find_bit bit (bitmap (replicate n (skip_byte bit))) = None.
Proof. induction n as [|n IH]; [done|]. cbn [replicate]. by rewrite bitmap_cons, find_bit_app, find_bit_skip, IH. Qed.

(** [c], [count] and [pos]: what is left and what was skipped of [count0] bytes at [p0]. *)
Definition pos_inv (s : list Z) (bit : bool) (p0 : Z) (count0 : nat) (c : Z) (count : nat) (pos : Z) : Prop :=
  0 <= c /\ c + Z.of_nat count <= Z.of_nat (length s) /\ pos + 8 * Z.of_nat count = 8 * Z.of_nat count0 /\
  find_bit bit (bitmap (sub s p0 count0)) = Z.add pos <$> find_bit bit (bitmap (sub s c count)).

Lemma pos_inv_skip s bit p0 count0 c k count pos :
  (0 < k)%nat -> pos_inv s bit p0 count0 c (k + count) pos -> sub s c k = replicate k (skip_byte bit) ->
  pos_inv s bit p0 count0 (c + Z.of_nat k) count (pos + 8 * Z.of_nat k).
Proof.
  intros Hk (Hc&Hl&Hp&E) Hs. destruct (sub_add s c k count Hc Hk Hl) as (a&Hr&La&Es&_).
  assert (a = replicate k (skip_byte bit)) as ->.
  { rewrite <-Hs. apply rd_Some in Hr as (_&_&_&->). by rewrite Nat2Z.id. }
  unfold pos_inv. split_and!; [lia..|]. rewrite E, Es, bitmap_app, find_bit_app, find_skips.
  rewrite length_bitmap, length_replicate. destruct (find_bit bit (bitmap (sub s (c + Z.of_nat k) count))); mred; [f_equal; lia|done].
Qed.

Section bitpos.
Context (s : list Z) (bit : bool) (p0 : Z) (count0 : nat) (Hs : Forall is_byte s).

(** The loops stop where the word that follows holds [bit], or where less than a word is
    left. *)
Definition pos_stop (c : Z) (count : nat) : Prop :=
  (count < 8)%nat \/ is_Some (find_bit bit (bitmap (sub s c (count `min` 8)))).

Lemma bitpos_bytes_inv addr count c pos : pos_inv s bit p0 count0 c count pos ->
  exists found c' count' pos', bitpos_bytes count addr s c (skip_byte bit) pos = Some (found, c', count', pos') /\
    pos_inv s bit p0 count0 c' count' pos' /\ (found = true -> pos_stop c' count').
Proof.
  revert c pos. induction count as [|count IH]; intros c pos Hi; cbn [bitpos_bytes];
    [by exists false, c, 0%nat, pos|].
  destruct (Z.land (addr + c) 7 =? 0); [by exists false, c, (S count), pos|].
  pose proof Hi as (Hc&Hl&_). destruct (sub_S s c count Hc Hl) as (b&Hr&E&Hin). rewrite Hr. mred.
  destruct (Z.eqb_spec b (skip_byte bit)) as [->|Hb].
  - apply IH. apply (pos_inv_skip s bit p0 count0 c 1 count pos); [lia|done|].
    destruct (sub_S s c 0 Hc) as (b&Hr'&E'&_); [lia|]. assert (b = skip_byte bit) as -> by congruence.
    rewrite E'. unfold sub. by rewrite take_0.
  - exists true, c, (S count), pos. split; [done|]. split; [done|]. intros _. right.
    destruct (S count `min` 8)%nat as [|k] eqn:Ek; [lia|].
    destruct (sub_S s c k Hc) as (b'&Hr'&E'&_); [lia|]. assert (b' = b) as -> by congruence.
    rewrite E', bitmap_cons, find_bit_app.
    destruct (find_other bit b) as [i ->]; [by eapply Forall_forall in Hs|done|done].
Qed.

Lemma word_skip w : length w = 8%nat -> Forall is_byte w ->
  le_decode w = (if bit then 0 else ULLONG_MAX) <-> w = replicate 8 (skip_byte bit).
Proof.
  intros L Hw. split; [intros E|intros ->; by destruct bit].
  rewrite <-(le_encode_decode w Hw), E, L. by destruct bit.
Qed.

Lemma has_bit_other w : Forall is_byte w -> w <> replicate (length w) (skip_byte bit) ->
  is_Some (find_bit bit (bitmap w)).
Proof.
  induction 1 as [|b w Hb Hw IH]; [done|]. intros Hn. rewrite bitmap_cons, find_bit_app.
  destruct (decide (b = skip_byte bit)) as [->|]; [|by destruct (find_other bit b) as [i ->]].
  rewrite find_bit_skip. destruct IH as [i ->]; [|done]. intros E. apply Hn. cbn. by f_equal.
Qed.

Lemma bitpos_words_inv fuel count c pos : (count < fuel)%nat -> pos_inv s bit p0 count0 c count pos ->
  exists c' count' pos', bitpos_words fuel count s c (if bit then 0 else ULLONG_MAX) pos = Some (c', count', pos') /\
    pos_inv s bit p0 count0 c' count' pos' /\ pos_stop c' count'.
Proof.
  revert count c pos. induction fuel as [|fuel IH]; intros count c pos Hf Hi; [lia|]. cbn [bitpos_words].
  destruct (Nat.leb_spec 8 count); [|exists c, count, pos; split; [done|]; split; [done|]; by left].
  pose proof Hi as (Hc&Hl&_). destruct (sub_add s c 8 (count - 8) Hc ltac:(lia)) as (w&Hr&Lw&E&Hin); [lia|].
  assert (Forall is_byte w) as Hw by (rewrite Forall_forall in *; eauto).
  assert (w = sub s c 8) as Ew by (apply rd_Some in Hr as (_&_&_&->); by rewrite Nat2Z.id).
  change (Z.of_nat 8) with 8 in Hr. rewrite Hr. mred. destruct (Z.eqb_spec (le_decode w) (if bit then 0 else ULLONG_MAX)) as [Es|Hn].
  - rewrite word_skip in Es by done. apply IH; [lia|].
    apply (pos_inv_skip s bit p0 count0 c 8 (count - 8) pos); [lia| |by rewrite <-Ew].
    by replace (8 + (count - 8))%nat with count by lia.
  - exists c, count, pos. split; [done|]. split; [done|]. right. rewrite Nat.min_r, <-Ew by lia.
    apply has_bit_other; [done|]. rewrite Lw. by rewrite word_skip in Hn.
Qed.
End bitpos.

Lemma bbits_0 n : bbits n 0 = replicate n false.
Proof. induction n as [|n IH]; [done|]. by rewrite bbits_S, IH, Z.bits_0. Qed.

Lemma bitpos_load_spec s : Forall is_byte s -> forall j i count c word,
  (i + j <= 8)%nat -> 0 <= c -> c + Z.of_nat count <= Z.of_nat (length s) -> 0 <= word < 2 ^ Z.of_nat (8 * i) ->
  exists w, bitpos_load j count s c word = Some w /\ 0 <= w < 2 ^ Z.of_nat (8 * (i + j)) /\
    bbits (8 * (i + j)) w =
    bbits (8 * i) word ++ bitmap (sub s c (count `min` j)) ++ replicate (8 * (j - count)) false.
Proof.
  intros Hs. induction j as [|j IH]; intros i count c word Hj Hc Hl Hw.
  { exists word. rewrite Nat.add_0_r, Nat.min_0_r. unfold sub. rewrite take_0. cbn [bitmap]. cbn. by rewrite app_nil_r. }
  assert (forall x, is_byte x -> bbits (8 * (i + 1)) (x + word * 2 ^ 8) = bbits (8 * i) word ++ bbits 8 x /\
    0 <= x + word * 2 ^ 8 < 2 ^ Z.of_nat (8 * (i + 1))) as Hx.
  { intros x Hx. unfold is_byte in Hx. replace (8 * (i + 1))%nat with (8 * i + 8)%nat by lia.
    split; [apply (bbits_app (8 * i) 8 word x); cbn; lia|].
    rewrite Nat2Z.inj_add, Z.pow_add_r by lia. change (2 ^ Z.of_nat 8) with 256. pow2. nia. }
  cbn [bitpos_load]. assert (u64 (Z.shiftl word 8) = word * 2 ^ 8) as ->.
  { rewrite Z.shiftl_mul_pow2 by lia. apply wrapu_small.
    assert (2 ^ Z.of_nat (8 * i) <= 2 ^ 56) by (apply Z.pow_le_mono_r; lia).
    change (2 ^ 56) with 72057594037927936 in *. pow2. nia. }
  replace (i + S j)%nat with ((i + 1) + j)%nat by lia. destruct count as [|count].
  - destruct (Hx 0 ltac:(unfold is_byte; lia)) as [E R]. rewrite Z.add_0_l in E, R.
    destruct (IH (i + 1)%nat O c (word * 2 ^ 8)) as (w&->&Rw&Ew); [lia..|]. exists w. split; [done|]. split; [done|].
    rewrite Ew, E, bbits_0, <-!app_assoc. cbn [Nat.min]. unfold sub. rewrite take_0. cbn [bitmap].
    rewrite !Nat.sub_0_r. change (8 * S j)%nat with (8 * S j)%nat. replace (8 * S j)%nat with (8 + 8 * j)%nat by lia.
    by rewrite replicate_add.
  - destruct (sub_S s c (count `min` j) Hc) as (b&Hr&Es&Hin); [lia|].
    assert (is_byte b) as Hb by (by eapply Forall_forall in Hs). destruct (Hx b Hb) as [E R].
    rewrite Hr. mred. rewrite Z.lor_comm, <-Z.shiftl_mul_pow2, lor_shiftl by (unfold is_byte in Hb; pow2; lia).
    destruct (IH (i + 1)%nat count (c + 1) (b + word * 2 ^ 8)) as (w&->&Rw&Ew); [lia..|]. exists w. split; [done|].
    split; [done|]. rewrite Ew, E, <-!app_assoc. f_equal. cbn [Nat.min]. rewrite Es, bitmap_cons, <-app_assoc.
    done.
Qed.

Lemma bitpos_scan_spec w bit k pos fuel : (k < fuel)%nat ->
  bitpos_scan fuel (Z.shiftr (2 ^ Z.of_nat k) 1) w (Z.b2z bit) pos = Z.add pos <$> find_bit bit (bbits k w).
Proof.
  revert pos fuel. induction k as [|k IH]; intros pos fuel Hf; (destruct fuel as [|fuel]; [lia|]); [done|].
  cbn [bitpos_scan]. rewrite bbits_S. cbn [find_bit].
  assert (Z.shiftr (2 ^ Z.of_nat (S k)) 1 = Z.shiftl 1 (Z.of_nat k)) as ->.
  { rewrite Nat2Z.inj_succ, Z.pow_succ_r, Z.shiftr_div_pow2, Z.shiftl_1_l by lia. change (2 ^ 1) with 2. zlia. }
  rewrite (proj2 (Z.eqb_neq (Z.shiftl 1 (Z.of_nat k)) 0)) by (rewrite Z.shiftl_1_l; apply Z.pow_nonzero; lia).
  rewrite Z.land_comm, land_bit_eqb, negb_involutive, Z.shiftl_1_l, IH by lia.
  destruct (Z.testbit w (Z.of_nat k)), bit; cbn [Z.b2z Z.eqb Bool.eqb]; mred;
    try (f_equal; lia); destruct (find_bit _ (bbits k w)); mred; f_equal; lia.
Qed.

Lemma elem_of_bbits n w i : (i < n)%nat -> Z.testbit w (Z.of_nat i) ∈ bbits n w.
Proof.
  intros Hi. apply (list_elem_of_lookup_2 _ (n - 1 - i)). rewrite lookup_bbits by lia. do 2 f_equal. lia.
Qed.

Lemma no_ones n w : 0 <= w < 2 ^ Z.of_nat n -> find_bit true (bbits n w) = None -> w = 0.
Proof.
  rewrite find_bit_None. intros Hw Hn. bitwise i Hi. rewrite Z.bits_0.
  destruct (decide (i < Z.of_nat n)); [|apply (testbit_small w (Z.of_nat n)); lia].
  pose proof (elem_of_bbits n w (Z.to_nat i) ltac:(lia)) as H. rewrite Z2Nat.id in H by done.
  by destruct (Z.testbit w i).
Qed.

(** What the last word tells about the bytes left. *)
Lemma last_word s bit c count w :
  0 <= c -> c + Z.of_nat count <= Z.of_nat (length s) -> 0 <= w < 2 ^ 64 -> pos_stop s bit c count ->
  bbits 64 w = bitmap (sub s c (count `min` 8)) ++ replicate (8 * (8 - count)) false ->
  match find_bit bit (bitmap (sub s c count)) with
  | Some i => find_bit bit (bbits 64 w) = Some i /\ (bit = true -> w <> 0)
  | None => if bit then w = 0 else find_bit bit (bbits 64 w) = Some (8 * Z.of_nat count)
  end.
Proof.
  intros Hc Hl Rw F E. assert (sub s c count = sub s c (count `min` 8) ++ drop 8 (sub s c count)) as Es.
  { rewrite <-(take_drop 8 (sub s c count)) at 1. unfold sub. rewrite take_take. do 2 f_equal. lia. }
  assert (forall i, find_bit true (bbits 64 w) = Some i -> w <> 0) as Hw0.
  { intros i Hi ->. by rewrite bbits_0 in Hi. }
  destruct (find_bit bit (bitmap (sub s c (count `min` 8)))) as [i|] eqn:Ei.
  - rewrite Es, bitmap_app, find_bit_app, E, find_bit_app, Ei. split; [done|]. intros ->.
    apply (Hw0 i). by rewrite E, find_bit_app, Ei.
  - assert (count < 8)%nat as Hc8 by (destruct F as [?|[? ?]]; [done|congruence]).
    rewrite Nat.min_l in E, Ei by lia. rewrite Ei.
    assert (length (sub s c count) = count) as L by (unfold sub; rewrite length_take, length_drop; lia).
    assert (exists k, (8 * (8 - count))%nat = S k) as [k Ek] by (exists (8 * (8 - count) - 1)%nat; lia).
    destruct bit.
    + apply (no_ones 64); [done|]. rewrite E, find_bit_app, Ei, Ek.
      assert (find_bit true (replicate (S k) false) = None) as ->; [|done].
      apply find_bit_None. intros [? _]%elem_of_replicate. done.
    + rewrite E, find_bit_app, Ei, Ek, length_bitmap, L. cbn. f_equal. lia.
Qed.

Lemma redisBitpos_spec addr s p count bit :
  Forall is_byte s -> 0 <= p -> p + Z.of_nat count <= Z.of_nat (length s) ->
  redisBitpos addr s p count (Z.b2z bit) =
  Some (default (if bit then -1 else 8 * Z.of_nat count) (find_bit bit (bitmap (sub s p count)))).
Proof.
  intros Hs Hp Hl. unfold redisBitpos. rewrite skip_byte_eq.
  destruct (bitpos_bytes_inv s bit p count Hs addr count p 0) as (found&c1&n1&pos1&->&I1&F1).
  { unfold pos_inv. split_and!; [lia..|]. by destruct (find_bit _ _). }
  mred. assert (exists c2 n2 pos2,
    (if found : bool then Some (c1, n1, pos1)
     else bitpos_words (S n1) n1 s c1 (if Z.b2z bit =? 0 then ULLONG_MAX else 0) pos1) = Some (c2, n2, pos2) /\
    pos_inv s bit p count c2 n2 pos2 /\ pos_stop s bit c2 n2) as (c2&n2&pos2&->&(Hc&Hl2&Hp2&E2)&F2).
  { destruct found; [by eauto 8|]. replace (if Z.b2z bit =? 0 then ULLONG_MAX else 0) with (if bit then 0 else ULLONG_MAX) by (by destruct bit).
    by apply bitpos_words_inv; [|lia|]. }
  mred. destruct (bitpos_load_spec s Hs 8 0 n2 c2 0) as (w&->&Rw&Ew); [lia|lia|lia|cbn; lia|]. mred.
  change (8 * (0 + 8))%nat with 64%nat in *. change (bbits (8 * 0) 0) with (@nil bool) in Ew. cbn [app] in Ew.
  pose proof (last_word s bit c2 n2 w Hc Hl2 Rw F2 Ew) as H.
  replace (u64 (Z.lnot (Z.shiftr ULLONG_MAX 1))) with (Z.shiftr (2 ^ Z.of_nat 64) 1) by reflexivity.
  rewrite bitpos_scan_spec, E2 by lia. destruct (find_bit bit (bitmap (sub s c2 n2))) as [i|].
  - destruct H as [-> Hw]. destruct bit; cbn [Z.b2z Z.eqb Pos.eqb andb]; [|done].
    by rewrite (proj2 (Z.eqb_neq w 0)) by auto.
  - destruct bit; [by rewrite H|]. rewrite H. cbn [Z.b2z Z.eqb andb]. mred. cbn [default]. f_equal. lia.
Qed.

(** ** BITCOUNT and BITPOS *)

(** The bytes of a string object; a string holds at most 512 MB. *)
Definition obj_bytes (o : vobj) : list Z :=
  match o with VStr s => s | VInt v => decimal v | VOther => [] end.

Definition string_obj (o : vobj) : Prop :=
  match o with
  | VStr s => Forall is_byte s /\ Z.of_nat (length s) <= 512 * 1024 * 1024
  | VInt v => LLONG_MIN <= v <= LLONG_MAX
  | VOther => False
  end.

Lemma int_text_spec n v : LLONG_MIN <= v <= LLONG_MAX -> 20 < n -> int_text n v = Some (decimal v).
Proof.
  intros Hv Hn. unfold int_text. destruct (ll2string_text (Z.to_nat n) v Hv) as (b&E&_&Er); [lia|].
  rewrite Z2Nat.id in E by lia. rewrite E. mred. done.
Qed.

Lemma decimal_is_byte v : Forall is_byte (decimal v).
Proof.
  assert (forall u, 0 <= u -> Forall is_byte (udecimal u)) as H.
  { intros u Hu. eapply Forall_impl; [by apply udecimal_digits|]. unfold is_digit, is_byte. intros c Hc. zbool. lia. }
  unfold decimal. destruct (Z.ltb_spec v 0); [constructor; [unfold is_byte; lia|]|]; apply H; lia.
Qed.

Lemma string_obj_bytes o : string_obj o ->
  Forall is_byte (obj_bytes o) /\ Z.of_nat (length (obj_bytes o)) <= 512 * 1024 * 1024.
Proof.
  destruct o as [s|v|]; cbn [string_obj obj_bytes]; [done| |done]. intros Hv.
  pose proof (decimal_bounds v Hv). split; [apply decimal_is_byte|lia].
Qed.

Lemma getObjectReadOnlyString_spec o : string_obj o -> getObjectReadOnlyString o = Some (obj_bytes o).
Proof. destruct o; cbn; [done| |done]. intros. by apply int_text_spec. Qed.

Lemma decoded_spec o : string_obj o -> decoded o = Some (obj_bytes o).
Proof. destruct o; cbn; [done| |done]. intros. by apply int_text_spec. Qed.

(** Indexes below zero count from the end; the range is put within the string. *)
Definition range_start (len start : Z) : Z := Z.max 0 (if start <? 0 then len + start else start).
Definition range_end (len end_ : Z) : Z := Z.min (len - 1) (Z.max 0 (if end_ <? 0 then len + end_ else end_)).

Definition range (s : list Z) (start end_ : Z) : list Z :=
  let b := range_start (Z.of_nat (length s)) start in
  sub s b (Z.to_nat (range_end (Z.of_nat (length s)) end_ - b + 1)).

Lemma clip_range_spec len start end_ :
  0 <= len -> clip_range len start end_ = (range_start len start, range_end len end_).
Proof.
  intros. unfold clip_range, range_start, range_end.
  destruct (Z.ltb_spec start 0), (Z.ltb_spec end_ 0);
    repeat match goal with |- context [Z.ltb ?a 0] => destruct (Z.ltb_spec a 0) end;
    match goal with |- context [Z.geb ?a ?b] => destruct (Z.geb_spec a b) end; apply (f_equal2 pair); lia.
Qed.

(** The first [bit] in a range: what BITPOS answers when no end is given, or else. *)
Definition range_pos (s : list Z) (bit : bool) (start end_ : Z) (end_given : bool) : Z :=
  let b := range_start (Z.of_nat (length s)) start in
  let e := range_end (Z.of_nat (length s)) end_ in
  if e <? b then -1 else
  match find_bit bit (bitmap (range s start end_)) with
  | Some i => 8 * b + i
  | None => if bit || end_given then -1 else 8 * (e + 1)
  end.

Lemma count_range_spec addr o s start end_ :
  Forall is_byte s -> Z.of_nat (length s) <= 512 * 1024 * 1024 -> 0 <= start -> end_ < Z.of_nat (length s) ->
  count_range addr o s start end_ = replies o (ones (bitmap (sub s start (Z.to_nat (end_ - start + 1))))).
Proof.
  intros Hs Hl H0 He. unfold count_range. destruct (Z.gtb_spec start end_).
  - replace (Z.to_nat (end_ - start + 1)) with O by lia. unfold sub. by rewrite take_0.
  - rewrite redisPopcount_spec by (pow2; lia || done). done.
Qed.

Lemma pos_range_spec addr o s bit start end_ given :
  Forall is_byte s -> 0 <= start -> end_ < Z.of_nat (length s) ->
  pos_range addr o s (Z.b2z bit) start end_ given =
  replies o (if end_ <? start then -1 else
    match find_bit bit (bitmap (sub s start (Z.to_nat (end_ - start + 1)))) with
    | Some i => 8 * start + i
    | None => if bit || given then -1 else 8 * (end_ + 1)
    end).
Proof.
  intros Hs H0 He. unfold pos_range. destruct (Z.gtb_spec start end_) as [|Hle];
    [by rewrite (proj2 (Z.ltb_lt _ _)) by lia|]. rewrite (proj2 (Z.ltb_ge _ _)) by lia.
  rewrite redisBitpos_spec by (done || lia). mred.
  destruct (find_bit bit (bitmap (sub s start _))) as [i|] eqn:E; cbn [from_option id].
  - apply find_bit_range in E. rewrite length_bitmap in E. unfold sub in E. rewrite length_take, length_drop in E.
    rewrite (proj2 (Z.eqb_neq i _)) by lia. rewrite andb_false_r, (proj2 (Z.eqb_neq i (-1))) by lia.
    f_equal. lia.
  - destruct bit; cbn [Z.b2z Z.eqb orb]; [by rewrite andb_false_r|].
    rewrite (proj2 (Z.eqb_eq (8 * _) _)), andb_true_r by lia. destruct given; [done|].
    rewrite (proj2 (Z.eqb_neq _ (-1))) by lia. cbn [andb]. f_equal. lia.
Qed.

Lemma sub_whole s : sub s 0 (Z.to_nat (Z.of_nat (length s) - 1 - 0 + 1)) = s.
Proof. unfold sub. rewrite drop_0. apply take_ge. lia. Qed.

(** C14: BITCOUNT and BITPOS on a string object (raw or encoded as an integer) count the
    ones, respectively find the first bit with the given value, in the bytes of the range
    and nowhere else, for every alignment of the string in memory; the routines that work
    by words of 4 and 8 bytes agree with the sequence of bits, never read out of bounds and
    never reach the panic at the end of [redisBitpos]. Without an explicit end the string is
    followed by zeros. *)
Theorem bitcount_bitpos_exact addr o bit a_bit :
  string_obj o -> getLongFromArg a_bit = Some (Z.b2z bit) ->
  bitcountCommand addr (Some o) [] = replies (Some o) (ones (bitmap (obj_bytes o))) /\
  bitposCommand addr (Some o) a_bit [] = replies (Some o) (range_pos (obj_bytes o) bit 0 (-1) false) /\
  forall a b start end_, getLongFromArg a = Some start -> getLongFromArg b = Some end_ ->
    bitcountCommand addr (Some o) [a; b] =
      replies (Some o) (if (start <? 0) && (end_ <? 0) && (start >? end_) then 0
                        else ones (bitmap (range (obj_bytes o) start end_))) /\
    bitposCommand addr (Some o) a_bit [a] = replies (Some o) (range_pos (obj_bytes o) bit start (-1) false) /\
    bitposCommand addr (Some o) a_bit [a; b] = replies (Some o) (range_pos (obj_bytes o) bit start end_ true).
Proof.
  intros Ho Hbit. pose proof (string_obj_bytes o Ho) as [Hs Hl].
  assert (negb (Z.b2z bit =? 0) && negb (Z.b2z bit =? 1) = false) as Hb by (by destruct bit).
  assert (forall start end_, 0 <= range_start (Z.of_nat (length (obj_bytes o))) start /\
    range_end (Z.of_nat (length (obj_bytes o))) end_ < Z.of_nat (length (obj_bytes o))) as R.
  { intros. unfold range_start, range_end. lia. }
  assert (range_start (Z.of_nat (length (obj_bytes o))) 0 = 0 /\
    range_end (Z.of_nat (length (obj_bytes o))) (-1) = Z.of_nat (length (obj_bytes o)) - 1) as [R0 R1].
  { unfold range_start, range_end. split; cbn [Z.ltb]; cbn; lia. }
  assert (range_end (Z.of_nat (length (obj_bytes o))) (Z.of_nat (length (obj_bytes o)) - 1) =
    Z.of_nat (length (obj_bytes o)) - 1) as R2.
  { unfold range_end. destruct (Z.ltb_spec (Z.of_nat (length (obj_bytes o)) - 1) 0); lia. }
  unfold bitcountCommand, bitposCommand. rewrite Hbit, Hb, !getObjectReadOnlyString_spec by done. mred.
  destruct o as [s|v|]; [| |done].
  all: rewrite count_range_spec, pos_range_spec by (done || lia).
  all: split; [by rewrite sub_whole|].
  all: split; [unfold range_pos, range; rewrite R0, R1; reflexivity|].
  all: intros a b start end_ Ha Hb'; destruct (R start end_) as [Rs Re].
  all: rewrite Ha, Hb', !clip_range_spec, R2, count_range_spec, !pos_range_spec by (done || lia).
  all: split; [by destruct ((start <? 0) && (end_ <? 0) && (start >? end_))|].
  all: split; [unfold range_pos, range; by rewrite R1|done].
Qed.

Lemma bitcount_bitpos_exact_witness :
  bitcountCommand 3 (Some (VStr (lit "foobar"))) [lit "1"; lit "-2"] = Some (Res (Some (VStr (lit "foobar"))) 0 (RInt 18)) /\
  bitposCommand 3 (Some (VStr [255; 240; 0])) (lit "0") [lit "0"] = Some (Res (Some (VStr [255; 240; 0])) 0 (RInt 12)).
Proof.
  assert (string_obj (VStr (lit "foobar")) /\ string_obj (VStr [255; 240; 0])) as [O1 O2].
  { split; (split; [by apply lit_bytes|cbn; lia]). }
  split.
  - destruct (bitcount_bitpos_exact 3 (VStr (lit "foobar")) false (lit "0") O1 eq_refl) as (_&_&H).
    exact (proj1 (H (lit "1") (lit "-2") 1 (-2) eq_refl eq_refl)).
  - destruct (bitcount_bitpos_exact 3 (VStr [255; 240; 0]) false (lit "0") O2 eq_refl) as (_&_&H).
    exact (proj1 (proj2 (H (lit "0") (lit "-1") 0 (-1) eq_refl eq_refl))).
Defined.
