(* ===== verification/BitField.v ===== *)
(** * Bit fields and BITFIELD

    The bit fields of bitops.c against an array of bits without end: reading and writing of
    signed and unsigned fields, the overflow checks, and the command BITFIELD, whose
    operations refine those on the array. *)

From S2P Require Import Prelude Bits Util Bitops BitScan.

(** ** The array of bits *)

(** The bit at position [i] of a string followed by zeros. *)
Definition bit_at (p : list Z) (i : Z) : bool := Z.testbit (nth (Z.to_nat (i / 8)) p 0) (7 - i mod 8).

Definition bval (l : list bool) : Z := foldl (fun v b => 2 * v + Z.b2z b) 0 l.

(** The [n] bits of an array from [off] on, as a number. *)
Definition ufield (m : Z -> bool) (off : Z) (n : nat) : Z :=
  bval (map (fun i => m (off + Z.of_nat i)) (seq 0 n)).

(** The array with the [n] low bits of [v] stored from [off] on. *)
Definition set_bits (m : Z -> bool) (off : Z) (n : nat) (v : Z) (i : Z) : bool :=
  if bool_decide (off <= i < off + Z.of_nat n) then Z.testbit v (Z.of_nat n - 1 - (i - off)) else m i.

Lemma foldl_bval l a : foldl (fun v b => 2 * v + Z.b2z b) a l = a * 2 ^ Z.of_nat (length l) + bval l.
Proof.
  unfold bval. revert a. induction l as [|b l IH]; intros a; cbn [foldl length]; [cbn; lia|].
  rewrite IH, (IH (2 * 0 + _)), Nat2Z.inj_succ, Z.pow_succ_r by lia. lia.
Qed.

Lemma bval_cons b l : bval (b :: l) = Z.b2z b * 2 ^ Z.of_nat (length l) + bval l.
Proof. unfold bval at 1. cbn [foldl]. rewrite foldl_bval. f_equal. Qed.

Lemma bval_range l : 0 <= bval l < 2 ^ Z.of_nat (length l).
Proof.
  induction l as [|b l IH]; [cbn; lia|]. rewrite bval_cons. cbn [length].
  rewrite Nat2Z.inj_succ, Z.pow_succ_r by lia. destruct b; cbn [Z.b2z]; lia.
Qed.

Lemma mod_pow2_S v n : 0 <= n -> v mod 2 ^ Z.succ n = Z.b2z (Z.testbit v n) * 2 ^ n + v mod 2 ^ n.
Proof.
  intros. rewrite Z.pow_succ_r, Z.testbit_spec' by lia. rewrite (Z.mul_comm 2), Z.rem_mul_r by lia. lia.
Qed.

Lemma bval_bbits n v : bval (bbits n v) = v mod 2 ^ Z.of_nat n.
Proof.
  induction n as [|n IH]; [by rewrite Z.mod_1_r|].
  rewrite bbits_S, bval_cons, length_bbits, IH, Nat2Z.inj_succ, mod_pow2_S by lia. done.
Qed.

Lemma ufield_S m off n : ufield m off (S n) = Z.b2z (m off) * 2 ^ Z.of_nat n + ufield m (off + 1) n.
Proof.
  unfold ufield. cbn [seq map]. rewrite bval_cons, length_map, length_seq, Z.add_0_r. do 2 f_equal.
  rewrite <-seq_shift, map_map. apply map_ext. intros i. f_equal. lia.
Qed.

Lemma ufield_range m off n : 0 <= ufield m off n < 2 ^ Z.of_nat n.
Proof. unfold ufield. pose proof (bval_range (map (fun i => m (off + Z.of_nat i)) (seq 0 n))) as H. by rewrite length_map, length_seq in H. Qed.

Lemma ufield_ext m m' off n : (forall i, off <= i < off + Z.of_nat n -> m i = m' i) -> ufield m off n = ufield m' off n.
Proof.
  intros H. unfold ufield. f_equal. apply map_ext_in. intros i Hi%in_seq. apply H. lia.
Qed.

Lemma ufield_set_bits m off n v : ufield (set_bits m off n v) off n = v mod 2 ^ Z.of_nat n.
Proof.
  rewrite <-bval_bbits. unfold ufield, bbits. f_equal. apply map_ext_in. intros i Hi%in_seq.
  unfold set_bits. rewrite bool_decide_true by lia. f_equal. lia.
Qed.

Lemma ufield_set_other m off n v off' n' :
  off' + Z.of_nat n' <= off \/ off + Z.of_nat n <= off' -> ufield (set_bits m off n v) off' n' = ufield m off' n'.
Proof. intros. apply ufield_ext. intros i Hi. unfold set_bits. by rewrite bool_decide_false by lia. Qed.

(** The array of a string is the sequence of its bits. *)
Lemma bit_at_bitmap p i : (i < 8 * length p)%nat -> bitmap p !! i = Some (bit_at p (Z.of_nat i)).
Proof.
  revert i. induction p as [|b p IH]; intros i Hi; [cbn in Hi; lia|]. rewrite bitmap_cons. unfold bit_at.
  destruct (decide (i < 8)%nat).
  - rewrite lookup_app_l, lookup_bbits by (rewrite ?length_bbits; lia).
    replace (Z.of_nat i / 8) with 0 by zlia. cbn [Z.to_nat nth]. do 2 f_equal. zlia.
  - rewrite lookup_app_r, length_bbits, IH by (rewrite ?length_bbits; cbn [length] in Hi; lia). unfold bit_at. f_equal.
    replace (Z.to_nat (Z.of_nat i / 8)) with (S (Z.to_nat (Z.of_nat (i - 8) / 8))) by zlia. cbn [nth]. f_equal. zlia.
Qed.

(** ** Reading *)

Lemma rd1_nth p i : 0 <= i < Z.of_nat (length p) -> rd1 p i = Some (nth (Z.to_nat i) p 0).
Proof.
  intros. unfold rd1. rewrite bool_decide_true by lia.
  destruct (lookup_lt_is_Some_2 p (Z.to_nat i)) as [b E]; [lia|]. rewrite E. f_equal. symmetry. by apply nth_lookup_Some.
Qed.

Lemma shiftr_3 x : Z.shiftr x 3 = x / 8.
Proof. by rewrite Z.shiftr_div_pow2 by lia. Qed.

Lemma getUnsignedBitfield_loop_spec p n : forall off v,
  0 <= off -> off + Z.of_nat n <= 8 * Z.of_nat (length p) -> 8 * Z.of_nat (length p) < 2 ^ 64 ->
  0 <= v -> v * 2 ^ Z.of_nat n + 2 ^ Z.of_nat n <= 2 ^ 64 ->
  getUnsignedBitfield_loop n p off v = Some (v * 2 ^ Z.of_nat n + ufield (bit_at p) off n).
Proof.
  induction n as [|n IH]; intros off v Ho Hl Hp Hv Hw; cbn [getUnsignedBitfield_loop]; [cbn; f_equal; lia|].
  rewrite shiftr_3, land_7, rd1_nth by zlia. mred.
  rewrite Nat2Z.inj_succ, Z.pow_succ_r in * by lia.
  assert (Z.lor (u64 (Z.shiftl v 1)) (Z.land (Z.shiftr (nth (Z.to_nat (off / 8)) p 0) (7 - off mod 8)) 1) =
    2 * v + Z.b2z (bit_at p off)) as ->.
  { rewrite Z.shiftl_mul_pow2, wrapu_small by (pow2; lia). rewrite <-Z.shiftl_mul_pow2 by lia.
    change 1 with (Z.ones 1) at 2. rewrite Z.land_ones by lia. rewrite <-Z.bit0_mod, Z.shiftr_spec by lia.
    rewrite Z.add_0_l. fold (bit_at p off). rewrite Z.lor_comm, lor_shiftl by (destruct (bit_at p off); cbn; lia). lia. }
  rewrite ufield_S, (wrapu_small 64 (off + 1)), IH by (pow2; destruct (bit_at p off); cbn [Z.b2z]; lia). f_equal. lia.
Qed.

Lemma getUnsignedBitfield_spec p off bits :
  0 <= off -> 0 <= bits <= 64 -> off + bits <= 8 * Z.of_nat (length p) -> 8 * Z.of_nat (length p) < 2 ^ 64 ->
  getUnsignedBitfield p off bits = Some (ufield (bit_at p) off (Z.to_nat bits)).
Proof.
  intros. assert (2 ^ bits <= 2 ^ 64) by (apply Z.pow_le_mono_r; lia).
  unfold getUnsignedBitfield. rewrite getUnsignedBitfield_loop_spec by (rewrite ?Z2Nat.id; lia). done.
Qed.

(** ** Writing *)

Lemma setUnsignedBitfield_step p off b :
  0 <= off < 8 * Z.of_nat (length p) -> Forall is_byte p ->
  exists p', (byteval ← rd1 p (off / 8);
    wr p (off / 8) [Z.land (Z.lor (Z.land byteval (u64 (Z.lnot (Z.shiftl 1 (7 - off mod 8)))))
                              (Z.shiftl (Z.b2z b) (7 - off mod 8))) 255]) = Some p' /\
    length p' = length p /\ Forall is_byte p' /\
    forall i, 0 <= i -> bit_at p' i = if i =? off then b else bit_at p i.
Proof.
  intros Ho Hb. set (x := nth (Z.to_nat (off / 8)) p 0). rewrite rd1_nth by zlia. mred. fold x.
  set (k := 7 - off mod 8). assert (0 <= k < 8) by (unfold k; zlia).
  set (y := Z.land _ 255). assert (is_byte y) as Hy.
  { unfold y. rewrite land_255. unfold is_byte. zlia. }
  assert (forall j, 0 <= j < 8 -> Z.testbit y j = if j =? k then b else Z.testbit x j) as Ey.
  { intros j Hj. unfold y. rewrite land_255. change 256 with (2 ^ 8). unfold wrapu.
    rewrite testbit_mod_pow2, (proj2 (Z.ltb_lt j 8)) by lia. cbn [andb].
    rewrite Z.lor_spec, Z.land_spec, testbit_mod_pow2, (proj2 (Z.ltb_lt j 64)), Z.lnot_spec, !Z.shiftl_spec by lia. cbn [andb].
    destruct (Z.eqb_spec j k) as [->|Hne].
    - rewrite Z.sub_diag. cbn [Z.testbit]. rewrite andb_false_r. by destruct b.
    - assert (forall v, 0 <= v < 2 -> Z.testbit v (j - k) = false) as T.
      { intros v Hv. destruct (Z.lt_ge_cases (j - k) 0); [by apply Z.testbit_neg_r|]. apply (testbit_small v 1); lia. }
      rewrite !T by (try destruct b; cbn; lia). by rewrite andb_true_r, orb_false_r. }
  destruct (wr_is_Some p (off / 8) [y]) as [p' Hw]; [zlia|cbn; zlia|]. exists p'. split; [done|].
  pose proof (wr_length _ _ _ _ Hw) as L. split; [done|]. split.
  { apply wr_Some in Hw as (_&_&->). rewrite !Forall_app. split; [by apply Forall_take|]. split; [by constructor|by apply Forall_drop]. }
  intros i Hi. unfold bit_at. destruct (decide (i / 8 = off / 8)) as [E|E].
  - rewrite E. replace (nth (Z.to_nat (off / 8)) p' 0) with y.
    2:{ symmetry. apply nth_lookup_Some. rewrite <-(Z.add_0_r (off / 8)).
        rewrite (wr_lookup_in _ _ _ _ 0 Hw) by (cbn; lia). done. }
    rewrite Ey by zlia. fold x. replace (7 - i mod 8 =? k) with (i =? off); [done|].
    unfold k. destruct (Z.eqb_spec i off), (Z.eqb_spec (7 - i mod 8) (7 - off mod 8)); (done || (exfalso; zlia)).
  - rewrite (proj2 (Z.eqb_neq i off)) by congruence. f_equal. rewrite !nth_lookup. f_equal.
    eapply wr_lookup_out; [done|zlia|cbn; lia].
Qed.

Lemma setUnsignedBitfield_loop_spec bits value n : forall p off j,
  0 <= off -> off + Z.of_nat n <= 8 * Z.of_nat (length p) -> 8 * Z.of_nat (length p) < 2 ^ 64 -> Forall is_byte p ->
  j + Z.of_nat n = bits ->
  exists p', setUnsignedBitfield_loop n p off bits value j = Some p' /\ length p' = length p /\ Forall is_byte p' /\
    forall i, 0 <= i -> bit_at p' i = set_bits (bit_at p) off n value i.
Proof.
  induction n as [|n IH]; intros p off j Ho Hl Hp Hb Hj; cbn [setUnsignedBitfield_loop].
  { exists p. split_and!; [done..|]. intros i Hi. unfold set_bits. by rewrite bool_decide_false by lia. }
  rewrite shiftr_3, land_7, land_bit_eqb by lia. replace (bits - 1 - j) with (Z.of_nat n) by lia.
  destruct (setUnsignedBitfield_step p off (Z.testbit value (Z.of_nat n))) as (p1&E1&L1&B1&G1); [lia|done|].
  apply bind_Some in E1 as (x&->&Hw). mred. replace (if negb _ then 0 else 1) with (Z.b2z (Z.testbit value (Z.of_nat n)))
    by (by destruct (Z.testbit value _)).
  rewrite Hw. mred. rewrite wrapu_small by lia.
  destruct (IH p1 (off + 1) (j + 1)) as (p2&->&L2&B2&G2); [lia..|done|lia|].
  exists p2. split; [done|]. split; [congruence|]. split; [done|].
  intros i Hi. rewrite G2 by done. unfold set_bits. rewrite G1 by done.
  destruct (Z.eqb_spec i off) as [->|Hne].
  - rewrite bool_decide_false, bool_decide_true by lia. f_equal. lia.
  - destruct (bool_decide_reflect (off + 1 <= i < off + 1 + Z.of_nat n)).
    + rewrite bool_decide_true by lia. f_equal. lia.
    + by rewrite bool_decide_false by lia.
Qed.

Lemma setUnsignedBitfield_spec p off bits value :
  0 <= off -> 0 <= bits -> off + bits <= 8 * Z.of_nat (length p) -> 8 * Z.of_nat (length p) < 2 ^ 64 -> Forall is_byte p ->
  exists p', setUnsignedBitfield p off bits value = Some p' /\ length p' = length p /\ Forall is_byte p' /\
    forall i, 0 <= i -> bit_at p' i = set_bits (bit_at p) off (Z.to_nat bits) value i.
Proof. intros. apply setUnsignedBitfield_loop_spec; try done; lia. Qed.

Lemma set_bits_u64 m off n v i :
  (n <= 64)%nat -> set_bits m off n (u64 v) i = set_bits m off n v i.
Proof.
  intros Hn. unfold set_bits. case_bool_decide; [|done]. unfold wrapu.
  rewrite testbit_mod_pow2, (proj2 (Z.ltb_lt _ _)) by lia. done.
Qed.

(** ** Signed fields *)

Lemma wraps_cases n x : 0 < n ->
  wraps n x = if x mod 2 ^ n <? 2 ^ (n - 1) then x mod 2 ^ n else x mod 2 ^ n - 2 ^ n.
Proof.
  intros Hn. unfold wraps. assert (2 ^ n = 2 * 2 ^ (n - 1)) as E by (rewrite <-Z.pow_succ_r by lia; f_equal; lia).
  assert (0 < 2 ^ (n - 1)) by (apply Z.pow_pos_nonneg; lia).
  rewrite <-Zplus_mod_idemp_l. pose proof (Z.mod_pos_bound x (2 ^ n) ltac:(lia)).
  destruct (Z.ltb_spec (x mod 2 ^ n) (2 ^ (n - 1))).
  - rewrite Z.mod_small; lia.
  - rewrite <-(Z.mod_add _ (-1)), Z.mod_small by lia. lia.
Qed.

(** The sign bit of a number modulo 2^n. *)
Lemma sign_bit n c : 0 < n -> Z.testbit c (n - 1) = negb (c mod 2 ^ n <? 2 ^ (n - 1)).
Proof.
  intros Hn. replace (2 ^ n) with (2 ^ Z.succ (n - 1)) by (f_equal; lia). rewrite mod_pow2_S by lia.
  pose proof (Z.mod_pos_bound c (2 ^ (n - 1)) ltac:(apply Z.pow_pos_nonneg; lia)).
  destruct (Z.testbit c (n - 1)); cbn [Z.b2z].
  - by rewrite (proj2 (Z.ltb_ge _ _)) by lia.
  - by rewrite (proj2 (Z.ltb_lt _ _)) by lia.
Qed.

Lemma shl64_ones n : 0 <= n < 64 -> shl64 (u64 (-1)) n = Some (2 ^ 64 - 2 ^ n).
Proof.
  intros Hn. unfold shl64. rewrite (proj2 (Z.ltb_lt _ _)) by lia. f_equal. rewrite Z.shiftl_mul_pow2 by lia.
  change (u64 (-1)) with (2 ^ 64 - 1). assert (0 < 2 ^ n) by (apply Z.pow_pos_nonneg; lia).
  assert (2 ^ n < 2 ^ 64) by (apply Z.pow_lt_mono_r; lia). unfold wrapu.
  replace ((2 ^ 64 - 1) * 2 ^ n) with (2 ^ 64 - 2 ^ n + (2 ^ n - 1) * 2 ^ 64) by lia.
  rewrite Z.mod_add, Z.mod_small by lia. done.
Qed.

Lemma mask_mul n : 0 <= n <= 64 -> 2 ^ 64 - 2 ^ n = (2 ^ (64 - n) - 1) * 2 ^ n.
Proof. intros. rewrite Z.mul_sub_distr_r, <-Z.pow_add_r by lia. replace (64 - n + n) with 64 by lia. lia. Qed.

Lemma testbit_mask n i : 0 <= n <= 64 -> 0 <= i -> Z.testbit (2 ^ 64 - 2 ^ n) i = (n <=? i) && (i <? 64).
Proof.
  intros Hn Hi. rewrite mask_mul, <-Z.shiftl_mul_pow2, Z.shiftl_spec by lia.
  replace (2 ^ (64 - n) - 1) with (Z.ones (64 - n)) by (by rewrite Z.ones_equiv).
  destruct (Z.leb_spec n i); cbn [andb]; [|by rewrite Z.testbit_neg_r by lia].
  rewrite Z.testbit_ones by lia. rewrite (proj2 (Z.leb_le 0 (i - n))) by lia. cbn [andb].
  destruct (Z.ltb_spec (i - n) (64 - n)), (Z.ltb_spec i 64); lia || done.
Qed.

Lemma lor_mask c n : 0 <= n < 64 -> 0 <= c < 2 ^ 64 -> Z.lor c (2 ^ 64 - 2 ^ n) = c mod 2 ^ n + (2 ^ 64 - 2 ^ n).
Proof.
  intros Hn Hc. pose proof (Z.mod_pos_bound c (2 ^ n) ltac:(apply Z.pow_pos_nonneg; lia)).
  rewrite mask_mul at 2 by lia. bitwise i Hi.
  rewrite testbit_shift_add, Z.lor_spec, testbit_mask, testbit_mod_pow2 by lia.
  destruct (Z.ltb_spec i n).
  - rewrite (proj2 (Z.leb_gt n i)) by lia. by rewrite orb_false_r.
  - rewrite (proj2 (Z.leb_le n i)) by lia. cbn [andb].
    replace (2 ^ (64 - n) - 1) with (Z.ones (64 - n)) by (by rewrite Z.ones_equiv).
    rewrite Z.testbit_ones, (proj2 (Z.leb_le 0 (i - n))) by lia. cbn [andb].
    destruct (Z.ltb_spec i 64), (Z.ltb_spec (i - n) (64 - n)); try lia.
    by rewrite (testbit_small c 64) by lia.
Qed.

Lemma land_unmask c n : 0 <= n < 64 -> Z.land c (u64 (Z.lnot (2 ^ 64 - 2 ^ n))) = c mod 2 ^ n.
Proof.
  intros Hn. assert (0 < 2 ^ n) by (apply Z.pow_pos_nonneg; lia). assert (2 ^ n < 2 ^ 64) by (apply Z.pow_lt_mono_r; lia).
  replace (u64 (Z.lnot (2 ^ 64 - 2 ^ n))) with (Z.ones n); [by rewrite Z.land_ones by lia|].
  rewrite Z.ones_equiv. unfold Z.lnot, wrapu. replace (Z.pred (- (2 ^ 64 - 2 ^ n))) with (Z.pred (2 ^ n) + (-1) * 2 ^ 64) by lia.
  rewrite Z.mod_add, Z.mod_small by lia. done.
Qed.

(** Sign extension from [n] bits. *)
Lemma extend_sign c n : 0 < n < 64 -> 0 <= c < 2 ^ 64 ->
  (if Z.testbit c (n - 1) then s64 (Z.lor c (2 ^ 64 - 2 ^ n)) else s64 (c mod 2 ^ n)) = wraps n c.
Proof.
  intros Hn Hc. assert (0 < 2 ^ n) by (apply Z.pow_pos_nonneg; lia).
  assert (2 ^ n = 2 * 2 ^ (n - 1)) as E by (rewrite <-Z.pow_succ_r by lia; f_equal; lia).
  assert (2 ^ (n - 1) <= 2 ^ 62) by (apply Z.pow_le_mono_r; lia). change (2 ^ 62) with 4611686018427387904 in *.
  pose proof (Z.mod_pos_bound c (2 ^ n) ltac:(lia)).
  rewrite (wraps_cases n c), sign_bit by lia. destruct (Z.ltb_spec (c mod 2 ^ n) (2 ^ (n - 1))); cbn [negb].
  - apply wraps_small; pow2; lia.
  - rewrite lor_mask, (wraps_cases 64) by lia. rewrite Z.mod_small by (pow2; lia).
    rewrite (proj2 (Z.ltb_ge _ _)) by (pow2; lia). pow2. lia.
Qed.

Lemma getSignedBitfield_spec p off bits :
  0 <= off -> 1 <= bits < 64 -> off + bits <= 8 * Z.of_nat (length p) -> 8 * Z.of_nat (length p) < 2 ^ 64 ->
  getSignedBitfield p off bits = Some (wraps bits (ufield (bit_at p) off (Z.to_nat bits))).
Proof.
  intros. unfold getSignedBitfield. rewrite getUnsignedBitfield_spec by lia. mred.
  set (u := ufield _ _ _). assert (0 <= u < 2 ^ bits) as Hu.
  { pose proof (ufield_range (bit_at p) off (Z.to_nat bits)) as R. by rewrite Z2Nat.id in R by lia. }
  assert (2 ^ bits <= 2 ^ 63) by (apply Z.pow_le_mono_r; lia). change (2 ^ 63) with 9223372036854775808 in *.
  assert (s64 u = u) as -> by (apply wraps_small; pow2; lia). rewrite (wrapu_small 64 u) by (pow2; lia).
  rewrite land_bit_eqb by lia. rewrite <-(extend_sign u bits), shl64_ones by (pow2; lia).
  destruct (Z.testbit u (bits - 1)); cbn [negb]; mred; [done|]. rewrite Z.mod_small by lia. f_equal. symmetry. apply wraps_small; pow2; lia.
Qed.

(** At 64 bits a field with its sign bit set shifts by the width of the type. *)
Lemma getSignedBitfield_64 p off :
  0 <= off -> off + 64 <= 8 * Z.of_nat (length p) -> 8 * Z.of_nat (length p) < 2 ^ 64 ->
  getSignedBitfield p off 64 =
  if ufield (bit_at p) off 64 <? 2 ^ 63 then Some (ufield (bit_at p) off 64) else None.
Proof.
  intros. unfold getSignedBitfield. rewrite getUnsignedBitfield_spec by lia. mred.
  change (Z.to_nat 64) with 64%nat. pose proof (ufield_range (bit_at p) off 64) as Hu. set (u := ufield _ _ _) in *.
  change (Z.of_nat 64) with 64 in Hu. rewrite land_bit_eqb, sign_bit by lia.
  assert (u64 (s64 u) = u) as ->.
  { rewrite wraps_cases by lia. rewrite Z.mod_small by lia. unfold wrapu.
    destruct (u <? 2 ^ (64 - 1)); [by apply Z.mod_small|]. replace (u - 2 ^ 64) with (u + (-1) * 2 ^ 64) by lia.
    rewrite Z.mod_add, Z.mod_small by lia. done. }
  rewrite Z.mod_small, negb_involutive by lia. change (64 - 1) with 63. destruct (Z.ltb_spec u (2 ^ 63)); [|done].
  f_equal. change (2 ^ 63) with (2 ^ (64 - 1)) in *. apply wraps_small; lia.
Qed.

(** ** Overflow *)

Definition field_min (sign : bool) (bits : Z) : Z := if sign then - 2 ^ (bits - 1) else 0.
Definition field_max (sign : bool) (bits : Z) : Z := if sign then 2 ^ (bits - 1) - 1 else 2 ^ bits - 1.
Definition field_wrap (sign : bool) (bits v : Z) : Z := if sign then wraps bits v else wrapu bits v.

(** What OVERFLOW WRAP, SAT and FAIL make of a value: [None] is a failure. *)
Definition adjust (ow : bfoverflow) (sign : bool) (bits v : Z) : option Z :=
  if bool_decide (field_min sign bits <= v <= field_max sign bits) then Some v else
  match ow with
  | BFOVERFLOW_WRAP => Some (field_wrap sign bits v)
  | BFOVERFLOW_SAT => Some (if v <? field_min sign bits then field_min sign bits else field_max sign bits)
  | BFOVERFLOW_FAIL => None
  end.

(** The check reports an overflow exactly when the value leaves the range, and then stores
    the adjusted value. *)
Definition check_exact (r : option (Z * option Z)) (ow : bfoverflow) (sign : bool) (bits v : Z) : Prop :=
  if bool_decide (field_min sign bits <= v <= field_max sign bits) then r = Some (0, None)
  else exists c, c <> 0 /\ r = Some (c, adjust ow sign bits v).

Lemma pow2_bounds bits : 1 <= bits <= 63 -> 2 ^ bits = 2 * 2 ^ (bits - 1) /\ 1 <= 2 ^ (bits - 1) <= 4611686018427387904.
Proof.
  intros. split; [rewrite <-Z.pow_succ_r by lia; f_equal; lia|].
  split; [change 1 with (2 ^ 0) at 1; apply Z.pow_le_mono_r; lia|]. change 4611686018427387904 with (2 ^ 62). apply Z.pow_le_mono_r; lia.
Qed.

Lemma adjust_out ow sign bits v : ~ (field_min sign bits <= v <= field_max sign bits) ->
  adjust ow sign bits v =
  match ow with
  | BFOVERFLOW_WRAP => Some (field_wrap sign bits v)
  | BFOVERFLOW_SAT => Some (if v <? field_min sign bits then field_min sign bits else field_max sign bits)
  | BFOVERFLOW_FAIL => None
  end.
Proof. intros. unfold adjust. by rewrite bool_decide_false. Qed.

Lemma wrapu_mod n m v : 0 <= n <= m -> wrapu m v mod 2 ^ n = v mod 2 ^ n.
Proof.
  intros. unfold wrapu. replace m with (n + (m - n)) by lia. rewrite Z.pow_add_r by lia.
  assert (0 < 2 ^ n) by (apply Z.pow_pos_nonneg; lia). assert (0 < 2 ^ (m - n)) by (apply Z.pow_pos_nonneg; lia).
  rewrite Z.rem_mul_r by lia. rewrite Z.mul_comm, Z.mod_add, Z.mod_mod by lia. done.
Qed.

Lemma checkUnsigned_exact value incr bits ow :
  1 <= bits <= 63 -> 0 <= value <= ULLONG_MAX -> LLONG_MIN <= incr <= LLONG_MAX ->
  value < 2 ^ bits \/ incr = 0 ->
  check_exact (checkUnsignedBitfieldOverflow value incr bits ow) ow false bits (value + incr).
Proof.
  intros Hb Hv Hi Hr. destruct (pow2_bounds bits Hb) as [E R].
  unfold checkUnsignedBitfieldOverflow, check_exact. rewrite (proj2 (Z.eqb_neq bits 64)), Z.shiftl_1_l, shl64_ones by lia.
  mred. cbn [field_min field_max]. rewrite land_unmask, wrapu_mod by lia.
  destruct (Z.gtb_spec value (2 ^ bits - 1)) as [Hg|Hle]; cbn [orb].
  - rewrite bool_decide_false by lia. exists 1. split; [done|]. rewrite adjust_out by (cbn; lia).
    cbn [field_min field_max field_wrap]. rewrite (proj2 (Z.ltb_ge (value + incr) 0)) by lia. by destruct ow.
  - assert (s64 (u64 (2 ^ bits - 1 - value)) = 2 ^ bits - 1 - value) as ->.
    { rewrite wrapu_small by (pow2; lia). apply wraps_small; pow2; lia. }
    assert (s64 (u64 (- value)) = - value) as ->.
    { rewrite wraps_wrapu by lia. apply wraps_small; pow2; lia. }
    destruct ((incr >? 0) && (incr >? 2 ^ bits - 1 - value)) eqn:G; [zbool|destruct ((incr <? 0) && (incr <? - value)) eqn:G2; [zbool|]].
    + apply Z.gtb_lt in H, H0. rewrite bool_decide_false by lia. exists 1. split; [done|]. rewrite adjust_out by (cbn; lia).
      cbn [field_min field_max field_wrap]. rewrite (proj2 (Z.ltb_ge (value + incr) 0)) by lia. by destruct ow.
    + rewrite bool_decide_false by lia. exists (if decide (ow = BFOVERFLOW_WRAP) then 1 else -1). split; [by case_decide|].
      rewrite adjust_out by (cbn; lia).
      cbn [field_min field_max field_wrap]. rewrite (proj2 (Z.ltb_lt (value + incr) 0)) by lia. by destruct ow.
    + rewrite bool_decide_true; [done|]. lia.
Qed.

Lemma handle_wrap_signed value incr bits : 1 <= bits <= 63 ->
  (let c := u64 (u64 value + u64 incr) in
   s64 (if Z.land c (Z.shiftl 1 (bits - 1)) =? 0 then Z.land c (u64 (Z.lnot (2 ^ 64 - 2 ^ bits)))
        else Z.lor c (2 ^ 64 - 2 ^ bits))) = wraps bits (value + incr).
Proof.
  intros Hb. cbv zeta. assert (u64 (u64 value + u64 incr) = u64 (value + incr)) as ->.
  { unfold wrapu. by rewrite <-Zplus_mod. }
  pose proof (wrapu_range 64 (value + incr) ltac:(lia)) as R.
  rewrite land_bit_eqb, land_unmask by lia.
  transitivity (wraps bits (u64 (value + incr))).
  - rewrite <-(extend_sign (u64 (value + incr)) bits) by lia. by destruct (Z.testbit _ (bits - 1)).
  - rewrite !wraps_cases, wrapu_mod by lia. done.
Qed.

Lemma checkSigned_exact value incr bits ow :
  1 <= bits <= 63 -> LLONG_MIN <= value <= LLONG_MAX -> LLONG_MIN <= incr <= LLONG_MAX ->
  field_min true bits <= value <= field_max true bits \/ incr = 0 /\ field_max true bits - value <= LLONG_MAX ->
  check_exact (checkSignedBitfieldOverflow value incr bits ow) ow true bits (value + incr).
Proof.
  intros Hb Hv Hi Hr. destruct (pow2_bounds bits Hb) as [E R]. cbn [field_min field_max] in Hr.
  unfold checkSignedBitfieldOverflow, check_exact. rewrite (proj2 (Z.eqb_neq bits 64)), Z.shiftl_1_l, shl64_ones by lia.
  mred. cbv zeta. rewrite <-Z.shiftl_1_l. rewrite handle_wrap_signed by lia. rewrite Z.shiftl_1_l.
  cbn [negb andb field_min field_max]. set (M := 2 ^ (bits - 1)) in *.
  replace (- (M - 1) - 1) with (- M) by lia.
  destruct (Z.gtb_spec value (M - 1)) as [Hg|Hle]; cbn [orb].
  { rewrite bool_decide_false by lia. exists 1. split; [done|]. rewrite adjust_out by (cbn; lia).
    cbn [field_min field_max field_wrap]. fold M. rewrite (proj2 (Z.ltb_ge (value + incr) _)) by lia. by destruct ow. }
  assert (s64 (M - 1 - value) = M - 1 - value) as -> by (apply wraps_small; pow2; lia).
  destruct (Z.gtb_spec incr (M - 1 - value)) as [Hg|Hle2]; cbn [orb].
  { rewrite bool_decide_false by lia. exists 1. split; [done|]. rewrite adjust_out by (cbn; lia).
    cbn [field_min field_max field_wrap]. fold M. rewrite (proj2 (Z.ltb_ge (value + incr) _)) by lia. by destruct ow. }
  rewrite andb_false_r. cbn [orb].
  assert ((value <? - M) || (incr <? s64 (- M - value)) || ((value <? 0) && (incr <? 0) && (incr <? s64 (- M - value))) =
    (value + incr <? - M)) as ->.
  { destruct (Z.ltb_spec value (- M)); cbn [orb].
    - rewrite (proj2 (Z.ltb_lt (value + incr) (- M))) by lia. done.
    - assert (s64 (- M - value) = - M - value) as -> by (apply wraps_small; pow2; lia).
      destruct (Z.ltb_spec incr (- M - value)); cbn [orb]; [by rewrite (proj2 (Z.ltb_lt (value + incr) (- M))) by lia|].
      rewrite andb_false_r. by rewrite (proj2 (Z.ltb_ge (value + incr) (- M))) by lia. }
  destruct (Z.ltb_spec (value + incr) (- M)); [|by rewrite bool_decide_true by lia].
  rewrite bool_decide_false by lia. exists (if decide (ow = BFOVERFLOW_WRAP) then 1 else -1). split; [by case_decide|].
  rewrite adjust_out by (cbn; lia). cbn [field_min field_max field_wrap]. fold M.
  rewrite (proj2 (Z.ltb_lt (value + incr) (- M))) by lia. by destruct ow.
Qed.

(** At 64 bits wrapping shifts by the width of the type. *)
Lemma checkSigned_64 value incr ow :
  LLONG_MIN <= value <= LLONG_MAX -> LLONG_MIN <= incr <= LLONG_MAX ->
  checkSignedBitfieldOverflow value incr 64 ow =
  if bool_decide (LLONG_MIN <= value + incr <= LLONG_MAX) then Some (0, None) else
  match ow with
  | BFOVERFLOW_WRAP => None
  | BFOVERFLOW_SAT => Some (if value + incr <? 0 then (-1, Some LLONG_MIN) else (1, Some LLONG_MAX))
  | BFOVERFLOW_FAIL => Some (if value + incr <? 0 then -1 else 1, None)
  end.
Proof.
  intros Hv Hi. unfold checkSignedBitfieldOverflow. cbn [Z.eqb Pos.eqb negb andb].
  change (shl64 (u64 (-1)) 64) with (@None Z). mred. change (- LLONG_MAX - 1) with LLONG_MIN.
  rewrite (proj2 (Z.ltb_ge value LLONG_MIN)), Z.gtb_ltb, (proj2 (Z.ltb_ge LLONG_MAX value)) by lia. cbn [orb].
  destruct (Z.geb_spec value 0) as [H0|H0]; [destruct (Z.gtb_spec incr 0)|]; cbn [andb].
  - rewrite wraps_small by (pow2; lia). rewrite (proj2 (Z.ltb_ge value 0)) by lia. cbn [andb].
    destruct (Z.gtb_spec incr (LLONG_MAX - value)).
    + rewrite bool_decide_false, (proj2 (Z.ltb_ge (value + incr) 0)) by lia. by destruct ow.
    + by rewrite bool_decide_true by lia.
  - rewrite (proj2 (Z.ltb_ge value 0)) by lia. cbn [andb]. by rewrite bool_decide_true by lia.
  - rewrite (proj2 (Z.ltb_lt value 0)) by lia. cbn [andb]. destruct (Z.ltb_spec incr 0); cbn [andb].
    + rewrite wraps_small by (pow2; lia). destruct (Z.ltb_spec incr (LLONG_MIN - value)).
      * rewrite bool_decide_false, (proj2 (Z.ltb_lt (value + incr) 0)) by lia. by destruct ow.
      * by rewrite bool_decide_true by lia.
    + by rewrite bool_decide_true by lia.
Qed.

Lemma checkSigned_exact_64 value incr ow :
  LLONG_MIN <= value <= LLONG_MAX -> LLONG_MIN <= incr <= LLONG_MAX ->
  ow <> BFOVERFLOW_WRAP \/ LLONG_MIN <= value + incr <= LLONG_MAX ->
  check_exact (checkSignedBitfieldOverflow value incr 64 ow) ow true 64 (value + incr).
Proof.
  intros Hv Hi Hw. rewrite checkSigned_64 by done. unfold check_exact, adjust. cbn [field_min field_max].
  change (- 2 ^ (64 - 1)) with LLONG_MIN. change (2 ^ (64 - 1) - 1) with LLONG_MAX.
  destruct (bool_decide_reflect (LLONG_MIN <= value + incr <= LLONG_MAX)) as [|Hout]; [done|].
  exists (if value + incr <? 0 then -1 else 1). split; [by destruct (_ <? _)|].
  destruct ow; [by destruct Hw| |done].
  destruct (Z.ltb_spec (value + incr) 0), (Z.ltb_spec (value + incr) LLONG_MIN); done || lia.
Qed.

(** ** The operations of BITFIELD on the array *)

Definition field (m : Z -> bool) (sign : bool) (bits off : Z) : Z :=
  field_wrap sign bits (ufield m off (Z.to_nat bits)).

(** The value SET and INCRBY ask for. *)
Definition requested (op : bitfieldOp) (old : Z) : Z :=
  if decide (bf_opcode op = BITFIELDOP_INCRBY) then old + bf_i64 op
  else if bf_sign op then bf_i64 op else u64 (bf_i64 op).

Definition abs_op (m : Z -> bool) (op : bitfieldOp) : (Z -> bool) * breply :=
  let old := field m (bf_sign op) (bf_bits op) (bf_offset op) in
  if decide (bf_opcode op = BITFIELDOP_GET) then (m, RInt old) else
  match adjust (bf_owtype op) (bf_sign op) (bf_bits op) (requested op old) with
  | None => (m, RNull)
  | Some v =>
    (set_bits m (bf_offset op) (Z.to_nat (bf_bits op)) v,
     RInt (if decide (bf_opcode op = BITFIELDOP_INCRBY) then v else old))
  end.

Fixpoint abs_run (m : Z -> bool) (l : list bitfieldOp) : (Z -> bool) * list breply :=
  match l with
  | [] => (m, [])
  | op :: l => let '(m1, r) := abs_op m op in let '(m2, rs) := abs_run m1 l in (m2, r :: rs)
  end.

(** Operations whose behaviour the code defines: fields of 64 bits, and SET of a signed
    field to a value so low that [max - value] overflows, are left out. *)
Definition op_defined (op : bitfieldOp) : Prop :=
  bf_bits op <= 63 /\
  (bf_opcode op = BITFIELDOP_SET -> bf_sign op = true -> field_max true (bf_bits op) - bf_i64 op <= LLONG_MAX).

(** What the parser guarantees; [h] is the highest bit written. *)
Definition op_typed (h : Z) (op : bitfieldOp) : Prop :=
  0 <= bf_offset op < 2 ^ 32 /\ 1 <= bf_bits op <= (if bf_sign op then 64 else 63) /\
  LLONG_MIN <= bf_i64 op <= LLONG_MAX /\
  (bf_opcode op <> BITFIELDOP_GET -> bf_offset op + bf_bits op - 1 <= h).

Lemma field_ext m m' sign bits off :
  0 <= off -> 0 <= bits -> (forall i, 0 <= i -> m i = m' i) -> field m sign bits off = field m' sign bits off.
Proof. intros ?? H. unfold field. f_equal. apply ufield_ext. intros i Hi. apply H. lia. Qed.

Lemma field_range m sign bits off : 1 <= bits <= 63 ->
  field_min sign bits <= field m sign bits off <= field_max sign bits /\
  LLONG_MIN <= field m sign bits off <= LLONG_MAX.
Proof.
  intros Hb. destruct (pow2_bounds bits Hb) as [E R]. unfold field, field_min, field_max, field_wrap.
  destruct sign; [pose proof (wraps_range bits (ufield m off (Z.to_nat bits)) ltac:(lia))
    |pose proof (wrapu_range bits (ufield m off (Z.to_nat bits)) ltac:(lia))]; lia.
Qed.

Lemma adjust_range ow sign bits v w : 1 <= bits <= 63 -> adjust ow sign bits v = Some w ->
  field_min sign bits <= w <= field_max sign bits.
Proof.
  intros Hb. destruct (pow2_bounds bits Hb) as [E R]. unfold adjust. case_bool_decide; [by intros [= <-]|].
  assert (field_min sign bits <= field_max sign bits) by (unfold field_min, field_max; destruct sign; lia).
  destruct ow; [| |done]; intros [= <-].
  - unfold field_wrap, field_min, field_max in *. destruct sign;
      [pose proof (wraps_range bits v ltac:(lia))|pose proof (wrapu_range bits v ltac:(lia))]; lia.
  - destruct (Z.ltb_spec v (field_min sign bits)); lia.
Qed.

Lemma get_field p sign bits off :
  0 <= off -> 1 <= bits <= 63 -> off + bits <= 8 * Z.of_nat (length p) -> 8 * Z.of_nat (length p) < 2 ^ 64 ->
  (if sign : bool then getSignedBitfield p off bits else getUnsignedBitfield p off bits) = Some (field (bit_at p) sign bits off).
Proof.
  intros. unfold field, field_wrap. destruct sign; [by apply getSignedBitfield_spec; lia|].
  rewrite getUnsignedBitfield_spec by lia. f_equal. symmetry. apply wrapu_small.
  pose proof (ufield_range (bit_at p) off (Z.to_nat bits)) as R. by rewrite Z2Nat.id in R by lia.
Qed.

(** The overflow check of an operation, on either kind of field. *)
Lemma check_op op old : op_typed (2 ^ 33) op -> op_defined op -> bf_opcode op <> BITFIELDOP_GET ->
  field_min (bf_sign op) (bf_bits op) <= old <= field_max (bf_sign op) (bf_bits op) ->
  check_exact
    ((if bf_sign op then checkSignedBitfieldOverflow else checkUnsignedBitfieldOverflow)
       (if decide (bf_opcode op = BITFIELDOP_INCRBY) then old else (if bf_sign op then s64 else u64) (bf_i64 op))
       (if decide (bf_opcode op = BITFIELDOP_INCRBY) then bf_i64 op else 0) (bf_bits op) (bf_owtype op))
    (bf_owtype op) (bf_sign op) (bf_bits op) (requested op old).
Proof.
  intros (Ho&Hb&Hi&_) [Hd Hs] Hg Hr. assert (1 <= bf_bits op <= 63) as Hb' by (destruct (bf_sign op); lia).
  destruct (pow2_bounds _ Hb') as [E R]. unfold requested. destruct (bf_sign op) eqn:Es; case_decide as Hop.
  - cbn [field_min field_max] in Hr. apply checkSigned_exact; try done; try (cbn; lia).
  - rewrite (wraps_small 64) by (pow2; lia). rewrite <-(Z.add_0_r (bf_i64 op)) at 2.
    apply checkSigned_exact; try done. right. split; [done|]. apply Hs; [|done]. by destruct (bf_opcode op).
  - cbn [field_min field_max] in Hr. apply checkUnsigned_exact; try done; lia.
  - rewrite <-(Z.add_0_r (u64 (bf_i64 op))) at 2. pose proof (wrapu_range 64 (bf_i64 op) ltac:(lia)).
    apply checkUnsigned_exact; try done; [pow2; lia|by right].
Qed.

Lemma set_field p sign bits off v :
  0 <= off -> 1 <= bits <= 63 -> off + bits <= 8 * Z.of_nat (length p) -> 8 * Z.of_nat (length p) < 2 ^ 64 -> Forall is_byte p ->
  exists p', (if sign : bool then setSignedBitfield p off bits v else setUnsignedBitfield p off bits v) = Some p' /\
    length p' = length p /\ Forall is_byte p' /\
    forall i, 0 <= i -> bit_at p' i = set_bits (bit_at p) off (Z.to_nat bits) v i.
Proof.
  intros. destruct sign; [|by apply setUnsignedBitfield_spec; try lia].
  unfold setSignedBitfield. destruct (setUnsignedBitfield_spec p off bits (u64 v)) as (p'&?&?&?&G); try done; try lia.
  exists p'. split_and!; try done. intros i Hi. rewrite G by done. apply set_bits_u64. lia.
Qed.

(** ** The code implements them *)

(** The bits of the string are those of the array. *)
Definition shows (p : list Z) (m : Z -> bool) : Prop := forall i, 0 <= i -> bit_at p i = m i.

Lemma set_bits_shows p m off n v : shows p m -> 0 <= off -> forall i, 0 <= i -> set_bits (bit_at p) off n v i = set_bits m off n v i.
Proof. intros H Ho i Hi. unfold set_bits. case_bool_decide; [done|]. by apply H. Qed.

Lemma check_exact_cases r ow sign bits v : check_exact r ow sign bits v ->
  exists c lim, r = Some (c, lim) /\
    (if c =? 0 then adjust ow sign bits v = Some v else lim = adjust ow sign bits v) /\
    (negb (c =? 0) && bool_decide (ow = BFOVERFLOW_FAIL) = true <-> adjust ow sign bits v = None).
Proof.
  unfold check_exact. destruct (bool_decide_reflect (field_min sign bits <= v <= field_max sign bits)) as [Hin|Hout].
  - intros ->. exists 0, None. assert (adjust ow sign bits v = Some v) as E by (unfold adjust; by rewrite bool_decide_true).
    by rewrite E.
  - intros (c&Hc&->). exists c, (adjust ow sign bits v). rewrite (proj2 (Z.eqb_neq c 0)) by done. split; [done|]. split; [done|].
    rewrite adjust_out by done. cbn [negb andb]. rewrite bool_decide_eq_true. by destruct ow.
Qed.

(** The value to store, on every outcome of the check. *)
Lemma bf_newval_spec op old :
  op_typed (2 ^ 33) op -> op_defined op -> bf_opcode op <> BITFIELDOP_GET ->
  field_min (bf_sign op) (bf_bits op) <= old <= field_max (bf_sign op) (bf_bits op) ->
  exists c nv, bf_newval op old = Some (c, nv, if decide (bf_opcode op = BITFIELDOP_INCRBY) then nv else old) /\
    match adjust (bf_owtype op) (bf_sign op) (bf_bits op) (requested op old) with
    | None => negb (c =? 0) && bool_decide (bf_owtype op = BFOVERFLOW_FAIL) = true
    | Some v => negb (c =? 0) && bool_decide (bf_owtype op = BFOVERFLOW_FAIL) = false /\ nv = v
    end.
Proof.
  intros Ht Hd Hg Hr. pose proof Ht as (Ho&Hb&Hi&_).
  assert (1 <= bf_bits op <= 63) as Hb' by (destruct Hd as [? _]; destruct (bf_sign op); lia).
  destruct (check_exact_cases _ _ _ _ _ (check_op op old Ht Hd Hg Hr)) as (c&lim&Ec&Hc&Hf).
  set (conv := if bf_sign op then s64 else u64) in *.
  exists c, (if c =? 0 then conv (requested op old) else default 0 lim). split.
  { unfold bf_newval, requested. fold conv. destruct (decide (bf_opcode op = BITFIELDOP_INCRBY)) as [e|n]; rewrite Ec; mred; [done|].
    destruct (c =? 0); [|done]. do 3 f_equal. unfold conv. destruct (bf_sign op); [done|].
    unfold wrapu. by rewrite Z.mod_mod by lia. }
  destruct (adjust (bf_owtype op) (bf_sign op) (bf_bits op) (requested op old)) as [v|] eqn:Ea; [|by apply Hf].
  split; [destruct (negb (c =? 0) && _); [by discriminate (proj1 Hf eq_refl)|done]|].
  pose proof (adjust_range _ _ _ _ _ Hb' Ea) as Rv. destruct (pow2_bounds _ Hb') as [Ep Rp].
  destruct (c =? 0); [|by rewrite Hc]. injection Hc as ->. unfold conv, field_min, field_max in *.
  destruct (bf_sign op); [apply wraps_small|apply wrapu_small]; pow2; lia.
Qed.

Lemma bf_write_spec op p m :
  op_typed (8 * Z.of_nat (length p) - 1) op -> op_defined op -> bf_opcode op <> BITFIELDOP_GET ->
  8 * Z.of_nat (length p) < 2 ^ 64 -> Forall is_byte p -> shows p m ->
  exists p' m' r, bf_write op p = Some (p', r) /\ abs_op m op = (m', r) /\
    length p' = length p /\ Forall is_byte p' /\ shows p' m'.
Proof.
  intros Ht Hd Hg Hp Hb Hm. pose proof Ht as (Ho&Hbits&Hi&Hw). specialize (Hw Hg).
  assert (1 <= bf_bits op <= 63) as Hbits' by (destruct Hd as [? _]; destruct (bf_sign op); lia).
  unfold bf_write, abs_op. rewrite (decide_False (P := bf_opcode op = BITFIELDOP_GET)) by done.
  rewrite get_field by lia. mred. rewrite (field_ext (bit_at p) m) by (done || lia).
  set (old := field m _ _ _). destruct (field_range m (bf_sign op) (bf_bits op) (bf_offset op) Hbits') as [Rf Rl]. fold old in Rf, Rl.
  destruct (bf_newval_spec op old) as (c&nv&->&Ha); [|done..|].
  { unfold op_typed. split_and!; try done; pow2; change (2 ^ 33) with 8589934592; lia. }
  mred. destruct (adjust (bf_owtype op) (bf_sign op) (bf_bits op) (requested op old)) as [v|] eqn:Ea; [|rewrite Ha; by exists p, m, RNull].
  destruct Ha as [-> ->]. pose proof (adjust_range _ _ _ _ _ Hbits' Ea) as Rv. destruct (pow2_bounds _ Hbits') as [Ep Rp].
  destruct (set_field p (bf_sign op) (bf_bits op) (bf_offset op) v) as (p'&->&L&B&G); [lia..|done|]. mred.
  eexists p', _, _. split; [done|]. split; [|split; [done|split; [done|]]].
  - do 2 f_equal. symmetry. apply wraps_small; [|lia]. pow2. unfold field_min, field_max in Rv. case_decide; destruct (bf_sign op); lia.
  - intros i Hi'. rewrite G by done. apply set_bits_shows; [done|lia|done].
Qed.

Lemma bf_copy_spec src byte n : forall i buf, 0 <= byte -> Z.of_nat n + i = 9 -> 0 <= i -> length buf = 9%nat ->
  (forall k, nth k buf 0 = if (k <? Z.to_nat i)%nat then nth (Z.to_nat byte + k) src 0 else 0) ->
  exists buf', bf_copy n src i byte buf = Some buf' /\ length buf' = 9%nat /\
    forall k, (k < 9)%nat -> nth k buf' 0 = nth (Z.to_nat byte + k) src 0.
Proof.
  induction n as [|n IH]; intros i buf Hby Hn Hi L Hk; cbn [bf_copy].
  { exists buf. split; [done|]. split; [done|]. intros k Hk9. rewrite Hk. by rewrite (proj2 (Nat.ltb_lt _ _)) by lia. }
  destruct (Z.geb_spec (i + byte) (Z.of_nat (length src))) as [Hge|Hlt].
  { exists buf. split; [done|]. split; [done|]. intros k Hk9. rewrite Hk. destruct (Nat.ltb_spec k (Z.to_nat i)); [done|].
    symmetry. apply nth_overflow. lia. }
  rewrite rd1_nth by lia. mred. destruct (wr_is_Some buf i [nth (Z.to_nat (i + byte)) src 0]) as [buf' Hw]; [lia|cbn; lia|].
  rewrite Hw. mred. pose proof (wr_length _ _ _ _ Hw) as L'. apply IH; [done|lia|lia|congruence|].
  intros k. destruct (decide (k = Z.to_nat i)) as [->|Hne].
  - rewrite (proj2 (Nat.ltb_lt _ _)) by lia. apply nth_lookup_Some. rewrite <-(Z.add_0_r i) at 1.
    rewrite (wr_lookup_in _ _ _ _ 0 Hw) by (cbn; lia).
    transitivity (Some (nth (Z.to_nat (i + byte)) src 0)); [done|]. do 2 f_equal. lia.
  - assert (nth k buf' 0 = nth k buf 0) as ->.
    { rewrite !nth_lookup. f_equal. rewrite <-(Nat2Z.id k). eapply wr_lookup_out; [done|lia|cbn; lia]. }
    rewrite Hk. destruct (Nat.ltb_spec k (Z.to_nat i)), (Nat.ltb_spec k (Z.to_nat (i + 1))); try lia; done.
Qed.

Lemma bf_get_spec op src :
  0 <= bf_offset op -> 1 <= bf_bits op <= 63 ->
  bf_get op src = Some (RInt (field (bit_at (default [] src)) (bf_sign op) (bf_bits op) (bf_offset op))).
Proof.
  intros Ho Hb. unfold bf_get. rewrite shiftr_3. set (off := bf_offset op) in *.
  assert (exists buf, match src with None => Some (replicate 9 0) | Some src => bf_copy 9 src 0 (off / 8) (replicate 9 0) end = Some buf /\
    length buf = 9%nat /\ forall k, (k < 9)%nat -> nth k buf 0 = nth (Z.to_nat (off / 8) + k) (default [] src) 0) as (buf&->&L&Hk).
  { destruct src as [src|].
    - apply bf_copy_spec; [zlia|done..|]. intros k. do 9 (destruct k as [|k]; [done|]). by destruct k.
    - exists (replicate 9 0). split; [done|]. split; [done|]. intros k Hk. cbn [default].
      rewrite (nth_overflow []) by (cbn; lia). do 9 (destruct k as [|k]; [done|]). lia. }
  mred. rewrite get_field by (try rewrite L; pow2; zlia). mred.
  assert (field (bit_at buf) (bf_sign op) (bf_bits op) (off - off / 8 * 8) =
    field (bit_at (default [] src)) (bf_sign op) (bf_bits op) off) as ->.
  { unfold field. f_equal. unfold ufield. f_equal. apply map_ext_in. intros i Hi%in_seq. unfold bit_at.
    set (d := off - off / 8 * 8 + Z.of_nat i). assert (0 <= d < 72) by (unfold d; zlia).
    rewrite Hk by zlia. replace (Z.to_nat (off / 8) + Z.to_nat (d / 8))%nat with (Z.to_nat ((off + Z.of_nat i) / 8)) by (unfold d; zlia).
    f_equal. unfold d. zlia. }
  destruct (field_range (bit_at (default [] src)) (bf_sign op) (bf_bits op) off Hb) as [_ R].
  do 2 f_equal. apply wraps_small; pow2; lia.
Qed.

Lemma bf_exec_spec l : forall p m rs n,
  Forall (op_typed (8 * Z.of_nat (length p) - 1)) l -> Forall op_defined l ->
  8 * Z.of_nat (length p) < 2 ^ 64 -> Forall is_byte p -> shows p m ->
  exists p', bf_exec l (Some (VStr p)) rs n =
      Some (Some (VStr p'), rs ++ (abs_run m l).2, n + Z.of_nat (length (filter (fun op => bf_opcode op <> BITFIELDOP_GET) l))) /\
    length p' = length p /\ Forall is_byte p' /\ shows p' (abs_run m l).1.
Proof.
  induction l as [|op l IH]; intros p m rs n Ht Hd Hp Hb Hm; cbn [bf_exec abs_run].
  { exists p. rewrite app_nil_r, Z.add_0_r. done. }
  apply Forall_cons in Ht as [Ht Htl], Hd as [Hd Hdl]. destruct (decide (bf_opcode op = BITFIELDOP_GET)) as [Eg|Eg].
  - cbn [getObjectReadOnlyString]. mred. rewrite bf_get_spec by (destruct Ht as (?&?&?&?), Hd; lia). mred. cbn [default].
    rewrite filter_cons_False by tauto. unfold abs_op. rewrite decide_True by done.
    destruct (IH p m (rs ++ [RInt (field m (bf_sign op) (bf_bits op) (bf_offset op))]) n) as (p'&E&L&B&S); [done..|].
    rewrite (field_ext (bit_at p) m) by (destruct Ht as (?&?&?&?); done || lia). rewrite E.
    destruct (abs_run m l) as [m2 rs2]. cbn [fst snd] in *. exists p'. by rewrite <-app_assoc.
  - rewrite filter_cons_True by done. cbn [length].
    destruct (bf_write_spec op p m Ht Hd Eg Hp Hb Hm) as (p1&m1&r&->&->&L1&B1&S1). mred.
    destruct (IH p1 m1 (rs ++ [r]) (n + 1)) as (p'&E&L&B&S); [by rewrite L1|done|by rewrite L1|done|done|].
    rewrite E. destruct (abs_run m1 l) as [m2 rs2]. cbn [fst snd] in *. exists p'. rewrite <-app_assoc. split; [|by rewrite L].
    do 2 f_equal. lia.
Qed.

(** Reads alone need no string that can be written. *)
Lemma bf_exec_reads l o s : (forall o', o = Some o' -> string_obj o') -> s = from_option obj_bytes [] o ->
  forall rs n, Forall (fun op => bf_opcode op = BITFIELDOP_GET) l -> Forall (op_typed 0) l -> Forall op_defined l ->
  bf_exec l o rs n = Some (o, rs ++ (abs_run (bit_at s) l).2, n).
Proof.
  intros Ho Hs. induction l as [|op l IH]; intros rs n Hg Ht Hd; cbn [bf_exec abs_run]; [by rewrite app_nil_r|].
  apply Forall_cons in Ht as [Ht Htl], Hd as [Hd Hdl], Hg as [Hg Hgl]. rewrite decide_True by done.
  assert (match o with None => Some None | Some o => Some <$> getObjectReadOnlyString o end = Some (obj_bytes <$> o)) as ->.
  { destruct o as [o|]; [|done]. by rewrite getObjectReadOnlyString_spec by auto. }
  mred. rewrite bf_get_spec by (destruct Ht as (?&?&?&?), Hd; lia). mred.
  rewrite IH by done. unfold abs_op. rewrite decide_True by done.
  replace (default [] (obj_bytes <$> o)) with s by (rewrite Hs; by destruct o).
  destruct (abs_run (bit_at s) l). by rewrite <-app_assoc.
Qed.

(** ** Parsing *)

Lemma getBitOffset_range p hash bits off :
  getBitOffsetFromArgument p hash bits = Some off -> 0 <= off < 2 ^ 32.
Proof.
  unfold getBitOffsetFromArgument. intros (l&_&H)%bind_Some.
  destruct (_ || _) eqn:E in H; [done|]. injection H as <-. zbool.
  rewrite Z.geb_leb in H0. zbool. rewrite shiftr_3 in H0. pow2. zlia.
Qed.

Lemma getBitfieldType_range p sign bits :
  getBitfieldTypeFromArgument p = Some (sign, bits) -> 1 <= bits <= (if sign then 64 else 63).
Proof.
  unfold getBitfieldTypeFromArgument. destruct p as [|c p]; [done|].
  intros (s&_&(b&_&H)%bind_Some)%bind_Some. destruct (_ || _) eqn:E in H; [done|]. injection H as <- <-.
  apply orb_false_iff in E as [[E1 E2]%orb_false_iff E3]. zbool. destruct s; cbn [negb andb] in *;
    [rewrite Z.gtb_ltb in E2|rewrite Z.gtb_ltb in E3]; zbool; lia.
Qed.

(** What holds of the operations gathered so far. *)
Definition parsed (st : bfparse) : Prop :=
  0 <= higest_write_offset st < 2 ^ 33 /\ Forall (op_typed (higest_write_offset st)) (ops st) /\
  (readonly st = true -> Forall (fun op => bf_opcode op = BITFIELDOP_GET) (ops st)).

Lemma op_typed_mono h h' op : h <= h' -> op_typed h op -> op_typed h' op.
Proof. intros Hh (?&?&?&Hw). unfold op_typed. split_and!; try done; try lia. intros Hg. specialize (Hw Hg). lia. Qed.

Lemma bf_add_parsed st opcode a1 a2 a3 st' :
  parsed st -> (a3 = None <-> opcode = BITFIELDOP_GET) -> bf_add st opcode a1 a2 a3 = inl st' -> parsed st'.
Proof.
  intros (Hh&Hops&Hro) Ha. unfold bf_add. destruct (getBitfieldTypeFromArgument a1) as [[sign bits]|] eqn:Et; [|done].
  apply getBitfieldType_range in Et. destruct (getBitOffsetFromArgument a2 true bits) as [off|] eqn:Eo; [|done].
  apply getBitOffset_range in Eo. destruct a3 as [a3|].
  - destruct (getLongLongFromArg a3) as [v|] eqn:Ev; [|done]. apply string2ll_sound in Ev as [_ Rv]. intros [= <-].
    set (h := if _ <? _ then _ else _).
    assert (higest_write_offset st <= h /\ off + bits - 1 <= h /\ h < 2 ^ 33).
    { unfold h. change (2 ^ 33) with 8589934592 in *. pow2. destruct (Z.ltb_spec (higest_write_offset st) (off + bits - 1)); destruct sign; lia. }
    unfold parsed. cbn [higest_write_offset ops readonly]. split; [lia|]. split; [|done].
    apply Forall_app. split; [eapply Forall_impl; [done|]; intros op; apply op_typed_mono; lia|].
    constructor; [|done]. unfold op_typed. cbn. split_and!; try done; try lia.
  - intros [= <-]. unfold parsed. cbn [higest_write_offset ops readonly]. split; [done|].
    assert (opcode = BITFIELDOP_GET) as -> by tauto. split.
    + apply Forall_app. split; [done|]. constructor; [|done]. unfold op_typed. cbn. split_and!; try done; try lia.
    + intros Hr. apply Forall_app. split; [by apply Hro|]. by constructor.
Qed.

Lemma bf_parse_parsed n : forall args st st', (length args <= n)%nat -> parsed st -> bf_parse args st = inl st' -> parsed st'.
Proof.
  induction n as [|n IH]; intros args st st' Hn Hst; (destruct args as [|sub args]; [by intros [= <-]|]); cbn [length] in Hn; [lia|].
  destruct args as [|a1 rest]; [done|]. cbn [bf_parse length] in *.
  destruct (strcaseeq sub "overflow").
  { destruct (bf_overflow_name a1); [|done]. apply IH; [lia|]. exact Hst. }
  destruct rest as [|a2 rest]; [done|]. cbn [length] in Hn. destruct (strcaseeq sub "get").
  { destruct (bf_add st BITFIELDOP_GET a1 a2 None) as [st1|] eqn:E; [|done]. apply IH; [lia|]. eapply bf_add_parsed; [exact Hst| |exact E]; by split. }
  destruct rest as [|a3 rest]; [done|]. cbn [length] in Hn.
  destruct (strcaseeq sub "set"); [|destruct (strcaseeq sub "incrby"); [|done]].
  - destruct (bf_add st BITFIELDOP_SET a1 a2 (Some a3)) as [st1|] eqn:E; [|done]. apply IH; [lia|]. eapply bf_add_parsed; [exact Hst| |exact E]; by split.
  - destruct (bf_add st BITFIELDOP_INCRBY a1 a2 (Some a3)) as [st1|] eqn:E; [|done]. apply IH; [lia|]. eapply bf_add_parsed; [exact Hst| |exact E]; by split.
Qed.

Lemma bf_parse_init args st : bf_parse args (BfParse [] BFOVERFLOW_WRAP true 0) = inl st -> parsed st.
Proof. apply (bf_parse_parsed (length args)); [done|]. unfold parsed. cbn. split; [lia|]. by split; [constructor|]. Qed.

(** ** The command *)

Lemma nth_zeros k j : nth j (replicate k 0) 0 = 0.
Proof. revert j. induction k as [|k IH]; intros [|j]; try done. apply IH. Qed.

Lemma bit_at_app_zeros s k i : 0 <= i -> bit_at (s ++ replicate k 0) i = bit_at s i.
Proof.
  intros Hi. unfold bit_at. f_equal. destruct (decide (Z.to_nat (i / 8) < length s)%nat).
  - by rewrite app_nth1.
  - rewrite app_nth2, (nth_overflow s) by lia. apply nth_zeros.
Qed.

Lemma lookupStringForBitCommand_spec o h : (forall o', o = Some o' -> string_obj o') -> 0 <= h < 2 ^ 33 ->
  exists p, lookupStringForBitCommand o h = Some (inl p) /\ Forall is_byte p /\ shows p (bit_at (from_option obj_bytes [] o)) /\
    Z.of_nat (length p) = Z.max (Z.of_nat (length (from_option obj_bytes [] o))) (h / 8 + 1) /\ 8 * Z.of_nat (length p) < 2 ^ 64.
Proof.
  intros Ho Hh. change (2 ^ 33) with 8589934592 in Hh. unfold lookupStringForBitCommand. rewrite shiftr_3.
  assert (forall s, Forall is_byte s -> Z.of_nat (length s) <= 512 * 1024 * 1024 ->
    Forall is_byte (growzero s (h / 8 + 1)) /\ shows (growzero s (h / 8 + 1)) (bit_at s) /\
    Z.of_nat (length (growzero s (h / 8 + 1))) = Z.max (Z.of_nat (length s)) (h / 8 + 1) /\
    8 * Z.of_nat (length (growzero s (h / 8 + 1))) < 2 ^ 64) as G.
  { intros s Hb Hl. unfold growzero. rewrite length_app, length_replicate. split; [|split; [|pow2; zlia]].
    - apply Forall_app. split; [done|]. apply Forall_replicate. unfold is_byte. lia.
    - intros i Hi. by apply bit_at_app_zeros. }
  destruct o as [o|].
  - specialize (Ho o eq_refl). destruct (string_obj_bytes o Ho) as [Hb Hl]. cbn [from_option]. exists (growzero (obj_bytes o) (h / 8 + 1)).
    split; [|by apply G]. pose proof (decoded_spec o Ho) as Ed. destruct o; try done; by rewrite Ed.
  - exists (replicate (Z.to_nat (h / 8 + 1)) 0). split; [done|]. specialize (G [] ltac:(constructor) ltac:(cbn; lia)).
    unfold growzero in G. cbn [app length] in G. rewrite Nat.sub_0_r in G. done.
Qed.

(** C23: the operations BITFIELD parses are well typed, on every argument list it accepts:
    offsets fit the 512 MB limit, signed fields have 1 to 64 bits and unsigned ones 1 to 63,
    values are 64-bit integers, every operation that writes lies below the highest bit
    the string is grown to, and a request classified as read only has reads alone. *)
Theorem bitfield_ops_typed args st :
  bf_parse args (BfParse [] BFOVERFLOW_WRAP true 0) = inl st ->
  0 <= higest_write_offset st < 2 ^ 33 /\ Forall (op_typed (higest_write_offset st)) (ops st) /\
  (readonly st = true -> Forall (fun op => bf_opcode op = BITFIELDOP_GET) (ops st)).
Proof. apply bf_parse_init. Qed.

Lemma bitfield_ops_typed_witness :
  exists st, bf_parse [lit "OVERFLOW"; lit "sat"; lit "incrby"; lit "i5"; lit "#20"; lit "-3"; lit "GET"; lit "u4"; lit "0"]
               (BfParse [] BFOVERFLOW_WRAP true 0) = inl st /\
    0 <= higest_write_offset st < 2 ^ 33 /\ Forall (op_typed (higest_write_offset st)) (ops st) /\
    (readonly st = true -> Forall (fun op => bf_opcode op = BITFIELDOP_GET) (ops st)).
Proof. eexists. split; [vm_compute; reflexivity|]. apply (bitfield_ops_typed
  [lit "OVERFLOW"; lit "sat"; lit "incrby"; lit "i5"; lit "#20"; lit "-3"; lit "GET"; lit "u4"; lit "0"]). vm_compute. reflexivity. Defined.

(** C13: BITFIELD refines operations on an array of bits without end. For every request it
    accepts, on a missing key or a string object, the command returns: it replies to every
    operation, in order, what the array answers after the previous ones (the old value for GET
    and SET, the new one for INCRBY, null when OVERFLOW FAIL refuses), the string afterwards
    shows the array's bits, it was grown with zeros just enough for the highest bit written,
    and [dirty] counts the writes. The requests are those with fields of up to 63 bits (the
    64-bit signed fields that the parser accepts are left out, see [bitfield_limits]) in which
    no SET of a signed field has a value so low that [max - value] overflows. *)
Theorem bitfield_refines o args st :
  (forall o', o = Some o' -> string_obj o') ->
  bf_parse args (BfParse [] BFOVERFLOW_WRAP true 0) = inl st -> Forall op_defined (ops st) ->
  exists o', bitfieldCommand o args =
      Some (Res o' (Z.of_nat (length (filter (fun op => bf_opcode op <> BITFIELDOP_GET) (ops st))))
              (RMulti (abs_run (bit_at (from_option obj_bytes [] o)) (ops st)).2)) /\
    if readonly st then o' = o else
    exists p, o' = Some (VStr p) /\ Forall is_byte p /\
      shows p (abs_run (bit_at (from_option obj_bytes [] o)) (ops st)).1 /\
      Z.of_nat (length p) = Z.max (Z.of_nat (length (from_option obj_bytes [] o))) (higest_write_offset st / 8 + 1).
Proof.
  intros Ho Hp Hd. pose proof (bf_parse_init args st Hp) as (Hh&Ht&Hr). unfold bitfieldCommand. rewrite Hp.
  destruct (readonly st).
  - specialize (Hr eq_refl). mred. replace (match o with Some VOther => inr ErrWrongType | _ => inl o end) with (@inl (option vobj) berror o)
      by (destruct o as [[]|]; try done; by destruct (Ho VOther eq_refl)).
    rewrite (bf_exec_reads _ o (from_option obj_bytes [] o)); [|done|done|done| |done].
    2:{ clear -Ht Hr. induction Ht as [|op l Hop Hl IH]; [done|]. apply Forall_cons in Hr as [Hg Hr]. constructor; [|by apply IH].
        destruct Hop as (?&?&?&?). unfold op_typed. split_and!; try done; lia. }
    mred. exists o. split; [|done]. do 2 f_equal. clear -Hr. induction Hr as [|op l Hg Hl IH]; [done|].
    rewrite filter_cons_False by tauto. done.
  - destruct (lookupStringForBitCommand_spec o (higest_write_offset st) Ho Hh) as (p&->&Hb&Hs&L&L64). mred.
    destruct (bf_exec_spec (ops st) p (bit_at (from_option obj_bytes [] o)) [] 0) as (p'&->&L'&B'&S'); [|done..|].
    { eapply Forall_impl; [done|]. intros op. apply op_typed_mono. rewrite L. zlia. }
    mred. eexists. split; [done|]. exists p'. rewrite L'. done.
Qed.

Lemma bitfield_refines_witness :
  exists o', bitfieldCommand (Some (VInt 7)) [lit "incrby"; lit "u4"; lit "6"; lit "12"; lit "get"; lit "i4"; lit "#1"] =
    Some (Res o' 1 (RMulti [RInt 8; RInt 6])) /\
    exists p, o' = Some (VStr p) /\ length p = 2%nat.
Proof.
  destruct (bf_parse [lit "incrby"; lit "u4"; lit "6"; lit "12"; lit "get"; lit "i4"; lit "#1"]
              (BfParse [] BFOVERFLOW_WRAP true 0)) as [st|] eqn:E; [|discriminate].
  vm_compute in E. injection E as <-.
  destruct (bitfield_refines (Some (VInt 7)) [lit "incrby"; lit "u4"; lit "6"; lit "12"; lit "get"; lit "i4"; lit "#1"] _
    ltac:(intros ? [= <-]; cbn; lia) ltac:(vm_compute; reflexivity)
    ltac:(repeat constructor; cbn; try discriminate; lia)) as (o'&Eb&p&Ep&_&_&L).
  exists o'. split; [exact Eb|]. exists p. split; [exact Ep|]. change (Z.of_nat (length p) = 2) in L. lia.
Defined.

(** ** Bounds and read-back *)

Lemma field_set m off n sign bits v :
  1 <= bits <= 63 -> n = Z.to_nat bits -> field_min sign bits <= v <= field_max sign bits ->
  field (set_bits m off n v) sign bits off = v.
Proof.
  intros Hb -> Hv. destruct (pow2_bounds bits Hb) as [E R]. unfold field. rewrite ufield_set_bits, Z2Nat.id by lia.
  unfold field_wrap, field_min, field_max in *. destruct sign.
  - change (v mod 2 ^ bits) with (wrapu bits v). rewrite wraps_wrapu by lia. apply wraps_small; lia.
  - unfold wrapu. rewrite Z.mod_mod by lia. apply Z.mod_small. lia.
Qed.

(** C24: the overflow checks report an overflow if and only if the sum leaves the range of
    the field, and the value stored then is the sum modulo 2^bits (WRAP) or the nearest bound
    (SAT), which lies in the range. The unsigned check is exact for widths up to 63 and every
    increment of a value of the field, and for SET of any 64-bit value; the signed check for
    widths up to 63 and every increment of a value of the field, and for SET of every value
    for which [max - value] does not overflow, and at 64 bits, for every value and increment,
    under SAT and FAIL and when nothing overflows (WRAP of a 64-bit overflow is undefined). *)
Theorem bitfield_overflow_bounds value incr bits ow :
  1 <= bits <= 63 -> LLONG_MIN <= incr <= LLONG_MAX ->
  (0 <= value <= ULLONG_MAX -> value < 2 ^ bits \/ incr = 0 ->
   check_exact (checkUnsignedBitfieldOverflow value incr bits ow) ow false bits (value + incr)) /\
  (LLONG_MIN <= value <= LLONG_MAX ->
   field_min true bits <= value <= field_max true bits \/ incr = 0 /\ field_max true bits - value <= LLONG_MAX ->
   check_exact (checkSignedBitfieldOverflow value incr bits ow) ow true bits (value + incr)) /\
  (LLONG_MIN <= value <= LLONG_MAX -> ow <> BFOVERFLOW_WRAP \/ LLONG_MIN <= value + incr <= LLONG_MAX ->
   check_exact (checkSignedBitfieldOverflow value incr 64 ow) ow true 64 (value + incr)) /\
  (forall sign v w, adjust ow sign bits v = Some w -> field_min sign bits <= w <= field_max sign bits).
Proof.
  intros Hb Hi. split; [intros; by apply checkUnsigned_exact|]. split; [intros; by apply checkSigned_exact|].
  split; [intros; by apply checkSigned_exact_64|].
  intros sign v w. by apply adjust_range.
Qed.

Lemma bitfield_overflow_bounds_witness :
  checkSignedBitfieldOverflow (-100) (-100) 8 BFOVERFLOW_SAT = Some (-1, Some (-128)) /\
  checkUnsignedBitfieldOverflow 250 10 8 BFOVERFLOW_WRAP = Some (1, Some 4).
Proof.
  split.
  - destruct (bitfield_overflow_bounds (-100) (-100) 8 BFOVERFLOW_SAT ltac:(lia) ltac:(lia)) as (_&H&_).
    destruct (H ltac:(lia) ltac:(cbn; lia)) as (c&_&E). vm_compute in E. injection E as <-. vm_compute. reflexivity.
  - destruct (bitfield_overflow_bounds 250 10 8 BFOVERFLOW_WRAP ltac:(lia) ltac:(lia)) as (H&_&_).
    destruct (H ltac:(lia) ltac:(cbn; lia)) as (c&_&E). vm_compute in E. injection E as <-. vm_compute. reflexivity.
Defined.

(** A value within the range of its field, signed or unsigned, at any bit offset, is
    read back as it was written; fields that do not overlap keep their values, and the
    string keeps its length. *)
Theorem bitfield_roundtrip p sign bits off v :
  Forall is_byte p -> 8 * Z.of_nat (length p) < 2 ^ 64 -> 0 <= off -> 1 <= bits <= 63 ->
  off + bits <= 8 * Z.of_nat (length p) -> field_min sign bits <= v <= field_max sign bits ->
  exists p', (if sign then setSignedBitfield p off bits v else setUnsignedBitfield p off bits v) = Some p' /\
    length p' = length p /\
    (if sign then getSignedBitfield p' off bits else getUnsignedBitfield p' off bits) = Some v /\
    forall sign' bits' off', 0 <= off' -> 1 <= bits' <= 63 -> off' + bits' <= 8 * Z.of_nat (length p) ->
      off' + bits' <= off \/ off + bits <= off' ->
      (if sign' : bool then getSignedBitfield p' off' bits' else getUnsignedBitfield p' off' bits') =
      (if sign' then getSignedBitfield p off' bits' else getUnsignedBitfield p off' bits').
Proof.
  intros Hb Hp Ho Hbits Hl Hv. destruct (set_field p sign bits off v) as (p'&E&L&B&G); [done..|].
  exists p'. split; [done|]. split; [done|]. split.
  - rewrite get_field by lia. f_equal. rewrite (field_ext _ (set_bits (bit_at p) off (Z.to_nat bits) v)) by (done || lia).
    by apply field_set.
  - intros sign' bits' off' ?? ? Hdis. rewrite !get_field by lia. f_equal.
    rewrite (field_ext _ (set_bits (bit_at p) off (Z.to_nat bits) v)) by (done || lia).
    unfold field. f_equal. apply ufield_set_other. lia.
Qed.

Lemma bitfield_roundtrip_witness :
  exists p', setSignedBitfield [1; 2; 3] 5 7 (-50) = Some p' /\ getSignedBitfield p' 5 7 = Some (-50).
Proof.
  destruct (bitfield_roundtrip [1; 2; 3] true 7 5 (-50) ltac:(by apply lit_bytes) ltac:(cbn; lia) ltac:(lia) ltac:(lia)
    ltac:(cbn; lia) ltac:(cbn; lia)) as (p'&E&_&G&_).
  exists p'. split; [exact E|exact G].
Defined.

Lemma hash_offset n bits :
  0 <= n <= LLONG_MAX -> 0 < bits -> 0 <= s64 (n * bits) < 2 ^ 32 ->
  getBitOffsetFromArgument (chr "#" :: decimal n) true bits = Some (s64 (n * bits)).
Proof.
  intros Hn Hb Hs. unfold getBitOffsetFromArgument. cbn [head]. rewrite bool_decide_true by done.
  rewrite (proj2 (Z.gtb_lt bits 0)) by lia. cbn [andb]. change (drop 1 (chr "#" :: decimal n)) with (decimal n). rewrite string2ll_complete by lia. mred.
  rewrite (proj2 (Z.ltb_ge _ 0)) by lia. rewrite shiftr_3, Z.geb_leb, (proj2 (Z.leb_gt _ _)); [done|]. zlia.
Qed.


