(* ===== verification/BitCmd.v ===== *)
(** * SETBIT, GETBIT and BITOP

    Single bits of a string against the array of its bits, and the bitwise operations of
    BITOP, whose fast path by words agrees with the operation on single bits. *)

From S2P Require Import Prelude Bits Util Bitops BitScan BitField.

(** ** Single bits *)

Lemma land_u64_r b x : 0 <= b < 2 ^ 64 -> Z.land b (u64 x) = Z.land b x.
Proof.
  intros Hb. unfold wrapu. bitwise i Hi. rewrite !Z.land_spec, testbit_mod_pow2 by lia.
  destruct (Z.ltb_spec i 64); [done|]. by rewrite (testbit_small b 64) by lia.
Qed.

Lemma getLong_bit a on : getLongFromArg a = Some (Z.b2z on) -> (Z.land (Z.b2z on) (Z.lnot 1) =? 0) = true /\ Z.land (Z.b2z on) 1 = Z.b2z on.
Proof. by destruct on. Qed.

Lemma nth_byte p k : Forall is_byte p -> is_byte (nth k p 0).
Proof.
  intros Hp. destruct (decide (k < length p)%nat) as [Hk|Hk].
  - eapply Forall_nth; [done|lia].
  - rewrite nth_overflow by lia. unfold is_byte. lia.
Qed.

Lemma bit_value p off : 0 <= off -> 
  (if Z.land (nth (Z.to_nat (off / 8)) p 0) (Z.shiftl 1 (7 - off mod 8)) =? 0 then 0 else 1) = Z.b2z (bit_at p off).
Proof. intros. rewrite land_bit_eqb by zlia. unfold bit_at. by destruct (Z.testbit _ _). Qed.

Lemma setbit_byte p off on :
  0 <= off < 8 * Z.of_nat (length p) -> Forall is_byte p ->
  exists p', wr p (off / 8) [u8 (Z.lor (Z.land (nth (Z.to_nat (off / 8)) p 0) (Z.lnot (Z.shiftl 1 (7 - off mod 8))))
                                   (Z.shiftl (Z.b2z on) (7 - off mod 8)))] = Some p' /\
    length p' = length p /\ Forall is_byte p' /\ forall i, 0 <= i -> bit_at p' i = if i =? off then on else bit_at p i.
Proof.
  intros Ho Hb. destruct (setUnsignedBitfield_step p off on Ho Hb) as (p'&E&?&?&?).
  rewrite rd1_nth in E by zlia. cbn [mbind option_bind] in E. exists p'. split; [|done]. rewrite <-E.
  pose proof (nth_byte p (Z.to_nat (off / 8)) Hb) as Hx. rewrite land_255, land_u64_r by (unfold is_byte in Hx; pow2; lia). done.
Qed.

(** What GETBIT does with the bytes of the object. *)
Lemma getbit_bytes (o : option vobj) s off : 0 <= off ->
  (if off / 8 <? Z.of_nat (length s) then
     b ← rd1 s (off / 8); replies o (if Z.land b (Z.shiftl 1 (7 - off mod 8)) =? 0 then 0 else 1)
   else replies o 0) = replies o (Z.b2z (bit_at s off)).
Proof.
  intros. destruct (Z.ltb_spec (off / 8) (Z.of_nat (length s))).
  - rewrite rd1_nth by zlia. mred. by rewrite bit_value by lia.
  - unfold bit_at. rewrite nth_overflow by zlia. by rewrite Z.bits_0.
Qed.

Lemma getbit_spec o s a_off off : decoded o = Some s -> getBitOffsetFromArgument a_off false 0 = Some off ->
  getbitCommand (Some o) a_off = replies (Some o) (Z.b2z (bit_at s off)).
Proof.
  intros Ho Ha. pose proof (getBitOffset_range _ _ _ _ Ha) as Hr. unfold getbitCommand. rewrite Ha, shiftr_3, land_7.
  rewrite <-getbit_bytes by lia. destruct o; try done; rewrite Ho; done.
Qed.

Lemma setbit_spec o a_off off a_val on :
  (forall o', o = Some o' -> string_obj o') -> getBitOffsetFromArgument a_off false 0 = Some off ->
  getLongFromArg a_val = Some (Z.b2z on) ->
  exists p, setbitCommand o a_off a_val =
      Some (Res (Some (VStr p)) 1 (RInt (Z.b2z (bit_at (from_option obj_bytes [] o) off)))) /\
    Forall is_byte p /\ Z.of_nat (length p) = Z.max (Z.of_nat (length (from_option obj_bytes [] o))) (off / 8 + 1) /\
    forall i, 0 <= i -> bit_at p i = if i =? off then on else bit_at (from_option obj_bytes [] o) i.
Proof.
  intros Ho Ha Hv. pose proof (getBitOffset_range _ _ _ _ Ha) as Hr. unfold setbitCommand. rewrite Ha, Hv.
  destruct (getLong_bit _ _ Hv) as [-> ->]. cbn [negb].
  destruct (lookupStringForBitCommand_spec o off Ho) as (s&->&Hb&Hs&L&_); [change (2 ^ 33) with 8589934592; pow2; lia|].
  mred. rewrite shiftr_3, land_7, rd1_nth by (rewrite L; zlia). mred.
  destruct (setbit_byte s off on) as (p&->&L'&B'&G); [rewrite L; zlia|done|]. mred. exists p.
  rewrite bit_value, Hs by lia. split; [done|]. split; [done|]. split; [by rewrite L'|].
  intros i Hi. rewrite G by done. destruct (i =? off); [done|by apply Hs].
Qed.

Lemma land_not1 x : Z.land x (Z.lnot 1) = 2 * (x / 2).
Proof.
  replace (2 * (x / 2)) with (Z.shiftl (Z.shiftr x 1) 1)
    by (rewrite Z.shiftl_mul_pow2, Z.shiftr_div_pow2 by lia; change (2 ^ 1) with 2; lia).
  bitwise i Hi. rewrite Z.land_spec, Z.lnot_spec by done. destruct (decide (i = 0)) as [->|].
  - by rewrite Z.shiftl_spec_low, andb_false_r by lia.
  - rewrite Z.shiftl_spec, Z.shiftr_spec by lia. replace (i - 1 + 1) with i by lia.
    rewrite (testbit_small 1 1) by lia. by rewrite andb_true_r.
Qed.

(** The outcomes of SETBIT: an error of the arguments, whatever the key holds, or a write. *)
Lemma setbit_cases a_off a_val :
  (exists e, forall o, setbitCommand o a_off a_val = fails o e) \/
  ((forall o, (forall o', o = Some o' -> string_obj o') ->
     exists p b, setbitCommand o a_off a_val = Some (Res (Some (VStr p)) 1 (RInt b)) /\ string_obj (VStr p)) /\
   setbitCommand (Some VOther) a_off a_val = fails (Some VOther) ErrWrongType).
Proof.
  destruct (getBitOffsetFromArgument a_off false 0) as [off|] eqn:Eo.
  2:{ left. exists ErrOffset. intros o. unfold setbitCommand. by rewrite Eo. }
  destruct (getLongFromArg a_val) as [on|] eqn:Ea.
  2:{ left. exists ErrBit. intros o. unfold setbitCommand. by rewrite Eo, Ea. }
  destruct (decide (on = Z.b2z false \/ on = Z.b2z true)) as [Hon|Hon].
  - right. assert (exists b, on = Z.b2z b) as [b ->] by (destruct Hon; eauto). split.
    + intros o Ho. destruct (setbit_spec o a_off off a_val b Ho Eo Ea) as (p&E&B&L&_). exists p, (Z.b2z (bit_at (from_option obj_bytes [] o) off)).
      split; [done|]. split; [done|]. pose proof (getBitOffset_range _ _ _ _ Eo). pow2.
      assert (Z.of_nat (length (from_option obj_bytes [] o)) <= 512 * 1024 * 1024).
      { destruct o as [o|]; [|cbn; lia]. apply string_obj_bytes. auto. }
      rewrite L. zlia.
    + unfold setbitCommand. rewrite Eo, Ea. by destruct b.
  - left. exists ErrBit. intros o. unfold setbitCommand. rewrite Eo, Ea, land_not1.
    rewrite (proj2 (Z.eqb_neq _ 0)) by (cbn in Hon; zlia). done.
Qed.

(** C22: SETBIT changes the addressed bit and no other, whether the key is missing, holds a
    string or a number; it replies the old bit and grows the string with zeros just as far
    as needed. GETBIT replies the bit at its offset, and after SETBIT the bit that was set. *)
Theorem setbit_getbit_exact o a_off off a_val on :
  (forall o', o = Some o' -> string_obj o') -> getBitOffsetFromArgument a_off false 0 = Some off ->
  getLongFromArg a_val = Some (Z.b2z on) ->
  exists p, setbitCommand o a_off a_val =
      Some (Res (Some (VStr p)) 1 (RInt (Z.b2z (bit_at (from_option obj_bytes [] o) off)))) /\
    Forall is_byte p /\ Z.of_nat (length p) = Z.max (Z.of_nat (length (from_option obj_bytes [] o))) (off / 8 + 1) /\
    (forall i, 0 <= i -> bit_at p i = if i =? off then on else bit_at (from_option obj_bytes [] o) i) /\
    forall a i, getBitOffsetFromArgument a false 0 = Some i ->
      getbitCommand o a = replies o (Z.b2z (bit_at (from_option obj_bytes [] o) i)) /\
      getbitCommand (Some (VStr p)) a =
        replies (Some (VStr p)) (Z.b2z (if i =? off then on else bit_at (from_option obj_bytes [] o) i)).
Proof.
  intros Ho Ha Hv. destruct (setbit_spec o a_off off a_val on Ho Ha Hv) as (p&E&B&L&Gp). exists p.
  split; [done|]. split; [done|]. split; [done|]. split; [done|].
  intros a i Hi. pose proof (getBitOffset_range _ _ _ _ Hi) as Hri. split.
  - destruct o as [o|]; [apply getbit_spec; [|done]; apply decoded_spec; auto|]. unfold getbitCommand. rewrite Hi. cbn [from_option].
    unfold bit_at. rewrite nth_overflow by (cbn; lia). by rewrite Z.bits_0.
  - rewrite <-Gp by lia. by apply getbit_spec.
Qed.

Lemma setbit_getbit_exact_witness :
  exists p, setbitCommand (Some (VInt 12)) (lit "25") (lit "1") = Some (Res (Some (VStr p)) 1 (RInt 0)) /\ length p = 4%nat.
Proof.
  destruct (setbit_getbit_exact (Some (VInt 12)) (lit "25") 25 (lit "1") true ltac:(intros ? [= <-]; cbn; lia) eq_refl eq_refl)
    as (p&E&_&L&_).
  exists p. split; [exact E|]. change (Z.of_nat (length p) = 4) in L. lia.
Defined.

(** ** Bitwise operations by words *)

Lemma nth_wr p off bs p' k : wr p off bs = Some p' ->
  nth k p' 0 = if bool_decide (off <= Z.of_nat k < off + Z.of_nat (length bs)) then nth (k - Z.to_nat off) bs 0 else nth k p 0.
Proof.
  intros Hw. pose proof Hw as H. apply wr_Some in H as (?&?&_). rewrite !nth_lookup. case_bool_decide.
  - pose proof (wr_lookup_in _ _ _ _ (Z.of_nat k - off) Hw ltac:(lia)) as E.
    replace (off + (Z.of_nat k - off)) with (Z.of_nat k) in E by lia. rewrite Nat2Z.id in E. rewrite E. do 2 f_equal. lia.
  - f_equal. pose proof (wr_lookup_out _ _ _ _ (Z.of_nat k) Hw ltac:(lia) ltac:(lia)) as E. by rewrite Nat2Z.id in E.
Qed.

Lemma nth_rd p off n bs k : rd p off n = Some bs -> Z.of_nat k < n -> nth k bs 0 = nth (Z.to_nat off + k) p 0.
Proof.
  intros Hr Hk. pose proof Hr as H. apply rd_Some in H as (?&?&?&_). rewrite !nth_lookup. f_equal.
  rewrite <-(Nat2Z.id k) at 1. rewrite (rd_lookup _ _ _ _ _ Hr) by lia. f_equal. lia.
Qed.

Lemma word_op_byte op x y : is_byte x -> is_byte y -> is_byte (word_op op x y).
Proof.
  unfold is_byte. change 256 with (2 ^ 8). intros. destruct op; cbn [word_op]; [apply land_range|apply lor_range|apply lxor_range|]; lia.
Qed.

Lemma word_op_cons op x y u v : is_byte x -> is_byte y ->
  word_op op (x + 256 * u) (y + 256 * v) = word_op op x y + 256 * word_op op u v.
Proof.
  intros Hx Hy. pose proof (word_op_byte op x y Hx Hy) as Hw. unfold is_byte in *. rewrite !(Z.mul_comm 256). change 256 with (2 ^ 8) in *.
  bitwise i Hi. rewrite testbit_shift_add by lia.
  destruct op; cbn [word_op]; rewrite ?Z.land_spec, ?Z.lor_spec, ?Z.lxor_spec, !testbit_shift_add by lia; by destruct (i <? 8).
Qed.

Lemma word_op_le op a b : Forall is_byte a -> Forall is_byte b -> length a = length b ->
  le_encode (length a) (word_op op (le_decode a) (le_decode b)) = zip_with (word_op op) a b.
Proof.
  intros Ha Hb L.
  assert (Forall is_byte (zip_with (word_op op) a b) /\ le_decode (zip_with (word_op op) a b) = word_op op (le_decode a) (le_decode b)) as [F E].
  { revert b Hb L. induction Ha as [|x a Hx Ha IH]; intros [|y b] Hb L; try done; [by split; [|destruct op]|].
    apply Forall_cons in Hb as [Hy Hb]. destruct (IH b Hb) as [F E]; [cbn in L; lia|].
    cbn [zip_with le_decode]. rewrite E, word_op_cons by done. split; [|done]. constructor; [by apply word_op_byte|done]. }
  rewrite <-E. replace (length a) with (length (zip_with (word_op op) a b)) by (rewrite length_zip_with; lia). by apply le_encode_decode.
Qed.

Lemma not_le a : Forall is_byte a -> (0 < length a)%nat ->
  le_encode (length a) (wrapu (8 * Z.of_nat (length a)) (Z.lnot (le_decode a))) = map (fun x => 255 - x) a.
Proof.
  intros Ha Hl. assert (le_decode (map (fun x => 255 - x) a) = 2 ^ (8 * Z.of_nat (length a)) - 1 - le_decode a) as E.
  { clear. induction a as [|x a IH]; [done|]. cbn [map le_decode length]. rewrite IH, pow_byte_S. lia. }
  replace (wrapu _ (Z.lnot (le_decode a))) with (le_decode (map (fun x => 255 - x) a)).
  - rewrite <-(length_map (fun x => 255 - x) a). apply le_encode_decode.
    clear -Ha. induction Ha; constructor; [unfold is_byte in *; lia|done].
  - rewrite E. pose proof (le_decode_range a Ha). unfold wrapu, Z.lnot.
    rewrite <-(Z.mod_add _ 1), Z.mod_small by lia. lia.
Qed.

Lemma Forall_wr p off bs p' : Forall is_byte p -> Forall is_byte bs -> wr p off bs = Some p' -> Forall is_byte p'.
Proof.
  intros Hp Hb H. apply wr_Some in H as (_&_&->). rewrite !Forall_app. split; [by apply Forall_take|]. split; [done|by apply Forall_drop].
Qed.

Lemma Forall_rd p off n bs : Forall is_byte p -> rd p off n = Some bs -> Forall is_byte bs.
Proof. intros Hp H. apply rd_Some in H as (_&_&_&->). by apply Forall_take, Forall_drop. Qed.

(** [p'] is [p] with [f] applied to the [n] bytes from [j] on. *)
Definition updates (p p' : list Z) (j n : Z) (f : nat -> Z -> Z) : Prop :=
  length p' = length p /\ Forall is_byte p' /\
  forall k, nth k p' 0 = if bool_decide (j <= Z.of_nat k < j + n) then f k (nth k p 0) else nth k p 0.

Lemma updates_refl p j f : Forall is_byte p -> updates p p j 0 f.
Proof. intros. split; [done|]. split; [done|]. intros k. by rewrite bool_decide_false by lia. Qed.

Lemma updates_app p q r j n m f : 0 <= n -> 0 <= m -> updates p q j n f -> updates q r (j + n) m f -> updates p r j (n + m) f.
Proof.
  intros ?? (L1&_&G1) (L2&B2&G2). split; [congruence|]. split; [done|]. intros k. rewrite G2, !G1.
  repeat case_bool_decide; try lia; done.
Qed.

Lemma updates_compose p q r j n f g : updates p q j n f -> updates q r j n g -> updates p r j n (fun k x => g k (f k x)).
Proof.
  intros (L1&_&G1) (L2&B2&G2). split; [congruence|]. split; [done|]. intros k. rewrite G2, !G1. by case_bool_decide.
Qed.

Lemma updates_ext p q j n f g : (forall k x, f k x = g k x) -> updates p q j n f -> updates p q j n g.
Proof. intros E (?&?&G). split; [done|]. split; [done|]. intros k. rewrite G, E. done. Qed.

(** A word read, changed by bytes and written back. *)
Lemma word_updates p off a bs f : rd p off 8 = Some a -> length bs = 8%nat -> Forall is_byte p -> Forall is_byte bs ->
  (forall k, (k < 8)%nat -> nth k bs 0 = f (Z.to_nat off + k)%nat (nth k a 0)) ->
  exists p', wr p off bs = Some p' /\ updates p p' off 8 f.
Proof.
  intros Hr L Hp Hb Hf. pose proof Hr as H. apply rd_Some in H as (?&_&?&_).
  destruct (wr_is_Some p off bs) as [p' Hw]; [lia..|]. exists p'. split; [done|]. split; [by eapply wr_length|].
  split; [exact (Forall_wr p off bs p' Hp Hb Hw)|]. intros k. rewrite (nth_wr _ _ _ _ _ Hw), L. change (Z.of_nat 8) with 8. case_bool_decide; [|done].
  rewrite Hf, (nth_rd _ _ _ _ _ Hr) by lia. by replace (Z.to_nat off + (k - Z.to_nat off))%nat with k by lia.
Qed.

Lemma bitop_word_spec op res src off :
  Forall is_byte res -> Forall is_byte src -> 0 <= off -> off + 8 <= Z.of_nat (length res) -> off + 8 <= Z.of_nat (length src) ->
  exists res', bitop_word op res src off = Some res' /\ updates res res' off 8 (fun k x => word_op op x (nth k src 0)).
Proof.
  intros Hr Hs Ho Lr Ls. destruct (rd_is_Some res off 8) as [a Ha]; [lia..|]. destruct (rd_is_Some src off 8) as [b Hb]; [lia..|].
  unfold bitop_word. rewrite Ha, Hb. mred. pose proof (rd_length _ _ _ _ Ha). pose proof (rd_length _ _ _ _ Hb).
  assert (Forall is_byte a) as Fa by exact (Forall_rd _ _ _ _ Hr Ha). assert (Forall is_byte b) as Fb by exact (Forall_rd _ _ _ _ Hs Hb).
  replace 8%nat with (length a) by lia. rewrite word_op_le by (done || lia).
  apply (word_updates _ _ a); [done|rewrite length_zip_with; lia|done| |].
  - apply Forall_lookup. intros k x (y&z&->&Hy&Hz)%lookup_zip_with_Some.
    apply word_op_byte; [by eapply (Forall_lookup_1 _ _ _ _ Fa)|by eapply (Forall_lookup_1 _ _ _ _ Fb)].
  - intros k Hk. rewrite <-(nth_rd _ _ _ _ k Hb) by lia. rewrite !nth_lookup, lookup_zip_with.
    destruct (lookup_lt_is_Some_2 a k) as [x Ex]; [lia|]. destruct (lookup_lt_is_Some_2 b k) as [y Ey]; [lia|]. by rewrite Ex, Ey.
Qed.

Lemma not_word_spec res off : Forall is_byte res -> 0 <= off -> off + 8 <= Z.of_nat (length res) ->
  exists res', not_word res off = Some res' /\ updates res res' off 8 (fun _ x => 255 - x).
Proof.
  intros Hr Ho Lr. destruct (rd_is_Some res off 8) as [a Ha]; [lia..|]. unfold not_word. rewrite Ha. mred.
  pose proof (rd_length _ _ _ _ Ha). assert (Forall is_byte a) as Fa by exact (Forall_rd _ _ _ _ Hr Ha).
  replace 8%nat with (length a) by lia. replace 64 with (8 * Z.of_nat (length a)) by lia. rewrite not_le by (done || lia).
  apply (word_updates _ _ a); [done|rewrite length_map; lia|done| |].
  - clear -Fa. induction Fa; constructor; [unfold is_byte in *; lia|done].
  - intros k Hk. rewrite (nth_indep _ 0 (255 - 0)) by (rewrite length_map; lia). apply (map_nth (fun x => 255 - x)).
Qed.

(** Four consecutive words, by a step that handles one. *)
Lemma four_words (step : list Z -> Z -> option (list Z)) (f : nat -> Z -> Z) (len : Z) res j :
  (forall p off, Forall is_byte p -> Z.of_nat (length p) = len -> 0 <= off -> off + 8 <= j + 32 ->
     exists p', step p off = Some p' /\ updates p p' off 8 f) ->
  Forall is_byte res -> Z.of_nat (length res) = len -> 0 <= j ->
  exists res', (res ← step res j; res ← step res (j + 8); res ← step res (j + 16); step res (j + 24)) = Some res' /\
    updates res res' j 32 f.
Proof.
  intros H Hr L Hj.
  destruct (H res j) as (r1&->&U1); [done|lia..|]. mred. pose proof U1 as (L1&B1&_).
  destruct (H r1 (j + 8)) as (r2&->&U2); [done|lia..|]. mred. pose proof U2 as (L2&B2&_).
  destruct (H r2 (j + 16)) as (r3&->&U3); [done|lia..|]. mred. pose proof U3 as (L3&B3&_).
  destruct (H r3 (j + 24)) as (r4&->&U4); [done|lia..|]. exists r4. split; [done|].
  replace (j + 16) with (j + 8 + 8) in U3 by lia. replace (j + 24) with (j + 8 + 8 + 8) in U4 by lia.
  change 32 with (8 + (8 + (8 + 8))). repeat (eapply updates_app; [lia|lia|done|]). done.
Qed.

Lemma bitop_block_spec op srcs j : 0 <= j -> Forall (fun s => Forall is_byte s /\ j + 32 <= Z.of_nat (length s)) srcs ->
  forall res, Forall is_byte res -> j + 32 <= Z.of_nat (length res) ->
  exists res', bitop_block op srcs res j = Some res' /\
    updates res res' j 32 (fun k x => foldl (word_op op) x (map (fun s => nth k s 0) srcs)).
Proof.
  intros Hj. induction 1 as [|src srcs [Hb Hl] Hs IH]; intros res Hr Lr; cbn [bitop_block map foldl].
  { exists res. split; [done|]. split; [done|]. split; [done|]. intros k. by case_bool_decide. }
  destruct (four_words (fun r off => bitop_word op r src off) (fun k x => word_op op x (nth k src 0)) (Z.of_nat (length res)) res j)
    as (r1&E&U1); [|done|done|done|].
  { intros p off Hp Lp Ho Hoff. apply bitop_word_spec; try done; lia. }
  pose proof U1 as (L1&B1&_). destruct (IH r1 B1 ltac:(lia)) as (r2&E2&U2). exists r2. split; [|exact (updates_compose _ _ _ _ _ _ _ U1 U2)].
  apply bind_Some in E as (x1&Q1&(x2&Q2&(x3&Q3&Q4)%bind_Some)%bind_Some).
  rewrite Q1. mred. rewrite Q2. mred. rewrite Q3. mred. rewrite Q4. mred. done.
Qed.

Lemma not_block_spec res j : Forall is_byte res -> 0 <= j -> j + 32 <= Z.of_nat (length res) ->
  exists res', not_block res j = Some res' /\ updates res res' j 32 (fun _ x => 255 - x).
Proof.
  intros. apply (four_words not_word _ (Z.of_nat (length res))); try done. intros. apply not_word_spec; done || lia.
Qed.

(** ** BITOP *)

(** The byte of the result at [k], as a function of the byte of the first source. *)
Definition byte_ref (op : bitop) (srcs : list (list Z)) (k : nat) (x : Z) : Z :=
  if decide (op = BITOP_NOT) then 255 - x else foldl (word_op op) x (map (fun s => nth k s 0) srcs).

Lemma bitop_fast_spec op srcs fuel : forall res j minlen,
  (Z.to_nat minlen < fuel)%nat -> 0 <= j -> 0 <= minlen -> Forall is_byte res -> j + minlen <= Z.of_nat (length res) ->
  Forall (fun s => Forall is_byte s /\ j + minlen <= Z.of_nat (length s)) srcs ->
  exists res' n, bitop_fast fuel op srcs res j minlen = Some (res', j + n) /\ 0 <= n <= minlen /\
    updates res res' j n (byte_ref op srcs).
Proof.
  induction fuel as [|fuel IH]; intros res j minlen Hf Hj Hm Hr Lr Hs; [lia|]. cbn [bitop_fast].
  destruct (Z.leb_spec 32 minlen).
  2:{ exists res, 0. rewrite Z.add_0_r. split; [done|]. split; [lia|]. by apply updates_refl. }
  assert (exists r1, (if decide (op = BITOP_NOT) then not_block res j else bitop_block op srcs res j) = Some r1 /\
    updates res r1 j 32 (byte_ref op srcs)) as (r1&->&U1).
  { unfold byte_ref. case_decide; [apply not_block_spec; try done; lia|]. apply bitop_block_spec; try done; [|lia].
    eapply Forall_impl; [done|]. intros s [? ?]. split; [done|lia]. }
  mred. pose proof U1 as (L1&B1&_).
  destruct (IH r1 (j + 32) (minlen - 32)) as (r2&n&->&Hn&U2); [lia|lia|lia|done|lia| |].
  { eapply Forall_impl; [done|]. intros s [? ?]. split; [done|lia]. }
  exists r2, (32 + n). split; [do 2 f_equal; lia|]. split; [lia|]. eapply updates_app; [lia|lia|done|done].
Qed.

Lemma byte_at_spec s j : 0 <= j -> byte_at s j = Some (nth (Z.to_nat j) s 0).
Proof.
  intros. unfold byte_at. destruct (Z.leb_spec (Z.of_nat (length s)) j); [by rewrite nth_overflow by lia|]. by rewrite rd1_nth by lia.
Qed.

Lemma bitop_byte_spec op srcs j : 0 <= j -> forall x,
  bitop_byte op srcs x j = Some (foldl (word_op op) x (map (fun s => nth (Z.to_nat j) s 0) srcs)).
Proof.
  intros Hj. induction srcs as [|s srcs IH]; intros x; [done|]. cbn [bitop_byte map foldl]. rewrite byte_at_spec by done. mred. apply IH.
Qed.

Lemma foldl_word_byte op l x : is_byte x -> Forall is_byte l -> is_byte (foldl (word_op op) x l).
Proof. intros Hx Hl. revert x Hx. induction Hl as [|y l Hy Hl IH]; intros x Hx; [done|]. cbn. by apply IH, word_op_byte. Qed.

Lemma byte_ref_byte op srcs k x : Forall (Forall is_byte) srcs -> is_byte x -> is_byte (byte_ref op srcs k x).
Proof.
  intros Hs Hx. unfold byte_ref. case_decide; [unfold is_byte in *; lia|]. apply foldl_word_byte; [done|].
  induction Hs as [|s srcs Hs Hss IH]; constructor; [by apply nth_byte|done].
Qed.

Lemma bitop_bytes_spec op src0 srcs n : Forall is_byte src0 -> Forall (Forall is_byte) srcs -> (op = BITOP_NOT -> srcs = []) ->
  forall res j, 0 <= j -> Forall is_byte res -> j + Z.of_nat n <= Z.of_nat (length res) ->
  exists res', bitop_bytes n op src0 srcs res j = Some res' /\
    updates res res' j (Z.of_nat n) (fun k _ => byte_ref op srcs k (nth k src0 0)).
Proof.
  intros H0 Hs Hnot. induction n as [|n IH]; intros res j Hj Hr Lr; cbn [bitop_bytes].
  { exists res. split; [done|]. by apply updates_refl. }
  rewrite byte_at_spec by done. mred. rewrite bitop_byte_spec by done. mred.
  set (y := foldl _ _ _). assert (y = byte_ref op srcs (Z.to_nat j) (nth (Z.to_nat j) src0 0)) as Ey.
  { unfold y, byte_ref. destruct (decide (op = BITOP_NOT)) as [e|]; [|done]. rewrite (Hnot e). cbn [map foldl].
    pose proof (nth_byte src0 (Z.to_nat j) H0). unfold is_byte, wrapu, Z.lnot in *. pow2. zlia. }
  assert (is_byte y) as Hy by (rewrite Ey; apply byte_ref_byte; [done|by apply nth_byte]).
  destruct (wr_is_Some res j [y]) as [r1 Hw]; [lia|cbn; lia|]. rewrite Hw. mred.
  pose proof (wr_length _ _ _ _ Hw) as L1.
  assert (updates res r1 j 1 (fun k _ => byte_ref op srcs k (nth k src0 0))) as U1.
  { split; [done|]. split; [exact (Forall_wr res j [y] r1 Hr ltac:(by constructor) Hw)|]. intros k. rewrite (nth_wr _ _ _ _ _ Hw).
    cbn [length]. change (Z.of_nat 1) with 1. case_bool_decide; [|done]. replace k with (Z.to_nat j) by lia.
    rewrite Nat.sub_diag. exact Ey. }
  pose proof U1 as (_&B1&_). destruct (IH r1 (j + 1)) as (r2&->&U2); [lia|done|lia|]. exists r2. split; [done|].
  replace (Z.of_nat (S n)) with (1 + Z.of_nat n) by lia. eapply updates_app; [lia|lia|done|done].
Qed.

Lemma bitop_compute_spec op src0 srcs maxlen minlen :
  Forall is_byte src0 -> Forall (Forall is_byte) srcs -> (op = BITOP_NOT -> srcs = []) -> 0 <= minlen <= maxlen ->
  Forall (fun s => minlen <= Z.of_nat (length s)) (src0 :: srcs) ->
  exists res, bitop_compute op src0 srcs maxlen minlen = Some res /\ Z.of_nat (length res) = maxlen /\ Forall is_byte res /\
    forall k, Z.of_nat k < maxlen -> nth k res 0 = byte_ref op srcs k (nth k src0 0).
Proof.
  intros H0 Hs Hnot Hm [Hl0 Hl]%Forall_cons. unfold bitop_compute.
  assert (length (replicate (Z.to_nat maxlen) 0) = Z.to_nat maxlen) as L0 by apply length_replicate.
  assert (Forall is_byte (replicate (Z.to_nat maxlen) 0)) as B0 by (apply Forall_replicate; unfold is_byte; lia).
  assert (exists res j, (if (32 <=? minlen) && (Z.of_nat (S (length srcs)) <=? 16) then
       bs ← rd src0 0 minlen; res ← wr (replicate (Z.to_nat maxlen) 0) 0 bs;
       bitop_fast (S (Z.to_nat minlen)) op srcs res 0 minlen
     else Some (replicate (Z.to_nat maxlen) 0, 0)) = Some (res, j) /\ 0 <= j <= maxlen /\ Z.of_nat (length res) = maxlen /\
     Forall is_byte res /\ forall k, Z.of_nat k < j -> nth k res 0 = byte_ref op srcs k (nth k src0 0))
    as (res&j&->&Hj&Lr&Br&Gr).
  { destruct (_ && _); [|exists (replicate (Z.to_nat maxlen) 0), 0; split; [done|]; split_and!; try done; lia].
    destruct (rd_is_Some src0 0 minlen) as [bs Hrd]; [lia..|]. rewrite Hrd. mred. pose proof (rd_length _ _ _ _ Hrd) as Lb.
    destruct (wr_is_Some (replicate (Z.to_nat maxlen) 0) 0 bs) as [r1 Hw]; [lia..|]. rewrite Hw. mred.
    pose proof (wr_length _ _ _ _ Hw) as L1. pose proof (Forall_wr _ _ _ _ B0 (Forall_rd _ _ _ _ H0 Hrd) Hw) as B1.
    destruct (bitop_fast_spec op srcs (S (Z.to_nat minlen)) r1 0 minlen) as (r2&n&->&Hn&L2&B2&G2); [lia|lia|lia|done|lia| |].
    { apply Forall_and. by split. }
    exists r2, (0 + n). split; [done|]. split; [lia|]. split; [lia|]. split; [done|]. intros k Hk. rewrite G2, bool_decide_true by lia.
    rewrite (nth_wr _ _ _ _ _ Hw), bool_decide_true, (nth_rd _ _ _ _ _ Hrd) by lia. do 2 f_equal. lia. }
  mred. destruct (bitop_bytes_spec op src0 srcs (Z.to_nat (maxlen - j)) H0 Hs Hnot res j) as (r3&->&L3&B3&G3); [lia|done|lia|].
  exists r3. split; [done|]. split; [lia|]. split; [done|]. intros k Hk. rewrite G3. case_bool_decide; [done|]. apply Gr. lia.
Qed.

(** The bytes of a source key; a missing key is an empty string. *)
Definition src_bytes (o : option vobj) : list Z := from_option obj_bytes [] o.
Definition src_ok (o : option vobj) : Prop := forall o', o = Some o' -> string_obj o'.

Definition max_length (l : list (list Z)) : Z := foldr (fun s m => Z.max (Z.of_nat (length s)) m) 0 l.

Lemma bitop_lookup_spec objects : Forall src_ok objects -> forall j mx mn, 0 <= j -> 0 <= mx -> 0 <= mn ->
  exists mn', bitop_lookup objects j mx mn = Some (inl (src_bytes <$> objects, Z.max mx (max_length (src_bytes <$> objects)), mn')) /\
    0 <= mn' /\ (0 < j \/ objects = [] -> mn' <= mn) /\ Forall (fun s => mn' <= Z.of_nat (length s)) (src_bytes <$> objects).
Proof.
  induction 1 as [|o objects Ho Hos IH]; intros j mx mn Hj Hx Hn; cbn [bitop_lookup fmap list_fmap max_length foldr].
  { exists mn. rewrite Z.max_l by lia. split; [done|]. split; [done|]. split; [lia|done]. }
  assert (forall s mx' mn'', src_bytes o = s -> 0 <= mn'' -> mx' = Z.max mx (Z.of_nat (length s)) -> mn'' <= Z.of_nat (length s) ->
     (0 < j -> mn'' <= mn) -> exists mn',
     (r ← bitop_lookup objects (j + 1) mx' mn'';
      Some (match r with inl (src, a, b) => inl (s :: src, a, b) | inr e => inr e end)) =
     Some (inl (src_bytes o :: (src_bytes <$> objects), Z.max mx (Z.max (Z.of_nat (length (src_bytes o))) (max_length (src_bytes <$> objects))), mn')) /\
     0 <= mn' /\ (0 < j \/ o :: objects = [] -> mn' <= mn) /\ Forall (fun s => mn' <= Z.of_nat (length s)) (src_bytes o :: (src_bytes <$> objects))) as G.
  { intros s mx' mn'' <- Hn'' -> Hl Hj'. destruct (IH (j + 1) (Z.max mx (Z.of_nat (length (src_bytes o)))) mn'') as (mn'&->&H1&H2&H3); [lia..|].
    mred. exists mn'. split; [do 4 f_equal; lia|]. split; [done|]. assert (mn' <= mn'') by (apply H2; lia).
    split; [intros [?|?]; [lia|done]|]. constructor; [lia|done]. }
  destruct o as [o|].
  - specialize (Ho o eq_refl). pose proof (decoded_spec o Ho) as Ed.
    assert (exists mn',
     (s ← decoded o;
      let len := Z.of_nat (length s) in
      let maxlen := if len >? mx then len else mx in
      let minlen := if (j =? 0) || (len <? mn) then len else mn in
      r ← bitop_lookup objects (j + 1) maxlen minlen;
      Some (match r with inl (src, mx, mn) => inl (s :: src, mx, mn) | inr e => inr e end)) =
     Some (inl (src_bytes (Some o) :: (src_bytes <$> objects), Z.max mx (Z.max (Z.of_nat (length (src_bytes (Some o)))) (max_length (src_bytes <$> objects))), mn')) /\
     0 <= mn' /\ (0 < j \/ Some o :: objects = [] -> mn' <= mn) /\ Forall (fun s => mn' <= Z.of_nat (length s)) (src_bytes (Some o) :: (src_bytes <$> objects))) as R.
    { rewrite Ed. mred. cbv zeta. apply G; [done| | | |].
      - destruct (_ || _); lia.
      - rewrite Z.gtb_ltb. destruct (Z.ltb_spec mx (Z.of_nat (length (obj_bytes o)))); lia.
      - destruct (Z.eqb_spec j 0), (Z.ltb_spec (Z.of_nat (length (obj_bytes o))) mn); cbn [orb]; lia.
      - intros. rewrite (proj2 (Z.eqb_neq j 0)) by lia. cbn [orb]. destruct (Z.ltb_spec (Z.of_nat (length (obj_bytes o))) mn); lia. }
    destruct o; [exact R|exact R|done].
  - apply G; [done|lia| |cbn; lia|lia]. cbn. lia.
Qed.

(** The operation on the bits at one position of all sources. *)
Definition bool_op (op : bitop) (l : list bool) : bool :=
  match op with
  | BITOP_AND => forallb id l
  | BITOP_OR => existsb id l
  | BITOP_XOR => foldr xorb false l
  | BITOP_NOT => negb (default false (head l))
  end.

Lemma bool_op_foldl op b l : op <> BITOP_NOT ->
  foldl (fun x y => match op with BITOP_AND => x && y | BITOP_OR => x || y | BITOP_XOR => xorb x y | BITOP_NOT => x end) b l = bool_op op (b :: l).
Proof.
  intros Hop. revert b. induction l as [|c l IH]; intros b; cbn [foldl].
  - destruct op; cbn; by destruct b.
  - rewrite IH. destruct op; cbn; try done; unfold id; destruct b, c; try done; by destruct (foldr xorb false l).
Qed.

Lemma byte_ref_bit op srcs k x b : is_byte x -> 0 <= b < 8 -> (op = BITOP_NOT -> srcs = []) ->
  Z.testbit (byte_ref op srcs k x) b = bool_op op (Z.testbit x b :: map (fun s => Z.testbit (nth k s 0) b) srcs).
Proof.
  intros Hx Hb Hnot. unfold byte_ref. destruct (decide (op = BITOP_NOT)) as [->|Hop].
  - rewrite (Hnot eq_refl). cbn. replace (255 - x) with (Z.lnot x mod 2 ^ 8) by (unfold Z.lnot, is_byte in *; pow2; zlia).
    rewrite testbit_mod_pow2, Z.lnot_spec, (proj2 (Z.ltb_lt b 8)) by lia. done.
  - rewrite <-bool_op_foldl by done. clear Hx. revert x. induction srcs as [|s srcs IH]; intros x; [done|].
    cbn [map foldl]. rewrite IH by done. f_equal. destruct op; cbn [word_op]; rewrite ?Z.land_spec, ?Z.lor_spec, ?Z.lxor_spec; done.
Qed.

(** C21: BITOP AND, OR, XOR and NOT of keys that are missing or hold strings: the target
    holds a string as long as the longest source whose bit at every position is the
    operation on the bits of the sources there, shorter and missing sources being followed
    by zeros; the path that works on four words at a time and the one on single bytes agree,
    for every number and lengths of sources. The target is deleted when all are empty. The
    reply is the length. *)
Theorem bitop_exact target opname op objects :
  bitop_name opname = Some op -> Forall src_ok objects -> objects <> [] -> (op = BITOP_NOT -> length objects = 1%nat) ->
  exists res, bitopCommand target opname objects =
      Some (Res (if max_length (src_bytes <$> objects) =? 0 then None else Some (VStr res)) 1
              (RInt (max_length (src_bytes <$> objects)))) /\
    Z.of_nat (length res) = max_length (src_bytes <$> objects) /\ Forall is_byte res /\
    forall i, 0 <= i < 8 * Z.of_nat (length res) ->
      bit_at res i = bool_op op (map (fun o => bit_at (src_bytes o) i) objects).
Proof.
  intros Hop Hos Hne Hnot. unfold bitopCommand. rewrite Hop.
  assert (bool_decide (op = BITOP_NOT) && negb (Z.of_nat (length objects) =? 1) = false) as ->.
  { case_bool_decide as E; [|done]. by rewrite (Hnot E). }
  destruct (bitop_lookup_spec objects Hos 0 0 0) as (mn&->&Hmn&_&Hl); [lia..|]. mred.
  assert (Forall (Forall is_byte) (src_bytes <$> objects)) as Hb.
  { apply Forall_fmap. eapply Forall_impl; [done|]. intros [o|] Ho; unfold compose, src_bytes; cbn [from_option]; [|done].
    apply string_obj_bytes. auto. }
  assert (0 <= max_length (src_bytes <$> objects) /\ forall s, s ∈ src_bytes <$> objects -> Z.of_nat (length s) <= max_length (src_bytes <$> objects)) as [Hm0 Hmx].
  { generalize (src_bytes <$> objects). intros l. induction l as [|s l [IH1 IH2]]; unfold max_length; cbn [foldr]; [split; [done|]; by intros s ?%not_elem_of_nil|].
    fold (max_length l). split; [lia|]. intros s' [->|Hin]%elem_of_cons; [lia|]. specialize (IH2 s' Hin). lia. }
  rewrite Z.max_r by done. destruct objects as [|o0 objects]; [done|]. cbn [fmap list_fmap] in *.
  apply Forall_cons in Hb as [Hb0 Hb]. set (M := max_length _) in *.
  destruct (bitop_compute_spec op (src_bytes o0) (src_bytes <$> objects) M mn) as (res&Er&Lr&Br&Gr); [done|done| | |done|].
  { intros E. specialize (Hnot E). destruct objects; [done|]. cbn in Hnot. lia. }
  { apply Forall_cons in Hl as [Hl0 _]. specialize (Hmx (src_bytes o0) ltac:(left)). lia. }
  exists res. split; [|split; [done|split; [done|]]].
  - destruct (Z.eqb_spec M 0) as [E|]; [by rewrite E|]. by rewrite Er.
  - intros i Hi. unfold bit_at. rewrite Gr by zlia. rewrite byte_ref_bit; [|by apply nth_byte|zlia|].
    + cbn [map]. do 2 f_equal. clear. induction objects as [|o objects IH]; [done|]. cbn. by f_equal.
    + intros E. specialize (Hnot E). destruct objects; [done|]. cbn in Hnot. lia.
Qed.

Lemma bitop_exact_witness :
  exists res, bitopCommand None (lit "XOR") [Some (VStr [240; 15; 255]); None; Some (VInt 5)] = Some (Res (Some (VStr res)) 1 (RInt 3)) /\
    length res = 3%nat.
Proof.
  destruct (bitop_exact None (lit "XOR") BITOP_XOR [Some (VStr [240; 15; 255]); None; Some (VInt 5)] eq_refl) as (res&E&L&_).
  - repeat constructor; intros ? [= <-]; cbn; [split; [by apply lit_bytes|lia]|lia].
  - discriminate.
  - discriminate.
  - exists res. split; [exact E|]. change (Z.of_nat (length res) = 3) in L. lia.
Defined.
