(* ===== verification/Keyspace.v ===== *)
(** * The keyspace

    The databases of a server and the commands on keys: db.c, the expire commands of
    expire.c, SET and GET of t_string.c, and SETBIT of bitops.c on top of them. The state
    is that of a server without cluster mode; [feed] is what is handed to the append only file
    and the slaves. Keys and objects are values, so reference counts and sharing do not
    appear; statistics, access times, keyspace notifications and clients blocked on lists are
    left out, and so is the table of keys that a writable slave expires by itself. The time
    does not change during a command. [None] is a failed assertion. *)

From stdpp Require Import gmap.
From S2P Require Import Prelude Util Bitops.

Abbreviation key := (list Z).

(** ** State *)

Record redisDb := RedisDb { dict : gmap key vobj; expires : gmap key Z; watched_keys : gmap key (list Z) }.

Inductive ttl_unit := UNIT_SECONDS | UNIT_MILLISECONDS.

(** The commands modelled, with their arguments. Relative expire times have [relative]. *)
Inductive command :=
  | CGet (k : key)
  | CSet (k : key) (v : vobj) (nx xx : bool) (expire : option (list Z * ttl_unit))
  | CSetbit (k : key) (offset value : list Z)
  | CDel (ks : list key)
  | CUnlink (ks : list key)
  | CExists (ks : list key)
  | CRename (k1 k2 : key) (nx : bool)
  | CMove (k : key) (db : list Z)
  | CSelect (db : list Z)
  | CSwapdb (db1 db2 : list Z)
  | CFlushdb
  | CFlushall
  | CDbsize
  | CExpire (k : key) (when : list Z) (relative : bool) (unit : ttl_unit)
  | CTtl (k : key) (output_ms : bool)
  | CPersist (k : key)
  | CAuth (password : list Z)
  | CPing (args : list (list Z))
  | CMulti | CExec | CDiscard | CWatch (ks : list key) | CUnwatch.

Inductive kreply :=
  | ROk | RQueued | RPong | RNullBulk | RNullMultiBulk | RInteger (v : Z) | RBulk (s : list Z)
  | RArray (l : list kreply) | RError (e : string) | RBit (r : breply).

(** A client: its database, its transaction and the keys it watches. [argv] is the command
    vector, which a command may rewrite before it is propagated. *)
Record client := Client {
  cdb : Z;
  flag_multi : bool; flag_dirty_cas : bool; flag_dirty_exec : bool; flag_master : bool; flag_pubsub : bool;
  authenticated : bool;
  mstate : list command;
  watched : list (Z * key);
  argv : command
}.

(** What a request can be refused for: the configuration and the state of memory, disk and
    replication. [out_of_memory]: [maxmemory] is set and [freeMemoryIfNeeded] fails. *)
Record conditions := Conditions {
  requirepass : option (list Z);
  out_of_memory : bool;
  stop_writes_on_bgsave_err : bool; saveparamslen : Z; lastbgsave_ok : bool; aof_last_write_ok : bool;
  repl_min_slaves_to_write : Z; repl_min_slaves_max_lag : Z; repl_good_slaves_count : Z;
  repl_slave_ro : bool;
  repl_state_connected : bool; repl_serve_stale_data : bool;
  lua_timedout : bool;
  lazyfree_lazy_eviction : bool
}.

Record server := Server {
  dbs : list redisDb;
  clients : gmap Z client;
  srv_dirty : Z;
  feed : list (Z * command);
  now : Z;
  masterhost : bool;
  loading : bool;
  lazyfree_lazy_expire : bool;
  conds : conditions
}.

Definition with_dbs (s : server) (x : list redisDb) : server :=
  Server x (clients s) (srv_dirty s) (feed s) (now s) (masterhost s) (loading s) (lazyfree_lazy_expire s) (conds s).
Definition with_clients (s : server) (x : gmap Z client) : server :=
  Server (dbs s) x (srv_dirty s) (feed s) (now s) (masterhost s) (loading s) (lazyfree_lazy_expire s) (conds s).
Definition with_dirty (s : server) (x : Z) : server :=
  Server (dbs s) (clients s) x (feed s) (now s) (masterhost s) (loading s) (lazyfree_lazy_expire s) (conds s).
Definition with_feed (s : server) (x : list (Z * command)) : server :=
  Server (dbs s) (clients s) (srv_dirty s) x (now s) (masterhost s) (loading s) (lazyfree_lazy_expire s) (conds s).
Definition with_now (s : server) (x : Z) : server :=
  Server (dbs s) (clients s) (srv_dirty s) (feed s) x (masterhost s) (loading s) (lazyfree_lazy_expire s) (conds s).
Definition with_conds (s : server) (x : conditions) : server :=
  Server (dbs s) (clients s) (srv_dirty s) (feed s) (now s) (masterhost s) (loading s) (lazyfree_lazy_expire s) x.

Definition with_flags (c : client) (multi cas exec : bool) : client :=
  Client (cdb c) multi cas exec (flag_master c) (flag_pubsub c) (authenticated c) (mstate c) (watched c) (argv c).
Definition with_cdb (c : client) (x : Z) : client :=
  Client x (flag_multi c) (flag_dirty_cas c) (flag_dirty_exec c) (flag_master c) (flag_pubsub c) (authenticated c) (mstate c) (watched c) (argv c).
Definition with_mstate (c : client) (x : list command) : client :=
  Client (cdb c) (flag_multi c) (flag_dirty_cas c) (flag_dirty_exec c) (flag_master c) (flag_pubsub c) (authenticated c) x (watched c) (argv c).
Definition with_watched (c : client) (x : list (Z * key)) : client :=
  Client (cdb c) (flag_multi c) (flag_dirty_cas c) (flag_dirty_exec c) (flag_master c) (flag_pubsub c) (authenticated c) (mstate c) x (argv c).
Definition with_argv (c : client) (x : command) : client :=
  Client (cdb c) (flag_multi c) (flag_dirty_cas c) (flag_dirty_exec c) (flag_master c) (flag_pubsub c) (authenticated c) (mstate c) (watched c) x.
Definition with_authenticated (c : client) (x : bool) : client :=
  Client (cdb c) (flag_multi c) (flag_dirty_cas c) (flag_dirty_exec c) (flag_master c) (flag_pubsub c) x (mstate c) (watched c) (argv c).
Definition with_pubsub (c : client) (x : bool) : client :=
  Client (cdb c) (flag_multi c) (flag_dirty_cas c) (flag_dirty_exec c) (flag_master c) x (authenticated c) (mstate c) (watched c) (argv c).

(** ** Commands as state transformers that may fault *)

Definition M (A : Type) : Type := server -> option (server * A).

#[export] Instance M_ret : MRet M := fun A a s => Some (s, a).
#[export] Instance M_bind : MBind M := fun A B f m s => '(s, a) ← m s; f a s.

Definition get : M server := fun s => Some (s, s).
Definition put (s : server) : M unit := fun _ => Some (s, ()).
Definition assert_ (b : bool) : M unit := fun s => if b then Some (s, ()) else None.

Definition getDb (d : Z) : M redisDb :=
  fun s => if 0 <=? d then db ← dbs s !! Z.to_nat d; Some (s, db) else None.
Definition putDb (d : Z) (db : redisDb) : M unit :=
  fun s => Some (with_dbs s (<[Z.to_nat d := db]> (dbs s)), ()).
Definition getClient (c : Z) : M client := fun s => cl ← clients s !! c; Some (s, cl).
Definition putClient (c : Z) (cl : client) : M unit :=
  fun s => Some (with_clients s (<[c := cl]> (clients s)), ()).
Definition addDirty (n : Z) : M unit := fun s => Some (with_dirty s (srv_dirty s + n), ()).

(** [propagate] and the calls that feed the append only file and the slaves. *)
Definition propagate (d : Z) (cmd : command) : M unit := fun s => Some (with_feed s (feed s ++ [(d, cmd)]), ()).

Fixpoint iterM {A} (f : A -> M unit) (l : list A) : M unit :=
  match l with [] => mret () | x :: l => f x ;; iterM f l end.

(** ** Watched keys *)

Definition mark_dirty_cas (c : Z) : M unit :=
  cl ← getClient c; putClient c (with_flags cl (flag_multi cl) true (flag_dirty_exec cl)).

Definition touchWatchedKey (d : Z) (k : key) : M unit :=
  db ← getDb d;
  match watched_keys db !! k with
  | None => mret ()
  | Some l => iterM mark_dirty_cas l
  end.

Definition signalModifiedKey (d : Z) (k : key) : M unit := touchWatchedKey d k.

(** Whether a key the client watches is about to be flushed. *)
Definition flush_hits (s : server) (dbid : Z) (wk : Z * key) : bool :=
  ((dbid =? -1) || (wk.1 =? dbid)) &&
  match dbs s !! Z.to_nat wk.1 with Some db => bool_decide (is_Some (dict db !! wk.2)) | None => false end.

Definition touchWatchedKeysOnFlush (dbid : Z) : M unit := fun s =>
  Some (with_clients s ((fun cl =>
    if existsb (flush_hits s dbid) (watched cl) then with_flags cl (flag_multi cl) true (flag_dirty_exec cl) else cl) <$> clients s), ()).

Definition signalFlushedDb (dbid : Z) : M unit := touchWatchedKeysOnFlush dbid.

(** ** The functions on a database *)

(** Synchronous and asynchronous deletion differ in when memory is freed. *)
Definition dbSyncDelete (d : Z) (k : key) : M bool :=
  db ← getDb d;
  putDb d (RedisDb (delete k (dict db)) (delete k (expires db)) (watched_keys db)) ;;
  mret (bool_decide (is_Some (dict db !! k))).

Definition dbAsyncDelete (d : Z) (k : key) : M bool := dbSyncDelete d k.
Definition dbDelete (d : Z) (k : key) : M bool := dbSyncDelete d k.

Definition getExpire (d : Z) (k : key) : M Z :=
  db ← getDb d;
  match expires db !! k with
  | None => mret (-1)
  | Some w => assert_ (bool_decide (is_Some (dict db !! k))) ;; mret w
  end.

Definition removeExpire (d : Z) (k : key) : M bool :=
  db ← getDb d;
  assert_ (bool_decide (is_Some (dict db !! k))) ;;
  putDb d (RedisDb (dict db) (delete k (expires db)) (watched_keys db)) ;;
  mret (bool_decide (is_Some (expires db !! k))).

Definition setExpire (d : Z) (k : key) (when : Z) : M unit :=
  db ← getDb d;
  assert_ (bool_decide (is_Some (dict db !! k))) ;;
  putDb d (RedisDb (dict db) (<[k := when]> (expires db)) (watched_keys db)).

Definition propagateExpire (d : Z) (k : key) (lazy : bool) : M unit :=
  propagate d (if lazy then CUnlink [k] else CDel [k]).

Definition expireIfNeeded (d : Z) (k : key) : M bool :=
  when ← getExpire d k;
  s ← get;
  if when <? 0 then mret false else
  if loading s then mret false else
  if masterhost s then mret (when <? now s) else
  if now s <=? when then mret false else
  propagateExpire d k (lazyfree_lazy_expire s) ;;
  (if lazyfree_lazy_expire s then dbAsyncDelete d k else dbSyncDelete d k).

(** The active expire cycle on one entry of the table of deadlines. *)
Definition activeExpireCycleTryExpire (d : Z) (k : key) : M bool :=
  db ← getDb d;
  match expires db !! k with
  | None => mret false
  | Some t =>
    s ← get;
    if now s >? t then
      propagateExpire d k (lazyfree_lazy_expire s) ;;
      (if lazyfree_lazy_expire s then dbAsyncDelete d k else dbSyncDelete d k) ;;
      mret true
    else mret false
  end.

Definition lookupKey (d : Z) (k : key) : M (option vobj) := db ← getDb d; mret (dict db !! k).

(** [hide]: the current client is not the master of this server and runs a read only
    command. *)
Definition lookupKeyRead (hide : bool) (d : Z) (k : key) : M (option vobj) :=
  e ← expireIfNeeded d k;
  s ← get;
  if e && (negb (masterhost s) || hide) then mret None else lookupKey d k.

Definition lookupKeyWrite (d : Z) (k : key) : M (option vobj) := expireIfNeeded d k ;; lookupKey d k.

Definition dbAdd (d : Z) (k : key) (v : vobj) : M unit :=
  db ← getDb d;
  assert_ (bool_decide (dict db !! k = None)) ;;
  putDb d (RedisDb (<[k := v]> (dict db)) (expires db) (watched_keys db)).

Definition dbOverwrite (d : Z) (k : key) (v : vobj) : M unit :=
  db ← getDb d;
  assert_ (bool_decide (is_Some (dict db !! k))) ;;
  putDb d (RedisDb (<[k := v]> (dict db)) (expires db) (watched_keys db)).

Definition setKey (d : Z) (k : key) (v : vobj) : M unit :=
  o ← lookupKeyWrite d k;
  (match o with None => dbAdd d k v | Some _ => dbOverwrite d k v end) ;;
  removeExpire d k ;;
  signalModifiedKey d k.

Definition dbExists (d : Z) (k : key) : M bool := o ← lookupKey d k; mret (bool_decide (is_Some o)).

Definition empty_dbs (dbnum : Z) (l : list redisDb) : list redisDb :=
  imap (fun j db => if (dbnum =? -1) || (dbnum =? Z.of_nat j) then RedisDb ∅ ∅ (watched_keys db) else db) l.

Definition removed_count (dbnum : Z) (l : list redisDb) : Z :=
  foldr Z.add 0 (imap (fun j db => if (dbnum =? -1) || (dbnum =? Z.of_nat j) then Z.of_nat (size (dict db)) else 0) l).

Definition emptyDb (dbnum : Z) : M Z := fun s =>
  if (dbnum <? -1) || (dbnum >=? Z.of_nat (length (dbs s))) then Some (s, -1)
  else Some (with_dbs s (empty_dbs dbnum (dbs s)), removed_count dbnum (dbs s)).

Definition selectDb (c : Z) (id : Z) : M bool :=
  cl ← getClient c; s ← get;
  if (id <? 0) || (id >=? Z.of_nat (length (dbs s))) then mret false
  else putClient c (with_cdb cl id) ;; mret true.

Definition dbSwapDatabases (id1 id2 : Z) : M bool :=
  s ← get;
  let n := Z.of_nat (length (dbs s)) in
  if (id1 <? 0) || (id1 >=? n) || (id2 <? 0) || (id2 >=? n) then mret false else
  if id1 =? id2 then mret true else
  db1 ← getDb id1; db2 ← getDb id2;
  putDb id1 (RedisDb (dict db2) (expires db2) (watched_keys db1)) ;;
  putDb id2 (RedisDb (dict db1) (expires db1) (watched_keys db2)) ;;
  mret true.

(** ** Commands *)

(** The flags [CMD_READONLY], [CMD_WRITE], [CMD_DENYOOM], [CMD_STALE] and [CMD_LOADING] of the
    command table. *)
Definition cmd_readonly (cmd : command) : bool :=
  match cmd with CGet _ | CExists _ | CDbsize | CTtl _ _ => true | _ => false end.

Definition cmd_write (cmd : command) : bool :=
  match cmd with
  | CSet _ _ _ _ _ | CSetbit _ _ _ | CDel _ | CUnlink _ | CRename _ _ _ | CMove _ _ | CSwapdb _ _ | CFlushdb | CFlushall
  | CExpire _ _ _ _ | CPersist _ => true
  | _ => false
  end.

Definition cmd_denyoom (cmd : command) : bool := match cmd with CSet _ _ _ _ _ | CSetbit _ _ _ => true | _ => false end.
Definition cmd_stale (cmd : command) : bool := match cmd with CAuth _ | CPing _ => true | _ => false end.
Definition cmd_loading (cmd : command) : bool := match cmd with CAuth _ | CSelect _ => true | _ => false end.

Definition NOT_INTEGER : kreply := RError "value is not an integer or out of range".

Definition getCommand (hide : bool) (d : Z) (k : key) : M kreply :=
  o ← lookupKeyRead hide d k;
  match o with
  | None => mret RNullBulk
  | Some o => match decoded o with Some s => mret (RBulk s) | None => mret (RError "WRONGTYPE") end
  end.

Definition setGenericCommand (d : Z) (k : key) (v : vobj) (nx xx : bool) (expire : option (list Z * ttl_unit)) : M kreply :=
  match
    match expire with
    | None => inl 0
    | Some (a, unit) =>
      match getLongLongFromArg a with
      | None => inr NOT_INTEGER
      | Some ms =>
        if ms <=? 0 then inr (RError "invalid expire time")
        else inl (match unit with UNIT_SECONDS => s64 (ms * 1000) | UNIT_MILLISECONDS => ms end)
      end
    end
  with
  | inr e => mret e
  | inl milliseconds =>
    o1 ← (if nx then lookupKeyWrite d k else mret None);
    if nx && bool_decide (is_Some o1) then mret RNullBulk else
    o2 ← (if xx then lookupKeyWrite d k else mret None);
    if xx && bool_decide (o2 = None) then mret RNullBulk else
    setKey d k v ;;
    addDirty 1 ;;
    s ← get;
    (match expire with Some _ => setExpire d k (s64 (now s + milliseconds)) | None => mret () end) ;;
    mret ROk
  end.

(** The arguments are parsed before the key is looked up: an error that a missing key gives
    is one of the arguments. *)
Definition setbitKey (d : Z) (k : key) (a_offset a_value : list Z) : M kreply :=
  match setbitCommand None a_offset a_value with
  | None => assert_ false ;; mret ROk
  | Some (Res _ _ (RErr e)) => mret (RBit (RErr e))
  | Some _ =>
    o ← lookupKeyWrite d k;
    match setbitCommand o a_offset a_value with
    | None => assert_ false ;; mret ROk
    | Some (Res (Some v) n (RInt b)) =>
      (match o with None => dbAdd d k v | Some _ => dbOverwrite d k v end) ;;
      signalModifiedKey d k ;; addDirty n ;; mret (RBit (RInt b))
    | Some (Res _ _ r) => mret (RBit r)
    end
  end.

Fixpoint del_loop (lazy : bool) (d : Z) (ks : list key) (numdel : Z) : M Z :=
  match ks with
  | [] => mret numdel
  | k :: ks =>
    expireIfNeeded d k ;;
    deleted ← (if lazy then dbAsyncDelete d k else dbSyncDelete d k);
    if deleted : bool then
      signalModifiedKey d k ;; addDirty 1 ;; del_loop lazy d ks (numdel + 1)
    else del_loop lazy d ks numdel
  end.

Definition delGenericCommand (lazy : bool) (d : Z) (ks : list key) : M kreply :=
  n ← del_loop lazy d ks 0; mret (RInteger n).

Fixpoint exists_loop (d : Z) (ks : list key) (count : Z) : M Z :=
  match ks with
  | [] => mret count
  | k :: ks =>
    expireIfNeeded d k ;;
    e ← dbExists d k; exists_loop d ks (if e : bool then count + 1 else count)
  end.

Definition existsCommand (d : Z) (ks : list key) : M kreply := n ← exists_loop d ks 0; mret (RInteger n).

Definition renameGenericCommand (d : Z) (k1 k2 : key) (nx : bool) : M kreply :=
  o ← lookupKeyWrite d k1;
  match o with
  | None => mret (RError "no such key")
  | Some o =>
    if bool_decide (k1 = k2) then mret (if nx then RInteger 0 else ROk) else
    expire ← getExpire d k1;
    o2 ← lookupKeyWrite d k2;
    if bool_decide (is_Some o2) && nx then mret (RInteger 0) else
    (if bool_decide (is_Some o2) then dbDelete d k2 else mret false) ;;
    dbAdd d k2 o ;;
    (if expire =? -1 then mret () else setExpire d k2 expire) ;;
    dbDelete d k1 ;;
    signalModifiedKey d k1 ;; signalModifiedKey d k2 ;;
    addDirty 1 ;;
    mret (if nx then RInteger 1 else ROk)
  end.

Definition moveCommand (c : Z) (k : key) (a_db : list Z) : M kreply :=
  cl ← getClient c;
  let src := cdb cl in
  match getLongLongFromArg a_db with
  | None => mret (RError "index out of range")
  | Some dbid =>
    if (dbid <? INT32_MIN) || (dbid >? INT32_MAX) then mret (RError "index out of range") else
    ok ← selectDb c dbid;
    if negb ok then mret (RError "index out of range") else
    selectDb c src ;;
    if src =? dbid then mret (RError "source and destination objects are the same") else
    o ← lookupKeyWrite src k;
    match o with
    | None => mret (RInteger 0)
    | Some o =>
      expire ← getExpire src k;
      o2 ← lookupKeyWrite dbid k;
      if bool_decide (is_Some o2) then mret (RInteger 0) else
      dbAdd dbid k o ;;
      (if expire =? -1 then mret () else setExpire dbid k expire) ;;
      dbDelete src k ;;
      addDirty 1 ;;
      mret (RInteger 1)
    end
  end.

(** The parameters of [selectDb] and [dbSwapDatabases] are of type [int]: the numbers parsed
    are converted. *)
Definition selectCommand (c : Z) (a_db : list Z) : M kreply :=
  match getLongFromArg a_db with
  | None => mret (RError "invalid DB index")
  | Some id => ok ← selectDb c (s32 id); mret (if ok : bool then ROk else RError "DB index is out of range")
  end.

Definition swapdbCommand (a1 a2 : list Z) : M kreply :=
  match getLongFromArg a1 with
  | None => mret (RError "invalid first DB index")
  | Some id1 =>
    match getLongFromArg a2 with
    | None => mret (RError "invalid second DB index")
    | Some id2 =>
      ok ← dbSwapDatabases (s32 id1) (s32 id2);
      if ok : bool then addDirty 1 ;; mret ROk else mret (RError "DB index is out of range")
    end
  end.

Definition flushdbCommand (d : Z) : M kreply :=
  signalFlushedDb d ;; n ← emptyDb d; addDirty n ;; mret ROk.

Definition flushallCommand : M kreply :=
  signalFlushedDb (-1) ;; n ← emptyDb (-1); addDirty n ;; addDirty 1 ;; mret ROk.

Definition dbsizeCommand (d : Z) : M kreply := db ← getDb d; mret (RInteger (Z.of_nat (size (dict db)))).

Definition rewriteClientCommandVector (c : Z) (cmd : command) : M unit :=
  cl ← getClient c; putClient c (with_argv cl cmd).

Definition expireGenericCommand (c d : Z) (k : key) (param : list Z) (relative : bool) (unit : ttl_unit) : M kreply :=
  s ← get;
  match getLongLongFromArg param with
  | None => mret NOT_INTEGER
  | Some w =>
    let w := match unit with UNIT_SECONDS => s64 (w * 1000) | UNIT_MILLISECONDS => w end in
    let when := s64 (w + (if relative then now s else 0)) in
    o ← lookupKeyWrite d k;
    if bool_decide (o = None) then mret (RInteger 0) else
    if (when <=? now s) && negb (loading s) && negb (masterhost s) then
      deleted ← (if lazyfree_lazy_expire s then dbAsyncDelete d k else dbSyncDelete d k);
      assert_ deleted ;;
      addDirty 1 ;;
      rewriteClientCommandVector c (if lazyfree_lazy_expire s then CUnlink [k] else CDel [k]) ;;
      signalModifiedKey d k ;;
      mret (RInteger 1)
    else
      setExpire d k when ;; signalModifiedKey d k ;; addDirty 1 ;; mret (RInteger 1)
  end.

Definition ttlGenericCommand (hide : bool) (d : Z) (k : key) (output_ms : bool) : M kreply :=
  o ← lookupKeyRead hide d k;
  if bool_decide (o = None) then mret (RInteger (-2)) else
  expire ← getExpire d k;
  s ← get;
  if expire =? -1 then mret (RInteger (-1)) else
  let ttl := s64 (expire - now s) in
  let ttl := if ttl <? 0 then 0 else ttl in
  mret (RInteger (if output_ms then ttl else Z.quot (s64 (ttl + 500)) 1000)).

Definition persistCommand (d : Z) (k : key) : M kreply :=
  o ← lookupKeyWrite d k;
  if bool_decide (is_Some o) then
    r ← removeExpire d k;
    if r : bool then addDirty 1 ;; mret (RInteger 1) else mret (RInteger 0)
  else mret (RInteger 0).

(** ** Connection commands *)

Definition CONFIG_AUTHPASS_MAX_LEN : Z := 512.

(** The strings end at their first zero byte; the buffers are filled up with zeroes. *)
Definition time_independent_strcmp (a b : list Z) : Z :=
  let a := cstring a in
  let b := cstring b in
  let alen := Z.of_nat (length a) in
  let blen := Z.of_nat (length b) in
  if (alen >? CONFIG_AUTHPASS_MAX_LEN) || (blen >? CONFIG_AUTHPASS_MAX_LEN) then 1 else
  let pad s := take (Z.to_nat CONFIG_AUTHPASS_MAX_LEN) (s ++ replicate (Z.to_nat CONFIG_AUTHPASS_MAX_LEN) 0) in
  Z.lor (foldl Z.lor 0 (zip_with Z.lxor (pad a) (pad b))) (Z.lxor alen blen).

Definition authCommand (c : Z) (password : list Z) : M kreply :=
  s ← get;
  match requirepass (conds s) with
  | None => mret (RError "Client sent AUTH, but no password is set")
  | Some p =>
    cl ← getClient c;
    if time_independent_strcmp password p =? 0 then putClient c (with_authenticated cl true) ;; mret ROk
    else putClient c (with_authenticated cl false) ;; mret (RError "invalid password")
  end.

Definition pingCommand (c : Z) (args : list (list Z)) : M kreply :=
  cl ← getClient c;
  match args with
  | _ :: _ :: _ => mret (RError "wrong number of arguments for 'ping' command")
  | [] => mret (if flag_pubsub cl then RArray [RBulk [112; 111; 110; 103]; RBulk []] else RPong)
  | [x] => mret (if flag_pubsub cl then RArray [RBulk [112; 111; 110; 103]; RBulk x] else RBulk x)
  end.

(** ** Eviction *)

(** The removal of a key that [freeMemoryIfNeeded] picked. *)
Definition evictKey (d : Z) (k : key) : M unit :=
  s ← get;
  propagateExpire d k (lazyfree_lazy_eviction (conds s)) ;;
  (if lazyfree_lazy_eviction (conds s) then dbAsyncDelete d k else dbSyncDelete d k) ;;
  mret ().
