(* ===== verification/Multi.v ===== *)
(** * Transactions

    multi.c: MULTI, EXEC, DISCARD, WATCH and UNWATCH, with the parts of server.c that
    execute, queue and propagate commands ([call], [processCommand]) and the part of
    [freeClient] that forgets the watched keys. A run is a sequence of [event]s: requests of
    clients, connections, the passing of time, steps of the active expire cycle, evictions, and
    changes of the conditions under which requests are refused. *)

From stdpp Require Import gmap.
From S2P Require Import Prelude Util Bitops Keyspace.

(** ** Watched keys of a client *)

Definition watchForKey (c : Z) (k : key) : M unit :=
  cl ← getClient c;
  if bool_decide ((cdb cl, k) ∈ watched cl) then mret () else
  db ← getDb (cdb cl);
  putDb (cdb cl) (RedisDb (dict db) (expires db) (<[k := default [] (watched_keys db !! k) ++ [c]]> (watched_keys db))) ;;
  putClient c (with_watched cl (watched cl ++ [(cdb cl, k)])).

(** Remove the first occurrence, as [listSearchKey] and [listDelNode] do; [None] is the
    dereference of a node that was not found. *)
Fixpoint list_del (c : Z) (l : list Z) : option (list Z) :=
  match l with
  | [] => None
  | x :: l => if x =? c then Some l else cons x <$> list_del c l
  end.

Definition unwatchKey (c : Z) (wk : Z * key) : M unit :=
  db ← getDb wk.1;
  match watched_keys db !! wk.2 with
  | None => assert_ false
  | Some l =>
    match list_del c l with
    | None => assert_ false
    | Some l =>
      putDb wk.1 (RedisDb (dict db) (expires db)
        (if bool_decide (l = []) then delete wk.2 (watched_keys db) else <[wk.2 := l]> (watched_keys db)))
    end
  end.

Definition unwatchAllKeys (c : Z) : M unit :=
  cl ← getClient c;
  iterM (unwatchKey c) (watched cl) ;;
  cl ← getClient c; putClient c (with_watched cl []).

(** ** The transaction of a client *)

Definition queueMultiCommand (c : Z) (cmd : command) : M unit :=
  cl ← getClient c; putClient c (with_mstate cl (mstate cl ++ [cmd])).

Definition discardTransaction (c : Z) : M unit :=
  cl ← getClient c;
  putClient c (with_flags (with_mstate cl []) false false false) ;;
  unwatchAllKeys c.

Definition flagTransaction (c : Z) : M unit :=
  cl ← getClient c;
  if flag_multi cl then putClient c (with_flags cl true (flag_dirty_cas cl) true) else mret ().

Definition multiCommand (c : Z) : M kreply :=
  cl ← getClient c;
  if flag_multi cl then mret (RError "MULTI calls can not be nested") else
  putClient c (with_flags cl true (flag_dirty_cas cl) (flag_dirty_exec cl)) ;; mret ROk.

Definition discardCommand (c : Z) : M kreply :=
  cl ← getClient c;
  if negb (flag_multi cl) then mret (RError "DISCARD without MULTI") else
  discardTransaction c ;; mret ROk.

Definition watchCommand (c : Z) (ks : list key) : M kreply :=
  cl ← getClient c;
  if flag_multi cl then mret (RError "WATCH inside MULTI is not allowed") else
  iterM (watchForKey c) ks ;; mret ROk.

Definition unwatchCommand (c : Z) : M kreply :=
  unwatchAllKeys c ;;
  cl ← getClient c;
  putClient c (with_flags cl (flag_multi cl) false (flag_dirty_exec cl)) ;; mret ROk.

(** ** Execution *)

(** The commands that can be queued. *)
Definition queueable (cmd : command) : bool :=
  match cmd with CMulti | CExec | CDiscard | CWatch _ => false | _ => true end.

Definition proc_queueable (c : Z) (cmd : command) : M kreply :=
  cl ← getClient c;
  let d := cdb cl in
  let hide := negb (flag_master cl) && cmd_readonly cmd in
  match cmd with
  | CGet k => getCommand hide d k
  | CSet k v nx xx e => setGenericCommand d k v nx xx e
  | CSetbit k o v => setbitKey d k o v
  | CDel ks => delGenericCommand false d ks
  | CUnlink ks => delGenericCommand true d ks
  | CExists ks => existsCommand d ks
  | CRename k1 k2 nx => renameGenericCommand d k1 k2 nx
  | CMove k a => moveCommand c k a
  | CSelect a => selectCommand c a
  | CSwapdb a b => swapdbCommand a b
  | CFlushdb => flushdbCommand d
  | CFlushall => flushallCommand
  | CDbsize => dbsizeCommand d
  | CExpire k w relative unit => expireGenericCommand c d k w relative unit
  | CTtl k ms => ttlGenericCommand hide d k ms
  | CPersist k => persistCommand d k
  | CAuth p => authCommand c p
  | CPing args => pingCommand c args
  | CUnwatch => unwatchCommand c
  | CMulti | CExec | CDiscard | CWatch _ => assert_ false ;; mret ROk
  end.

(** [call]: run the command and propagate it, in its current form, if it changed the data
    set. *)
Definition call_with (proc : Z -> command -> M kreply) (c : Z) (cmd : command) : M kreply :=
  cl ← getClient c; putClient c (with_argv cl cmd) ;;
  s0 ← get;
  r ← proc c cmd;
  s1 ← get;
  cl ← getClient c;
  (if srv_dirty s1 - srv_dirty s0 >? 0 then propagate (cdb cl) (argv cl) else mret ()) ;;
  mret r.

Fixpoint exec_loop (c : Z) (cmds : list command) (must_propagate : bool) (replies : list kreply) : M (bool * list kreply) :=
  match cmds with
  | [] => mret (must_propagate, replies)
  | cmd :: cmds =>
    cl ← getClient c;
    (if negb must_propagate && negb (cmd_readonly cmd) then propagate (cdb cl) CMulti else mret ()) ;;
    r ← call_with proc_queueable c cmd;
    exec_loop c cmds (must_propagate || negb (cmd_readonly cmd)) (replies ++ [r])
  end.

Definition execCommand (c : Z) : M kreply :=
  cl ← getClient c;
  if negb (flag_multi cl) then mret (RError "EXEC without MULTI") else
  if flag_dirty_cas cl || flag_dirty_exec cl then
    discardTransaction c ;;
    mret (if flag_dirty_exec cl then RError "EXECABORT" else RNullMultiBulk)
  else
    unwatchAllKeys c ;;
    '(must_propagate, replies) ← exec_loop c (mstate cl) false [];
    cl ← getClient c; putClient c (with_argv cl CExec) ;;
    discardTransaction c ;;
    (if must_propagate : bool then addDirty 1 else mret ()) ;;
    mret (RArray replies).

Definition proc (c : Z) (cmd : command) : M kreply :=
  match cmd with
  | CMulti => multiCommand c
  | CExec => execCommand c
  | CDiscard => discardCommand c
  | CWatch ks => watchCommand c ks
  | _ => proc_queueable c cmd
  end.

Definition call (c : Z) (cmd : command) : M kreply := call_with proc c cmd.

(** The checks before a command is executed or queued, in their order: the error and whether
    it flags the transaction of the client. Cluster mode is off, and the eviction of keys is an
    event of its own. *)
Definition refusal (s : server) (cl : client) (cmd : command) : option (bool * string) :=
  let cf := conds s in
  if bool_decide (is_Some (requirepass cf)) && negb (authenticated cl) && negb (match cmd with CAuth _ => true | _ => false end) then
    Some (true, "NOAUTH"%string) else
  if cmd_denyoom cmd && out_of_memory cf then Some (true, "OOM"%string) else
  if ((stop_writes_on_bgsave_err cf && (saveparamslen cf >? 0) && negb (lastbgsave_ok cf)) || negb (aof_last_write_ok cf)) &&
     negb (masterhost s) && (cmd_write cmd || match cmd with CPing _ => true | _ => false end) then
    Some (true, "MISCONF"%string) else
  if negb (masterhost s) && negb (repl_min_slaves_to_write cf =? 0) && negb (repl_min_slaves_max_lag cf =? 0) && cmd_write cmd &&
     (repl_good_slaves_count cf <? repl_min_slaves_to_write cf) then Some (true, "NOREPLICAS"%string) else
  if masterhost s && repl_slave_ro cf && negb (flag_master cl) && cmd_write cmd then Some (false, "READONLY"%string) else
  if flag_pubsub cl && negb (match cmd with CPing _ => true | _ => false end) then
    Some (false, "only (P)SUBSCRIBE / (P)UNSUBSCRIBE / PING / QUIT allowed in this context"%string) else
  if masterhost s && negb (repl_state_connected cf) && negb (repl_serve_stale_data cf) && negb (cmd_stale cmd) then
    Some (true, "MASTERDOWN"%string) else
  if loading s && negb (cmd_loading cmd) then Some (false, "LOADING"%string) else
  if lua_timedout cf && negb (match cmd with CAuth _ => true | _ => false end) then Some (true, "BUSY"%string) else
  None.

(** [None]: a command that is unknown or has the wrong number of arguments. *)
Definition processCommand (c : Z) (cmd : option command) : M kreply :=
  match cmd with
  | None => flagTransaction c ;; mret (RError "unknown command")
  | Some cmd =>
    cl ← getClient c; s ← get;
    match refusal s cl cmd with
    | Some (flag, e) => (if flag : bool then flagTransaction c else mret ()) ;; mret (RError e)
    | None =>
      if flag_multi cl && queueable cmd then queueMultiCommand c cmd ;; mret RQueued
      else call c cmd
    end
  end.

(** ** Runs *)

(** The client of the master is authenticated. *)
Definition new_client (master : bool) : client := Client 0 false false false master false master [] [] CDbsize.

Definition freeClient (c : Z) : M unit :=
  unwatchAllKeys c ;; s ← get; put (with_clients s (delete c (clients s))).

Inductive event :=
  | EConnect (c : Z) (master : bool)
  | EDisconnect (c : Z)
  | ERequest (c : Z) (cmd : option command)
  | ETick (ms : Z)
  | EExpireCycle (d : Z) (k : key)
  | EEvict (d : Z) (k : key)
  | EConditions (cf : conditions)
  | EPubsub (c : Z) (on : bool).

(** A connection has a fresh name; requests come from connected clients. The active expire
    cycle runs on masters and tries keys of its choice; before a command is executed, keys may
    be evicted. The conditions under which requests are refused may change at any time, and a
    client may subscribe to channels or leave them. *)
Definition handle (e : event) : M (option kreply) :=
  s ← get;
  match e with
  | EConnect c master =>
    if bool_decide (clients s !! c = None) then putClient c (new_client master) ;; mret None else mret None
  | EDisconnect c => if bool_decide (is_Some (clients s !! c)) then freeClient c ;; mret None else mret None
  | ERequest c cmd => if bool_decide (is_Some (clients s !! c)) then r ← processCommand c cmd; mret (Some r) else mret None
  | ETick ms =>
    put (with_now s (now s + Z.max 0 ms)) ;; mret None
  | EExpireCycle d k =>
    if masterhost s || (d <? 0) || (d >=? Z.of_nat (length (dbs s))) then mret None
    else activeExpireCycleTryExpire d k ;; mret None
  | EEvict d k =>
    if (d <? 0) || (d >=? Z.of_nat (length (dbs s))) then mret None
    else o ← lookupKey d k; if bool_decide (is_Some o) then evictKey d k ;; mret None else mret None
  | EConditions cf => put (with_conds s cf) ;; mret None
  | EPubsub c on =>
    match clients s !! c with Some cl => putClient c (with_pubsub cl on) ;; mret None | None => mret None end
  end.

Fixpoint run (l : list event) : M (list (option kreply)) :=
  match l with
  | [] => mret []
  | e :: l => r ← handle e; rs ← run l; mret (r :: rs)
  end.
