(* ===== verification/KeyspaceInv.v ===== *)
(** * Invariants of the keyspace

    The invariant of the databases and the clients, and the effect of the functions of db.c
    on it: every deadline belongs to a key, and the two tables of watched keys agree. No
    assertion of the code fails while it holds. The lemmas also follow one key watched by one
    client: when its value changes, the client is flagged. *)

From stdpp Require Import gmap.
From S2P Require Import Prelude Util Bitops BitScan BitField BitCmd Keyspace Multi.

(** ** Weakest preconditions *)

(** The computation does not fault and its result satisfies [Q]. *)
Definition wp {A} (m : M A) (Q : A -> server -> Prop) (s : server) : Prop :=
  exists s' a, m s = Some (s', a) /\ Q a s'.

Lemma wp_ret {A} (a : A) Q s : Q a s -> wp (mret a) Q s.
Proof. intros. by exists s, a. Qed.

Lemma wp_bind {A B} (m : M A) (f : A -> M B) Q s : wp m (fun a s' => wp (f a) Q s') s -> wp (m ≫= f) Q s.
Proof.
  intros (s1&a&E&s2&b&E2&HQ). exists s2, b. split; [|done].
  unfold mbind, M_bind. rewrite E. exact E2.
Qed.

Lemma wp_mono {A} (m : M A) (Q Q' : A -> server -> Prop) s :
  wp m Q s -> (forall a s', Q a s' -> Q' a s') -> wp m Q' s.
Proof. intros (s'&a&E&HQ) Himp. exists s', a. split; [done|by apply Himp]. Qed.

Lemma wp_get Q s : Q s s -> wp get Q s.
Proof. intros. by exists s, s. Qed.

Lemma wp_exec {A} (m : M A) Q s s' a : m s = Some (s', a) -> Q a s' -> wp m Q s.
Proof. intros. by exists s', a. Qed.

(** ** The data of a key *)

Definition valid (s : server) (d : Z) : Prop := 0 <= d < Z.of_nat (length (dbs s)).

Definition val (s : server) (d : Z) (k : key) : option vobj := db ← dbs s !! Z.to_nat d; dict db !! k.
Definition deadline (s : server) (d : Z) (k : key) : option Z := db ← dbs s !! Z.to_nat d; expires db !! k.
Definition watchers (s : server) (d : Z) (k : key) : option (list Z) := db ← dbs s !! Z.to_nat d; watched_keys db !! k.

(** The database with the value and the deadline of one key replaced. *)
Definition upd (d : Z) (k : key) (v : option vobj) (w : option Z) (s : server) : server :=
  match dbs s !! Z.to_nat d with
  | Some db => with_dbs s (<[Z.to_nat d := RedisDb (partial_alter (fun _ => v) k (dict db))
                                                   (partial_alter (fun _ => w) k (expires db)) (watched_keys db)]> (dbs s))
  | None => s
  end.

Lemma valid_db s d : valid s d -> exists db, dbs s !! Z.to_nat d = Some db.
Proof. intros [??]. apply lookup_lt_is_Some_2. lia. Qed.

Lemma upd_other d k v w s :
  clients (upd d k v w s) = clients s /\ feed (upd d k v w s) = feed s /\ now (upd d k v w s) = now s /\
  masterhost (upd d k v w s) = masterhost s /\ loading (upd d k v w s) = loading s /\
  lazyfree_lazy_expire (upd d k v w s) = lazyfree_lazy_expire s /\ srv_dirty (upd d k v w s) = srv_dirty s /\
  length (dbs (upd d k v w s)) = length (dbs s).
Proof. unfold upd. destruct (dbs s !! Z.to_nat d); [|done]. cbn. by rewrite length_insert. Qed.

Lemma upd_lookup d k v w s d' k' : valid s d -> valid s d' ->
  val (upd d k v w s) d' k' = (if bool_decide (d' = d /\ k' = k) then v else val s d' k') /\
  deadline (upd d k v w s) d' k' = (if bool_decide (d' = d /\ k' = k) then w else deadline s d' k') /\
  watchers (upd d k v w s) d' k' = watchers s d' k'.
Proof.
  intros Hd Hd'. destruct (valid_db s d Hd) as [db E]. destruct (valid_db s d' Hd') as [db' E'].
  unfold val, deadline, watchers, upd. rewrite E. cbn [dbs with_dbs]. unfold valid in *.
  destruct (decide (d' = d)) as [->|Hne].
  - rewrite E in E'. injection E' as ->. rewrite list_lookup_insert_eq by lia. rewrite E. mred. cbn [dict expires watched_keys].
    destruct (decide (k' = k)) as [->|]; [by rewrite !lookup_partial_alter_eq, bool_decide_true|].
    rewrite !lookup_partial_alter_ne by done. by rewrite bool_decide_false by tauto.
  - rewrite list_lookup_insert_ne by lia. rewrite bool_decide_false by tauto. done.
Qed.

(** The primitive operations are updates of one key. *)
Section prim.
Context (s : server) (d : Z) (Hd : valid s d) (k : key).

Lemma getDb_eq db : dbs s !! Z.to_nat d = Some db -> getDb d s = Some (s, db).
Proof. intros E. unfold getDb. rewrite (proj2 (Z.leb_le 0 d)) by (destruct Hd; lia). by rewrite E. Qed.

Lemma lookupKey_eq : lookupKey d k s = Some (s, val s d k).
Proof.
  destruct (valid_db s d Hd) as [db E]. unfold lookupKey, val, mbind, M_bind. rewrite (getDb_eq db E), E. done.
Qed.

Lemma getExpire_eq : (is_Some (deadline s d k) -> is_Some (val s d k)) ->
  getExpire d k s = Some (s, default (-1) (deadline s d k)).
Proof.
  destruct (valid_db s d Hd) as [db E]. unfold getExpire, val, deadline, mbind, M_bind. rewrite (getDb_eq db E), E. mred.
  intros H. destruct (expires db !! k) as [w|]; [|done]. cbn. unfold assert_. rewrite bool_decide_true by (apply H; by eexists). done.
Qed.

(** A dictionary with its own entry. *)
Lemma partial_alter_same {A} (m : gmap key A) : partial_alter (fun _ => m !! k) k m = m.
Proof. apply partial_alter_self. Qed.

Lemma dbSyncDelete_eq : dbSyncDelete d k s = Some (upd d k None None s, bool_decide (is_Some (val s d k))).
Proof.
  destruct (valid_db s d Hd) as [db E]. unfold dbSyncDelete, val, upd, mbind, M_bind. rewrite (getDb_eq db E), E. done.
Qed.

Lemma dbAdd_eq v : val s d k = None -> dbAdd d k v s = Some (upd d k (Some v) (deadline s d k) s, ()).
Proof.
  destruct (valid_db s d Hd) as [db E]. unfold dbAdd, val, deadline, upd, mbind, M_bind. rewrite (getDb_eq db E), E. mred.
  intros H. unfold assert_. rewrite bool_decide_true by done. mred. unfold putDb. rewrite partial_alter_same. done.
Qed.

Lemma dbOverwrite_eq v : is_Some (val s d k) -> dbOverwrite d k v s = Some (upd d k (Some v) (deadline s d k) s, ()).
Proof.
  destruct (valid_db s d Hd) as [db E]. unfold dbOverwrite, val, deadline, upd, mbind, M_bind. rewrite (getDb_eq db E), E. mred.
  intros H. unfold assert_. rewrite bool_decide_true by done. mred. unfold putDb. rewrite partial_alter_same. done.
Qed.

Lemma removeExpire_eq : is_Some (val s d k) ->
  removeExpire d k s = Some (upd d k (val s d k) None s, bool_decide (is_Some (deadline s d k))).
Proof.
  destruct (valid_db s d Hd) as [db E]. unfold removeExpire, val, deadline, upd, mbind, M_bind. rewrite (getDb_eq db E), E. mred.
  intros H. unfold assert_. rewrite (bool_decide_true (is_Some (dict db !! k))) by done. mred. unfold putDb. rewrite partial_alter_same. done.
Qed.

Lemma setExpire_eq w : is_Some (val s d k) -> setExpire d k w s = Some (upd d k (val s d k) (Some w) s, ()).
Proof.
  destruct (valid_db s d Hd) as [db E]. unfold setExpire, val, upd, mbind, M_bind. rewrite (getDb_eq db E), E. mred.
  intros H. unfold assert_. rewrite bool_decide_true by done. mred. unfold putDb. rewrite partial_alter_same. done.
Qed.
End prim.

(** ** The invariant *)

(** Objects of another type than string are opaque. *)
Definition obj_ok (v : vobj) : Prop := v = VOther \/ string_obj v.
Definition vals_ok (v : option vobj) : Prop := forall x, v = Some x -> obj_ok x.

(** The object a command brings along. *)
Definition cmd_ok (cmd : command) : Prop := match cmd with CSet _ v _ _ _ => obj_ok v | _ => True end.

Definition wl (s : server) (c : Z) : list (Z * key) := from_option watched [] (clients s !! c).

Record client_wf (s : server) (cl : client) : Prop := {
  cwf_db : valid s (cdb cl);
  cwf_nodup : NoDup (watched cl);
  cwf_queue : Forall (fun cmd => queueable cmd = true /\ cmd_ok cmd) (mstate cl);
  cwf_valid : forall d k, (d, k) ∈ watched cl -> valid s d
}.

(** Every deadline belongs to a key; the clients that watch a key are those listed for it. *)
Record wf (s : server) : Prop := {
  wf_zero : valid s 0;
  wf_deadline : forall d k, valid s d -> is_Some (deadline s d k) -> is_Some (val s d k);
  wf_val : forall d k, valid s d -> vals_ok (val s d k);
  wf_watchers : forall d k, valid s d ->
    match watchers s d k with
    | Some l => l <> [] /\ NoDup l /\ forall c, c ∈ l <-> (d, k) ∈ wl s c
    | None => forall c, (d, k) ∉ wl s c
    end;
  wf_clients : forall c cl, clients s !! c = Some cl -> client_wf s cl
}.

(** What every command leaves alone: transactions and watched keys of the clients. A client
    once flagged stays flagged. *)
Record client_le (cl cl' : client) : Prop := {
  cle_watched : watched cl' = watched cl;
  cle_mstate : mstate cl' = mstate cl;
  cle_multi : flag_multi cl' = flag_multi cl;
  cle_exec : flag_dirty_exec cl' = flag_dirty_exec cl;
  cle_master : flag_master cl' = flag_master cl;
  cle_cas : flag_dirty_cas cl = true -> flag_dirty_cas cl' = true;
  cle_argv : queueable (argv cl) = true -> queueable (argv cl') = true
}.

(** A deletion sent for an expired key. *)
Definition expiry (p : Z * command) : Prop := exists k, p.2 = CDel [k] \/ p.2 = CUnlink [k].

(** Inside a command nothing else is propagated. *)
Definition expiry_feed (s s' : server) : Prop := exists l, feed s' = feed s ++ l /\ Forall expiry l.

Lemma expiry_feed_same s s' : feed s' = feed s -> expiry_feed s s'.
Proof. intros E. exists []. by rewrite E, app_nil_r. Qed.

Lemma expiry_feed_trans s1 s2 s3 : expiry_feed s1 s2 -> expiry_feed s2 s3 -> expiry_feed s1 s3.
Proof. intros (l1&E1&F1) (l2&E2&F2). exists (l1 ++ l2). rewrite E2, E1, app_assoc. split; [done|]. by apply Forall_app. Qed.

Record frame (s s' : server) : Prop := {
  fr_now : now s' = now s;
  fr_masterhost : masterhost s' = masterhost s;
  fr_loading : loading s' = loading s;
  fr_lazy : lazyfree_lazy_expire s' = lazyfree_lazy_expire s;
  fr_len : length (dbs s') = length (dbs s);
  fr_watchers : forall d k, valid s d -> watchers s' d k = watchers s d k;
  fr_clients : forall c, option_Forall2 client_le (clients s !! c) (clients s' !! c);
  fr_feed : expiry_feed s s';
  fr_dirty : srv_dirty s <= srv_dirty s'
}.

Lemma client_le_refl cl : client_le cl cl.
Proof. by constructor. Qed.

Lemma client_le_trans a b c : client_le a b -> client_le b c -> client_le a c.
Proof. intros [] []. constructor; try congruence; auto. Qed.

Lemma frame_refl s : frame s s.
Proof.
  constructor; try done; [|by apply expiry_feed_same]. intros c. destruct (clients s !! c); constructor. apply client_le_refl.
Qed.

Lemma frame_valid s s' d : frame s s' -> valid s' d <-> valid s d.
Proof. intros H. unfold valid. by rewrite (fr_len _ _ H). Qed.

Lemma server_frame_trans s1 s2 s3 : frame s1 s2 -> frame s2 s3 -> frame s1 s3.
Proof.
  intros H1 H2. pose proof H1 as [?????? C1 F1 ?]. pose proof H2 as [?????? C2 F2 ?]. constructor; try congruence; try lia.
  - intros d k Hd. rewrite (fr_watchers _ _ H2) by (by apply (frame_valid _ _ _ H1)). by apply (fr_watchers _ _ H1).
  - intros c. specialize (C1 c). specialize (C2 c). inversion C1 as [? ? L1 E1 E1'|E1 E1']; subst; rewrite <-E1' in C2;
      inversion C2 as [? ? L2 E2 E2'|E2 E2']; subst; constructor. by eapply client_le_trans.
  - by eapply expiry_feed_trans.
Qed.

Lemma frame_client s s' c cl : frame s s' -> clients s !! c = Some cl -> exists cl', clients s' !! c = Some cl' /\ client_le cl cl'.
Proof. intros H E. pose proof (fr_clients _ _ H c) as R. rewrite E in R. inversion R; subst; eauto. Qed.

Lemma frame_wl s s' c : frame s s' -> wl s' c = wl s c.
Proof.
  intros H. unfold wl. pose proof (fr_clients _ _ H c) as R. inversion R as [cl cl' L E E'|E E']; [|done]. cbn. apply L.
Qed.

(** The invariant is kept by what leaves the databases of the clients and the deadlines in order. *)
Lemma frame_wf s s' : wf s -> frame s s' ->
  (forall d k, valid s d -> is_Some (deadline s' d k) -> is_Some (val s' d k)) ->
  (forall d k, valid s d -> vals_ok (val s' d k)) ->
  (forall c cl', clients s' !! c = Some cl' -> valid s (cdb cl')) -> wf s'.
Proof.
  intros Hwf Hf Hdl Hval Hdb. constructor.
  - apply (frame_valid _ _ _ Hf), Hwf.
  - intros d k Hd. apply Hdl. by apply (frame_valid _ _ _ Hf).
  - intros d k Hd. apply Hval. by apply (frame_valid _ _ _ Hf).
  - intros d k Hd%(frame_valid _ _ _ Hf). rewrite (fr_watchers _ _ Hf) by done. pose proof (wf_watchers _ Hwf d k Hd) as W.
    destruct (watchers s d k) as [l|]; [|intros c; by rewrite (frame_wl _ _ c Hf)].
    destruct W as (?&?&W). split; [done|]. split; [done|]. intros c. by rewrite (frame_wl _ _ c Hf).
  - intros c cl' E. pose proof (fr_clients _ _ Hf c) as R. rewrite E in R. inversion R as [cl ? L E1 E2|]; subst.
    destruct (wf_clients _ Hwf c cl (eq_sym E1)) as [? ? ? ?]. destruct L as [Hw Hm ? ? ? ? ?]. constructor.
    + apply (frame_valid _ _ _ Hf). by eapply Hdb.
    + by rewrite Hw.
    + by rewrite Hm.
    + intros d k. rewrite Hw. intros Hin. apply (frame_valid _ _ _ Hf). eauto.
Qed.

(** ** One key watched by one client *)

Section observe.
Context (c0 d0 : Z) (k0 : key).

Definition watching (s : server) : Prop := (d0, k0) ∈ wl s c0.
Definition flagged (s : server) : Prop := exists cl, clients s !! c0 = Some cl /\ flag_dirty_cas cl = true.

(** The key has its value, perhaps without its deadline, or it was deleted after its deadline. *)
Definition kept (s s' : server) : Prop :=
  (val s' d0 k0 = val s d0 k0 /\ (deadline s' d0 k0 = deadline s d0 k0 \/ deadline s' d0 k0 = None)) \/
  (val s' d0 k0 = None /\ deadline s' d0 k0 = None /\ exists w, deadline s d0 k0 = Some w /\ w < now s').

(** [P] is left to be signalled. *)
Record ok (P : Prop) (s s' : server) : Prop := {
  ok_wf : wf s';
  ok_frame : frame s s';
  ok_safe : watching s -> flagged s' \/ kept s s' \/ P
}.

Lemma kept_refl s : kept s s.
Proof. left. auto. Qed.

Lemma ok_refl s : wf s -> ok False s s.
Proof. intros. constructor; [done|apply frame_refl|]. intros _. right. left. apply kept_refl. Qed.

Lemma ok_weaken (P Q : Prop) s s' : (P -> Q) -> ok P s s' -> ok Q s s'.
Proof. intros H [? ? S]. constructor; [done|done|]. intros W. destruct (S W) as [?|[?|?]]; auto. Qed.

Lemma flagged_frame s s' : frame s s' -> flagged s -> flagged s'.
Proof. intros H (cl&E&F). destruct (frame_client _ _ _ _ H E) as (cl'&?&L). exists cl'. split; [done|]. by apply L. Qed.

Lemma watching_frame s s' : frame s s' -> watching s -> watching s'.
Proof. intros H. unfold watching. by rewrite (frame_wl _ _ _ H). Qed.

Lemma kept_trans s1 s2 s3 : now s2 <= now s3 -> kept s1 s2 -> kept s2 s3 -> kept s1 s3.
Proof.
  intros Hn [[V1 D1]|(V1&D1&w&W1&L1)] [[V2 D2]|(V2&D2&w2&W2&L2)].
  - left. split; [congruence|]. destruct D1, D2; (left; congruence) || (right; congruence).
  - right. split; [done|]. split; [done|]. exists w2. split; [destruct D1; congruence|done].
  - right. split; [congruence|]. split; [destruct D2; congruence|]. exists w. split; [done|lia].
  - congruence.
Qed.

Lemma ok_trans P Q s1 s2 s3 : ok P s1 s2 -> ok Q s2 s3 -> ok (P \/ Q) s1 s3.
Proof.
  intros [W1 F1 S1] [W2 F2 S2]. constructor; [done|by eapply server_frame_trans|]. intros H.
  destruct (S1 H) as [Hf|[Hk|Hp]]; [left; by eapply flagged_frame| |auto].
  destruct (S2 (watching_frame _ _ F1 H)) as [Hf|[Hk2|Hq]]; auto. right. left. eapply kept_trans; [|done|done].
  rewrite (fr_now _ _ F2). lia.
Qed.

Lemma ok_then s1 s2 s3 P : ok P s1 s2 -> ok False s2 s3 -> ok P s1 s3.
Proof. intros H1 H2. eapply ok_weaken; [|by eapply ok_trans]. tauto. Qed.

Lemma ok_after s1 s2 s3 P : ok False s1 s2 -> ok P s2 s3 -> ok P s1 s3.
Proof. intros H1 H2. eapply ok_weaken; [|by eapply ok_trans]. tauto. Qed.

(** An update of one key. *)
Lemma upd_frame s d k v w : valid s d -> frame s (upd d k v w s).
Proof.
  intros Hd. destruct (upd_other d k v w s) as (Ec&Ef&En&Em&El&Ez&Edi&Elen). constructor; try congruence; try lia.
  - intros d' k' Hd'. by apply upd_lookup.
  - intros c. rewrite Ec. destruct (clients s !! c); constructor. apply client_le_refl.
  - by apply expiry_feed_same.
Qed.

Lemma upd_wf s d k v w : wf s -> valid s d -> (is_Some w -> is_Some v) -> vals_ok v -> wf (upd d k v w s).
Proof.
  intros Hwf Hd Hvw Hv. apply (frame_wf s); [done|by apply upd_frame| | |].
  - intros d' k' Hd'. destruct (upd_lookup d k v w s d' k' Hd Hd') as (->&->&_). case_bool_decide; [done|]. by apply wf_deadline.
  - intros d' k' Hd'. destruct (upd_lookup d k v w s d' k' Hd Hd') as (->&_&_). case_bool_decide; [done|]. by apply wf_val.
  - intros c cl'. rewrite (proj1 (upd_other d k v w s)). intros E. apply (wf_clients _ Hwf _ _ E).
Qed.

Lemma upd_ok s d k v w : wf s -> valid s d -> (is_Some w -> is_Some v) -> vals_ok v ->
  ok (d = d0 /\ k = k0) s (upd d k v w s).
Proof.
  intros Hwf Hd Hvw Hv. constructor; [by apply upd_wf|by apply upd_frame|]. intros Hw.
  destruct (decide (d = d0 /\ k = k0)) as [?|Hne]; [auto|]. right. left. left.
  assert (valid s d0) as Hd0.
  { unfold watching, wl in Hw. destruct (clients s !! c0) as [cl|] eqn:E; [|by apply not_elem_of_nil in Hw].
    by eapply (cwf_valid _ _ (wf_clients _ Hwf _ _ E)). }
  destruct (upd_lookup d k v w s d0 k0 Hd Hd0) as (->&->&_). rewrite !bool_decide_false by (intros [? ?]; apply Hne; auto). auto.
Qed.

(** Updates that need no signal: a deadline dropped, or a key deleted after its deadline. *)
Lemma upd_ok_kept s d k v w : wf s -> valid s d -> (is_Some w -> is_Some v) ->
  (v = val s d k /\ (w = deadline s d k \/ w = None)) \/ (v = None /\ w = None /\ exists w0, deadline s d k = Some w0 /\ w0 < now s) ->
  ok False s (upd d k v w s).
Proof.
  intros Hwf Hd Hvw Hk. assert (vals_ok v) as Hv.
  { destruct Hk as [[-> _]|[-> _]]; [by apply wf_val|done]. }
  pose proof (upd_ok s d k v w Hwf Hd Hvw Hv) as [? ? S]. constructor; [done|done|]. intros Hw.
  destruct (S Hw) as [?|[?|[-> ->]]]; [auto..|]. right. left. unfold kept.
  destruct (upd_lookup d0 k0 v w s d0 k0 Hd Hd) as (->&->&_). rewrite bool_decide_true by done.
  destruct (upd_other d0 k0 v w s) as (_&_&->&_). tauto.
Qed.
End observe.

Section functions.
Context (c0 d0 : Z) (k0 : key).
Local Abbreviation ok := (ok c0 d0 k0).
Local Abbreviation watching := (watching c0 d0 k0).
Local Abbreviation flagged := (flagged c0).

(** Changes outside the data. *)
Lemma ok_same_dbs s s' : wf s -> dbs s' = dbs s -> now s' = now s -> masterhost s' = masterhost s -> loading s' = loading s ->
  lazyfree_lazy_expire s' = lazyfree_lazy_expire s -> expiry_feed s s' -> srv_dirty s <= srv_dirty s' ->
  (forall c, option_Forall2 client_le (clients s !! c) (clients s' !! c)) ->
  (forall c cl', clients s' !! c = Some cl' -> valid s (cdb cl')) -> ok False s s'.
Proof.
  intros Hwf Ed ?????? Hc Hv. assert (frame s s') as Hf.
  { constructor; try done; [by rewrite Ed|]. intros d k _. unfold watchers. by rewrite Ed. }
  constructor; [|done|].
  - apply (frame_wf s); [done|done| | |done]; intros d k Hd; unfold deadline, val; rewrite Ed; [by apply wf_deadline|by apply wf_val].
  - intros _. right. left. left. unfold val, deadline. rewrite Ed. auto.
Qed.

Lemma clients_le_refl (m : gmap Z client) c : option_Forall2 client_le (m !! c) (m !! c).
Proof. destruct (m !! c); constructor. apply client_le_refl. Qed.

Lemma clients_le_insert (m : gmap Z client) c cl cl' : m !! c = Some cl -> client_le cl cl' ->
  forall c', option_Forall2 client_le (m !! c') (<[c := cl']> m !! c').
Proof.
  intros E L c'. destruct (decide (c' = c)) as [->|]; [|rewrite lookup_insert_ne by done; apply clients_le_refl].
  rewrite E, lookup_insert_eq. by constructor.
Qed.

Lemma putClient_ok s c cl cl' : wf s -> clients s !! c = Some cl -> client_le cl cl' -> valid s (cdb cl') ->
  ok False s (with_clients s (<[c := cl']> (clients s))).
Proof.
  intros Hwf E L Hv. apply ok_same_dbs; try done.
  - by apply expiry_feed_same.
  - by eapply clients_le_insert.
  - intros c' cl''. cbn [clients with_clients]. destruct (decide (c' = c)) as [->|]; [rewrite lookup_insert_eq; by intros [= <-]|].
    rewrite lookup_insert_ne by done. intros E'. apply (wf_clients _ Hwf _ _ E').
Qed.

Lemma addDirty_ok s n : wf s -> 0 <= n -> ok False s (with_dirty s (srv_dirty s + n)).
Proof.
  intros Hwf Hn. apply ok_same_dbs; try done; [by apply expiry_feed_same|cbn; lia|intros; apply clients_le_refl|].
  intros c cl E. apply (wf_clients _ Hwf _ _ E).
Qed.

Lemma propagate_expiry_ok s d cmd : wf s -> expiry (d, cmd) -> ok False s (with_feed s (feed s ++ [(d, cmd)])).
Proof.
  intros Hwf He. apply ok_same_dbs; try done; [by exists [(d, cmd)]; split; [|constructor]|intros; apply clients_le_refl|].
  intros c cl E. apply (wf_clients _ Hwf _ _ E).
Qed.

(** Flagging the clients of a list. *)
Lemma mark_wp l : forall s, wf s -> (forall c, c ∈ l -> is_Some (clients s !! c)) ->
  wp (iterM mark_dirty_cas l) (fun _ s' => ok False s s' /\ dbs s' = dbs s /\ (c0 ∈ l -> flagged s')) s.
Proof.
  induction l as [|c l IH]; intros s Hwf Hl; cbn [iterM].
  { apply wp_ret. split; [by apply ok_refl|]. split; [done|]. by intros ?%not_elem_of_nil. }
  destruct (Hl c ltac:(left)) as [cl E]. set (cl' := with_flags cl (flag_multi cl) true (flag_dirty_exec cl)).
  set (s1 := with_clients s (<[c := cl']> (clients s))).
  assert (ok False s s1) as O1.
  { apply (putClient_ok s c cl); [done|done|by constructor|]. apply (wf_clients _ Hwf _ _ E). }
  apply wp_bind. apply (wp_exec _ _ _ s1 ()).
  { unfold mark_dirty_cas, mbind, M_bind, getClient. rewrite E. done. }
  eapply wp_mono; [apply IH|].
  - apply O1.
  - intros c' Hin. cbn. destruct (decide (c' = c)) as [->|]; [rewrite lookup_insert_eq; eauto|]. rewrite lookup_insert_ne by done. apply Hl. by right.
  - intros _ s2 (O2&D2&F2). split; [by eapply ok_then|]. split; [done|]. intros [<-|Hin]%elem_of_cons; [|auto].
    apply (flagged_frame _ s1); [apply O2|]. exists cl'. split; [apply lookup_insert_eq|done].
Qed.

Lemma signal_wp s d k : wf s -> valid s d ->
  wp (signalModifiedKey d k) (fun _ s' => ok False s s' /\ dbs s' = dbs s /\ (watching s -> d = d0 /\ k = k0 -> flagged s')) s.
Proof.
  intros Hwf Hd. pose proof (wf_watchers _ Hwf d k Hd) as W. destruct (valid_db s d Hd) as [db E].
  unfold watchers in W. rewrite E in W. cbn [mbind option_bind] in W.
  apply wp_bind. apply (wp_exec _ _ _ s db); [by apply getDb_eq|].
  destruct (watched_keys db !! k) as [l|].
  - destruct W as (_&_&W). eapply wp_mono; [apply mark_wp; [done|]|].
    + intros c Hc%W. unfold wl in Hc. destruct (clients s !! c); [eauto|by apply not_elem_of_nil in Hc].
    + intros _ s' (?&?&F). split; [done|]. split; [done|]. intros Hw [-> ->]. by apply F, W.
  - apply wp_ret. split; [by apply ok_refl|]. split; [done|]. intros Hw [-> ->]. by destruct (W c0).
Qed.

(** Signalling a key settles what was left to be signalled for it. *)
Lemma signal_ok P s0 s d k : ok P s0 s -> valid s d ->
  wp (signalModifiedKey d k) (fun _ s' => ok (P /\ ~ (d = d0 /\ k = k0)) s0 s' /\ ok False s s' /\ dbs s' = dbs s /\
    (watching s0 -> d = d0 /\ k = k0 -> flagged s')) s.
Proof.
  intros O Hd. eapply wp_mono; [by apply signal_wp; [apply O|]|]. intros _ s' (O1&D&F).
  assert (watching s0 -> watching s) as Hws by (intros; by eapply watching_frame; [apply O|]).
  split; [|split; [done|split; [done|auto]]].
  pose proof (ok_then _ _ _ _ _ _ _ O O1) as [W Fr S]. constructor; [done|done|]. intros Hw.
  destruct (S Hw) as [?|[?|HP]]; [auto..|]. destruct (decide (d = d0 /\ k = k0)) as [Heq|]; [|auto].
  left. auto.
Qed.

Lemma ok_flagged P s s' : ok P s s' -> (watching s -> P -> flagged s') -> ok False s s'.
Proof. intros [? ? S] H. constructor; [done|done|]. intros Hw. destruct (S Hw) as [?|[?|?]]; auto. Qed.

(** ** Expiry and lookups *)

Definition same_but (d : Z) (k : key) (s s' : server) : Prop :=
  forall d' k', valid s d' -> ~ (d' = d /\ k' = k) -> val s' d' k' = val s d' k' /\ deadline s' d' k' = deadline s d' k'.

Lemma same_but_refl d k s : same_but d k s s.
Proof. by intros d' k'. Qed.

Lemma same_but_upd d k v w s : valid s d -> same_but d k s (upd d k v w s).
Proof. intros Hd d' k' Hd' Hne. destruct (upd_lookup d k v w s d' k' Hd Hd') as (->&->&_). by rewrite !bool_decide_false. Qed.

(** The deletion of a key whose deadline is over. *)
Lemma delete_expired_wp s d k w : wf s -> valid s d -> deadline s d k = Some w -> w < now s ->
  wp (propagateExpire d k (lazyfree_lazy_expire s) ;; (if lazyfree_lazy_expire s then dbAsyncDelete d k else dbSyncDelete d k))
    (fun e s' => ok False s s' /\ same_but d k s s' /\ srv_dirty s' = srv_dirty s /\ val s' d k = None /\ deadline s' d k = None /\ e = true) s.
Proof.
  intros Hwf Hd Ew Hn. assert (is_Some (val s d k)) as Hv by (apply (wf_deadline _ Hwf); [done|rewrite Ew; eauto]).
  set (s1 := with_feed s (feed s ++ [(d, if lazyfree_lazy_expire s then CUnlink [k] else CDel [k])])).
  apply wp_bind. apply (wp_exec _ _ _ s1 ()); [done|].
  assert (ok False s s1) as O1 by (apply propagate_expiry_ok; [done|exists k; destruct (lazyfree_lazy_expire s); auto]).
  assert (valid s1 d) as Hd1 by done.
  apply (wp_exec _ _ _ (upd d k None None s1) true).
  { transitivity (dbSyncDelete d k s1); [by destruct (lazyfree_lazy_expire s)|].
    rewrite dbSyncDelete_eq by done. change (val s1 d k) with (val s d k). by rewrite (bool_decide_true (is_Some (val s d k))) by done. }
  destruct (upd_lookup d k None None s1 d k Hd1 Hd1) as (->&->&_). rewrite !bool_decide_true by done.
  split; [|split; [|split; [|done]]].
  - eapply ok_then; [done|]. apply upd_ok_kept; [apply O1|done|by intros []|]. right. split; [done|]. split; [done|]. exists w. done.
  - intros d' k' Hd' Hne. by apply (same_but_upd d k None None s1).
  - by destruct (upd_other d k None None s1) as (_&_&_&_&_&_&->&_).
Qed.

Lemma expire_wp s d k : wf s -> valid s d ->
  wp (expireIfNeeded d k) (fun e s' => ok False s s' /\ same_but d k s s' /\ srv_dirty s' = srv_dirty s /\
    ((val s' d k = val s d k /\ deadline s' d k = deadline s d k /\ s' = s /\ (e = true -> masterhost s = true)) \/
     (val s' d k = None /\ deadline s' d k = None /\ e = true))) s.
Proof.
  intros Hwf Hd. unfold expireIfNeeded. apply wp_bind.
  apply (wp_exec _ _ _ s (default (-1) (deadline s d k))); [apply getExpire_eq; [done|]; by apply wf_deadline|].
  apply wp_bind, wp_get.
  assert (forall e, (e = true -> masterhost s = true) -> ok False s s /\ same_but d k s s /\ srv_dirty s = srv_dirty s /\
    ((val s d k = val s d k /\ deadline s d k = deadline s d k /\ s = s /\ (e = true -> masterhost s = true)) \/
     (val s d k = None /\ deadline s d k = None /\ e = true))) as Hsame.
  { intros e He. split; [by apply ok_refl|]. split; [apply same_but_refl|]. split; [done|]. auto. }
  destruct (Z.ltb_spec (default (-1) (deadline s d k)) 0) as [|Hw]; [by apply wp_ret, Hsame|].
  destruct (loading s); [by apply wp_ret, Hsame|].
  destruct (masterhost s) eqn:Em; [by apply wp_ret, Hsame|].
  destruct (Z.leb_spec (now s) (default (-1) (deadline s d k))) as [|Hn]; [by apply wp_ret, Hsame|].
  destruct (deadline s d k) as [w|] eqn:Ew; [|cbn in Hw; lia]. cbn [from_option id] in *.
  eapply wp_mono; [by eapply delete_expired_wp|]. intros e s' (?&?&?&?). auto.
Qed.

Lemma lookupWrite_wp s d k : wf s -> valid s d ->
  wp (lookupKeyWrite d k) (fun o s' => ok False s s' /\ same_but d k s s' /\ o = val s' d k /\
    (val s' d k = val s d k /\ deadline s' d k = deadline s d k \/ val s' d k = None /\ deadline s' d k = None)) s.
Proof.
  intros Hwf Hd. apply wp_bind. eapply wp_mono; [by apply expire_wp|]. intros e s' (O&SB&HD&H).
  assert (valid s' d) as Hd' by (by apply (frame_valid s); [apply O|]).
  apply (wp_exec _ _ _ s' (val s' d k)); [by apply lookupKey_eq|]. split; [done|]. split; [done|]. split; [done|]. tauto.
Qed.

Lemma lookupRead_wp s hide d k : wf s -> valid s d ->
  wp (lookupKeyRead hide d k) (fun o s' => ok False s s' /\ srv_dirty s' = srv_dirty s /\ (o = None \/ o = val s' d k)) s.
Proof.
  intros Hwf Hd. apply wp_bind. eapply wp_mono; [by apply expire_wp|]. intros e s' (O&SB&HD&H). apply wp_bind, wp_get.
  assert (valid s' d) as Hd' by (by apply (frame_valid s); [apply O|]).
  destruct (e && _); [apply wp_ret; auto|]. apply (wp_exec _ _ _ s' (val s' d k)); [by apply lookupKey_eq|]. auto.
Qed.
End functions.
