(* ===== verification/KeyspaceCmd.v ===== *)
(** * Commands on keys

    Every command of the keyspace runs without a failed assertion from a state that satisfies
    the invariant, keeps the invariant, and flags the clients that watch a key it changes;
    MOVE and SWAPDB do not. *)

From stdpp Require Import gmap.
From S2P Require Import Prelude Util Bitops BitScan BitField BitCmd Keyspace Multi KeyspaceInv.

Section commands.
Context (c0 d0 : Z) (k0 : key).
Local Abbreviation ok := (ok c0 d0 k0).

Lemma ok_valid P s s' d : ok P s s' -> valid s d -> valid s' d.
Proof. intros O. by apply (frame_valid s), O. Qed.

Lemma upd_valid s d k v w d' : valid s d' -> valid (upd d k v w s) d'.
Proof. unfold valid. by rewrite (proj2 (proj2 (proj2 (proj2 (proj2 (proj2 (proj2 (upd_other d k v w s)))))))). Qed.

(** Run the first computation with its lemma. *)
Lemma wp_seq {A B} (m : M A) (f : A -> M B) R Q s :
  wp m R s -> (forall a s', R a s' -> wp (f a) Q s') -> wp (m ≫= f) Q s.
Proof. intros Hm Hf. apply wp_bind. eapply wp_mono; [done|]. apply Hf. Qed.

Lemma wp_step {A B} (m : M A) (f : A -> M B) Q s s' a : m s = Some (s', a) -> wp (f a) Q s' -> wp (m ≫= f) Q s.
Proof. intros E H. apply wp_bind. by eapply wp_exec. Qed.

Lemma wp_dirty {B} n (f : unit -> M B) P s0 s Q : ok P s0 s -> 0 <= n ->
  (forall s', ok P s0 s' -> dbs s' = dbs s -> frame s s' -> wp (f ()) Q s') -> wp (addDirty n ≫= f) Q s.
Proof.
  intros O Hn H. eapply wp_step; [reflexivity|]. 
  assert (ok False s (with_dirty s (srv_dirty s + n))) as O1 by (apply addDirty_ok; [apply O|done]).
  apply H; [by eapply ok_then|done|apply O1].
Qed.

(** One signal after an update of its key. *)
Lemma wp_signal {B} d k (f : unit -> M B) P s0 s Q : ok P s0 s -> valid s d ->
  (forall s', ok (P /\ ~ (d = d0 /\ k = k0)) s0 s' -> dbs s' = dbs s -> valid s' d -> wp (f ()) Q s') -> wp (signalModifiedKey d k ≫= f) Q s.
Proof.
  intros O Hd H. eapply wp_seq; [by apply (signal_ok c0 d0 k0 P s0)|]. intros [] s' (O1&O2&D&_). apply H; [done|done|by eapply ok_valid].
Qed.

Lemma ok_settled d k s s' : ok ((d = d0 /\ k = k0) /\ ~ (d = d0 /\ k = k0)) s s' -> ok False s s'.
Proof. apply ok_weaken. tauto. Qed.

(** ** SET and the functions it uses *)

(** Storing a value where the key is or is not: the new state and the deadline kept. *)
Lemma store_wp s d k v o : wf s -> valid s d -> o = val s d k -> obj_ok v ->
  wp (match o with None => dbAdd d k v | Some _ => dbOverwrite d k v end)
    (fun _ s' => ok (d = d0 /\ k = k0) s s' /\ val s' d k = Some v) s.
Proof.
  intros Hwf Hd -> Hv. apply (wp_exec _ _ _ (upd d k (Some v) (deadline s d k) s) ()).
  - destruct (val s d k) eqn:E; [apply dbOverwrite_eq|apply dbAdd_eq]; try done.
  - split; [apply upd_ok; [done|done|by eexists|by intros x [= <-]]|].
    destruct (upd_lookup d k (Some v) (deadline s d k) s d k Hd Hd) as (->&_&_). by rewrite bool_decide_true.
Qed.

Lemma setKey_wp s d k v : wf s -> valid s d -> obj_ok v ->
  wp (setKey d k v) (fun _ s' => ok False s s' /\ val s' d k = Some v /\ (watching c0 d0 k0 s -> d = d0 /\ k = k0 -> flagged c0 s')) s.
Proof.
  intros Hwf Hd Hv. eapply wp_seq; [by apply (lookupWrite_wp c0 d0 k0)|]. intros o s1 (O1&_&Eo&_).
  assert (valid s1 d) as Hd1 by (by eapply ok_valid). eapply wp_seq; [apply store_wp; try done; apply O1|]. intros _ s2 (O2&V2).
  assert (valid s2 d) as Hd2 by (by eapply ok_valid).
  eapply wp_step; [apply removeExpire_eq; [done|]; rewrite V2; eauto|].
  set (s3 := upd d k (val s2 d k) None s2). assert (ok (d = d0 /\ k = k0) s s3) as O3.
  { eapply ok_after; [done|]. eapply ok_then; [done|]. apply upd_ok_kept; [apply O2|done|by intros []|auto]. }
  eapply wp_mono; [apply (signal_ok c0 d0 k0 (d = d0 /\ k = k0) s); [done|by eapply ok_valid]|]. intros _ s4 (O4&_&D4&F4).
  split; [by eapply ok_settled|]. split; [|done]. unfold val. rewrite D4. fold (val s3 d k). unfold s3.
  destruct (upd_lookup d k (val s2 d k) None s2 d k Hd2 Hd2) as (->&_&_). by rewrite bool_decide_true.
Qed.

Lemma set_wp s d k v nx xx e : wf s -> valid s d -> obj_ok v -> wp (setGenericCommand d k v nx xx e) (fun _ s' => ok False s s') s.
Proof.
  intros Hwf Hd Hv. unfold setGenericCommand. destruct (match e with Some _ => _ | None => _ end) as [ms|err]; [|by apply wp_ret, ok_refl].
  assert (forall b s, wf s -> valid s d -> wp (if b : bool then lookupKeyWrite d k else mret None) (fun _ s' => ok False s s') s) as L.
  { intros [] s1 W1 V1; [|by apply wp_ret, ok_refl]. eapply wp_mono; [by apply (lookupWrite_wp c0 d0 k0)|]. by intros ? ? [? _]. }
  eapply wp_seq; [by apply L|]. intros o1 s1 O1. cbv beta in O1. destruct (nx && _); [by apply wp_ret|].
  eapply wp_seq; [apply L; [apply O1|by eapply ok_valid]|]. intros o2 s2 O2. cbv beta in O2. pose proof (ok_then _ _ _ _ _ _ _ O1 O2) as O12.
  destruct (xx && _); [by apply wp_ret|].
  eapply wp_seq; [apply setKey_wp; [apply O2|by eapply ok_valid|done]|]. intros _ s3 (O3&V3&F3).
  pose proof (ok_then _ _ _ _ _ _ _ O12 O3) as O13.
  eapply wp_dirty; [exact O13|lia|]. intros s4 O4 D4 F4. apply wp_bind, wp_get.
  assert (valid s4 d) as Hd4 by (by eapply ok_valid). assert (val s4 d k = Some v) as V4 by (unfold val; by rewrite D4).
  destruct e as [e|]; [|by apply wp_bind, wp_ret, wp_ret].
  eapply wp_step; [apply setExpire_eq; [done|]; rewrite V4; eauto|]. apply wp_ret.
  apply (ok_flagged c0 d0 k0 (d = d0 /\ k = k0)).
  - eapply ok_after; [done|]. apply upd_ok; [apply O4|done|rewrite V4; eauto|rewrite V4; by intros x [= <-]].
  - intros Hw He. apply (flagged_frame c0 s3); [eapply server_frame_trans; [done|by apply upd_frame]|]. apply F3; [|done].
    by eapply watching_frame; [apply O12|].
Qed.

(** ** SETBIT *)

Lemma setbitKey_wp s d k a1 a2 : wf s -> valid s d -> wp (setbitKey d k a1 a2) (fun _ s' => ok False s s') s.
Proof.
  intros Hwf Hd. unfold setbitKey. destruct (setbit_cases a1 a2) as [[e E]|[Hs Ho]].
  { rewrite E. by apply wp_ret, ok_refl. }
  destruct (Hs None ltac:(done)) as (p0&b0&->&_).
  eapply wp_seq; [by apply (lookupWrite_wp c0 d0 k0)|]. intros o s1 (O1&_&Eo&_).
  assert (valid s1 d) as Hd1 by (by eapply ok_valid).
  assert (o = Some VOther \/ o <> Some VOther) as [->|Hne] by (destruct o as [[]|]; auto); [rewrite Ho; by apply wp_ret|].
  destruct (Hs o) as (p&b&->&Hp).
  { intros o' ->. destruct (wf_val _ (ok_wf _ _ _ _ _ _ O1) d k Hd1 o' (eq_sym Eo)) as [->|?]; done. }
  eapply wp_seq; [apply store_wp; [apply O1|done|done|by right]|]. intros _ s2 (O2&_).
  eapply wp_signal; [by eapply ok_after|by eapply ok_valid|]. intros s3 O3 _ _.
  eapply wp_dirty; [exact (ok_settled _ _ _ _ O3)|lia|]. intros s4 O4 _ _. by apply wp_ret.
Qed.

(** ** DEL, UNLINK and EXISTS *)

Lemma del_loop_wp lazy d ks : forall s0 s n, ok False s0 s -> valid s d -> wp (del_loop lazy d ks n) (fun _ s' => ok False s0 s') s.
Proof.
  induction ks as [|k ks IH]; intros s0 s n O Hd; cbn [del_loop]; [by apply wp_ret|].
  eapply wp_seq; [apply (expire_wp c0 d0 k0); [apply O|done]|]. intros e s1 (O1&_&_).
  assert (valid s1 d) as Hd1 by (by eapply ok_valid).
  eapply wp_step; [transitivity (dbSyncDelete d k s1); [by destruct lazy|]; by apply dbSyncDelete_eq|].
  assert (ok (d = d0 /\ k = k0) s0 (upd d k None None s1)) as O2.
  { eapply ok_after; [by eapply ok_then|]. apply upd_ok; [apply O1|done|by intros []|done]. }
  assert (valid (upd d k None None s1) d) as Hd2 by (by apply upd_valid).
  case_bool_decide as Hv.
  - eapply wp_signal; [done|done|]. intros s3 O3 _ Hd3. eapply wp_dirty; [exact (ok_settled _ _ _ _ O3)|lia|]. intros s4 O4 _ F4.
    apply IH; [done|]. by apply (frame_valid _ _ _ F4).
  - apply IH; [|done]. eapply ok_then; [by eapply ok_then|]. apply upd_ok_kept; [apply O1|done|by intros []|]. left.
    assert (val s1 d k = None) as -> by (destruct (val s1 d k); [destruct Hv; eauto|done]). auto.
Qed.

Lemma exists_loop_wp d ks : forall s0 s n, ok False s0 s -> valid s d ->
  wp (exists_loop d ks n) (fun _ s' => ok False s0 s' /\ srv_dirty s' = srv_dirty s) s.
Proof.
  induction ks as [|k ks IH]; intros s0 s n O Hd; cbn [exists_loop]; [by apply wp_ret|].
  eapply wp_seq; [apply (expire_wp c0 d0 k0); [apply O|done]|]. intros e s1 (O1&_&D1&_).
  assert (valid s1 d) as Hd1 by (by eapply ok_valid).
  apply wp_bind. unfold dbExists. eapply wp_step; [by apply lookupKey_eq|]. apply wp_ret. rewrite <-D1. apply IH; [by eapply ok_then|done].
Qed.

(** ** Reading commands *)

Lemma get_wp s hide d k : wf s -> valid s d -> wp (getCommand hide d k) (fun _ s' => ok False s s' /\ srv_dirty s' = srv_dirty s) s.
Proof.
  intros Hwf Hd. eapply wp_seq; [by apply (lookupRead_wp c0 d0 k0)|]. intros o s1 (O1&?&_).
  destruct o as [o|]; [destruct (decoded o)|]; by apply wp_ret.
Qed.

Lemma ttl_wp s hide d k ms : wf s -> valid s d -> wp (ttlGenericCommand hide d k ms) (fun _ s' => ok False s s' /\ srv_dirty s' = srv_dirty s) s.
Proof.
  intros Hwf Hd. eapply wp_seq; [by apply (lookupRead_wp c0 d0 k0)|]. intros o s1 (O1&?&_). case_bool_decide; [by apply wp_ret|].
  assert (valid s1 d) as Hd1 by (by eapply ok_valid).
  eapply wp_step; [apply getExpire_eq; [done|apply wf_deadline; [apply O1|done]]|]. apply wp_bind, wp_get.
  destruct (_ =? -1); by apply wp_ret.
Qed.

Lemma dbsize_wp s d : wf s -> valid s d -> wp (dbsizeCommand d) (fun _ s' => ok False s s' /\ srv_dirty s' = srv_dirty s) s.
Proof.
  intros Hwf Hd. destruct (valid_db s d Hd) as [db E]. eapply wp_step; [by apply getDb_eq|]. apply wp_ret. split; [by apply ok_refl|done].
Qed.

(** ** Updates in a sequence *)

(** An update of a key covered by [P]. *)
Lemma wp_upd {A B} (m : M A) (f : A -> M B) P s0 s d k v w a Q :
  m s = Some (upd d k v w s, a) -> ok P s0 s -> valid s d -> (is_Some w -> is_Some v) -> vals_ok v -> (d = d0 /\ k = k0 -> P) ->
  (forall s', ok P s0 s' -> valid s' d -> val s' d k = v -> deadline s' d k = w -> same_but d k s s' -> frame s s' -> wp (f a) Q s') ->
  wp (m ≫= f) Q s.
Proof.
  intros E O Hd Hvw Hv HP H. eapply wp_step; [done|].
  destruct (upd_lookup d k v w s d k Hd Hd) as (Ev&Ew&_). rewrite bool_decide_true in Ev, Ew by done.
  apply H; [|by apply upd_valid|done|done|by apply same_but_upd|by apply upd_frame].
  eapply ok_weaken; [|eapply ok_trans; [done|by apply upd_ok; [apply O|..]]]. tauto.
Qed.

Lemma deadline_none s d k : wf s -> valid s d -> val s d k = None -> deadline s d k = None.
Proof.
  intros Hwf Hd E. destruct (deadline s d k) eqn:Ed; [|done]. destruct (wf_deadline _ Hwf d k Hd) as [? Hv]; [rewrite Ed; eauto|congruence].
Qed.

(** The deletion of the destination before it is overwritten. *)
Lemma wp_clear {B} (b : bool) (f : bool -> M B) P s0 s d k Q :
  ok P s0 s -> valid s d -> (d = d0 /\ k = k0 -> P) -> (b = false -> val s d k = None) ->
  (forall x s', ok P s0 s' -> valid s' d -> val s' d k = None -> same_but d k s s' -> wp (f x) Q s') ->
  wp ((if b then dbDelete d k else mret false) ≫= f) Q s.
Proof.
  intros O Hd HP Hn H. destruct b.
  - eapply wp_upd; [by apply dbSyncDelete_eq|done|done|by intros []|done|done|]. intros s1 ?????? . by apply H.
  - apply wp_bind, wp_ret. apply H; [done|done|auto|apply same_but_refl].
Qed.

Lemma wp_setExpire {B} (expire : Z) (f : unit -> M B) P s0 s d k Q :
  ok P s0 s -> valid s d -> (d = d0 /\ k = k0 -> P) -> is_Some (val s d k) ->
  (forall s', ok P s0 s' -> valid s' d -> same_but d k s s' -> frame s s' -> wp (f ()) Q s') ->
  wp ((if expire =? -1 then mret () else setExpire d k expire) ≫= f) Q s.
Proof.
  intros O Hd HP Hv H. destruct (expire =? -1).
  - apply wp_bind, wp_ret, H; [done|done|apply same_but_refl|apply frame_refl].
  - eapply wp_upd; [by apply setExpire_eq|done|done|done|apply wf_val; [apply O|done]|done|]. intros s1 ??????. by apply H.
Qed.

Lemma rename_wp s d k1 k2 nx : wf s -> valid s d -> wp (renameGenericCommand d k1 k2 nx) (fun _ s' => ok False s s') s.
Proof.
  intros Hwf Hd. eapply wp_seq; [by apply (lookupWrite_wp c0 d0 k0)|]. intros o s1 (O1&_&Eo&_).
  destruct o as [o|]; [|by apply wp_ret]. case_bool_decide as Hk; [by apply wp_ret|].
  assert (valid s1 d) as Hd1 by (by eapply ok_valid).
  eapply wp_step; [apply getExpire_eq; [done|apply wf_deadline; [apply O1|done]]|].
  eapply wp_seq; [apply (lookupWrite_wp c0 d0 k0); [apply O1|done]|]. intros o2 s2 (O2&SB2&Eo2&_).
  pose proof (ok_then _ _ _ _ _ _ _ O1 O2) as O12. assert (valid s2 d) as Hd2 by (by eapply ok_valid).
  destruct (_ && nx); [by apply wp_ret|].
  assert (ok (d = d0 /\ (k1 = k0 \/ k2 = k0)) s s2) as P2 by (by eapply ok_weaken; [|exact O12]).
  eapply wp_clear; [exact P2|done|tauto| |].
  { rewrite <-Eo2. case_bool_decide as H; [done|]. intros _. destruct o2; [destruct H; eauto|done]. }
  intros x s3 P3 Hd3 V3 SB3.
  eapply wp_upd; [by apply dbAdd_eq|exact P3|done|by eexists| |tauto|].
  { intros y [= <-]. by apply (wf_val _ (ok_wf _ _ _ _ _ _ O1) d k1 Hd1). }
  intros s4 P4 Hd4 V4 _ _ _. eapply wp_setExpire; [exact P4|done|tauto|rewrite V4; eauto|]. intros s5 P5 Hd5 _ _.
  eapply wp_upd; [by apply dbSyncDelete_eq|exact P5|done|by intros []|done|tauto|]. intros s6 P6 Hd6 _ _ _ _.
  eapply wp_signal; [exact P6|done|]. intros s7 P7 _ Hd7. eapply wp_signal; [exact P7|done|]. intros s8 P8 _ Hd8.
  eapply wp_dirty; [exact P8|lia|]. intros s9 P9 _ _. apply wp_ret. eapply ok_weaken; [|exact P9]. intros (([-> [->| ->]]&?)&?); tauto.
Qed.

(** ** EXPIRE and PERSIST *)

Lemma rewrite_wp s c cmd : wf s -> is_Some (clients s !! c) -> queueable cmd = true ->
  wp (rewriteClientCommandVector c cmd) (fun _ s' => ok False s s' /\ dbs s' = dbs s) s.
Proof.
  intros Hwf [cl E] Hq. eapply wp_step; [unfold getClient; by rewrite E|].
  eapply wp_exec; [done|]. split; [|done]. eapply putClient_ok; [done|done|by constructor|]. apply (wf_clients _ Hwf _ _ E).
Qed.

Lemma expireGeneric_wp s c d k a rel u : wf s -> valid s d -> is_Some (clients s !! c) ->
  wp (expireGenericCommand c d k a rel u) (fun _ s' => ok False s s') s.
Proof.
  intros Hwf Hd Hc. apply wp_bind, wp_get. destruct (getLongLongFromArg a) as [w|]; [|by apply wp_ret, ok_refl]. cbv zeta.
  eapply wp_seq; [by apply (lookupWrite_wp c0 d0 k0)|]. intros o s1 (O1&_&Eo&_). case_bool_decide as Hn; [by apply wp_ret|].
  assert (valid s1 d) as Hd1 by (by eapply ok_valid). assert (is_Some (val s1 d k)) as Hv1 by (rewrite <-Eo; by apply not_eq_None_Some).
  assert (ok (d = d0 /\ k = k0) s s1) as P1 by (by eapply ok_weaken; [|exact O1]).
  destruct (_ && _ && _).
  - eapply wp_upd; [transitivity (dbSyncDelete d k s1); [by destruct (lazyfree_lazy_expire s)|]; by apply dbSyncDelete_eq|exact P1|done
      |by intros []|done|done|]. intros s2 P2 Hd2 _ _ _ _. rewrite bool_decide_true by done. apply wp_bind, wp_ret.
    eapply wp_dirty; [exact P2|lia|]. intros s3 P3 E3 F3.
    eapply wp_seq; [apply rewrite_wp; [apply P3| |by destruct (lazyfree_lazy_expire s)]|].
    { destruct Hc as [cl E]. destruct (frame_client _ _ _ _ (ok_frame _ _ _ _ _ _ P3) E) as (?&?&_). eauto. }
    intros _ s4 (O4&_). pose proof (ok_then _ _ _ _ _ _ _ P3 O4) as P4.
    eapply wp_signal; [exact P4|by eapply ok_valid|]. intros s5 P5 _ _. apply wp_ret. exact (ok_settled _ _ _ _ P5).
  - eapply wp_upd; [by apply setExpire_eq|exact P1|done|done|apply wf_val; [apply O1|done]|done|]. intros s2 P2 Hd2 _ _ _ _.
    eapply wp_signal; [exact P2|done|]. intros s3 P3 _ _.
    eapply wp_dirty; [exact (ok_settled _ _ _ _ P3)|lia|]. intros s4 P4 _ _. by apply wp_ret.
Qed.

Lemma persist_wp s d k : wf s -> valid s d -> wp (persistCommand d k) (fun _ s' => ok False s s') s.
Proof.
  intros Hwf Hd. eapply wp_seq; [by apply (lookupWrite_wp c0 d0 k0)|]. intros o s1 (O1&_&Eo&_). case_bool_decide as Hn; [|by apply wp_ret].
  assert (valid s1 d) as Hd1 by (by eapply ok_valid).
  eapply wp_step; [apply removeExpire_eq; [done|congruence]|].
  assert (ok False s (upd d k (val s1 d k) None s1)) as O2.
  { eapply ok_then; [exact O1|]. apply upd_ok_kept; [apply O1|done|by intros []|auto]. }
  case_bool_decide; [|by apply wp_ret]. eapply wp_dirty; [exact O2|lia|]. intros s3 O3 _ _. by apply wp_ret.
Qed.

(** ** Databases *)

Lemma select_wp s c id : wf s -> is_Some (clients s !! c) ->
  wp (selectDb c id) (fun r s' => ok False s s' /\ dbs s' = dbs s /\ (r = true -> valid s id)) s.
Proof.
  intros Hwf [cl E]. eapply wp_step; [unfold getClient; by rewrite E|]. apply wp_bind, wp_get.
  destruct (Z.ltb_spec id 0); [by apply wp_ret; split; [apply ok_refl|]|]. rewrite Z.geb_leb.
  destruct (Z.leb_spec (Z.of_nat (length (dbs s))) id); [by apply wp_ret; split; [apply ok_refl|]|]. cbn [orb].
  eapply wp_step; [done|]. apply wp_ret. split; [|done]. eapply putClient_ok; [done|done|by constructor|done].
Qed.

Lemma selectCommand_wp s c a : wf s -> is_Some (clients s !! c) -> wp (selectCommand c a) (fun _ s' => ok False s s') s.
Proof.
  intros Hwf Hc. unfold selectCommand. destruct (getLongFromArg a); [|by apply wp_ret, ok_refl].
  eapply wp_seq; [by apply select_wp|]. intros r s1 (?&_). by apply wp_ret.
Qed.

Lemma removed_count_nonneg n l : 0 <= removed_count n l.
Proof.
  unfold removed_count. assert (forall m : list Z, Forall (fun x => 0 <= x) m -> 0 <= foldr Z.add 0 m) as Hsum.
  { induction 1; cbn [foldr]; lia. }
  apply Hsum, Forall_lookup. intros i x. rewrite list_lookup_imap. destruct (l !! i); [|done]. cbn. intros [= <-]. destruct (_ || _); lia.
Qed.

Definition flush_hit (n d : Z) : bool := (n =? -1) || (d =? n).

Lemma empty_lookup n s d k : valid s d ->
  let s' := with_dbs s (empty_dbs n (dbs s)) in
  val s' d k = (if flush_hit n d then None else val s d k) /\
  deadline s' d k = (if flush_hit n d then None else deadline s d k) /\ watchers s' d k = watchers s d k.
Proof.
  intros Hd. cbv zeta. unfold val, deadline, watchers, empty_dbs, flush_hit. cbn [dbs with_dbs]. rewrite list_lookup_imap.
  destruct (valid_db s d Hd) as [db E]. rewrite E. cbn [fmap option_fmap option_map mbind option_bind].
  rewrite Z2Nat.id by (destruct Hd; lia). rewrite (Z.eqb_sym n d).
  destruct ((n =? -1) || (d =? n)); cbn; rewrite ?lookup_empty; done.
Qed.

(** Flagging on a flush, then emptying. *)
Lemma flush_wp {B} n (f : Z -> M B) s Q : wf s -> -1 <= n < Z.of_nat (length (dbs s)) ->
  (forall s', ok False s s' -> forall x, 0 <= x -> wp (f x) Q s') ->
  wp (signalFlushedDb n ;; (emptyDb n ≫= f)) Q s.
Proof.
  intros Hwf Hn H. eapply wp_step; [done|]. set (s1 := with_clients s _).
  set (mark := fun cl => if existsb (flush_hits s n) (watched cl) then with_flags cl (flag_multi cl) true (flag_dirty_exec cl) else cl) in *.
  assert (forall cl, client_le cl (mark cl) /\ cdb (mark cl) = cdb cl) as Hmark.
  { intros cl. unfold mark. destruct (existsb _ _); [by split; [constructor|]|]. split; [apply client_le_refl|done]. }
  assert (ok False s s1) as O1.
  { apply ok_same_dbs; try done; [by apply expiry_feed_same| |].
    - intros c. unfold s1. cbn [clients with_clients]. rewrite lookup_fmap. destruct (clients s !! c); constructor. apply Hmark.
    - intros c cl'. unfold s1. cbn [clients with_clients]. rewrite lookup_fmap. intros (cl&E&->)%fmap_Some. rewrite (proj2 (Hmark cl)). apply (wf_clients _ Hwf _ _ E). }
  eapply wp_step.
  { unfold emptyDb. change (dbs s1) with (dbs s). rewrite (proj2 (Z.ltb_ge n (-1))) by lia. rewrite Z.geb_leb.
    rewrite (proj2 (Z.leb_gt _ _)) by lia. reflexivity. }
  apply H; [|apply removed_count_nonneg]. set (s2 := with_dbs s1 _).
  assert (forall d k, valid s d -> val s2 d k = (if flush_hit n d then None else val s d k) /\
    deadline s2 d k = (if flush_hit n d then None else deadline s d k) /\ watchers s2 d k = watchers s d k) as L.
  { intros d k Hd. exact (empty_lookup n s1 d k Hd). }
  assert (frame s s2) as F2.
  { eapply server_frame_trans; [apply O1|]. constructor; try done; [cbn; unfold empty_dbs; by rewrite length_imap|..].
    - intros d k Hd. by apply L.
    - intros c. apply clients_le_refl.
    - by apply expiry_feed_same. }
  constructor; [|done|].
  - apply (frame_wf s); [done|done| | |].
    + intros d k Hd. destruct (L d k Hd) as (->&->&_). destruct (flush_hit n d); [done|]. by apply (wf_deadline _ Hwf).
    + intros d k Hd. destruct (L d k Hd) as (->&_). destruct (flush_hit n d); [done|]. by apply (wf_val _ Hwf).
    + intros c cl' E. apply (wf_clients _ (ok_wf _ _ _ _ _ _ O1) _ _ E).
  - intros Hw. unfold watching, wl in Hw. destruct (clients s !! c0) as [cl|] eqn:E; [|by apply not_elem_of_nil in Hw]. cbn in Hw.
    assert (valid s d0) as Hd0 by (by eapply (cwf_valid _ _ (wf_clients _ Hwf _ _ E))).
    destruct (L d0 k0 Hd0) as (Ev&Ew&_). unfold kept. rewrite Ev, Ew.
    destruct (flush_hit n d0) eqn:Eh; [|right; left; left; auto].
    destruct (val s d0 k0) as [v|] eqn:Ev0.
    + left. exists (mark cl). split; [unfold s2, s1; cbn [clients with_clients with_dbs]; by rewrite lookup_fmap, E|]. unfold mark.
      rewrite (proj2 (existsb_exists _ _)); [done|]. exists (d0, k0). split; [by apply list_elem_of_In|].
      unfold flush_hits. cbn [fst snd]. unfold flush_hit in Eh. rewrite Eh. unfold val in Ev0. destruct (dbs s !! Z.to_nat d0); [|done].
      cbn in Ev0 |- *. apply bool_decide_eq_true. eauto.
    + right. left. left. auto.
Qed.

Lemma flushdb_wp s d : wf s -> valid s d -> wp (flushdbCommand d) (fun _ s' => ok False s s') s.
Proof.
  intros Hwf Hd. apply flush_wp; [done|destruct Hd; lia|]. intros s1 O1 x Hx.
  eapply wp_dirty; [exact O1|lia|]. intros s2 O2 _ _. by apply wp_ret.
Qed.

Lemma flushall_wp s : wf s -> wp flushallCommand (fun _ s' => ok False s s') s.
Proof.
  intros Hwf. apply flush_wp; [done|lia|]. intros s1 O1 x Hx.
  eapply wp_dirty; [exact O1|lia|]. intros s2 O2 _ _. eapply wp_dirty; [exact O2|lia|]. intros s3 O3 _ _. by apply wp_ret.
Qed.

(** ** MOVE and SWAPDB keep the invariant but do not signal *)

Lemma move_wp s c k a : wf s -> is_Some (clients s !! c) -> wp (moveCommand c k a) (fun _ s' => ok True s s') s.
Proof.
  intros Hwf [cl E]. assert (forall s', ok False s s' -> ok True s s') as Hweak by (intros s'; by apply ok_weaken).
  eapply wp_step; [unfold getClient; by rewrite E|]. cbv zeta.
  assert (valid s (cdb cl)) as Hsrc by apply (wf_clients _ Hwf _ _ E).
  destruct (getLongLongFromArg a) as [dbid|]; [|by apply wp_ret, Hweak, ok_refl].
  destruct (_ || _); [by apply wp_ret, Hweak, ok_refl|].
  eapply wp_seq; [apply select_wp; eauto|]. intros r s1 (O1&_&Hr). destruct r; [|by apply wp_ret, Hweak]. specialize (Hr eq_refl).
  destruct (frame_client _ _ _ _ (ok_frame _ _ _ _ _ _ O1) E) as (cl1&E1&_).
  cbn [negb]. eapply wp_seq; [apply select_wp; [apply O1|eauto]|]. intros r s2 (O2&_&_).
  pose proof (ok_then _ _ _ _ _ _ _ O1 O2) as O12. destruct (Z.eqb_spec (cdb cl) dbid) as [|Hne]; [by apply wp_ret, Hweak|].
  eapply wp_seq; [apply (lookupWrite_wp c0 d0 k0); [apply O12|by eapply ok_valid]|]. intros o s3 (O3&_&Eo&_).
  pose proof (ok_then _ _ _ _ _ _ _ O12 O3) as O13. assert (valid s3 (cdb cl)) as Hs3 by (by eapply ok_valid).
  destruct o as [o|]; [|by apply wp_ret, Hweak].
  eapply wp_step; [apply getExpire_eq; [done|apply wf_deadline; [apply O13|done]]|].
  eapply wp_seq; [apply (lookupWrite_wp c0 d0 k0); [apply O13|by eapply ok_valid]|]. intros o2 s4 (O4&_&Eo2&_).
  pose proof (ok_then _ _ _ _ _ _ _ O13 O4) as O14. case_bool_decide as Hn; [by apply wp_ret, Hweak|].
  assert (val s4 dbid k = None) as V4 by (destruct o2; [destruct Hn; eauto|done]).
  eapply wp_upd; [apply dbAdd_eq; [by eapply ok_valid|done]|exact (Hweak _ O14)|by eapply ok_valid|by eexists| |done|].
  { intros y [= <-]. by apply (wf_val _ (ok_wf _ _ _ _ _ _ O13) (cdb cl) k Hs3). }
  intros s5 P5 Hd5 V5 _ _ _. eapply wp_setExpire; [exact P5|done|done|rewrite V5; eauto|]. intros s6 P6 Hd6 _ _.
  eapply wp_upd; [apply dbSyncDelete_eq; by eapply ok_valid|exact P6|by eapply ok_valid|by intros []|done|done|]. intros s7 P7 _ _ _ _ _.
  eapply wp_dirty; [exact P7|lia|]. intros s8 P8 _ _. by apply wp_ret.
Qed.

Definition other (id1 id2 d : Z) : Z := if d =? id1 then id2 else if d =? id2 then id1 else d.

Lemma swap_lookup s id1 id2 db1 db2 : valid s id1 -> valid s id2 -> id1 <> id2 ->
  dbs s !! Z.to_nat id1 = Some db1 -> dbs s !! Z.to_nat id2 = Some db2 ->
  let s' := with_dbs s (<[Z.to_nat id2 := RedisDb (dict db1) (expires db1) (watched_keys db2)]>
                       (<[Z.to_nat id1 := RedisDb (dict db2) (expires db2) (watched_keys db1)]> (dbs s))) in
  forall d k, valid s d -> val s' d k = val s (other id1 id2 d) k /\ deadline s' d k = deadline s (other id1 id2 d) k /\
    watchers s' d k = watchers s d k.
Proof.
  intros H1 H2 Hne E1 E2 s' d k Hd. unfold val, deadline, watchers, s', other, valid in *. cbn [dbs with_dbs].
  destruct (Z.eqb_spec d id1) as [->|]; [|destruct (Z.eqb_spec d id2) as [->|]].
  - rewrite list_lookup_insert_ne by lia. rewrite list_lookup_insert_eq by lia. by rewrite E1, E2.
  - rewrite list_lookup_insert_eq by (rewrite length_insert; lia). by rewrite E1, E2.
  - by rewrite !list_lookup_insert_ne by lia.
Qed.

Lemma swapDatabases_wp s id1 id2 : wf s -> wp (dbSwapDatabases id1 id2) (fun _ s' => ok True s s') s.
Proof.
  intros Hwf. assert (ok True s s) as Hrefl by (eapply ok_weaken; [|by apply ok_refl]; done). apply wp_bind, wp_get. cbv zeta.
  destruct (_ || _ || _ || _) eqn:Eb; [by apply wp_ret|]. rewrite !Z.geb_leb in Eb. zbool.
  destruct (Z.eqb_spec id1 id2) as [|Hne]; [by apply wp_ret|].
  assert (valid s id1) as V1 by (unfold valid; lia). assert (valid s id2) as V2 by (unfold valid; lia).
  destruct (valid_db s id1 V1) as [db1 E1]. destruct (valid_db s id2 V2) as [db2 E2].
  eapply wp_step; [by apply getDb_eq|]. eapply wp_step; [by apply getDb_eq|]. eapply wp_step; [done|]. eapply wp_step; [done|].
  apply wp_ret. pose proof (swap_lookup s id1 id2 db1 db2 V1 V2 Hne E1 E2) as L. cbv zeta in L.
  set (s' := with_dbs s _) in L. change (ok True s s').
  assert (forall d, valid s d -> valid s (other id1 id2 d)) as Hother by (intros d ?; unfold other; destruct (d =? id1), (d =? id2); done).
  assert (frame s s') as F.
  { constructor; try done; [cbn; by rewrite !length_insert|intros d k Hd; by apply L|intros c; apply clients_le_refl|].
    by apply expiry_feed_same. }
  constructor; [|done|auto]. apply (frame_wf s); [done|done| | |].
  - intros d k Hd. destruct (L d k Hd) as (->&->&_). by apply (wf_deadline _ Hwf), Hother.
  - intros d k Hd. destruct (L d k Hd) as (->&_). by apply (wf_val _ Hwf), Hother.
  - intros c cl E. apply (wf_clients _ Hwf _ _ E).
Qed.

Lemma swapdb_wp s a1 a2 : wf s -> wp (swapdbCommand a1 a2) (fun _ s' => ok True s s') s.
Proof.
  intros Hwf. assert (ok True s s) as Hrefl by (eapply ok_weaken; [|by apply ok_refl]; done). unfold swapdbCommand.
  destruct (getLongFromArg a1); [|by apply wp_ret]. destruct (getLongFromArg a2); [|by apply wp_ret].
  eapply wp_seq; [by apply swapDatabases_wp|]. intros r s1 O1. cbv beta in O1. destruct r; [|by apply wp_ret].
  eapply wp_dirty; [exact O1|lia|]. intros s2 O2 _ _. by apply wp_ret.
Qed.

(** ** AUTH, PING and eviction *)

Lemma auth_wp s c p : wf s -> is_Some (clients s !! c) -> wp (authCommand c p) (fun _ s' => ok False s s') s.
Proof.
  intros Hwf [cl E]. apply wp_bind, wp_get. destruct (requirepass _); [|by apply wp_ret, ok_refl].
  eapply wp_step; [unfold getClient; by rewrite E|]. pose proof (cwf_db _ _ (wf_clients _ Hwf _ _ E)) as Hd.
  destruct (_ =? 0); (eapply wp_step; [done|]); apply wp_ret; (eapply putClient_ok; [done|exact E|by constructor|done]).
Qed.

Lemma ping_wp s c args : wf s -> is_Some (clients s !! c) -> wp (pingCommand c args) (fun _ s' => ok False s s') s.
Proof.
  intros Hwf [cl E]. eapply wp_step; [unfold getClient; by rewrite E|]. destruct args as [|x [|y l]]; by apply wp_ret, ok_refl.
Qed.

Lemma evict_wp s d k : wf s -> valid s d -> wp (evictKey d k) (fun _ s' => ok True s s') s.
Proof.
  intros Hwf Hd. apply wp_bind, wp_get. set (b := lazyfree_lazy_eviction (conds s)).
  set (s1 := with_feed s (feed s ++ [(d, if b then CUnlink [k] else CDel [k])])).
  assert (ok False s s1) as O1 by (apply propagate_expiry_ok; [done|exists k; destruct b; auto]).
  eapply (wp_step _ _ _ _ s1); [done|]. assert (valid s1 d) as Hd1 by done.
  eapply wp_step; [transitivity (dbSyncDelete d k s1); [by destruct b|by apply dbSyncDelete_eq]|]. apply wp_ret.
  eapply ok_after; [exact O1|]. eapply ok_weaken; [|apply upd_ok; [apply O1|done|by intros []|done]]. done.
Qed.

(** ** All commands that can be queued, except UNWATCH *)

(** The commands that change keys without signalling them. *)
Definition silent (cmd : command) : bool := match cmd with CMove _ _ | CSwapdb _ _ => true | _ => false end.

Lemma proc_wp s c cmd : wf s -> is_Some (clients s !! c) -> cmd_ok cmd -> queueable cmd = true -> cmd <> CUnwatch ->
  wp (proc_queueable c cmd) (fun _ s' => ok (silent cmd = true) s s' /\ (cmd_readonly cmd = true -> srv_dirty s' = srv_dirty s)) s.
Proof.
  intros Hwf [cl E] Hok Hq Hu. eapply wp_step; [unfold getClient; by rewrite E|]. cbv zeta.
  assert (valid s (cdb cl)) as Hd by apply (wf_clients _ Hwf _ _ E). assert (is_Some (clients s !! c)) as Hc by eauto.
  assert (forall A (m : M A), silent cmd = false -> cmd_readonly cmd = false -> wp m (fun _ s' => ok False s s') s ->
    wp m (fun _ s' => ok (silent cmd = true) s s' /\ (cmd_readonly cmd = true -> srv_dirty s' = srv_dirty s)) s) as Hloud.
  { intros A m -> -> Hm. eapply wp_mono; [exact Hm|]. intros ? ? O. split; [|done]. eapply ok_weaken; [|exact O]. tauto. }
  assert (forall A (m : M A), silent cmd = false -> wp m (fun _ s' => ok False s s' /\ srv_dirty s' = srv_dirty s) s ->
    wp m (fun _ s' => ok (silent cmd = true) s s' /\ (cmd_readonly cmd = true -> srv_dirty s' = srv_dirty s)) s) as Hread.
  { intros A m -> Hm. eapply wp_mono; [exact Hm|]. intros ? ? [O ?]. split; [|done]. eapply ok_weaken; [|exact O]. tauto. }
  destruct cmd; try done; try (apply Hloud; [done|done|]); try (apply Hread; [done|]).
  - by apply get_wp.
  - by apply set_wp.
  - by apply setbitKey_wp.
  - eapply wp_seq; [by apply del_loop_wp; [apply ok_refl|]|]. intros ???. by apply wp_ret.
  - eapply wp_seq; [by apply del_loop_wp; [apply ok_refl|]|]. intros ???. by apply wp_ret.
  - eapply wp_seq; [by apply exists_loop_wp; [apply ok_refl|]|]. intros ???. by apply wp_ret.
  - by apply rename_wp.
  - eapply wp_mono; [by apply move_wp|]. intros ? s1 O1. split; [exact (ok_weaken _ _ _ True _ s s1 (fun _ => eq_refl) O1)|done].
  - by apply selectCommand_wp.
  - eapply wp_mono; [by apply swapdb_wp|]. intros ? s1 O1. split; [exact (ok_weaken _ _ _ True _ s s1 (fun _ => eq_refl) O1)|done].
  - by apply flushdb_wp.
  - by apply flushall_wp.
  - by apply dbsize_wp.
  - by apply expireGeneric_wp.
  - by apply ttl_wp.
  - by apply persist_wp.
  - by apply auth_wp.
  - by apply ping_wp.
Qed.
End commands.
