(* ===== verification/CommandLog.v ===== *)
(** * What a command changes and what it logs

    A command that does not count as a change ([server.dirty] stays) changed no key except that
    keys past their deadline were deleted, and the deletions are what it propagates. The facts
    are relations between the state before and after a computation that are closed under
    sequencing; [does] states that a computation stays within such a relation. *)

From stdpp Require Import gmap.
From S2P Require Import Prelude Util Bitops BitScan BitField BitCmd Keyspace Multi KeyspaceInv KeyspaceCmd.

(** ** Relations kept by computations *)

Definition does {A} (R : relation server) (m : M A) : Prop := forall s s' a, m s = Some (s', a) -> R s s'.

(** Computations that read the state. *)
Abbreviation reads := (does eq).

Lemma bind_inv {A B} (m : M A) (f : A -> M B) s s' b : (m ≫= f) s = Some (s', b) -> exists s1 a, m s = Some (s1, a) /\ f a s1 = Some (s', b).
Proof. unfold mbind, M_bind. destruct (m s) as [[s1 a]|]; [|done]. cbn. eauto. Qed.

Lemma does_mono {A} (R R' : relation server) (m : M A) : (forall s s', R s s' -> R' s s') -> does R m -> does R' m.
Proof. intros H Hm s s' a E. eauto. Qed.

Lemma does_comp {A B} (R1 R2 R : relation server) (m : M A) (f : A -> M B) :
  (forall s1 s2 s3, R1 s1 s2 -> R2 s2 s3 -> R s1 s3) -> does R1 m -> (forall a, does R2 (f a)) -> does R (m ≫= f).
Proof. intros HR Hm Hf s s' b (s1&a&E1&E2)%bind_inv. eapply HR; [by eapply Hm|by eapply Hf]. Qed.

Lemma does_assoc {A B C} (R : relation server) (m : M A) (f : A -> M B) (g : B -> M C) :
  does R (m ≫= fun a => f a ≫= g) -> does R ((m ≫= f) ≫= g).
Proof.
  intros H s s' c (s1&b&(s2&a&E1&E2)%bind_inv&E3)%bind_inv. apply (H s s' c). unfold mbind, M_bind. rewrite E1. cbn. by rewrite E2.
Qed.

Section preorder.
Context (R : relation server) `{!PreOrder R}.

Lemma does_read {A} (m : M A) : reads m -> does R m.
Proof. intros H s s' a E. by rewrite (H _ _ _ E). Qed.

Lemma does_ret {A} (a : A) : does R (mret a).
Proof. by intros s s' x [= -> _]. Qed.

Lemma does_bind {A B} (m : M A) (f : A -> M B) : does R m -> (forall a, does R (f a)) -> does R (m ≫= f).
Proof. apply does_comp. intros ???. by transitivity s2. Qed.

Lemma does_if {A} (b : bool) (m1 m2 : M A) : does R m1 -> does R m2 -> does R (if b then m1 else m2).
Proof. by destruct b. Qed.

Lemma does_iter {A} (f : A -> M unit) (l : list A) : (forall a, does R (f a)) -> does R (iterM f l).
Proof. intros H. induction l as [|x l IH]; cbn [iterM]; [apply does_ret|]. by apply does_bind. Qed.
End preorder.

Lemma reads_get : reads get.
Proof. by intros s s' a [= -> _]. Qed.

Lemma reads_assert b : reads (assert_ b).
Proof. unfold assert_. destruct b; by intros s s' a [= ->]. Qed.

Lemma reads_getDb d : reads (getDb d).
Proof. unfold getDb. intros s s' a. destruct (0 <=? d); [|done]. destruct (dbs s !! Z.to_nat d); cbn; congruence. Qed.

Lemma reads_getClient c : reads (getClient c).
Proof. unfold getClient. intros s s' a. destruct (clients s !! c); cbn; congruence. Qed.

Create HintDb does.
#[export] Hint Resolve does_read does_ret does_bind does_if does_iter reads_get reads_assert reads_getDb reads_getClient : does.
#[export] Hint Extern 1 (PreOrder _) => apply _ : does.

(** Follow the structure of a program. *)
Ltac does_step :=
  match goal with
  | |- does _ (match ?x with _ => _ end) => destruct x
  | |- does _ (_ ≫= _) => apply does_bind; [apply _| |intros ?]
  | |- does _ (mret _) => apply does_ret; apply _
  | |- does _ (iterM _ _) => apply does_iter; [apply _|intros ?]
  | |- does _ _ => solve [auto with does nocore]
  end.
Ltac does := cbv zeta; repeat does_step.

Lemma reads_lookupKey d k : reads (lookupKey d k).
Proof. unfold lookupKey. does. Qed.

Lemma reads_getExpire d k : reads (getExpire d k).
Proof. unfold getExpire. does. Qed.
#[export] Hint Resolve reads_lookupKey reads_getExpire : does.

(** ** The clients are left alone *)

Definition same_clients (s s' : server) : Prop := clients s' = clients s.

#[export] Instance same_clients_preorder : PreOrder same_clients.
Proof. split; [done|]. unfold same_clients. intros ???. congruence. Qed.

Lemma same_clients_putDb d db : does same_clients (putDb d db).
Proof. by intros s s' a [= <- _]. Qed.

Lemma same_clients_addDirty n : does same_clients (addDirty n).
Proof. by intros s s' a [= <- _]. Qed.

Lemma same_clients_propagate d cmd : does same_clients (propagate d cmd).
Proof. by intros s s' a [= <- _]. Qed.
#[export] Hint Resolve same_clients_putDb same_clients_addDirty same_clients_propagate : does.

Lemma same_clients_delete d k : does same_clients (dbSyncDelete d k).
Proof. unfold dbSyncDelete. does. Qed.
#[export] Hint Resolve same_clients_delete : does.
#[export] Hint Extern 1 (does _ (dbAsyncDelete _ _)) => unfold dbAsyncDelete : does.
#[export] Hint Extern 1 (does _ (dbDelete _ _)) => unfold dbDelete : does.
#[export] Hint Extern 1 (does _ (propagateExpire _ _ _)) => unfold propagateExpire : does.

Lemma same_clients_expire d k : does same_clients (expireIfNeeded d k).
Proof. unfold expireIfNeeded. does. Qed.
#[export] Hint Resolve same_clients_expire : does.

Lemma same_clients_lookupWrite d k : does same_clients (lookupKeyWrite d k).
Proof. unfold lookupKeyWrite. does. Qed.

Lemma same_clients_lookupRead h d k : does same_clients (lookupKeyRead h d k).
Proof. unfold lookupKeyRead. does. Qed.

Lemma same_clients_dbAdd d k v : does same_clients (dbAdd d k v).
Proof. unfold dbAdd. does. Qed.

Lemma same_clients_dbOverwrite d k v : does same_clients (dbOverwrite d k v).
Proof. unfold dbOverwrite. does. Qed.

Lemma same_clients_setExpire d k w : does same_clients (setExpire d k w).
Proof. unfold setExpire. does. Qed.

Lemma same_clients_removeExpire d k : does same_clients (removeExpire d k).
Proof. unfold removeExpire. does. Qed.
#[export] Hint Resolve same_clients_lookupWrite same_clients_lookupRead same_clients_dbAdd same_clients_dbOverwrite
  same_clients_setExpire same_clients_removeExpire : does.

(** ** Keys change by expiry only *)

(** A deadline belongs to a key. *)
Definition dl_ok (s : server) : Prop := forall d k, valid s d -> is_Some (deadline s d k) -> is_Some (val s d k).

(** Every key is as it was, or it was deleted after its deadline. *)
Record expired_only (s s' : server) : Prop := {
  eo_now : now s' = now s;
  eo_len : length (dbs s') = length (dbs s);
  eo_keys : forall d k, valid s d ->
    (val s' d k = val s d k /\ deadline s' d k = deadline s d k) \/
    (val s' d k = None /\ deadline s' d k = None /\ exists w, deadline s d k = Some w /\ w < now s)
}.

#[export] Instance expired_only_preorder : PreOrder expired_only.
Proof.
  split; [intros s; constructor; auto|]. intros a b c [N1 L1 K1] [N2 L2 K2]. constructor; [congruence|congruence|].
  intros d k Hd. assert (valid b d) as Hd' by (unfold valid in *; by rewrite L1).
  destruct (K1 d k Hd) as [[V1 D1]|(V1&D1&w&W)]; destruct (K2 d k Hd') as [[V2 D2]|(V2&D2&w2&W2&L)].
  - left. split; congruence.
  - right. split; [done|]. split; [done|]. exists w2. split; congruence.
  - right. split; [congruence|]. split; [congruence|]. eauto.
  - congruence.
Qed.

Lemma expired_only_dl s s' : expired_only s s' -> dl_ok s -> dl_ok s'.
Proof.
  intros [_ L K] H d k Hd. assert (valid s d) as Hd' by (unfold valid in *; by rewrite <-L).
  destruct (K d k Hd') as [[-> ->]|(_&->&_)]; [auto|by intros []].
Qed.

(** Databases that differ in the watched keys. *)
Lemma expired_only_same s s' : now s' = now s -> length (dbs s') = length (dbs s) ->
  (forall d k, valid s d -> val s' d k = val s d k /\ deadline s' d k = deadline s d k) -> expired_only s s'.
Proof. intros ?? H. constructor; auto. Qed.

(** A deletion that is propagated for a key past its deadline in [s]. *)
Definition expired_entry (s : server) (p : Z * command) : Prop :=
  exists k w, (p.2 = CDel [k] \/ p.2 = CUnlink [k]) /\ deadline s p.1 k = Some w /\ w < now s.

(** What is propagated inside a command. *)
Definition expires_logged (s s' : server) : Prop :=
  exists l, feed s' = feed s ++ l /\ Forall (fun p => valid s p.1 /\ expired_entry s p) l.

(** No deadline is new. *)
Definition dl_sub (s s' : server) : Prop :=
  now s' = now s /\ length (dbs s') = length (dbs s) /\ forall d k w, valid s d -> deadline s' d k = Some w -> deadline s d k = Some w.

Lemma expired_only_sub s s' : expired_only s s' -> dl_sub s s'.
Proof. intros [N L K]. split; [done|]. split; [done|]. intros d k w Hd. destruct (K d k Hd) as [[_ ->]|(_&->&_)]; done. Qed.

Lemma dl_sub_trans a b c : dl_sub a b -> dl_sub b c -> dl_sub a c.
Proof.
  intros (N1&L1&D1) (N2&L2&D2). split; [congruence|]. split; [congruence|]. intros d k w Hd Hc. apply D1; [done|]. apply D2; [|done].
  unfold valid in *. by rewrite L1.
Qed.

Lemma expires_logged_trans a b c : dl_sub a b -> expires_logged a b -> expires_logged b c -> expires_logged a c.
Proof.
  intros (N&L&D) (l1&E1&F1) (l2&E2&F2). exists (l1 ++ l2). rewrite E2, E1, app_assoc. split; [done|]. apply Forall_app. split; [done|].
  eapply Forall_impl; [exact F2|]. intros [d cmd] (V&k&w&Hc&Hd&Hw). cbn [fst snd] in *.
  assert (valid a d) by (unfold valid in *; by rewrite <-L). split; [done|]. exists k, w. cbn. rewrite <-N. auto.
Qed.

Lemma expires_logged_none s s' : feed s' = feed s -> expires_logged s s'.
Proof. intros E. exists []. rewrite E, app_nil_r. by split; [|constructor]. Qed.

(** A computation that only expires keys. *)
Definition quiet (s s' : server) : Prop :=
  dl_ok s -> expired_only s s' /\ srv_dirty s' = srv_dirty s /\ expires_logged s s'.

#[export] Instance quiet_preorder : PreOrder quiet.
Proof.
  split; [intros s _; split; [done|]; split; [done|by apply expires_logged_none]|]. intros a b c H1 H2 Ha.
  destruct (H1 Ha) as (E1&D1&F1). destruct H2 as (E2&D2&F2); [by eapply expired_only_dl|].
  split; [by etrans|]. split; [congruence|]. eapply expires_logged_trans; [by apply expired_only_sub|done|done].
Qed.

(** What every command does: either keys only expire, or the change is counted; the deletions
    of expired keys are propagated. *)
Definition logs (s s' : server) : Prop :=
  dl_ok s -> (expired_only s s' /\ srv_dirty s' = srv_dirty s \/ srv_dirty s < srv_dirty s') /\ expires_logged s s'.

Lemma quiet_logs s s' : quiet s s' -> logs s s'.
Proof. intros H Hd. destruct (H Hd) as (?&?&?). auto. Qed.

Lemma logs_after {A B} (m : M A) (f : A -> M B) : does quiet m -> (forall a, does logs (f a)) -> does logs (m ≫= f).
Proof.
  apply does_comp. intros s1 s2 s3 H1 H2 Hd. destruct (H1 Hd) as (E1&D1&F1). destruct H2 as (H2&F2); [by eapply expired_only_dl|].
  rewrite D1 in H2. split; [|eapply expires_logged_trans; [by apply expired_only_sub|done|done]].
  destruct H2 as [[? ?]|?]; [left; split; [by etrans|done]|auto].
Qed.

Lemma logs_quiet {A} (m : M A) : does quiet m -> does logs m.
Proof. apply does_mono, quiet_logs. Qed.

(** Changes that are not propagated from inside the command. *)
Definition plain (s s' : server) : Prop := feed s' = feed s /\ srv_dirty s <= srv_dirty s'.

#[export] Instance plain_preorder : PreOrder plain.
Proof. split; [by split|]. intros a b c [? ?] [? ?]. split; [congruence|lia]. Qed.

(** Changes that are counted. *)
Definition counted (s s' : server) : Prop := feed s' = feed s /\ srv_dirty s < srv_dirty s'.

Lemma counted_after {A B} (m : M A) (f : A -> M B) : does plain m -> (forall a, does counted (f a)) -> does counted (m ≫= f).
Proof. apply does_comp. intros s1 s2 s3 [? ?] [? ?]. split; [congruence|lia]. Qed.

Lemma counted_now {A} n (f : unit -> M A) : 0 < n -> (forall a, does plain (f a)) -> does counted (addDirty n ≫= f).
Proof.
  intros Hn Hf. eapply (does_comp counted plain); [|intros s s' a [= <- _]; split; [done|cbn; lia]|exact Hf].
  intros s1 s2 s3 [? ?] [? ?]. split; [congruence|lia].
Qed.

Lemma logs_counted {A} (m : M A) : does counted m -> does logs m.
Proof. apply does_mono. intros s s' [F D] _. split; [auto|by apply expires_logged_none]. Qed.

Lemma plain_putDb d db : does plain (putDb d db).
Proof. by intros s s' a [= <- _]. Qed.

Lemma plain_putClient c cl : does plain (putClient c cl).
Proof. by intros s s' a [= <- _]. Qed.

Lemma plain_flush n : does plain (signalFlushedDb n).
Proof. by intros s s' a [= <- _]. Qed.
#[export] Hint Resolve plain_putDb plain_putClient plain_flush : does.

Lemma plain_signal d k : does plain (signalModifiedKey d k).
Proof. unfold signalModifiedKey, touchWatchedKey, mark_dirty_cas. does. Qed.

Lemma plain_delete d k : does plain (dbSyncDelete d k).
Proof. unfold dbSyncDelete. does. Qed.

Lemma plain_dbAdd d k v : does plain (dbAdd d k v).
Proof. unfold dbAdd. does. Qed.

Lemma plain_dbOverwrite d k v : does plain (dbOverwrite d k v).
Proof. unfold dbOverwrite. does. Qed.

Lemma plain_setExpire d k w : does plain (setExpire d k w).
Proof. unfold setExpire. does. Qed.

Lemma plain_removeExpire d k : does plain (removeExpire d k).
Proof. unfold removeExpire. does. Qed.

Lemma plain_rewrite c cmd : does plain (rewriteClientCommandVector c cmd).
Proof. unfold rewriteClientCommandVector. does. Qed.
#[export] Hint Resolve plain_signal plain_delete plain_dbAdd plain_dbOverwrite plain_setExpire plain_removeExpire plain_rewrite : does.

(** ** Expiry and the commands *)

Lemma getDb_inv d s s' db : getDb d s = Some (s', db) -> s' = s /\ dbs s !! Z.to_nat d = Some db /\ valid s d.
Proof.
  unfold getDb. destruct (Z.leb_spec 0 d); [|done]. destruct (dbs s !! Z.to_nat d) as [x|] eqn:E; [|done]. cbn. intros [= <- <-].
  split; [done|]. split; [done|]. apply lookup_lt_Some in E. unfold valid. lia.
Qed.

Lemma getExpire_inv d k s s' w : getExpire d k s = Some (s', w) -> s' = s /\ valid s d /\ w = default (-1) (deadline s d k).
Proof.
  intros (s1&db&(->&E&V)%getDb_inv&H)%bind_inv. unfold deadline. rewrite E. cbn [mbind option_bind].
  destruct (expires db !! k) as [x|]; [|by injection H as <- <-]. apply bind_inv in H as (s2&[]&H1&H2).
  unfold assert_ in H1. destruct (bool_decide _); [|done]. injection H1 as <-. by injection H2 as <- <-.
Qed.

Lemma delete_inv d k s s' b : dbSyncDelete d k s = Some (s', b) -> valid s d /\ s' = upd d k None None s /\ b = bool_decide (is_Some (val s d k)).
Proof.
  intros H. pose proof H as (s1&db&(->&E&V)%getDb_inv&_)%bind_inv. rewrite dbSyncDelete_eq in H by done. injection H as <- <-. done.
Qed.

(** The deletion of an expired key, whichever way memory is freed. *)
Lemma quiet_expired s d k w (b : bool) : valid s d -> deadline s d k = Some w -> w < now s ->
  quiet s (upd d k None None (with_feed s (feed s ++ [(d, if b then CUnlink [k] else CDel [k])]))).
Proof.
  intros Hd Hw Hn _. set (s1 := with_feed s _). destruct (upd_other d k None None s1) as (_&Ef&En&_&_&_&Ed&El).
  split; [constructor; [done|done|]|split; [done|]].
  - intros d' k' Hd'. destruct (upd_lookup d k None None s1 d' k' Hd Hd') as (->&->&_). case_bool_decide as H; [|left; done].
    destruct H as [-> ->]. right. eauto.
  - unfold expires_logged. rewrite Ef. eexists. split; [reflexivity|]. constructor; [|constructor]. split; [done|]. exists k, w. cbn [fst snd]. destruct b; auto.
Qed.

Lemma quiet_expire d k : does quiet (expireIfNeeded d k).
Proof.
  intros s s' b (s1&w&(->&Hd&->)%getExpire_inv&H)%bind_inv. apply bind_inv in H as (s2&s3&[= <- <-]&H).
  assert (forall x y : bool, (mret x : M bool) s = Some (s', y) -> quiet s s') as Hret by (by intros x y [= <- _]).
  destruct (Z.ltb_spec (default (-1) (deadline s d k)) 0) as [|Hw]; [by eapply Hret|].
  destruct (loading s); [by eapply Hret|]. destruct (masterhost s); [by eapply Hret|].
  destruct (Z.leb_spec (now s) (default (-1) (deadline s d k))) as [|Hn]; [by eapply Hret|].
  destruct (deadline s d k) as [w|] eqn:Ew; [|cbn in Hw; lia]. cbn [from_option id] in *.
  apply bind_inv in H as (s1&[]&[= <-]&H). destruct (lazyfree_lazy_expire s); apply delete_inv in H as (_&->&_);
    [by apply (quiet_expired s d k w true)|by apply (quiet_expired s d k w false)].
Qed.
#[export] Hint Resolve quiet_expire : does.

Lemma quiet_lookupWrite d k : does quiet (lookupKeyWrite d k).
Proof. unfold lookupKeyWrite. does. Qed.

Lemma quiet_lookupRead h d k : does quiet (lookupKeyRead h d k).
Proof. unfold lookupKeyRead. does. Qed.
#[export] Hint Resolve quiet_lookupWrite quiet_lookupRead : does.

(** Steps of a command that is [logs]. *)
Ltac logs_step :=
  match goal with
  | |- does logs (mret _) => apply logs_quiet, does_ret; apply _
  | |- does logs (match ?x with _ => _ end) => destruct x
  | |- does logs (_ ≫= _) => apply logs_after; [solve [does]|intros ?]
  end.

Lemma logs_get hide d k : does logs (getCommand hide d k).
Proof. unfold getCommand. apply logs_quiet. does. Qed.

Lemma logs_ttl hide d k ms : does logs (ttlGenericCommand hide d k ms).
Proof. unfold ttlGenericCommand. apply logs_quiet. does. Qed.

Lemma logs_dbsize d : does logs (dbsizeCommand d).
Proof. unfold dbsizeCommand. apply logs_quiet. does. Qed.

Lemma logs_exists d ks : does logs (existsCommand d ks).
Proof.
  apply logs_quiet, does_bind; [apply _| |intros ?; does]. generalize 0. induction ks as [|k ks IH]; intros n; cbn [exists_loop]; [does|].
  unfold dbExists. does; apply IH.
Qed.

Lemma logs_set d k v nx xx e : does logs (setGenericCommand d k v nx xx e).
Proof.
  unfold setGenericCommand. destruct (match e with Some _ => _ | None => _ end) as [ms|]; [|by repeat logs_step].
  apply logs_after; [destruct nx; does|intros o1]. destruct (nx && _); [by repeat logs_step|].
  apply logs_after; [destruct xx; does|intros o2]. destruct (xx && _); [by repeat logs_step|].
  unfold setKey. apply does_assoc, logs_after; [does|intros o]. apply logs_counted.
  apply counted_after; [does|intros []]. apply counted_now; [lia|]. intros []. does.
Qed.

Lemma setbit_dirty o a1 a2 o' n r : setbitCommand o a1 a2 = Some (Res o' n (RInt r)) -> n = 1.
Proof.
  unfold setbitCommand, fails. destruct (getBitOffsetFromArgument a1 false 0); [|done]. destruct (getLongFromArg a2); [|done].
  destruct (negb _); [done|]. destruct (lookupStringForBitCommand o z) as [[s|e]|]; cbn [mbind option_bind]; [|done|done].
  destruct (rd1 s _); cbn [mbind option_bind]; [|done]. destruct (wr s _ _); cbn [mbind option_bind]; [|done]. by intros [= _ <- _].
Qed.

Lemma logs_setbit d k a1 a2 : does logs (setbitKey d k a1 a2).
Proof.
  unfold setbitKey. assert (does logs (assert_ false ;; mret ROk)) as Hf by (by intros ? ? ? (?&?&?&?)%bind_inv).
  assert (does logs (o ← lookupKeyWrite d k;
    match setbitCommand o a1 a2 with
    | None => assert_ false ;; mret ROk
    | Some (Res (Some v) n (RInt b)) =>
      (match o with None => dbAdd d k v | Some _ => dbOverwrite d k v end) ;;
      signalModifiedKey d k ;; addDirty n ;; mret (RBit (RInt b))
    | Some (Res _ _ r) => mret (RBit r)
    end)) as Hl.
  { apply logs_after; [does|]. intros o. destruct (setbitCommand o a1 a2) as [[o' n r]|] eqn:E; [|done].
    destruct o' as [v|]; [|by repeat logs_step]. destruct r; try (by repeat logs_step). apply setbit_dirty in E as ->.
    apply logs_counted. apply counted_after; [destruct o; does|intros []]. apply counted_after; [does|intros []].
    apply counted_now; [lia|]. intros []. does. }
  destruct (setbitCommand None a1 a2) as [[? ? []]|]; try done. by repeat logs_step.
Qed.

Lemma logs_rename d k1 k2 nx : does logs (renameGenericCommand d k1 k2 nx).
Proof.
  unfold renameGenericCommand. apply logs_after; [does|intros [o|]]; [|by repeat logs_step]. case_bool_decide; [by repeat logs_step|].
  apply logs_after; [does|intros w]. apply logs_after; [does|intros o2]. destruct (_ && nx); [by repeat logs_step|]. apply logs_counted.
  do 6 (apply counted_after; [does|intros ?]). apply counted_now; [lia|]. intros []. does.
Qed.

Lemma logs_expire c d k a rel u : does logs (expireGenericCommand c d k a rel u).
Proof.
  unfold expireGenericCommand. apply logs_after; [does|intros s]. destruct (getLongLongFromArg a); [|by repeat logs_step]. cbv zeta.
  apply logs_after; [does|intros o]. case_bool_decide; [by repeat logs_step|]. apply logs_counted. destruct (_ && _ && _).
  - do 2 (apply counted_after; [does|intros ?]). apply counted_now; [lia|]. intros []. does.
  - do 2 (apply counted_after; [does|intros ?]). apply counted_now; [lia|]. intros []. does.
Qed.

(** *** Changes outside the data *)

Lemma quiet_same_dbs s s' : dbs s' = dbs s -> now s' = now s -> feed s' = feed s -> srv_dirty s' = srv_dirty s -> quiet s s'.
Proof.
  intros Ed En Ef Er _. split; [|split; [done|by apply expires_logged_none]]. apply expired_only_same; [done|by rewrite Ed|].
  intros d k _. unfold val, deadline. by rewrite Ed.
Qed.

Lemma quiet_putClient c cl : does quiet (putClient c cl).
Proof. intros s s' a [= <- _]. by apply quiet_same_dbs. Qed.

Lemma quiet_flush n : does quiet (signalFlushedDb n).
Proof. intros s s' a [= <- _]. by apply quiet_same_dbs. Qed.
#[export] Hint Resolve quiet_putClient quiet_flush : does.

Lemma quiet_signal d k : does quiet (signalModifiedKey d k).
Proof. unfold signalModifiedKey, touchWatchedKey, mark_dirty_cas. does. Qed.

Lemma quiet_selectDb c id : does quiet (selectDb c id).
Proof. unfold selectDb. does. Qed.
#[export] Hint Resolve quiet_signal quiet_selectDb : does.

Lemma quiet_select c a : does quiet (selectCommand c a).
Proof. unfold selectCommand. does. Qed.

Lemma quiet_auth c p : does quiet (authCommand c p).
Proof. unfold authCommand. does. Qed.

Lemma quiet_ping c args : does quiet (pingCommand c args).
Proof. unfold pingCommand. does. Qed.

(** The table of watchers is not data. *)
Lemma quiet_watched s d db w : dbs s !! Z.to_nat d = Some db ->
  quiet s (with_dbs s (<[Z.to_nat d := RedisDb (dict db) (expires db) w]> (dbs s))).
Proof.
  intros E _. split; [|split; [done|by apply expires_logged_none]]. apply expired_only_same; [done|cbn; by rewrite length_insert|].
  intros d' k' _. unfold val, deadline. cbn [dbs with_dbs]. destruct (decide (Z.to_nat d' = Z.to_nat d)) as [->|].
  - rewrite list_lookup_insert_eq by (by eapply lookup_lt_Some). by rewrite E.
  - by rewrite list_lookup_insert_ne.
Qed.

Lemma quiet_unwatchKey c wk : does quiet (unwatchKey c wk).
Proof.
  intros s s' [] (s1&db&(->&E&_)%getDb_inv&H)%bind_inv. destruct (watched_keys db !! wk.2) as [l|]; [|done].
  destruct (list_del c l) as [l'|]; [|done]. injection H as <-. by apply quiet_watched.
Qed.
#[export] Hint Resolve quiet_unwatchKey : does.

Lemma quiet_unwatch c : does quiet (unwatchCommand c).
Proof. unfold unwatchCommand, unwatchAllKeys. does. Qed.

(** *** DEL and UNLINK *)

(** Deadlines only go away. *)
Definition trims (s s' : server) : Prop := dl_ok s -> dl_ok s' /\ dl_sub s s' /\ srv_dirty s <= srv_dirty s' /\ expires_logged s s'.

#[export] Instance trims_preorder : PreOrder trims.
Proof.
  split; [intros s H; split; [done|]; split; [by split|]; split; [done|by apply expires_logged_none]|]. intros a b c H1 H2 Ha.
  destruct (H1 Ha) as (O1&S1&D1&F1). destruct (H2 O1) as (O2&S2&D2&F2). split; [done|]. split; [by eapply dl_sub_trans|].
  split; [lia|by eapply expires_logged_trans].
Qed.

Lemma quiet_trims {A} (m : M A) : does quiet m -> does trims m.
Proof.
  apply does_mono. intros s s' H Hs. destruct (H Hs) as (E&D&F). split; [by eapply expired_only_dl|]. split; [by apply expired_only_sub|].
  split; [lia|done].
Qed.

Lemma trims_delete d k : does trims (dbSyncDelete d k).
Proof.
  intros s s' b (Hd&->&_)%delete_inv Hs. destruct (upd_other d k None None s) as (_&Ef&En&_&_&_&Er&El).
  assert (forall d', valid (upd d k None None s) d' <-> valid s d') as Hv by (unfold valid; by rewrite El).
  split; [|split; [|split; [lia|by apply expires_logged_none]]].
  - intros d' k' Hd'%Hv. destruct (upd_lookup d k None None s d' k' Hd Hd') as (->&->&_). case_bool_decide; [by intros []|auto].
  - split; [done|]. split; [done|]. intros d' k' w Hd'. destruct (upd_lookup d k None None s d' k' Hd Hd') as (_&->&_).
    by case_bool_decide.
Qed.

Lemma trims_addDirty n : 0 <= n -> does trims (addDirty n).
Proof. intros Hn s s' a [= <- _] Hs. split; [done|]. split; [by split|]. split; [cbn; lia|by apply expires_logged_none]. Qed.

Lemma trims_del lazy d ks : forall n, does trims (del_loop lazy d ks n).
Proof.
  induction ks as [|k ks IH]; intros n; cbn [del_loop]; [apply does_ret; apply _|].
  apply does_bind; [apply _|apply quiet_trims; does|intros _]. apply does_bind; [apply _|destruct lazy; apply trims_delete|intros []]; [|apply IH].
  apply does_bind; [apply _|apply quiet_trims; does|intros _]. apply does_bind; [apply _|by apply trims_addDirty|intros _]. apply IH.
Qed.

(** Nothing was there to delete. *)
Lemma quiet_delete d k s s' : dbSyncDelete d k s = Some (s', false) -> quiet s s'.
Proof.
  intros (Hd&->&Hb%eq_sym%bool_decide_eq_false)%delete_inv Hs. destruct (upd_other d k None None s) as (_&Ef&En&_&_&_&Er&El).
  split; [|split; [done|by apply expires_logged_none]]. apply expired_only_same; [done|done|]. intros d' k' Hd'.
  destruct (upd_lookup d k None None s d' k' Hd Hd') as (->&->&_). case_bool_decide as He; [|done]. destruct He as [-> ->].
  assert (val s d k = None) as -> by (by apply eq_None_not_Some). split; [done|].
  destruct (deadline s d k) eqn:E; [|done]. destruct Hb. apply Hs; [done|]. rewrite E. eauto.
Qed.

Lemma logs_del lazy d ks : forall n, does logs (del_loop lazy d ks n).
Proof.
  induction ks as [|k ks IH]; intros n; cbn [del_loop]; [by repeat logs_step|]. apply logs_after; [does|intros _].
  intros s s' r (s1&b&E1&E2)%bind_inv. assert (dbSyncDelete d k s = Some (s1, b)) as E by (by destruct lazy). clear E1. destruct b.
  - intros Hs. destruct (trims_delete d k _ _ _ E Hs) as (O1&S1&D1&F1). apply bind_inv in E2 as (s2&?&E2&H).
    apply bind_inv in H as (s3&?&[= <- _]&H). destruct (quiet_signal _ _ _ _ _ E2 O1) as (X2&D2&F2).
    assert (dl_ok s2) as O2 by (by eapply expired_only_dl). set (s3 := with_dirty s2 (srv_dirty s2 + 1)) in *.
    destruct (trims_del _ _ _ _ _ _ _ H O2) as (_&S4&D4&F4). cbn [srv_dirty with_dirty s3] in D4. split; [right; lia|].
    eapply expires_logged_trans; [exact S1|exact F1|]. eapply expires_logged_trans; [by apply expired_only_sub|exact F2|exact F4].
  - pose proof (quiet_delete _ _ _ _ E) as Q. intros Hs. destruct (Q Hs) as (X1&D1&F1).
    assert (dl_ok s1) as O1 by (by eapply expired_only_dl). destruct (IH _ _ _ _ E2 O1) as (H&F).
    rewrite D1 in H. split; [|eapply expires_logged_trans; [by apply expired_only_sub|done|done]].
    destruct H as [[? ?]|?]; [left; split; [by etrans|done]|auto].
Qed.

(** *** PERSIST, MOVE, SWAPDB and FLUSHDB *)

Lemma removeExpire_inv d k s s' b : removeExpire d k s = Some (s', b) ->
  valid s d /\ s' = upd d k (val s d k) None s /\ b = bool_decide (is_Some (deadline s d k)).
Proof.
  intros H. pose proof H as (s1&db&(->&E&V)%getDb_inv&H1)%bind_inv. apply bind_inv in H1 as (s2&[]&H1&_).
  assert (is_Some (val s d k)) as Hv.
  { unfold val. rewrite E. cbn [mbind option_bind]. unfold assert_ in H1. destruct (bool_decide _) eqn:Eb; [|done]. by apply bool_decide_eq_true in Eb. }
  rewrite removeExpire_eq in H by done. by injection H as <- <-.
Qed.

Lemma logs_persist d k : does logs (persistCommand d k).
Proof.
  unfold persistCommand. apply logs_after; [does|intros o]. case_bool_decide; [|by repeat logs_step].
  intros s s' r (s1&b&E1&E2)%bind_inv. destruct b.
  - apply (logs_counted (removeExpire d k ≫= fun _ => addDirty 1 ;; mret (RInteger 1))) with (a := r).
    + apply counted_after; [does|intros _]. apply counted_now; [lia|]. intros []. does.
    + unfold mbind, M_bind. rewrite E1. exact E2.
  - injection E2 as <- _. apply quiet_logs. apply removeExpire_inv in E1 as (Hd&->&Hb%eq_sym%bool_decide_eq_false). intros _.
    destruct (upd_other d k (val s d k) None s) as (_&Ef&En&_&_&_&Er&El).
    split; [|split; [done|by apply expires_logged_none]]. apply expired_only_same; [done|done|]. intros d' k' Hd'.
    destruct (upd_lookup d k (val s d k) None s d' k' Hd Hd') as (->&->&_). case_bool_decide as He; [|done]. destruct He as [-> ->].
    split; [done|]. by apply eq_None_not_Some in Hb.
Qed.

Lemma logs_move c k a : does logs (moveCommand c k a).
Proof.
  unfold moveCommand. apply logs_after; [does|intros cl]. cbv zeta. destruct (getLongLongFromArg a) as [id|]; [|by repeat logs_step].
  destruct (_ || _); [by repeat logs_step|]. apply logs_after; [does|intros ok]. destruct (negb ok); [by repeat logs_step|].
  apply logs_after; [does|intros _]. destruct (_ =? _); [by repeat logs_step|]. apply logs_after; [does|intros [o|]]; [|by repeat logs_step].
  apply logs_after; [does|intros w]. apply logs_after; [does|intros o2]. case_bool_decide; [by repeat logs_step|]. apply logs_counted.
  do 3 (apply counted_after; [does|intros ?]). apply counted_now; [lia|]. intros []. does.
Qed.

Lemma swap_inv id1 id2 s s' b : dbSwapDatabases id1 id2 s = Some (s', b) -> plain s s' /\ (b = false -> s' = s).
Proof.
  intros (s1&x&[= <- <-]&H)%bind_inv. cbv zeta in H. destruct (_ || _ || _ || _); [by injection H as <- <-|].
  destruct (id1 =? id2); [by injection H as <- <-|]. apply bind_inv in H as (s1&db1&(->&_)%getDb_inv&H).
  apply bind_inv in H as (s1&db2&(->&_)%getDb_inv&H). by injection H as <- <-.
Qed.

Lemma logs_swapdb a1 a2 : does logs (swapdbCommand a1 a2).
Proof.
  unfold swapdbCommand. destruct (getLongFromArg a1) as [id1|]; [|by repeat logs_step]. destruct (getLongFromArg a2) as [id2|]; [|by repeat logs_step].
  intros s s' r (s1&b&(P&Hb)%swap_inv&E2)%bind_inv. destruct b; [|injection E2 as <- _; rewrite (Hb eq_refl); by apply quiet_logs].
  injection E2 as <- _. intros _. destruct P as [F D]. split; [right; cbn; lia|by apply expires_logged_none].
Qed.

Lemma removed_none n l j db : removed_count n l = 0 -> l !! j = Some db -> (n =? -1) || (n =? Z.of_nat j) = true -> dict db = ∅.
Proof.
  unfold removed_count. set (f := fun (j : nat) (db : redisDb) => _). intros H E Hn.
  assert (forall m : list Z, Forall (fun x => 0 <= x) m -> foldr Z.add 0 m = 0 -> Forall (fun x => x = 0) m) as Hsum.
  { assert (forall m : list Z, Forall (fun x => 0 <= x) m -> 0 <= foldr Z.add 0 m) as Hpos by (induction 1; cbn [foldr]; lia).
    induction 1 as [|x m Hx Hm IH]; [done|]. cbn [foldr]. specialize (Hpos m Hm). intros Hs. constructor; [lia|apply IH; lia]. }
  assert (f j db = 0) as Hj.
  { apply Hsum in H; [|apply Forall_lookup; intros i x; rewrite list_lookup_imap; destruct (l !! i); [|done]; cbn; intros [= <-]; unfold f; cbv beta; destruct ((n =? -1) || (n =? Z.of_nat i)); lia].
    rewrite Forall_lookup in H. apply (H j). by rewrite list_lookup_imap, E. }
  unfold f in Hj. rewrite Hn in Hj. apply map_size_empty_iff. lia.
Qed.

Lemma logs_flushdb s s' d r : valid s d -> flushdbCommand d s = Some (s', r) -> logs s s'.
Proof.
  intros Hd (s1&[]&[= <-]&H)%bind_inv. apply bind_inv in H as (s2&n&E&H). injection H as <- _. revert E. unfold emptyDb.
  set (s1 := with_clients s _). change (dbs s1) with (dbs s). rewrite (proj2 (Z.ltb_ge d (-1))) by (destruct Hd; lia).
  rewrite Z.geb_leb, (proj2 (Z.leb_gt _ _)) by (destruct Hd; lia). intros [= <- <-]. pose proof (removed_count_nonneg d (dbs s)).
  destruct (decide (removed_count d (dbs s) = 0)) as [Hz|]; [|intros _; split; [right; cbn; lia|by apply expires_logged_none]].
  apply quiet_logs. intros Hs. split; [|split; [cbn; lia|by apply expires_logged_none]].
  apply expired_only_same; [done|cbn; unfold empty_dbs; by rewrite length_imap|]. intros d' k' Hd'.
  destruct (empty_lookup d s1 d' k' Hd') as (Ev&Ew&_). rewrite <-Hz in *. change (val _ d' k') with (val (with_dbs s1 (empty_dbs d (dbs s1))) d' k') at 1.
  change (deadline (with_dirty _ _) d' k') with (deadline (with_dbs s1 (empty_dbs d (dbs s1))) d' k'). rewrite Ev, Ew.
  change (val s1 d' k') with (val s d' k'). change (deadline s1 d' k') with (deadline s d' k'). destruct (flush_hit d d') eqn:Eh; [|done].
  assert (val s d' k' = None) as Hv.
  { destruct (valid_db s d' Hd') as [db E]. unfold val. rewrite E. cbn [mbind option_bind].
    rewrite (removed_none d (dbs s) _ db Hz E); [apply lookup_empty|]. rewrite Z2Nat.id by (destruct Hd'; lia). unfold flush_hit in Eh. by rewrite (Z.eqb_sym d d'). }
  rewrite Hv. split; [done|]. destruct (deadline s d' k') eqn:E; [|done]. destruct (Hs d' k' Hd') as [? ?]; [rewrite E; eauto|congruence].
Qed.

Lemma logs_flushall : does logs flushallCommand.
Proof.
  intros s s' r (s1&[]&[= <-]&H)%bind_inv. apply bind_inv in H as (s2&n&E&H). injection H as <- _. revert E. unfold emptyDb.
  change (-1 <? -1) with false. rewrite Z.geb_leb, (proj2 (Z.leb_gt _ _)) by lia.
  intros [= <- <-]. intros _. split; [right; cbn; pose proof (removed_count_nonneg (-1) (dbs s)); lia|by apply expires_logged_none].
Qed.

(** All commands that can be queued. *)
Lemma proc_logs s s' c cmd r : wf s -> proc_queueable c cmd s = Some (s', r) -> logs s s'.
Proof.
  intros Hwf (s1&cl&E1&E2)%bind_inv. unfold getClient in E1. destruct (clients s !! c) as [x|] eqn:E; [|done]. cbn in E1. injection E1 as <- ->.
  cbv zeta in E2. assert (valid s (cdb cl)) as Hd by apply (wf_clients _ Hwf _ _ E).
  destruct cmd; try done; revert E2.
  - apply logs_get.
  - apply logs_set.
  - apply logs_setbit.
  - intros (s2&n&E2&[= <- _])%bind_inv. by eapply logs_del.
  - intros (s2&n&E2&[= <- _])%bind_inv. by eapply logs_del.
  - apply logs_exists.
  - apply logs_rename.
  - apply logs_move.
  - intros E2. apply quiet_logs. by eapply quiet_select.
  - apply logs_swapdb.
  - by apply logs_flushdb.
  - apply logs_flushall.
  - apply logs_dbsize.
  - apply logs_expire.
  - apply logs_ttl.
  - apply logs_persist.
  - intros E2. apply quiet_logs. by eapply quiet_auth.
  - intros E2. apply quiet_logs. by eapply quiet_ping.
  - intros E2. apply quiet_logs. by eapply quiet_unwatch.
Qed.

(** ** The form in which a command is propagated *)

(** No client's database or arguments change. *)
Definition same_args (s s' : server) : Prop :=
  forall c, (fun cl => (cdb cl, argv cl)) <$> clients s' !! c = (fun cl => (cdb cl, argv cl)) <$> clients s !! c.

#[export] Instance same_args_preorder : PreOrder same_args.
Proof. split; [by intros s c|]. intros s1 s2 s3 H1 H2 c. by rewrite H2. Qed.

Lemma same_clients_args {A} (m : M A) : does same_clients m -> does same_args m.
Proof. apply does_mono. intros s s' E c. by rewrite E. Qed.

Lemma same_args_put s c cl cl' : clients s !! c = Some cl -> cdb cl' = cdb cl -> argv cl' = argv cl ->
  same_args s (with_clients s (<[c := cl']> (clients s))).
Proof.
  intros E Ed Ea x. cbn [clients with_clients]. destruct (decide (x = c)) as [->|]; [|by rewrite lookup_insert_ne].
  rewrite lookup_insert_eq, E. cbn. by rewrite Ed, Ea.
Qed.

Lemma getClient_inv c s s' cl : getClient c s = Some (s', cl) -> s' = s /\ clients s !! c = Some cl.
Proof. unfold getClient. destruct (clients s !! c); [|done]. cbn. by intros [= <- <-]. Qed.

(** A client read, changed and written back. *)
Lemma same_args_modify {A} c (f : client -> client) (m : M A) : (forall cl, cdb (f cl) = cdb cl /\ argv (f cl) = argv cl) ->
  does same_args m -> does same_args (cl ← getClient c; putClient c (f cl) ;; m).
Proof.
  intros Hf Hm s s' a (s1&cl&(->&E)%getClient_inv&(s2&[]&[= <-]&H)%bind_inv)%bind_inv.
  transitivity (with_clients s (<[c := f cl]> (clients s))); [eapply same_args_put; [exact E|apply Hf..]|by eapply Hm].
Qed.

Lemma same_args_modify_last c (f : client -> client) : (forall cl, cdb (f cl) = cdb cl /\ argv (f cl) = argv cl) ->
  does same_args (cl ← getClient c; putClient c (f cl)).
Proof. intros Hf s s' a (s1&cl&(->&E)%getClient_inv&[= <-])%bind_inv. eapply same_args_put; [exact E|apply Hf..]. Qed.

Lemma same_args_signal d k : does same_args (signalModifiedKey d k).
Proof.
  unfold signalModifiedKey, touchWatchedKey. apply does_bind; [apply _|apply does_read; [apply _|does]|intros db].
  destruct (watched_keys db !! k); [|does]. apply does_iter; [apply _|]. intros c. by apply same_args_modify_last.
Qed.

Lemma same_args_flush n : does same_args (signalFlushedDb n).
Proof.
  intros s s' a [= <- _] c. cbn [clients with_clients]. rewrite lookup_fmap. destruct (clients s !! c) as [cl|]; [|done]. cbn.
  by destruct (existsb _ _).
Qed.
#[export] Hint Resolve same_args_signal same_args_flush : does.
#[export] Hint Extern 5 (does same_args _) => apply same_clients_args; solve [auto with does nocore] : does.

Lemma same_clients_unwatchKey c wk : does same_clients (unwatchKey c wk).
Proof. unfold unwatchKey. does. Qed.
#[export] Hint Resolve same_clients_unwatchKey : does.

Lemma same_args_unwatchAll c : does same_args (unwatchAllKeys c).
Proof.
  unfold unwatchAllKeys. apply does_bind; [apply _|does|intros cl]. apply does_bind; [apply _|does|intros _]. by apply same_args_modify_last.
Qed.

Lemma same_args_unwatch c : does same_args (unwatchCommand c).
Proof.
  unfold unwatchCommand. apply does_bind; [apply _|apply same_args_unwatchAll|intros _]. apply same_args_modify; [done|does].
Qed.

Lemma same_args_auth c p : does same_args (authCommand c p).
Proof.
  unfold authCommand. apply does_bind; [apply _|does|intros s0]. destruct (requirepass (conds s0)) as [x|]; [|does].
  destruct (_ =? 0); by apply same_args_modify; [|does].
Qed.

Lemma same_args_emptyDb n : does same_args (emptyDb n).
Proof. intros s s' a. unfold emptyDb. destruct (_ || _); by intros [= <- _]. Qed.

Lemma same_args_swap a b : does same_args (dbSwapDatabases a b).
Proof. apply same_clients_args. unfold dbSwapDatabases. does. Qed.
#[export] Hint Resolve same_args_emptyDb same_args_swap : does.

Lemma same_args_del lazy d ks : forall n, does same_args (del_loop lazy d ks n).
Proof. induction ks as [|k ks IH]; intros n; cbn [del_loop]; does; apply IH. Qed.

Lemma same_args_exists d ks : forall n, does same_args (exists_loop d ks n).
Proof. induction ks as [|k ks IH]; intros n; cbn [exists_loop]; unfold dbExists; does; apply IH. Qed.
#[export] Hint Resolve same_args_del same_args_exists : does.

(** MOVE selects the other database and comes back. *)
Lemma selectDb_inv c id s s' b : selectDb c id s = Some (s', b) -> exists cl, clients s !! c = Some cl /\
  if b then valid s id /\ s' = with_clients s (<[c := with_cdb cl id]> (clients s)) else s' = s /\ ~ valid s id.
Proof.
  intros (s1&cl&(->&E)%getClient_inv&(s2&x&[= <- <-]&H)%bind_inv)%bind_inv. exists cl. split; [done|]. revert H.
  rewrite Z.geb_leb. unfold valid. destruct (Z.ltb_spec id 0); [intros [= <- <-]; split; [done|lia]|].
  destruct (Z.leb_spec (Z.of_nat (length (dbs s))) id); [intros [= <- <-]; split; [done|lia]|]. by intros [= <- <-].
Qed.

Lemma move_clients c k a s s' r : wf s -> moveCommand c k a s = Some (s', r) -> clients s' = clients s.
Proof.
  intros Hwf (s1&cl&(->&E)%getClient_inv&H)%bind_inv. cbv zeta in H. destruct (getLongLongFromArg a) as [id|]; [|by injection H as <-].
  destruct (_ || _); [by injection H as <-|]. apply bind_inv in H as (s1&b&(cl1&E1&H1)%selectDb_inv&H).
  assert (cl1 = cl) as -> by congruence. destruct b; [|destruct H1 as [-> _]; by injection H as <-]. destruct H1 as [Hid ->]. cbn [negb] in H.
  apply bind_inv in H as (s2&b&(cl2&E2&H2)%selectDb_inv&H). cbn [clients with_clients] in E2. rewrite lookup_insert_eq in E2. injection E2 as <-.
  destruct b; [|destruct H2 as [_ H2]; destruct H2; apply (wf_clients _ Hwf _ _ E)]. destruct H2 as [_ H2].
  assert (clients s2 = clients s) as <-.
  { subst s2. cbn [clients with_clients]. rewrite insert_insert_eq. apply insert_id. rewrite E. by destruct cl. }
  revert H. apply (does_if same_clients); does.
Qed.

(** The key stays absent. *)
Definition absent (d : Z) (k : key) (s s' : server) : Prop := val s d k = None -> val s' d k = None.

#[export] Instance absent_preorder d k : PreOrder (absent d k).
Proof. unfold absent. split; [by intros s H|intros s1 s2 s3 H1 H2 H; auto]. Qed.

Lemma quiet_absent {A} d k (m : M A) s s' a : does quiet m -> dl_ok s -> valid s d -> m s = Some (s', a) -> absent d k s s'.
Proof. intros Hm Hs Hd E Hv. destruct (Hm _ _ _ E Hs) as (X&_). destruct (eo_keys _ _ X d k Hd) as [[-> _]|[-> _]]; done. Qed.

(** EXPIRE with a time in the past deletes the key and is propagated as the deletion. *)
Lemma expire_args c cl d k a rel u s s' r : dl_ok s -> clients s !! c = Some cl -> expireGenericCommand c d k a rel u s = Some (s', r) ->
  exists cl', clients s' !! c = Some cl' /\ cdb cl' = cdb cl /\
    (argv cl' = argv cl \/ (argv cl' = CDel [k] \/ argv cl' = CUnlink [k]) /\ val s' d k = None).
Proof.
  intros Hs E (s0&x&[= <- <-]&H)%bind_inv. assert (forall y, (mret y : M kreply) s = Some (s', r) -> exists cl', clients s' !! c = Some cl' /\ cdb cl' = cdb cl /\
    (argv cl' = argv cl \/ (argv cl' = CDel [k] \/ argv cl' = CUnlink [k]) /\ val s' d k = None)) as Hret.
  { intros y [= <- _]. eauto. }
  assert (forall s1, same_args s s1 -> exists cl', clients s1 !! c = Some cl' /\ cdb cl' = cdb cl /\ argv cl' = argv cl) as Hargs.
  { intros s1 Ha. specialize (Ha c). rewrite E in Ha. destruct (clients s1 !! c) as [cl'|]; [|done]. injection Ha as ? ?. eauto. }
  destruct (getLongLongFromArg a) as [w|]; [|by eapply Hret]. cbv zeta in H. apply bind_inv in H as (s1&o&E1&H).
  pose proof (same_clients_lookupWrite _ _ _ _ _ E1) as C1. destruct (quiet_lookupWrite _ _ _ _ _ E1 Hs) as (X1&_).
  assert (dl_ok s1) as Hs1 by (by eapply expired_only_dl).
  destruct (bool_decide (o = None)); [injection H as <- _; exists cl; rewrite C1; auto|]. destruct (_ && _ && _).
  - apply bind_inv in H as (s2&b&E2&H). assert (dbSyncDelete d k s1 = Some (s2, b)) as E2' by (by destruct (lazyfree_lazy_expire s)). clear E2.
    pose proof (same_clients_delete _ _ _ _ _ E2') as C2. destruct (trims_delete _ _ _ _ _ E2' Hs1) as (Hs2&_). apply delete_inv in E2' as (Hd&Es2&_).
    assert (val s2 d k = None) as V2 by (subst s2; destruct (upd_lookup d k None None s1 d k Hd Hd) as (->&_&_); by rewrite bool_decide_true).
    assert (valid s2 d) as Hd2 by (subst s2; by apply upd_valid). clear Es2.
    apply bind_inv in H as (s3&[]&Ea&H). rewrite (reads_assert _ _ _ _ Ea) in *. clear Ea s2. apply bind_inv in H as (s4&[]&[= <-]&H).
    apply bind_inv in H as (s5&[]&E5&H). apply bind_inv in E5 as (s6&cl6&(->&E6)%getClient_inv&[= <-]). cbn [clients with_dirty] in *.
    apply bind_inv in H as (s7&[]&E7&[= <- _]). assert (cl6 = cl) as -> by (rewrite C2, C1 in E6; congruence).
    pose proof (same_args_signal _ _ _ _ _ E7 c) as A7. cbn [clients with_clients] in A7. rewrite lookup_insert_eq in A7.
    destruct (clients s7 !! c) as [cl7|]; [|done]. injection A7 as A7 A7'. exists cl7. split; [done|]. split; [done|]. right.
    split; [rewrite A7'; cbn; destruct (lazyfree_lazy_expire s); auto|]. by eapply (quiet_absent d k _ _ _ _ (quiet_signal d k)); [..|exact E7|].
  - assert (same_args s1 s') as A2.
    { revert H. apply (does_bind same_args); [does|intros _]. does. }
    destruct (Hargs s') as (cl'&?&?&?); [|eauto 6]. intros x. by rewrite A2, C1.
Qed.

(** What the entry of a command that changed the data says. *)
Definition propagated (d : Z) (cmd form : command) (s1 : server) : Prop :=
  form = cmd \/ exists k w rel u, cmd = CExpire k w rel u /\ (form = CDel [k] \/ form = CUnlink [k]) /\ val s1 d k = None.

Lemma wf_dl_ok s : wf s -> dl_ok s.
Proof. intros Hwf d k. apply Hwf. Qed.

(** A command whose program stays within a relation. *)
Ltac by_does R :=
  match goal with |- ?m ?s = Some (?s', ?r) -> _ => let H := fresh in enough (does R m) as H by (apply H) end; does.

Lemma proc_same_args s s' c cmd r : wf s -> (forall a, cmd <> CSelect a) -> (forall k w rel u, cmd <> CExpire k w rel u) ->
  proc_queueable c cmd s = Some (s', r) -> same_args s s'.
Proof.
  intros Hwf Hsel Hexp (s1&cl&(->&E)%getClient_inv&H)%bind_inv. cbv zeta in H. revert H. destruct cmd; try done.
  - unfold getCommand. by_does same_args.
  - unfold setGenericCommand, setKey. by_does same_args.
  - unfold setbitKey. by_does same_args.
  - unfold delGenericCommand. by_does same_args.
  - unfold delGenericCommand. by_does same_args.
  - unfold existsCommand. by_does same_args.
  - unfold renameGenericCommand. by_does same_args.
  - intros H x. by rewrite (move_clients _ _ _ _ _ _ Hwf H).
  - by destruct (Hsel db).
  - unfold swapdbCommand. by_does same_args.
  - unfold flushdbCommand. by_does same_args.
  - unfold flushallCommand. by_does same_args.
  - unfold dbsizeCommand. by_does same_args.
  - by destruct (Hexp k when relative unit).
  - unfold ttlGenericCommand. by_does same_args.
  - unfold persistCommand. by_does same_args.
  - apply same_args_auth.
  - unfold pingCommand. by_does same_args.
  - apply same_args_unwatch.
Qed.

Lemma proc_propagated s s' c cl cmd r : wf s -> clients s !! c = Some cl -> argv cl = cmd -> proc_queueable c cmd s = Some (s', r) ->
  srv_dirty s < srv_dirty s' -> exists cl', clients s' !! c = Some cl' /\ cdb cl' = cdb cl /\ propagated (cdb cl) cmd (argv cl') s'.
Proof.
  intros Hwf E Ea H Hd. assert ((exists a, cmd = CSelect a) \/ (exists k w rel u, cmd = CExpire k w rel u) \/
    (forall a, cmd <> CSelect a) /\ (forall k w rel u, cmd <> CExpire k w rel u)) as [[a ->]|[(k&w&rel&u&->)|[H1 H2]]].
  { destruct cmd; (left; eexists; reflexivity) || (right; left; repeat eexists; reflexivity) || (right; right; by split). }
  - apply bind_inv in H as (s1&x&(->&_)%getClient_inv&H). cbv zeta in H. destruct (quiet_select _ _ _ _ _ H (wf_dl_ok _ Hwf)) as (_&?&_). lia.
  - apply bind_inv in H as (s1&x&(->&Ex)%getClient_inv&H). assert (x = cl) as -> by congruence. cbv zeta in H.
    destruct (expire_args _ _ _ _ _ _ _ _ _ _ (wf_dl_ok _ Hwf) E H) as (cl'&E'&Hc&[Ha|[Ha Hv]]); exists cl'; (split; [done|]; split; [done|]).
    + left. congruence.
    + right. repeat eexists; eauto.
  - pose proof (proc_same_args _ _ _ _ _ Hwf H1 H2 H c) as A. rewrite E in A. destruct (clients s' !! c) as [cl'|]; [|done].
    injection A as ? ?. exists cl'. split; [done|]. split; [done|]. left. congruence.
Qed.
