(* ===== verification/Watch.v ===== *)
(** * Optimistic locking

    The invariant is kept by every event, and no assertion fails. While a client watches a
    key, a change of the key flags the client, so a transaction that EXEC runs saw the
    watched keys as they were when they were watched. *)

From stdpp Require Import gmap.
From S2P Require Import Prelude Util Bitops Keyspace Multi KeyspaceInv KeyspaceCmd CommandLog.

(** ** The table of watchers *)

(** The watched keys of the clients, those of [c] replaced by [R]. *)
Definition wl_but (c : Z) (R : list (Z * key)) (s : server) (c' : Z) : list (Z * key) := if decide (c' = c) then R else wl s c'.

(** The entry for one key. *)
Definition entry_ok (w : option (list Z)) (P : Z -> Prop) : Prop :=
  match w with Some l => l <> [] /\ NoDup l /\ forall c, c ∈ l <-> P c | None => forall c, ~ P c end.

(** The invariant while the keys of [c] are being changed. *)
Record wf_but (c : Z) (R : list (Z * key)) (s : server) : Prop := {
  wb_zero : valid s 0;
  wb_deadline : forall d k, valid s d -> is_Some (deadline s d k) -> is_Some (val s d k);
  wb_val : forall d k, valid s d -> vals_ok (val s d k);
  wb_watchers : forall d k, valid s d -> entry_ok (watchers s d k) (fun c' => (d, k) ∈ wl_but c R s c');
  wb_clients : forall c' cl, clients s !! c' = Some cl -> client_wf s cl
}.

Lemma entry_ok_proper w P P' : (forall c, P c <-> P' c) -> entry_ok w P -> entry_ok w P'.
Proof. intros H. destruct w as [l|]; cbn; [|intros HP c; rewrite <-H; auto]. intros (?&?&W). split; [done|]. split; [done|]. intros c. by rewrite W, H. Qed.

Lemma wl_but_same s c c' : wl_but c (wl s c) s c' = wl s c'.
Proof. unfold wl_but. by case_decide; subst. Qed.

Lemma wf_but_wf s c : wf s <-> wf_but c (wl s c) s.
Proof.
  split; intros [Z0 A B C D]; constructor; try done; intros d k Hd; specialize (C d k Hd).
  - eapply entry_ok_proper; [|exact C]. intros c'. by rewrite wl_but_same.
  - eapply (entry_ok_proper _ _ (fun c' => (d, k) ∈ wl s c')) in C; [exact C|]. intros c'. by rewrite wl_but_same.
Qed.

Definition setw (d : Z) (k : key) (w : option (list Z)) (s : server) : server :=
  match dbs s !! Z.to_nat d with
  | Some db => with_dbs s (<[Z.to_nat d := RedisDb (dict db) (expires db) (partial_alter (fun _ => w) k (watched_keys db))]> (dbs s))
  | None => s
  end.

(** States that differ in the watched keys, the clients and the commands propagated. *)
Record same_data (s s' : server) : Prop := {
  sd_now : now s' = now s;
  sd_conds : conds s' = conds s;
  sd_masterhost : masterhost s' = masterhost s;
  sd_loading : loading s' = loading s;
  sd_len : length (dbs s') = length (dbs s);
  sd_val : forall d k, valid s d -> val s' d k = val s d k;
  sd_deadline : forall d k, valid s d -> deadline s' d k = deadline s d k
}.

#[export] Instance same_data_refl : Reflexive same_data.
Proof. by constructor. Qed.

#[export] Instance same_data_trans : Transitive same_data.
Proof.
  intros a b c [N1 C1 M1 O1 L1 V1 D1] [N2 C2 M2 O2 L2 V2 D2].
  assert (forall d, valid a d -> valid b d) as Hv by (unfold valid; by rewrite L1).
  constructor; [congruence..| |]; intros d k Hd; [rewrite V2 by auto; auto|rewrite D2 by auto; auto].
Qed.

Lemma same_data_valid s s' d : same_data s s' -> valid s' d <-> valid s d.
Proof. intros H. unfold valid. by rewrite (sd_len _ _ H). Qed.

Lemma setw_lookup d k w s d' k' : valid s d -> valid s d' ->
  watchers (setw d k w s) d' k' = (if bool_decide (d' = d /\ k' = k) then w else watchers s d' k').
Proof.
  intros Hd Hd'. destruct (valid_db s d Hd) as [db E]. destruct (valid_db s d' Hd') as [db' E'].
  unfold watchers, setw. rewrite E. cbn [dbs with_dbs]. unfold valid in *.
  destruct (decide (d' = d)) as [->|Hne].
  - rewrite list_lookup_insert_eq by lia. rewrite E. cbn [mbind option_bind watched_keys].
    destruct (decide (k' = k)) as [->|]; [by rewrite lookup_partial_alter_eq, bool_decide_true|].
    rewrite lookup_partial_alter_ne by done. by rewrite bool_decide_false by tauto.
  - rewrite list_lookup_insert_ne by lia. by rewrite bool_decide_false by tauto.
Qed.

Lemma setw_other d k w s : clients (setw d k w s) = clients s /\ feed (setw d k w s) = feed s /\ srv_dirty (setw d k w s) = srv_dirty s.
Proof. unfold setw. by destruct (dbs s !! Z.to_nat d). Qed.

Lemma setw_data d k w s : same_data s (setw d k w s).
Proof.
  unfold setw. destruct (dbs s !! Z.to_nat d) as [db|] eqn:E; [|done].
  constructor; [done|done|done|done|cbn; by rewrite length_insert|..]; intros d' k' Hd'; unfold val, deadline; cbn [dbs with_dbs];
    (destruct (decide (Z.to_nat d' = Z.to_nat d)) as [->|];
     [rewrite list_lookup_insert_eq by (by eapply lookup_lt_Some); by rewrite E|by rewrite list_lookup_insert_ne by done]).
Qed.

Lemma client_wf_len s s' cl : length (dbs s') = length (dbs s) -> client_wf s cl -> client_wf s' cl.
Proof. intros E [A B C D]. unfold valid in *. constructor; try done; unfold valid; by rewrite E. Qed.

Lemma setw_wf_but c R R' d k w s : wf_but c R s -> valid s d ->
  entry_ok w (fun c' => (d, k) ∈ wl_but c R' s c') ->
  (forall d' k', ~ (d' = d /\ k' = k) -> (d', k') ∈ R' <-> (d', k') ∈ R) ->
  wf_but c R' (setw d k w s).
Proof.
  intros [Z0 A B C D] Hd Hw HR. pose proof (setw_data d k w s) as SD. destruct (setw_other d k w s) as (Ec&_).
  constructor.
  - by apply (same_data_valid _ _ _ SD).
  - intros d' k' Hd'%(same_data_valid _ _ _ SD). rewrite (sd_val _ _ SD), (sd_deadline _ _ SD) by done. auto.
  - intros d' k' Hd'%(same_data_valid _ _ _ SD). rewrite (sd_val _ _ SD) by done. auto.
  - intros d' k' Hd'%(same_data_valid _ _ _ SD). rewrite setw_lookup by done.
    assert (forall c' R'', wl_but c R'' (setw d k w s) c' = wl_but c R'' s c') as Ewl by (intros; unfold wl_but, wl; by rewrite Ec).
    case_bool_decide as Heq.
    + destruct Heq as [-> ->]. eapply entry_ok_proper; [|exact Hw]. intros c'. by rewrite Ewl.
    + eapply entry_ok_proper; [|by apply C]. intros c'. cbv beta. rewrite Ewl. unfold wl_but. case_decide; [|done]. by rewrite HR.
  - intros c' cl. rewrite Ec. intros E. eapply client_wf_len; [apply SD|eauto].
Qed.

(** The client record completes the change. *)
Lemma wf_but_put c R s cl' : wf_but c R s -> watched cl' = R -> client_wf s cl' -> wf (with_clients s (<[c := cl']> (clients s))).
Proof.
  intros [Z0 A B C D] ER Hcl. set (s' := with_clients s _).
  assert (forall c', wl s' c' = wl_but c R s c') as Ewl.
  { intros c'. unfold wl_but, wl, s'. cbn [clients with_clients]. case_decide as Heq; [subst c'; by rewrite lookup_insert_eq|].
    by rewrite lookup_insert_ne. }
  constructor; [done|done|done| |].
  - intros d k Hd. specialize (C d k Hd). eapply (entry_ok_proper _ _ (fun c' => (d, k) ∈ wl s' c')) in C; [exact C|].
    intros c'. by rewrite Ewl.
  - intros c' cl. unfold s'. cbn [clients with_clients]. destruct (decide (c' = c)) as [->|].
    + rewrite lookup_insert_eq. intros [= <-]. by eapply client_wf_len; [|exact Hcl].
    + rewrite lookup_insert_ne by done. intros E. eapply client_wf_len; [|eauto]. done.
Qed.

Lemma put_wf s c cl cl' : wf s -> clients s !! c = Some cl -> watched cl' = watched cl -> client_wf s cl' ->
  wf (with_clients s (<[c := cl']> (clients s))).
Proof. intros Hwf E Ew Hcl. apply (wf_but_put c (wl s c)); [by apply wf_but_wf|unfold wl; by rewrite E|done]. Qed.

(** ** Watching and unwatching *)

Lemma list_del_spec c l : NoDup l -> c ∈ l -> exists l', list_del c l = Some l' /\ NoDup l' /\ forall x, x ∈ l' <-> x ∈ l /\ x <> c.
Proof.
  induction l as [|y l IH]; intros Hnd Hin; [by apply not_elem_of_nil in Hin|]. apply NoDup_cons in Hnd as [Hy Hnd]. cbn.
  destruct (Z.eqb_spec y c) as [->|Hne].
  - exists l. split; [done|]. split; [done|]. intros x. rewrite elem_of_cons. split; [intros Hx|intros [[->|?] ?]; done].
    split; [auto|]. by intros ->.
  - apply elem_of_cons in Hin as [<-|Hin]; [done|]. destruct (IH Hnd Hin) as (l'&->&Hnd'&Hl'). exists (y :: l'). split; [done|].
    split; [apply NoDup_cons; split; [|done]; rewrite Hl'; tauto|]. intros x. rewrite !elem_of_cons, Hl'.
    destruct (decide (x = y)) as [->|]; tauto.
Qed.

(** Everything but the table of watchers is as it was. *)
Definition only_watchers (s s' : server) : Prop :=
  same_data s s' /\ clients s' = clients s /\ feed s' = feed s /\ srv_dirty s' = srv_dirty s.

Lemma only_watchers_trans a b c : only_watchers a b -> only_watchers b c -> only_watchers a c.
Proof. intros (?&E1&E2&E3) (?&E4&E5&E6). split; [by etrans|]. by rewrite E4, E5, E6. Qed.

Lemma setw_only d k w s : only_watchers s (setw d k w s).
Proof. destruct (setw_other d k w s) as (?&?&?). split; [apply setw_data|done]. Qed.

Lemma unwatchKey_wp c d k R s : wf_but c ((d, k) :: R) s -> valid s d -> (d, k) ∉ R ->
  wp (unwatchKey c (d, k)) (fun _ s' => wf_but c R s' /\ only_watchers s s') s.
Proof.
  intros Hwf Hd Hnd. destruct (valid_db s d Hd) as [db E]. pose proof (wb_watchers _ _ _ Hwf d k Hd) as W. unfold watchers in W.
  rewrite E in W. cbn [mbind option_bind] in W. eapply wp_step; [by apply getDb_eq|]. cbn [fst snd].
  assert ((d, k) ∈ wl_but c ((d, k) :: R) s c) as Hc by (unfold wl_but; rewrite decide_True by done; left).
  destruct (watched_keys db !! k) as [l|]; [|by destruct (W c)]. destruct W as (_&Hl&W).
  destruct (list_del_spec c l Hl) as (l'&->&Hl'&Hin); [by apply W|].
  set (w := if bool_decide (l' = []) then None else Some l').
  apply (wp_exec _ _ _ (setw d k w s) ()).
  { unfold putDb, setw, w. rewrite E. by case_bool_decide. }
  split; [|apply setw_only]. eapply setw_wf_but; [exact Hwf|done| |].
  - assert (forall c', c' ∈ l' <-> (d, k) ∈ wl_but c R s c') as Hl2.
    { intros c'. rewrite Hin, W. unfold wl_but. case_decide; [|tauto]. subst c'. tauto. }
    unfold w. case_bool_decide as He; cbn [entry_ok]; [|auto]. intros c'. rewrite <-Hl2, He. apply not_elem_of_nil.
  - intros d' k' Hne. rewrite elem_of_cons. split; [auto|]. intros [[=]|?]; [tauto|done].
Qed.

Lemma unwatch_loop_wp c R : forall s, wf_but c R s -> NoDup R -> (forall d k, (d, k) ∈ R -> valid s d) ->
  wp (iterM (unwatchKey c) R) (fun _ s' => wf_but c [] s' /\ only_watchers s s') s.
Proof.
  induction R as [|[d k] R IH]; intros s Hwf Hnd Hv; cbn [iterM]; [by apply wp_ret|]. apply NoDup_cons in Hnd as [Hn Hnd].
  eapply wp_seq; [apply unwatchKey_wp; [done|apply (Hv d k); left|done]|]. intros _ s1 (W1&O1).
  eapply wp_mono; [apply IH; [done|done|]|].
  - intros d' k' Hin. apply (same_data_valid s); [apply O1|]. apply (Hv d' k'). by right.
  - intros _ s2 (W2&O2). split; [done|]. by eapply only_watchers_trans.
Qed.

(** The effect on a client and nothing else: what [wp] of the functions on transactions give. *)
Definition only_client (c : Z) (cl' : client) (s s' : server) : Prop :=
  same_data s s' /\ clients s' = <[c := cl']> (clients s) /\ feed s' = feed s /\ srv_dirty s' = srv_dirty s.

Lemma unwatchAll_wp s c cl : wf s -> clients s !! c = Some cl ->
  wp (unwatchAllKeys c) (fun _ s' => wf s' /\ only_client c (with_watched cl []) s s') s.
Proof.
  intros Hwf E. eapply wp_step; [unfold getClient; by rewrite E|]. destruct (wf_clients _ Hwf c cl E) as [A B C D].
  eapply wp_seq; [apply unwatch_loop_wp; [|done|done]|].
  { pose proof (proj1 (wf_but_wf s c) Hwf) as H. unfold wl at 1 in H. by rewrite E in H. }
  intros _ s1 (W1&SD&Ec&Ef&Ed). eapply wp_step; [unfold getClient; by rewrite Ec, E|]. apply (wp_exec _ _ _ (with_clients s1 (<[c := with_watched cl []]> (clients s1))) ()); [done|].
  split; [|split; [by destruct SD|cbn; by rewrite Ec]]. eapply wf_but_put; [exact W1|done|]. constructor; cbn.
  - by apply (same_data_valid s).
  - apply NoDup_nil_2.
  - done.
  - by intros d k ?%not_elem_of_nil.
Qed.

Lemma discard_wp s c cl : wf s -> clients s !! c = Some cl ->
  wp (discardTransaction c) (fun _ s' => wf s' /\ only_client c (with_watched (with_flags (with_mstate cl []) false false false) []) s s') s.
Proof.
  intros Hwf E. eapply wp_step; [unfold getClient; by rewrite E|]. eapply wp_step; [done|]. destruct (wf_clients _ Hwf c cl E) as [A B C D].
  set (cl1 := with_flags _ _ _ _). eapply wp_mono; [eapply (unwatchAll_wp _ c cl1)|].
  - by eapply put_wf; [done|exact E|done|constructor].
  - apply lookup_insert_eq.
  - intros _ s' (W&SD&Ec&Ef&Ed). split; [done|]. split; [by destruct SD|]. split; [|done]. rewrite Ec. cbn [clients with_clients].
    apply insert_insert_eq.
Qed.

Lemma watchForKey_wp s c cl k : wf s -> clients s !! c = Some cl ->
  wp (watchForKey c k) (fun _ s' => wf s' /\ exists W, only_client c (with_watched cl W) s s' /\ incl (watched cl) W /\ (cdb cl, k) ∈ W) s.
Proof.
  intros Hwf E. eapply wp_step; [unfold getClient; by rewrite E|]. destruct (wf_clients _ Hwf c cl E) as [A B C D].
  case_bool_decide as Hin.
  { apply wp_ret. split; [done|]. exists (watched cl). split; [|split; [apply incl_refl|done]]. split; [done|]. split; [|done].
    rewrite insert_id; [done|]. rewrite E. by destruct cl. }
  destruct (valid_db s (cdb cl) A) as [db Edb]. eapply wp_step; [by apply getDb_eq|].
  pose proof (wf_watchers _ Hwf (cdb cl) k A) as W. unfold watchers in W. rewrite Edb in W. cbn [mbind option_bind] in W.
  set (l := default [] (watched_keys db !! k)). set (R := watched cl ++ [(cdb cl, k)]).
  assert (NoDup l /\ forall c', c' ∈ l <-> (cdb cl, k) ∈ wl s c') as [Hl Hlw].
  { unfold l. destruct (watched_keys db !! k); cbn [from_option id]; [tauto|]. split; [apply NoDup_nil_2|]. intros c'.
    split; [by intros ?%not_elem_of_nil|]. by intros ?%W. }
  assert (wl s c = watched cl) as Ewl by (unfold wl; by rewrite E).
  set (s1 := setw (cdb cl) k (Some (l ++ [c])) s).
  assert (wf_but c R s1) as W1.
  { apply (setw_wf_but c (wl s c)); [by apply wf_but_wf|done| |].
    - split; [by destruct l|]. split.
      + apply NoDup_app. split; [done|]. split; [|apply NoDup_singleton]. intros x Hx ->%list_elem_of_singleton. apply Hin.
        rewrite <-Ewl. by apply Hlw.
      + intros c'. rewrite elem_of_app, list_elem_of_singleton, Hlw. unfold wl_but. case_decide as Hc; [|tauto]. subst c'.
        unfold R. rewrite elem_of_app, list_elem_of_singleton. tauto.
    - intros d' k' Hne. unfold R. rewrite Ewl, elem_of_app, list_elem_of_singleton. split; [|auto]. intros [?|[= -> ->]]; tauto. }
  eapply wp_step; [instantiate (1 := ()); instantiate (1 := s1); unfold putDb, s1, setw; by rewrite Edb|].
  destruct (setw_only (cdb cl) k (Some (l ++ [c])) s) as (SD&Ec&Ef&Ed).  fold s1 in SD, Ec, Ef, Ed.
  eapply wp_exec; [done|]. split.
  - eapply wf_but_put; [exact W1|done|]. eapply client_wf_len; [apply SD|]. constructor; [done| |done|].
    + apply NoDup_app. split; [done|]. split; [|apply NoDup_singleton]. by intros x Hx ->%list_elem_of_singleton.
    + intros d' k'. cbn [watched with_watched]. unfold R. rewrite elem_of_app, list_elem_of_singleton. intros [?|[= -> ->]]; eauto.
  - exists R. split; [|split; [apply incl_appl, incl_refl|unfold R; apply elem_of_app; right; by apply list_elem_of_singleton]].
    split; [by destruct SD|]. cbn [clients with_clients feed srv_dirty]. by rewrite Ec.
Qed.

Lemma with_feed_wf s l : wf s -> wf (with_feed s l).
Proof. intros [Z0 A B C D]. constructor; try done. intros c cl E. eapply client_wf_len; [|by eapply D]. done. Qed.

Lemma with_dirty_wf s n : wf s -> wf (with_dirty s n).
Proof. intros [Z0 A B C D]. constructor; try done. intros c cl E. eapply client_wf_len; [|by eapply D]. done. Qed.

(** ** Commands and events *)

(** No queued command changes keys silently. *)
Definition calm (s : server) : Prop := forall c cl, clients s !! c = Some cl -> Forall (fun cmd => silent cmd = false) (mstate cl).

Section safe.
Context (c0 d0 : Z) (k0 : key).
Local Abbreviation ok := (ok c0 d0 k0).
Local Abbreviation watching := (watching c0 d0 k0).
Local Abbreviation flagged := (flagged c0).
Local Abbreviation kept := (kept d0 k0).

(** What holds after a step; the watched key is followed under the condition [L]. *)
Record safe (L : Prop) (s s' : server) : Prop := {
  safe_wf : wf s';
  safe_now : now s <= now s';
  safe_clients : forall c, is_Some (clients s !! c) -> is_Some (clients s' !! c);
  safe_calm : L -> calm s -> calm s';
  safe_watch : L -> watching s -> watching s' /\ (flagged s -> flagged s') /\ (flagged s' \/ kept s s')
}.

Lemma safe_refl L s : wf s -> safe L s s.
Proof. intros. constructor; try done. intros _ ?. split; [done|]. split; [done|]. right. apply kept_refl. Qed.

Lemma safe_trans L s1 s2 s3 : safe L s1 s2 -> safe L s2 s3 -> safe L s1 s3.
Proof.
  intros [W1 N1 C1 Q1 S1] [W2 N2 C2 Q2 S2]. constructor; [done|lia|auto|auto|]. intros HL Hw.
  destruct (S1 HL Hw) as (Hw2&Hf2&H2). destruct (S2 HL Hw2) as (Hw3&Hf3&H3). split; [done|]. split; [auto|].
  destruct H2 as [?|K2]; [auto|]. destruct H3 as [?|K3]; [auto|]. right. by eapply kept_trans.
Qed.

Lemma safe_ok (P L : Prop) s s' : ok P s s' -> (L -> ~ P) -> safe L s s'.
Proof.
  intros O HP. pose proof (ok_frame _ _ _ _ _ _ O) as F. constructor.
  - apply O.
  - rewrite (fr_now _ _ F). lia.
  - intros c [cl E]. destruct (frame_client _ _ _ _ F E) as (?&?&_). eauto.
  - intros _ Hc c cl' E. pose proof (fr_clients _ _ F c) as R. rewrite E in R. inversion R as [cl ? Hle E1 E2|]; subst.
    rewrite (cle_mstate _ _ Hle). by apply (Hc c).
  - intros HL Hw. split; [by eapply watching_frame|]. split; [by apply flagged_frame|].
    destruct (ok_safe _ _ _ _ _ _ O Hw) as [?|[?|?]]; [auto..|]. by destruct (HP HL).
Qed.

(** A change of one client. *)
Lemma safe_client (L : Prop) c cl cl' s s' : wf s -> wf s' -> only_client c cl' s s' -> clients s !! c = Some cl ->
  (L -> Forall (fun cmd => silent cmd = false) (mstate cl) -> Forall (fun cmd => silent cmd = false) (mstate cl')) ->
  (L -> c = c0 -> incl (watched cl) (watched cl') /\ (flag_dirty_cas cl = true -> flag_dirty_cas cl' = true)) ->
  safe L s s'.
Proof.
  intros Hwf Hwf' (SD&Ec&_) E Hm Hc. constructor; [done|rewrite (sd_now _ _ SD); lia|..].
  - intros x Hx. rewrite Ec. destruct (decide (x = c)) as [->|]; [rewrite lookup_insert_eq; eauto|by rewrite lookup_insert_ne].
  - intros HL Hq x cl1. rewrite Ec. destruct (decide (x = c)) as [->|]; [rewrite lookup_insert_eq; intros [= <-]; apply Hm; eauto|].
    rewrite lookup_insert_ne by done. apply Hq.
  - intros HL Hw. assert (valid s d0) as Hd0.
    { unfold KeyspaceInv.watching, wl in Hw. destruct (clients s !! c0) as [cl0|] eqn:E0; [|by apply not_elem_of_nil in Hw].
      by eapply (cwf_valid _ _ (wf_clients _ Hwf _ _ E0)). }
    assert (kept s s') as Hk by (left; rewrite (sd_val _ _ SD), (sd_deadline _ _ SD) by done; auto).
    unfold KeyspaceInv.watching, KeyspaceInv.flagged, wl in *. rewrite Ec.
    destruct (decide (c0 = c)) as [->|]; [|rewrite lookup_insert_ne by done; auto].
    rewrite lookup_insert_eq. rewrite E in Hw. cbn [from_option] in *. destruct (Hc HL eq_refl) as [Hi Hf].
    split; [apply list_elem_of_In, Hi, list_elem_of_In, Hw|]. split; [|auto]. intros (x&Ex&Fx). exists cl'. split; [done|]. apply Hf. congruence.
Qed.

Lemma only_put c cl' s : only_client c cl' s (with_clients s (<[c := cl']> (clients s))).
Proof. by split. Qed.

(** A change of the flags, the queue or the arguments of a client. *)
Lemma wp_put {B} (L : Prop) c cl cl' (f : unit -> M B) s Q : wf s -> clients s !! c = Some cl -> watched cl' = watched cl ->
  client_wf s cl' ->
  (L -> Forall (fun cmd => silent cmd = false) (mstate cl) -> Forall (fun cmd => silent cmd = false) (mstate cl')) ->
  (L -> c = c0 -> flag_dirty_cas cl = true -> flag_dirty_cas cl' = true) ->
  (forall s', safe L s s' -> clients s' = <[c := cl']> (clients s) -> wp (f ()) Q s') -> wp (putClient c cl' ≫= f) Q s.
Proof.
  intros Hwf E Ew Hcl Hm Hf H. eapply wp_step; [done|]. apply H; [|done].
  eapply safe_client; [done|by eapply put_wf|apply only_put|exact E|done|]. intros HL Hc. rewrite Ew. split; [apply incl_refl|auto].
Qed.

Lemma wp_client {B} c cl (f : client -> M B) s Q : clients s !! c = Some cl -> wp (f cl) Q s -> wp (getClient c ≫= f) Q s.
Proof. intros E H. eapply wp_step; [unfold getClient; by rewrite E|done]. Qed.

Lemma propagate_safe L s d cmd : wf s -> wp (propagate d cmd) (fun _ s' => safe L s s') s.
Proof.
  intros Hwf. eapply wp_exec; [done|]. constructor; try done; [|].
  - by apply with_feed_wf.
  - intros _ Hw. split; [done|]. split; [done|]. right. left. auto.
Qed.

Lemma dirty_safe L s n : wf s -> 0 <= n -> wp (addDirty n) (fun _ s' => safe L s s') s.
Proof. intros Hwf Hn. eapply wp_exec; [done|]. eapply safe_ok; [by apply addDirty_ok|tauto]. Qed.

Lemma client_wf_data s cl cl' : client_wf s cl -> cdb cl' = cdb cl -> watched cl' = watched cl ->
  (mstate cl' = mstate cl \/ mstate cl' = []) -> client_wf s cl'.
Proof. intros [A B C D] Ed Ew Em. constructor; rewrite ?Ed, ?Ew; try done. by destruct Em as [-> | ->]. Qed.

Lemma unwatchCommand_wp (L : Prop) s c : wf s -> is_Some (clients s !! c) -> (L -> c <> c0) ->
  wp (unwatchCommand c) (fun _ s' => safe L s s') s.
Proof.
  intros Hwf [cl E] HL. eapply wp_seq; [by apply (unwatchAll_wp s c cl)|]. intros _ s1 (W1&O1).
  assert (clients s1 !! c = Some (with_watched cl [])) as E1 by (destruct O1 as (_&->&_); apply lookup_insert_eq).
  eapply wp_client; [exact E1|].
  eapply (wp_put L); [done|exact E1|done|eapply client_wf_data; [apply (wf_clients _ W1 _ _ E1)|by auto..]|done|intros ??; by destruct (HL H)|].
  intros s2 S2 _. apply wp_ret. eapply safe_trans; [|exact S2].
  eapply safe_client; [exact Hwf|done|exact O1|exact E|done|]. intros ? ?. by destruct (HL H).
Qed.

Lemma proc_queueable_safe (L : Prop) s c cmd : wf s -> is_Some (clients s !! c) -> cmd_ok cmd -> queueable cmd = true ->
  (L -> silent cmd = false /\ (cmd = CUnwatch -> c <> c0)) -> wp (proc_queueable c cmd) (fun _ s' => safe L s s') s.
Proof.
  intros Hwf Hc Hok Hq HL. assert (cmd = CUnwatch \/ cmd <> CUnwatch) as [->|Hne] by (destruct cmd; auto).
  - destruct Hc as [cl E]. eapply wp_client; [exact E|]. apply unwatchCommand_wp; [done|eauto|]. intros H. by apply HL.
  - eapply wp_mono; [by apply (proc_wp c0 d0 k0)|]. intros ? s' [O _]. eapply safe_ok; [exact O|]. intros H. destruct (HL H) as [Hs _]. congruence.
Qed.

Lemma call_safe (L : Prop) (p : Z -> command -> M kreply) s c cmd : wf s -> is_Some (clients s !! c) ->
  (forall s', wf s' -> is_Some (clients s' !! c) -> safe L s s' -> wp (p c cmd) (fun _ s2 => safe L s' s2) s') ->
  wp (call_with p c cmd) (fun _ s' => safe L s s') s.
Proof.
  intros Hwf [cl E] Hp. eapply wp_client; [exact E|].
  eapply (wp_put L); [done|exact E|done|eapply client_wf_data; [apply (wf_clients _ Hwf _ _ E)|by auto..]|done|done|]. intros s1 S1 _.
  apply wp_bind, wp_get. eapply wp_seq; [apply Hp; [apply S1|apply S1; eauto|done]|]. intros r s2 S2. cbv beta in S2. apply wp_bind, wp_get.
  pose proof (safe_trans _ _ _ _ S1 S2) as S12. destruct (safe_clients _ _ _ S12 c ltac:(eauto)) as [cl2 E2].
  eapply wp_client; [exact E2|]. eapply (wp_seq _ _ (fun _ s' => safe L s s')); [|intros ? s3 S3; by apply wp_ret].
  destruct (_ >? 0); [|by apply wp_ret]. eapply wp_mono; [apply (propagate_safe L); apply S12|]. intros ? s3 S3. by eapply safe_trans.
Qed.

Lemma exec_loop_wp (L : Prop) c cmds : forall s b rs, wf s -> is_Some (clients s !! c) ->
  Forall (fun cmd => queueable cmd = true /\ cmd_ok cmd) cmds ->
  (L -> c <> c0 /\ Forall (fun cmd => silent cmd = false) cmds) ->
  wp (exec_loop c cmds b rs) (fun _ s' => safe L s s') s.
Proof.
  induction cmds as [|cmd cmds IH]; intros s b rs Hwf Hc Hq HL; cbn [exec_loop]; [by apply wp_ret, safe_refl|].
  apply Forall_cons in Hq as [[Hq1 Hok] Hq]. pose proof Hc as [cl E]. eapply wp_client; [exact E|].
  eapply (wp_seq _ _ (fun _ s' => safe L s s')).
  { destruct (_ && _); [by apply propagate_safe|by apply wp_ret, safe_refl]. }
  intros ? s1 S1. cbv beta in S1. pose proof (safe_clients _ _ _ S1 c Hc) as Hc1. eapply wp_seq.
  { apply (call_safe L); [apply S1|done|]. intros s' W' C' _. apply proc_queueable_safe; try done. intros H. destruct (HL H) as [? HF].
    apply Forall_cons in HF as [? _]. done. }
  intros r s2 S2. cbv beta in S2. pose proof (safe_trans _ _ _ _ S1 S2) as S12.
  eapply wp_mono; [apply IH; [apply S2|apply S12; done|done|]|intros ? s3 S3; by eapply safe_trans].
  intros H. destruct (HL H) as [? HF]. apply Forall_cons in HF as [_ ?]. done.
Qed.

Lemma discard_safe (L : Prop) s c : wf s -> is_Some (clients s !! c) -> (L -> c <> c0) ->
  wp (discardTransaction c) (fun _ s' => safe L s s') s.
Proof.
  intros Hwf [cl E] HL. eapply wp_mono; [by eapply discard_wp|]. intros _ s' [W O].
  eapply safe_client; [exact Hwf|done|exact O|exact E|done|]. intros H ?. by destruct (HL H).
Qed.

(** What EXEC replies: the replies of the commands only when no watched key was flagged,
    and otherwise nothing was done. *)
Definition exec_reply (cl : client) (s : server) (r : kreply) (s' : server) : Prop :=
  match r with
  | RArray _ => flag_dirty_cas cl = false
  | _ => same_data s s' /\ feed s' = feed s /\ srv_dirty s' = srv_dirty s
  end.

Lemma exec_safe (L : Prop) s c cl : wf s -> clients s !! c = Some cl -> (L -> c <> c0 /\ calm s) ->
  wp (execCommand c) (fun r s' => safe L s s' /\ exec_reply cl s r s') s.
Proof.
  intros Hwf E HL. assert (is_Some (clients s !! c)) as Hc by eauto. eapply wp_client; [exact E|].
  destruct (flag_multi cl); [|by apply wp_ret; split; [apply safe_refl|]]. cbn [negb]. destruct (_ || _) eqn:Ef.
  { eapply wp_seq; [by eapply discard_wp|]. intros ? s1 [W1 O1]. apply wp_ret. split.
    - eapply safe_client; [exact Hwf|done|exact O1|exact E|done|]. intros H ?. by destruct (HL H).
    - destruct O1 as (?&_&?&?). by destruct (flag_dirty_exec cl). }
  apply orb_false_elim in Ef as [Ef _]. apply (wp_mono _ (fun r s' => safe L s s' /\ exists l, r = RArray l)); [|by intros ? s' [? [l ->]]].
  eapply wp_seq; [by apply (unwatchAll_wp s c cl)|]. intros _ s1 (W1&O1).
  assert (safe L s s1) as S1.
  { eapply safe_client; [exact Hwf|done|exact O1|exact E|done|]. intros H ?. by destruct (HL H). }
  eapply wp_seq; [apply (exec_loop_wp L); [done|by apply S1|apply (wf_clients _ Hwf _ _ E)|]|].
  { intros H. destruct (HL H) as [? Hcalm]. split; [done|]. by apply (Hcalm c). }
  intros [mp rs] s2 S2. cbv beta in S2. pose proof (safe_trans _ _ _ _ S1 S2) as S12.
  destruct (safe_clients _ _ _ S12 c Hc) as [cl2 E2]. eapply wp_client; [exact E2|].
  eapply (wp_put L); [apply S12|exact E2|done|eapply client_wf_data; [apply (wf_clients _ (safe_wf _ _ _ S12) _ _ E2)|by auto..]|done|done|].
  intros s3 S3 _. pose proof (safe_trans _ _ _ _ S12 S3) as S13.
  eapply wp_seq; [apply (discard_safe L); [apply S3|by apply S13|intros; by apply HL]|]. intros ? s4 S4. cbv beta in S4.
  pose proof (safe_trans _ _ _ _ S13 S4) as S14. eapply (wp_seq _ _ (fun _ s' => safe L s s')); [|intros ? s5 S5; apply wp_ret; eauto].
  destruct mp; [|by apply wp_ret]. eapply wp_mono; [apply (dirty_safe L); [apply S14|lia]|]. intros ? s5 S5. by eapply safe_trans.
Qed.

Lemma watch_loop_wp (L : Prop) c ks : forall s, wf s -> is_Some (clients s !! c) ->
  wp (iterM (watchForKey c) ks) (fun _ s' => safe L s s') s.
Proof.
  induction ks as [|k ks IH]; intros s Hwf [cl E]; cbn [iterM]; [by apply wp_ret, safe_refl|].
  eapply wp_seq; [by apply (watchForKey_wp s c cl k)|]. intros _ s1 (W1&W&O1&Hi&_).
  assert (safe L s s1) as S1 by (by eapply safe_client; [exact Hwf|done|exact O1|exact E|done|]).
  eapply wp_mono; [apply IH; [done|by apply S1]|]. intros ? s2 S2. by eapply safe_trans.
Qed.

(** The commands that end the watching of the client that gives them. *)
Definition closes (cmd : command) : bool := match cmd with CExec | CDiscard | CUnwatch => true | _ => false end.

Lemma proc_safe (L : Prop) s c cmd : wf s -> is_Some (clients s !! c) -> cmd_ok cmd ->
  (L -> silent cmd = false /\ (closes cmd = true -> c <> c0) /\ calm s) -> wp (proc c cmd) (fun _ s' => safe L s s') s.
Proof.
  intros Hwf Hc Hok HL. pose proof Hc as [cl E].
  assert (queueable cmd = true -> wp (proc_queueable c cmd) (fun _ s' => safe L s s') s) as Hq.
  { intros Hq. apply proc_queueable_safe; try done. intros H. destruct (HL H) as (?&Hcl&_). split; [done|]. intros ->. by apply Hcl. }
  destruct cmd; try (by apply Hq).
  - eapply wp_client; [exact E|]. destruct (flag_multi cl); [by apply wp_ret, safe_refl|].
    eapply (wp_put L); [done|exact E|done|eapply client_wf_data; [apply (wf_clients _ Hwf _ _ E)|by auto..]|done|done|].
    intros s1 S1 _. by apply wp_ret.
  - eapply wp_mono; [apply (exec_safe L s c cl); [done|done|]|by intros ? ? [? _]]. intros H. destruct (HL H) as (_&Hcl&?). split; [by apply Hcl|done].
  - eapply wp_client; [exact E|]. destruct (flag_multi cl); [|by apply wp_ret, safe_refl].
    eapply wp_seq; [apply (discard_safe L); [done|done|intros H; by apply HL]|]. intros ? s1 S1. by apply wp_ret.
  - eapply wp_client; [exact E|]. destruct (flag_multi cl); [by apply wp_ret, safe_refl|].
    eapply wp_seq; [by apply (watch_loop_wp L)|]. intros ? s1 S1. by apply wp_ret.
Qed.

Lemma flag_safe (L : Prop) s c : wf s -> is_Some (clients s !! c) -> wp (flagTransaction c) (fun _ s' => safe L s s') s.
Proof.
  intros Hwf [cl E]. eapply wp_client; [exact E|]. destruct (flag_multi cl) eqn:Em; [|by apply wp_ret, safe_refl]. eapply wp_exec; [done|].
  eapply safe_client; [done|eapply put_wf; [done|exact E|done|]|apply only_put|exact E|done|intros; split; [apply incl_refl|done]].
  eapply client_wf_data; [apply (wf_clients _ Hwf _ _ E)|by auto..].
Qed.

Lemma processCommand_safe (L : Prop) s c cmd : wf s -> is_Some (clients s !! c) -> (forall x, cmd = Some x -> cmd_ok x) ->
  (L -> calm s /\ forall x, cmd = Some x -> silent x = false /\ (closes x = true -> c <> c0)) ->
  wp (processCommand c cmd) (fun _ s' => safe L s s') s.
Proof.
  intros Hwf Hc Hok HL. pose proof Hc as [cl E]. destruct cmd as [cmd|].
  2: { eapply wp_seq; [by apply (flag_safe L)|]. intros ? ? S. apply wp_ret. exact S. }
  eapply wp_client; [exact E|]. apply wp_bind, wp_get. destruct (refusal s cl cmd) as [[[] e]|].
  - eapply wp_seq; [by apply (flag_safe L)|]. intros ? ? S. apply wp_ret. exact S.
  - by apply wp_bind, wp_ret, wp_ret, safe_refl.
  - destruct (flag_multi cl && queueable cmd) eqn:Eq.
    + apply andb_prop in Eq as [_ Eq]. apply wp_bind. eapply wp_client; [exact E|].
      destruct (wf_clients _ Hwf _ _ E) as [A B C D]. eapply wp_exec; [done|]. apply wp_ret.
      eapply safe_client; [done|eapply put_wf; [done|exact E|done|]|apply only_put|exact E| |intros; split; [apply incl_refl|done]].
      * constructor; try done. cbn [mstate with_mstate]. apply Forall_app. split; [done|]. repeat constructor; auto.
      * intros H HF. cbn [mstate with_mstate]. apply Forall_app. split; [done|]. repeat constructor. by apply (HL H).
    + apply call_safe; [done|done|]. intros s' W' C' S'. apply proc_safe; [done|done|auto|]. intros H. destruct (HL H) as (Hq&Hx).
      destruct (Hx cmd eq_refl) as (?&?). split; [done|]. split; [done|]. by apply S'.
Qed.
End safe.

(** ** Runs *)

Definition event_ok (e : event) : Prop := match e with ERequest _ (Some cmd) => cmd_ok cmd | _ => True end.
(** The event changes no key without a signal. *)
Definition loud (e : event) : Prop := match e with ERequest _ (Some cmd) => silent cmd = false | EEvict _ _ => False | _ => True end.
(** The client goes on watching. *)
Definition keeps (c0 : Z) (e : event) : Prop :=
  match e with EDisconnect c => c <> c0 | ERequest c (Some cmd) => closes cmd = true -> c <> c0 | _ => True end.

Section events.
Context (c0 d0 : Z) (k0 : key).
Local Abbreviation watching := (watching c0 d0 k0).
Local Abbreviation flagged := (flagged c0).
Local Abbreviation kept := (kept d0 k0).

Record stepped (L : Prop) (s s' : server) : Prop := {
  st_wf : wf s';
  st_now : now s <= now s';
  st_calm : L -> calm s -> calm s';
  st_watch : L -> watching s -> watching s' /\ (flagged s -> flagged s') /\ (flagged s' \/ kept s s')
}.

Lemma safe_stepped L s s' : safe c0 d0 k0 L s s' -> stepped L s s'.
Proof. by intros [? ? ? ? ?]. Qed.

Lemma stepped_trans (L1 L2 L : Prop) s1 s2 s3 : stepped L1 s1 s2 -> (L -> L1) -> stepped L2 s2 s3 -> (L -> L2) -> stepped L s1 s3.
Proof.
  intros [W1 N1 Q1 S1] H1 [W2 N2 Q2 S2] H2. constructor; [done|lia|auto|]. intros HL Hw.
  destruct (S1 (H1 HL) Hw) as (Hw2&Hf2&K2). destruct (S2 (H2 HL) Hw2) as (Hw3&Hf3&K3). split; [done|]. split; [auto|].
  destruct K2 as [?|K2]; [auto|]. destruct K3 as [?|K3]; [auto|]. right. by eapply kept_trans.
Qed.

(** States that differ in the clients other than the one followed. *)
Lemma stepped_other s s' : wf s -> wf s' -> same_data s s' -> (calm s -> calm s') -> (watching s -> clients s' !! c0 = clients s !! c0) ->
  stepped True s s'.
Proof.
  intros Hwf Hwf' SD Hq Hc. constructor; [done|rewrite (sd_now _ _ SD); lia|auto|]. intros _ Hw. specialize (Hc Hw).
  assert (valid s d0) as Hd0.
  { unfold KeyspaceInv.watching, wl in Hw. destruct (clients s !! c0) as [cl0|] eqn:E0; [|by apply not_elem_of_nil in Hw].
    by eapply (cwf_valid _ _ (wf_clients _ Hwf _ _ E0)). }
  unfold KeyspaceInv.watching, KeyspaceInv.flagged, wl in *. rewrite Hc. split; [done|]. split; [done|]. right. left.
  rewrite (sd_val _ _ SD), (sd_deadline _ _ SD) by done. auto.
Qed.

Lemma connect_stepped s c m : wf s -> clients s !! c = None -> stepped True s (with_clients s (<[c := new_client m]> (clients s))).
Proof.
  intros Hwf E. apply stepped_other; [done| |done| |].
  - eapply (wf_but_put c (wl s c)); [by apply wf_but_wf|unfold wl; by rewrite E|]. constructor; cbn; [apply Hwf|apply NoDup_nil_2|done|].
    by intros d k ?%not_elem_of_nil.
  - intros Hq x cl. cbn [clients with_clients]. destruct (decide (x = c)) as [->|]; [rewrite lookup_insert_eq; by intros [= <-]|].
    rewrite lookup_insert_ne by done. apply Hq.
  - unfold KeyspaceInv.watching, wl. intros Hw. cbn [clients with_clients]. rewrite lookup_insert_ne; [done|]. intros ->.
    rewrite E in Hw. by apply not_elem_of_nil in Hw.
Qed.

Lemma delete_wf s c : wf s -> wl s c = [] -> wf (with_clients s (delete c (clients s))).
Proof.
  intros [Z0 A B C D] Ew. assert (forall c', wl (with_clients s (delete c (clients s))) c' = wl s c') as Ewl.
  { intros c'. unfold wl at 1. cbn [clients with_clients]. destruct (decide (c' = c)) as [->|]; [by rewrite lookup_delete_eq, Ew|].
    by rewrite lookup_delete_ne. }
  constructor; try done.
  - intros d k Hd. specialize (C d k Hd). change (entry_ok (watchers s d k) (fun c' => (d, k) ∈ wl s c')) in C.
    eapply (entry_ok_proper _ _ (fun c' => (d, k) ∈ wl (with_clients s (delete c (clients s))) c')) in C; [exact C|]. intros c'. by rewrite Ewl.
  - intros c' cl. cbn [clients with_clients]. intros (_&E)%lookup_delete_Some. eapply client_wf_len; [|eauto]. done.
Qed.

Lemma free_stepped s c : wf s -> is_Some (clients s !! c) -> wp (freeClient c) (fun _ s' => stepped (c <> c0) s s') s.
Proof.
  intros Hwf [cl E]. eapply wp_seq; [by apply (unwatchAll_wp s c cl)|]. intros _ s1 (W1&SD&Ec&_&_). apply wp_bind, wp_get.
  eapply wp_exec; [done|]. assert (wf (with_clients s1 (delete c (clients s1)))) as W2.
  { apply delete_wf; [done|]. unfold wl. by rewrite Ec, lookup_insert_eq. }
  destruct (decide (c = c0)) as [->|Hne].
  { constructor; [done|cbn; rewrite (sd_now _ _ SD); lia|by intros []..]. }
  eapply stepped_trans; [apply stepped_other; [exact Hwf|exact W2|by destruct SD|..]|done|apply safe_stepped, safe_refl; exact W2|done].
  - intros Hq x clx. cbn [clients with_clients]. intros (Hx&Ex)%lookup_delete_Some. rewrite Ec in Ex. rewrite lookup_insert_ne in Ex by done. by eapply Hq.
  - intros _. cbn [clients with_clients]. rewrite lookup_delete_ne by done. by rewrite Ec, lookup_insert_ne.
Qed.

Lemma tryExpire_ok s d k : wf s -> valid s d -> wp (activeExpireCycleTryExpire d k) (fun _ s' => ok c0 d0 k0 False s s') s.
Proof.
  intros Hwf Hd. destruct (valid_db s d Hd) as [db E]. eapply wp_step; [by apply getDb_eq|].
  destruct (expires db !! k) as [w|] eqn:Ew; [|by apply wp_ret, ok_refl]. apply wp_bind, wp_get. rewrite Z.gtb_ltb.
  destruct (Z.ltb_spec w (now s)) as [Hw|]; [|by apply wp_ret, ok_refl].
  destruct (delete_expired_wp c0 d0 k0 s d k w) as (s'&e&E'&O&_); [done|done|unfold deadline; by rewrite E|done|].
  exists s', true. split; [|done]. revert E'. unfold mbind, M_bind. destruct (propagateExpire _ _ _ s) as [[s1 []]|]; [|done]. cbn.
  by intros ->.
Qed.

Lemma handle_stepped s e : wf s -> event_ok e -> wp (handle e) (fun _ s' => stepped (calm s /\ loud e /\ keeps c0 e) s s') s.
Proof.
  intros Hwf He. assert (forall L, stepped L s s) as Hrefl by (intros L; by apply safe_stepped, safe_refl).
  apply wp_bind, wp_get. destruct e as [c m|c|c cmd|ms|d k|d k|cf|c on].
  - case_bool_decide; [|by apply wp_ret]. eapply wp_step; [done|]. apply wp_ret.
    eapply stepped_trans; [by apply connect_stepped|done|apply safe_stepped, safe_refl; by apply connect_stepped|done].
  - case_bool_decide; [|by apply wp_ret]. eapply wp_seq; [by apply free_stepped|]. intros ? s1 S1. apply wp_ret.
    eapply stepped_trans; [exact S1|by intros (_&_&?)|apply safe_stepped, (safe_refl _ _ _ True); apply S1|done].
  - case_bool_decide; [|by apply wp_ret]. eapply wp_seq; [|intros ? s1 S1; apply wp_ret, safe_stepped; exact S1].
    apply processCommand_safe; [done|done|intros x ->; exact He|]. intros (Hq&Hl&Hk). split; [done|]. intros x ->. done.
  - eapply wp_step; [done|]. apply wp_ret. constructor; [|cbn; lia|done|].
    + destruct Hwf as [Z0 A B C D]. constructor; try done. intros c cl E. eapply client_wf_len; [|by eapply D]. done.
    + intros _ Hw. split; [done|]. split; [done|]. right. left. auto.
  - destruct (_ || _ || _) eqn:Eb; [by apply wp_ret|]. rewrite Z.geb_leb in Eb. zbool.
    assert (valid s d) as Hd by (unfold valid; lia). eapply wp_seq; [by apply tryExpire_ok|]. intros ? s1 O1. apply wp_ret.
    apply safe_stepped. eapply safe_ok; [exact O1|tauto].
  - destruct (_ || _) eqn:Eb; [by apply wp_ret|]. rewrite Z.geb_leb in Eb. zbool. assert (valid s d) as Hd by (unfold valid; lia).
    eapply wp_step; [by apply lookupKey_eq|]. case_bool_decide; [|by apply wp_ret].
    eapply wp_seq; [by apply (evict_wp c0 d0 k0)|]. intros ? s1 O1. apply wp_ret. apply safe_stepped. eapply safe_ok; [exact O1|tauto].
  - eapply wp_step; [done|]. apply wp_ret. constructor; [|done|done|].
    + destruct Hwf as [Z0 A B C D]. constructor; try done. intros c cl E. eapply client_wf_len; [|by eapply D]. done.
    + intros _ Hw. split; [done|]. split; [done|]. right. left. auto.
  - destruct (clients s !! c) as [cl|] eqn:E; [|by apply wp_ret]. eapply wp_step; [done|]. apply wp_ret. apply safe_stepped.
    eapply safe_client; [done|eapply put_wf; [done|exact E|done|]|apply only_put|exact E|done|intros; split; [apply incl_refl|done]].
    eapply client_wf_data; [apply (wf_clients _ Hwf _ _ E)|by auto..].
Qed.

Lemma run_stepped l : forall s, wf s -> Forall event_ok l ->
  wp (run l) (fun rs s' => length rs = length l /\ stepped (calm s /\ Forall loud l /\ Forall (keeps c0) l) s s') s.
Proof.
  induction l as [|e l IH]; intros s Hwf He; cbn [run].
  { apply wp_ret. split; [done|]. by apply safe_stepped, safe_refl. }
  apply Forall_cons in He as [He1 He]. eapply wp_seq; [by apply handle_stepped|]. intros r s1 S1. cbv beta in S1.
  eapply wp_seq; [by apply IH; [apply S1|]|]. intros rs s2 (Hl&S2). apply wp_ret. split; [cbn; by rewrite Hl|].
  eapply stepped_trans; [exact S1| |exact S2|]; rewrite !Forall_cons; [tauto|]. intros (Hq&(?&?)&(?&?)). split; [|done]. by apply S1.
Qed.
End events.

(** ** Requests *)

(** A request is refused, and then only the flags of its client may change, or it is queued
    or executed. *)
Lemma request_wp c cl cmd s Q : wf s -> clients s !! c = Some cl ->
  (forall f e cl' s', refusal s cl cmd = Some (f, e) -> wf s' -> only_client c cl' s s' -> Q (Some (RError e)) s') ->
  (refusal s cl cmd = None ->
    wp (if flag_multi cl && queueable cmd then queueMultiCommand c cmd ;; mret RQueued else call c cmd) (fun r s' => Q (Some r) s') s) ->
  wp (handle (ERequest c (Some cmd))) Q s.
Proof.
  intros Hwf E Hr Hn. apply wp_bind, wp_get. rewrite bool_decide_true by eauto.
  apply wp_seq with (R := fun r s' => Q (Some r) s'); [|intros r s' HQ; by apply wp_ret].
  eapply wp_client; [exact E|]. apply wp_bind, wp_get. destruct (refusal s cl cmd) as [[f e]|] eqn:Er; [|by apply Hn].
  assert (forall x, wf x -> (exists cl', only_client c cl' s x) -> wp (mret (RError e)) (fun r s' => Q (Some r) s') x) as Hret.
  { intros x Hx [cl' Hc]. apply wp_ret. by eapply Hr. }
  assert (only_client c cl s s) as Hs by (split; [done|]; split; [by rewrite insert_id|done]).
  destruct f; [|apply wp_bind, wp_ret; eauto]. apply wp_bind. eapply wp_client; [exact E|].
  destruct (flag_multi cl); [|apply wp_ret; eauto]. eapply wp_exec; [done|]. apply Hret; [|eexists; apply only_put].
  eapply put_wf; [done|exact E|done|]. eapply client_wf_data; [apply (wf_clients _ Hwf _ _ E)|by auto..].
Qed.

(** The argument vector set by [call]. *)
Lemma argv_wf s c cl cmd : wf s -> clients s !! c = Some cl -> wf (with_clients s (<[c := with_argv cl cmd]> (clients s))).
Proof.
  intros Hwf E. eapply put_wf; [done|exact E|done|]. eapply client_wf_data; [apply (wf_clients _ Hwf _ _ E)|by auto..].
Qed.

Lemma exec_event_wp s c cl : wf s -> clients s !! c = Some cl ->
  wp (handle (ERequest c (Some CExec))) (fun r s' => wf s' /\ exists x, r = Some x /\ 
    match x with RArray _ => flag_dirty_cas cl = false | _ => same_data s s' /\ feed s' = feed s end) s.
Proof.
  intros Hwf E. eapply request_wp; [done|exact E| |].
  { intros f e cl' s' _ W' (?&_&?&_). split; [done|]. by exists (RError e). }
  intros _. rewrite andb_false_r. eapply wp_client; [exact E|]. set (cl1 := with_argv cl CExec).
  pose proof (argv_wf s c cl CExec Hwf E) as W1.
  eapply wp_step; [done|]. apply wp_bind, wp_get.
  eapply wp_seq; [apply (exec_safe 0 0 [] False _ c cl1); [done|apply lookup_insert_eq|done]|]. intros r s2 (S2&R2). apply wp_bind, wp_get.
  destruct (safe_clients _ _ _ _ _ _ S2 c) as [cl2 E2]; [cbn [clients with_clients]; rewrite lookup_insert_eq; eauto|].
  eapply wp_client; [exact E2|]. destruct (Z.gtb_spec (srv_dirty s2 - srv_dirty (with_clients s (<[c:=cl1]> (clients s)))) 0) as [Hgt|].
  - eapply wp_seq; [apply (propagate_safe 0 0 [] False); apply S2|]. intros ? s3 S3. apply wp_ret. split; [apply S3|].
    exists r. split; [done|]. destruct r; try exact R2; destruct R2 as (_&_&Ed); lia.
  - apply wp_bind, wp_ret, wp_ret. split; [apply S2|]. exists r. split; [done|].
    destruct r; try exact R2; destruct R2 as ([]&?&_); by split.
Qed.

(** ** Properties *)

Definition initServer (dbnum : nat) (t : Z) (slave lazy : bool) (cf : conditions) : server :=
  Server (replicate dbnum (RedisDb ∅ ∅ ∅)) ∅ 0 [] t slave false lazy cf.

Lemma initServer_wf n t slave lazy cf : (0 < n)%nat -> wf (initServer n t slave lazy cf).
Proof.
  intros Hn. assert (forall d db, (dbs (initServer n t slave lazy cf)) !! d = Some db -> db = RedisDb ∅ ∅ ∅) as Hdb.
  { intros d db. cbn. by intros [-> _]%lookup_replicate. }
  constructor.
  - unfold valid. cbn. rewrite length_replicate. lia.
  - intros d k Hd. destruct (valid_db _ _ Hd) as [db E]. unfold deadline. rewrite E, (Hdb _ _ E). cbn [mbind option_bind expires]. rewrite lookup_empty. by intros [? ?].
  - intros d k Hd. destruct (valid_db _ _ Hd) as [db E]. unfold val. by rewrite E, (Hdb _ _ E).
  - intros d k Hd. destruct (valid_db _ _ Hd) as [db E]. unfold watchers. rewrite E, (Hdb _ _ E). cbn [mbind option_bind watched_keys]. rewrite lookup_empty. intros c. unfold wl. cbn [clients initServer]. rewrite lookup_empty. apply not_elem_of_nil.
  - done.
Qed.

(** C4: From the initial state, with any configuration, no sequence of connections,
    disconnections, requests (some of which the server may refuse), evictions, changes of the
    conditions of the server and passing time makes an assertion of the keyspace or the transaction code fail: every event
    is handled, every deadline belongs to an existing key, the list of clients kept for a
    watched key is exactly the clients whose own list has the key, without duplicates and
    never empty, and every selected database exists. *)
Theorem keyspace_invariant (dbnum : nat) (t : Z) (slave lazy : bool) (cf : conditions) (l : list event) :
  (0 < dbnum)%nat -> Forall event_ok l ->
  exists s rs, run l (initServer dbnum t slave lazy cf) = Some (s, rs) /\ length rs = length l /\ wf s.
Proof.
  intros Hn He. destruct (run_stepped 0 0 [] l _ (initServer_wf dbnum t slave lazy cf Hn) He) as (s&rs&E&Hl&S).
  exists s, rs. split; [done|]. split; [done|apply S].
Qed.

(** C3: Optimistic locking. A client watches a key. After any events of all clients, as long
    as this client does not end its watching, no MOVE or SWAPDB is sent or queued and no key
    is evicted (these do not flag anyone, see below), its EXEC either
    executes the transaction, and then the key has the value it had when it was watched (or
    was deleted after the deadline it had then), or it changes no key and propagates nothing. *)
Theorem watch_exec_safe (c0 d0 : Z) (k0 : key) (s : server) (l : list event) :
  wf s -> calm s -> watching c0 d0 k0 s -> Forall event_ok l -> Forall loud l -> Forall (keeps c0) l ->
  exists s1 rs s2 r, run l s = Some (s1, rs) /\ handle (ERequest c0 (Some CExec)) s1 = Some (s2, Some r) /\ wf s2 /\
    match r with RArray _ => kept d0 k0 s s1 | _ => same_data s1 s2 /\ feed s2 = feed s1 end.
Proof.
  intros Hwf Hq Hw He Hl Hk. destruct (run_stepped c0 d0 k0 l s Hwf He) as (s1&rs&E&_&S).
  destruct (st_watch _ _ _ _ _ _ S) as (Hw1&_&Hf); [done|done|]. pose proof Hw1 as Hw2. unfold watching, wl in Hw2.
  destruct (clients s1 !! c0) as [cl|] eqn:Ec; [|by apply not_elem_of_nil in Hw2].
  destruct (exec_event_wp s1 c0 cl) as (s2&r&E2&W2&x&->&R); [apply S|done|].
  exists s1, rs, s2, x. split; [done|]. split; [done|]. split; [done|]. destruct x; try exact R.
  destruct Hf as [(cl'&E'&F)|]; [|done]. congruence.
Qed.

(** A server without a password that accepts writes. *)
Definition example_conditions : conditions := Conditions None false true 1 true true 0 10 0 true true true false false.

Lemma keyspace_invariant_witness : exists s rs,
  run [EConnect 1 false; ERequest 1 (Some (CWatch [[107]])); EDisconnect 1] (initServer 2 5 false true example_conditions) = Some (s, rs) /\ length rs = 3%nat /\ wf s.
Proof.
  apply (keyspace_invariant 2 5 false true example_conditions [EConnect 1 false; ERequest 1 (Some (CWatch [[107]])); EDisconnect 1]); [lia|].
  repeat constructor.
Defined.

(** A state in which client 1 watches the key of client 2's SET. *)
Definition example_events : list event :=
  [EConnect 1 false; EConnect 2 false; ERequest 2 (Some (CSet [107] (VStr [49]) false false None)); ERequest 1 (Some (CWatch [[107]]))].
Definition example_start : server := initServer 2 5 false false example_conditions.
Definition example_state : server := from_option fst example_start (run example_events example_start).

Lemma string_obj_one : obj_ok (VStr [49]).
Proof. right. repeat constructor; unfold is_byte; cbn; lia. Qed.

Lemma watch_example_ok : wf example_state /\ calm example_state.
Proof.
  assert (Forall event_ok example_events) as He by (repeat apply Forall_cons_2; [done|done|apply string_obj_one|done|apply Forall_nil_2]).
  destruct (run_stepped 9 0 [] example_events example_start (initServer_wf 2 5 false false example_conditions ltac:(lia)) He) as (s&rs&E&_&S).
  unfold example_state. rewrite E. cbn [from_option fst]. split; [apply S|]. apply S; [|done]. split; [done|].
  split; repeat constructor; done.
Qed.

Lemma watch_exec_safe_witness : exists s1 rs s2 r,
  run [ERequest 1 (Some CMulti); ERequest 1 (Some (CGet [107])); ERequest 2 (Some (CDel [[107]]))] example_state = Some (s1, rs) /\
  handle (ERequest 1 (Some CExec)) s1 = Some (s2, Some r) /\ wf s2 /\
  match r with RArray _ => kept 0 [107] example_state s1 | _ => same_data s1 s2 /\ feed s2 = feed s1 end.
Proof.
  apply (watch_exec_safe 1 0 [107]); [apply watch_example_ok|apply watch_example_ok| |repeat constructor|repeat constructor|].
  - unfold watching. assert (wl example_state 1 = [(0, [107])]) as -> by (vm_compute; reflexivity). left.
  - repeat constructor; done.
Defined.

(** ** What WATCH does not notice *)

Lemma wp_inv {A} (m : M A) Q s s' a : wp m Q s -> m s = Some (s', a) -> Q a s'.
Proof. intros (s1&b&E&H) E'. rewrite E in E'. by injection E' as <- <-. Qed.

(** The deadline of a key that is moved. *)
Definition moved_deadline (w : Z) : option Z := if w =? -1 then None else Some w.

Definition here (d1 : Z) (k1 : key) (d : Z) (k : key) : bool := bool_decide (d = d1 /\ k = k1).

(** The second half of MOVE. *)
Lemma move_store s s' src dst k o w r : valid s src -> valid s dst -> src <> dst -> val s dst k = None -> deadline s dst k = None ->
  (dbAdd dst k o ;; (if w =? -1 then mret () else setExpire dst k w) ;; dbDelete src k ;; addDirty 1 ;; mret (RInteger 1)) s = Some (s', r) ->
  forall d k', valid s d ->
    val s' d k' = (if here src k d k' then None else if here dst k d k' then Some o else val s d k') /\
    deadline s' d k' = (if here src k d k' then None else if here dst k d k' then moved_deadline w else deadline s d k').
Proof.
  intros Hs Hd Hne Hv Hw (s1&[]&E1&(s2&[]&E2&(s3&b&(_&->&_)%delete_inv&[= <- _])%bind_inv)%bind_inv)%bind_inv.
  rewrite (dbAdd_eq s dst Hd k o Hv), Hw in E1. injection E1 as <-. set (s1 := upd dst k (Some o) None s) in *. intros d k' Hdk.
  assert (forall x, valid s x -> valid s1 x) as Hv1 by (intros x; by apply upd_valid).
  destruct (upd_lookup dst k (Some o) None s d k' Hd Hdk) as (V1&D1&_).
  assert (val s2 d k' = (if here dst k d k' then Some o else val s d k') /\
    deadline s2 d k' = (if here dst k d k' then moved_deadline w else deadline s d k') /\ forall x, valid s x -> valid s2 x) as (V2&D2&Hv2).
  { unfold moved_deadline, here. destruct (w =? -1); [by injection E2 as <-|].
    destruct (upd_lookup dst k (Some o) None s dst k Hd Hd) as (V1'&_). rewrite bool_decide_true in V1' by done. change (val s1 dst k = Some o) in V1'.
    rewrite (setExpire_eq s1 dst (Hv1 _ Hd) k w) in E2 by (rewrite V1'; eauto). injection E2 as <-. rewrite V1'.
    destruct (upd_lookup dst k (Some o) (Some w) s1 d k' (Hv1 _ Hd) (Hv1 _ Hdk)) as (->&->&_). fold s1 in V1, D1. rewrite V1, D1.
    split; [by case_bool_decide|]. split; [by case_bool_decide|]. intros x Hx. by apply upd_valid, Hv1. }
  destruct (upd_lookup src k None None s2 d k' (Hv2 _ Hs) (Hv2 _ Hdk)) as (V3&D3&_).
  split; [etrans; [exact V3|]|etrans; [exact D3|]]; unfold here at 1; case_bool_decide; done.
Qed.

(** The effect of MOVE on the keys, when it replies 1. *)
Definition moved (src dst : Z) (k : key) (s s' : server) : Prop :=
  is_Some (val s src k) /\ val s' src k = None /\ deadline s' src k = None /\ val s' dst k = val s src k /\
  (deadline s src k <> Some (-1) -> deadline s' dst k = deadline s src k) /\
  (forall d k', valid s d -> ~ (k' = k /\ (d = src \/ d = dst)) -> val s' d k' = val s d k' /\ deadline s' d k' = deadline s d k').

(** MOVE up to its second half. *)
Lemma move_select s s' c cl k a : wf s -> clients s !! c = Some cl -> moveCommand c k a s = Some (s', RInteger 1) ->
  exists dst, getLongLongFromArg a = Some dst /\ valid s dst /\ cdb cl <> dst /\
    (o ← lookupKeyWrite (cdb cl) k;
     match o with
     | None => mret (RInteger 0)
     | Some o =>
       expire ← getExpire (cdb cl) k;
       o2 ← lookupKeyWrite dst k;
       if bool_decide (is_Some o2) then mret (RInteger 0) else
       dbAdd dst k o ;; (if expire =? -1 then mret () else setExpire dst k expire) ;; dbDelete (cdb cl) k ;; addDirty 1 ;; mret (RInteger 1)
     end) s = Some (s', RInteger 1).
Proof.
  intros Hwf E (s1&cl1&(->&E1)%getClient_inv&H)%bind_inv. assert (cl1 = cl) as -> by congruence. clear E1. cbv zeta in H. set (src := cdb cl) in *.
  destruct (getLongLongFromArg a) as [dst|]; [|done]. destruct (_ || _); [done|]. exists dst.
  apply bind_inv in H as (s1&b1&(cl1&E1&H1)%selectDb_inv&H). destruct b1; [|done]. destruct H1 as [Hdst ->]. cbn [negb] in H.
  assert (cl1 = cl) as -> by congruence. apply bind_inv in H as (s2&b2&(cl2&E2&H2)%selectDb_inv&H). cbn [clients with_clients] in E2.
  rewrite lookup_insert_eq in E2. injection E2 as <-.
  destruct b2; [|destruct H2 as [_ []]; apply (wf_clients _ Hwf _ _ E)]. destruct H2 as [_ ->].
  assert (with_clients (with_clients s (<[c := with_cdb cl dst]> (clients s))) (<[c := with_cdb (with_cdb cl dst) src]> (<[c := with_cdb cl dst]> (clients s))) = s) as Es.
  { rewrite insert_insert_eq. rewrite (insert_id (clients s) c (with_cdb (with_cdb cl dst) src)); [by destruct s|]. rewrite E. by destruct cl. }
  cbn [clients with_clients] in H. rewrite Es in H. by destruct (Z.eqb_spec src dst).
Qed.

Lemma move_effect s s' c cl k a : wf s -> clients s !! c = Some cl -> moveCommand c k a s = Some (s', RInteger 1) ->
  exists dst, getLongLongFromArg a = Some dst /\ valid s dst /\ cdb cl <> dst /\ moved (cdb cl) dst k s s'.
Proof.
  intros Hwf E (dst&Ea&Hdst&Hne&H)%(move_select s s' c cl k a Hwf E). exists dst. do 3 (split; [done|]). set (src := cdb cl) in *.
  assert (valid s src) as Hsrc by apply (wf_clients _ Hwf _ _ E).
  apply bind_inv in H as (s3&o&E3&H). destruct (wp_inv _ _ _ _ _ (lookupWrite_wp 0 0 [] s src k Hwf Hsrc) E3) as (O3&SB3&Eo&C3).
  destruct o as [o|]; [|done]. destruct C3 as [[V3 D3]|[V3 _]]; [|congruence].
  assert (forall d, valid s d -> valid s3 d) as Hv3 by (intros d; by eapply ok_valid).
  apply bind_inv in H as (s4&w&(->&_&->)%getExpire_inv&H). apply bind_inv in H as (s4&o2&E4&H).
  destruct (wp_inv _ _ _ _ _ (lookupWrite_wp 0 0 [] s3 dst k (ok_wf _ _ _ _ _ _ O3) (Hv3 _ Hdst)) E4) as (O4&SB4&Eo2&_).
  assert (forall d, valid s d -> valid s4 d) as Hv4 by (intros d Hd; by eapply ok_valid; [|apply Hv3]).
  case_bool_decide as Hn; [done|]. assert (val s4 dst k = None) as V4 by (destruct o2; [destruct Hn; eauto|done]).
  pose proof (deadline_none s4 dst k (ok_wf _ _ _ _ _ _ O4) (Hv4 _ Hdst) V4) as D4.
  pose proof (move_store _ _ _ _ _ _ _ _ (Hv4 _ Hsrc) (Hv4 _ Hdst) Hne V4 D4 H) as L. unfold here in L.
  destruct (L src k (Hv4 _ Hsrc)) as [Ls1 Ls2]. destruct (L dst k (Hv4 _ Hdst)) as [Ld1 Ld2].
  rewrite bool_decide_true in Ls1, Ls2 by done.
  assert (~ (dst = src /\ k = k)) as Hds by (intros [Heq _]; by apply Hne). rewrite (bool_decide_false _ Hds), bool_decide_true in Ld1, Ld2 by done.
  split; [rewrite <-V3, <-Eo; eauto|]. split; [done|]. split; [done|]. split; [congruence|]. split.
  - intros Hm. rewrite Ld2, D3. unfold moved_deadline. destruct (deadline s src k) as [x|]; [|done]. cbn [from_option id].
    destruct (Z.eqb_spec x (-1)) as [->|]; done.
  - intros d k' Hd Hk. destruct (L d k' (Hv4 _ Hd)) as [-> ->]. rewrite !(bool_decide_false (d = src /\ k' = k)), !(bool_decide_false (d = dst /\ k' = k)) by tauto.
    destruct (SB4 d k') as [-> ->]; [auto|tauto|]. apply SB3; [done|tauto].
Qed.

Lemma swap_effect s s' a1 a2 : swapdbCommand a1 a2 s = Some (s', ROk) ->
  exists id1 id2, valid s id1 /\ valid s id2 /\ clients s' = clients s /\
    forall d k, valid s d -> val s' d k = val s (other id1 id2 d) k /\ deadline s' d k = deadline s (other id1 id2 d) k.
Proof.
  unfold swapdbCommand. destruct (getLongFromArg a1) as [x1|]; [|done]. destruct (getLongFromArg a2) as [x2|]; [|done].
  generalize (s32 x1) (s32 x2). intros id1 id2 (s1&b&E1&E2)%bind_inv. destruct b; [|done]. injection E2 as <-. exists id1, id2.
  apply bind_inv in E1 as (s2&x&[= <- <-]&H). cbv zeta in H. destruct (_ || _ || _ || _) eqn:Eb; [done|]. rewrite !Z.geb_leb in Eb. zbool.
  assert (valid s id1) as V1 by (unfold valid; lia). assert (valid s id2) as V2 by (unfold valid; lia).
  destruct (Z.eqb_spec id1 id2) as [<-|Hne].
  { injection H as <-. split; [done|]. split; [done|]. split; [done|]. intros d k _. unfold other.
    destruct (Z.eqb_spec d id1) as [->|]; done. }
  apply bind_inv in H as (s2&db1&(->&E1&_)%getDb_inv&H). apply bind_inv in H as (s2&db2&(->&E2&_)%getDb_inv&H). injection H as <-.
  split; [done|]. split; [done|]. split; [done|]. intros d k Hd. destruct (swap_lookup s id1 id2 db1 db2 V1 V2 Hne E1 E2 d k Hd) as (?&?&_). done.
Qed.

Lemma evict_effect s s' d k : valid s d -> evictKey d k s = Some (s', ()) ->
  val s' d k = None /\ deadline s' d k = None /\ same_but d k s s' /\ clients s' = clients s.
Proof.
  intros Hd (s1&x&[= <- <-]&(s2&[]&[= <-]&(s3&b&E&[= <-])%bind_inv)%bind_inv)%bind_inv. set (s1 := with_feed s _) in *.
  assert (dbSyncDelete d k s1 = Some (s3, b)) as (_&->&_)%delete_inv by (by destruct (lazyfree_lazy_eviction (conds s))).
  destruct (upd_lookup d k None None s1 d k Hd Hd) as (->&->&_). rewrite !bool_decide_true by done. split; [done|]. split; [done|].
  split; [|by destruct (upd_other d k None None s1) as (->&_)]. intros d' k' Hd' Hk. by apply (same_but_upd d k None None s1).
Qed.



(** The transaction of client 1 after an event of client 2: it is executed after MOVE and
    SWAPDB took its watched key away, and aborted after DEL. *)
Definition transaction_after (e : event) : option (option (list kreply) * option vobj * option vobj) :=
  '(s1, _) ← run [e] example_state;
  '(s2, rs) ← run [ERequest 1 (Some CMulti); ERequest 1 (Some (CExists [[107]])); ERequest 1 (Some CExec)] s1;
  Some (match last rs with Some (Some (RArray l)) => Some l | _ => None end, val example_state 0 [107], val s1 0 [107]).

Example transaction_after_silent :
  transaction_after <$> [ERequest 2 (Some (CMove [107] [49])); ERequest 2 (Some (CSwapdb [48] [49])); EEvict 0 [107]; ERequest 2 (Some (CDel [[107]]))] =
  [Some (Some [RInteger 0], Some (VStr [49]), None); Some (Some [RInteger 0], Some (VStr [49]), None);
   Some (Some [RInteger 0], Some (VStr [49]), None); Some (None, Some (VStr [49]), None)].
Proof. vm_compute. reflexivity. Qed.

(** A command refused by a read only slave inside MULTI does not flag the transaction: EXEC
    executes the others. A command refused for want of memory does. *)
Definition transaction_refused (s : server) : option (list (option kreply)) :=
  snd <$> run [EConnect 1 false; ERequest 1 (Some CMulti); ERequest 1 (Some (CSet [107] (VStr [49]) false false None));
    ERequest 1 (Some CDbsize); ERequest 1 (Some CExec)] s.

Example refused_in_transaction :
  transaction_refused (initServer 2 5 true false example_conditions) =
    Some [None; Some ROk; Some (RError "READONLY"); Some RQueued; Some (RArray [RInteger 0])] /\
  transaction_refused (initServer 2 5 false false (Conditions None true true 1 true true 0 10 0 true true true false false)) =
    Some [None; Some ROk; Some (RError "OOM"); Some RQueued; Some (RError "EXECABORT")].
Proof. split; vm_compute; reflexivity. Qed.

(** The database number given to SELECT is a [long] converted to [int]: 4294967296 selects
    database 0. The seconds of EXPIRE are multiplied by 1000 without a check: a time far in
    the future deletes the key. *)
Definition reply_after (cmd : command) : option (option (option kreply) * option vobj) :=
  '(s, rs) ← run [ERequest 2 (Some cmd)] example_state; Some (last rs, val s 0 [107]).

Example select_truncates : reply_after (CSelect [52; 50; 57; 52; 57; 54; 55; 50; 57; 54]) = Some (Some (Some ROk), Some (VStr [49])).
Proof. vm_compute. reflexivity. Qed.

Example expire_overflows :
  reply_after (CExpire [107] [57; 50; 50; 51; 51; 55; 50; 48; 51; 54; 56; 53; 52; 55; 55; 53; 56; 48; 55] true UNIT_SECONDS) = Some (Some (Some (RInteger 1)), None).
Proof. vm_compute. reflexivity. Qed.
