(* ===== verification/ExecFeed.v ===== *)
(** * The propagation of transactions

    What EXEC hands to the append only file and the slaves: the writes of a transaction are
    one block between MULTI and EXEC, in the order of the queue and each in the database of
    the client, and what changed no key is not in it. *)

From stdpp Require Import gmap.
From S2P Require Import Prelude Util Bitops Keyspace Multi KeyspaceInv KeyspaceCmd CommandLog Watch.

(** ** One command *)

(** What the command [cmd] of the client [c] adds to the stream: deletions of keys past their
    deadline, and then nothing if no key changed otherwise, or the command in the form it
    took, for the database of the client. *)
Definition logged (c : Z) (cmd : command) (s s1 : server) (l : list (Z * command)) : Prop :=
  exists cl exp own, clients s !! c = Some cl /\ l = exp ++ own /\ feed s1 = feed s ++ l /\ Forall (expired_entry s) exp /\
    (own = [] /\ expired_only s s1 \/
     exists form, own = [(cdb cl, form)] /\ propagated (cdb cl) cmd form s1 /\ cmd_readonly cmd = false).

(** The commands are executed one after the other; [l] is what they add to the stream and
    [rs] are their replies. *)
Inductive executes (c : Z) : server -> list command -> list (Z * command) -> list kreply -> server -> Prop :=
  | executes_nil s : executes c s [] [] [] s
  | executes_cons s cmd s1 r l cmds ls rs s2 :
      call_with proc_queueable c cmd s = Some (s1, r) -> logged c cmd s s1 l -> executes c s1 cmds ls rs s2 ->
      executes c s (cmd :: cmds) (l ++ ls) (r :: rs) s2.

Lemma executes_feed c s cmds l rs s' : executes c s cmds l rs s' -> feed s' = feed s ++ l.
Proof. induction 1 as [|s cmd s1 r l cmds ls rs s2 _ (_&_&_&_&_&F&_) _ IH]; [by rewrite app_nil_r|]. by rewrite IH, F, app_assoc. Qed.

(** Read only commands propagate deletions of expired keys only. *)
Lemma executes_readonly c s cmds l rs s' : executes c s cmds l rs s' -> Forall (fun cmd => cmd_readonly cmd = true) cmds -> Forall expiry l.
Proof.
  induction 1 as [|s cmd s1 r l cmds ls rs s2 _ (cl&exp&own&_&El&_&He&Ho) _ IH]; [constructor|]. intros [Hr Hrs]%Forall_cons.
  destruct Ho as [[-> _]|(?&_&_&?)]; [|congruence]. rewrite app_nil_r in El. subst l. apply Forall_app. split; [|auto].
  eapply Forall_impl; [exact He|]. intros p (k&w&H&_). by exists k.
Qed.

Lemma wp_eq {A} (m : M A) Q s : wp m Q s -> wp m (fun a s' => Q a s' /\ m s = Some (s', a)) s.
Proof. intros (s'&a&E&H). by exists s', a. Qed.

(** A client that exists and whose arguments are the command. *)
Lemma unwatch_feed_wp s c cl : wf s -> clients s !! c = Some cl ->
  wp (unwatchCommand c) (fun _ s' => wf s' /\ is_Some (clients s' !! c) /\ srv_dirty s' = srv_dirty s) s.
Proof.
  intros Hwf E. eapply wp_seq; [by apply (unwatchAll_wp s c cl)|]. intros _ s1 (W1&_&Ec&Ef&Ed).
  assert (clients s1 !! c = Some (with_watched cl [])) as E1 by (rewrite Ec; apply lookup_insert_eq).
  eapply wp_client; [exact E1|]. eapply wp_step; [done|]. apply wp_ret. split.
  - eapply put_wf; [done|exact E1|done|]. eapply client_wf_data; [apply (wf_clients _ W1 _ _ E1)|by auto..].
  - split; [|done]. eexists. apply lookup_insert_eq.
Qed.

Lemma proc_feed_wp s c cl cmd : wf s -> clients s !! c = Some cl -> queueable cmd = true -> cmd_ok cmd ->
  wp (proc_queueable c cmd) (fun _ s' => wf s' /\ is_Some (clients s' !! c) /\
    (cmd_readonly cmd = true -> srv_dirty s' = srv_dirty s)) s.
Proof.
  intros Hwf E Hq Hok. assert (cmd = CUnwatch \/ cmd <> CUnwatch) as [->|Hne] by (destruct cmd; auto).
  - eapply wp_client; [exact E|]. eapply wp_mono; [by apply (unwatch_feed_wp s c cl)|]. intros _ s1 (W1&C1&D1). done.
  - eapply wp_mono; [apply (proc_wp 0 0 []); eauto|]. intros ? s1 [[W1 F1 _] D1]. split; [done|].
    destruct (frame_client _ _ _ _ F1 E) as (cl1&E1&Hle). eauto.
Qed.

Lemma call_logged s c cmd : wf s -> is_Some (clients s !! c) -> queueable cmd = true -> cmd_ok cmd ->
  wp (call_with proc_queueable c cmd) (fun _ s' => wf s' /\ is_Some (clients s' !! c) /\
    (cmd_readonly cmd = true -> srv_dirty s' = srv_dirty s) /\ srv_dirty s <= srv_dirty s' /\ exists l, logged c cmd s s' l) s.
Proof.
  intros Hwf [cl E] Hq Hok. eapply wp_client; [exact E|]. eapply wp_step; [done|]. apply wp_bind, wp_get.
  set (s1 := with_clients s (<[c := with_argv cl cmd]> (clients s))). pose proof (argv_wf s c cl cmd Hwf E : wf s1) as W1.
  assert (clients s1 !! c = Some (with_argv cl cmd)) as E1 by apply lookup_insert_eq.
  eapply wp_seq; [by apply wp_eq, (proc_feed_wp s1 c (with_argv cl cmd))|].
  intros r s2 ((W2&[cl2 E2]&D2)&Er). destruct (proc_logs _ _ _ _ _ W1 Er (wf_dl_ok _ W1)) as (HL&exp&F2&Hexp).
  assert (Forall (expired_entry s) exp) as Hexp' by (eapply Forall_impl; [exact Hexp|by intros p [_ ?]]).
  apply wp_bind, wp_get. eapply wp_client; [exact E2|]. destruct (Z.gtb_spec (srv_dirty s2 - srv_dirty s1) 0) as [Hd|Hd].
  - destruct (proc_propagated _ _ _ _ _ _ W1 E1 eq_refl Er ltac:(lia)) as (cl3&E3&Ec&Hp). assert (cl3 = cl2) as -> by congruence.
    eapply wp_step; [done|]. apply wp_ret. split; [by apply with_feed_wf|]. split; [cbn; eauto|].
    assert (cmd_readonly cmd = false) as Hro by (destruct (cmd_readonly cmd); [specialize (D2 eq_refl); lia|done]).
    split; [congruence|]. split; [cbn; change (srv_dirty s) with (srv_dirty s1); lia|]. exists (exp ++ [(cdb cl2, argv cl2)]), cl, exp, [(cdb cl2, argv cl2)]. split; [done|]. split; [done|].
    split; [cbn [feed with_feed]; by rewrite F2, app_assoc|]. split; [done|]. right. exists (argv cl2). rewrite Ec. split; [done|]. split; [exact Hp|done].
  - apply wp_bind, wp_ret, wp_ret. split; [done|]. split; [eauto|]. split; [done|]. split; [change (srv_dirty s) with (srv_dirty s1); destruct HL as [[_ ?]|?]; lia|]. exists exp, cl, exp, []. rewrite app_nil_r.
    split; [done|]. split; [done|]. split; [done|]. split; [done|]. left. split; [done|]. destruct HL as [[[] _]|]; [by constructor|lia].
Qed.

(** ** The loop of EXEC *)

(** After MULTI was propagated. *)
Lemma loop_after c cmds : forall s rs, wf s -> is_Some (clients s !! c) ->
  Forall (fun cmd => queueable cmd = true /\ cmd_ok cmd) cmds ->
  wp (exec_loop c cmds true rs) (fun r s' => wf s' /\ is_Some (clients s' !! c) /\ srv_dirty s <= srv_dirty s' /\
    exists l rs', r = (true, rs ++ rs') /\ executes c s cmds l rs' s') s.
Proof.
  induction cmds as [|cmd cmds IH]; intros s rs Hwf Hc Hq; cbn [exec_loop].
  { apply wp_ret. split; [done|]. split; [done|]. split; [lia|]. exists [], []. rewrite app_nil_r. split; [done|constructor]. }
  apply Forall_cons in Hq as [[Hq1 Hok] Hq]. pose proof Hc as [cl E]. eapply wp_client; [exact E|]. apply wp_bind, wp_ret.
  eapply wp_seq; [by apply wp_eq, call_logged|]. intros r s2 ((W2&C2&_&M2&l2&L2)&Er). eapply wp_mono; [by apply IH|].
  intros r' s3 (W3&C3&M3&l3&rs3&->&X3). split; [done|]. split; [done|]. split; [lia|]. exists (l2 ++ l3), (r :: rs3).
  rewrite <-app_assoc. split; [done|]. by econstructor.
Qed.

(** The loop as a whole: a prefix of read only commands, and the rest after MULTI. *)
Definition loop_log (c : Z) (cmds : list command) (s s' : server) (mp : bool) (rs : list kreply) (l : list (Z * command)) : Prop :=
  exists cmds1 cmds2 pre rs1 s1, cmds = cmds1 ++ cmds2 /\ Forall (fun cmd => cmd_readonly cmd = true) cmds1 /\ executes c s cmds1 pre rs1 s1 /\
    match cmds2 with
    | [] => mp = false /\ rs = rs1 /\ l = pre /\ s' = s1
    | cmd :: _ => mp = true /\ cmd_readonly cmd = false /\ exists cl1 body rs2, clients s1 !! c = Some cl1 /\ rs = rs1 ++ rs2 /\
        l = pre ++ (cdb cl1, CMulti) :: body /\ executes c (with_feed s1 (feed s1 ++ [(cdb cl1, CMulti)])) cmds2 body rs2 s'
    end.

Lemma loop_before c cmds : forall s rs, wf s -> is_Some (clients s !! c) ->
  Forall (fun cmd => queueable cmd = true /\ cmd_ok cmd) cmds ->
  wp (exec_loop c cmds false rs) (fun r s' => wf s' /\ is_Some (clients s' !! c) /\ (r.1 = false -> srv_dirty s' = srv_dirty s) /\ srv_dirty s <= srv_dirty s' /\
    exists rs' l, r.2 = rs ++ rs' /\ loop_log c cmds s s' r.1 rs' l) s.
Proof.
  induction cmds as [|cmd cmds IH]; intros s rs Hwf Hc Hq.
  { apply wp_ret. split; [done|]. split; [done|]. split; [done|]. split; [lia|]. exists [], []. rewrite app_nil_r. split; [done|].
    exists [], [], [], [], s. repeat constructor. }
  destruct (cmd_readonly cmd) eqn:Ero; pose proof Hc as [cl E]; pose proof Hq as [[Hq1 Hok] Hq']%Forall_cons; cbn [exec_loop];
    (eapply wp_client; [exact E|]); rewrite Ero; cbn [negb andb orb].
  - apply wp_bind, wp_ret. eapply wp_seq; [by apply wp_eq, call_logged|]. intros r s2 ((W2&C2&D2&M2&l2&L2)&Er). eapply wp_mono; [by apply IH|].
    intros [mp rs'] s3 (W3&C3&D3&M3&rs3&l3&Hrs&cmds1&cmds2&pre&rs1&s1&->&Hr1&X1&H). cbn [fst snd] in *. split; [done|]. split; [done|].
    split; [intros Hmp; rewrite (D3 Hmp); auto|]. split; [lia|]. exists (r :: rs3), (l2 ++ l3). rewrite Hrs, <-app_assoc. split; [done|].
    exists (cmd :: cmds1), cmds2, (l2 ++ pre), (r :: rs1), s1. split; [done|]. split; [by constructor|]. split; [by econstructor|].
    destruct cmds2; [destruct H as (->&->&->&->); done|]. destruct H as (->&Hro&cl1&body&rs2&E1&->&->&X2). split; [done|]. split; [done|].
    exists cl1, body, rs2. rewrite <-app_assoc. done.
  - eapply wp_step; [done|]. set (s1 := with_feed s (feed s ++ [(cdb cl, CMulti)])).
    eapply wp_seq; [apply wp_eq, call_logged; [by apply with_feed_wf|done|done|done]|]. intros r s2 ((W2&C2&_&M2&l2&L2)&Er). change (srv_dirty s1) with (srv_dirty s) in M2.
    eapply wp_mono; [by apply loop_after|]. intros ? s3 (W3&C3&M3&l3&rs3&->&X3). cbn [fst snd]. split; [done|]. split; [done|]. split; [done|].
    split; [lia|].
    exists (r :: rs3), ((cdb cl, CMulti) :: l2 ++ l3). rewrite <-app_assoc. split; [done|].
    exists [], (cmd :: cmds), [], [], s. split; [done|]. split; [constructor|]. split; [constructor|]. split; [done|]. split; [done|].
    exists cl, (l2 ++ l3), (r :: rs3). split; [done|]. split; [done|]. split; [done|]. by econstructor.
Qed.

(** ** EXEC *)

(** Whether EXEC executes the queue. *)
Definition exec_runs (s : server) (cl : client) : bool :=
  bool_decide (refusal s cl CExec = None) && flag_multi cl && negb (flag_dirty_cas cl) && negb (flag_dirty_exec cl).

(** What the execution of the queue [cmds] propagates: only deletions of expired keys when
    all the commands are read only, and otherwise a block. *)
Definition exec_log (c : Z) (cmds : list command) (s s' : server) (r : kreply) (l : list (Z * command)) : Prop :=
  exists s0 cmds1 cmds2 pre rs1 s1, same_data s s0 /\ feed s0 = feed s /\ cmds = cmds1 ++ cmds2 /\
    Forall (fun cmd => cmd_readonly cmd = true) cmds1 /\ executes c s0 cmds1 pre rs1 s1 /\ Forall expiry pre /\
    match cmds2 with
    | [] => l = pre /\ r = RArray rs1 /\ same_data s1 s'
    | cmd :: _ => cmd_readonly cmd = false /\ exists cl1 body rs2 s2 cl2, clients s1 !! c = Some cl1 /\ clients s2 !! c = Some cl2 /\
        l = pre ++ (cdb cl1, CMulti) :: body ++ [(cdb cl2, CExec)] /\ r = RArray (rs1 ++ rs2) /\
        executes c (with_feed s1 (feed s1 ++ [(cdb cl1, CMulti)])) cmds2 body rs2 s2 /\ same_data s2 s'
    end.

(** The end of EXEC after the loop. *)
Definition exec_end (c : Z) (cl2 : client) (mp : bool) (s2 s' : server) : Prop :=
  wf s' /\ (exists cl', clients s' !! c = Some cl' /\ argv cl' = CExec /\ cdb cl' = cdb cl2) /\ same_data s2 s' /\
  feed s' = feed s2 /\ srv_dirty s' = srv_dirty s2 + if mp then 1 else 0.

Lemma exec_end_wp {B} s2 c cl2 (mp : bool) (m : M B) Q : wf s2 -> clients s2 !! c = Some cl2 -> (forall s', exec_end c cl2 mp s2 s' -> wp m Q s') ->
  wp (cl ← getClient c; putClient c (with_argv cl CExec) ;; discardTransaction c ;; (if mp then addDirty 1 else mret ()) ;; m) Q s2.
Proof.
  intros W2 E2 Hm. eapply wp_client; [exact E2|]. eapply wp_step; [done|].
  eapply wp_seq; [eapply (discard_wp _ c (with_argv cl2 CExec)); [by apply argv_wf|apply lookup_insert_eq]|].
  intros _ s4 (W4&SD4&Ec4&Ef4&Ed4). cbn [feed srv_dirty with_clients] in Ef4, Ed4.
  assert (exists cl', clients s4 !! c = Some cl' /\ argv cl' = CExec /\ cdb cl' = cdb cl2) as Hcl by (rewrite Ec4, lookup_insert_eq; eauto).
  assert (same_data s2 s4) as SD by (by destruct SD4).
  destruct mp; [eapply wp_step; [done|]|apply wp_bind, wp_ret]; apply Hm.
  - split; [by apply with_dirty_wf|]. split; [done|]. split; [by destruct SD|]. cbn. rewrite Ed4. done.
  - split; [done|]. split; [done|]. split; [done|]. split; [done|lia].
Qed.

Lemma exec_feed_wp s c cl : wf s -> clients s !! c = Some cl -> flag_multi cl = true -> flag_dirty_cas cl = false -> flag_dirty_exec cl = false ->
  wp (call c CExec) (fun r s' => wf s' /\ exists l, feed s' = feed s ++ l /\ exec_log c (mstate cl) s s' r l) s.
Proof.
  intros Hwf E Em Ec Ee. eapply wp_client; [exact E|]. eapply wp_step; [done|]. apply wp_bind, wp_get.
  set (sa := with_clients s _). assert (clients sa !! c = Some (with_argv cl CExec)) as Ea by apply lookup_insert_eq.
  apply wp_bind. eapply wp_client; [exact Ea|]. cbn [flag_multi flag_dirty_cas flag_dirty_exec with_argv mstate]. rewrite Em, Ec, Ee. cbn [negb orb].
  eapply wp_seq; [apply (unwatchAll_wp sa c _ (argv_wf s c cl CExec Hwf E) Ea)|]. intros _ s1 (W1&SD1&Ec1&Ef1&Ed1).
  eapply wp_seq; [apply (loop_before c (mstate cl)); [done|rewrite Ec1, lookup_insert_eq; eauto|apply (wf_clients _ Hwf _ _ E)]|].
  intros [mp rs] s2 (W2&[cl2 E2]&D2&M2&rs'&l&Hrs&HL). cbn [fst snd app] in *. subst rs'.
  eapply exec_end_wp; [done|exact E2|]. intros s3 (W3&(cl3&E3&Ea3&Ed3)&SD3&F3&Ed). apply wp_ret.
  apply wp_bind, wp_get. eapply wp_client; [exact E3|]. rewrite Ea3, Ed3.
  assert (same_data s s1) as SD by (by destruct SD1). change (feed sa) with (feed s) in Ef1.
  destruct HL as (cmds1&cmds2&pre&rs1&s'&Ecmds&Hro&X1&HL). pose proof (executes_readonly _ _ _ _ _ _ X1 Hro) as Hpre.
  pose proof (executes_feed _ _ _ _ _ _ X1) as F1. destruct cmds2 as [|cmd cmds2].
  - destruct HL as (->&->&->&->). specialize (D2 eq_refl). change (srv_dirty sa) with (srv_dirty s) in *.
    rewrite Z.gtb_ltb, (proj2 (Z.ltb_ge _ _)) by lia. apply wp_bind, wp_ret, wp_ret. split; [done|]. exists pre. split; [congruence|].
    exists s1, cmds1, [], pre, rs1, s'. done.
  - destruct HL as (->&Hnr&cl1&body&rs2&E1&->&->&X2). pose proof (executes_feed _ _ _ _ _ _ X2) as F2. cbn [feed with_feed] in F2.
    rewrite Z.gtb_ltb, (proj2 (Z.ltb_lt _ _)) by lia. eapply wp_step; [done|]. apply wp_ret. split; [by apply with_feed_wf|].
    exists (pre ++ (cdb cl1, CMulti) :: body ++ [(cdb cl2, CExec)]). cbn [feed with_feed]. rewrite F3, F2, F1, Ef1, <-!app_assoc. split; [done|].
    exists s1, cmds1, (cmd :: cmds2), pre, rs1, s'. do 6 (split; [done|]). split; [done|]. exists cl1, body, rs2, s2, cl2.
    do 5 (split; [done|]). by destruct SD3.
Qed.

(** EXEC without MULTI or of an aborted transaction. *)
Lemma exec_abort_wp s c cl : wf s -> clients s !! c = Some cl -> flag_multi cl = false \/ flag_dirty_cas cl || flag_dirty_exec cl = true ->
  wp (call c CExec) (fun r s' => wf s' /\ same_data s s' /\ feed s' = feed s /\ forall rs, r <> RArray rs) s.
Proof.
  intros Hwf E Hab. eapply wp_client; [exact E|]. eapply wp_step; [done|]. apply wp_bind, wp_get.
  set (sa := with_clients s _). pose proof (argv_wf s c cl CExec Hwf E : wf sa) as Wa.
  assert (clients sa !! c = Some (with_argv cl CExec)) as Ea by apply lookup_insert_eq. assert (same_data s sa) as SDa by done.
  eapply (wp_seq _ _ (fun r s' => wf s' /\ same_data s s' /\ feed s' = feed s /\ srv_dirty s' = srv_dirty sa /\
    is_Some (clients s' !! c) /\ forall rs, r <> RArray rs)).
  - eapply wp_client; [exact Ea|]. cbn [flag_multi flag_dirty_cas flag_dirty_exec with_argv]. destruct (flag_multi cl) eqn:Em; cbn [negb].
    + destruct Hab as [|Hab]; [done|]. rewrite Hab. eapply wp_seq; [by eapply discard_wp|]. intros ? s1 (W1&SD1&Ec1&Ef1&Ed1). apply wp_ret.
      split; [done|]. split; [by etrans|]. split; [done|]. split; [done|]. split; [rewrite Ec1, lookup_insert_eq; eauto|]. by destruct (flag_dirty_exec cl).
    + apply wp_ret. split; [done|]. split; [done|]. split; [done|]. split; [done|]. split; [eauto|done].
  - intros r s1 (W1&SD1&F1&D1&[cl1 E1]&Hr). apply wp_bind, wp_get. eapply wp_client; [exact E1|].
    rewrite D1, Z.sub_diag. apply wp_bind, wp_ret, wp_ret. done.
Qed.


(** A transaction with a read and two writes, the first of which changes nothing. *)
Definition example_queue : list command := [CGet [107]; CPersist [107]; CDel [[107]]].
Definition example_multi : server :=
  from_option fst example_state (run ((fun cmd => ERequest 1 (Some cmd)) <$> CMulti :: example_queue) example_state).

Lemma example_multi_wf : wf example_multi.
Proof.
  assert (Forall event_ok ((fun cmd => ERequest 1 (Some cmd)) <$> CMulti :: example_queue)) as He by (repeat constructor).
  destruct (run_stepped 9 0 [] _ example_state (proj1 watch_example_ok) He) as (s&rs&E&_&S).
  unfold example_multi. rewrite E. apply S.
Qed.

