(* ===== verification/Progress.v ===== *)
(** * Undisturbed transactions

    Optimistic locking makes progress: a transaction whose client is not disturbed between
    WATCH and EXEC is executed, and gives one reply for each of its commands. *)

From stdpp Require Import gmap.
From S2P Require Import Prelude Util Bitops Keyspace Multi KeyspaceInv KeyspaceCmd Watch.

Section progress.
Context (c : Z) (s0 : server) (cl0 : client).

(** Nothing changed on which the refusal of a request depends. *)
Definition like (s : server) (cl : client) : Prop :=
  conds s = conds s0 /\ masterhost s = masterhost s0 /\ loading s = loading s0 /\
  authenticated cl = authenticated cl0 /\ flag_pubsub cl = flag_pubsub cl0 /\ flag_master cl = flag_master cl0.

Lemma like_refusal s cl cmd : like s cl -> refusal s cl cmd = refusal s0 cl0 cmd.
Proof. intros (Ec&Em&El&Ea&Ep&Ef). unfold refusal. by rewrite Ec, Em, El, Ea, Ep, Ef. Qed.

Lemma like_data s s' cl cl' : same_data s s' -> like s cl -> authenticated cl' = authenticated cl -> flag_pubsub cl' = flag_pubsub cl ->
  flag_master cl' = flag_master cl -> like s' cl'.
Proof. intros SD (?&?&?&?&?&?) ???. destruct SD. repeat split; congruence. Qed.

(** The flags of the client and the commands it has queued; no error occurred in queueing. *)
Definition trans (multi cas : bool) (q : list command) (s : server) : Prop :=
  wf s /\ exists cl, clients s !! c = Some cl /\ flag_multi cl = multi /\ flag_dirty_cas cl = cas /\
    flag_dirty_exec cl = false /\ mstate cl = q /\ like s cl.

(** No flag stops EXEC. *)
Local Abbreviation clean multi q := (trans multi false q).

(** [call] adds nothing to what the command does to the client. *)
Lemma call_trans (p : Z -> command -> M kreply) cmd m ca q (P : kreply -> server -> Prop) s : trans m ca q s ->
  (forall s1, trans m ca q s1 -> wp (p c cmd) (fun r s2 => P r s2 /\ is_Some (clients s2 !! c)) s1) ->
  (forall r s2 l, P r s2 -> P r (with_feed s2 l)) ->
  wp (call_with p c cmd) P s.
Proof.
  intros (Hwf&cl&E&Hm&Hc&He&Hq&Hl) Hp Hf. eapply wp_client; [exact E|]. eapply wp_step; [done|]. apply wp_bind, wp_get.
  eapply wp_seq; [apply Hp; split; [by apply argv_wf|]|].
  - exists (with_argv cl cmd). split; [apply lookup_insert_eq|done].
  - intros r s2 (HP&[cl2 E2]). apply wp_bind, wp_get. eapply wp_client; [exact E2|].
    destruct (_ >? 0); [eapply wp_step; [done|]|apply wp_bind, wp_ret]; apply wp_ret; [by apply Hf|done].
Qed.

Lemma trans_client m ca q s : trans m ca q s -> is_Some (clients s !! c).
Proof. intros (_&cl&E&_). eauto. Qed.

Lemma trans_feed m ca q s l : trans m ca q s -> trans m ca q (with_feed s l).
Proof. intros (Hwf&cl&E&H). split; [by apply with_feed_wf|]. by exists cl. Qed.

Lemma unwatch_clean ca q s : trans false ca q s -> wp (unwatchCommand c) (fun _ s' => clean false q s') s.
Proof.
  intros (Hwf&cl&E&Hm&_&He&Hq&Hl). eapply wp_seq; [by apply (unwatchAll_wp s c cl)|]. intros _ s1 (W1&SD&Ec&_&_).
  assert (clients s1 !! c = Some (with_watched cl [])) as E1 by (rewrite Ec; apply lookup_insert_eq).
  eapply wp_client; [exact E1|]. eapply wp_step; [done|]. apply wp_ret. split.
  - eapply put_wf; [done|exact E1|done|]. eapply client_wf_data; [apply (wf_clients _ W1 _ _ E1)|by auto..].
  - eexists. split; [apply lookup_insert_eq|]. repeat (split; [done|]). by apply (like_data s _ cl); [destruct SD|..].
Qed.

Lemma watch_clean ks : forall m q s, clean m q s -> wp (iterM (watchForKey c) ks) (fun _ s' => clean m q s') s.
Proof.
  induction ks as [|k ks IH]; intros m q s Hs; cbn [iterM]; [by apply wp_ret|]. destruct Hs as (Hwf&cl&E&Hm&Hc&He&Hq&Hl).
  eapply wp_seq; [by apply (watchForKey_wp s c cl k)|]. intros _ s1 (W1&W&(SD&Ec&_)&_&_). apply IH. split; [done|].
  exists (with_watched cl W). split; [rewrite Ec; apply lookup_insert_eq|]. repeat (split; [done|]). by apply (like_data s _ cl).
Qed.

Lemma multi_clean q s : clean false q s -> wp (multiCommand c) (fun _ s' => clean true q s') s.
Proof.
  intros (Hwf&cl&E&Hm&Hc&He&Hq&Hl). eapply wp_client; [exact E|]. rewrite Hm. eapply wp_step; [done|]. apply wp_ret. split.
  - eapply put_wf; [done|exact E|done|]. eapply client_wf_data; [apply (wf_clients _ Hwf _ _ E)|by auto..].
  - eexists. split; [apply lookup_insert_eq|]. by rewrite Hc, He.
Qed.

(** A request that is executed. *)
Lemma called_wp cmd m ca q (P : kreply -> server -> Prop) s : trans m ca q s -> refusal s0 cl0 cmd = None -> m && queueable cmd = false ->
  (forall s1, trans m ca q s1 -> wp (proc c cmd) (fun r s2 => P r s2 /\ is_Some (clients s2 !! c)) s1) ->
  (forall r s2 l, P r s2 -> P r (with_feed s2 l)) ->
  wp (handle (ERequest c (Some cmd))) (fun r s' => exists x, r = Some x /\ P x s') s.
Proof.
  intros Hs Hr Hq Hp Hf. pose proof Hs as (Hwf&cl&E&Hm&_&_&_&Hl). eapply request_wp; [done|exact E| |].
  { intros f e cl' s' Er. rewrite (like_refusal _ _ _ Hl) in Er. congruence. }
  intros _. rewrite Hm, Hq. eapply wp_mono; [by apply (call_trans proc cmd m ca q P)|]. eauto.
Qed.

(** A request that is queued. *)
Lemma queue_clean cmd q s : clean true q s -> refusal s0 cl0 cmd = None -> queueable cmd = true -> cmd_ok cmd ->
  wp (handle (ERequest c (Some cmd))) (fun r s' => clean true (q ++ [cmd]) s') s.
Proof.
  intros (Hwf&cl&E&Hm&Hc&He&Hq&Hl) Hr Hqu Hok. eapply request_wp; [done|exact E| |].
  { intros f e cl' s' Er. rewrite (like_refusal _ _ _ Hl) in Er. congruence. }
  intros _. rewrite Hm, Hqu.
  apply wp_bind. eapply wp_client; [exact E|]. eapply wp_exec; [done|]. apply wp_ret. destruct (wf_clients _ Hwf _ _ E) as [A B C D]. split.
  - eapply put_wf; [done|exact E|done|]. constructor; try done. cbn [mstate with_mstate]. apply Forall_app. split; [done|]. by repeat constructor.
  - eexists. split; [apply lookup_insert_eq|]. rewrite <-Hq. done.
Qed.

(** The loop of EXEC gives a reply for each command. *)
Lemma exec_loop_replies cmds : forall s b rs, wf s -> is_Some (clients s !! c) ->
  Forall (fun cmd => queueable cmd = true /\ cmd_ok cmd) cmds ->
  wp (exec_loop c cmds b rs) (fun r s' => wf s' /\ is_Some (clients s' !! c) /\ length r.2 = (length rs + length cmds)%nat) s.
Proof.
  induction cmds as [|cmd cmds IH]; intros s b rs Hwf Hc Hq; cbn [exec_loop]; [apply wp_ret; cbn; auto with lia|].
  apply Forall_cons in Hq as [[Hq1 Hok] Hq]. pose proof Hc as [cl E]. eapply wp_client; [exact E|].
  eapply (wp_seq _ _ (fun _ s' => safe 0 0 [] False s s')).
  { destruct (_ && _); [by apply propagate_safe|by apply wp_ret, safe_refl]. }
  intros ? s1 S1. cbv beta in S1. eapply wp_seq.
  { apply (call_safe 0 0 [] False); [apply S1|by apply S1|]. intros s' W' C' _. by apply proc_queueable_safe. }
  intros r s2 S2. cbv beta in S2. eapply wp_mono; [apply IH; [apply S2|apply S2; by apply S1|done]|].
  intros ? s3 (?&?&Hl). split; [done|]. split; [done|]. rewrite Hl, length_app. cbn. lia.
Qed.

(** What EXEC promises: it was executed, with a reply for each command. *)
Definition executed (n : nat) (r : kreply) (s : server) : Prop := wf s /\ exists l, r = RArray l /\ length l = n.

Lemma exec_clean q s : clean true q s -> wp (execCommand c) (fun r s' => executed (length q) r s' /\ is_Some (clients s' !! c)) s.
Proof.
  intros (Hwf&cl&E&Hm&Hc&He&Hq&_). eapply wp_client; [exact E|]. rewrite Hm, Hc, He. cbn [negb orb].
  eapply wp_seq; [by apply (unwatchAll_wp s c cl)|]. intros _ s1 (W1&_&Ec1&_&_).
  eapply wp_seq; [apply exec_loop_replies; [done|rewrite Ec1, lookup_insert_eq; eauto|apply (wf_clients _ Hwf _ _ E)]|].
  intros [mp rs] s2 (W2&[cl2 E2]&Hl). eapply wp_client; [exact E2|]. eapply wp_step; [done|].
  eapply wp_seq; [eapply (discard_wp _ c (with_argv cl2 CExec)); [by apply argv_wf|apply lookup_insert_eq]|].
  intros _ s4 (W4&_&Ec4&_&_). assert (is_Some (clients s4 !! c)) as Hc4 by (rewrite Ec4, lookup_insert_eq; eauto).
  cbn [snd length] in Hl. rewrite Hq in Hl.
  destruct mp; [eapply wp_step; [done|]|apply wp_bind, wp_ret]; apply wp_ret; (split; [split; [|eauto]|done]); [by apply with_dirty_wf|done].
Qed.

(** ** Runs *)

Lemma wp_run_cons e l s Q : wp (handle e) (fun r s' => wp (run l) (fun rs s2 => Q (r :: rs) s2) s') s -> wp (run (e :: l)) Q s.
Proof. intros H. cbn [run]. eapply wp_seq; [exact H|]. intros r s1 H1. eapply wp_seq; [exact H1|]. intros rs s2 H2. by apply wp_ret. Qed.

Lemma queue_run cmds l Q : forall q s, clean true q s -> Forall (fun cmd => queueable cmd = true /\ cmd_ok cmd) cmds ->
  Forall (fun cmd => refusal s0 cl0 cmd = None) cmds -> (forall s', clean true (q ++ cmds) s' -> wp (run l) (fun rs s2 => forall rs0, Q (rs0 ++ rs) s2) s') ->
  forall rs0, wp (run (((fun cmd => ERequest c (Some cmd)) <$> cmds) ++ l)) (fun rs s' => Q (rs0 ++ rs) s') s.
Proof.
  induction cmds as [|cmd cmds IH]; intros q s Hs Hq Hr H rs0; cbn [fmap list_fmap app].
  { eapply wp_mono; [apply H; by rewrite app_nil_r|]. intros rs s' HQ. apply HQ. }
  apply Forall_cons in Hq as [[Hq1 Hok] Hq]. apply Forall_cons in Hr as [Hr1 Hr]. apply wp_run_cons. eapply wp_mono; [by apply queue_clean|]. intros r s1 C1. cbv beta in C1.
  eapply wp_mono; [apply (IH (q ++ [cmd]) s1 C1 Hq Hr) with (rs0 := rs0 ++ [r])|].
  - intros s' C'. apply H. by rewrite <-app_assoc in C'.
  - intros rs s' HQ. cbv beta in HQ. by rewrite <-app_assoc in HQ.
Qed.

End progress.

(** C11: Optimistic transactions make progress: when a client that is not in a transaction
    sends UNWATCH, WATCH with any keys, MULTI, any commands that can be queued, and EXEC,
    none of these requests is one the server refuses in its present state (for want of a
    password, memory, disk, slaves or a master, as a read only slave, in the context of
    channels, while loading or in a slow script), and nothing comes in between, then the
    transaction is executed, whatever the keys are: EXEC replies with the replies of all the
    commands, one for each, and never with an abort. *)
Theorem undisturbed_transaction_executes (c : Z) (cl : client) (s : server) (ks : list key) (cmds : list command) :
  wf s -> clients s !! c = Some cl -> flag_multi cl = false -> flag_dirty_exec cl = false -> mstate cl = [] ->
  Forall (fun cmd => queueable cmd = true /\ cmd_ok cmd) cmds ->
  Forall (fun cmd => refusal s cl cmd = None) ([CUnwatch; CWatch ks; CMulti] ++ cmds ++ [CExec]) ->
  exists s' rs replies,
    run ((fun cmd => ERequest c (Some cmd)) <$> [CUnwatch; CWatch ks; CMulti] ++ cmds ++ [CExec]) s = Some (s', rs) /\
    last rs = Some (Some (RArray replies)) /\ length replies = length cmds /\ wf s'.
Proof.
  intros Hwf E Hm He Hq Hcmds Href. set (Q := fun (rs : list (option kreply)) s' => exists l, last rs = Some (Some (RArray l)) /\ length l = length cmds /\ wf s').
  enough (wp (run ((fun cmd => ERequest c (Some cmd)) <$> [CUnwatch; CWatch ks; CMulti] ++ cmds ++ [CExec])) Q s) as (s'&rs&Hr&l&H)
    by (exists s', rs, l; done).
  apply Forall_app in Href as [(R1&(R2&(R3&_)%Forall_cons)%Forall_cons)%Forall_cons (R4&(R5&_)%Forall_cons)%Forall_app].
  rewrite !fmap_app. cbn [fmap list_fmap app]. apply wp_run_cons.
  assert (trans c s cl false (flag_dirty_cas cl) [] s) as C0 by (split; [done|]; by exists cl).
  eapply wp_mono; [apply (called_wp c s cl CUnwatch _ _ _ (fun _ s' => trans c s cl false false [] s') s C0 R1 eq_refl)|].
  { intros s1 C1. pose proof C1 as (_&cl1&E1&_). eapply wp_client; [exact E1|]. eapply wp_mono; [by eapply unwatch_clean|].
    intros ? s2 C2. cbv beta in C2. split; [done|by eapply trans_client]. }
  { intros _ s2 l. apply trans_feed. }
  intros r1 s1 (?&_&C1). apply wp_run_cons.
  eapply wp_mono; [apply (called_wp c s cl (CWatch ks) _ _ _ (fun _ s' => trans c s cl false false [] s') s1 C1 R2 eq_refl)|].
  { intros s2 C2. pose proof C2 as (_&cl2&E2&Hm2&_). eapply wp_client; [exact E2|]. rewrite Hm2.
    eapply wp_seq; [by apply (watch_clean c s cl)|]. intros ? s3 C3. cbv beta in C3. apply wp_ret. split; [done|by eapply trans_client]. }
  { intros _ s2 l. apply trans_feed. }
  intros r2 s2 (?&_&C2). apply wp_run_cons.
  eapply wp_mono; [apply (called_wp c s cl CMulti _ _ _ (fun _ s' => trans c s cl true false [] s') s2 C2 R3 eq_refl)|].
  { intros s3 C3. eapply wp_mono; [by apply (multi_clean c s cl)|]. intros ? s4 C4. cbv beta in C4. split; [done|by eapply trans_client]. }
  { intros _ s3 l. apply trans_feed. }
  intros r3 s3 (?&_&C3). apply (queue_run c s cl cmds _ Q [] s3 C3 Hcmds R4) with (rs0 := [r1; r2; r3]).
  intros s4 C4. apply wp_run_cons.
  eapply wp_mono; [apply (called_wp c s cl CExec _ _ _ (executed (length cmds)) s4 C4 R5 eq_refl)|].
  { intros s5 C5. by apply (exec_clean c s cl). }
  { intros r s5 l [W ?]. split; [by apply with_feed_wf|done]. }
  intros r4 s5 (y&->&W5&l&->&Hl). apply wp_ret. intros rs0. exists l. by rewrite last_snoc.
Qed.

Lemma undisturbed_transaction_executes_witness : exists s' rs replies,
  run ((fun cmd => ERequest 1 (Some cmd)) <$> [CUnwatch; CWatch [[107]; [108]]; CMulti] ++ [CGet [107]; CDel [[107]]] ++ [CExec]) example_state = Some (s', rs) /\
  last rs = Some (Some (RArray replies)) /\ length replies = 2%nat /\ wf s'.
Proof.
  eapply (undisturbed_transaction_executes 1 _ example_state [[107]; [108]] [CGet [107]; CDel [[107]]]); [apply watch_example_ok|vm_compute; reflexivity|reflexivity|reflexivity|reflexivity|..].
  - repeat constructor.
  - repeat constructor; vm_compute; reflexivity.
Defined.
