(* ===== verification/ClusterSlots.v ===== *)
(** * cluster.c: nodes, slots and configuration epochs

    The view one cluster node has of the cluster: the known nodes, the owner of each
    of the 16384 slots, the migrations in progress and the epochs. A pointer to a
    [clusterNode] is the name of the node, a key of [nodes]; names are compared as
    the 40-byte strings they are, so an integer in big-endian order stands for them.
    A failed [serverAssert] and a read through a NULL pointer are [None]. *)

From stdpp Require Import gmap.
From S2P Require Import Prelude Bits.

(** ** Data *)

Definition CLUSTER_SLOTS : Z := 16384.
Definition CLUSTER_OK : Z := 0.
Definition CLUSTER_FAIL : Z := 1.

Definition CLUSTER_NODE_MASTER : Z := 1.
Definition CLUSTER_NODE_SLAVE : Z := 2.
Definition CLUSTER_NODE_PFAIL : Z := 4.
Definition CLUSTER_NODE_FAIL : Z := 8.
Definition CLUSTER_NODE_MIGRATE_TO : Z := 256.

Record clusterNode := ClusterNode {
  flags : Z;
  configEpoch : Z;
  node_slots : list Z;           (* the bitmap slots[CLUSTER_SLOTS/8] *)
  numslots : Z;
  slaves : list Z;               (* the first numslaves elements of the array *)
  slaveof : option Z;
  repl_offset : Z;
  voted_time : Z;
  link : bool                    (* whether link is not NULL *)
}.

(** The fields of [clusterState] that elections use. *)
Record electionState := Election {
  failover_auth_time : Z;
  failover_auth_count : Z;
  failover_auth_sent : bool;
  failover_auth_rank : Z;
  failover_auth_epoch : Z;
  cant_failover_reason : Z;
  mf_end : Z;
  mf_slave : option Z;
  mf_master_offset : Z;
  mf_can_start : bool;
  lastVoteEpoch : Z
}.

Record clusterState := ClusterState {
  myself : Z;
  currentEpoch : Z;
  state : Z;
  size : Z;
  nodes : gmap Z clusterNode;
  migrating_slots_to : list (option Z);
  importing_slots_from : list (option Z);
  slots : list (option Z);
  slots_keys_count : list Z;
  election : electionState
}.

(** Assignments to fields. *)
Definition with_flags (n : clusterNode) (f : Z) : clusterNode :=
  ClusterNode f (configEpoch n) (node_slots n) (numslots n) (slaves n) (slaveof n) (repl_offset n) (voted_time n) (link n).
Definition with_configEpoch (n : clusterNode) (e : Z) : clusterNode :=
  ClusterNode (flags n) e (node_slots n) (numslots n) (slaves n) (slaveof n) (repl_offset n) (voted_time n) (link n).
Definition with_node_slots (n : clusterNode) (b : list Z) (k : Z) : clusterNode :=
  ClusterNode (flags n) (configEpoch n) b k (slaves n) (slaveof n) (repl_offset n) (voted_time n) (link n).
Definition with_slaves (n : clusterNode) (l : list Z) : clusterNode :=
  ClusterNode (flags n) (configEpoch n) (node_slots n) (numslots n) l (slaveof n) (repl_offset n) (voted_time n) (link n).
Definition with_slaveof (n : clusterNode) (m : option Z) : clusterNode :=
  ClusterNode (flags n) (configEpoch n) (node_slots n) (numslots n) (slaves n) m (repl_offset n) (voted_time n) (link n).
Definition with_voted_time (n : clusterNode) (t : Z) : clusterNode :=
  ClusterNode (flags n) (configEpoch n) (node_slots n) (numslots n) (slaves n) (slaveof n) (repl_offset n) t (link n).

Definition with_nodes (st : clusterState) (m : gmap Z clusterNode) : clusterState :=
  ClusterState (myself st) (currentEpoch st) (state st) (size st) m (migrating_slots_to st) (importing_slots_from st)
    (slots st) (slots_keys_count st) (election st).
Definition with_slots (st : clusterState) (s : list (option Z)) : clusterState :=
  ClusterState (myself st) (currentEpoch st) (state st) (size st) (nodes st) (migrating_slots_to st) (importing_slots_from st)
    s (slots_keys_count st) (election st).
Definition with_currentEpoch (st : clusterState) (e : Z) : clusterState :=
  ClusterState (myself st) e (state st) (size st) (nodes st) (migrating_slots_to st) (importing_slots_from st)
    (slots st) (slots_keys_count st) (election st).
Definition with_state_size (st : clusterState) (s k : Z) : clusterState :=
  ClusterState (myself st) (currentEpoch st) s k (nodes st) (migrating_slots_to st) (importing_slots_from st)
    (slots st) (slots_keys_count st) (election st).
Definition with_election (st : clusterState) (e : electionState) : clusterState :=
  ClusterState (myself st) (currentEpoch st) (state st) (size st) (nodes st) (migrating_slots_to st) (importing_slots_from st)
    (slots st) (slots_keys_count st) e.
Definition with_open_slots (st : clusterState) (m i : list (option Z)) : clusterState :=
  ClusterState (myself st) (currentEpoch st) (state st) (size st) (nodes st) m i
    (slots st) (slots_keys_count st) (election st).

Definition put_node (st : clusterState) (n : Z) (nd : clusterNode) : clusterState := with_nodes st (<[n := nd]> (nodes st)).

Definition has_flag (nd : clusterNode) (f : Z) : bool := negb (Z.land (flags nd) f =? 0).
Definition nodeIsMaster (nd : clusterNode) : bool := has_flag nd CLUSTER_NODE_MASTER.
Definition nodeIsSlave (nd : clusterNode) : bool := has_flag nd CLUSTER_NODE_SLAVE.
Definition nodeFailed (nd : clusterNode) : bool := has_flag nd CLUSTER_NODE_FAIL.
Definition set_flag (nd : clusterNode) (f : Z) : clusterNode := with_flags nd (Z.lor (flags nd) f).
Definition clear_flag (nd : clusterNode) (f : Z) : clusterNode := with_flags nd (Z.land (flags nd) (Z.lnot f)).

(** ** Slot bitmaps *)

Definition bitmapTestBit (bitmap : list Z) (pos : Z) : option bool :=
  b ← rd1 bitmap (pos / 8);
  Some (negb (Z.land b (Z.shiftl 1 (Z.land pos 7)) =? 0)).

Definition bitmapSetBit (bitmap : list Z) (pos : Z) : option (list Z) :=
  b ← rd1 bitmap (pos / 8);
  wr bitmap (pos / 8) [u8 (Z.lor b (Z.shiftl 1 (Z.land pos 7)))].

Definition bitmapClearBit (bitmap : list Z) (pos : Z) : option (list Z) :=
  b ← rd1 bitmap (pos / 8);
  wr bitmap (pos / 8) [u8 (Z.land b (Z.lnot (Z.shiftl 1 (Z.land pos 7))))].

Definition clusterMastersHaveSlaves (st : clusterState) : bool :=
  negb (map_fold (fun _ nd acc => if nodeIsSlave nd then acc else acc + Z.of_nat (length (slaves nd))) 0 (nodes st) =? 0).

Definition clusterNodeSetSlotBit (st : clusterState) (n slot : Z) : option (clusterState * bool) :=
  nd ← nodes st !! n;
  old ← bitmapTestBit (node_slots nd) slot;
  bm ← bitmapSetBit (node_slots nd) slot;
  let nd := with_node_slots nd bm (numslots nd) in
  if (old : bool) then Some (put_node st n nd, old) else
  let nd := with_node_slots nd bm (numslots nd + 1) in
  let st := put_node st n nd in
  let nd := if (numslots nd =? 1) && clusterMastersHaveSlaves st then set_flag nd CLUSTER_NODE_MIGRATE_TO else nd in
  Some (put_node st n nd, old).

Definition clusterNodeClearSlotBit (st : clusterState) (n slot : Z) : option (clusterState * bool) :=
  nd ← nodes st !! n;
  old ← bitmapTestBit (node_slots nd) slot;
  bm ← bitmapClearBit (node_slots nd) slot;
  let nd := with_node_slots nd bm (if (old : bool) then numslots nd - 1 else numslots nd) in
  Some (put_node st n nd, old).

Definition clusterNodeGetSlotBit (nd : clusterNode) (slot : Z) : option bool := bitmapTestBit (node_slots nd) slot.

(** ** Slot ownership *)

(** [server.cluster->slots[slot]], within the array. *)
Definition slot_owner (st : clusterState) (slot : Z) : option (option Z) :=
  if bool_decide (0 <= slot) then slots st !! Z.to_nat slot else None.

(** The flag is C_OK. *)
Definition clusterAddSlot (st : clusterState) (n slot : Z) : option (clusterState * bool) :=
  o ← slot_owner st slot;
  match o with
  | Some _ => Some (st, false)
  | None =>
    '(st, _) ← clusterNodeSetSlotBit st n slot;
    Some (with_slots st (<[Z.to_nat slot := Some n]> (slots st)), true)
  end.

Definition clusterDelSlot (st : clusterState) (slot : Z) : option (clusterState * bool) :=
  o ← slot_owner st slot;
  match o with
  | None => Some (st, false)
  | Some n =>
    '(st, old) ← clusterNodeClearSlotBit st n slot;
    if negb old then None else
    Some (with_slots st (<[Z.to_nat slot := None]> (slots st)), true)
  end.

(** [for (j = ...; j < CLUSTER_SLOTS; j++)] with [k] slots left. *)
Fixpoint delNodeSlots_loop (k : nat) (j : Z) (st : clusterState) (n deleted : Z) : option (clusterState * Z) :=
  match k with
  | O => Some (st, deleted)
  | S k =>
    nd ← nodes st !! n;
    b ← clusterNodeGetSlotBit nd j;
    if (b : bool) then
      '(st, _) ← clusterDelSlot st j;
      delNodeSlots_loop k (j + 1) st n (deleted + 1)
    else delNodeSlots_loop k (j + 1) st n deleted
  end.

Definition clusterDelNodeSlots (st : clusterState) (n : Z) : option (clusterState * Z) :=
  delNodeSlots_loop (Z.to_nat CLUSTER_SLOTS) 0 st n 0.

Definition clusterCloseAllSlots (st : clusterState) : clusterState :=
  with_open_slots st (replicate (Z.to_nat CLUSTER_SLOTS) None) (replicate (Z.to_nat CLUSTER_SLOTS) None).

(** ** Masters and slaves *)

(** The index of the slave in the array, or not found. *)
Definition clusterNodeRemoveSlave (st : clusterState) (master slave : Z) : option (clusterState * bool) :=
  m ← nodes st !! master;
  match list_find (eq slave) (slaves m) with
  | None => Some (st, false)
  | Some (j, _) =>
    let m := with_slaves m (delete j (slaves m)) in
    let m := if bool_decide (slaves m = []) then clear_flag m CLUSTER_NODE_MIGRATE_TO else m in
    Some (put_node st master m, true)
  end.

Definition clusterNodeAddSlave (st : clusterState) (master slave : Z) : option (clusterState * bool) :=
  m ← nodes st !! master;
  if bool_decide (slave ∈ slaves m) then Some (st, false) else
  Some (put_node st master (set_flag (with_slaves m (slaves m ++ [slave])) CLUSTER_NODE_MIGRATE_TO), true).

Definition clusterSetNodeAsMaster (st : clusterState) (n : Z) : option clusterState :=
  nd ← nodes st !! n;
  if nodeIsMaster nd then Some st else
  st ← match slaveof nd with
       | None => Some st
       | Some m =>
         '(st, _) ← clusterNodeRemoveSlave st m n;
         nd ← nodes st !! n;
         Some (if bool_decide (n = myself st) then st else put_node st n (set_flag nd CLUSTER_NODE_MIGRATE_TO))
       end;
  nd ← nodes st !! n;
  Some (put_node st n (with_slaveof (set_flag (clear_flag nd CLUSTER_NODE_SLAVE) CLUSTER_NODE_MASTER) None)).

(** The pause of the clients that the function ends is not part of this state. *)
Definition resetManualFailover (st : clusterState) : clusterState :=
  let e := election st in
  with_election st (Election (failover_auth_time e) (failover_auth_count e) (failover_auth_sent e) (failover_auth_rank e)
    (failover_auth_epoch e) (cant_failover_reason e) 0 None 0 false (lastVoteEpoch e)).

(** Effects on other components. *)
Inductive effect := DelKeysInSlot (slot : Z) | ReplicationSetMaster (n : Z) | ReplicationUnsetMaster | BroadcastPong (target : Z).

Definition CLUSTER_BROADCAST_ALL : Z := 0.
Definition CLUSTER_BROADCAST_LOCAL_SLAVES : Z := 1.

Definition clusterSetMaster (st : clusterState) (n : Z) : option (clusterState * list effect) :=
  if bool_decide (n = myself st) then None else
  me ← nodes st !! myself st;
  if negb (numslots me =? 0) then None else
  st ← (if nodeIsMaster me then
          let me := set_flag (clear_flag me (Z.lor CLUSTER_NODE_MASTER CLUSTER_NODE_MIGRATE_TO)) CLUSTER_NODE_SLAVE in
          Some (clusterCloseAllSlots (put_node st (myself st) me))
        else match slaveof me with
             | None => Some st
             | Some m => '(st, _) ← clusterNodeRemoveSlave st m (myself st); Some st
             end);
  me ← nodes st !! myself st;
  let st := put_node st (myself st) (with_slaveof me (Some n)) in
  '(st, _) ← clusterNodeAddSlave st n (myself st);
  Some (resetManualFailover st, [ReplicationSetMaster n]).

(** ** Configuration updates *)

(** The loop of [clusterUpdateSlotsConfigWith]: the state, whether [newmaster] was set,
    and the dirty slots. *)
Fixpoint updateSlots_loop (k : nat) (j : Z) (st : clusterState) (sender senderConfigEpoch : Z) (bm : list Z)
    (curmaster : option Z) (newmaster : bool) (dirty : list Z) : option (clusterState * bool * list Z) :=
  match k with
  | O => Some (st, newmaster, dirty)
  | S k =>
    let next := updateSlots_loop k (j + 1) in
    b ← bitmapTestBit bm j;
    if negb b then next st sender senderConfigEpoch bm curmaster newmaster dirty else
    o ← slot_owner st j;
    if bool_decide (o = Some sender) then next st sender senderConfigEpoch bm curmaster newmaster dirty else
    imp ← importing_slots_from st !! Z.to_nat j;
    if bool_decide (imp <> None) then next st sender senderConfigEpoch bm curmaster newmaster dirty else
    rebind ← match o with
             | None => Some true
             | Some n => nd ← nodes st !! n; Some (configEpoch nd <? senderConfigEpoch)
             end;
    if negb rebind then next st sender senderConfigEpoch bm curmaster newmaster dirty else
    c ← slots_keys_count st !! Z.to_nat j;
    let dirty := if bool_decide (o = Some (myself st)) && negb (c =? 0) && bool_decide (sender <> myself st)
                 then dirty ++ [j] else dirty in
    let newmaster := newmaster || bool_decide (o = curmaster) in
    '(st, _) ← clusterDelSlot st j;
    '(st, _) ← clusterAddSlot st sender j;
    next st sender senderConfigEpoch bm curmaster newmaster dirty
  end.

Definition clusterUpdateSlotsConfigWith (st : clusterState) (sender senderConfigEpoch : Z) (bm : list Z)
  : option (clusterState * list effect) :=
  me ← nodes st !! myself st;
  let curmaster := if nodeIsMaster me then Some (myself st) else slaveof me in
  if bool_decide (sender = myself st) then Some (st, []) else
  '(st, newmaster, dirty) ← updateSlots_loop (Z.to_nat CLUSTER_SLOTS) 0 st sender senderConfigEpoch bm curmaster false [];
  demoted ← (if (newmaster : bool) then
               m ← curmaster;             (* curmaster->numslots *)
               cm ← nodes st !! m;
               Some (numslots cm =? 0)
             else Some false);
  if (demoted : bool) then clusterSetMaster st sender
  else Some (st, map DelKeysInSlot dirty).

(** ** Configuration epochs *)

Definition clusterGetMaxEpoch (st : clusterState) : Z :=
  let max := map_fold (fun _ nd max => if max <? configEpoch nd then configEpoch nd else max) 0 (nodes st) in
  if max <? currentEpoch st then currentEpoch st else max.

(** [server.cluster->currentEpoch++; myself->configEpoch = server.cluster->currentEpoch]. *)
Definition take_epoch (st : clusterState) (me : clusterNode) : clusterState :=
  let e := u64 (currentEpoch st + 1) in
  put_node (with_currentEpoch st e) (myself st) (with_configEpoch me e).

Definition clusterBumpConfigEpochWithoutConsensus (st : clusterState) : option (clusterState * bool) :=
  me ← nodes st !! myself st;
  if (configEpoch me =? 0) || negb (configEpoch me =? clusterGetMaxEpoch st)
  then Some (take_epoch st me, true) else Some (st, false).

Definition clusterHandleConfigEpochCollision (st : clusterState) (sender : Z) : option clusterState :=
  s ← nodes st !! sender;
  me ← nodes st !! myself st;
  if negb (configEpoch s =? configEpoch me) || negb (nodeIsMaster s) || negb (nodeIsMaster me) then Some st else
  if sender <=? myself st then Some st else
  Some (take_epoch st me).

(** ** The state of the cluster and the failover of a slave *)

Definition CLUSTER_MAX_REJOIN_DELAY : Z := 5000.
Definition CLUSTER_MIN_REJOIN_DELAY : Z := 500.
Definition CLUSTER_WRITABLE_DELAY : Z := 2000.

(** The static variables of [clusterUpdateState]. *)
Record stateClock := StateClock { among_minority_time : Z; first_call_time : Z }.

(** Every slot of [l] has an owner that is not flagged as failing; the loop stops at the
    first one that has not. *)
Fixpoint slots_covered (m : gmap Z clusterNode) (l : list (option Z)) : option bool :=
  match l with
  | [] => Some true
  | None :: _ => Some false
  | Some n :: l => nd ← m !! n; if nodeFailed nd then Some false else slots_covered m l
  end.

(** The size of the cluster and the masters with slots that are reachable. *)
Definition count_masters (st : clusterState) : Z * Z :=
  map_fold (fun _ nd '(size, reachable) =>
    if nodeIsMaster nd && negb (numslots nd =? 0) then
      (size + 1, if Z.land (flags nd) (Z.lor CLUSTER_NODE_FAIL CLUSTER_NODE_PFAIL) =? 0 then reachable + 1 else reachable)
    else (size, reachable)) (0, 0) (nodes st).

(** [now] is [mstime()]. *)
Definition clusterUpdateState (now cluster_node_timeout : Z) (cluster_require_full_coverage : bool)
    (st : clusterState) (clk : stateClock) : option (clusterState * stateClock) :=
  me ← nodes st !! myself st;
  let clk := if first_call_time clk =? 0 then StateClock (among_minority_time clk) now else clk in
  if nodeIsMaster me && (state st =? CLUSTER_FAIL) && (now - first_call_time clk <? CLUSTER_WRITABLE_DELAY)
  then Some (st, clk) else
  covered ← (if cluster_require_full_coverage then slots_covered (nodes st) (slots st) else Some true);
  let new_state := if (covered : bool) then CLUSTER_OK else CLUSTER_FAIL in
  let '(size, reachable_masters) := count_masters st in
  let st := with_state_size st (state st) size in
  let needed_quorum := size / 2 + 1 in
  let '(new_state, clk) := if reachable_masters <? needed_quorum
                           then (CLUSTER_FAIL, StateClock now (first_call_time clk)) else (new_state, clk) in
  if new_state =? state st then Some (st, clk) else
  let rejoin_delay := cluster_node_timeout in
  let rejoin_delay := if CLUSTER_MAX_REJOIN_DELAY <? rejoin_delay then CLUSTER_MAX_REJOIN_DELAY else rejoin_delay in
  let rejoin_delay := if rejoin_delay <? CLUSTER_MIN_REJOIN_DELAY then CLUSTER_MIN_REJOIN_DELAY else rejoin_delay in
  if (new_state =? CLUSTER_OK) && nodeIsMaster me && (now - among_minority_time clk <? rejoin_delay) then Some (st, clk)
  else Some (with_state_size st new_state size, clk).

(** Step 2 of [clusterFailoverReplaceYourMaster]. *)
Fixpoint claimSlots_loop (k : nat) (j : Z) (st : clusterState) (oldmaster : Z) : option clusterState :=
  match k with
  | O => Some st
  | S k =>
    om ← nodes st !! oldmaster;
    b ← clusterNodeGetSlotBit om j;
    if (b : bool) then
      '(st, _) ← clusterDelSlot st j;
      '(st, _) ← clusterAddSlot st (myself st) j;
      claimSlots_loop k (j + 1) st oldmaster
    else claimSlots_loop k (j + 1) st oldmaster
  end.

Definition clusterFailoverReplaceYourMaster (now cluster_node_timeout : Z) (cluster_require_full_coverage : bool)
    (st : clusterState) (clk : stateClock) : option (clusterState * stateClock * list effect) :=
  me ← nodes st !! myself st;
  match slaveof me with
  | None => Some (st, clk, [])
  | Some oldmaster =>
    if nodeIsMaster me then Some (st, clk, []) else
    st ← clusterSetNodeAsMaster st (myself st);
    st ← claimSlots_loop (Z.to_nat CLUSTER_SLOTS) 0 st oldmaster;
    '(st, clk) ← clusterUpdateState now cluster_node_timeout cluster_require_full_coverage st clk;
    Some (resetManualFailover st, clk, [ReplicationUnsetMaster; BroadcastPong CLUSTER_BROADCAST_ALL])
  end.

(** ** Bitmaps as sets of positions *)

Definition bit_of (bm : list Z) (j : Z) : bool := Z.testbit (nth (Z.to_nat (j / 8)) bm 0) (j mod 8).

Lemma rd1_byte bm j :
  Forall is_byte bm -> 0 <= j < 8 * Z.of_nat (length bm) ->
  exists b, rd1 bm (j / 8) = Some b /\ is_byte b /\ nth (Z.to_nat (j / 8)) bm 0 = b.
Proof.
  intros Hb Hj. assert (0 <= j / 8 < Z.of_nat (length bm)) by zlia.
  unfold rd1. rewrite bool_decide_true by lia. destruct (lookup_lt_is_Some_2 bm (Z.to_nat (j / 8))) as [b Eb]; [lia|].
  exists b. split; [done|]. split; [exact (Forall_lookup_1 _ _ _ _ Hb Eb)|by apply nth_lookup_Some].
Qed.

Lemma bitmapTestBit_spec bm j :
  Forall is_byte bm -> 0 <= j < 8 * Z.of_nat (length bm) -> bitmapTestBit bm j = Some (bit_of bm j).
Proof.
  intros Hb Hj. destruct (rd1_byte bm j Hb Hj) as (b & E & _ & En). unfold bitmapTestBit, bit_of. rewrite E, En. mred.
  rewrite land_7, land_bit by zlia. destruct (Z.testbit b (j mod 8)); [|done].
  by rewrite (proj2 (Z.eqb_neq _ _)) by (apply Z.pow_nonzero; zlia).
Qed.

(** Replacing the byte of position [j] by [v]. *)
Lemma bit_of_write bm j v :
  Forall is_byte bm -> 0 <= j < 8 * Z.of_nat (length bm) -> is_byte v ->
  exists bm', wr bm (j / 8) [v] = Some bm' /\ length bm' = length bm /\ Forall is_byte bm' /\
    forall k, 0 <= k -> bit_of bm' k = if k / 8 =? j / 8 then Z.testbit v (k mod 8) else bit_of bm k.
Proof.
  intros Hb Hj Hv. assert (Hi : 0 <= j / 8 < Z.of_nat (length bm)) by zlia.
  assert (E : wr bm (j / 8) [v] = Some (<[Z.to_nat (j / 8) := v]> bm)).
  { apply wr_Some. split_and!; [lia|cbn; lia|]. rewrite insert_take_drop by lia. cbn [length app]. by rewrite Nat.add_1_r. }
  eexists. split; [exact E|]. split; [by rewrite length_insert|]. split; [by apply Forall_insert|].
  intros k Hk. unfold bit_of. rewrite !nth_lookup. destruct (Z.eqb_spec (k / 8) (j / 8)) as [->|Hne].
  - by rewrite list_lookup_insert_eq by lia.
  - rewrite list_lookup_insert_ne; [done|]. intros E'. apply Hne. apply Z2Nat.inj; [zlia..|done].
Qed.

Lemma testbit_byte_or b m k : is_byte b -> 0 <= m < 8 -> 0 <= k < 8 ->
  Z.testbit (u8 (Z.lor b (Z.shiftl 1 m))) k = (k =? m) || Z.testbit b k.
Proof.
  intros Hb Hm Hk. unfold wrapu. rewrite testbit_mod_pow2, Z.lor_spec, Z.shiftl_1_l, Z.pow2_bits_eqb by lia.
  rewrite (proj2 (Z.ltb_lt k 8)) by lia. cbn [andb]. rewrite (Z.eqb_sym m k). apply orb_comm.
Qed.

Lemma testbit_byte_clear b m k : is_byte b -> 0 <= m < 8 -> 0 <= k < 8 ->
  Z.testbit (u8 (Z.land b (Z.lnot (Z.shiftl 1 m)))) k = negb (k =? m) && Z.testbit b k.
Proof.
  intros Hb Hm Hk. unfold wrapu. rewrite testbit_mod_pow2, Z.land_spec, Z.lnot_spec, Z.shiftl_1_l, Z.pow2_bits_eqb by lia.
  rewrite (proj2 (Z.ltb_lt k 8)) by lia. cbn [andb]. rewrite (Z.eqb_sym m k). apply andb_comm.
Qed.

Lemma same_position k j : 0 <= k -> 0 <= j -> (k =? j) = (k / 8 =? j / 8) && (k mod 8 =? j mod 8).
Proof.
  intros. destruct (Z.eqb_spec k j) as [->|Hne]; [by rewrite !Z.eqb_refl|].
  destruct (Z.eqb_spec (k / 8) (j / 8)); [|done]. destruct (Z.eqb_spec (k mod 8) (j mod 8)); [|done]. zlia.
Qed.

Lemma bitmapSetBit_spec bm j :
  Forall is_byte bm -> 0 <= j < 8 * Z.of_nat (length bm) ->
  exists bm', bitmapSetBit bm j = Some bm' /\ length bm' = length bm /\ Forall is_byte bm' /\
    forall k, 0 <= k -> bit_of bm' k = (k =? j) || bit_of bm k.
Proof.
  intros Hb Hj. destruct (rd1_byte bm j Hb Hj) as (b & E & Hbb & En). unfold bitmapSetBit. rewrite E. mred. rewrite land_7.
  destruct (bit_of_write bm j (u8 (Z.lor b (Z.shiftl 1 (j mod 8)))) Hb Hj) as (bm' & -> & Hl & Hb' & Hbit).
  { apply wrapu_range. lia. }
  exists bm'. split_and!; try done. intros k Hk. rewrite Hbit, (same_position k j) by lia.
  destruct (Z.eqb_spec (k / 8) (j / 8)) as [Ek|]; [|done]. rewrite testbit_byte_or by (done || zlia).
  unfold bit_of. by rewrite Ek, En.
Qed.

Lemma bitmapClearBit_spec bm j :
  Forall is_byte bm -> 0 <= j < 8 * Z.of_nat (length bm) ->
  exists bm', bitmapClearBit bm j = Some bm' /\ length bm' = length bm /\ Forall is_byte bm' /\
    forall k, 0 <= k -> bit_of bm' k = negb (k =? j) && bit_of bm k.
Proof.
  intros Hb Hj. destruct (rd1_byte bm j Hb Hj) as (b & E & Hbb & En). unfold bitmapClearBit. rewrite E. mred. rewrite land_7.
  destruct (bit_of_write bm j (u8 (Z.land b (Z.lnot (Z.shiftl 1 (j mod 8))))) Hb Hj) as (bm' & -> & Hl & Hb' & Hbit).
  { apply wrapu_range. lia. }
  exists bm'. split_and!; try done. intros k Hk. rewrite Hbit, (same_position k j) by lia.
  destruct (Z.eqb_spec (k / 8) (j / 8)) as [Ek|]; [|done]. rewrite testbit_byte_clear by (done || zlia).
  unfold bit_of. by rewrite Ek, En.
Qed.

(** ** The invariant of slot ownership *)

Definition owned (n : Z) (s : list (option Z)) : Z := Z.of_nat (length (filter (fun o => o = Some n) s)).

(** The bitmap and the counter of a node agree with the table of owners. *)
Definition node_ok (s : list (option Z)) (n : Z) (nd : clusterNode) : Prop :=
  Z.of_nat (length (node_slots nd)) = CLUSTER_SLOTS / 8 /\ Forall is_byte (node_slots nd) /\
  numslots nd = owned n s /\
  forall j, 0 <= j < CLUSTER_SLOTS -> bit_of (node_slots nd) j = bool_decide (s !! Z.to_nat j = Some (Some n)).

Record slots_ok (st : clusterState) : Prop := {
  ok_length : Z.of_nat (length (slots st)) = CLUSTER_SLOTS;
  ok_importing : Z.of_nat (length (importing_slots_from st)) = CLUSTER_SLOTS;
  ok_keys : Z.of_nat (length (slots_keys_count st)) = CLUSTER_SLOTS;
  ok_nodes n nd : nodes st !! n = Some nd -> node_ok (slots st) n nd;
  ok_owner j n : slots st !! j = Some (Some n) -> is_Some (nodes st !! n)
}.

Lemma owned_insert n s (j : nat) o x :
  s !! j = Some o ->
  owned n (<[j := x]> s) = owned n s - (if bool_decide (o = Some n) then 1 else 0) + (if bool_decide (x = Some n) then 1 else 0).
Proof.
  intros Hj. unfold owned.
  assert (Hy : forall y, length (filter (fun o => o = Some n) (take j s ++ y :: drop (S j) s)) =
    (length (filter (fun o => o = Some n) (take j s)) + (if bool_decide (y = Some n) then 1 else 0) +
     length (filter (fun o => o = Some n) (drop (S j) s)))%nat).
  { intros y. rewrite filter_app, filter_cons, length_app. case_decide; case_bool_decide; try done; cbn [length]; lia. }
  pose proof (take_drop_middle s j o Hj) as Es. rewrite insert_take_drop by (eapply lookup_lt_Some; eauto). rewrite Hy.
  replace (length (filter _ s)) with (length (filter (fun o => o = Some n) (take j s ++ o :: drop (S j) s))) by (by rewrite Es).
  rewrite Hy. repeat case_bool_decide; lia.
Qed.

(** ** What the slot operations leave alone *)

Definition same_node (a b : clusterNode) : Prop :=
  configEpoch a = configEpoch b /\ slaves a = slaves b /\ slaveof a = slaveof b /\ repl_offset a = repl_offset b /\
  voted_time a = voted_time b /\ nodeIsMaster a = nodeIsMaster b /\ nodeIsSlave a = nodeIsSlave b /\ nodeFailed a = nodeFailed b.

Definition frame (st st' : clusterState) : Prop :=
  myself st = myself st' /\ state st = state st' /\ currentEpoch st = currentEpoch st' /\ election st = election st' /\
  importing_slots_from st = importing_slots_from st' /\ slots_keys_count st = slots_keys_count st' /\
  forall m, option_Forall2 same_node (nodes st !! m) (nodes st' !! m).

#[export] Instance same_node_preorder : PreOrder same_node.
Proof.
  split; [by intros ?|]. intros a b c (?&?&?&?&?&?&?&?) (?&?&?&?&?&?&?&?). unfold same_node. split_and!; congruence.
Qed.

#[export] Instance frame_preorder : PreOrder frame.
Proof.
  split.
  - by intros st.
  - intros s1 s2 s3 (?&?&?&?&?&?&F) (?&?&?&?&?&?&G). unfold frame. split_and!; try congruence. intros m. etrans; [apply F|apply G].
Qed.

Lemma frame_node st st' m nd : frame st st' -> nodes st !! m = Some nd -> exists nd', nodes st' !! m = Some nd' /\ same_node nd nd'.
Proof. intros (_&_&_&_&_&_&F) E. specialize (F m). rewrite E in F. inversion F; subst. eauto. Qed.

Lemma frame_node_inv st st' m nd' : frame st st' -> nodes st' !! m = Some nd' -> exists nd, nodes st !! m = Some nd /\ same_node nd nd'.
Proof. intros (_&_&_&_&_&_&F) E. specialize (F m). rewrite E in F. inversion F; subst. eauto. Qed.

(** One node replaced by one with the same fields outside the slots. *)
Lemma frame_put st n nd nd' :
  nodes st !! n = Some nd -> same_node nd nd' -> forall s, frame st (with_slots (put_node st n nd') s).
Proof.
  intros En Hs s. unfold frame. split_and!; try done. intros m. cbn [with_slots put_node with_nodes nodes].
  destruct (decide (m = n)) as [->|]; [rewrite lookup_insert_eq, En; by constructor|by rewrite lookup_insert_ne].
Qed.

Lemma testbit_migrate f k : 0 <= k < 8 -> Z.testbit (Z.lor f CLUSTER_NODE_MIGRATE_TO) k = Z.testbit f k.
Proof.
  intros Hk. rewrite Z.lor_spec. change CLUSTER_NODE_MIGRATE_TO with (2 ^ 8). rewrite Z.pow2_bits_false by lia. apply orb_false_r.
Qed.

Lemma has_flag_testbit nd k : 0 <= k -> has_flag nd (2 ^ k) = Z.testbit (flags nd) k.
Proof.
  intros Hk. unfold has_flag. rewrite <-Z.shiftl_1_l, land_bit by done.
  destruct (Z.testbit (flags nd) k); [|done]. by rewrite (proj2 (Z.eqb_neq _ _)) by (apply Z.pow_nonzero; lia).
Qed.

Lemma same_node_migrate nd : same_node nd (set_flag nd CLUSTER_NODE_MIGRATE_TO).
Proof.
  unfold same_node, nodeIsMaster, nodeIsSlave, nodeFailed. split_and!; try done.
  - change CLUSTER_NODE_MASTER with (2 ^ 0). rewrite !has_flag_testbit by lia. cbn [set_flag with_flags flags]. by rewrite testbit_migrate by lia.
  - change CLUSTER_NODE_SLAVE with (2 ^ 1). rewrite !has_flag_testbit by lia. cbn [set_flag with_flags flags]. by rewrite testbit_migrate by lia.
  - change CLUSTER_NODE_FAIL with (2 ^ 3). rewrite !has_flag_testbit by lia. cbn [set_flag with_flags flags]. by rewrite testbit_migrate by lia.
Qed.

Lemma same_node_slots nd b k : same_node nd (with_node_slots nd b k).
Proof. by unfold same_node. Qed.

(** ** The slot operations keep the invariant *)

Section ops.
Context (st : clusterState) (Hok : slots_ok st).

Lemma bitmap_range n nd slot : nodes st !! n = Some nd -> 0 <= slot < CLUSTER_SLOTS -> 0 <= slot < 8 * Z.of_nat (length (node_slots nd)).
Proof. intros En Hs. destruct (ok_nodes st Hok n nd En) as (Hl & _). rewrite Hl. unfold CLUSTER_SLOTS in *. change (16384 / 8) with 2048. lia. Qed.

Lemma slot_owner_spec slot : 0 <= slot < CLUSTER_SLOTS -> exists o, slot_owner st slot = Some o /\ slots st !! Z.to_nat slot = Some o.
Proof.
  intros Hs. unfold slot_owner. rewrite bool_decide_true by lia.
  destruct (lookup_lt_is_Some_2 (slots st) (Z.to_nat slot)) as [o Eo]; [pose proof (ok_length st Hok); lia|]. eauto.
Qed.

(** The owner of [slot] becomes [x], and node [n] gets [nd']. *)
Lemma slots_ok_update slot o x n nd nd' :
  0 <= slot < CLUSTER_SLOTS -> slots st !! Z.to_nat slot = Some o -> nodes st !! n = Some nd ->
  (o = Some n \/ o = None) -> (x = Some n \/ x = None) ->
  length (node_slots nd') = length (node_slots nd) -> Forall is_byte (node_slots nd') ->
  (forall j, 0 <= j -> bit_of (node_slots nd') j = if j =? slot then bool_decide (x = Some n) else bit_of (node_slots nd) j) ->
  numslots nd' = numslots nd - (if bool_decide (o = Some n) then 1 else 0) + (if bool_decide (x = Some n) then 1 else 0) ->
  slots_ok (with_slots (put_node st n nd') (<[Z.to_nat slot := x]> (slots st))).
Proof.
  intros Hs Ho En Hon Hxn Hl Hb Hbit Hnum.
  assert (Hgen : forall m md md', nodes st !! m = Some md -> (m <> n -> md' = md) -> (m = n -> md' = nd') ->
    node_ok (<[Z.to_nat slot := x]> (slots st)) m md').
  { intros m md md' Em Hother Hsame. destruct (ok_nodes st Hok m md Em) as (Kl & Kb & Kn & Kbit).
    destruct (decide (m = n)) as [->|Hmn].
    - rewrite (Hsame eq_refl). rewrite En in Em. injection Em as ->. split_and!; [lia|done|by rewrite Hnum, (owned_insert n _ _ o x Ho), Kn|].
      intros j Hj. rewrite Hbit by lia. destruct (Z.eqb_spec j slot) as [->|Hne].
      + rewrite list_lookup_insert_eq by (eapply lookup_lt_Some; eauto). apply bool_decide_ext. naive_solver.
      + rewrite list_lookup_insert_ne by lia. by apply Kbit.
    - rewrite (Hother Hmn). split_and!; [done|done| |].
      + rewrite (owned_insert m _ _ o x Ho), !bool_decide_false by naive_solver. lia.
      + intros j Hj. rewrite Kbit by done. destruct (decide (j = slot)) as [->|Hne].
        * rewrite list_lookup_insert_eq by (eapply lookup_lt_Some; eauto). rewrite Ho. apply bool_decide_ext. naive_solver.
        * by rewrite list_lookup_insert_ne by lia. }
  split; cbn [with_slots put_node with_nodes slots nodes importing_slots_from slots_keys_count].
  - by rewrite length_insert, (ok_length st Hok).
  - apply (ok_importing st Hok).
  - apply (ok_keys st Hok).
  - intros m md' Em. destruct (decide (m = n)) as [->|Hmn].
    + rewrite lookup_insert_eq in Em. injection Em as <-. apply (Hgen n nd nd' En); naive_solver.
    + rewrite lookup_insert_ne in Em by done. apply (Hgen m md' md' Em); naive_solver.
  - intros j m Hj. destruct (decide (m = n)) as [->|Hmn]; [by rewrite lookup_insert_eq|].
    rewrite lookup_insert_ne by done. destruct (decide (j = Z.to_nat slot)) as [->|Hne].
    + rewrite list_lookup_insert_eq in Hj by (eapply lookup_lt_Some; eauto). naive_solver.
    + rewrite list_lookup_insert_ne in Hj by done. by apply (ok_owner st Hok j).
Qed.

Lemma clusterAddSlot_ok n nd slot :
  nodes st !! n = Some nd -> 0 <= slot < CLUSTER_SLOTS -> slots st !! Z.to_nat slot = Some None ->
  exists st', clusterAddSlot st n slot = Some (st', true) /\ slots_ok st' /\ frame st st' /\
    slots st' = <[Z.to_nat slot := Some n]> (slots st).
Proof.
  intros En Hs Ho. pose proof (ok_nodes st Hok n nd En) as (Hl & Hb & Hn & Hbit).
  unfold clusterAddSlot, slot_owner. rewrite bool_decide_true, Ho by lia. mred.
  unfold clusterNodeSetSlotBit. rewrite En. mred. pose proof (bitmap_range n nd slot En Hs) as Hr.
  rewrite bitmapTestBit_spec by done. mred. destruct (bitmapSetBit_spec (node_slots nd) slot Hb Hr) as (bm & -> & Hbl & Hbb & Hbm). mred.
  rewrite Hbit, bool_decide_false by (done || (rewrite Ho; done)). mred.
  set (nd2 := if _ && _ then _ else _).
  assert (Hnd2 : same_node nd nd2 /\ node_slots nd2 = bm /\ numslots nd2 = numslots nd + 1).
  { unfold nd2. destruct (_ && _); (split; [|done]); [etrans; [|apply same_node_migrate]|]; by unfold same_node. }
  destruct Hnd2 as (Hsame & Hbm2 & Hnum2).
  assert (Eput : forall y, put_node (put_node st n y) n nd2 = put_node st n nd2).
  { intros y. unfold put_node, with_nodes. cbn [nodes myself currentEpoch state size migrating_slots_to importing_slots_from slots slots_keys_count election].
    by rewrite insert_insert_eq. }
  rewrite Eput. eexists. split; [done|]. split; [|split; [by apply frame_put with nd|done]].
  apply (slots_ok_update slot None (Some n) n nd nd2); try done; try auto; rewrite ?Hbm2, ?Hnum2.
  - done.
  - done.
  - intros j Hj. rewrite Hbm by done. rewrite bool_decide_true by done. by destruct (j =? slot).
  - rewrite bool_decide_false, bool_decide_true by done. lia.
Qed.

Lemma clusterDelSlot_ok slot n :
  0 <= slot < CLUSTER_SLOTS -> slots st !! Z.to_nat slot = Some (Some n) ->
  exists st', clusterDelSlot st slot = Some (st', true) /\ slots_ok st' /\ frame st st' /\
    slots st' = <[Z.to_nat slot := None]> (slots st).
Proof.
  intros Hs Ho. destruct (ok_owner st Hok _ _ Ho) as [nd En]. pose proof (ok_nodes st Hok n nd En) as (Hl & Hb & Hn & Hbit).
  unfold clusterDelSlot, slot_owner. rewrite bool_decide_true, Ho by lia. mred.
  unfold clusterNodeClearSlotBit. rewrite En. mred. pose proof (bitmap_range n nd slot En Hs) as Hr.
  rewrite bitmapTestBit_spec by done. mred. destruct (bitmapClearBit_spec (node_slots nd) slot Hb Hr) as (bm & -> & Hbl & Hbb & Hbm). mred.
  rewrite Hbit, bool_decide_true by (done || (by rewrite Ho)). cbn [negb]. mred.
  eexists. split; [done|]. split; [|split; [apply frame_put with nd; [done|apply same_node_slots]|done]].
  apply (slots_ok_update slot (Some n) None n nd); try done; try auto; cbn [with_node_slots node_slots numslots].
  - intros j Hj. rewrite Hbm by done. rewrite bool_decide_false by done. by destruct (j =? slot).
  - rewrite bool_decide_true, bool_decide_false by done. lia.
Qed.
End ops.

(** ** Loops over the slots *)

Lemma slots_ok_lookup st j : slots_ok st -> 0 <= j < CLUSTER_SLOTS -> exists o, slots st !! Z.to_nat j = Some o.
Proof. intros Hok Hj. apply lookup_lt_is_Some_2. pose proof (ok_length st Hok). lia. Qed.

Lemma delNodeSlots_loop_ok k j st n deleted :
  slots_ok st -> is_Some (nodes st !! n) -> 0 <= j -> j + Z.of_nat k = CLUSTER_SLOTS ->
  exists st', delNodeSlots_loop k j st n deleted = Some (st', deleted + owned n (slots st) - owned n (slots st')) /\
    slots_ok st' /\ frame st st' /\
    forall i, slots st' !! i =
      if bool_decide (j <= Z.of_nat i) && bool_decide (slots st !! i = Some (Some n)) then Some None else slots st !! i.
Proof.
  revert j st deleted. induction k as [|k IH]; intros j st deleted Hok Hn Hj Hk; cbn [delNodeSlots_loop].
  { exists st. split; [do 2 f_equal; lia|]. split; [done|]. split; [done|]. intros i. case_bool_decide; [|done]. cbn [andb].
    rewrite bool_decide_false; [done|]. rewrite lookup_ge_None_2; [done|]. pose proof (ok_length st Hok). lia. }
  destruct Hn as [nd En]. rewrite En. mred. assert (Hjr : 0 <= j < CLUSTER_SLOTS) by lia.
  unfold clusterNodeGetSlotBit. pose proof (ok_nodes st Hok n nd En) as (_ & Hb & _ & Hbit).
  rewrite bitmapTestBit_spec by (done || by eapply bitmap_range). mred. rewrite Hbit by done.
  case_bool_decide as Eo.
  - destruct (clusterDelSlot_ok st Hok j n Hjr Eo) as (st1 & -> & Hok1 & Hf1 & Hs1). mred.
    destruct (frame_node _ _ _ _ Hf1 En) as (nd1 & En1 & _).
    destruct (IH (j + 1) st1 (deleted + 1)) as (st' & E & Hok' & Hf' & Hs'); [done|by rewrite En1|lia..|].
    exists st'. split.
    { rewrite E. do 2 f_equal. rewrite Hs1, (owned_insert n _ _ _ None Eo), bool_decide_true, bool_decide_false by done. lia. }
    split; [done|]. split; [by etrans|]. intros i. rewrite Hs', Hs1. destruct (decide (i = Z.to_nat j)) as [->|Hne].
    + rewrite bool_decide_false by lia. cbn [andb]. rewrite list_lookup_insert_eq by (eapply lookup_lt_Some; eauto).
      by rewrite !bool_decide_true by (done || lia).
    + rewrite list_lookup_insert_ne by done. rewrite (bool_decide_ext (j + 1 <= Z.of_nat i) (j <= Z.of_nat i)) by lia. done.
  - destruct (IH (j + 1) st deleted) as (st' & E & Hok' & Hf' & Hs'); [done|by rewrite En|lia..|].
    exists st'. split; [done|]. split; [done|]. split; [done|]. intros i. rewrite Hs'.
    destruct (decide (i = Z.to_nat j)) as [->|Hne].
    + rewrite (bool_decide_false (slots st !! Z.to_nat j = _)), !andb_false_r by done. done.
    + rewrite (bool_decide_ext (j + 1 <= Z.of_nat i) (j <= Z.of_nat i)) by lia. done.
Qed.

(** The slots a configuration update moves to its sender, in the state before it. *)
Definition takes (st : clusterState) (sender epoch : Z) (bm : list Z) (i : nat) : bool :=
  match slots st !! i, importing_slots_from st !! i with
  | Some o, Some imp =>
    bit_of bm (Z.of_nat i) && bool_decide (o <> Some sender) && bool_decide (imp = None) &&
    match o with
    | None => true
    | Some n => match nodes st !! n with Some nd => configEpoch nd <? epoch | None => false end
    end
  | _, _ => false
  end.

Lemma takes_frame st st1 sender e bm i :
  frame st st1 -> slots st1 !! i = slots st !! i -> takes st1 sender e bm i = takes st sender e bm i.
Proof.
  intros Hf Hs. unfold takes. rewrite Hs. destruct Hf as (_&_&_&_&Hi&_&F). rewrite <-Hi.
  destruct (slots st !! i) as [[n|]|]; [|done..]. specialize (F n).
  destruct (importing_slots_from st !! i); [|done]. inversion F as [a b Hsame|]; [|done].
  destruct Hsame as [Hce _]. by rewrite Hce.
Qed.

(** What the loop records about slot [i], in the state before the update. *)
Definition is_dirty (st : clusterState) (sender epoch : Z) (bm : list Z) (i : nat) : Prop :=
  takes st sender epoch bm i = true /\ slots st !! i = Some (Some (myself st)) /\ slots_keys_count st !! i <> Some 0 /\
  sender <> myself st.

(** The effect of the loop from slot [j] on. *)
Definition updated (st : clusterState) (sender e : Z) (bm : list Z) (cm : option Z) (j : Z) (nm : bool) (dirty : list Z)
    (st' : clusterState) (nm' : bool) (dirty' : list Z) : Prop :=
  slots_ok st' /\ frame st st' /\
  (forall i, slots st' !! i =
    if bool_decide (j <= Z.of_nat i) && takes st sender e bm i then Some (Some sender) else slots st !! i) /\
  (nm' = true <-> nm = true \/ exists i, j <= Z.of_nat i /\ takes st sender e bm i = true /\ slots st !! i = Some cm) /\
  (forall s, s ∈ dirty' <-> s ∈ dirty \/ (j <= s /\ is_dirty st sender e bm (Z.to_nat s))).

Section updated.
Context (sender e : Z) (bm : list Z) (cm : option Z).

Lemma updated_end st j nm dirty : slots_ok st -> 0 <= j -> j = CLUSTER_SLOTS -> updated st sender e bm cm j nm dirty st nm dirty.
Proof.
  intros Hok Hj Hk. assert (Hnone : forall i, j <= Z.of_nat i -> takes st sender e bm i = false).
  { intros i Hi. unfold takes. rewrite (lookup_ge_None_2 (slots st)); [done|]. pose proof (ok_length st Hok). lia. }
  split; [done|]. split; [done|]. split; [|split].
  - intros i. case_bool_decide as Hi; [|done]. by rewrite Hnone.
  - split; [by left|]. intros [?|(i & Hi & Ht & _)]; [done|]. by rewrite Hnone in Ht.
  - intros s. split; [by left|]. intros [Hs|(Hs & Hd & _)]; [done|]. exfalso. rewrite Hnone in Hd by lia. done.
Qed.

(** A slot that is not taken. *)
Lemma updated_skip st j nm dirty st' nm' dirty' : 0 <= j -> takes st sender e bm (Z.to_nat j) = false ->
  updated st sender e bm cm (j + 1) nm dirty st' nm' dirty' -> updated st sender e bm cm j nm dirty st' nm' dirty'.
Proof.
  intros Hj Hnot (H1 & H2 & H3 & H4 & H5). split_and!; try done.
  - intros i. rewrite H3. destruct (decide (i = Z.to_nat j)) as [->|Hne]; [by rewrite Hnot, !andb_false_r|].
    by rewrite (bool_decide_ext (j + 1 <= Z.of_nat i) (j <= Z.of_nat i)) by lia.
  - rewrite H4. split; (intros [?|(i & Hi & Ht & Hc)]; [by left|right; exists i; split; [|done]]); [lia|].
    destruct (decide (i = Z.to_nat j)) as [->|]; [congruence|lia].
  - intros s. rewrite H5. split; (intros [Hs|(Hs & Hd)]; [by left|right]); (split; [|done]); [lia|].
    destruct (decide (s = j)) as [->|]; [|lia]. destruct Hd as [Hd _]. congruence.
Qed.

(** A slot that is taken. *)
Lemma updated_move st st1 j o nm nm1 dirty dirty1 st' nm' dirty' : 0 <= j -> slots st !! Z.to_nat j = Some o ->
  takes st sender e bm (Z.to_nat j) = true -> frame st st1 -> slots st1 = <[Z.to_nat j := Some sender]> (slots st) ->
  (nm1 = true <-> nm = true \/ o = cm) ->
  (forall s, s ∈ dirty1 <-> s ∈ dirty \/ (s = j /\ is_dirty st sender e bm (Z.to_nat j))) ->
  updated st1 sender e bm cm (j + 1) nm1 dirty1 st' nm' dirty' -> updated st sender e bm cm j nm dirty st' nm' dirty'.
Proof.
  intros Hj Eo Hrb Hf1 Hs1 Hnm1 Hd1 (H1 & H2 & H3 & H4 & H5).
  assert (Hsame : forall i, i <> Z.to_nat j -> slots st1 !! i = slots st !! i /\ takes st1 sender e bm i = takes st sender e bm i).
  { intros i Hi. assert (Es : slots st1 !! i = slots st !! i) by (by rewrite Hs1, list_lookup_insert_ne).
    split; [done|]. by apply takes_frame. }
  assert (Hself : slots st1 !! Z.to_nat j = Some (Some sender))
    by (rewrite Hs1; by rewrite list_lookup_insert_eq by (eapply lookup_lt_Some; eauto)).
  assert (Hself2 : takes st1 sender e bm (Z.to_nat j) = false).
  { unfold takes. rewrite Hself. destruct (importing_slots_from st1 !! Z.to_nat j); [|done].
    rewrite (bool_decide_false (Some sender <> Some sender)) by naive_solver. by rewrite andb_false_r. }
  split; [done|]. split; [by etrans|]. split; [|split].
  - intros i. rewrite H3. destruct (decide (i = Z.to_nat j)) as [->|Hne].
    + rewrite Hself2, andb_false_r, Hself, Hrb, bool_decide_true by lia. done.
    + destruct (Hsame i Hne) as [-> ->]. by rewrite (bool_decide_ext (j + 1 <= Z.of_nat i) (j <= Z.of_nat i)) by lia.
  - rewrite H4, Hnm1. split.
    + intros [[?|Ho]|(i & Hi & Ht & Hc)]; [by left|right; exists (Z.to_nat j); rewrite Hrb, Eo, Ho; split; [lia|done]|].
      right. exists i. assert (Hne : i <> Z.to_nat j) by lia. destruct (Hsame i Hne) as [<- <-]. split; [lia|done].
    + intros [?|(i & Hi & Ht & Hc)]; [by left; left|]. destruct (decide (i = Z.to_nat j)) as [->|Hne].
      * left. right. congruence.
      * right. exists i. destruct (Hsame i Hne) as [-> ->]. split; [lia|done].
  - destruct Hf1 as (Hme & _ & _ & _ & _ & Hkc & _). intros s. rewrite H5, Hd1. unfold is_dirty. rewrite <-Hme, <-Hkc. split.
    + intros [[?|(-> & Hd)]|(Hs & Ht & Hrest)]; [by left|right; split; [lia|done]|]. right. split; [lia|].
      assert (Hne : Z.to_nat s <> Z.to_nat j) by lia. destruct (Hsame _ Hne) as [E1 E2]. by rewrite <-E1, <-E2.
    + intros [?|(Hs & Hd)]; [by left; left|]. destruct (decide (s = j)) as [->|Hne]; [by left; right|]. right. split; [lia|].
      assert (Hne' : Z.to_nat s <> Z.to_nat j) by lia. destruct (Hsame _ Hne') as [E1 E2]. by rewrite E1, E2.
Qed.
End updated.

(** Releasing a slot, if it has an owner, and taking it. *)
Lemma move_slot st sender j o : slots_ok st -> is_Some (nodes st !! sender) -> 0 <= j < CLUSTER_SLOTS ->
  slots st !! Z.to_nat j = Some o ->
  exists st0 b st1 b1, clusterDelSlot st j = Some (st0, b) /\ clusterAddSlot st0 sender j = Some (st1, b1) /\
    slots_ok st1 /\ frame st st1 /\ slots st1 = <[Z.to_nat j := Some sender]> (slots st).
Proof.
  intros Hok [nd En] Hjr Eo.
  assert (Hdel : exists st0 b, clusterDelSlot st j = Some (st0, b) /\ slots_ok st0 /\ frame st st0 /\ slots st0 = <[Z.to_nat j := None]> (slots st)).
  { destruct o as [n|].
    - destruct (clusterDelSlot_ok st Hok j n Hjr Eo) as (st0 & ? & ? & ? & ?). eauto 10.
    - exists st, false. unfold clusterDelSlot, slot_owner. rewrite bool_decide_true, Eo by lia. mred.
      split_and!; try done. by rewrite list_insert_id. }
  destruct Hdel as (st0 & b & E0 & Hok0 & Hf0 & Hs0). destruct (frame_node _ _ _ _ Hf0 En) as (nd0 & En0 & _).
  destruct (clusterAddSlot_ok st0 Hok0 sender nd0 j En0 Hjr) as (st1 & E1 & Hok1 & Hf1 & Hs1).
  { rewrite Hs0. by rewrite list_lookup_insert_eq by (eapply lookup_lt_Some; eauto). }
  exists st0, b, st1, true. split; [done|]. split; [done|]. split; [done|]. split; [by etrans|]. by rewrite Hs1, Hs0, list_insert_insert_eq.
Qed.

(** Whether slot [j] is recorded as dirty. *)
Lemma dirty_step st sender e bm j o c (dirty : list Z) : takes st sender e bm (Z.to_nat j) = true ->
  slots st !! Z.to_nat j = Some o -> slots_keys_count st !! Z.to_nat j = Some c ->
  forall s, s ∈ (if bool_decide (o = Some (myself st)) && negb (c =? 0) && bool_decide (sender <> myself st) then dirty ++ [j] else dirty) <->
    s ∈ dirty \/ (s = j /\ is_dirty st sender e bm (Z.to_nat j)).
Proof.
  intros Hrb Eo Ec s. unfold is_dirty. rewrite Hrb, Eo, Ec.
  destruct (bool_decide (o = Some (myself st)) && negb (c =? 0) && bool_decide (sender <> myself st)) eqn:Ed.
  - apply andb_true_iff in Ed as [Ed Ed3%bool_decide_eq_true]. apply andb_true_iff in Ed as [Ed1%bool_decide_eq_true Ed2].
    apply negb_true_iff, Z.eqb_neq in Ed2. rewrite elem_of_app, list_elem_of_singleton. split; [intros [?| ->]; [by left|right]|tauto].
    split_and!; try done; congruence.
  - split; [by left|]. intros [?|(_ & _ & Ho & Hc & Hs)]; [done|]. exfalso. injection Ho as ->.
    rewrite !bool_decide_true in Ed by done. rewrite (proj2 (Z.eqb_neq c 0)) in Ed by congruence. done.
Qed.

Lemma updateSlots_loop_updated k j st sender e bm cm nm dirty :
  slots_ok st -> is_Some (nodes st !! sender) -> 0 <= j -> j + Z.of_nat k = CLUSTER_SLOTS ->
  Forall is_byte bm -> Z.of_nat (length bm) = CLUSTER_SLOTS / 8 ->
  exists st' nm' dirty', updateSlots_loop k j st sender e bm cm nm dirty = Some (st', nm', dirty') /\
    updated st sender e bm cm j nm dirty st' nm' dirty'.
Proof.
  intros Hok Hn Hj Hk Hbm Hbl. revert j st nm dirty Hok Hn Hj Hk. induction k as [|k IH]; intros j st nm dirty Hok Hn Hj Hk; cbn [updateSlots_loop].
  { exists st, nm, dirty. split; [done|]. apply updated_end; [done|lia|lia]. }
  assert (Hjr : 0 <= j < CLUSTER_SLOTS) by lia.
  destruct (slots_ok_lookup st j Hok Hjr) as [o Eo].
  destruct (lookup_lt_is_Some_2 (importing_slots_from st) (Z.to_nat j)) as [imp Eimp]; [pose proof (ok_importing st Hok); lia|].
  destruct (lookup_lt_is_Some_2 (slots_keys_count st) (Z.to_nat j)) as [c Ec]; [pose proof (ok_keys st Hok); lia|].
  rewrite bitmapTestBit_spec by (done || (rewrite Hbl; unfold CLUSTER_SLOTS in *; change (16384 / 8) with 2048; lia)). mred.
  assert (Hskip : takes st sender e bm (Z.to_nat j) = false ->
    exists st' nm' dirty', updateSlots_loop k (j + 1) st sender e bm cm nm dirty = Some (st', nm', dirty') /\
    updated st sender e bm cm j nm dirty st' nm' dirty').
  { intros Hnot. destruct (IH (j + 1) st nm dirty Hok Hn ltac:(lia) ltac:(lia)) as (st' & nm' & dirty' & E & H).
    exists st', nm', dirty'. split; [done|]. by apply updated_skip. }
  assert (Htk : takes st sender e bm (Z.to_nat j) =
    bit_of bm j && bool_decide (o <> Some sender) && bool_decide (imp = None) &&
    match o with None => true | Some n => match nodes st !! n with Some nd => configEpoch nd <? e | None => false end end).
  { unfold takes. rewrite Eo, Eimp, Z2Nat.id by lia. done. }
  destruct (bit_of bm j) eqn:Ebit; cbn [negb]; [|by apply Hskip]. unfold slot_owner. rewrite (bool_decide_true (0 <= j)), Eo by lia. mred.
  destruct (decide (o = Some sender)) as [Hos|Hos].
  { rewrite (bool_decide_true (o = Some sender)) by done. apply Hskip. rewrite Htk, bool_decide_false by naive_solver. done. }
  rewrite (bool_decide_false (o = Some sender)) by done. rewrite Eimp. mred.
  destruct (decide (imp = None)) as [Himp|Himp].
  2:{ rewrite (bool_decide_true (imp <> None)) by done. apply Hskip. by rewrite Htk, (bool_decide_false (imp = None)), andb_false_r by done. }
  rewrite (bool_decide_false (imp <> None)) by naive_solver.
  assert (Hrb : exists rb, (match o with None => Some true | Some n => nd ← nodes st !! n; Some (configEpoch nd <? e) end) = Some rb /\
    takes st sender e bm (Z.to_nat j) = rb).
  { rewrite Htk, !bool_decide_true by done. destruct o as [n|]; [|by eexists].
    destruct (ok_owner st Hok _ _ Eo) as [nd En]. rewrite En. by eexists. }
  destruct Hrb as (rb & -> & Hrb). mred. destruct rb; cbn [negb]; [|by apply Hskip]. rewrite Ec. mred.
  destruct (move_slot st sender j o Hok Hn Hjr Eo) as (st0 & b & st1 & b1 & -> & E1 & Hok1 & Hf1 & Hs1). mred. rewrite E1. mred.
  set (dirty1 := if _ && _ then _ else _). set (nm1 := nm || _). destruct Hn as [nd En]. destruct (frame_node _ _ _ _ Hf1 En) as (nd1 & En1 & _).
  destruct (IH (j + 1) st1 nm1 dirty1 Hok1 ltac:(by rewrite En1) ltac:(lia) ltac:(lia)) as (st' & nm' & dirty' & E & H).
  exists st', nm', dirty'. split; [done|]. eapply updated_move; [done|exact Eo|exact Hrb|done|done| |by apply dirty_step|exact H].
  unfold nm1. by rewrite orb_true_iff, bool_decide_eq_true.
Qed.

(** ** Changes of roles keep the slots *)

Definition same_slots (a b : clusterNode) : Prop := node_slots a = node_slots b /\ numslots a = numslots b.

Definition keeps (st st' : clusterState) : Prop :=
  myself st = myself st' /\ state st = state st' /\ slots st = slots st' /\
  length (importing_slots_from st') = length (importing_slots_from st) /\ slots_keys_count st = slots_keys_count st' /\
  forall m, option_Forall2 same_slots (nodes st !! m) (nodes st' !! m).

#[export] Instance same_slots_preorder : PreOrder same_slots.
Proof. split; [by intros ?|]. intros a b c [??] [??]. split; congruence. Qed.

#[export] Instance keeps_preorder : PreOrder keeps.
Proof.
  split; [by intros st|]. intros s1 s2 s3 (?&?&?&?&?&F) (?&?&?&?&?&G). unfold keeps. split_and!; try congruence.
  intros m. etrans; [apply F|apply G].
Qed.

Lemma keeps_ok st st' : keeps st st' -> slots_ok st -> slots_ok st'.
Proof.
  intros (_ & _ & Hs & Hi & Hk & F) Hok. split.
  - rewrite <-Hs. apply Hok.
  - rewrite Hi. apply Hok.
  - rewrite <-Hk. apply Hok.
  - intros n nd' E. specialize (F n). rewrite E in F. inversion F as [nd ? [H1 H2] En|]; subst.
    destruct (ok_nodes st Hok n nd ltac:(done)) as (K1 & K2 & K3 & K4). unfold node_ok. rewrite <-H1, <-H2, <-Hs. done.
  - intros j n Hj. rewrite <-Hs in Hj. destruct (ok_owner st Hok j n Hj) as [nd En]. specialize (F n). rewrite En in F.
    inversion F. by eexists.
Qed.

Lemma keeps_put st n nd nd' : nodes st !! n = Some nd -> same_slots nd nd' -> keeps st (put_node st n nd').
Proof.
  intros En Hs. unfold keeps. split_and!; try done. intros m. cbn [put_node with_nodes nodes].
  destruct (decide (m = n)) as [->|]; [rewrite lookup_insert_eq, En; by constructor|by rewrite lookup_insert_ne].
Qed.

Lemma keeps_node st st' m nd : keeps st st' -> nodes st !! m = Some nd -> exists nd', nodes st' !! m = Some nd' /\ same_slots nd nd'.
Proof. intros (_&_&_&_&_&F) E. specialize (F m). rewrite E in F. inversion F; subst. eauto. Qed.

Lemma removeSlave_keeps st m n : is_Some (nodes st !! m) -> exists st' b, clusterNodeRemoveSlave st m n = Some (st', b) /\ keeps st st'.
Proof.
  intros [nd En]. unfold clusterNodeRemoveSlave. rewrite En. mred. destruct (list_find _ _) as [[j ?]|]; [|by exists st, false].
  eexists _, _. split; [done|]. eapply keeps_put; [done|]. by destruct (bool_decide _).
Qed.

Lemma addSlave_keeps st m n : is_Some (nodes st !! m) -> exists st' b, clusterNodeAddSlave st m n = Some (st', b) /\ keeps st st'.
Proof.
  intros [nd En]. unfold clusterNodeAddSlave. rewrite En. mred. destruct (bool_decide _); [by exists st, false|].
  eexists _, _. split; [done|]. by eapply keeps_put.
Qed.

Lemma closeAllSlots_keeps st : slots_ok st -> keeps st (clusterCloseAllSlots st).
Proof.
  intros Hok. unfold keeps. split_and!; try done. cbn [clusterCloseAllSlots with_open_slots importing_slots_from].
  rewrite length_replicate. pose proof (ok_importing st Hok). lia.
Qed.

Lemma setMaster_keeps st n me :
  slots_ok st -> n <> myself st -> is_Some (nodes st !! n) -> nodes st !! myself st = Some me -> numslots me = 0 ->
  (nodeIsMaster me = false -> forall m, slaveof me = Some m -> is_Some (nodes st !! m)) ->
  exists st', clusterSetMaster st n = Some (st', [ReplicationSetMaster n]) /\ keeps st st'.
Proof.
  intros Hok Hne Hn Eme Hz Hm. unfold clusterSetMaster. rewrite bool_decide_false, Eme by done. mred. rewrite Hz. cbn [Z.eqb negb].
  assert (Hstep : exists st1, (if nodeIsMaster me then
      Some (clusterCloseAllSlots (put_node st (myself st)
        (set_flag (clear_flag me (Z.lor CLUSTER_NODE_MASTER CLUSTER_NODE_MIGRATE_TO)) CLUSTER_NODE_SLAVE)))
    else match slaveof me with None => Some st | Some m => '(st0, _) ← clusterNodeRemoveSlave st m (myself st); Some st0 end) = Some st1 /\ keeps st st1).
  { destruct (nodeIsMaster me).
    - eexists. split; [done|]. assert (Hk : keeps st (put_node st (myself st)
        (set_flag (clear_flag me (Z.lor CLUSTER_NODE_MASTER CLUSTER_NODE_MIGRATE_TO)) CLUSTER_NODE_SLAVE))) by (by eapply keeps_put).
      etrans; [exact Hk|]. apply closeAllSlots_keeps. by eapply keeps_ok.
    - destruct (slaveof me) as [m|] eqn:Es; [|by exists st].
      destruct (removeSlave_keeps st m (myself st)) as (st1 & b & -> & Hk); [by apply Hm|]. mred. eauto. }
  destruct Hstep as (st1 & -> & Hk1). mred. destruct (keeps_node _ _ _ _ Hk1 Eme) as (me1 & Eme1 & Hs1).
  assert (Emy : myself st = myself st1) by apply Hk1. rewrite <-Emy. rewrite Eme1. mred.
  assert (Hk2 : keeps st1 (put_node st1 (myself st) (with_slaveof me1 (Some n)))) by (by eapply keeps_put).
  destruct Hn as [nd En]. destruct (keeps_node st _ n nd ltac:(etrans; eassumption) En) as (nd2 & En2 & _).
  destruct (addSlave_keeps (put_node st1 (myself st) (with_slaveof me1 (Some n))) n (myself st)) as (st3 & b & E3 & Hk3); [by eexists|].
  change (myself (put_node st1 (myself st) (with_slaveof me1 (Some n)))) with (myself st1). rewrite <-Emy, E3. mred.
  eexists. split; [done|]. etrans; [exact Hk1|]. etrans; [exact Hk2|]. etrans; [exact Hk3|]. done.
Qed.
