(* ===== verification/ClusterConfig.v ===== *)
(** * cluster.c: the configuration changes and what they guarantee

    The theorems on the handlers of [ClusterSlots]: assigning and releasing slots,
    the update of the configuration by another node, the takeover by a slave, the
    state of the cluster and the configuration epochs. *)

From stdpp Require Import gmap.
From S2P Require Import Prelude Bits ClusterSlots.

(** ** Counting the slots of a node *)

Lemma owned_zero n s : owned n s = 0 <-> forall i, s !! i <> Some (Some n).
Proof.
  unfold owned. split.
  - intros H i Hi. assert (Hl : length (filter (fun o => o = Some n) s) = 0%nat) by lia. apply nil_length_inv in Hl.
    assert (Hin : Some n ∈ filter (fun o => o = Some n) s) by (apply list_elem_of_filter; eauto using list_elem_of_lookup_2).
    rewrite Hl in Hin. by apply not_elem_of_nil in Hin.
  - intros H. assert (E : filter (fun o => o = Some n) s = []); [|by rewrite E].
    apply elem_of_nil_inv. intros o [-> [i Hi]%list_elem_of_lookup_1]%list_elem_of_filter. by apply (H i).
Qed.

Lemma numslots_zero st n nd :
  slots_ok st -> nodes st !! n = Some nd -> numslots nd = 0 <-> forall i, slots st !! i <> Some (Some n).
Proof. intros Hok En. destruct (ok_nodes st Hok n nd En) as (_ & _ & -> & _). apply owned_zero. Qed.

(** ** Roles *)

Lemma has_flag_set nd f k : 0 <= k -> has_flag (set_flag nd f) (2 ^ k) = Z.testbit f k || has_flag nd (2 ^ k).
Proof. intros Hk. rewrite !has_flag_testbit by done. cbn [set_flag with_flags flags]. rewrite Z.lor_spec. apply orb_comm. Qed.

Lemma has_flag_clear nd f k : 0 <= k -> has_flag (clear_flag nd f) (2 ^ k) = negb (Z.testbit f k) && has_flag nd (2 ^ k).
Proof.
  intros Hk. rewrite !has_flag_testbit by done. cbn [clear_flag with_flags flags]. rewrite Z.land_spec, Z.lnot_spec by done. apply andb_comm.
Qed.

Lemma nodeIsMaster_set nd f : nodeIsMaster (set_flag nd f) = Z.testbit f 0 || nodeIsMaster nd.
Proof. apply (has_flag_set nd f 0). lia. Qed.

Lemma nodeIsMaster_clear nd f : nodeIsMaster (clear_flag nd f) = negb (Z.testbit f 0) && nodeIsMaster nd.
Proof. apply (has_flag_clear nd f 0). lia. Qed.

(** Removing a slave from the array of its master changes nothing else of any node. *)
Lemma removeSlave_roles st m n st' b x nd :
  clusterNodeRemoveSlave st m n = Some (st', b) -> nodes st !! x = Some nd ->
  exists nd', nodes st' !! x = Some nd' /\ nodeIsMaster nd' = nodeIsMaster nd /\ slaveof nd' = slaveof nd.
Proof.
  unfold clusterNodeRemoveSlave. destruct (nodes st !! m) as [md|] eqn:Em; [|done]. mred.
  destruct (list_find _ _) as [[j ?]|]; [|intros [= <- _]; eauto]. intros [= <- _] En. cbn [put_node with_nodes nodes].
  destruct (decide (x = m)) as [->|]; [|rewrite lookup_insert_ne by done; eauto].
  rewrite lookup_insert_eq. eexists. split; [done|]. rewrite Em in En. injection En as ->.
  destruct (bool_decide _); [|done]. split; [|done]. rewrite nodeIsMaster_clear. done.
Qed.

Lemma setMaster_role st n me st' effs :
  nodes st !! myself st = Some me -> clusterSetMaster st n = Some (st', effs) ->
  exists me', nodes st' !! myself st = Some me' /\ nodeIsMaster me' = false /\ slaveof me' = Some n.
Proof.
  intros Eme. unfold clusterSetMaster. destruct (bool_decide_reflect (n = myself st)) as [|Hne]; [done|]. rewrite Eme. mred.
  destruct (negb _); [done|]. intros H. apply bind_Some in H as (st1 & E1 & H).
  assert (Hme : myself st1 = myself st /\ exists me1, nodes st1 !! myself st = Some me1 /\ nodeIsMaster me1 = false).
  { destruct (nodeIsMaster me) eqn:Em.
    - injection E1 as <-. split; [done|]. cbn [clusterCloseAllSlots with_open_slots put_node with_nodes nodes]. rewrite lookup_insert_eq.
      eexists. split; [done|]. by rewrite nodeIsMaster_set, nodeIsMaster_clear.
    - destruct (slaveof me) as [m|]; [|injection E1 as <-; eauto].
      apply bind_Some in E1 as ([st0 b] & E0 & [= <-]). destruct (removeSlave_roles _ _ _ _ _ _ _ E0 Eme) as (me1 & E1 & Hm & _).
      split; [|exists me1; by rewrite Hm]. revert E0. unfold clusterNodeRemoveSlave. destruct (nodes st !! m); [|done]. mred.
      by destruct (list_find _ _) as [[??]|]; intros [= <- _]. }
  destruct Hme as (Emy & me1 & Eme1 & Hm1). rewrite Emy, Eme1 in H. cbn [mbind option_bind] in H.
  apply bind_Some in H as ([st3 b] & E3 & [= <- <-]). revert E3. unfold clusterNodeAddSlave.
  cbn [put_node with_nodes nodes myself]. rewrite Emy, lookup_insert_ne by done. destruct (nodes st1 !! n) as [nd|] eqn:En; [|done]. mred.
  exists (with_slaveof me1 (Some n)). split_and!; [|done..].
  revert E3. destruct (bool_decide _); intros [= <- _]; cbn [resetManualFailover with_election put_node with_nodes nodes].
  - by rewrite lookup_insert_eq.
  - rewrite lookup_insert_ne by done. by rewrite lookup_insert_eq.
Qed.

Lemma setNodeAsMaster_ok st n nd m :
  nodes st !! n = Some nd -> nodeIsMaster nd = false -> slaveof nd = Some m -> is_Some (nodes st !! m) ->
  exists st' nd', clusterSetNodeAsMaster st n = Some st' /\ keeps st st' /\
    nodes st' !! n = Some nd' /\ nodeIsMaster nd' = true /\ slaveof nd' = None.
Proof.
  intros En Hm Hs Hm'. unfold clusterSetNodeAsMaster. rewrite En. mred. rewrite Hm, Hs.
  destruct (removeSlave_keeps st m n Hm') as (st1 & b & -> & Hk1). mred.
  destruct (keeps_node _ _ _ _ Hk1 En) as (nd1 & En1 & Hs1). rewrite En1. mred.
  set (st2 := if bool_decide _ then _ else _).
  assert (Hk2 : keeps st1 st2 /\ is_Some (nodes st2 !! n)).
  { unfold st2. destruct (bool_decide _); [split; [reflexivity|eauto]|]. split; [by eapply keeps_put|].
    cbn [put_node with_nodes nodes]. by rewrite lookup_insert_eq. }
  destruct Hk2 as (Hk2 & nd2 & En2). rewrite En2. mred. eexists _, _. split; [done|]. split.
  { etrans; [exact Hk1|]. etrans; [exact Hk2|]. by eapply keeps_put. }
  cbn [put_node with_nodes nodes]. rewrite lookup_insert_eq. split; [done|]. split; [|done]. apply nodeIsMaster_set.
Qed.

(** ** The takeover loop *)

Lemma claimSlots_loop_ok k j st om :
  slots_ok st -> is_Some (nodes st !! om) -> is_Some (nodes st !! myself st) -> om <> myself st ->
  0 <= j -> j + Z.of_nat k = CLUSTER_SLOTS ->
  exists st', claimSlots_loop k j st om = Some st' /\ slots_ok st' /\ frame st st' /\
    forall i, slots st' !! i =
      if bool_decide (j <= Z.of_nat i) && bool_decide (slots st !! i = Some (Some om)) then Some (Some (myself st)) else slots st !! i.
Proof.
  revert j st. induction k as [|k IH]; intros j st Hok Hn Hme Hne Hj Hk; cbn [claimSlots_loop].
  { exists st. split_and!; try done. intros i. case_bool_decide; [|done]. cbn [andb].
    rewrite bool_decide_false; [done|]. rewrite lookup_ge_None_2; [done|]. pose proof (ok_length st Hok). lia. }
  destruct Hn as [nd En]. rewrite En. mred. assert (Hjr : 0 <= j < CLUSTER_SLOTS) by lia.
  unfold clusterNodeGetSlotBit. pose proof (ok_nodes st Hok om nd En) as (_ & Hb & _ & Hbit).
  rewrite bitmapTestBit_spec by (done || by eapply bitmap_range). mred. rewrite Hbit by done.
  case_bool_decide as Eo.
  - destruct (clusterDelSlot_ok st Hok j om Hjr Eo) as (st1 & -> & Hok1 & Hf1 & Hs1). mred.
    destruct Hme as [me Eme]. destruct (frame_node _ _ _ _ Hf1 Eme) as (me1 & Eme1 & _).
    assert (Emy : myself st = myself st1) by apply Hf1. rewrite <-Emy.
    destruct (clusterAddSlot_ok st1 Hok1 (myself st) me1 j Eme1 Hjr) as (st2 & -> & Hok2 & Hf2 & Hs2).
    { rewrite Hs1. by rewrite list_lookup_insert_eq by (eapply lookup_lt_Some; eauto). }
    mred. assert (Hf : frame st st2) by (by etrans). assert (Emy2 : myself st = myself st2) by apply Hf.
    destruct (frame_node _ _ _ _ Hf En) as (nd2 & En2 & _). destruct (frame_node _ _ _ _ Hf Eme) as (me2 & Eme2 & _).
    rewrite Hs1, list_insert_insert_eq in Hs2.
    destruct (IH (j + 1) st2) as (st' & -> & Hok' & Hf' & Hs'); [done|by rewrite En2|by rewrite <-Emy2, Eme2|by rewrite <-Emy2|lia..|].
    exists st'. split; [done|]. split; [done|]. split; [by etrans|]. intros i. rewrite Hs', Hs2, <-Emy2.
    destruct (decide (i = Z.to_nat j)) as [->|Hij].
    + rewrite bool_decide_false by lia. cbn [andb]. rewrite list_lookup_insert_eq by (eapply lookup_lt_Some; eauto).
      by rewrite !bool_decide_true by (done || lia).
    + rewrite list_lookup_insert_ne by done. rewrite (bool_decide_ext (j + 1 <= Z.of_nat i) (j <= Z.of_nat i)) by lia. done.
  - destruct (IH (j + 1) st) as (st' & E & Hok' & Hf' & Hs'); [done|by rewrite En|done|done|lia..|].
    exists st'. split_and!; try done. intros i. rewrite Hs'. destruct (decide (i = Z.to_nat j)) as [->|Hij].
    + by rewrite (bool_decide_false (slots st !! Z.to_nat j = _)), !andb_false_r by done.
    + by rewrite (bool_decide_ext (j + 1 <= Z.of_nat i) (j <= Z.of_nat i)) by lia.
Qed.

(** ** The state of the cluster *)

Definition covered (st : clusterState) : Prop :=
  forall i o, slots st !! i = Some o -> exists n nd, o = Some n /\ nodes st !! n = Some nd /\ nodeFailed nd = false.

Definition votes (nd : clusterNode) : bool := nodeIsMaster nd && negb (numslots nd =? 0).
Definition reachable (nd : clusterNode) : bool := votes nd && negb (has_flag nd (Z.lor CLUSTER_NODE_FAIL CLUSTER_NODE_PFAIL)).

Definition count (p : clusterNode -> bool) (m : gmap Z clusterNode) : Z := Z.of_nat (base.size (filter (fun kv => p kv.2 = true) m)).

Lemma slots_covered_spec m l :
  (forall i n, l !! i = Some (Some n) -> is_Some (m !! n)) ->
  exists b, slots_covered m l = Some b /\
    (b = true <-> forall i o, l !! i = Some o -> exists n nd, o = Some n /\ m !! n = Some nd /\ nodeFailed nd = false).
Proof.
  induction l as [|[n|] l IH]; intros Hl; cbn [slots_covered].
  - exists true. split; [done|]. split; [intros _ i o Hi; by rewrite lookup_nil in Hi|done].
  - destruct (Hl 0%nat n eq_refl) as [nd En]. rewrite En. mred. destruct (nodeFailed nd) eqn:Ef.
    + exists false. split; [done|]. split; [done|]. intros H. destruct (H 0%nat _ eq_refl) as (? & ? & [= <-] & E & ?). congruence.
    + destruct IH as (b & -> & Hb); [intros i; apply (Hl (S i))|]. exists b. split; [done|]. rewrite Hb. split.
      * intros H [|i] o Hi; [injection Hi as <-; eauto|by apply (H i)].
      * intros H i. apply (H (S i)).
  - exists false. split; [done|]. split; [done|]. intros H. by destruct (H 0%nat _ eq_refl) as (? & ? & ? & _).
Qed.

Lemma count_insert p m k nd : m !! k = None -> count p (<[k := nd]> m) = count p m + (if p nd then 1 else 0).
Proof.
  intros Hk. unfold count. rewrite map_filter_insert. cbn [snd]. destruct (p nd).
  - rewrite decide_True, map_size_insert_None by (done || by apply map_lookup_filter_None; left). lia.
  - rewrite decide_False, map_filter_delete, delete_id by (done || by apply map_lookup_filter_None; left). lia.
Qed.

Lemma count_masters_spec st : count_masters st = (count votes (nodes st), count reachable (nodes st)).
Proof.
  unfold count_masters. generalize (nodes st) as m. apply (map_fold_weak_ind (fun r m => r = (count votes m, count reachable m))); [done|].
  intros k nd m r Hk ->. rewrite !count_insert by done. unfold reachable, has_flag. fold (votes nd). destruct (votes nd); cbn [andb].
  - destruct (Z.land _ _ =? 0); cbn [negb]; f_equal; lia.
  - f_equal; lia.
Qed.

(** What [clusterUpdateState] decides on. *)
Definition first_call (now : Z) (clk : stateClock) : Z := if first_call_time clk =? 0 then now else first_call_time clk.
Definition rejoin (timeout : Z) : Z := Z.max CLUSTER_MIN_REJOIN_DELAY (Z.min timeout CLUSTER_MAX_REJOIN_DELAY).
Definition just_started (now : Z) (st : clusterState) (me : clusterNode) (clk : stateClock) : bool :=
  nodeIsMaster me && (state st =? CLUSTER_FAIL) && (now - first_call now clk <? CLUSTER_WRITABLE_DELAY).
Definition quorum (st : clusterState) : Prop := count votes (nodes st) < 2 * count reachable (nodes st).

Section update_state.
Context (now timeout : Z) (full : bool) (st : clusterState) (clk : stateClock) (me : clusterNode).
Context (Hok : slots_ok st) (Hme : nodes st !! myself st = Some me) (Hst : state st = CLUSTER_OK \/ state st = CLUSTER_FAIL).

Lemma updateState_spec :
  exists st' clk', clusterUpdateState now timeout full st clk = Some (st', clk') /\
    st' = with_state_size st (state st') (size st') /\
    (state st' = CLUSTER_OK \/ state st' = CLUSTER_FAIL) /\
    (state st' = CLUSTER_OK <-> (full = true -> covered st) /\ quorum st /\
      (state st = CLUSTER_FAIL -> nodeIsMaster me = true ->
        CLUSTER_WRITABLE_DELAY <= now - first_call now clk /\ rejoin timeout <= now - among_minority_time clk)) /\
    (just_started now st me clk = false -> size st' = count votes (nodes st) /\ (~ quorum st -> among_minority_time clk' = now)).
Proof.
  unfold clusterUpdateState. rewrite Hme. mred.
  assert (Ef : first_call_time (if first_call_time clk =? 0 then StateClock (among_minority_time clk) now else clk) = first_call now clk)
    by (unfold first_call; by destruct (_ =? 0)).
  assert (Ea : among_minority_time (if first_call_time clk =? 0 then StateClock (among_minority_time clk) now else clk) = among_minority_time clk)
    by (by destruct (_ =? 0)).
  set (clk1 := if first_call_time clk =? 0 then _ else clk) in *. rewrite Ef. fold (just_started now st me clk).
  destruct (just_started now st me clk) eqn:Ej.
  { unfold just_started in Ej. apply andb_true_iff in Ej as [[Em Es]%andb_true_iff Et]. apply Z.eqb_eq in Es. apply Z.ltb_lt in Et.
    exists st, clk1. split; [done|]. split; [by destruct st|]. split; [by right|]. split; [|done].
    split; [rewrite Es; done|]. intros (_ & _ & H). destruct (H Es Em). lia. }
  destruct (slots_covered_spec (nodes st) (slots st) (ok_owner st Hok)) as (b & Eb & Hb).
  assert (Hcov : exists c, (if full then slots_covered (nodes st) (slots st) else Some true) = Some c /\ (c = true <-> (full = true -> covered st))).
  { destruct full; [exists b; split; [done|]; unfold covered; rewrite Hb; naive_solver|by exists true]. }
  destruct Hcov as (c & -> & Hc). mred. rewrite count_masters_spec.
  assert (Hq : quorum st <-> (count reachable (nodes st) <? count votes (nodes st) / 2 + 1) = false) by (unfold quorum; rewrite Z.ltb_ge; zlia).
  set (new_state := if c then CLUSTER_OK else CLUSTER_FAIL). cbn [with_state_size state size].
  assert (Er : forall d, (if d <? CLUSTER_MIN_REJOIN_DELAY then CLUSTER_MIN_REJOIN_DELAY else d) = Z.max CLUSTER_MIN_REJOIN_DELAY d)
    by (intros d; destruct (Z.ltb_spec d CLUSTER_MIN_REJOIN_DELAY); lia).
  assert (Er' : (if CLUSTER_MAX_REJOIN_DELAY <? timeout then CLUSTER_MAX_REJOIN_DELAY else timeout) = Z.min timeout CLUSTER_MAX_REJOIN_DELAY)
    by (destruct (Z.ltb_spec CLUSTER_MAX_REJOIN_DELAY timeout); lia).
  rewrite Er', Er. fold (rejoin timeout). clear Er Er'.
  destruct (_ <? _) eqn:Eq.
  - assert (Hnq : ~ quorum st) by (rewrite Hq; done). cbn [fst snd].
    destruct (CLUSTER_FAIL =? state st) eqn:Es.
    + apply Z.eqb_eq in Es. eexists _, _. split; [done|]. cbn [state size]. split; [done|]. split; [by right|]. rewrite <-Es. split; [|done].
      split; [done|tauto].
    + cbn [Z.eqb andb]. eexists _, _. split; [done|]. cbn [state size]. split; [done|]. split; [by right|]. split; [split; [done|tauto]|done].
  - assert (Hyq : quorum st) by (by apply Hq). destruct (new_state =? state st) eqn:Es.
    + apply Z.eqb_eq in Es. eexists _, _. split; [done|]. cbn [state size]. split; [done|]. split; [done|]. split; [|done]. rewrite <-Es.
      unfold new_state. destruct c.
      * split; [intros _; split; [naive_solver|]; split; [done|]; done|done].
      * split; [done|]. intros (Hcc & _). apply Hc in Hcc. done.
    + apply Z.eqb_neq in Es. destruct ((new_state =? CLUSTER_OK) && nodeIsMaster me && (now - among_minority_time clk1 <? rejoin timeout)) eqn:Ed.
      * apply andb_true_iff in Ed as [[En Em]%andb_true_iff Et]. apply Z.eqb_eq in En. apply Z.ltb_lt in Et.
        assert (Est : state st = CLUSTER_FAIL) by (destruct Hst; congruence).
        eexists _, _. split; [done|]. cbn [state size]. split; [done|]. split; [done|]. split; [|done]. rewrite Est.
        split; [done|]. intros (_ & _ & H). destruct (H eq_refl Em). lia.
      * eexists _, _. split; [done|]. cbn [state size]. split; [done|]. unfold new_state in *. destruct c.
        -- split; [by left|]. split; [|done]. split; [intros _|done]. split; [naive_solver|]. split; [done|]. intros Est Em.
           unfold just_started in Ej. rewrite Em in Ej, Ed. rewrite Est in Ej. cbn [Z.eqb andb] in Ej, Ed. lia.
        -- split; [by right|]. split; [|done]. split; [done|]. intros (Hcc & _). apply Hc in Hcc. done.
Qed.

Lemma updateState_slots st' clk' :
  clusterUpdateState now timeout full st clk = Some (st', clk') -> slots_ok st' /\ nodes st' = nodes st /\ slots st' = slots st.
Proof.
  intros E. destruct updateState_spec as (st1 & clk1 & E1 & H & _). rewrite E in E1. injection E1 as <- <-.
  rewrite H. split; [|done]. by destruct Hok.
Qed.
End update_state.

(** ** A cluster in which one node owns every slot *)

Definition example_node (f e : Z) (all : bool) (sl : list Z) (master : option Z) : clusterNode :=
  ClusterNode f e (replicate (Z.to_nat (CLUSTER_SLOTS / 8)) (if all then 255 else 0)) (if all then CLUSTER_SLOTS else 0) sl master 0 0 true.

Definition example_state (me e : Z) (l : gmap Z clusterNode) (o : option Z) : clusterState :=
  ClusterState me e CLUSTER_OK 1 l (replicate (Z.to_nat CLUSTER_SLOTS) None) (replicate (Z.to_nat CLUSTER_SLOTS) None)
    (replicate (Z.to_nat CLUSTER_SLOTS) o) (replicate (Z.to_nat CLUSTER_SLOTS) 7) (Election 0 0 false 0 0 0 0 None 0 false 0).

Lemma bit_of_replicate k b j :
  0 <= j < 8 * Z.of_nat k -> bit_of (replicate k (if b : bool then 255 else 0)) j = b.
Proof.
  intros Hj. assert (0 <= j / 8 < Z.of_nat k) by zlia. unfold bit_of. rewrite nth_lookup, lookup_replicate_2 by lia. cbn [from_option id]. destruct b; [|apply Z.bits_0].
  change 255 with (Z.ones 8). apply Z.ones_spec_low. pose proof (Z.mod_pos_bound j 8). lia.
Qed.

Lemma owned_replicate n k o : owned n (replicate k o) = if bool_decide (o = Some n) then Z.of_nat k else 0.
Proof.
  unfold owned. induction k as [|k IH]; [by destruct (bool_decide _)|]. cbn [replicate]. rewrite filter_cons.
  destruct (decide (o = Some n)) as [Ho|Ho].
  - rewrite (bool_decide_true _ Ho) in *. cbn [length]. lia.
  - by rewrite (bool_decide_false _ Ho) in *.
Qed.

Lemma example_state_ok me e l o :
  (forall n, o = Some n -> is_Some (l !! n)) ->
  (forall n nd, l !! n = Some nd -> exists f c sl m, nd = example_node f c (bool_decide (o = Some n)) sl m) ->
  slots_ok (example_state me e l o).
Proof.
  intros Ho Hl. split; cbn [example_state slots importing_slots_from slots_keys_count nodes]; rewrite ?length_replicate, ?Z2Nat.id by done; try done.
  - intros n nd En. destruct (Hl n nd En) as (f & c & sl & m & ->). unfold node_ok. cbn [example_node node_slots numslots].
    rewrite length_replicate, owned_replicate, !Z2Nat.id by done. split; [done|]. split.
    { apply Forall_replicate. by destruct (bool_decide _). }
    split; [by destruct (bool_decide _)|]. intros j Hj. rewrite bit_of_replicate.
    + rewrite lookup_replicate_2 by lia. apply bool_decide_ext. naive_solver.
    + rewrite Z2Nat.id by done. unfold CLUSTER_SLOTS in *. change (16384 / 8) with 2048. lia.
  - intros j n [Eo _]%lookup_replicate. by apply Ho.
Qed.

(** Three nodes: a master (1) that owns every slot, its slave (2) and another master (3). *)
Definition example_nodes : gmap Z clusterNode :=
  <[1 := example_node CLUSTER_NODE_MASTER 4 true [2] None]>
  (<[2 := example_node CLUSTER_NODE_SLAVE 4 false [] (Some 1)]>
  (<[3 := example_node CLUSTER_NODE_MASTER 6 false [] None]> ∅)).

Lemma example_ok me : slots_ok (example_state me 6 example_nodes (Some 1)).
Proof.
  apply example_state_ok; [intros n [= <-]; by eexists|]. intros n nd. unfold example_nodes.
  rewrite !lookup_insert_Some, lookup_empty. intros [[<- <-]|[? [[<- <-]|[? [[<- <-]|[? ?]]]]]]; [by do 4 eexists..|done].
Qed.

Definition example_master : clusterNode := example_node CLUSTER_NODE_MASTER 4 true [2] None.
Definition example_slave : clusterNode := example_node CLUSTER_NODE_SLAVE 4 false [] (Some 1).
Definition example_other : clusterNode := example_node CLUSTER_NODE_MASTER 6 false [] None.

Lemma example_lookup :
  example_nodes !! 1 = Some example_master /\ example_nodes !! 2 = Some example_slave /\ example_nodes !! 3 = Some example_other.
Proof.
  unfold example_nodes. split; [by rewrite lookup_insert_eq|]. split; rewrite lookup_insert_ne by done; [by rewrite lookup_insert_eq|].
  rewrite lookup_insert_ne by done. by rewrite lookup_insert_eq.
Qed.

(** ** The theorems *)

(** C17: Slot ownership. While the table of owners and the bitmaps and counters of the
    nodes agree, adding a slot succeeds exactly when the slot is free and deleting it
    exactly when it has an owner; both change that entry only, and [clusterDelNodeSlots]
    releases all slots of the node and returns how many they were. The assertion that
    the bit of a deleted slot was set never fails, and the agreement is kept. *)
Theorem slot_ops_exact st n nd :
  slots_ok st -> nodes st !! n = Some nd ->
  (forall slot, 0 <= slot < CLUSTER_SLOTS ->
    (exists st', clusterAddSlot st n slot = Some (st', bool_decide (slots st !! Z.to_nat slot = Some None)) /\ slots_ok st' /\ frame st st' /\
       slots st' = if bool_decide (slots st !! Z.to_nat slot = Some None) then <[Z.to_nat slot := Some n]> (slots st) else slots st) /\
    (exists st', clusterDelSlot st slot = Some (st', bool_decide (slots st !! Z.to_nat slot <> Some None)) /\ slots_ok st' /\ frame st st' /\
       slots st' = <[Z.to_nat slot := None]> (slots st))) /\
  exists st', clusterDelNodeSlots st n = Some (st', numslots nd) /\ slots_ok st' /\ frame st st' /\
    slots st' = map (fun o => if bool_decide (o = Some n) then None else o) (slots st).
Proof.
  intros Hok En. split.
  - intros slot Hs. destruct (slots_ok_lookup st slot Hok Hs) as [[m|] Eo]; rewrite Eo; split.
    + exists st. unfold clusterAddSlot, slot_owner. rewrite (bool_decide_true (0 <= slot)), Eo by lia. done.
    + destruct (clusterDelSlot_ok st Hok slot m Hs Eo) as (st' & E & ?). exists st'. by rewrite E.
    + destruct (clusterAddSlot_ok st Hok n nd slot En Hs Eo) as (st' & E & ?). exists st'. by rewrite E.
    + exists st. unfold clusterDelSlot, slot_owner. rewrite (bool_decide_true (0 <= slot)), Eo by lia. mred.
      split_and!; try done. by rewrite list_insert_id.
  - unfold clusterDelNodeSlots.
    destruct (delNodeSlots_loop_ok (Z.to_nat CLUSTER_SLOTS) 0 st n 0 Hok ltac:(by rewrite En) ltac:(lia) ltac:(rewrite Z2Nat.id; done))
      as (st' & E & Hok' & Hf & Hs). exists st'. destruct (ok_nodes st Hok n nd En) as (_ & _ & Hn & _).
    assert (Hz : owned n (slots st') = 0).
    { apply owned_zero. intros i. rewrite Hs, bool_decide_true by lia. cbn [andb]. by case_bool_decide. }
    rewrite E, Hz, Hn. split; [do 2 f_equal; lia|]. split; [done|]. split; [done|]. clear E. apply list_eq. intros i.
    rewrite Hs, list_lookup_fmap, bool_decide_true by lia. cbn [andb]. destruct (slots st !! i) as [o|]; [|done]. cbn [fmap option_fmap option_map].
    rewrite (bool_decide_ext (Some o = Some (Some n)) (o = Some n)) by (split; [by intros [= ->]|by intros ->]). by destruct (bool_decide _).
Qed.

Lemma slot_ops_exact_witness :
  exists st', clusterDelNodeSlots (example_state 3 6 example_nodes (Some 1)) 1 = Some (st', CLUSTER_SLOTS) /\ slots_ok st'.
Proof.
  pose proof (slot_ops_exact (example_state 3 6 example_nodes (Some 1)) 1 example_master (example_ok 3) (proj1 example_lookup)) as [_ H].
  destruct H as (st' & E & Hok & _). exists st'. split; [exact E|exact Hok].
Defined.

(** The master this node follows, itself when it is a master. *)
Definition cur_master (st : clusterState) (me : clusterNode) : option Z := if nodeIsMaster me then Some (myself st) else slaveof me.

(** A configuration update takes the last slots of the master this node follows. *)
Definition demotes (st : clusterState) (me : clusterNode) (sender e : Z) (bm : list Z) (st' : clusterState) : Prop :=
  exists cm, cur_master st me = Some cm /\ (exists i, takes st sender e bm i = true /\ slots st !! i = Some (Some cm)) /\
    forall i, slots st' !! i <> Some (Some cm).

(** The node is a master, or a slave without slots of a known node. *)
Definition role_ok (st : clusterState) (me : clusterNode) : Prop :=
  nodeIsMaster me = true \/ (nodeIsMaster me = false /\ numslots me = 0 /\ exists m, slaveof me = Some m /\ is_Some (nodes st !! m)).

Lemma same_slots_numslots a b : same_slots a b -> numslots a = numslots b.
Proof. by intros [_ ?]. Qed.

(** The loop leaves this node without slots when it had none or lost them. *)
Lemma update_me st st' me me' sender e bm :
  slots_ok st -> slots_ok st' -> nodes st !! myself st = Some me -> nodes st' !! myself st = Some me' -> sender <> myself st ->
  (forall i, slots st' !! i = if takes st sender e bm i then Some (Some sender) else slots st !! i) ->
  numslots me = 0 -> numslots me' = 0.
Proof.
  intros Hok Hok' Eme Eme' Hne Hs Hz. apply (numslots_zero st' _ _ Hok' Eme'). intros i. rewrite Hs.
  destruct (takes st sender e bm i); [naive_solver|]. by apply (numslots_zero st _ _ Hok Eme).
Qed.

(** C16: A configuration message. A slot its sender claims changes hands exactly when it
    is not the sender's already, is not being imported and is free or owned by a node
    with an older configuration epoch; no other slot does, and owners, bitmaps and
    counters still agree. This node becomes a slave of the sender exactly when the
    master it follows (itself, if it is a master) lost its last slots by this message;
    otherwise no role changes and the keys deleted are those of the slots it lost and
    still had keys for. *)
Theorem updateSlotsConfig_exact st sender e bm me :
  slots_ok st -> nodes st !! myself st = Some me -> is_Some (nodes st !! sender) -> sender <> myself st -> role_ok st me ->
  Forall is_byte bm -> Z.of_nat (length bm) = CLUSTER_SLOTS / 8 ->
  exists st' effs, clusterUpdateSlotsConfigWith st sender e bm = Some (st', effs) /\ slots_ok st' /\
    (forall i, slots st' !! i = if takes st sender e bm i then Some (Some sender) else slots st !! i) /\
    ((demotes st me sender e bm st' /\ effs = [ReplicationSetMaster sender] /\
      exists me', nodes st' !! myself st = Some me' /\ nodeIsMaster me' = false /\ slaveof me' = Some sender) \/
     (~ demotes st me sender e bm st' /\ frame st st' /\
      exists dirty, effs = map DelKeysInSlot dirty /\ forall s, s ∈ dirty <-> 0 <= s /\ is_dirty st sender e bm (Z.to_nat s))).
Proof.
  intros Hok Eme Hsn Hne Hrole Hb Hl. unfold clusterUpdateSlotsConfigWith. rewrite Eme. mred. fold (cur_master st me). rewrite bool_decide_false by done.
  destruct (updateSlots_loop_updated (Z.to_nat CLUSTER_SLOTS) 0 st sender e bm (cur_master st me) false [] Hok Hsn ltac:(lia)
    ltac:(rewrite Z2Nat.id; done) Hb Hl) as (st1 & nm & dirty & E & Hok1 & Hf & Hs & Hnm & Hd). rewrite E. mred. clear E.
  assert (Hs' : forall i, slots st1 !! i = if takes st sender e bm i then Some (Some sender) else slots st !! i).
  { intros i. by rewrite Hs, bool_decide_true by lia. }
  assert (Hd' : forall s, s ∈ dirty <-> 0 <= s /\ is_dirty st sender e bm (Z.to_nat s)).
  { intros s. rewrite Hd. split; [by intros [?%not_elem_of_nil|?]|by right]. }
  destruct (frame_node _ _ _ _ Hf Eme) as (me1 & Eme1 & _ & _ & Hsl & _ & _ & Hma & _). assert (Emy : myself st = myself st1) by apply Hf.
  assert (Hcm : exists cm, cur_master st me = Some cm /\ is_Some (nodes st !! cm)).
  { unfold cur_master. destruct Hrole as [-> |(-> & _ & m & -> & ?)]; eauto. }
  destruct Hcm as (cm & Ecm & ncm & Encm). destruct (frame_node _ _ _ _ Hf Encm) as (ncm1 & Encm1 & _). rewrite Ecm in *.
  assert (Hdem : demotes st me sender e bm st1 <-> nm = true /\ numslots ncm1 = 0).
  { unfold demotes. rewrite Ecm, Hnm, (numslots_zero st1 _ _ Hok1 Encm1). split.
    - intros (? & [= <-] & (i & ? & ?) & ?). split; [right; exists i; split; [lia|done]|done].
    - intros ([?|(i & _ & ? & ?)] & ?); [done|]. eauto 10. }
  destruct nm; mred.
  - rewrite Encm1. mred. destruct (Z.eqb_spec (numslots ncm1) 0) as [Hz|Hz].
    + assert (Hme0 : numslots me1 = 0).
      { destruct Hrole as [Hm|(_ & Hm & _)]; [|by apply (update_me st st1 me me1 sender e bm)].
        unfold cur_master in Ecm. rewrite Hm in Ecm. injection Ecm as <-. congruence. }
      destruct Hsn as [ns Ens]. destruct (frame_node _ _ _ _ Hf Ens) as (ns1 & Ens1 & _). rewrite Emy in Eme1.
      destruct (setMaster_keeps st1 sender me1 Hok1) as (st2 & E2 & Hk); [congruence|by rewrite Ens1|done|done| |].
      { intros Hm m Hm'. destruct Hrole as [?|(_ & _ & m2 & E2 & n2 & En2)]; [congruence|].
        rewrite <-Hsl, E2 in Hm'. injection Hm' as <-. destruct (frame_node _ _ _ _ Hf En2) as (? & ? & _). eauto. }
      destruct (setMaster_role st1 sender me1 st2 _ Eme1 E2) as (me2 & Eme2 & H1 & H2).
      assert (Hs2 : slots st1 = slots st2) by apply Hk.
      exists st2, [ReplicationSetMaster sender]. rewrite E2, <-Hs2. split; [done|]. split; [by eapply keeps_ok|]. split; [done|]. left.
      unfold demotes in *. rewrite <-Hs2. split; [by apply Hdem|]. split; [done|]. exists me2. by rewrite Emy.
    + exists st1, (map DelKeysInSlot dirty). split; [done|]. split; [done|]. split; [done|]. right. split; [by rewrite Hdem; intros [_ ?]|eauto].
  - exists st1, (map DelKeysInSlot dirty). split; [done|]. split; [done|]. split; [done|]. right. split; [by rewrite Hdem; intros [? _]|eauto].
Qed.

(** Node 3, which has a newer epoch, claims every slot of node 1, seen by its slave 2. *)
Lemma updateSlotsConfig_exact_witness :
  exists st' effs, clusterUpdateSlotsConfigWith (example_state 2 6 example_nodes (Some 1)) 3 6
      (replicate (Z.to_nat (CLUSTER_SLOTS / 8)) 255) = Some (st', effs) /\ slots_ok st'.
Proof.
  destruct (updateSlotsConfig_exact (example_state 2 6 example_nodes (Some 1)) 3 6 (replicate (Z.to_nat (CLUSTER_SLOTS / 8)) 255)
    example_slave) as (st' & effs & E & Hok & _).
  - apply example_ok.
  - apply example_lookup.
  - exists example_other. apply example_lookup.
  - discriminate.
  - right. split; [reflexivity|]. split; [reflexivity|]. exists 1. split; [reflexivity|]. exists example_master. apply example_lookup.
  - apply Forall_replicate. split; [discriminate|reflexivity].
  - rewrite length_replicate, Z2Nat.id; [reflexivity|discriminate].
  - exists st', effs. split; [exact E|exact Hok].
Defined.

(** C20: A slave that replaces its master. It becomes a master with no master of its own,
    every slot of the old master and no other slot becomes its own, the old master is
    left with no slots, the manual failover is over and owners, bitmaps and counters
    still agree. *)
Theorem failover_takes_all st me m now timeout full clk :
  slots_ok st -> nodes st !! myself st = Some me -> nodeIsMaster me = false -> slaveof me = Some m -> m <> myself st ->
  is_Some (nodes st !! m) -> (state st = CLUSTER_OK \/ state st = CLUSTER_FAIL) ->
  exists st' clk', clusterFailoverReplaceYourMaster now timeout full st clk = Some (st', clk', [ReplicationUnsetMaster; BroadcastPong CLUSTER_BROADCAST_ALL]) /\ slots_ok st' /\
    (forall i, slots st' !! i = if bool_decide (slots st !! i = Some (Some m)) then Some (Some (myself st)) else slots st !! i) /\
    (exists me', nodes st' !! myself st = Some me' /\ nodeIsMaster me' = true /\ slaveof me' = None) /\
    (exists m', nodes st' !! m = Some m' /\ numslots m' = 0) /\ mf_end (election st') = 0.
Proof.
  intros Hok Eme Hm Hs Hne Hmn Hst. unfold clusterFailoverReplaceYourMaster.
  assert (Hk : 0 + Z.of_nat (Z.to_nat CLUSTER_SLOTS) = CLUSTER_SLOTS) by (rewrite Z2Nat.id; done).
  revert Hk. generalize (Z.to_nat CLUSTER_SLOTS) as k. intros k Hk. rewrite Eme. mred. rewrite Hs, Hm.
  destruct (setNodeAsMaster_ok st (myself st) me m Eme Hm Hs Hmn) as (st1 & me1 & E1 & Hk1 & Eme1 & Hm1 & Hs1).
  assert (Hst1 : state st = state st1) by apply Hk1. rewrite E1. mred. clear E1.
  assert (Hok1 : slots_ok st1) by (by eapply keeps_ok). assert (Emy : myself st = myself st1) by apply Hk1. assert (Esl : slots st = slots st1) by apply Hk1.
  destruct Hmn as [mn Emn]. destruct (keeps_node _ _ _ _ Hk1 Emn) as (mn1 & Emn1 & _).
  destruct (claimSlots_loop_ok k 0 st1 m Hok1) as (st2 & E2 & Hok2 & Hf2 & Hs2);
    [by rewrite Emn1|by rewrite <-Emy, Eme1|congruence|lia|done|]. rewrite E2. mred.
  assert (Est2 : state st1 = state st2) by apply Hf2.
  clear E2. assert (Emy2 : myself st1 = myself st2) by apply Hf2.
  destruct (frame_node _ _ _ _ Hf2 Eme1) as (me2 & Eme2 & _ & _ & Hsl2 & _ & _ & Hm2 & _).
  destruct (frame_node _ _ _ _ Hf2 Emn1) as (mn2 & Emn2 & _).
  assert (Eme3 : nodes st2 !! myself st2 = Some me2) by congruence.
  assert (Hst2 : state st2 = CLUSTER_OK \/ state st2 = CLUSTER_FAIL) by (by rewrite <-Est2, <-Hst1).
  destruct (updateState_spec now timeout full st2 clk me2 Hok2 Eme3 Hst2) as (st3 & clk3 & E3 & _). rewrite E3. mred.
  destruct (updateState_slots now timeout full st2 clk me2 Hok2 Eme3 Hst2 st3 clk3 E3) as (Hok3 & Hn & Hsl).
  exists (resetManualFailover st3), clk3. split; [done|].
  cbn [resetManualFailover with_election slots nodes election mf_end]. rewrite Hsl, Hn.
  assert (Hs2' : forall i, slots st2 !! i = if bool_decide (slots st !! i = Some (Some m)) then Some (Some (myself st)) else slots st !! i).
  { intros i. by rewrite Hs2, bool_decide_true, Esl, Emy by lia. }
  split; [|split; [done|split; [|split; [|done]]]].
  - by destruct Hok3.
  - exists me2. split; [done|]. split; congruence.
  - exists mn2. split; [done|]. apply (numslots_zero st2 _ _ Hok2 Emn2). intros i. rewrite Hs2'. case_bool_decide; [naive_solver|done].
Qed.

(** Node 2 takes over the slots of its master 1. *)
Lemma failover_takes_all_witness :
  exists st' clk', clusterFailoverReplaceYourMaster 100 15000 true (example_state 2 6 example_nodes (Some 1)) (StateClock 0 0)
    = Some (st', clk', [ReplicationUnsetMaster; BroadcastPong CLUSTER_BROADCAST_ALL]) /\ slots_ok st'.
Proof.
  destruct (failover_takes_all (example_state 2 6 example_nodes (Some 1)) example_slave 1 100 15000 true (StateClock 0 0))
    as (st' & clk' & E & Hok & _).
  - apply example_ok.
  - apply example_lookup.
  - reflexivity.
  - reflexivity.
  - discriminate.
  - exists example_master. apply example_lookup.
  - left. reflexivity.
  - exists st', clk'. split; [exact E|exact Hok].
Defined.

(** C29: The state of the cluster. After [clusterUpdateState] the state is OK exactly when
    every slot has an owner that is not failing (if full coverage is required), more than
    half of the masters with slots are reachable, and a master that was in the FAIL state
    has been up for the writable delay and out of the minority for the rejoin delay; it is
    FAIL otherwise. The size counts the masters with slots, being in the minority restarts
    the rejoin delay, and nothing else changes. *)
Theorem updateState_exact now timeout full st clk me :
  slots_ok st -> nodes st !! myself st = Some me -> (state st = CLUSTER_OK \/ state st = CLUSTER_FAIL) ->
  exists st' clk', clusterUpdateState now timeout full st clk = Some (st', clk') /\
    st' = with_state_size st (state st') (size st') /\
    (state st' = CLUSTER_OK \/ state st' = CLUSTER_FAIL) /\
    (state st' = CLUSTER_OK <-> (full = true -> covered st) /\ quorum st /\
      (state st = CLUSTER_FAIL -> nodeIsMaster me = true ->
        CLUSTER_WRITABLE_DELAY <= now - first_call now clk /\ rejoin timeout <= now - among_minority_time clk)) /\
    (just_started now st me clk = false -> size st' = count votes (nodes st) /\ (~ quorum st -> among_minority_time clk' = now)).
Proof. intros. by apply updateState_spec. Qed.

Lemma updateState_exact_witness :
  exists st' clk', clusterUpdateState 100 15000 true (example_state 2 6 example_nodes (Some 1)) (StateClock 0 0) = Some (st', clk') /\
    (state st' = CLUSTER_OK \/ state st' = CLUSTER_FAIL).
Proof.
  destruct (updateState_exact 100 15000 true (example_state 2 6 example_nodes (Some 1)) (StateClock 0 0) example_slave)
    as (st' & clk' & E & _ & Hs & _).
  - apply example_ok.
  - apply example_lookup.
  - left. reflexivity.
  - exists st', clk'. split; [exact E|exact Hs].
Defined.

(** ** Configuration epochs *)

(** No node has a configuration epoch greater than the current epoch, which can still grow. *)
Definition epochs_ok (st : clusterState) : Prop :=
  0 <= currentEpoch st < 2 ^ 64 - 1 /\ forall n nd, nodes st !! n = Some nd -> 0 <= configEpoch nd <= currentEpoch st.

(** [clusterGetMaxEpoch] is the greatest of the current epoch and all configuration epochs. *)
Lemma maxEpoch_spec st : 0 <= currentEpoch st ->
  let m := clusterGetMaxEpoch st in
  currentEpoch st <= m /\ (forall n nd, nodes st !! n = Some nd -> configEpoch nd <= m) /\
  (m = currentEpoch st \/ exists n nd, nodes st !! n = Some nd /\ configEpoch nd = m).
Proof.
  intros Hc. unfold clusterGetMaxEpoch.
  assert (Hm : forall m : gmap Z clusterNode,
    let r := map_fold (fun _ nd max => if max <? configEpoch nd then configEpoch nd else max) 0 m in
    0 <= r /\ (forall n nd, m !! n = Some nd -> configEpoch nd <= r) /\
    (r = 0 \/ exists n nd, m !! n = Some nd /\ configEpoch nd = r)).
  { refine (map_fold_weak_ind (fun r m => 0 <= r /\ (forall n nd, m !! n = Some nd -> configEpoch nd <= r) /\
      (r = 0 \/ exists n nd, m !! n = Some nd /\ configEpoch nd = r)) _ _ _ _).
    { split; [done|]. split; [|by left]. intros n nd. by rewrite lookup_empty. }
    intros k nd m r Hk (Hr & Hle & Hex). destruct (Z.ltb_spec r (configEpoch nd)); (split; [lia|]); split.
    - intros n x [[_ <-]|[_ Hx]]%lookup_insert_Some; [lia|]. specialize (Hle n x Hx). lia.
    - right. exists k, nd. by rewrite lookup_insert_eq.
    - intros n x [[_ <-]|[_ Hx]]%lookup_insert_Some; [lia|]. by apply (Hle n x).
    - destruct Hex as [?|(n & x & Hx & ?)]; [by left|right]. exists n, x. split; [|done].
      rewrite lookup_insert_ne; [done|]. intros ->. by rewrite Hk in Hx. }
  specialize (Hm (nodes st)). cbv zeta in *. revert Hm. generalize (map_fold (fun _ nd max => if max <? configEpoch nd then configEpoch nd else max) 0 (nodes st)).
  intros r (Hr & Hle & Hex). destruct (Z.ltb_spec r (currentEpoch st)).
  - split; [lia|]. split; [|by left]. intros n nd En. specialize (Hle n nd En). lia.
  - split; [lia|]. split; [done|]. destruct Hex as [?|?]; [left; lia|by right].
Qed.

Lemma maxEpoch_current st : epochs_ok st -> clusterGetMaxEpoch st = currentEpoch st.
Proof.
  intros [Hc Hn]. destruct (maxEpoch_spec st) as (H1 & _ & [H|(n & nd & E & H)]); [lia|done|].
  specialize (Hn n nd E). lia.
Qed.

(** My epoch becomes the next one: it is greater than every other. *)
Lemma take_epoch_fresh st me :
  epochs_ok st -> nodes st !! myself st = Some me ->
  currentEpoch (take_epoch st me) = currentEpoch st + 1 /\
  (forall n nd, nodes (take_epoch st me) !! n = Some nd -> n <> myself st -> configEpoch nd < currentEpoch st + 1) /\
  nodes (take_epoch st me) !! myself st = Some (with_configEpoch me (currentEpoch st + 1)).
Proof.
  intros [Hc Hn] Eme. unfold take_epoch. autorewrite with widths. cbn [put_node with_currentEpoch with_nodes currentEpoch nodes]. split; [done|]. split; [|by rewrite lookup_insert_eq].
  intros n nd. intros En Hne. rewrite lookup_insert_ne in En by done. specialize (Hn n nd En). lia.
Qed.

(** Two masters see each other with the same epoch. *)
Definition collide (st : clusterState) (other e : Z) : Prop :=
  other <> myself st /\ exists me nd, nodes st !! myself st = Some me /\ nodes st !! other = Some nd /\
    nodeIsMaster me = true /\ nodeIsMaster nd = true /\ configEpoch me = e /\ configEpoch nd = e.

Definition my_epoch (st : clusterState) : option Z := configEpoch <$> nodes st !! myself st.

Lemma handleCollision_spec st other e :
  epochs_ok st -> collide st other e ->
  exists st', clusterHandleConfigEpochCollision st other = Some st' /\ myself st' = myself st /\
    my_epoch st' = Some (if myself st <? other then currentEpoch st + 1 else e).
Proof.
  intros Hok (Hne & me & nd & Eme & End' & Hm & Hn & He & He'). unfold clusterHandleConfigEpochCollision, my_epoch.
  rewrite End', Eme. mred. rewrite He, He', Z.eqb_refl, Hm, Hn. cbn [negb orb].
  destruct (take_epoch_fresh st me Hok Eme) as (_ & _ & E).
  destruct (Z.leb_spec other (myself st)); destruct (Z.ltb_spec (myself st) other); try lia.
  - exists st. rewrite Eme. cbn. by rewrite He.
  - eexists. split; [done|]. split; [done|]. change (myself (take_epoch st me)) with (myself st). by rewrite E.
Qed.

(** C30: Configuration epochs. Bumping without consensus, in any state: nothing changes
    exactly when the node's epoch is not 0 and is the greatest of the current epoch and all
    the configuration epochs it knows; otherwise the current epoch is incremented and becomes
    its configuration epoch, and no other node is touched. When no node has an epoch above
    the current one, the node ends with the greatest epoch of all, and when it changed it,
    with one no other node it knows has. When two masters have the same epoch and each
    handles the packet of the other, exactly one changes its epoch, the one with the smaller
    name, and the two then differ. *)
Theorem config_epochs_unique :
  (forall st me, 0 <= currentEpoch st -> nodes st !! myself st = Some me ->
    exists st' b, clusterBumpConfigEpochWithoutConsensus st = Some (st', b) /\
      (b = false <-> configEpoch me <> 0 /\ currentEpoch st <= configEpoch me /\
        forall n nd, nodes st !! n = Some nd -> configEpoch nd <= configEpoch me) /\
      (b = false -> st' = st) /\
      (b = true -> currentEpoch st' = u64 (currentEpoch st + 1) /\ my_epoch st' = Some (currentEpoch st') /\
        forall n, n <> myself st -> nodes st' !! n = nodes st !! n) /\
      (epochs_ok st -> my_epoch st' = Some (currentEpoch st') /\
        (forall n nd, nodes st' !! n = Some nd -> configEpoch nd <= currentEpoch st') /\
        (b = true -> forall n nd, nodes st' !! n = Some nd -> n <> myself st -> configEpoch nd < currentEpoch st'))) /\
  (forall sta stb e,
    epochs_ok sta -> epochs_ok stb -> collide sta (myself stb) e -> collide stb (myself sta) e ->
    exists sta' stb' ea eb, clusterHandleConfigEpochCollision sta (myself stb) = Some sta' /\
      clusterHandleConfigEpochCollision stb (myself sta) = Some stb' /\
      my_epoch sta' = Some ea /\ my_epoch stb' = Some eb /\ ea <> eb /\
      (if myself sta <? myself stb then e < ea /\ eb = e else ea = e /\ e < eb)).
Proof.
  split.
  - intros st me Hc Eme. destruct (maxEpoch_spec st Hc) as (Hm1 & Hm2 & Hm3).
    unfold clusterBumpConfigEpochWithoutConsensus. rewrite Eme. mred.
    destruct ((configEpoch me =? 0) || negb (configEpoch me =? clusterGetMaxEpoch st)) eqn:Eq.
    + eexists _, true. split; [done|]. split.
      { split; [done|]. intros (H0 & Hcur & Hall). exfalso.
        rewrite (proj2 (Z.eqb_neq _ _) H0) in Eq. cbn [orb] in Eq. apply negb_true_iff, Z.eqb_neq in Eq.
        specialize (Hm2 _ _ Eme). destruct Hm3 as [E|(n & nd & En & E)]; [lia|]. specialize (Hall n nd En). lia. }
      split; [done|]. split.
      { intros _. split; [done|]. unfold my_epoch, take_epoch. cbn [put_node with_currentEpoch with_nodes currentEpoch nodes myself].
        rewrite lookup_insert_eq. split; [done|]. intros n Hn. by rewrite lookup_insert_ne. }
      intros Ha. destruct (take_epoch_fresh st me Ha Eme) as (E1 & E2 & E3). rewrite E1.
      split; [unfold my_epoch; change (myself (take_epoch st me)) with (myself st); by rewrite E3|]. split; [|by intros _].
      intros n nd En. destruct (decide (n = myself st)) as [->|Hne]; [|specialize (E2 n nd En Hne); lia].
      rewrite E3 in En. injection En as <-. cbn. lia.
    + apply orb_false_iff in Eq as [E0%Z.eqb_neq Eq%negb_false_iff%Z.eqb_eq]. exists st, false. split; [done|].
      split; [split; [|done]; intros _; rewrite Eq; split; [lia|]; split; [lia|exact Hm2]|]. split; [done|]. split; [done|].
      intros Ha. rewrite (maxEpoch_current st Ha) in Eq. unfold my_epoch. rewrite Eme. cbn. rewrite Eq.
      split; [done|]. split; [intros n nd En; by apply Ha in En as [_ ?]|done].
  - intros sta stb e Ha Hb Hca Hcb. destruct (handleCollision_spec sta (myself stb) e Ha Hca) as (sta' & Ea & _ & Ma).
    destruct (handleCollision_spec stb (myself sta) e Hb Hcb) as (stb' & Eb & _ & Mb).
    assert (Hea : e <= currentEpoch sta) by (destruct Hca as (_ & me & _ & Eme & _ & _ & _ & <- & _); by apply Ha in Eme as [_ ?]).
    assert (Heb : e <= currentEpoch stb) by (destruct Hcb as (_ & me & _ & Eme & _ & _ & _ & <- & _); by apply Hb in Eme as [_ ?]).
    assert (Hne : myself sta <> myself stb) by (destruct Hca; congruence).
    do 4 eexists. split; [done|]. split; [done|]. split; [done|]. split; [done|].
    destruct (Z.ltb_spec (myself sta) (myself stb)); destruct (Z.ltb_spec (myself stb) (myself sta)); lia.
Qed.

(** Two views of the example: its two masters with the same epoch. *)
Definition tied_nodes : gmap Z clusterNode :=
  <[1 := example_node CLUSTER_NODE_MASTER 6 true [] None]> (<[3 := example_node CLUSTER_NODE_MASTER 6 false [] None]> ∅).

Lemma tied_epochs me : epochs_ok (example_state me 6 tied_nodes (Some 1)).
Proof.
  split; [done|]. intros n nd. cbn [example_state nodes currentEpoch]. unfold tied_nodes. rewrite !lookup_insert_Some, lookup_empty.
  intros [[_ <-]|[_ [[_ <-]|[_ ?]]]]; [done..|congruence].
Qed.

Lemma tied_collide me other : (me = 1 /\ other = 3) \/ (me = 3 /\ other = 1) -> collide (example_state me 6 tied_nodes (Some 1)) other 6.
Proof.
  intros H. unfold collide. cbn [example_state nodes myself]. unfold tied_nodes.
  destruct H as [[-> ->]|[-> ->]]; (split; [done|]); do 2 eexists; rewrite lookup_insert_eq, lookup_insert_ne, lookup_insert_eq by done; done.
Qed.

Lemma config_epochs_unique_witness :
  (exists st', clusterBumpConfigEpochWithoutConsensus (example_state 1 9 tied_nodes (Some 1)) = Some (st', true) /\
    my_epoch st' = Some 10) /\
  exists ea eb sta' stb', clusterHandleConfigEpochCollision (example_state 1 6 tied_nodes (Some 1)) 3 = Some sta' /\
    clusterHandleConfigEpochCollision (example_state 3 6 tied_nodes (Some 1)) 1 = Some stb' /\
    my_epoch sta' = Some ea /\ my_epoch stb' = Some eb /\ 6 < ea /\ eb = 6.
Proof.
  destruct config_epochs_unique as [H1 H2]. split.
  - destruct (H1 (example_state 1 9 tied_nodes (Some 1)) (example_node CLUSTER_NODE_MASTER 6 true [] None))
      as (st' & b & E & Hb & _ & Ht & _).
    + cbn. lia.
    + reflexivity.
    + destruct b.
      * exists st'. split; [exact E|]. destruct (Ht eq_refl) as (Ec & Em & _). rewrite Em, Ec. reflexivity.
      * destruct (proj1 Hb eq_refl) as (_ & Hle & _). cbn in Hle. lia.
  - destruct (H2 (example_state 1 6 tied_nodes (Some 1)) (example_state 3 6 tied_nodes (Some 1)) 6)
      as (sta' & stb' & ea & eb & Ea & Eb & Ma & Mb & _ & H).
    + apply tied_epochs.
    + apply tied_epochs.
    + apply tied_collide. left. split; reflexivity.
    + apply tied_collide. right. split; reflexivity.
    + exists ea, eb, sta', stb'. split; [exact Ea|]. split; [exact Eb|]. split; [exact Ma|]. split; [exact Mb|exact H].
Defined.
