(* ===== verification/ClusterFailover.v ===== *)
(** * cluster.c: the election of a slave

    The messages a slave and the masters exchange to authorise a failover, the handlers
    on both sides and the manual failover, over the state of [ClusterSlots]. Time,
    random numbers and the state of the replication link are inputs of the handlers. *)

From stdpp Require Import gmap.
From S2P Require Import Prelude Bits ClusterSlots ClusterConfig.

(** ** Data *)

Definition CLUSTER_NODE_MYSELF : Z := 16.
Definition CLUSTER_NODE_HANDSHAKE : Z := 32.
Definition nodeInHandshake (nd : clusterNode) : bool := has_flag nd CLUSTER_NODE_HANDSHAKE.

Definition CLUSTERMSG_FLAG0_PAUSED : Z := 1.
Definition CLUSTERMSG_FLAG0_FORCEACK : Z := 2.

Definition CLUSTER_MF_TIMEOUT : Z := 5000.

Definition CLUSTER_CANT_FAILOVER_NONE : Z := 0.
Definition CLUSTER_CANT_FAILOVER_DATA_AGE : Z := 1.
Definition CLUSTER_CANT_FAILOVER_WAITING_DELAY : Z := 2.
Definition CLUSTER_CANT_FAILOVER_EXPIRED : Z := 3.
Definition CLUSTER_CANT_FAILOVER_WAITING_VOTES : Z := 4.

(** The types of message that take part in elections; [Other] is any other type. *)
Inductive msgType := FAILOVER_AUTH_REQUEST | FAILOVER_AUTH_ACK | MFSTART | Other.

#[export] Instance msgType_eq : EqDecision msgType.
Proof. solve_decision. Defined.

Record clusterMsg := ClusterMsg {
  msg_type : msgType;
  msg_sender : Z;
  msg_currentEpoch : Z;
  msg_configEpoch : Z;
  msg_offset : Z;
  msg_myslots : list Z;
  msg_flags0 : Z
}.

(** The part of the server the handlers read. *)
Record serverView := ServerView {
  cluster_node_timeout : Z;
  cluster_require_full_coverage : bool;
  cluster_slave_validity_factor : Z;
  repl_ping_slave_period : Z;
  unixtime : Z;
  masterhost : bool;
  repl_connected : bool;              (* repl_state == REPL_STATE_CONNECTED *)
  master_client : option (Z * Z);     (* reploff and lastinteraction of server.master *)
  cached_master : option Z;           (* its reploff *)
  repl_down_since : Z;
  master_repl_offset : Z
}.

Definition replicationGetSlaveOffset (sv : serverView) : Z :=
  let offset := if masterhost sv then
                  match master_client sv, cached_master sv with
                  | Some (off, _), _ => off
                  | None, Some off => off
                  | None, None => 0
                  end
                else 0 in
  if offset <? 0 then 0 else offset.

(** Assignments to the election fields. *)
Definition with_auth (e : electionState) (time count : Z) (sent : bool) (rank : Z) : electionState :=
  Election time count sent rank (failover_auth_epoch e) (cant_failover_reason e) (mf_end e) (mf_slave e) (mf_master_offset e)
    (mf_can_start e) (lastVoteEpoch e).
Definition with_auth_epoch (e : electionState) (epoch : Z) (sent : bool) : electionState :=
  Election (failover_auth_time e) (failover_auth_count e) sent (failover_auth_rank e) epoch (cant_failover_reason e)
    (mf_end e) (mf_slave e) (mf_master_offset e) (mf_can_start e) (lastVoteEpoch e).
Definition with_reason (e : electionState) (reason : Z) : electionState :=
  Election (failover_auth_time e) (failover_auth_count e) (failover_auth_sent e) (failover_auth_rank e) (failover_auth_epoch e) reason
    (mf_end e) (mf_slave e) (mf_master_offset e) (mf_can_start e) (lastVoteEpoch e).
Definition with_mf (e : electionState) (end_ : Z) (slave : option Z) (offset : Z) (can_start : bool) : electionState :=
  Election (failover_auth_time e) (failover_auth_count e) (failover_auth_sent e) (failover_auth_rank e) (failover_auth_epoch e)
    (cant_failover_reason e) end_ slave offset can_start (lastVoteEpoch e).
Definition with_lastVoteEpoch (e : electionState) (epoch : Z) : electionState :=
  Election (failover_auth_time e) (failover_auth_count e) (failover_auth_sent e) (failover_auth_rank e) (failover_auth_epoch e)
    (cant_failover_reason e) (mf_end e) (mf_slave e) (mf_master_offset e) (mf_can_start e) epoch.
Definition with_repl_offset (n : clusterNode) (off : Z) : clusterNode :=
  ClusterNode (flags n) (configEpoch n) (node_slots n) (numslots n) (slaves n) (slaveof n) off (voted_time n) (link n).

(** ** Messages *)

Definition clusterBuildMessageHdr (sv : serverView) (st : clusterState) (type : msgType) : option clusterMsg :=
  me ← nodes st !! myself st;
  master ← (if nodeIsSlave me then match slaveof me with Some m => nodes st !! m | None => Some me end else Some me);
  let offset := if nodeIsSlave me then replicationGetSlaveOffset sv else master_repl_offset sv in
  let mflags0 := if nodeIsMaster me && negb (mf_end (election st) =? 0) then CLUSTERMSG_FLAG0_PAUSED else 0 in
  Some (ClusterMsg type (myself st) (currentEpoch st) (configEpoch master) (u64 offset) (node_slots master) mflags0).

(** The nodes a broadcast reaches. *)
Definition clusterBroadcastMessage (st : clusterState) (m : clusterMsg) : list (Z * clusterMsg) :=
  map (fun '(n, _) => (n, m))
    (filter (fun '(_, nd) => link nd = true /\ has_flag nd (Z.lor CLUSTER_NODE_MYSELF CLUSTER_NODE_HANDSHAKE) = false)
      (map_to_list (nodes st))).

Definition clusterRequestFailoverAuth (sv : serverView) (st : clusterState) : option (list (Z * clusterMsg)) :=
  hdr ← clusterBuildMessageHdr sv st FAILOVER_AUTH_REQUEST;
  let mflags0 := if negb (mf_end (election st) =? 0) then Z.lor (msg_flags0 hdr) CLUSTERMSG_FLAG0_FORCEACK else msg_flags0 hdr in
  Some (clusterBroadcastMessage st
    (ClusterMsg (msg_type hdr) (msg_sender hdr) (msg_currentEpoch hdr) (msg_configEpoch hdr) (msg_offset hdr) (msg_myslots hdr) mflags0)).

Definition clusterSendFailoverAuth (sv : serverView) (st : clusterState) (n : Z) : option (list (Z * clusterMsg)) :=
  nd ← nodes st !! n;
  if negb (link nd) then Some [] else
  hdr ← clusterBuildMessageHdr sv st FAILOVER_AUTH_ACK;
  Some [(n, hdr)].

(** ** The vote of a master *)

(** The loop over the claimed slots: whether none of them has a newer owner. *)
Fixpoint claims_current (k : nat) (j : Z) (st : clusterState) (claimed_slots : list Z) (requestConfigEpoch : Z) : option bool :=
  match k with
  | O => Some true
  | S k =>
    b ← bitmapTestBit claimed_slots j;
    if negb b then claims_current k (j + 1) st claimed_slots requestConfigEpoch else
    o ← slot_owner st j;
    match o with
    | None => claims_current k (j + 1) st claimed_slots requestConfigEpoch
    | Some n =>
      nd ← nodes st !! n;
      if configEpoch nd <=? requestConfigEpoch then claims_current k (j + 1) st claimed_slots requestConfigEpoch else Some false
    end
  end.

Definition clusterSendFailoverAuthIfNeeded (now : Z) (sv : serverView) (st : clusterState) (n : Z) (request : clusterMsg)
  : option (clusterState * list (Z * clusterMsg)) :=
  node ← nodes st !! n;
  me ← nodes st !! myself st;
  let force_ack := negb (Z.land (msg_flags0 request) CLUSTERMSG_FLAG0_FORCEACK =? 0) in
  if nodeIsSlave me || (numslots me =? 0) then Some (st, []) else
  if msg_currentEpoch request <? currentEpoch st then Some (st, []) else
  if lastVoteEpoch (election st) =? currentEpoch st then Some (st, []) else
  if nodeIsMaster node then Some (st, []) else
  match slaveof node with
  | None => Some (st, [])
  | Some m =>
    master ← nodes st !! m;
    if negb (nodeFailed master) && negb force_ack then Some (st, []) else
    if now - voted_time master <? cluster_node_timeout sv * 2 then Some (st, []) else
    current ← claims_current (Z.to_nat CLUSTER_SLOTS) 0 st (msg_myslots request) (msg_configEpoch request);
    if negb current then Some (st, []) else
    msgs ← clusterSendFailoverAuth sv st n;
    let st := with_election st (with_lastVoteEpoch (election st) (currentEpoch st)) in
    Some (put_node st m (with_voted_time master now), msgs)
  end.

(** ** The election of a slave *)

Definition clusterGetSlaveRank (sv : serverView) (st : clusterState) : option Z :=
  me ← nodes st !! myself st;
  if negb (nodeIsSlave me) then None else
  match slaveof me with
  | None => Some 0
  | Some m =>
    master ← nodes st !! m;
    let myoffset := replicationGetSlaveOffset sv in
    foldr (fun s rank => rank ← rank;
      if bool_decide (s = myself st) then Some rank else
      nd ← nodes st !! s;
      Some (if myoffset <? repl_offset nd then rank + 1 else rank)) (Some 0) (slaves master)
  end.

(** The log is left out. *)
Definition clusterLogCantFailover (st : clusterState) (reason : Z) : clusterState :=
  with_election st (with_reason (election st) reason).

(** What the handler does besides changing the state. *)
Record outputs := Outputs { out_msgs : list (Z * clusterMsg); out_effects : list effect }.

(** A new election is scheduled. *)
Definition schedule_election (now rnd : Z) (sv : serverView) (st : clusterState) : option clusterState :=
  let e := election st in
  rank ← clusterGetSlaveRank sv st;
  let e := with_auth e (now + 500 + Z.rem rnd 500 + rank * 1000) 0 false rank in
  Some (with_election st (if negb (mf_end e =? 0) then with_auth e now 0 false 0 else e)).

(** The delay follows a rank that got worse. *)
Definition update_rank (sv : serverView) (st : clusterState) : option clusterState :=
  let e := election st in
  if negb (failover_auth_sent e) && (mf_end e =? 0) then
    newrank ← clusterGetSlaveRank sv st;
    Some (if failover_auth_rank e <? newrank then
            with_election st (with_auth e (failover_auth_time e + (newrank - failover_auth_rank e) * 1000) (failover_auth_count e)
              (failover_auth_sent e) newrank)
          else st)
  else Some st.

(** [data_age], in milliseconds. *)
Definition data_age (sv : serverView) : option Z :=
  age ← (if repl_connected sv then '(_, lastinteraction) ← master_client sv; Some ((unixtime sv - lastinteraction) * 1000)
         else Some ((unixtime sv - repl_down_since sv) * 1000));
  Some (if cluster_node_timeout sv <? age then age - cluster_node_timeout sv else age).

Definition clusterHandleSlaveFailover (now rnd : Z) (sv : serverView) (st : clusterState) (clk : stateClock)
  : option (clusterState * stateClock * outputs) :=
  let e := election st in
  let auth_age := now - failover_auth_time e in
  let needed_quorum := size st / 2 + 1 in
  let manual_failover := negb (mf_end e =? 0) && mf_can_start e in
  let auth_timeout := cluster_node_timeout sv * 2 in
  let auth_timeout := if auth_timeout <? 2000 then 2000 else auth_timeout in
  let auth_retry_time := auth_timeout * 2 in
  let quit st := Some (st, clk, Outputs [] []) in
  me ← nodes st !! myself st;
  no_reason ← (if nodeIsMaster me then Some true else
               match slaveof me with
               | None => Some true
               | Some m => master ← nodes st !! m;
                           Some ((negb (nodeFailed master) && negb manual_failover) || (numslots master =? 0))
               end);
  if (no_reason : bool) then quit (with_election st (with_reason e CLUSTER_CANT_FAILOVER_NONE)) else
  age ← data_age sv;
  if negb (cluster_slave_validity_factor sv =? 0) &&
     (repl_ping_slave_period sv * 1000 + cluster_node_timeout sv * cluster_slave_validity_factor sv <? age) && negb manual_failover
  then quit (clusterLogCantFailover st CLUSTER_CANT_FAILOVER_DATA_AGE) else
  if auth_retry_time <? auth_age then
    st ← schedule_election now rnd sv st;
    Some (st, clk, Outputs [] [BroadcastPong CLUSTER_BROADCAST_LOCAL_SLAVES])
  else
  st ← update_rank sv st;
  if now <? failover_auth_time (election st) then quit (clusterLogCantFailover st CLUSTER_CANT_FAILOVER_WAITING_DELAY) else
  if auth_timeout <? auth_age then quit (clusterLogCantFailover st CLUSTER_CANT_FAILOVER_EXPIRED) else
  if negb (failover_auth_sent (election st)) then
    let st := with_currentEpoch st (u64 (currentEpoch st + 1)) in
    let st := with_election st (with_auth_epoch (election st) (currentEpoch st) (failover_auth_sent (election st))) in
    msgs ← clusterRequestFailoverAuth sv st;
    Some (with_election st (with_auth_epoch (election st) (failover_auth_epoch (election st)) true), clk, Outputs msgs [])
  else
  if needed_quorum <=? failover_auth_count (election st) then
    me ← nodes st !! myself st;
    let st := if configEpoch me <? failover_auth_epoch (election st)
              then put_node st (myself st) (with_configEpoch me (failover_auth_epoch (election st))) else st in
    '(st, clk, effs) ← clusterFailoverReplaceYourMaster now (cluster_node_timeout sv) (cluster_require_full_coverage sv) st clk;
    Some (st, clk, Outputs [] effs)
  else quit (clusterLogCantFailover st CLUSTER_CANT_FAILOVER_WAITING_VOTES).

(** ** The manual failover *)

Definition manualFailoverCheckTimeout (now : Z) (st : clusterState) : clusterState :=
  if negb (mf_end (election st) =? 0) && (mf_end (election st) <? now) then resetManualFailover st else st.

Definition clusterHandleManualFailover (sv : serverView) (st : clusterState) : clusterState :=
  let e := election st in
  if mf_end e =? 0 then st else
  if mf_can_start e then st else
  if mf_master_offset e =? 0 then st else
  if mf_master_offset e =? replicationGetSlaveOffset sv
  then with_election st (with_mf e (mf_end e) (mf_slave e) (mf_master_offset e) true) else st.

(** ** Packets *)

(** The fields of the header that every packet of a known node updates; the returned epoch
    is [senderCurrentEpoch]. *)
Definition process_header (st : clusterState) (hdr : clusterMsg) : option (clusterState * Z) :=
  match nodes st !! msg_sender hdr with
  | None => Some (st, 0)
  | Some s =>
    if nodeInHandshake s then Some (st, 0) else
    let st := if currentEpoch st <? msg_currentEpoch hdr then with_currentEpoch st (msg_currentEpoch hdr) else st in
    let s := if configEpoch s <? msg_configEpoch hdr then with_configEpoch s (msg_configEpoch hdr) else s in
    let s := with_repl_offset s (wraps 64 (msg_offset hdr)) in
    let st := put_node st (msg_sender hdr) s in
    me ← nodes st !! myself st;
    let e := election st in
    if negb (mf_end e =? 0) && nodeIsSlave me && bool_decide (slaveof me = Some (msg_sender hdr)) &&
       negb (Z.land (msg_flags0 hdr) CLUSTERMSG_FLAG0_PAUSED =? 0) && (mf_master_offset e =? 0)
    then Some (with_election st (with_mf e (mf_end e) (mf_slave e) (repl_offset s) (mf_can_start e)), msg_currentEpoch hdr)
    else Some (st, msg_currentEpoch hdr)
  end.

(** A packet of one of the types of [msgType]; what [clusterProcessPacket] does with the
    body of another type is not modelled here: in the system of ClusterElection it is an
    arbitrary change of what the node knows. *)
Definition clusterProcessPacket (now : Z) (sv : serverView) (st : clusterState) (hdr : clusterMsg)
  : option (clusterState * list (Z * clusterMsg)) :=
  '(st, senderCurrentEpoch) ← process_header st hdr;
  match nodes st !! msg_sender hdr with
  | None => Some (st, [])
  | Some s =>
    match msg_type hdr with
    | FAILOVER_AUTH_REQUEST => clusterSendFailoverAuthIfNeeded now sv st (msg_sender hdr) hdr
    | FAILOVER_AUTH_ACK =>
      let e := election st in
      if nodeIsMaster s && (0 <? numslots s) && (failover_auth_epoch e <=? senderCurrentEpoch)
      then Some (with_election st (with_auth e (failover_auth_time e) (failover_auth_count e + 1) (failover_auth_sent e) (failover_auth_rank e)), [])
      else Some (st, [])
    | MFSTART =>
      if bool_decide (slaveof s = Some (myself st)) then
        let st := resetManualFailover st in
        Some (with_election st (with_mf (election st) (now + CLUSTER_MF_TIMEOUT) (Some (msg_sender hdr)) 0 false), [])
      else Some (st, [])
    | Other => Some (st, [])
    end
  end.

(** ** CLUSTER FAILOVER *)

Inductive failoverReply := FailoverOk | NotASlave | MasterUnknown | MasterDown.

Definition clusterSendMFStart (sv : serverView) (st : clusterState) (n : Z) : option (list (Z * clusterMsg)) :=
  nd ← nodes st !! n;
  if negb (link nd) then Some [] else
  hdr ← clusterBuildMessageHdr sv st MFSTART;
  Some [(n, hdr)].

(** The branch "failover" of [clusterCommand], its option parsed. *)
Definition clusterCommand_failover (now : Z) (sv : serverView) (force takeover : bool) (st : clusterState) (clk : stateClock)
  : option (clusterState * stateClock * outputs * failoverReply) :=
  let force := force || takeover in
  let err r := Some (st, clk, Outputs [] [], r) in
  me ← nodes st !! myself st;
  if nodeIsMaster me then err NotASlave else
  match slaveof me with
  | None => err MasterUnknown
  | Some m =>
    master ← nodes st !! m;
    if negb force && (nodeFailed master || negb (link master)) then err MasterDown else
    let st := resetManualFailover st in
    let st := with_election st (with_mf (election st) (now + CLUSTER_MF_TIMEOUT) None 0 false) in
    if takeover then
      '(st, _) ← clusterBumpConfigEpochWithoutConsensus st;
      '(st, clk, effs) ← clusterFailoverReplaceYourMaster now (cluster_node_timeout sv) (cluster_require_full_coverage sv) st clk;
      Some (st, clk, Outputs [] effs, FailoverOk)
    else if force then
      Some (with_election st (with_mf (election st) (now + CLUSTER_MF_TIMEOUT) None 0 true), clk, Outputs [] [], FailoverOk)
    else
      msgs ← clusterSendMFStart sv st m;
      Some (st, clk, Outputs msgs [], FailoverOk)
  end.
