(* ===== verification/ClusterElection.v ===== *)
(** * Elections over an asynchronous network

    Nodes running the handlers of [ClusterFailover] and the packets in flight between
    them. Packets can be delayed, reordered and lost; a link delivers a packet at most
    once. The packets whose handling is not modelled (PING, PONG, MEET, FAIL, UPDATE)
    and the failure detector change what a node knows of the cluster; this is the
    relation [gossip], which lets them change anything but the progress of elections
    and the slaves' knowledge of who may vote. The theorems: a master votes once per
    epoch, and an epoch has at most one winner, provided that a vote does not arrive
    after its election was given up. *)

From stdpp Require Import gmap relations.
From S2P Require Import Prelude Bits ClusterSlots ClusterConfig ClusterFailover.

(** ** The system *)

Definition packet : Type := Z * clusterMsg.

Record system := System {
  sys : gmap Z (clusterState * stateClock);
  net : list packet;               (* in flight *)
  hist : list packet;              (* every packet sent so far *)
  won : list (Z * Z)               (* the slaves that won, with the epoch of their election *)
}.

(** The handlers that run at a node, and the loss of a packet. *)
Inductive action :=
  | Cron (n now rnd : Z) (sv : serverView)          (* clusterHandleSlaveFailover *)
  | Deliver (i : nat) (now : Z) (sv : serverView)   (* clusterProcessPacket on a packet in flight *)
  | Lose (i : nat)
  | Manual (n now : Z) (sv : serverView)            (* the manual failover part of clusterCron *)
  | Failover (n now : Z) (sv : serverView) (force : bool).  (* CLUSTER FAILOVER [FORCE] *)

Definition send (s : system) (n : Z) (st : clusterState) (clk : stateClock) (msgs : list packet) : system :=
  System (<[n := (st, clk)]> (sys s)) (net s ++ msgs) (hist s ++ msgs) (won s).

#[export] Instance effect_eq : EqDecision effect.
Proof. solve_decision. Defined.

(** A vote that arrives when no request is pending belongs to an election that was given up. *)
Definition timely (e : electionState) (m : clusterMsg) : bool :=
  bool_decide (msg_type m = FAILOVER_AUTH_ACK -> failover_auth_sent e = true).

Definition exec (late_votes : bool) (a : action) (s : system) : option system :=
  match a with
  | Cron n now rnd sv =>
    '(st, clk) ← sys s !! n;
    if currentEpoch st <? 2 ^ 64 - 1 then
      '(st', clk', out) ← clusterHandleSlaveFailover now rnd sv st clk;
      let s' := send s n st' clk' (out_msgs out) in
      Some (System (sys s') (net s') (hist s')
        (if bool_decide (ReplicationUnsetMaster ∈ out_effects out) then (n, failover_auth_epoch (election st)) :: won s else won s))
    else None
  | Deliver i now sv =>
    '(n, m) ← net s !! i;
    '(st, clk) ← sys s !! n;
    if late_votes || timely (election st) m then
      '(st', msgs) ← clusterProcessPacket now sv st m;
      Some (send (System (sys s) (delete i (net s)) (hist s) (won s)) n st' clk msgs)
    else None
  | Lose i => Some (System (sys s) (delete i (net s)) (hist s) (won s))
  | Manual n now sv =>
    '(st, clk) ← sys s !! n;
    Some (send s n (clusterHandleManualFailover sv (manualFailoverCheckTimeout now st)) clk [])
  | Failover n now sv force =>
    '(st, clk) ← sys s !! n;
    '(st', clk', out, _) ← clusterCommand_failover now sv force false st clk;
    Some (send s n st' clk' (out_msgs out))
  end.

Definition step (late_votes : bool) (s s' : system) : Prop := exists a, exec late_votes a s = Some s'.

(** ** What the handlers keep *)

Definition is_master (st : clusterState) (n : Z) : Prop := exists nd, nodes st !! n = Some nd /\ nodeIsMaster nd = true.

(** Epochs and votes stay, and a master stays a master. *)
Definition calm (st st' : clusterState) : Prop :=
  myself st = myself st' /\ currentEpoch st = currentEpoch st' /\
  failover_auth_epoch (election st) = failover_auth_epoch (election st') /\
  lastVoteEpoch (election st) = lastVoteEpoch (election st') /\
  forall n, is_master st n -> is_master st' n.

#[export] Instance calm_preorder : PreOrder calm.
Proof.
  split; [by intros st|]. intros s1 s2 s3 (?&?&?&?&F) (?&?&?&?&G). unfold calm. split_and!; try congruence. auto.
Qed.

Lemma calm_put st n nd nd' :
  nodes st !! n = Some nd -> (nodeIsMaster nd = true -> nodeIsMaster nd' = true) -> calm st (put_node st n nd').
Proof.
  intros En Hm. unfold calm. split_and!; try done. intros m (md & Em & Hmd). unfold is_master. cbn [put_node with_nodes nodes].
  destruct (decide (m = n)) as [->|]; [rewrite lookup_insert_eq|rewrite lookup_insert_ne by done; eauto].
  rewrite En in Em. injection Em as ->. eauto.
Qed.

Lemma master_turned nd : nodeIsMaster (with_slaveof (set_flag (clear_flag nd CLUSTER_NODE_SLAVE) CLUSTER_NODE_MASTER) None) = true.
Proof. exact (nodeIsMaster_set (clear_flag nd CLUSTER_NODE_SLAVE) CLUSTER_NODE_MASTER). Qed.

Lemma calm_removeSlave st m n st' b : clusterNodeRemoveSlave st m n = Some (st', b) -> calm st st'.
Proof.
  unfold clusterNodeRemoveSlave. intros H. apply bind_Some in H as (md & Em & H).
  destruct (list_find _ _) as [[j ?]|]; [|by injection H as <- _]. injection H as <- _.
  apply calm_put with md; [done|]. destruct (bool_decide _); [|done]. by rewrite nodeIsMaster_clear.
Qed.

Lemma calm_setNodeAsMaster st n st' : clusterSetNodeAsMaster st n = Some st' -> calm st st' /\ is_master st' n.
Proof.
  unfold clusterSetNodeAsMaster. intros H. apply bind_Some in H as (nd & En & H). destruct (nodeIsMaster nd) eqn:Em.
  { injection H as <-. split; [done|]. by exists nd. }
  apply bind_Some in H as (st1 & E1 & H). apply bind_Some in H as (nd1 & En1 & [= <-]). split.
  - trans st1; [|eapply calm_put; [done|]; intros _; apply master_turned].
    destruct (slaveof nd) as [m|]; [|by injection E1 as <-].
    apply bind_Some in E1 as ([st2 b] & E2 & E1). apply bind_Some in E1 as (nd2 & En2 & [= <-]).
    trans st2; [by eapply calm_removeSlave|]. destruct (bool_decide _); [done|].
    eapply calm_put; [done|]. intros Hm. by rewrite nodeIsMaster_set, Hm.
  - eexists. split; [cbn [put_node with_nodes nodes]; by rewrite lookup_insert_eq|]. apply master_turned.
Qed.

Lemma calm_delSlot st j st' b : clusterDelSlot st j = Some (st', b) -> calm st st'.
Proof.
  unfold clusterDelSlot. intros H. apply bind_Some in H as ([n|] & _ & H); [|by injection H as <- _].
  apply bind_Some in H as ([st1 old] & E & H). destruct (negb old); [done|]. injection H as <- _.
  unfold clusterNodeClearSlotBit in E. apply bind_Some in E as (nd & En & E). apply bind_Some in E as (o & _ & E).
  apply bind_Some in E as (bm & _ & [= <- <-]). trans (put_node st n (with_node_slots nd bm (if o then numslots nd - 1 else numslots nd))); [|done].
  by apply calm_put with nd.
Qed.

Lemma calm_addSlot st n j st' b : clusterAddSlot st n j = Some (st', b) -> calm st st'.
Proof.
  unfold clusterAddSlot. intros H. apply bind_Some in H as ([m|] & _ & H); [by injection H as <- _|].
  apply bind_Some in H as ([st1 old] & E & [= <- _]). trans st1; [|done]. clear -E.
  unfold clusterNodeSetSlotBit in E. apply bind_Some in E as (nd & En & E). apply bind_Some in E as (o & _ & E).
  apply bind_Some in E as (bm & _ & E). destruct o; [injection E as <- _; by apply calm_put with nd|].
  injection E as <- _. set (nd1 := with_node_slots nd bm (numslots nd + 1)).
  trans (put_node st n nd1); [by apply calm_put with nd|]. apply calm_put with nd1; [by cbn; rewrite lookup_insert_eq|].
  destruct (_ && _); [|done]. intros Hm. rewrite nodeIsMaster_set. exact (proj2 (orb_true_iff _ _) (or_intror Hm)).
Qed.

Lemma calm_claimSlots k j st om st' : claimSlots_loop k j st om = Some st' -> calm st st'.
Proof.
  revert j st. induction k as [|k IH]; intros j st; cbn [claimSlots_loop]; [by intros [= <-]|].
  intros H. apply bind_Some in H as (nd & _ & H). apply bind_Some in H as ([] & _ & H); [|by eapply IH].
  apply bind_Some in H as ([st1 ?] & E1 & H). apply bind_Some in H as ([st2 ?] & E2 & H).
  trans st1; [by eapply calm_delSlot|]. trans st2; [by eapply calm_addSlot|]. by eapply IH.
Qed.

Lemma calm_updateState now t f st clk st' clk' : clusterUpdateState now t f st clk = Some (st', clk') -> calm st st'.
Proof.
  unfold clusterUpdateState. intros H. apply bind_Some in H as (me & _ & H). destruct (_ && _); [by injection H as <- _|].
  apply bind_Some in H as (c & _ & H). destruct (count_masters st) as [sz rm].
  repeat (case_match; simplify_eq/=; try done).
Qed.

(** The takeover makes this node a master. *)
Lemma calm_replaceYourMaster now t f st clk st' clk' effs :
  clusterFailoverReplaceYourMaster now t f st clk = Some (st', clk', effs) ->
  calm st st' /\ (ReplicationUnsetMaster ∈ effs -> is_master st' (myself st)).
Proof.
  unfold clusterFailoverReplaceYourMaster. intros H. apply bind_Some in H as (me & Eme & H).
  destruct (slaveof me) as [om|]; [|injection H as <- _ <-; split; [done|by intros ?%not_elem_of_nil]].
  destruct (nodeIsMaster me); [injection H as <- _ <-; split; [done|by intros ?%not_elem_of_nil]|].
  apply bind_Some in H as (st1 & E1 & H). apply bind_Some in H as (st2 & E2 & H). apply bind_Some in H as ([st3 clk3] & E3 & [= <- _ _]).
  apply calm_setNodeAsMaster in E1 as [C1 M1]. apply calm_claimSlots in E2. apply calm_updateState in E3.
  assert (C : calm st1 (resetManualFailover st3)) by (trans st2; [done|]; trans st3; done).
  split; [by trans st1|]. intros _. by apply C.
Qed.

Lemma replaceYourMaster_effects now t f st clk st' clk' effs me om :
  nodes st !! myself st = Some me -> nodeIsMaster me = false -> slaveof me = Some om ->
  clusterFailoverReplaceYourMaster now t f st clk = Some (st', clk', effs) -> ReplicationUnsetMaster ∈ effs.
Proof.
  intros Eme Hm Hs. unfold clusterFailoverReplaceYourMaster. rewrite Eme. mred. rewrite Hs, Hm. intros H.
  apply bind_Some in H as (st1 & _ & H). apply bind_Some in H as (st2 & _ & H). apply bind_Some in H as ([st3 clk3] & _ & [= _ _ <-]).
  apply list_elem_of_here.
Qed.

(** The roles, the slot counters and the size of the cluster stay. *)
Definition same_role (a b : clusterNode) : Prop := flags a = flags b /\ numslots a = numslots b.

Definition quiet (st st' : clusterState) : Prop :=
  myself st = myself st' /\ size st = size st' /\ forall m, option_Forall2 same_role (nodes st !! m) (nodes st' !! m).

#[export] Instance same_role_preorder : PreOrder same_role.
Proof. split; [by intros ?|]. intros a b c [??] [??]. split; congruence. Qed.

#[export] Instance quiet_preorder : PreOrder quiet.
Proof.
  split; [by intros st|]. intros s1 s2 s3 (?&?&F) (?&?&G). unfold quiet. split_and!; try congruence. intros m. etrans; [apply F|apply G].
Qed.

Lemma quiet_put st n nd nd' : nodes st !! n = Some nd -> same_role nd nd' -> quiet st (put_node st n nd').
Proof.
  intros En Hs. unfold quiet. split_and!; try done. intros m. cbn [put_node with_nodes nodes].
  destruct (decide (m = n)) as [->|]; [rewrite lookup_insert_eq, En; by constructor|by rewrite lookup_insert_ne].
Qed.

Lemma quiet_nodes st st' : myself st = myself st' -> size st = size st' -> nodes st = nodes st' -> quiet st st'.
Proof. intros ? ? E. unfold quiet. rewrite E. done. Qed.

(** ** The cases of the failover handler *)

Inductive failover_case (st st' : clusterState) (out : outputs) : Prop :=
  | failover_idle :
      quiet st st' -> currentEpoch st' = currentEpoch st ->
      failover_auth_epoch (election st') = failover_auth_epoch (election st) ->
      lastVoteEpoch (election st') = lastVoteEpoch (election st) ->
      ((failover_auth_count (election st') = failover_auth_count (election st) /\
        failover_auth_sent (election st') = failover_auth_sent (election st)) \/
       (failover_auth_count (election st') = 0 /\ failover_auth_sent (election st') = false)) ->
      out_msgs out = [] -> ReplicationUnsetMaster ∉ out_effects out -> failover_case st st' out
  | failover_ask :
      quiet st st' -> failover_auth_sent (election st) = false ->
      currentEpoch st' = u64 (currentEpoch st + 1) -> failover_auth_epoch (election st') = currentEpoch st' ->
      lastVoteEpoch (election st') = lastVoteEpoch (election st) ->
      failover_auth_count (election st') = failover_auth_count (election st) -> failover_auth_sent (election st') = true ->
      (forall d m, (d, m) ∈ out_msgs out -> msg_type m = FAILOVER_AUTH_REQUEST /\ msg_sender m = myself st /\
         msg_currentEpoch m = currentEpoch st') ->
      out_effects out = [] -> failover_case st st' out
  | failover_win :
      calm st st' -> is_master st' (myself st) -> ~ is_master st (myself st) -> failover_auth_sent (election st) = true ->
      size st / 2 + 1 <= failover_auth_count (election st) ->
      out_msgs out = [] -> failover_case st st' out.

Lemma buildMessageHdr_fields sv st t m :
  clusterBuildMessageHdr sv st t = Some m ->
  msg_type m = t /\ msg_sender m = myself st /\ msg_currentEpoch m = currentEpoch st.
Proof.
  unfold clusterBuildMessageHdr. intros H. apply bind_Some in H as (me & _ & H). by apply bind_Some in H as (ma & _ & [= <-]).
Qed.

Lemma requestAuth_msgs sv st msgs :
  clusterRequestFailoverAuth sv st = Some msgs ->
  forall d m, (d, m) ∈ msgs -> msg_type m = FAILOVER_AUTH_REQUEST /\ msg_sender m = myself st /\ msg_currentEpoch m = currentEpoch st.
Proof.
  unfold clusterRequestFailoverAuth. intros H. apply bind_Some in H as (hdr & Eh & [= <-]). apply buildMessageHdr_fields in Eh as (E1 & E2 & E3).
  intros d m Hin. unfold clusterBroadcastMessage in Hin. apply list_elem_of_fmap in Hin as ([x nd] & E & _). injection E as -> ->. done.
Qed.

(** The elections fields that [schedule_election] and [update_rank] leave alone. *)
Lemma schedule_election_spec now rnd sv st st' :
  schedule_election now rnd sv st = Some st' ->
  exists t r, st' = with_election st (with_auth (election st) t 0 false r).
Proof.
  unfold schedule_election. intros H. apply bind_Some in H as (rank & _ & [= <-]). destruct (negb _); eauto.
Qed.

Lemma update_rank_spec sv st st' :
  update_rank sv st = Some st' ->
  exists t r, st' = with_election st (with_auth (election st) t (failover_auth_count (election st)) (failover_auth_sent (election st)) r).
Proof.
  unfold update_rank. assert (Hid : st = with_election st (with_auth (election st) (failover_auth_time (election st))
    (failover_auth_count (election st)) (failover_auth_sent (election st)) (failover_auth_rank (election st)))) by (by destruct st as [????????? []]).
  destruct (_ && _); [|intros [= <-]; eauto]. intros H. apply bind_Some in H as (rank & _ & [= <-]). destruct (_ <? _); eauto.
Qed.

Lemma handleSlaveFailover_cases now rnd sv st clk st' clk' out :
  clusterHandleSlaveFailover now rnd sv st clk = Some (st', clk', out) -> failover_case st st' out.
Proof.
  unfold clusterHandleSlaveFailover. intros H. apply bind_Some in H as (me & Eme & H).
  apply bind_Some in H as (nr & Enr & H).
  assert (Hquit : forall st1 r, (exists t b, st1 = with_election st (with_auth (election st) t (failover_auth_count (election st))
      (failover_auth_sent (election st)) b)) ->
    failover_case st (clusterLogCantFailover st1 r) (Outputs [] [])).
  { intros st1 r (t & b & ->). apply failover_idle; try done; [by left|by apply not_elem_of_nil]. }
  destruct nr.
  { injection H as <- _ <-. apply failover_idle; try done; [by left|by apply not_elem_of_nil]. }
  assert (Hslave : nodeIsMaster me = false /\ exists om, slaveof me = Some om).
  { destruct (nodeIsMaster me); [done|]. destruct (slaveof me); [eauto|done]. }
  destruct Hslave as (Hm & om & Hs). clear Enr.
  apply bind_Some in H as (age & _ & H). destruct (_ && _ && _).
  { injection H as <- _ <-. apply failover_idle; try done; [by left|by apply not_elem_of_nil]. }
  destruct (_ <? _) in H.
  { apply bind_Some in H as (st1 & E1 & [= <- _ <-]). apply schedule_election_spec in E1 as (t & r & ->).
    apply failover_idle; try done; [by right|]. cbn. by rewrite list_elem_of_singleton. }
  apply bind_Some in H as (st1 & E1 & H). apply update_rank_spec in E1 as (t & r & E1).
  destruct (now <? _) in H; [injection H as <- _ <-; apply Hquit; eauto 10|].
  destruct (_ <? _) in H; [injection H as <- _ <-; apply Hquit; eauto 10|].
  destruct (failover_auth_sent (election st1)) eqn:Esent; cbn [negb] in H.
  - destruct (_ <=? _) eqn:Eq in H; [|injection H as <- _ <-; apply Hquit; eauto 10].
    apply Z.leb_le in Eq. rewrite E1 in Eq, Esent. cbn in Eq, Esent.
    apply bind_Some in H as (me1 & Eme1 & H). apply bind_Some in H as ([[st3 clk3] effs] & E3 & [= <- _ <-]).
    assert (Hst1 : nodes st1 = nodes st /\ myself st1 = myself st) by (by rewrite E1). destruct Hst1 as [Hn1 Hmy1].
    rewrite Hn1, Hmy1, Eme in Eme1. injection Eme1 as <-.
    set (st2 := if configEpoch me <? _ then _ else st1) in E3.
    assert (C2 : calm st st2 /\ exists me2, nodes st2 !! myself st2 = Some me2 /\ nodeIsMaster me2 = false /\ slaveof me2 = Some om).
    { assert (C1 : calm st st1) by (rewrite E1; done). unfold st2. destruct (_ <? _).
      - split; [trans st1; [done|]; apply calm_put with me; [by rewrite Hn1, Hmy1|done]|].
        exists (with_configEpoch me (failover_auth_epoch (election st1))). split; [|done].
        cbn [put_node with_nodes nodes myself]. by rewrite lookup_insert_eq.
      - split; [done|]. exists me. by rewrite Hn1, Hmy1. }
    destruct C2 as (C2 & me2 & Eme2 & Hm2 & Hs2). pose proof (replaceYourMaster_effects _ _ _ _ _ _ _ _ _ _ Eme2 Hm2 Hs2 E3) as Heff.
    apply calm_replaceYourMaster in E3 as [C3 M3]. specialize (M3 Heff). assert (Emy : myself st = myself st2) by apply C2. rewrite <-Emy in M3.
    apply failover_win; try done; [by trans st2|]. intros (nd & En & Hnd). rewrite Eme in En. injection En as <-. congruence.
  - apply bind_Some in H as (msgs & Emsgs & [= <- _ <-]). pose proof (requestAuth_msgs _ _ _ Emsgs) as Hmsgs.
    rewrite E1 in *. cbn in *. by apply failover_ask.
Qed.

(** ** The cases of a packet *)

(** The fields of an election stay. *)
Definition same_election (e e' : electionState) : Prop :=
  failover_auth_epoch e' = failover_auth_epoch e /\ failover_auth_count e' = failover_auth_count e /\
  failover_auth_sent e' = failover_auth_sent e.

Inductive packet_case (st st' : clusterState) (m : clusterMsg) (msgs : list packet) : Prop :=
  | packet_idle :
      quiet st st' -> currentEpoch st <= currentEpoch st' -> same_election (election st) (election st') ->
      lastVoteEpoch (election st') = lastVoteEpoch (election st) ->
      (forall d p, (d, p) ∈ msgs -> msg_type p = MFSTART) -> packet_case st st' m msgs
  | packet_vote :
      msg_type m = FAILOVER_AUTH_REQUEST ->
      quiet st st' -> currentEpoch st <= currentEpoch st' <= msg_currentEpoch m -> same_election (election st) (election st') ->
      lastVoteEpoch (election st) <> currentEpoch st' -> lastVoteEpoch (election st') = currentEpoch st' ->
      (msgs = [] \/ exists p, msgs = [(msg_sender m, p)] /\ msg_type p = FAILOVER_AUTH_ACK /\ msg_sender p = myself st /\
         msg_currentEpoch p = currentEpoch st') -> packet_case st st' m msgs
  | packet_count s :
      msg_type m = FAILOVER_AUTH_ACK ->
      quiet st st' -> currentEpoch st <= currentEpoch st' ->
      failover_auth_epoch (election st') = failover_auth_epoch (election st) ->
      failover_auth_sent (election st') = failover_auth_sent (election st) ->
      failover_auth_count (election st') = failover_auth_count (election st) + 1 ->
      lastVoteEpoch (election st') = lastVoteEpoch (election st) ->
      nodes st' !! msg_sender m = Some s -> nodeIsMaster s = true -> 0 < numslots s ->
      (failover_auth_epoch (election st) <= 0 \/ failover_auth_epoch (election st) <= msg_currentEpoch m) ->
      msgs = [] -> packet_case st st' m msgs.

(** The header of a packet changes epochs and offsets, nothing an election counts. *)
Definition header_step (st st' : clusterState) : Prop :=
  quiet st st' /\ currentEpoch st <= currentEpoch st' /\ same_election (election st) (election st') /\
  lastVoteEpoch (election st') = lastVoteEpoch (election st).

#[export] Instance header_step_preorder : PreOrder header_step.
Proof.
  split; [by intros st|]. intros s1 s2 s3 (?&?&(?&?&?)&?) (?&?&(?&?&?)&?). unfold header_step, same_election.
  split_and!; try congruence; try lia. by trans s2.
Qed.

Lemma process_header_spec st m st1 sce :
  process_header st m = Some (st1, sce) -> header_step st st1 /\ (sce = 0 \/ sce = msg_currentEpoch m).
Proof.
  unfold process_header. destruct (nodes st !! msg_sender m) as [s|] eqn:Es; [|intros [= <- <-]; split; [done|by left]].
  destruct (nodeInHandshake s); [intros [= <- <-]; split; [done|by left]|].
  set (st0 := if _ <? _ then with_currentEpoch st _ else st). set (s1 := if _ <? _ then with_configEpoch s _ else s).
  assert (H0 : header_step st st0 /\ nodes st0 = nodes st).
  { unfold st0. destruct (Z.ltb_spec (currentEpoch st) (msg_currentEpoch m)); [|done].
    split; [|done]. unfold header_step. split_and!; try done. cbn. lia. }
  destruct H0 as [H0 En0].
  assert (H1 : header_step st0 (put_node st0 (msg_sender m) (with_repl_offset s1 (wraps 64 (msg_offset m))))).
  { unfold header_step. split_and!; try done. apply quiet_put with s; [by rewrite En0|]. unfold s1. destruct (configEpoch s <? _); by split. }
  intros H. apply bind_Some in H as (me & _ & H). set (st2 := put_node st0 _ _) in *.
  assert (H2 : header_step st st2) by (by trans st0).
  destruct (_ && _); injection H as <- <-; (split; [|by right]); [|done]. trans st2; [done|].
  by unfold header_step.
Qed.

Lemma sendFailoverAuth_msgs sv st n msgs :
  clusterSendFailoverAuth sv st n = Some msgs ->
  msgs = [] \/ exists p, msgs = [(n, p)] /\ msg_type p = FAILOVER_AUTH_ACK /\ msg_sender p = myself st /\ msg_currentEpoch p = currentEpoch st.
Proof.
  unfold clusterSendFailoverAuth. intros H. apply bind_Some in H as (nd & _ & H). destruct (negb _); [left; congruence|].
  apply bind_Some in H as (hdr & Eh & [= <-]). right. apply buildMessageHdr_fields in Eh. eauto.
Qed.

Lemma sendAuthIfNeeded_cases now sv st n m st' msgs :
  clusterSendFailoverAuthIfNeeded now sv st n m = Some (st', msgs) ->
  (st' = st /\ msgs = []) \/
  (quiet st st' /\ (currentEpoch st' = currentEpoch st /\ currentEpoch st <= msg_currentEpoch m) /\ same_election (election st) (election st') /\
   lastVoteEpoch (election st) <> currentEpoch st' /\ lastVoteEpoch (election st') = currentEpoch st' /\
   (msgs = [] \/ exists p, msgs = [(n, p)] /\ msg_type p = FAILOVER_AUTH_ACK /\ msg_sender p = myself st /\ msg_currentEpoch p = currentEpoch st')).
Proof.
  unfold clusterSendFailoverAuthIfNeeded. intros H. apply bind_Some in H as (nd & _ & H). apply bind_Some in H as (me & _ & H).
  destruct (_ || _); [left; by simplify_eq|].
  destruct (Z.ltb_spec (msg_currentEpoch m) (currentEpoch st)); [left; by simplify_eq|].
  destruct (Z.eqb_spec (lastVoteEpoch (election st)) (currentEpoch st)); [left; by simplify_eq|].
  destruct (nodeIsMaster nd); [left; by simplify_eq|]. destruct (slaveof nd) as [ma|]; [|left; by simplify_eq].
  apply bind_Some in H as (master & Em & H). destruct (_ && _); [left; by simplify_eq|]. destruct (_ <? _) in H; [left; by simplify_eq|].
  apply bind_Some in H as (cur & _ & H). destruct (negb cur); [left; by simplify_eq|].
  apply bind_Some in H as (out & Eo & H). injection H as <- <-. right.
  apply sendFailoverAuth_msgs in Eo. split_and!; try done.
  by apply (quiet_put (with_election st (with_lastVoteEpoch (election st) (currentEpoch st))) ma master).
Qed.

Lemma processPacket_cases now sv st m st' msgs :
  clusterProcessPacket now sv st m = Some (st', msgs) -> packet_case st st' m msgs.
Proof.
  unfold clusterProcessPacket. intros H. apply bind_Some in H as ([st1 sce] & E1 & H).
  apply process_header_spec in E1 as [(Q1 & C1 & S1 & L1) Hsce].
  assert (Hidle : packet_case st st1 m []) by (apply packet_idle; try done; intros ?? ?%not_elem_of_nil; done).
  destruct (nodes st1 !! msg_sender m) as [s|] eqn:Es; [|by simplify_eq]. destruct (msg_type m) eqn:Et.
  - apply sendAuthIfNeeded_cases in H as [[-> ->]|(Q & [C2 C3] & S & L2 & L3 & M)]; [done|].
    assert (Emy : myself st = myself st1) by apply Q1. rewrite <-Emy in M.
    apply packet_vote; try done; [by trans st1|lia| |congruence].
    destruct S1 as (?&?&?), S as (?&?&?). unfold same_election. split_and!; congruence.
  - destruct (nodeIsMaster s && (0 <? numslots s) && (failover_auth_epoch (election st1) <=? sce)) eqn:Ec; [|by simplify_eq].
    apply andb_true_iff in Ec as [[Hm Hn%Z.ltb_lt]%andb_true_iff Ha%Z.leb_le]. injection H as <- <-. destruct S1 as (S1 & S2 & S3).
    apply (packet_count st _ m [] s); try done; [by cbn; rewrite S2|]. rewrite S1 in Ha. destruct Hsce as [-> | ->]; auto.
  - destruct (bool_decide _); [|by simplify_eq]. injection H as <- <-. apply packet_idle; try done. intros ?? ?%not_elem_of_nil; done.
  - by simplify_eq.
Qed.

(** ** The invariant *)

Definition is_ack (p : packet) : Prop := msg_type p.2 = FAILOVER_AUTH_ACK.
Definition ack_key (p : packet) : Z * Z := (msg_sender p.2, msg_currentEpoch p.2).
#[export] Instance is_ack_dec p : Decision (is_ack p).
Proof. unfold is_ack. apply _. Defined.

(** [v] sent [c] its vote for epoch [e]. *)
Definition voted (h : list packet) (v e c : Z) : Prop := exists m, (c, m) ∈ h /\ is_ack (c, m) /\ ack_key (c, m) = (v, e).

(** A node alone: its epochs are ordered, and while it is a slave it knows the masters [V]
    that have the right to vote. *)
Record local_ok (V : gset Z) (n : Z) (st : clusterState) : Prop := {
  lo_myself : myself st = n;
  lo_vote : 0 <= lastVoteEpoch (election st) <= currentEpoch st;
  lo_auth : 0 <= failover_auth_epoch (election st) <= currentEpoch st;
  lo_sent : failover_auth_sent (election st) = true -> 0 < failover_auth_epoch (election st);
  lo_size : ~ is_master st n -> size st = Z.of_nat (base.size V);
  lo_view m nd : ~ is_master st n -> nodes st !! m = Some nd -> nodeIsMaster nd = true -> 0 < numslots nd -> m ∈ V
}.

(** The votes a slave has counted are those of distinct masters, and are not in flight. *)
Definition counted (V : gset Z) (s_net s_hist : list packet) (n : Z) (e : electionState) : Prop :=
  if failover_auth_sent e then
    exists vs, NoDup vs /\ failover_auth_count e = Z.of_nat (length vs) /\
      forall v, v ∈ vs -> v ∈ V /\ voted s_hist v (failover_auth_epoch e) n /\
        forall p, p ∈ s_net -> is_ack p -> ack_key p <> (v, failover_auth_epoch e)
  else failover_auth_count e = 0.

Record inv (V : gset Z) (s : system) : Prop := {
  inv_local n st clk : sys s !! n = Some (st, clk) -> local_ok V n st;
  inv_net p : p ∈ net s -> p ∈ hist s;
  inv_nodup : NoDup (ack_key <$> filter is_ack (net s));
  inv_sender p : p ∈ hist s -> is_ack p ->
    exists st clk, sys s !! msg_sender p.2 = Some (st, clk) /\ msg_currentEpoch p.2 <= lastVoteEpoch (election st);
  inv_target p st clk : p ∈ hist s -> is_ack p -> sys s !! p.1 = Some (st, clk) -> msg_currentEpoch p.2 <= failover_auth_epoch (election st);
  inv_once p q : p ∈ hist s -> q ∈ hist s -> is_ack p -> is_ack q -> ack_key p = ack_key q -> p.1 = q.1;
  inv_request p st clk : p ∈ hist s -> msg_type p.2 = FAILOVER_AUTH_REQUEST -> sys s !! msg_sender p.2 = Some (st, clk) ->
    msg_currentEpoch p.2 <= failover_auth_epoch (election st);
  inv_count n st clk : sys s !! n = Some (st, clk) -> ~ is_master st n -> counted V (net s) (hist s) n (election st);
  inv_won c e : (c, e) ∈ won s -> exists vs, NoDup vs /\ Z.of_nat (base.size V) < 2 * Z.of_nat (length vs) /\
    forall v, v ∈ vs -> v ∈ V /\ voted (hist s) v e c
}.

Lemma voted_app h h' v e c : voted h v e c -> voted (h ++ h') v e c.
Proof. intros (m & Hm & ?). exists m. split; [apply elem_of_app; by left|done]. Qed.

(** Delivering a vote leaves no other packet with its key. *)
Lemma ack_key_delete (l : list packet) i p :
  NoDup (ack_key <$> filter is_ack l) -> l !! i = Some p ->
  NoDup (ack_key <$> filter is_ack (delete i l)) /\
  (is_ack p -> forall q, q ∈ delete i l -> is_ack q -> ack_key q <> ack_key p).
Proof.
  intros Hd Hi. rewrite (delete_Permutation l i p Hi), filter_cons in Hd. destruct (decide (is_ack p)) as [Hp|Hp]; [|by split].
  rewrite fmap_cons in Hd. apply NoDup_cons in Hd as [Hn Hd]. split; [done|]. intros _ q Hq Haq E. apply Hn. rewrite <-E.
  apply list_elem_of_fmap_2, list_elem_of_filter. done.
Qed.

Lemma elem_of_delete (l : list packet) i q : q ∈ delete i l -> q ∈ l.
Proof. revert i. induction l as [|x l IH]; intros [|i]; cbn; [done..|by right|]. rewrite !elem_of_cons. naive_solver. Qed.

(** ** One node moves *)

Section advance.
Context (V : gset Z) (s : system) (n : Z) (st st' : clusterState) (clk clk' : stateClock) (net' msgs : list packet).
Context (Hinv : inv V s) (Hn : sys s !! n = Some (st, clk)).
Context (Hlocal : local_ok V n st').
Context (Hauth : failover_auth_epoch (election st) <= failover_auth_epoch (election st')).
Context (Hvote : lastVoteEpoch (election st) <= lastVoteEpoch (election st')).
Context (Hnet : forall p, p ∈ net' -> p ∈ net s \/ p ∈ msgs) (Hnd : NoDup (ack_key <$> filter is_ack net')).
(** The votes sent are new, and for one node. *)
Context (Hack : forall p, p ∈ msgs -> is_ack p ->
  msg_sender p.2 = n /\ lastVoteEpoch (election st) < msg_currentEpoch p.2 <= lastVoteEpoch (election st') /\
  (forall std clkd, <[n := (st', clk')]> (sys s) !! p.1 = Some (std, clkd) -> msg_currentEpoch p.2 <= failover_auth_epoch (election std)) /\
  (forall q, q ∈ msgs -> is_ack q -> q.1 = p.1)).
Context (Hreq : forall p, p ∈ msgs -> msg_type p.2 = FAILOVER_AUTH_REQUEST ->
  msg_sender p.2 = n /\ msg_currentEpoch p.2 <= failover_auth_epoch (election st')).
Context (Hcount : ~ is_master st' n -> counted V net' (hist s ++ msgs) n (election st')).

(** A node other than [n] keeps its state, and [n] moves forward. *)
Lemma moved m x clkx : <[n := (st', clk')]> (sys s) !! m = Some (x, clkx) ->
  exists y clky, sys s !! m = Some (y, clky) /\ failover_auth_epoch (election y) <= failover_auth_epoch (election x) /\
    ((m = n /\ x = st' /\ y = st) \/ (m <> n /\ x = y)).
Proof.
  intros H. destruct (decide (m = n)) as [->|Hm].
  - rewrite lookup_insert_eq in H. injection H as <- <-. eauto 10.
  - rewrite lookup_insert_ne in H by done. exists x, clkx. split; [done|]. split; [lia|]. by right.
Qed.

Lemma old_votes p : p ∈ hist s -> is_ack p -> msg_sender p.2 = n -> msg_currentEpoch p.2 <= lastVoteEpoch (election st).
Proof. intros Hp Ha E. destruct (inv_sender V s Hinv p Hp Ha) as (y & c & Ey & Hle). rewrite E, Hn in Ey. by injection Ey as <- <-. Qed.

Lemma advance_count m x clkx :
  <[n := (st', clk')]> (sys s) !! m = Some (x, clkx) -> ~ is_master x m -> counted V net' (hist s ++ msgs) m (election x).
Proof.
  intros Hx Hm. destruct (moved m x clkx Hx) as (y & clky & Ey & _ & [(-> & -> & ->)|[Hne ->]]); [by apply Hcount|].
  pose proof (inv_count V s Hinv m y clky Ey Hm) as Hc. unfold counted in *. destruct (failover_auth_sent (election y)); [|done].
  destruct Hc as (vs & Hvs & Hl & Hall). exists vs. split; [done|]. split; [done|]. intros v Hv. destruct (Hall v Hv) as (HV & Hvo & Hno).
  split; [done|]. split; [by apply voted_app|]. intros p Hp Ha. destruct (Hnet p Hp) as [Hp'|Hp']; [by apply Hno|].
  intros Ek. destruct (Hack p Hp' Ha) as (Es & [Hgt _] & _). destruct Hvo as (q & Hq & Haq & Eq).
  unfold ack_key in Ek, Eq. injection Ek as E1 E2. injection Eq as E3 E4.
  assert (Hle : msg_currentEpoch (m, q).2 <= lastVoteEpoch (election st)) by (apply old_votes; [done|done|cbn; congruence]).
  cbn in Hle. lia.
Qed.

Lemma advance_inv : inv V (System (<[n := (st', clk')]> (sys s)) net' (hist s ++ msgs) (won s)).
Proof.
  split; cbn [sys net hist won].
  - intros m x clkx Hx. destruct (moved m x clkx Hx) as (y & clky & Ey & _ & [(-> & -> & ->)|[_ ->]]); [done|]. by eapply inv_local.
  - intros p Hp. apply elem_of_app. destruct (Hnet p Hp); [left; by eapply inv_net|by right].
  - done.
  - intros p Hp Ha. apply elem_of_app in Hp as [Hp|Hp].
    + destruct (inv_sender V s Hinv p Hp Ha) as (y & c & Ey & Hle). destruct (decide (msg_sender p.2 = n)) as [E|Hne].
      * rewrite E in *. rewrite lookup_insert_eq. rewrite Hn in Ey. injection Ey as <- <-. do 2 eexists. split; [done|lia].
      * rewrite lookup_insert_ne by done. eauto.
    + destruct (Hack p Hp Ha) as (-> & ? & _). rewrite lookup_insert_eq. do 2 eexists. split; [done|lia].
  - intros p x clkx Hp Ha Hx. apply elem_of_app in Hp as [Hp|Hp].
    + destruct (moved p.1 x clkx Hx) as (y & clky & Ey & Hle & _). pose proof (inv_target V s Hinv p y clky Hp Ha Ey). lia.
    + destruct (Hack p Hp Ha) as (_ & _ & H & _). by eapply H.
  - intros p q Hp Hq Hap Haq E. apply elem_of_app in Hp as [Hp|Hp]; apply elem_of_app in Hq as [Hq|Hq].
    + by apply (inv_once V s Hinv).
    + destruct (Hack q Hq Haq) as (Es & Hgt & _). unfold ack_key in E. injection E as E1 E2.
      pose proof (old_votes p Hp Hap ltac:(congruence)). lia.
    + destruct (Hack p Hp Hap) as (Es & Hgt & _). unfold ack_key in E. injection E as E1 E2.
      pose proof (old_votes q Hq Haq ltac:(congruence)). lia.
    + destruct (Hack q Hq Haq) as (_ & _ & _ & H). by apply H.
  - intros p x clkx Hp Ht Hx. apply elem_of_app in Hp as [Hp|Hp].
    + destruct (moved _ x clkx Hx) as (y & clky & Ey & Hle & _). pose proof (inv_request V s Hinv p y clky Hp Ht Ey). lia.
    + destruct (Hreq p Hp Ht) as (E & Hle). rewrite E, lookup_insert_eq in Hx. by injection Hx as <- <-.
  - apply advance_count.
  - intros c e Hce. destruct (inv_won V s Hinv c e Hce) as (vs & H1 & H2 & H3). exists vs. split; [done|]. split; [done|].
    intros v Hv. destruct (H3 v Hv). split; [done|]. by apply voted_app.
Qed.
End advance.

(** ** The steps keep the invariant *)

Lemma quiet_master st st' m : quiet st st' -> is_master st m <-> is_master st' m.
Proof.
  intros (_ & _ & F). unfold is_master. specialize (F m).
  split; intros (nd & E & Hm); rewrite E in F; inversion F as [a b [Hf _]|]; subst; eexists; (split; [done|]);
    unfold nodeIsMaster, has_flag in *; congruence.
Qed.

Lemma quiet_node st st' m nd' : quiet st st' -> nodes st' !! m = Some nd' -> exists nd, nodes st !! m = Some nd /\ same_role nd nd'.
Proof. intros (_ & _ & F) E. specialize (F m). rewrite E in F. inversion F; subst. eauto. Qed.

Lemma local_ok_quiet V n st st' :
  local_ok V n st -> quiet st st' ->
  0 <= lastVoteEpoch (election st') <= currentEpoch st' -> 0 <= failover_auth_epoch (election st') <= currentEpoch st' ->
  (failover_auth_sent (election st') = true -> 0 < failover_auth_epoch (election st')) -> local_ok V n st'.
Proof.
  intros [Hmy _ _ _ Hs Hv] Q H1 H2 H3. split; try done.
  - rewrite <-Hmy. symmetry. apply Q.
  - rewrite <-(quiet_master _ _ _ Q). intros Hm. rewrite <-(Hs Hm). symmetry. apply Q.
  - intros m nd'. rewrite <-(quiet_master _ _ _ Q). intros Hm E Hma Hn. destruct (quiet_node _ _ _ _ Q E) as (nd & End & Hf & Hnum).
    apply (Hv m nd Hm End); [|congruence]. unfold nodeIsMaster, has_flag in *. congruence.
Qed.

(** Votes that were counted stay counted. *)
Lemma counted_mono V net1 net2 h1 h2 n e e' :
  counted V net1 h1 n e -> same_election e e' \/ (failover_auth_sent e' = false /\ failover_auth_count e' = 0) ->
  (forall p, p ∈ net2 -> is_ack p -> p ∈ net1) -> counted V net2 (h1 ++ h2) n e'.
Proof.
  unfold counted. intros Hc [(E1 & E2 & E3)|[-> ->]]; [|done]. intros Hsub. rewrite E1, E2, E3. destruct (failover_auth_sent e); [|done].
  destruct Hc as (vs & Hvs & Hl & Hall). exists vs. split; [done|]. split; [done|]. intros v Hv. destruct (Hall v Hv) as (HV & Hvo & Hno).
  split; [done|]. split; [by apply voted_app|]. intros p Hp Ha. by apply Hno; [apply Hsub|].
Qed.

(** A node moves and sends neither votes nor requests. *)
Lemma inv_idle V s n st st' clk clk' net' msgs :
  inv V s -> sys s !! n = Some (st, clk) -> quiet st st' -> currentEpoch st <= currentEpoch st' ->
  failover_auth_epoch (election st') = failover_auth_epoch (election st) -> lastVoteEpoch (election st') = lastVoteEpoch (election st) ->
  same_election (election st) (election st') \/ (failover_auth_sent (election st') = false /\ failover_auth_count (election st') = 0) ->
  (forall p, p ∈ net' -> p ∈ net s \/ p ∈ msgs) -> NoDup (ack_key <$> filter is_ack net') ->
  (forall p, p ∈ msgs -> msg_type p.2 = MFSTART) ->
  inv V (System (<[n := (st', clk')]> (sys s)) net' (hist s ++ msgs) (won s)).
Proof.
  intros Hi Hn Q Hcur Ha Hl He Hnet Hnd Hm. pose proof (inv_local V s Hi n st clk Hn) as Hlo.
  pose proof (lo_vote _ _ _ Hlo). pose proof (lo_auth _ _ _ Hlo). pose proof (lo_sent _ _ _ Hlo).
  apply advance_inv with st clk; try done; try lia.
  - apply local_ok_quiet with st; try done; try lia. rewrite Ha. destruct He as [(_ & _ & ->)|[-> _]]; done.
  - intros p Hp Hap. unfold is_ack in Hap. rewrite (Hm p Hp) in Hap. done.
  - intros p Hp Hap. rewrite (Hm p Hp) in Hap. done.
  - rewrite <-(quiet_master _ _ _ Q). intros Hnm. apply counted_mono with (net s) (election st); [by eapply inv_count|done|].
    intros p Hp Hap. destruct (Hnet p Hp) as [?|Hp']; [done|]. unfold is_ack in Hap. rewrite (Hm p Hp') in Hap. done.
Qed.

Lemma nodup_app_noack (l msgs : list packet) :
  NoDup (ack_key <$> filter is_ack l) -> (forall p, p ∈ msgs -> ~ is_ack p) -> NoDup (ack_key <$> filter is_ack (l ++ msgs)).
Proof.
  intros Hd Hm. rewrite filter_app, fmap_app. assert (E : filter is_ack msgs = []).
  { apply elem_of_nil_inv. intros p [Ha Hp]%list_elem_of_filter. by eapply Hm. }
  by rewrite E, app_nil_r.
Qed.

(** A slave asks for votes. *)
Lemma inv_ask V s n st st' clk clk' msgs :
  inv V s -> sys s !! n = Some (st, clk) -> quiet st st' -> currentEpoch st' = currentEpoch st + 1 ->
  failover_auth_sent (election st) = false -> failover_auth_epoch (election st') = currentEpoch st' ->
  lastVoteEpoch (election st') = lastVoteEpoch (election st) -> failover_auth_count (election st') = failover_auth_count (election st) ->
  failover_auth_sent (election st') = true ->
  (forall p, p ∈ msgs -> msg_type p.2 = FAILOVER_AUTH_REQUEST /\ msg_sender p.2 = n /\ msg_currentEpoch p.2 = currentEpoch st') ->
  inv V (System (<[n := (st', clk')]> (sys s)) (net s ++ msgs) (hist s ++ msgs) (won s)).
Proof.
  intros Hi Hn Q Hcur Hs Ha Hl Hc Hs' Hm. pose proof (inv_local V s Hi n st clk Hn) as Hlo.
  pose proof (lo_vote _ _ _ Hlo). pose proof (lo_auth _ _ _ Hlo).
  assert (Hno : forall p, p ∈ msgs -> ~ is_ack p) by (intros p Hp Hap; destruct (Hm p Hp) as [E _]; unfold is_ack in Hap; rewrite E in Hap; done).
  apply advance_inv with st clk; try done; try lia.
  - apply local_ok_quiet with st; try done; lia.
  - intros p. by rewrite elem_of_app.
  - apply nodup_app_noack; [apply Hi|done].
  - intros p Hp Hap. by destruct (Hno p Hp).
  - intros p Hp _. destruct (Hm p Hp) as (_ & -> & ->). split; [done|lia].
  - rewrite <-(quiet_master _ _ _ Q). intros Hnm. pose proof (inv_count V s Hi n st clk Hn Hnm) as Hcn. unfold counted in *.
    rewrite Hs in Hcn. rewrite Hs'. exists []. split; [constructor|]. split; [cbn; lia|]. by intros v ?%not_elem_of_nil.
Qed.

(** A slave with a majority becomes a master. *)
Lemma inv_win V s n st st' clk clk' :
  inv V s -> sys s !! n = Some (st, clk) -> calm st st' -> is_master st' n -> ~ is_master st n ->
  failover_auth_sent (election st) = true -> size st / 2 + 1 <= failover_auth_count (election st) ->
  inv V (System (<[n := (st', clk')]> (sys s)) (net s) (hist s) ((n, failover_auth_epoch (election st)) :: won s)).
Proof.
  intros Hi Hn (Hmy & Hcur & Ha & Hl & _) Hm Hnm Hs Hq. pose proof (inv_local V s Hi n st clk Hn) as Hlo.
  pose proof (lo_vote _ _ _ Hlo). pose proof (lo_auth _ _ _ Hlo). pose proof (lo_sent _ _ _ Hlo Hs).
  assert (Hi' : inv V (System (<[n := (st', clk')]> (sys s)) (net s) (hist s ++ []) (won s))).
  { apply advance_inv with st clk; try done; try lia.
    - split; try done; try lia. rewrite <-Hmy. apply Hlo.
    - by left.
    - apply Hi.
    - by intros p ?%not_elem_of_nil.
    - by intros p ?%not_elem_of_nil. }
  rewrite app_nil_r in Hi'. destruct Hi' as [I1 I2 I3 I4 I5 I6 I7 I8 I9]. cbn [sys net hist won] in *. split; try done.
  cbn [won hist]. intros c e [[= -> ->]|Hce]%elem_of_cons; [|by apply I9]. pose proof (inv_count V s Hi n st clk Hn Hnm) as Hc. unfold counted in Hc.
  rewrite Hs in Hc. destruct Hc as (vs & Hvs & Hl' & Hall). exists vs. split; [done|]. split.
  - rewrite (lo_size _ _ _ Hlo Hnm), Hl' in Hq. zlia.
  - intros v Hv. destruct (Hall v Hv) as (? & ? & _). done.
Qed.

Section deliver.
Context (V : gset Z) (s : system) (i : nat) (n : Z) (m : clusterMsg) (st st' : clusterState) (clk : stateClock).
Context (Hinv : inv V s) (Hi : net s !! i = Some (n, m)) (Hn : sys s !! n = Some (st, clk)).

Lemma in_flight_sent : (n, m) ∈ hist s.
Proof. apply (inv_net V s Hinv). by eapply list_elem_of_lookup_2. Qed.

Lemma delete_net msgs p : p ∈ delete i (net s) ++ msgs -> p ∈ net s \/ p ∈ msgs.
Proof. rewrite elem_of_app. intros [?|?]; [left; by eapply elem_of_delete|by right]. Qed.

(** A master grants its vote. *)
Lemma inv_vote msgs :
  msg_type m = FAILOVER_AUTH_REQUEST -> quiet st st' -> currentEpoch st <= currentEpoch st' <= msg_currentEpoch m ->
  same_election (election st) (election st') -> lastVoteEpoch (election st) <> currentEpoch st' ->
  lastVoteEpoch (election st') = currentEpoch st' ->
  (msgs = [] \/ exists p, msgs = [(msg_sender m, p)] /\ msg_type p = FAILOVER_AUTH_ACK /\ msg_sender p = myself st /\
     msg_currentEpoch p = currentEpoch st') ->
  inv V (System (<[n := (st', clk)]> (sys s)) (delete i (net s) ++ msgs) (hist s ++ msgs) (won s)).
Proof.
  intros Ht Q [Hc1 Hc2] He Hl1 Hl2 Hmsgs. pose proof (inv_local V s Hinv n st clk Hn) as Hlo.
  pose proof (lo_vote _ _ _ Hlo). pose proof (lo_auth _ _ _ Hlo). pose proof (lo_sent _ _ _ Hlo). pose proof (lo_myself _ _ _ Hlo) as Hmy.
  pose proof He as (Ha & _ & Hsent). destruct (ack_key_delete (net s) i _ (inv_nodup V s Hinv) Hi) as [Hnd _].
  assert (Hp : forall p, p ∈ msgs -> p.1 = msg_sender m /\ is_ack p /\ msg_sender p.2 = n /\ msg_currentEpoch p.2 = currentEpoch st').
  { destruct Hmsgs as [-> |(p & -> & K1 & K2 & K3)]; [by intros p ?%not_elem_of_nil|]. intros q ->%list_elem_of_singleton. cbn. by rewrite <-Hmy. }
  apply advance_inv with st clk; try done; try lia.
  - apply local_ok_quiet with st; try done; try lia. by rewrite Ha, Hsent.
  - intros p. apply delete_net.
  - destruct Hmsgs as [-> |(p & -> & K1 & K2 & K3)]; [by rewrite app_nil_r|].
    rewrite filter_app, filter_cons_True, filter_nil, fmap_app by done. apply NoDup_app. split; [done|]. split; [|apply NoDup_singleton].
    intros k Hk1 Hk2. apply list_elem_of_singleton in Hk2 as ->. apply list_elem_of_fmap in Hk1 as (q & Eq & [Haq Hq]%list_elem_of_filter).
    apply elem_of_delete, (inv_net V s Hinv) in Hq. unfold ack_key in Eq. cbn in Eq. injection Eq as E1 E2.
    pose proof (old_votes V s n st clk Hinv Hn q Hq Haq ltac:(congruence)). lia.
  - intros p Hpm _. destruct (Hp p Hpm) as (E1 & E2 & E3 & E4). split; [done|]. split; [lia|]. split.
    + intros std clkd Hd. rewrite E1 in Hd.
      assert (Hold : exists y clky, sys s !! msg_sender m = Some (y, clky) /\ failover_auth_epoch (election y) = failover_auth_epoch (election std)).
      { destruct (decide (msg_sender m = n)) as [E|Hne]; [rewrite E, lookup_insert_eq in Hd|rewrite lookup_insert_ne in Hd by done; eauto].
        injection Hd as <- <-. rewrite E. eauto. }
      destruct Hold as (y & clky & Ey & Ea). pose proof (inv_request V s Hinv (n, m) y clky in_flight_sent Ht Ey) as Hr. cbn in Hr. lia.
    + intros q Hq _. destruct (Hp q Hq) as [-> _]. done.
  - intros p Hpm Hr. destruct (Hp p Hpm) as (_ & E & _). unfold is_ack in E. congruence.
  - rewrite <-(quiet_master _ _ _ Q). intros Hnm. pose proof (inv_count V s Hinv n st clk Hn Hnm) as Hc. unfold counted in *.
    destruct He as (-> & -> & ->). destruct (failover_auth_sent (election st)); [|done].
    destruct Hc as (vs & Hvs & Hlen & Hall). exists vs. split; [done|]. split; [done|]. intros v Hv. destruct (Hall v Hv) as (HV & Hvo & Hno).
    split; [done|]. split; [by apply voted_app|]. intros p Hpn Hap. destruct (delete_net msgs p Hpn) as [?|Hpm]; [by apply Hno|].
    intros Ek. destruct (Hp p Hpm) as (_ & _ & E3 & E4). destruct Hvo as (q & Hq & Haq & Eq). unfold ack_key in Ek, Eq.
    injection Ek as Ek1 Ek2. injection Eq as Eq1 Eq2.
    pose proof (old_votes V s n st clk Hinv Hn (n, q) Hq Haq ltac:(cbn; congruence)) as Hov. cbn in Hov. lia.
Qed.

(** A slave counts a vote of its current election. *)
Lemma inv_tally nd :
  msg_type m = FAILOVER_AUTH_ACK -> failover_auth_sent (election st) = true -> quiet st st' -> currentEpoch st <= currentEpoch st' ->
  failover_auth_epoch (election st') = failover_auth_epoch (election st) ->
  failover_auth_sent (election st') = failover_auth_sent (election st) ->
  failover_auth_count (election st') = failover_auth_count (election st) + 1 ->
  lastVoteEpoch (election st') = lastVoteEpoch (election st) ->
  nodes st' !! msg_sender m = Some nd -> nodeIsMaster nd = true -> 0 < numslots nd ->
  (failover_auth_epoch (election st) <= 0 \/ failover_auth_epoch (election st) <= msg_currentEpoch m) ->
  inv V (System (<[n := (st', clk)]> (sys s)) (delete i (net s)) (hist s) (won s)).
Proof.
  intros Ht Hs Q Hcur Ha Hs' Hc Hl End Hma Hnum Hep. pose proof (inv_local V s Hinv n st clk Hn) as Hlo.
  pose proof (lo_vote _ _ _ Hlo). pose proof (lo_auth _ _ _ Hlo). pose proof (lo_sent _ _ _ Hlo Hs) as Hpos.
  destruct (ack_key_delete (net s) i _ (inv_nodup V s Hinv) Hi) as [Hnd Huniq].
  assert (Hlo' : local_ok V n st') by (apply local_ok_quiet with st; try done; lia).
  assert (Hin : (n, m) ∈ net s) by (by eapply list_elem_of_lookup_2). pose proof (inv_net V s Hinv _ Hin) as Hh.
  assert (Hack : is_ack (n, m)) by done. pose proof (inv_target V s Hinv (n, m) st clk Hh Hack Hn) as Hle. cbn in Hle.
  assert (Ee : msg_currentEpoch m = failover_auth_epoch (election st)) by lia.
  replace (hist s) with (hist s ++ []) by apply app_nil_r. apply advance_inv with st clk; try done; try lia.
  - intros p Hp. left. by eapply elem_of_delete.
  - by intros p ?%not_elem_of_nil.
  - by intros p ?%not_elem_of_nil.
  - intros Hnm'. assert (Hnm : ~ is_master st n) by (by rewrite (quiet_master _ _ _ Q)).
    pose proof (inv_count V s Hinv n st clk Hn Hnm) as Hcn. unfold counted in *. rewrite Hs', Ha, Hc. rewrite Hs in *.
    destruct Hcn as (vs & Hvs & Hlen & Hall). exists (msg_sender m :: vs). split.
    { apply NoDup_cons. split; [|done]. intros Hv. destruct (Hall _ Hv) as (_ & _ & Hno). apply (Hno (n, m) Hin Hack). unfold ack_key. cbn. by rewrite Ee. }
    split; [cbn [length]; lia|]. intros v [-> |Hv]%elem_of_cons.
    + split; [by apply (lo_view _ _ _ Hlo' _ nd)|]. rewrite app_nil_r. split; [exists m; unfold ack_key; cbn; by rewrite Ee|].
      intros p Hp Hap. rewrite <-Ee. by apply (Huniq Hack p Hp Hap).
    + destruct (Hall v Hv) as (HV & Hvo & Hno). rewrite app_nil_r. split; [done|]. split; [done|]. intros p Hp Hap. apply Hno; [by eapply elem_of_delete|done].
Qed.

Lemma inv_deliver now sv msgs :
  clusterProcessPacket now sv st m = Some (st', msgs) -> timely (election st) m = true ->
  inv V (System (<[n := (st', clk)]> (sys s)) (delete i (net s) ++ msgs) (hist s ++ msgs) (won s)).
Proof.
  intros E Hti. apply bool_decide_eq_true in Hti. destruct (ack_key_delete (net s) i _ (inv_nodup V s Hinv) Hi) as [Hnd _].
  destruct (processPacket_cases _ _ _ _ _ _ E) as [Q C S L M|Ht Q C S L1 L2 M|nd Ht Q C A1 A2 A3 L N1 N2 N3 N4 ->].
  - assert (Hm : forall p, p ∈ msgs -> msg_type p.2 = MFSTART) by (intros [d p] Hp; by apply (M d p)).
    eapply inv_idle; try done; [by destruct S|by left|intros p; apply delete_net|]. apply nodup_app_noack; [done|].
    intros p Hp. unfold is_ack. by rewrite (Hm p Hp).
  - by apply inv_vote.
  - rewrite !app_nil_r. apply inv_tally with nd; auto.
Qed.
End deliver.

Lemma inv_lose V s i : inv V s -> inv V (System (sys s) (delete i (net s)) (hist s) (won s)).
Proof.
  intros [I1 I2 I3 I4 I5 I6 I7 I8 I9]. split; cbn [sys net hist won]; try done.
  - intros p Hp. apply I2. by eapply elem_of_delete.
  - destruct (net s !! i) as [p|] eqn:Ei; [by eapply ack_key_delete|].
    rewrite delete_take_drop, take_ge, drop_ge, app_nil_r by (apply lookup_ge_None in Ei; lia). done.
  - intros n st clk Hn Hm. specialize (I8 n st clk Hn Hm). rewrite <-(app_nil_r (hist s)). eapply counted_mono; [done|by left|].
    intros p Hp _. by eapply elem_of_delete.
Qed.

Lemma sendMFStart_msgs sv st n msgs : clusterSendMFStart sv st n = Some msgs -> forall p, p ∈ msgs -> msg_type p.2 = MFSTART.
Proof.
  unfold clusterSendMFStart. intros H. apply bind_Some in H as (nd & _ & H). destruct (negb _).
  - injection H as <-. by intros p ?%not_elem_of_nil.
  - apply bind_Some in H as (hdr & Eh & [= <-]). apply buildMessageHdr_fields in Eh as [Eh _]. by intros p ->%list_elem_of_singleton.
Qed.

(** CLUSTER FAILOVER, without TAKEOVER, changes the manual failover only. *)
Lemma command_failover_step now sv force st clk st' clk' out r :
  clusterCommand_failover now sv force false st clk = Some (st', clk', out, r) ->
  header_step st st' /\ forall p, p ∈ out_msgs out -> msg_type p.2 = MFSTART.
Proof.
  unfold clusterCommand_failover. intros H. apply bind_Some in H as (me & _ & H).
  destruct (nodeIsMaster me); [injection H as <- _ <- _; split; [done|by intros p ?%not_elem_of_nil]|].
  destruct (slaveof me) as [m|]; [|injection H as <- _ <- _; split; [done|by intros p ?%not_elem_of_nil]].
  apply bind_Some in H as (master & _ & H). destruct (_ && _); [injection H as <- _ <- _; split; [done|by intros p ?%not_elem_of_nil]|].
  destruct (force || false).
  - injection H as <- _ <- _. split; [done|by intros p ?%not_elem_of_nil].
  - apply bind_Some in H as (msgs & Em & [= <- _ <- _]). split; [done|]. by eapply sendMFStart_msgs.
Qed.

Lemma manual_step now sv st : header_step st (clusterHandleManualFailover sv (manualFailoverCheckTimeout now st)).
Proof.
  trans (manualFailoverCheckTimeout now st).
  - unfold manualFailoverCheckTimeout. by destruct (_ && _).
  - unfold clusterHandleManualFailover. by repeat (case_match; try done).
Qed.

Lemma inv_step V s s' : inv V s -> step false s s' -> inv V s'.
Proof.
  intros Hi [a H]. destruct a as [n now rnd sv|i now sv|i|n now sv|n now sv force]; cbn [exec] in H.
  - apply bind_Some in H as ([st clk] & Hn & H). destruct (Z.ltb_spec (currentEpoch st) (2 ^ 64 - 1)); [|done].
    apply bind_Some in H as ([[st' clk'] out] & E & [= <-]). unfold send. cbn [sys net hist won].
    pose proof (inv_local V s Hi n st clk Hn) as Hlo. pose proof (lo_vote _ _ _ Hlo). pose proof (lo_myself _ _ _ Hlo) as Hmy.
    destruct (handleSlaveFailover_cases _ _ _ _ _ _ _ _ E) as [Q C A L S M F|Q S C A L K S' M F|C M1 M2 S K M].
    + rewrite bool_decide_false by done. rewrite M, app_nil_r. eapply inv_idle; try done; [lia| |by left|apply Hi|by intros p ?%not_elem_of_nil].
      destruct S as [[??]|[??]]; [left|by right]. by split.
    + rewrite F, bool_decide_false by apply not_elem_of_nil. eapply inv_ask; try done; [rewrite C; apply wrapu_small; lia|].
      intros [d p] Hp. rewrite <-Hmy. by apply (M d p).
    + rewrite M, !app_nil_r. rewrite Hmy in *. pose proof (inv_win V s n st st' clk clk' Hi Hn C M1 M2 S K) as Hw.
      destruct (bool_decide _); [done|]. destruct Hw as [I1 I2 I3 I4 I5 I6 I7 I8 I9]. split; try done.
      intros c e Hce. apply I9. cbn. by right.
  - apply bind_Some in H as ([n m] & Em & H). apply bind_Some in H as ([st clk] & Hn & H). cbn [orb] in H.
    destruct (timely (election st) m) eqn:Eti; [|done]. apply bind_Some in H as ([st' msgs] & E & [= <-]). unfold send. cbn [sys net hist won].
    by eapply inv_deliver.
  - injection H as <-. by apply inv_lose.
  - apply bind_Some in H as ([st clk] & Hn & [= <-]). unfold send. cbn [sys net hist won].
    destruct (manual_step now sv st) as (Q & C & S & L). rewrite app_nil_r.
    eapply inv_idle; try done; [by destruct S|by left|by left|apply Hi|by intros p ?%not_elem_of_nil].
  - apply bind_Some in H as ([st clk] & Hn & H). apply bind_Some in H as ([[[st' clk'] out] r] & E & [= <-]). unfold send. cbn [sys net hist won].
    destruct (command_failover_step _ _ _ _ _ _ _ _ _ E) as ((Q & C & S & L) & M).
    eapply inv_idle; try done; [by destruct S|by left|intros p; by rewrite elem_of_app|]. apply nodup_app_noack; [apply Hi|].
    intros p Hp. unfold is_ack. by rewrite (M p Hp).
Qed.

(** ** What else changes a node *)

(** The other packets and the failure detector change the node table, the flags, the slots
    and the roles of [st] and raise its epoch. The fields of the elections stay, a master
    stays a master (or asked for no votes before it becomes a slave), and a slave knows the
    number of the voting masters [V] and sees no master with slots outside it. *)
Definition gossip (V : gset Z) (n : Z) (st st' : clusterState) : Prop :=
  myself st' = myself st /\ currentEpoch st <= currentEpoch st' /\
  same_election (election st) (election st') /\ lastVoteEpoch (election st') = lastVoteEpoch (election st) /\
  (~ is_master st' n ->
    (is_master st n -> failover_auth_sent (election st) = false /\ failover_auth_count (election st) = 0) /\
    size st' = Z.of_nat (base.size V) /\
    forall m nd, nodes st' !! m = Some nd -> nodeIsMaster nd = true -> 0 < numslots nd -> m ∈ V).

Inductive moves (V : gset Z) (s : system) : system -> Prop :=
  | moves_handled s' : step false s s' -> moves V s s'
  | moves_told n st clk st' clk' :
      sys s !! n = Some (st, clk) -> gossip V n st st' ->
      moves V s (System (<[n := (st', clk')]> (sys s)) (net s) (hist s) (won s)).

Lemma is_master_dec st n : is_master st n \/ ~ is_master st n.
Proof.
  unfold is_master. destruct (nodes st !! n) as [nd|]; [|right; by intros (? & [=] & _)].
  destruct (nodeIsMaster nd) eqn:E; [left; eauto|right]. intros (? & [= <-] & ?). congruence.
Qed.

Lemma inv_told V s n st clk st' clk' :
  inv V s -> sys s !! n = Some (st, clk) -> gossip V n st st' ->
  inv V (System (<[n := (st', clk')]> (sys s)) (net s) (hist s) (won s)).
Proof.
  intros Hi Hn (Hmy & Hcur & He & Hl & Hs). pose proof (inv_local V s Hi n st clk Hn) as Hlo. pose proof He as (E1 & E2 & E3).
  pose proof (lo_vote _ _ _ Hlo). pose proof (lo_auth _ _ _ Hlo). pose proof (lo_sent _ _ _ Hlo).
  rewrite <-(app_nil_r (hist s)). apply advance_inv with st clk; try done; try lia.
  - split; try lia.
    + rewrite Hmy. apply Hlo.
    + by rewrite E3, E1.
    + intros Hm. by apply Hs.
    + intros m nd Hm. by apply (Hs Hm).
  - by left.
  - apply Hi.
  - by intros p ?%not_elem_of_nil.
  - by intros p ?%not_elem_of_nil.
  - intros Hm. destruct (Hs Hm) as (Hnone & _). destruct (is_master_dec st n) as [Hma|Hma].
    + destruct (Hnone Hma) as [Es Ec]. unfold counted. rewrite E3, Es. congruence.
    + apply counted_mono with (net s) (election st); [by eapply inv_count|by left|done].
Qed.

Lemma inv_moves V s s' : inv V s -> moves V s s' -> inv V s'.
Proof. intros Hi [s1 H|n st clk st' clk' Hn H]; [by eapply inv_step|by eapply inv_told]. Qed.

(** ** The theorems *)

(** No vote has been asked for yet, and every slave knows the voting masters [V]. *)
Definition initial (V : gset Z) (s : system) : Prop :=
  net s = [] /\ hist s = [] /\ won s = [] /\
  forall n st clk, sys s !! n = Some (st, clk) ->
    local_ok V n st /\ failover_auth_sent (election st) = false /\ failover_auth_count (election st) = 0.

Lemma initial_inv V s : initial V s -> inv V s.
Proof.
  intros (En & Eh & Ew & H). split; rewrite ?En, ?Eh, ?Ew; try (by intros; exfalso; eapply not_elem_of_nil).
  - intros n st clk Hn. by apply (H n st clk).
  - constructor.
  - intros n st clk Hn _. destruct (H n st clk Hn) as (_ & Hs & Hc). unfold counted. by rewrite Hs.
Qed.

(** Two majorities of [V] share a member. *)
Lemma majorities_meet (V : gset Z) vs1 vs2 :
  NoDup vs1 -> NoDup vs2 -> (forall v, v ∈ vs1 -> v ∈ V) -> (forall v, v ∈ vs2 -> v ∈ V) ->
  Z.of_nat (base.size V) < 2 * Z.of_nat (length vs1) -> Z.of_nat (base.size V) < 2 * Z.of_nat (length vs2) ->
  exists v, v ∈ vs1 /\ v ∈ vs2.
Proof.
  intros N1 N2 S1 S2 L1 L2. destruct (decide (Exists (fun v => v ∈ vs2) vs1)) as [(v & ? & ?)%Exists_exists|Hno]; [eauto|]. exfalso.
  assert (Hsub : (list_to_set (vs1 ++ vs2) : gset Z) ⊆ V) by (intros v; rewrite elem_of_list_to_set, elem_of_app; intros [?|?]; auto).
  apply subseteq_size in Hsub. rewrite size_list_to_set, length_app in Hsub; [lia|]. apply NoDup_app. split; [done|]. split; [|done].
  intros v H1 H2. apply Hno, Exists_exists. eauto.
Qed.


(** ** An example: a slave (2) of a failed master (1), with two other masters (3, 4) *)

Fixpoint run (late : bool) (l : list action) (s : system) : option system :=
  match l with
  | [] => Some s
  | a :: l => s ← exec late a s; run late l s
  end.

Lemma run_rtc late l s s' : run late l s = Some s' -> rtc (step late) s s'.
Proof.
  revert s. induction l as [|a l IH]; intros s; cbn [run]; [intros [= <-]; constructor|].
  intros H. apply bind_Some in H as (s1 & E & H). eapply rtc_l; [by exists a|]. by apply IH.
Qed.

(** Every master owns one slot, whose bit is in [b]. *)
Definition small_node (f b : Z) (sl : list Z) (master : option Z) : clusterNode :=
  ClusterNode f 1 (b :: replicate (Z.to_nat (CLUSTER_SLOTS / 8 - 1)) 0) (if b =? 0 then 0 else 1) sl master 0 0 true.

Definition small_nodes : gmap Z clusterNode :=
  <[1 := small_node (CLUSTER_NODE_MASTER + CLUSTER_NODE_FAIL) 1 [2] None]>
  (<[2 := small_node CLUSTER_NODE_SLAVE 0 [] (Some 1)]>
  (<[3 := small_node CLUSTER_NODE_MASTER 2 [] None]> (<[4 := small_node CLUSTER_NODE_MASTER 4 [] None]> ∅))).

Definition small_state (me epoch : Z) (e : electionState) : clusterState :=
  ClusterState me epoch CLUSTER_OK 3 small_nodes
    (replicate (Z.to_nat CLUSTER_SLOTS) None) (replicate (Z.to_nat CLUSTER_SLOTS) None)
    (Some 1 :: Some 3 :: Some 4 :: replicate (Z.to_nat (CLUSTER_SLOTS - 3)) None) (replicate (Z.to_nat CLUSTER_SLOTS) 0) e.

Definition small_view : serverView := ServerView 1000 true 10 10 100 true false None None 100 0.
Definition no_election : electionState := Election 0 0 false 0 0 0 0 None 0 false 0.
Definition small_system : system :=
  System (<[2 := (small_state 2 6 no_election, StateClock 0 0)]>
    (<[3 := (small_state 3 6 no_election, StateClock 0 0)]>
    (<[4 := (small_state 4 6 no_election, StateClock 0 0)]> ∅))) [] [] [].

Lemma small_local me : me = 2 \/ me = 3 \/ me = 4 -> local_ok {[1; 3; 4]} me (small_state me 6 no_election).
Proof.
  intros Hme. split; try done. intros m nd _. cbn [small_state nodes]. unfold small_nodes. rewrite !lookup_insert_Some, lookup_empty.
  intros [[<- <-]|[? [[<- <-]|[? [[<- <-]|[? [[<- <-]|[? ?]]]]]]]]; try done; set_solver.
Qed.

Lemma small_initial : initial {[1; 3; 4]} small_system.
Proof.
  split; [done|]. split; [done|]. split; [done|]. intros n st clk. cbn [small_system sys]. rewrite !lookup_insert_Some, lookup_empty.
  intros [[<- E]|[? [[<- E]|[? [[<- E]|[? ?]]]]]]; [injection E as <- <-..|done]; (split; [apply small_local; auto|done]).
Qed.

(** The slave schedules an election, asks for votes, both other masters vote, and it takes over. *)
Definition small_run : list action :=
  [Cron 2 10000 0 small_view; Cron 2 10600 0 small_view; Deliver 0 10601 small_view; Deliver 0 10601 small_view;
   Deliver 2 10602 small_view; Deliver 2 10602 small_view; Cron 2 10700 0 small_view].

Lemma small_run_wins : won <$> run false small_run small_system = Some [(2, 7)].
Proof. vm_compute. reflexivity. Qed.

Lemma run_moves V l s s' : run false l s = Some s' -> rtc (moves V) s s'.
Proof. intros H%run_rtc. eapply rtc_subrel; [|exact H]. by constructor. Qed.


(** A vote of an abandoned election counts for the next one. The slave has scheduled a
    new election and reset its count, a vote for its previous epoch arrives, and when it
    asks for votes in the new epoch that vote is already counted. *)
Theorem stale_vote_counted :
  exists m st1 st2 out,
    let st := small_state 2 7 (Election 20000 0 false 0 7 0 0 None 0 false 0) in
    msg_type m = FAILOVER_AUTH_ACK /\ msg_currentEpoch m = failover_auth_epoch (election st) /\
    failover_auth_sent (election st) = false /\ failover_auth_count (election st) = 0 /\
    clusterProcessPacket 15000 small_view st m = Some (st1, []) /\
    clusterHandleSlaveFailover 20000 0 small_view st1 (StateClock 0 0) = Some (st2, StateClock 0 0, out) /\
    failover_auth_epoch (election st2) = 8 /\ failover_auth_sent (election st2) = true /\ failover_auth_count (election st2) = 1.
Proof.
  exists (ClusterMsg FAILOVER_AUTH_ACK 3 7 1 0 [] 0). do 3 eexists. cbn zeta.
  split; [reflexivity|]. split; [reflexivity|]. split; [reflexivity|]. split; [reflexivity|].
  split; [reflexivity|]. split; [reflexivity|]. split; [reflexivity|]. split; reflexivity.
Qed.
